(* ===== verification/_CoqProject ===== *)
-Q . S2P
Prelude.v
Constants.v
Graypaper.v
ByteOrder.v
Defs.v
MemorySection.v
Memory.v
BasicBlock.v
GasModel.v
Machine.v
Ops.v
OpsSafety.v
Alu.v
Control.v
Interp.v
Program.v
Invocation.v
HostCalls.v
Refine.v
Merkle.v
Mmr.v
Trie.v
StateBase.v
Sums.v
Reports.v
Disputes.v
Shuffle.v
Safrole.v
History.v
Consensus.v
Queue.v
Assurances.v
Storage.v
StateKeys.v
Accounts.v
Pending.v
Guarantees.v
Pipeline.v
AccumContext.v
AccumCalls.v
AccumServe.v
Accumulate.v
Services.v
Preimages.v
Merge.v
Settle.v
Privileges.v
Rounds.v
Statistics.v
AppState.v
Import.v
ImportStorage.v
Availability.v
Refinement.v
Demo.v
DemoHost.v
DemoMerkle.v
DemoState.v
DemoAccum.v
DemoStorage.v
DemoPipeline.v
DemoAccumulate.v
DemoRounds.v
DemoSettle.v
DemoImport.v
DemoRefinement.v
