(* ===== verification/Prelude.v ===== *)
(** * pyjamaz, a JAM node: a verification of its core

    pyjamaz implements the JAM protocol in Python.  This library models the parts that
    decide what the chain computes: the virtual machine that runs services (PVM), the host
    calls it offers to a refinement, the Merkle structures that commit to data, and the
    state components that carry consensus (disputes, validators, entropy, ticket contest,
    authorizer pools, recent history), the assurances and the queue that decide which reports
    are accumulated and in which order, and the storage of states, their keys and the service
    accounts, the statistics, and accumulation: the program of a service, run with the host calls
    that change the accounts, and the rounds in which the services of a block are run side by side
    and what they changed is merged; then the import of a block through all of these, and the
    computation of the reports a guarantor submits.  Paths below are relative to src/pyjamaz.

    ** How the program's parts interact

    A block is imported by [app.py], which hands its extrinsics to the state components
    ([state/components.py]) one after the other.  The consensus components agree on who
    may author the block; the history keeps a mountain range of commitments
    ([merkle.py]).  Work packages are refined, and their results accumulated, by invoking
    the PVM ([pvm/invocation.py]): a program is loaded ([pvm/types.py]), the interpreter
    runs it ([pvm/interpreters/cpython]) paying a block at a time ([pvm/gas_model.py],
    [pvm/basic_block.py]), and each host call is handled by a mutator
    ([hostcalls/invocation.py]) that changes the machine and the context of the invocation.

    ** The files

    The files in dependency order, with what each models:

    - [Prelude]: outcomes and exceptions ([outcome], [eff], [wp]), bounded loops
      ([ploop]), Python's list accesses, little-endian bytes, bit arithmetic.
    - [Constants]: pvm/constants.py and pvm/exceptions.py: opcodes, operand schemes, exit reasons.
    - [Graypaper]: graypaper_constants.py with the three test suites; epochs of state/base.py.
    - [ByteOrder]: the order of [bytes], [bisect.insort] and [sorted] of Python.
    - [Defs]: interpreters/cpython/defs.py: every integer helper, with its arithmetic reading.
    - [MemorySection], [Memory]: memory_section.py and memory.py: access bitmaps, the paged memory.
    - [BasicBlock]: pvm/basic_block.py: decoding, block starts, search.
    - [GasModel]: pvm/gas_model.py: cost table and pipeline simulation of a block.
    - [Machine], [Ops]: the interpreter's state and the 140 handlers of its dispatch table.
    - [OpsSafety]: every handler keeps the machine well formed and ends as the loop expects.
    - [Alu], [Control]: what the handlers compute, against a specification without masks.
    - [Interp]: interpreter_cpython.py: constructor, [invoke], gas accounting.
    - [Program]: pvm/types.py: code blobs, initial memory and registers.
    - [Invocation]: pvm/invocation.py: the host-call loop against the interface
      [InvocationMutator] with its laws [MutatorLaws].
    - [HostCalls]: hostcalls/__init__.py, gas.py, debug.py, part of general.py.
    - [Refine]: hostcalls/refine.py and the refinement and authorisation mutators, which
      discharge [MutatorLaws].
    - [Merkle], [Mmr], [Trie]: merkle.py: binary trees and proofs, mountain range, state trie.
    - [StateBase]: exceptions.py, error codes, validator records, loops that may raise.
    - [Disputes], [Safrole], [History]: the components of state/components.py, with the
      models they use (models/block.py, models/state.py, models/stf_output.py).
    - [Shuffle]: utils.py: shuffle, guarantor assignment, peer identifiers.
    - [Consensus]: the consensus part of the block import (app.py) and validation.py.
    - [Reports]: work reports, guarantees and assurances of models/common.py and models/block.py.
    - [Assurances]: the two transitions of the component on disputes and assurances.
    - [Queue]: accumulation.py, the choice of the reports in models/context.py, the queue and
      history components, and the part of app.py that composes them.
    - [Storage]: state/storage.py over the in-memory engine of storage.py.
    - [StateKeys]: the key constructors of state/base.py; [Accounts]: the service accounts and
      their state in models/state.py, against the class [Codec] with [CodecLaws].
    - [Guarantees]: the validation of the guarantees extrinsic, the guarantor assignments and
      the transition of the reports component.
    - [Pipeline]: the part of the import that carries a report from its guarantee over its
      assurance to its accumulation, with the state it shares.
    - [Pending]: what the pending writes of the accounts do to later reads.
    - [AccumContext]: the data an accumulation changes (models/state.py, hostcalls/models.py)
      and the steps the protocol allows on it, [item_step] and [call_step], with what they keep.
    - [AccumCalls]: hostcalls/accumulate.py, the calls of general.py on accounts, and the mutator
      of hostcalls/invocation.py.
    - [AccumServe]: each of these calls refines the steps of [AccumContext]; the mutator
      discharges [MutatorLaws].
    - [Accumulate]: [pvm_invoke_accumulate] of hostcalls/invocation.py.
    - [Sums]: sums over lists and dictionaries of integers.
    - [Services]: the class Services of state/components.py: preimages, the rounds of
      accumulation, merge, privileges and settlement; [Preimages], [Merge], [Privileges] and
      [Rounds] prove what the extrinsic may hold and does, what a round keeps, who holds a
      privilege after it, and where the gas goes; [Settle], that settling a round does not exhaust
      the stack, and when it fails on the dictionary of services.
    - [Statistics]: the component of that name with its records of models/state.py.
    - [AppState]: the components of the state, reading and storing them ([JamState] of
      models/state.py, state/base.py, [retrieve_jam_state] and [store_jam_state] of app.py).
    - [Import]: the import of a received block in app.py: header checks, [initialize],
      [state_transition] with every component in its order, [_import_block]; the parts of it
      that [Consensus] and [Pipeline] model apart are shown to be parts of it.
    - [ImportStorage]: what an import, accepted or rejected, does to the states of [Storage].
    - [Availability]: availability.py and erasure.py: the limits of a work package, the data its
      bundle is assembled from and how it is checked, the specification of bundle and exports.
    - [Refinement]: refinement.py with the invocations of hostcalls/invocation.py it makes: from a
      package to the report that a guarantor signs and [Guarantees] checks.
    - [Demo], [DemoHost], [DemoMerkle], [DemoState], [DemoAccum], [DemoStorage],
      [DemoPipeline], [DemoAccumulate], [DemoRounds], [DemoSettle], [DemoImport],
      [DemoRefinement]: concrete programs, machines, codecs, hashes and chains on which the theorems are instantiated.

    ** How state and effects are modelled

    A Python object is a record of its attributes and a method a computation of [eff]: it
    returns or raises and keeps what it changed before raising.  Code that changes no
    object is in [outcome].  Machine integers are [Z] with the masks the source writes;
    bytes are lists of [Z]; dictionaries and sets are [gmap] and [gset].  Shared objects are
    modelled where it matters: the reorder entries of the gas model are numbered, the
    memory of an inner machine is its own object, the sections of a memory are addresses
    into its mapping.  Results of [deepcopy] are values.  The settings a definition reads are
    its arguments, and so is the depth of Python's stack where the code recurses with the data
    ([check_service_id], [full_sequential_accumulation]); the recursion of [priority_queue] alone
    is taken to fit into it.

    Code outside the repository is a parameter: the codec (class [JamCodec] with
    [JamCodecLaws], [FetchCodec], [BundleCodecLaws]), the erasure code ([ErasureLaws]), hashes
    ([HashLaws]), Ed25519 and the VRFs (functions that answer [None] where the library raises
    [ValueError]).  The order in which a thread
    pool completes its tasks is an argument.

    ** What the theorems show

    - The machine: [invoke] ends within a bound computed from gas and code, never goes
      below zero gas, charges exactly the blocks it enters, and lets no exception escape
      but those it documents ([Interp]); each handler keeps the invariants ([OpsSafety]) and
      computes its specification ([Alu], [Control]).
    - Memory: accesses succeed exactly on permitted pages, a refused access changes
      nothing, writes read back, and every operation keeps the invariant ([Memory]).
    - Code: decoding refines a relational specification and block costs are positive
      ([BasicBlock], [GasModel]).
    - Invocations: the host-call loop ends for every mutator with the laws; loading a
      program never raises; the refinement's host calls keep the context's invariant,
      inner machines included ([Invocation], [Program], [HostCalls], [Refine]).
    - Merkle structures: proofs are complete and sound, roots bind their contents up to a
      collision (of proofs, one among the strings hashed for the root and the proof), and the
      mountain range stands for all values inserted ([Merkle], [Mmr], [Trie]).
    - Disputes: the transition refines the protocol's rules, keeps its lists sorted and
      disjoint, and a verdict needs a supermajority of signatures ([Disputes]).
    - Ticket contest: what a block does to it, its invariant, its errors, and that the order
      in which the thread pool completes does not matter ([Safrole]).
    - Pools, history and assignment: exact accounting of authorizations, the kept history
      represents the whole chain, each core gets three validators ([History], [Shuffle]).
    - Composition: importing a block keeps the invariant of the consensus state, raises only
      the application's errors, and is sealed by the slot's holder ([Consensus]).

    - Availability and order: a report becomes available only by a supermajority of signed
      assurances; reports are accumulated after what they depend on, whatever blocks are
      skipped and however few are accumulated at a time ([Assurances], [Queue]).
    - Guarantees: the validation accepts exactly the extrinsics that meet the protocol's
      conditions, and whatever is pending was guaranteed by signers of its core; over a run
      of blocks a report is accumulated only after it was guaranteed and assured
      ([Guarantees], [Pipeline]).
    - Accumulation: every host call refines the steps the protocol allows, whatever the program;
      hence funds are conserved, other services untouched, accounts solvent, privileges kept,
      and an invocation ends ([AccumContext], [AccumServe], [Accumulate]).  The states are those
      whose accounts, items and preimages read; whether requests have to is a parameter
      ([Tolerance] of [Pending]), as a service can make one that does not ([request_reads_item]).
    - Rounds: every digest and transfer reaches its service with its gas; finitely many rounds come
      to one result, which is not an exhausted stack, and stay within the gas of the block; no
      service changes another's account or items in the merge, and the privileges follow the
      manager and the holders of the roles ([Rounds], [Settle], [Merge], [Privileges]).
    - Preimages and statistics: an accepted preimage was requested and can be looked up
      afterwards, and nothing else reads otherwise; the statistics add up to what the block carries ([Preimages], [Statistics]).
    - States: reads walk the ancestry and compute the layered state; a transaction, a
      discarded block and a finalization change no other block's state; keys of different
      services or items differ up to hash collisions ([Storage], [StateKeys], [Accounts]).
    - Reports: what a guarantor computes passes every check of a guarantee that concerns the report
      alone, its bundle included; the computation ends whatever the programs; the bundle holds
      exactly what the package names, and honest data is accepted ([Availability], [Refinement]).
    - The import as a whole: an accepted block keeps the invariants of consensus and of the
      pipeline and gets a state of its own, every other block keeping its; a rejected one
      leaves no trace ([Import], [ImportStorage]).

    Some theorems show that the code departs from what it means to do:
    [export_empty_raises], [div_u_32_raises], [trailing_zero_bits_32_wrong],
    [clone_section_refuses_limit], [duplicate_tickets_accepted], [is_authorized_bound],
    [unknown_component_raises], [provide_empty_raises], [handover_reverted],
    [request_reads_item], [head_discarded], [forgotten_request_raises].

    ** Bounds and fuel

    Loops whose length the code does not bound run under [ploop] with a computed bound,
    and a theorem shows that the bound is never reached: [invoke_fuel] ((gas + 1) times
    (code length + 1), as every block costs at least one gas and its turns advance the
    counter), the same bound for the host-call loop, [gas_fuel] (110 turns of the pipeline
    per byte of code, the potential of the simulation), [trie_fuel] (a branch per bit of the
    longest key).  The Merkle trees recurse on lists that halve: the fuel is their length.
    The walk to a lookup anchor visits each known header once: [anchor_fuel] is their number
    and one.  The walks of [Storage] visit each parent once: their fuel is the number of parents and
    two.  [priority_queue_rec] removes a report per round: the queue's length is enough.
    [full_sequential_accumulation] recurses on Python's stack, whose depth is its argument;
    [rounds_bound] bounds the rounds by the gas and the reports.
    [bisect_right] halves an interval: the fuel is the list's length.

    ** Not modelled

    The graypaper interpreter, and the collection of extrinsics.  Of app.py: making
    blocks and tickets, the bodies and slot indexes of the block database, the signals to
    subscribers, finalization by the runtime.  What a rejected block has written to its open
    transaction by the time it is refused is an argument of [import_block].
    Of the dictionary of services kept beside the storage ([ServicesState.services]) the accounts,
    which serve tests and dumps; its keys are modelled, as [add_pending_changes] fails on a
    missing one.  Where the order of a Python dictionary could matter it is a parameter
    ([dict_items]).  The numba interpreter (the same machine on compiled arrays), the codec's
    declarative models, erasure coding and cryptography (external libraries), network, RPC,
    fuzzer and command line (I/O), loggers.  Within modelled files, what is left
    out is said at the top of the file or at the definition: logging, profiling, debug
    overrides, and functions nothing calls. *)

From Stdlib Require Import ZArith Lia Bool List.
From stdpp Require Import base numbers option sets list gmap.
Import ListNotations.

#[local] Open Scope Z_scope.

(** ** Notations

    The bit operators of Python's unbounded integers.  Shifts use stdpp's
    [≪] and [≫]. *)

Declare Scope py_scope.
Delimit Scope py_scope with py.
Notation "a .& b" := (Z.land a b) (at level 36, left associativity) : py_scope.
Notation "a .^ b" := (Z.lxor a b) (at level 37, left associativity) : py_scope.
Notation "a .| b" := (Z.lor a b) (at level 38, left associativity) : py_scope.
#[local] Open Scope py_scope.

(** ** Outcomes: a Python computation returns a value or raises *)

Inductive outcome (E A : Type) : Type :=
| Ret (a : A)
| Raise (e : E).
Arguments Ret {E A} a.
Arguments Raise {E A} e.

(** State passing with exceptions: the state survives a raise, as Python's
    objects do. *)
Definition eff (S E A : Type) : Type := S -> outcome E A * S.

#[export] Instance eff_ret {S E} : MRet (eff S E) := fun A a s => (Ret a, s).
#[export] Instance eff_bind {S E} : MBind (eff S E) := fun A B k m s =>
  match m s with
  | (Ret a, s') => k a s'
  | (Raise e, s') => (Raise e, s')
  end.

#[export] Instance outcome_ret {E} : MRet (outcome E) := fun A a => Ret a.
#[export] Instance outcome_bind {E} : MBind (outcome E) := fun A B k m =>
  match m with
  | Ret a => k a
  | Raise e => Raise e
  end.

#[export] Instance outcome_fmap {E} : FMap (outcome E) := fun A B f m =>
  match m with Ret a => Ret (f a) | Raise e => Raise e end.

Definition raise {S E A} (e : E) : eff S E A := fun s => (Raise e, s).
Definition get_state {S E} : eff S E S := fun s => (Ret s, s).
Definition modify {S E} (f : S -> S) : eff S E unit := fun s => (Ret tt, f s).
Definition gets {S E A} (f : S -> A) : eff S E A := fun s => (Ret (f s), s).
(** A computation that reads the state and may raise, but does not change it. *)
Definition lift {S E A} (o : outcome E A) : eff S E A := fun s => (o, s).

Section eff_laws.
Context {S E A B : Type}.
Implicit Types (s : S) (k : A -> eff S E B).

Lemma eff_ret_run (a : A) s : (mret a : eff S E A) s = (Ret a, s).
Proof. done. Qed.
Lemma eff_ret_bind (a : A) k s : (mret a ≫= k) s = k a s.
Proof. done. Qed.
Lemma eff_raise_bind e k s : (raise e ≫= k) s = (Raise e, s).
Proof. done. Qed.
Lemma eff_raise_run e s : (raise e : eff S E A) s = (Raise e, s).
Proof. done. Qed.
Lemma eff_modify_bind f (k : unit -> eff S E B) s : (modify f ≫= k) s = k tt (f s).
Proof. done. Qed.
Lemma eff_modify_run f s : (modify f : eff S E unit) s = (Ret tt, f s).
Proof. done. Qed.
Lemma eff_get_bind (k : S -> eff S E B) s : (get_state ≫= k) s = k s s.
Proof. done. Qed.
Lemma eff_gets_bind (f : S -> A) k s : (gets f ≫= k) s = k (f s) s.
Proof. done. Qed.
Lemma eff_lift_ret_bind (a : A) k s : (lift (Ret a) ≫= k) s = k a s.
Proof. done. Qed.
Lemma eff_lift_raise_bind e k s : (lift (Raise e) ≫= k) s = (Raise e, s).
Proof. done. Qed.
Lemma eff_bind_run (m : eff S E A) k s :
  (m ≫= k) s = match m s with (Ret a, s') => k a s' | (Raise e, s') => (Raise e, s') end.
Proof. done. Qed.

(** A property of the state kept by both parts is kept by the sequence. *)
Lemma eff_bind_inv (I : S -> Prop) (m : eff S E A) k s :
  I (m s).2 -> (forall a s', I s' -> I (k a s').2) -> I ((m ≫= k) s).2.
Proof.
  intros Hm Hk. rewrite eff_bind_run. destruct (m s) as [[a|e] s']; [by apply Hk|done].
Qed.
End eff_laws.

(** Weakest precondition: [Q] of the value and state if [m] returns, [R] of the
    exception and state if it raises. *)
Definition wp {S E A} (m : eff S E A) (Q : A -> S -> Prop) (R : E -> S -> Prop) (s : S) : Prop :=
  match m s with (Ret a, s') => Q a s' | (Raise e, s') => R e s' end.

Section wp_laws.
Context {S E A B : Type}.

Lemma wp_bind (m : eff S E A) (k : A -> eff S E B) Q R s :
  wp m (fun a s' => wp (k a) Q R s') R s -> wp (m ≫= k) Q R s.
Proof. unfold wp. rewrite eff_bind_run. by destruct (m s) as [[]]. Qed.

Lemma wp_mono (m : eff S E A) (Q Q' : A -> S -> Prop) (R R' : E -> S -> Prop) s :
  wp m Q R s -> (forall a s', Q a s' -> Q' a s') -> (forall e s', R e s' -> R' e s') -> wp m Q' R' s.
Proof. unfold wp. destruct (m s) as [[]]; auto. Qed.

Lemma wp_run (m : eff S E A) (Q : A -> S -> Prop) R s a s' : m s = (Ret a, s') -> Q a s' -> wp m Q R s.
Proof. unfold wp. by intros ->. Qed.
End wp_laws.

Create Rewrite HintDb eff.
#[export] Hint Rewrite @eff_ret_run @eff_ret_bind @eff_raise_bind @eff_raise_run
  @eff_modify_bind @eff_modify_run @eff_get_bind @eff_gets_bind
  @eff_lift_ret_bind @eff_lift_raise_bind : eff.

(** ** Loops

    [ploop p f s] runs the loop body [f] at most [p] times: [inl] asks for
    another iteration, [inr] leaves the loop.  Recursion is on the binary
    digits of [p], so a bound such as [2^80] costs nothing when the loop leaves
    early. *)

Section loops.
Context {S R : Type}.

Fixpoint ploop (p : positive) (f : S -> S + R) (s : S) : S + R :=
  match p with
  | xH => f s
  | xO q => match ploop q f s with inl s' => ploop q f s' | inr r => inr r end
  | xI q => match f s with
            | inl s' => match ploop q f s' with
                        | inl s'' => ploop q f s''
                        | inr r => inr r
                        end
            | inr r => inr r
            end
  end.

(** The unary reading of the same loop, used in proofs. *)
Fixpoint nloop (n : nat) (f : S -> S + R) (s : S) : S + R :=
  match n with
  | O => inl s
  | Datatypes.S k => match f s with inl s' => nloop k f s' | inr r => inr r end
  end.

Lemma nloop_add n m f s :
  nloop (n + m) f s
  = match nloop n f s with inl s' => nloop m f s' | inr r => inr r end.
Proof.
  revert s; induction n as [|n IH]; intros s; simpl; [done|].
  destruct (f s); [apply IH|done].
Qed.

Lemma ploop_nloop p f s : ploop p f s = nloop (Pos.to_nat p) f s.
Proof.
  revert s; induction p as [q IH|q IH|]; intros s; cbn [ploop].
  - rewrite Pos2Nat.inj_xI. cbn [nloop]. destruct (f s) as [s'|r]; [|done].
    replace (2 * Pos.to_nat q)%nat
      with (Pos.to_nat q + Pos.to_nat q)%nat by lia.
    rewrite nloop_add, <-IH. destruct (ploop q f s'); [apply IH|done].
  - rewrite Pos2Nat.inj_xO.
    replace (2 * Pos.to_nat q)%nat with (Pos.to_nat q + Pos.to_nat q)%nat by lia.
    rewrite nloop_add, <-IH. destruct (ploop q f s); [apply IH|done].
  - change (Pos.to_nat 1) with 1%nat. cbn [nloop]. destruct (f s); done.
Qed.

(** Partial correctness of a loop, from an invariant of its body. *)
Lemma nloop_inv (I : S -> Prop) (Q : R -> Prop) n f s :
  (forall s, I s -> match f s with inl s' => I s' | inr r => Q r end) ->
  I s -> match nloop n f s with inl s' => I s' | inr r => Q r end.
Proof.
  intros Hf. revert s; induction n as [|n IH]; intros s Hs; simpl; [done|].
  specialize (Hf s Hs). destruct (f s); [by apply IH|done].
Qed.

(** Total correctness: a measure that every further iteration lowers bounds
    the number of iterations. *)
Lemma nloop_total (I : S -> Prop) (Q : R -> Prop) (mu : S -> nat) f :
  (forall s, I s -> match f s with
                    | inl s' => I s' /\ (mu s' < mu s)%nat
                    | inr r => Q r
                    end) ->
  forall n s, I s -> (mu s < n)%nat -> exists r, nloop n f s = inr r /\ Q r.
Proof.
  intros Hf n. induction n as [|n IH]; intros s Hs Hn; [lia|].
  simpl. specialize (Hf s Hs). destruct (f s) as [s'|r].
  - destruct Hf. apply IH; [done|lia].
  - by exists r.
Qed.

Lemma ploop_total (I : S -> Prop) (Q : R -> Prop) (mu : S -> Z) f :
  (forall s, I s -> 0 <= mu s) ->
  (forall s, I s -> match f s with
                    | inl s' => I s' /\ mu s' < mu s
                    | inr r => Q r
                    end) ->
  forall p s, I s -> mu s < Z.pos p -> exists r, ploop p f s = inr r /\ Q r.
Proof.
  intros H0 Hf p s Hs Hp. rewrite ploop_nloop.
  apply (nloop_total I Q (fun s => Z.to_nat (mu s))); [|done|lia].
  intros s1 H1. pose proof (Hf s1 H1) as Hs1. destruct (f s1) as [s2|]; [|done].
  destruct Hs1 as [H2 ?]. pose proof (H0 _ H2). split; [done|lia].
Qed.

Lemma ploop_inv (I : S -> Prop) (Q : R -> Prop) p f s :
  (forall s, I s -> match f s with inl s' => I s' | inr r => Q r end) ->
  I s -> match ploop p f s with inl s' => I s' | inr r => Q r end.
Proof. rewrite ploop_nloop. apply nloop_inv. Qed.

(** More iterations do not change the result of a loop that has left. *)
Lemma nloop_more n m f s r : nloop n f s = inr r -> nloop (n + m) f s = inr r.
Proof. intros H. by rewrite nloop_add, H. Qed.

Lemma ploop_more p q f s r :
  (p <= q)%positive -> ploop p f s = inr r -> ploop q f s = inr r.
Proof.
  rewrite !ploop_nloop. intros Hle H.
  replace (Pos.to_nat q) with (Pos.to_nat p + (Pos.to_nat q - Pos.to_nat p))%nat by lia.
  by apply nloop_more.
Qed.
End loops.

(** ** Python sequences *)

(** [l[i]]: a negative index counts from the end; out of range raises
    [IndexError], here [None]. *)
Definition py_index {A} (l : list A) (i : Z) : option A :=
  let n := Z.of_nat (length l) in
  if (0 <=? i) && (i <? n) then l !! Z.to_nat i
  else if (- n <=? i) && (i <? 0) then l !! Z.to_nat (n + i)
  else None.

Lemma py_index_nonneg {A} (l : list A) i : 0 <= i -> py_index l i = l !! Z.to_nat i.
Proof.
  intros Hi. unfold py_index.
  destruct (Z.leb_spec 0 i); [|lia].
  destruct (Z.ltb_spec i (Z.of_nat (length l))); simpl; [done|].
  destruct (Z.ltb_spec i 0); [lia|]. rewrite andb_false_r.
  symmetry. apply lookup_ge_None_2. lia.
Qed.

Lemma py_index_Some {A} (l : list A) i :
  0 <= i < Z.of_nat (length l) -> is_Some (py_index l i).
Proof.
  intros Hi. rewrite py_index_nonneg by lia. apply lookup_lt_is_Some_2. lia.
Qed.

(** [range(lo, hi)]. *)
Definition py_range (lo hi : Z) : list Z :=
  map (fun k => lo + Z.of_nat k) (seq 0 (Z.to_nat (hi - lo))).

Lemma elem_of_py_range lo hi x : x ∈ py_range lo hi <-> lo <= x < hi.
Proof.
  unfold py_range. rewrite list_elem_of_In, in_map_iff. split.
  - intros (k & <- & Hk). apply in_seq in Hk. lia.
  - intros H. exists (Z.to_nat (x - lo)). split; [lia|]. apply in_seq. lia.
Qed.

Lemma py_range_cons lo hi : lo < hi -> py_range lo hi = lo :: py_range (lo + 1) hi.
Proof.
  intros H. unfold py_range.
  replace (Z.to_nat (hi - lo)) with (S (Z.to_nat (hi - (lo + 1)))) by lia.
  cbn [seq map]. f_equal; [lia|]. rewrite <-seq_shift, map_map.
  apply map_ext. lia.
Qed.

Lemma py_range_nil lo hi : hi <= lo -> py_range lo hi = [].
Proof. intros H. unfold py_range. by replace (Z.to_nat (hi - lo)) with O by lia. Qed.

Lemma py_range_app lo mid hi :
  lo <= mid <= hi -> py_range lo hi = py_range lo mid ++ py_range mid hi.
Proof.
  remember (Z.to_nat (mid - lo)) as n eqn:Hn. revert lo Hn.
  induction n as [|n IH]; intros lo Hn H.
  - replace lo with mid by lia. by rewrite (py_range_nil mid mid).
  - rewrite (py_range_cons lo hi), (py_range_cons lo mid) by lia. cbn [app].
    f_equal. apply IH; lia.
Qed.

Lemma length_py_range lo hi : length (py_range lo hi) = Z.to_nat (hi - lo).
Proof. unfold py_range. by rewrite length_map, length_seq. Qed.

Lemma NoDup_py_range lo hi : NoDup (py_range lo hi).
Proof. apply NoDup_fmap_2_strong; [intros; lia|apply NoDup_seq]. Qed.

(** A set of integers between two bounds is no larger than the range. *)
Lemma size_between (X : gset Z) lo hi :
  (forall x, x ∈ X -> lo <= x < hi) -> Z.of_nat (size X) <= Z.max 0 (hi - lo).
Proof.
  intros HX. assert (X ⊆ list_to_set (py_range lo hi)) as Hsub.
  { intros x Hx. apply elem_of_list_to_set, elem_of_py_range. by apply HX. }
  apply subseteq_size in Hsub. rewrite size_list_to_set in Hsub by apply NoDup_py_range.
  rewrite length_py_range in Hsub. lia.
Qed.

Lemma lookup_map {A B} (f : A -> B) l i : map f l !! i = option_map f (l !! i).
Proof. revert i. induction l as [|x l IH]; intros [|i]; [done|done|done|]. apply IH. Qed.

Lemma forallb_ext {A} (f g : A -> bool) l :
  (forall x, x ∈ l -> f x = g x) -> forallb f l = forallb g l.
Proof.
  induction l as [|a l IH]; intros H; [done|]. cbn [forallb].
  rewrite (H a) by left. f_equal. apply IH. intros x Hx. apply H. by right.
Qed.

(** ** Bytes *)

Definition is_byte (b : Z) : Prop := 0 <= b < 256.
Abbreviation bytes := (list Z).

(** [int.from_bytes(bs, 'little')] *)
Fixpoint le_int (bs : bytes) : Z :=
  match bs with
  | [] => 0
  | b :: r => b + 256 * le_int r
  end.

(** [x.to_bytes(n, 'little')], for [x] in range *)
Fixpoint le_bytes (n : nat) (x : Z) : bytes :=
  match n with
  | O => []
  | S k => x mod 256 :: le_bytes k (x / 256)
  end.

Lemma length_le_bytes n x : length (le_bytes n x) = n.
Proof. revert x; induction n; intros; simpl; auto. Qed.

Lemma le_bytes_bytes n x : Forall is_byte (le_bytes n x).
Proof.
  revert x; induction n; intros; simpl; constructor; [|done].
  unfold is_byte. apply Z.mod_pos_bound. lia.
Qed.

Lemma le_int_range bs :
  Forall is_byte bs -> 0 <= le_int bs < 256 ^ Z.of_nat (length bs).
Proof.
  induction 1 as [|b r Hb _ IH]; simpl length; cbn [le_int]; [lia|].
  rewrite Nat2Z.inj_succ, Z.pow_succ_r by lia. unfold is_byte in Hb. lia.
Qed.

Lemma le_int_le_bytes n x : le_int (le_bytes n x) = x mod 256 ^ Z.of_nat n.
Proof.
  revert x; induction n as [|n IH]; intros x; cbn [le_int le_bytes].
  - change (256 ^ Z.of_nat 0) with 1. by rewrite Z.mod_1_r.
  - rewrite IH, Nat2Z.inj_succ, Z.pow_succ_r by lia.
    symmetry. apply Z.rem_mul_r; [lia|]. apply Z.pow_pos_nonneg; lia.
Qed.

Lemma le_bytes_le_int bs : Forall is_byte bs -> le_bytes (length bs) (le_int bs) = bs.
Proof.
  induction 1 as [|b r Hb _ IH]; [done|]. cbn [length le_bytes le_int].
  unfold is_byte in Hb. f_equal.
  - rewrite Z.mul_comm, Z.mod_add, Z.mod_small by lia. done.
  - replace ((b + 256 * le_int r) / 256) with (le_int r); [done|].
    rewrite Z.mul_comm, Z.div_add, (Z.div_small b) by lia. lia.
Qed.

Lemma le_bytes_mod n x : le_bytes n (x mod 256 ^ Z.of_nat n) = le_bytes n x.
Proof.
  rewrite <-le_int_le_bytes. rewrite <-(length_le_bytes n x) at 1.
  apply le_bytes_le_int, le_bytes_bytes.
Qed.

Lemma le_int_app a b :
  le_int (a ++ b) = le_int a + 256 ^ Z.of_nat (length a) * le_int b.
Proof.
  induction a as [|x a IH]; [cbn [app le_int length]; lia|].
  cbn [app le_int length]. rewrite IH, Nat2Z.inj_succ, Z.pow_succ_r by lia. ring.
Qed.

(** ** Bits of integers *)

Lemma land_mask x n : 0 <= n -> x .& (2 ^ n - 1) = x mod 2 ^ n.
Proof. intros. replace (2 ^ n - 1) with (Z.ones n) by (rewrite Z.ones_equiv; lia).
  by apply Z.land_ones. Qed.

Lemma land_pow2 x k : 0 <= k -> x .& 2 ^ k = if Z.testbit x k then 2 ^ k else 0.
Proof.
  intros Hk. apply Z.bits_inj'. intros i Hi.
  rewrite Z.land_spec, Z.pow2_bits_eqb by lia.
  destruct (Z.eqb_spec k i) as [<-|Hne].
  - destruct (Z.testbit x k); [by rewrite Z.pow2_bits_true by lia|by rewrite Z.bits_0].
  - rewrite andb_false_r. destruct (Z.testbit x k); [|by rewrite Z.bits_0].
    rewrite Z.pow2_bits_false by lia. done.
Qed.

(** The top bit of a [k+1]-bit integer says whether it reaches [2^k]. *)
Lemma testbit_top x k : 0 <= k -> 0 <= x < 2 ^ (k + 1) -> Z.testbit x k = (2 ^ k <=? x).
Proof.
  intros Hk Hx. rewrite Z.pow_add_r in Hx by lia. change (2 ^ 1) with 2 in Hx.
  pose proof (Z.pow_pos_nonneg 2 k).
  destruct (Z.leb_spec (2 ^ k) x) as [H1|H1].
  - apply Z.testbit_true; [done|].
    replace (x / 2 ^ k) with 1; [done|].
    apply (Z.div_unique_pos _ _ 1 (x - 2 ^ k)); lia.
  - apply Z.testbit_false; [done|]. by rewrite Z.div_small by lia.
Qed.

(** [lor] of integers with disjoint bits is addition. *)
Lemma lor_low_high x y n : 0 <= n -> 0 <= x < 2 ^ n -> y mod 2 ^ n = 0 -> x .| y = x + y.
Proof.
  intros Hn Hx Hy. assert (x .& y = 0) as Hxy.
  { apply Z.bits_inj'. intros i Hi. rewrite Z.land_spec, Z.bits_0.
    destruct (Z.lt_ge_cases i n).
    - replace y with (2 ^ n * (y / 2 ^ n)) by
        (pose proof (Z.div_mod y (2 ^ n)); lia).
      rewrite (Z.mul_comm (2 ^ n)), Z.mul_pow2_bits_low by lia. by rewrite andb_false_r.
    - rewrite <-(Z.mod_small x (2 ^ n)) by lia.
      by rewrite Z.mod_pow2_bits_high by lia. }
  rewrite <-Z.lxor_lor by done. symmetry. by apply Z.add_nocarry_lxor.
Qed.

(** Ranges of the bit operators. *)
Lemma range_bits x n : 0 <= n -> 0 <= x < 2 ^ n -> forall i, n <= i -> Z.testbit x i = false.
Proof.
  intros Hn Hx i Hi. rewrite <-(Z.mod_small x (2 ^ n)) by lia.
  by apply Z.mod_pow2_bits_high.
Qed.

Lemma bits_range x n :
  0 <= n -> 0 <= x -> (forall i, n <= i -> Z.testbit x i = false) -> 0 <= x < 2 ^ n.
Proof.
  intros Hn Hx Hb. split; [done|]. replace x with (x mod 2 ^ n).
  - apply Z.mod_pos_bound. by apply Z.pow_pos_nonneg.
  - apply Z.bits_inj'. intros i Hi. destruct (Z.lt_ge_cases i n).
    + by rewrite Z.mod_pow2_bits_low by lia.
    + by rewrite Z.mod_pow2_bits_high, Hb by lia.
Qed.

Section bit_ranges.
Context (n : Z) (Hn : 0 <= n).

Lemma land_range x y : 0 <= x < 2 ^ n -> 0 <= y -> 0 <= x .& y < 2 ^ n.
Proof using Hn.
  intros Hx Hy. apply bits_range; [done|apply Z.land_nonneg; lia|].
  intros i Hi. by rewrite Z.land_spec, (range_bits x n).
Qed.

Lemma lor_range x y : 0 <= x < 2 ^ n -> 0 <= y < 2 ^ n -> 0 <= x .| y < 2 ^ n.
Proof using Hn.
  intros Hx Hy. apply bits_range; [done|apply Z.lor_nonneg; lia|].
  intros i Hi. by rewrite Z.lor_spec, (range_bits x n), (range_bits y n).
Qed.

Lemma lxor_range x y : 0 <= x < 2 ^ n -> 0 <= y < 2 ^ n -> 0 <= x .^ y < 2 ^ n.
Proof using Hn.
  intros Hx Hy. apply bits_range; [done|apply Z.lxor_nonneg; lia|].
  intros i Hi. by rewrite Z.lxor_spec, (range_bits x n), (range_bits y n).
Qed.
End bit_ranges.

Lemma shiftr_range x n k : 0 <= k -> 0 <= x < n -> 0 <= x ≫ k < n.
Proof.
  intros Hk Hx. rewrite Z.shiftr_div_pow2 by done. pose proof (Z.pow_pos_nonneg 2 k).
  split; [apply Z.div_pos; lia|]. apply Z.div_lt_upper_bound; nia.
Qed.

(** ** Tactics *)

(** Turn the boolean comparisons of the context and the goal into facts. *)
Ltac zcmp :=
  repeat match goal with
  | H : context [?a <? ?b] |- _ => destruct (Z.ltb_spec a b)
  | H : context [?a <=? ?b] |- _ => destruct (Z.leb_spec a b)
  | H : context [?a =? ?b] |- _ => destruct (Z.eqb_spec a b)
  | |- context [?a <? ?b] => destruct (Z.ltb_spec a b)
  | |- context [?a <=? ?b] => destruct (Z.leb_spec a b)
  | |- context [?a =? ?b] => destruct (Z.eqb_spec a b)
  end.

(** ** Assignment to a Python sequence *)

(** [l[i] = x]: out of range raises [IndexError], here [None]. *)
Definition py_set {A} (l : list A) (i : Z) (x : A) : option (list A) :=
  let n := Z.of_nat (length l) in
  if (0 <=? i) && (i <? n) then Some (<[Z.to_nat i := x]> l)
  else if (- n <=? i) && (i <? 0) then Some (<[Z.to_nat (n + i) := x]> l)
  else None.

Lemma py_set_nonneg {A} (l : list A) i x :
  0 <= i < Z.of_nat (length l) -> py_set l i x = Some (<[Z.to_nat i := x]> l).
Proof. intros Hi. unfold py_set.
  by replace ((0 <=? i) && (i <? Z.of_nat (length l))) with true by (zcmp; simpl; lia).
Qed.

(** [-(-a // b)], the ceiling of a quotient. *)
Definition ceil_div (a b : Z) : Z := - ((- a) / b).

Lemma ceil_div_spec a b : 0 < b -> b * (ceil_div a b - 1) < a <= b * ceil_div a b.
Proof. intros Hb. unfold ceil_div. pose proof (Z.mul_div_le (- a) b Hb).
  pose proof (Z.mul_succ_div_gt (- a) b Hb). lia. Qed.

Lemma ceil_div_nonneg a b : 0 < b -> 0 <= a -> 0 <= ceil_div a b.
Proof. intros Hb Ha. pose proof (ceil_div_spec a b Hb). nia. Qed.
