(* ===== verification/Constants.v ===== *)
(** * Constants of the virtual machine

    [pvm/constants.py], [pvm/exceptions.py] and the parts of
    [graypaper_constants.py] the machine uses: page sizes, exit reasons, the
    opcode enumeration with its numbering, the operand scheme of each opcode,
    the width of each memory access and the set of block terminators. *)

From Stdlib Require Import ZArith Lia Bool List.
From stdpp Require Import base numbers decidable countable list gmap.
From S2P Require Import Prelude.
Import ListNotations.

#[local] Open Scope Z_scope.

(** ** Sizes and access modes *)

Definition PVM_PAGE_SIZE : Z := 2 ^ 12.
Definition PVM_INIT_ZONE_SIZE : Z := 2 ^ 16.
Definition PVM_INPUT_DATA_SIZE : Z := 2 ^ 24.
Definition PVM_MAX_CODE_SIZE : Z := 2 ^ 25.
Definition PVM_MAX_JUMP_TABLE_ENTRIES : Z := 2 ^ 24.

Definition MEM_I : Z := 0.
Definition MEM_R : Z := 1.
Definition MEM_W : Z := 2.
Definition MEM_RW : Z := 3.

(** ** Exceptions

    [PyException] stands for every other exception a Python primitive raises
    ([IndexError], [KeyError], [struct.error], [ZeroDivisionError], ...): the
    interpreter loop catches them all in its last [except] clause.  Two that only host
    calls raise are told apart: [RecursionError], and [EncodingError] for a value that its
    codec type cannot hold. *)

Inductive exn : Type :=
| UIntValueError
| InvalidOpcode
| PVMMemoryError
| PanicError
| PVMError
| PVMGasError
| PyException
| RecursionError
| EncodingError.

#[export] Instance exn_eq_dec : EqDecision exn.
Proof. solve_decision. Defined.

(** ** Exit reasons *)

Module ExitReason.
Inductive t : Type := resume | halt | panic | out_of_gas | page_fault | host_halt.

#[export] Instance eq_dec : EqDecision t.
Proof. solve_decision. Defined.
End ExitReason.

(** ** Operand schemes *)

Module InstructionType.
Inductive t : Type :=
| none | imm | reg_ext_imm | imm_imm | offset | reg_imm | reg_imm_imm
| reg_imm_offset | reg_reg | reg_reg_imm | reg_reg_offset | reg_reg_imm_imm
| reg_reg_reg.

#[export] Instance eq_dec : EqDecision t.
Proof. solve_decision. Defined.
End InstructionType.

(** ** Opcodes *)

Module Opcode.
Inductive t : Type :=
| trap | fallthrough | unlikely
| ecalli
| load_imm_64
| store_imm_u8 | store_imm_u16 | store_imm_u32 | store_imm_u64
| jump
| jump_ind | load_imm | load_u8 | load_i8 | load_u16 | load_i16 | load_u32
| load_i32 | load_u64 | store_u8 | store_u16 | store_u32 | store_u64
| store_imm_ind_u8 | store_imm_ind_u16 | store_imm_ind_u32
| store_imm_ind_u64
| load_imm_jump | branch_eq_imm | branch_ne_imm | branch_lt_u_imm
| branch_le_u_imm | branch_ge_u_imm | branch_gt_u_imm | branch_lt_s_imm
| branch_le_s_imm | branch_ge_s_imm | branch_gt_s_imm
| move_reg | count_set_bits_64 | count_set_bits_32 | leading_zero_bits_64
| leading_zero_bits_32 | trailing_zero_bits_64 | trailing_zero_bits_32
| sign_extend_8 | sign_extend_16 | zero_extend_16 | reverse_bytes
| store_ind_u8 | store_ind_u16 | store_ind_u32 | store_ind_u64
| load_ind_u8 | load_ind_i8 | load_ind_u16 | load_ind_i16 | load_ind_u32
| load_ind_i32 | load_ind_u64 | add_imm_32 | and_imm | xor_imm | or_imm
| mul_imm_32 | set_lt_u_imm | set_lt_s_imm | shlo_l_imm_32 | shlo_r_imm_32
| shar_r_imm_32 | neg_add_imm_32 | set_gt_u_imm | set_gt_s_imm
| shlo_l_imm_alt_32 | shlo_r_imm_alt_32 | shar_r_imm_alt_32 | cmov_iz_imm
| cmov_nz_imm | add_imm_64 | mul_imm_64 | shlo_l_imm_64 | shlo_r_imm_64
| shar_r_imm_64 | neg_add_imm_64 | shlo_l_imm_alt_64 | shlo_r_imm_alt_64
| shar_r_imm_alt_64 | rot_r_64_imm | rot_r_64_imm_alt | rot_r_32_imm
| rot_r_32_imm_alt
| branch_eq | branch_ne | branch_lt_u | branch_lt_s | branch_ge_u
| branch_ge_s
| load_imm_jump_ind
| add_32 | sub_32 | mul_32 | div_u_32 | div_s_32 | rem_u_32 | rem_s_32
| shlo_l_32 | shlo_r_32 | shar_r_32 | add_64 | sub_64 | mul_64 | div_u_64
| div_s_64 | rem_u_64 | rem_s_64 | shlo_l_64 | shlo_r_64 | shar_r_64 | _and
| xor | _or | mul_upper_s_s | mul_upper_u_u | mul_upper_s_u | set_lt_u
| set_lt_s | cmov_iz | cmov_nz | rot_l_64 | rot_l_32 | rot_r_64 | rot_r_32
| and_inv | or_inv | xnor | _max | max_u | _min | min_u.

(** The number of an opcode, and back. *)
Definition value (o : t) : Z :=
  match o with
  | trap => 0 | fallthrough => 1 | unlikely => 2
  | ecalli => 10
  | load_imm_64 => 20
  | store_imm_u8 => 30 | store_imm_u16 => 31 | store_imm_u32 => 32
  | store_imm_u64 => 33
  | jump => 40
  | jump_ind => 50 | load_imm => 51 | load_u8 => 52 | load_i8 => 53
  | load_u16 => 54 | load_i16 => 55 | load_u32 => 56 | load_i32 => 57
  | load_u64 => 58 | store_u8 => 59 | store_u16 => 60 | store_u32 => 61
  | store_u64 => 62
  | store_imm_ind_u8 => 70 | store_imm_ind_u16 => 71
  | store_imm_ind_u32 => 72 | store_imm_ind_u64 => 73
  | load_imm_jump => 80 | branch_eq_imm => 81 | branch_ne_imm => 82
  | branch_lt_u_imm => 83 | branch_le_u_imm => 84 | branch_ge_u_imm => 85
  | branch_gt_u_imm => 86 | branch_lt_s_imm => 87 | branch_le_s_imm => 88
  | branch_ge_s_imm => 89 | branch_gt_s_imm => 90
  | move_reg => 100 | count_set_bits_64 => 101 | count_set_bits_32 => 102
  | leading_zero_bits_64 => 103 | leading_zero_bits_32 => 104
  | trailing_zero_bits_64 => 105 | trailing_zero_bits_32 => 106
  | sign_extend_8 => 107 | sign_extend_16 => 108 | zero_extend_16 => 109
  | reverse_bytes => 110
  | store_ind_u8 => 120 | store_ind_u16 => 121 | store_ind_u32 => 122
  | store_ind_u64 => 123 | load_ind_u8 => 124 | load_ind_i8 => 125
  | load_ind_u16 => 126 | load_ind_i16 => 127 | load_ind_u32 => 128
  | load_ind_i32 => 129 | load_ind_u64 => 130 | add_imm_32 => 131
  | and_imm => 132 | xor_imm => 133 | or_imm => 134 | mul_imm_32 => 135
  | set_lt_u_imm => 136 | set_lt_s_imm => 137 | shlo_l_imm_32 => 138
  | shlo_r_imm_32 => 139 | shar_r_imm_32 => 140 | neg_add_imm_32 => 141
  | set_gt_u_imm => 142 | set_gt_s_imm => 143 | shlo_l_imm_alt_32 => 144
  | shlo_r_imm_alt_32 => 145 | shar_r_imm_alt_32 => 146
  | cmov_iz_imm => 147 | cmov_nz_imm => 148 | add_imm_64 => 149
  | mul_imm_64 => 150 | shlo_l_imm_64 => 151 | shlo_r_imm_64 => 152
  | shar_r_imm_64 => 153 | neg_add_imm_64 => 154 | shlo_l_imm_alt_64 => 155
  | shlo_r_imm_alt_64 => 156 | shar_r_imm_alt_64 => 157
  | rot_r_64_imm => 158 | rot_r_64_imm_alt => 159 | rot_r_32_imm => 160
  | rot_r_32_imm_alt => 161
  | branch_eq => 170 | branch_ne => 171 | branch_lt_u => 172
  | branch_lt_s => 173 | branch_ge_u => 174 | branch_ge_s => 175
  | load_imm_jump_ind => 180
  | add_32 => 190 | sub_32 => 191 | mul_32 => 192 | div_u_32 => 193
  | div_s_32 => 194 | rem_u_32 => 195 | rem_s_32 => 196 | shlo_l_32 => 197
  | shlo_r_32 => 198 | shar_r_32 => 199 | add_64 => 200 | sub_64 => 201
  | mul_64 => 202 | div_u_64 => 203 | div_s_64 => 204 | rem_u_64 => 205
  | rem_s_64 => 206 | shlo_l_64 => 207 | shlo_r_64 => 208
  | shar_r_64 => 209 | _and => 210 | xor => 211 | _or => 212
  | mul_upper_s_s => 213 | mul_upper_u_u => 214 | mul_upper_s_u => 215
  | set_lt_u => 216 | set_lt_s => 217 | cmov_iz => 218 | cmov_nz => 219
  | rot_l_64 => 220 | rot_l_32 => 221 | rot_r_64 => 222 | rot_r_32 => 223
  | and_inv => 224 | or_inv => 225 | xnor => 226 | _max => 227
  | max_u => 228 | _min => 229 | min_u => 230
  end.

Definition of_Z (v : Z) : option t :=
  match v with
  | 0 => Some trap | 1 => Some fallthrough | 2 => Some unlikely
  | 10 => Some ecalli
  | 20 => Some load_imm_64
  | 30 => Some store_imm_u8 | 31 => Some store_imm_u16
  | 32 => Some store_imm_u32 | 33 => Some store_imm_u64
  | 40 => Some jump
  | 50 => Some jump_ind | 51 => Some load_imm | 52 => Some load_u8
  | 53 => Some load_i8 | 54 => Some load_u16 | 55 => Some load_i16
  | 56 => Some load_u32 | 57 => Some load_i32 | 58 => Some load_u64
  | 59 => Some store_u8 | 60 => Some store_u16 | 61 => Some store_u32
  | 62 => Some store_u64
  | 70 => Some store_imm_ind_u8 | 71 => Some store_imm_ind_u16
  | 72 => Some store_imm_ind_u32 | 73 => Some store_imm_ind_u64
  | 80 => Some load_imm_jump | 81 => Some branch_eq_imm
  | 82 => Some branch_ne_imm | 83 => Some branch_lt_u_imm
  | 84 => Some branch_le_u_imm | 85 => Some branch_ge_u_imm
  | 86 => Some branch_gt_u_imm | 87 => Some branch_lt_s_imm
  | 88 => Some branch_le_s_imm | 89 => Some branch_ge_s_imm
  | 90 => Some branch_gt_s_imm
  | 100 => Some move_reg | 101 => Some count_set_bits_64
  | 102 => Some count_set_bits_32 | 103 => Some leading_zero_bits_64
  | 104 => Some leading_zero_bits_32 | 105 => Some trailing_zero_bits_64
  | 106 => Some trailing_zero_bits_32 | 107 => Some sign_extend_8
  | 108 => Some sign_extend_16 | 109 => Some zero_extend_16
  | 110 => Some reverse_bytes
  | 120 => Some store_ind_u8 | 121 => Some store_ind_u16
  | 122 => Some store_ind_u32 | 123 => Some store_ind_u64
  | 124 => Some load_ind_u8 | 125 => Some load_ind_i8
  | 126 => Some load_ind_u16 | 127 => Some load_ind_i16
  | 128 => Some load_ind_u32 | 129 => Some load_ind_i32
  | 130 => Some load_ind_u64 | 131 => Some add_imm_32 | 132 => Some and_imm
  | 133 => Some xor_imm | 134 => Some or_imm | 135 => Some mul_imm_32
  | 136 => Some set_lt_u_imm | 137 => Some set_lt_s_imm
  | 138 => Some shlo_l_imm_32 | 139 => Some shlo_r_imm_32
  | 140 => Some shar_r_imm_32 | 141 => Some neg_add_imm_32
  | 142 => Some set_gt_u_imm | 143 => Some set_gt_s_imm
  | 144 => Some shlo_l_imm_alt_32 | 145 => Some shlo_r_imm_alt_32
  | 146 => Some shar_r_imm_alt_32 | 147 => Some cmov_iz_imm
  | 148 => Some cmov_nz_imm | 149 => Some add_imm_64
  | 150 => Some mul_imm_64 | 151 => Some shlo_l_imm_64
  | 152 => Some shlo_r_imm_64 | 153 => Some shar_r_imm_64
  | 154 => Some neg_add_imm_64 | 155 => Some shlo_l_imm_alt_64
  | 156 => Some shlo_r_imm_alt_64 | 157 => Some shar_r_imm_alt_64
  | 158 => Some rot_r_64_imm | 159 => Some rot_r_64_imm_alt
  | 160 => Some rot_r_32_imm | 161 => Some rot_r_32_imm_alt
  | 170 => Some branch_eq | 171 => Some branch_ne | 172 => Some branch_lt_u
  | 173 => Some branch_lt_s | 174 => Some branch_ge_u
  | 175 => Some branch_ge_s
  | 180 => Some load_imm_jump_ind
  | 190 => Some add_32 | 191 => Some sub_32 | 192 => Some mul_32
  | 193 => Some div_u_32 | 194 => Some div_s_32 | 195 => Some rem_u_32
  | 196 => Some rem_s_32 | 197 => Some shlo_l_32 | 198 => Some shlo_r_32
  | 199 => Some shar_r_32 | 200 => Some add_64 | 201 => Some sub_64
  | 202 => Some mul_64 | 203 => Some div_u_64 | 204 => Some div_s_64
  | 205 => Some rem_u_64 | 206 => Some rem_s_64 | 207 => Some shlo_l_64
  | 208 => Some shlo_r_64 | 209 => Some shar_r_64 | 210 => Some _and
  | 211 => Some xor | 212 => Some _or | 213 => Some mul_upper_s_s
  | 214 => Some mul_upper_u_u | 215 => Some mul_upper_s_u
  | 216 => Some set_lt_u | 217 => Some set_lt_s | 218 => Some cmov_iz
  | 219 => Some cmov_nz | 220 => Some rot_l_64 | 221 => Some rot_l_32
  | 222 => Some rot_r_64 | 223 => Some rot_r_32 | 224 => Some and_inv
  | 225 => Some or_inv | 226 => Some xnor | 227 => Some _max
  | 228 => Some max_u | 229 => Some _min | 230 => Some min_u
  | _ => None
  end.

Definition all : list t :=
  [
   trap; fallthrough; unlikely; ecalli; load_imm_64; store_imm_u8;
   store_imm_u16; store_imm_u32; store_imm_u64; jump; jump_ind; load_imm;
   load_u8; load_i8; load_u16; load_i16; load_u32; load_i32; load_u64;
   store_u8; store_u16; store_u32; store_u64; store_imm_ind_u8;
   store_imm_ind_u16; store_imm_ind_u32; store_imm_ind_u64; load_imm_jump;
   branch_eq_imm; branch_ne_imm; branch_lt_u_imm; branch_le_u_imm;
   branch_ge_u_imm; branch_gt_u_imm; branch_lt_s_imm; branch_le_s_imm;
   branch_ge_s_imm; branch_gt_s_imm; move_reg; count_set_bits_64;
   count_set_bits_32; leading_zero_bits_64; leading_zero_bits_32;
   trailing_zero_bits_64; trailing_zero_bits_32; sign_extend_8;
   sign_extend_16; zero_extend_16; reverse_bytes; store_ind_u8;
   store_ind_u16; store_ind_u32; store_ind_u64; load_ind_u8; load_ind_i8;
   load_ind_u16; load_ind_i16; load_ind_u32; load_ind_i32; load_ind_u64;
   add_imm_32; and_imm; xor_imm; or_imm; mul_imm_32; set_lt_u_imm;
   set_lt_s_imm; shlo_l_imm_32; shlo_r_imm_32; shar_r_imm_32;
   neg_add_imm_32; set_gt_u_imm; set_gt_s_imm; shlo_l_imm_alt_32;
   shlo_r_imm_alt_32; shar_r_imm_alt_32; cmov_iz_imm; cmov_nz_imm;
   add_imm_64; mul_imm_64; shlo_l_imm_64; shlo_r_imm_64; shar_r_imm_64;
   neg_add_imm_64; shlo_l_imm_alt_64; shlo_r_imm_alt_64; shar_r_imm_alt_64;
   rot_r_64_imm; rot_r_64_imm_alt; rot_r_32_imm; rot_r_32_imm_alt;
   branch_eq; branch_ne; branch_lt_u; branch_lt_s; branch_ge_u;
   branch_ge_s; load_imm_jump_ind; add_32; sub_32; mul_32; div_u_32;
   div_s_32; rem_u_32; rem_s_32; shlo_l_32; shlo_r_32; shar_r_32; add_64;
   sub_64; mul_64; div_u_64; div_s_64; rem_u_64; rem_s_64; shlo_l_64;
   shlo_r_64; shar_r_64; _and; xor; _or; mul_upper_s_s; mul_upper_u_u;
   mul_upper_s_u; set_lt_u; set_lt_s; cmov_iz; cmov_nz; rot_l_64; rot_l_32;
   rot_r_64; rot_r_32; and_inv; or_inv; xnor; _max; max_u; _min; min_u].

Lemma of_Z_value o : of_Z (value o) = Some o.
Proof. by destruct o. Qed.

#[export] Instance eq_dec : EqDecision t.
Proof.
  intros o p. destruct (Z.eq_dec (value o) (value p)) as [H|H].
  - left. apply (f_equal of_Z) in H. rewrite !of_Z_value in H. by injection H.
  - right. by intros ->.
Defined.
End Opcode.

(** [OpcodeScheme], the dictionary from opcodes to operand schemes. *)
Definition OpcodeScheme (o : Opcode.t) : InstructionType.t :=
  match o with
  | Opcode.trap | Opcode.fallthrough | Opcode.unlikely
    => InstructionType.none
  | Opcode.ecalli
    => InstructionType.imm
  | Opcode.load_imm_64
    => InstructionType.reg_ext_imm
  | Opcode.store_imm_u8 | Opcode.store_imm_u16 | Opcode.store_imm_u32
  | Opcode.store_imm_u64
    => InstructionType.imm_imm
  | Opcode.jump
    => InstructionType.offset
  | Opcode.jump_ind | Opcode.load_imm | Opcode.load_u8 | Opcode.load_i8
  | Opcode.load_u16 | Opcode.load_i16 | Opcode.load_u32 | Opcode.load_i32
  | Opcode.load_u64 | Opcode.store_u8 | Opcode.store_u16 | Opcode.store_u32
  | Opcode.store_u64
    => InstructionType.reg_imm
  | Opcode.store_imm_ind_u8 | Opcode.store_imm_ind_u16
  | Opcode.store_imm_ind_u32 | Opcode.store_imm_ind_u64
    => InstructionType.reg_imm_imm
  | Opcode.load_imm_jump | Opcode.branch_eq_imm | Opcode.branch_ne_imm
  | Opcode.branch_lt_u_imm | Opcode.branch_le_u_imm | Opcode.branch_ge_u_imm
  | Opcode.branch_gt_u_imm | Opcode.branch_lt_s_imm | Opcode.branch_le_s_imm
  | Opcode.branch_ge_s_imm | Opcode.branch_gt_s_imm
    => InstructionType.reg_imm_offset
  | Opcode.move_reg | Opcode.count_set_bits_64 | Opcode.count_set_bits_32
  | Opcode.leading_zero_bits_64 | Opcode.leading_zero_bits_32
  | Opcode.trailing_zero_bits_64 | Opcode.trailing_zero_bits_32
  | Opcode.sign_extend_8 | Opcode.sign_extend_16 | Opcode.zero_extend_16
  | Opcode.reverse_bytes
    => InstructionType.reg_reg
  | Opcode.store_ind_u8 | Opcode.store_ind_u16 | Opcode.store_ind_u32
  | Opcode.store_ind_u64 | Opcode.load_ind_u8 | Opcode.load_ind_i8
  | Opcode.load_ind_u16 | Opcode.load_ind_i16 | Opcode.load_ind_u32
  | Opcode.load_ind_i32 | Opcode.load_ind_u64 | Opcode.add_imm_32
  | Opcode.and_imm | Opcode.xor_imm | Opcode.or_imm | Opcode.mul_imm_32
  | Opcode.set_lt_u_imm | Opcode.set_lt_s_imm | Opcode.shlo_l_imm_32
  | Opcode.shlo_r_imm_32 | Opcode.shar_r_imm_32 | Opcode.neg_add_imm_32
  | Opcode.set_gt_u_imm | Opcode.set_gt_s_imm | Opcode.shlo_l_imm_alt_32
  | Opcode.shlo_r_imm_alt_32 | Opcode.shar_r_imm_alt_32 | Opcode.cmov_iz_imm
  | Opcode.cmov_nz_imm | Opcode.add_imm_64 | Opcode.mul_imm_64
  | Opcode.shlo_l_imm_64 | Opcode.shlo_r_imm_64 | Opcode.shar_r_imm_64
  | Opcode.neg_add_imm_64 | Opcode.shlo_l_imm_alt_64
  | Opcode.shlo_r_imm_alt_64 | Opcode.shar_r_imm_alt_64 | Opcode.rot_r_64_imm
  | Opcode.rot_r_64_imm_alt | Opcode.rot_r_32_imm | Opcode.rot_r_32_imm_alt
    => InstructionType.reg_reg_imm
  | Opcode.branch_eq | Opcode.branch_ne | Opcode.branch_lt_u
  | Opcode.branch_lt_s | Opcode.branch_ge_u | Opcode.branch_ge_s
    => InstructionType.reg_reg_offset
  | Opcode.load_imm_jump_ind
    => InstructionType.reg_reg_imm_imm
  | _ => InstructionType.reg_reg_reg
  end.

(** [MemOps], the dictionary of memory accesses. *)
Record mem_op : Type := { mo_read : bool; mo_write : bool; mo_bytes : Z }.

Definition MemOps (o : Opcode.t) : option mem_op :=
  match o with
  | Opcode.load_u8 | Opcode.load_i8 | Opcode.load_ind_u8 | Opcode.load_ind_i8
    => Some {| mo_read := true; mo_write := false; mo_bytes := 1 |}
  | Opcode.load_u16 | Opcode.load_i16 | Opcode.load_ind_u16
  | Opcode.load_ind_i16
    => Some {| mo_read := true; mo_write := false; mo_bytes := 2 |}
  | Opcode.load_u32 | Opcode.load_i32 | Opcode.load_ind_u32
  | Opcode.load_ind_i32
    => Some {| mo_read := true; mo_write := false; mo_bytes := 4 |}
  | Opcode.load_u64 | Opcode.load_imm_64 | Opcode.load_ind_u64
    => Some {| mo_read := true; mo_write := false; mo_bytes := 8 |}
  | Opcode.store_imm_u8 | Opcode.store_u8 | Opcode.store_ind_u8
  | Opcode.store_imm_ind_u8
    => Some {| mo_read := true; mo_write := true; mo_bytes := 1 |}
  | Opcode.store_imm_u16 | Opcode.store_u16 | Opcode.store_ind_u16
  | Opcode.store_imm_ind_u16
    => Some {| mo_read := true; mo_write := true; mo_bytes := 2 |}
  | Opcode.store_imm_u32 | Opcode.store_u32 | Opcode.store_ind_u32
  | Opcode.store_imm_ind_u32
    => Some {| mo_read := true; mo_write := true; mo_bytes := 4 |}
  | Opcode.store_imm_u64 | Opcode.store_u64 | Opcode.store_ind_u64
  | Opcode.store_imm_ind_u64
    => Some {| mo_read := true; mo_write := true; mo_bytes := 8 |}
  | _ => None
  end.

(** [TERMINATION_OPCODES]: the instructions that end a basic block. *)
Definition TERMINATION_OPCODES : list Opcode.t :=
  [
   Opcode.trap; Opcode.fallthrough; Opcode.jump; Opcode.jump_ind;
   Opcode.load_imm_jump; Opcode.load_imm_jump_ind; Opcode.branch_eq_imm;
   Opcode.branch_ne_imm; Opcode.branch_lt_u_imm; Opcode.branch_ge_u_imm;
   Opcode.branch_le_u_imm; Opcode.branch_gt_u_imm; Opcode.branch_lt_s_imm;
   Opcode.branch_ge_s_imm; Opcode.branch_le_s_imm; Opcode.branch_gt_s_imm;
   Opcode.branch_eq; Opcode.branch_ne; Opcode.branch_lt_u;
   Opcode.branch_lt_s; Opcode.branch_ge_u; Opcode.branch_ge_s].

(** [v in TERMINATION_OPCODES] for a code byte [v]. *)
Definition is_termination (v : Z) : bool :=
  existsb (fun o => Opcode.value o =? v) TERMINATION_OPCODES.

(** [v in valid_opcodes], the values of the enumeration. *)
Definition is_valid_opcode (v : Z) : bool :=
  match Opcode.of_Z v with Some _ => true | None => false end.

Arguments is_termination : simpl never.
Arguments is_valid_opcode : simpl never.

(** ** The enumeration is a bijection with its values *)

Lemma opcode_value_of_Z v o : Opcode.of_Z v = Some o -> Opcode.value o = v.
Proof.
  intros Ho. unfold Opcode.of_Z in Ho. repeat case_match; simplify_eq; reflexivity.
Qed.

Lemma opcode_value_inj o p : Opcode.value o = Opcode.value p -> o = p.
Proof. intros H. pose proof (Opcode.of_Z_value o) as Ho.
  rewrite H, Opcode.of_Z_value in Ho. congruence. Qed.

Lemma opcode_all o : o ∈ Opcode.all.
Proof. apply list_elem_of_In. destruct o; simpl; tauto. Qed.

Lemma opcode_value_range o : 0 <= Opcode.value o < 256.
Proof. by destruct o. Qed.

Lemma is_termination_value o :
  is_termination (Opcode.value o) = true <-> o ∈ TERMINATION_OPCODES.
Proof.
  unfold is_termination. rewrite existsb_exists, list_elem_of_In. split.
  - intros (p & Hp & Hv). apply Z.eqb_eq, opcode_value_inj in Hv. by subst p.
  - intros Ho. exists o. split; [done|]. apply Z.eqb_refl.
Qed.

Lemma is_termination_valid v : is_termination v = true -> is_valid_opcode v = true.
Proof.
  unfold is_termination, is_valid_opcode. intros (o & _ & Ho)%existsb_exists.
  apply Z.eqb_eq in Ho as <-. by rewrite Opcode.of_Z_value.
Qed.
