(* ===== verification/Graypaper.v ===== *)
(** * The protocol's constants

    [graypaper_constants.py]: the parameters of the full network and the overrides of the
    [tiny] and [fuzz] suites, chosen by the setting [TEST_SUITE]; the validator counts the
    protocol admits; epochs ([StateComponent] of [state/base.py]). *)

From Stdlib Require Import ZArith Lia Bool List.
From stdpp Require Import base numbers option list.
From S2P Require Import Prelude.
Import ListNotations.

#[local] Open Scope Z_scope.

(** The constants of [graypaper_constants] that the state components use or a service can
    fetch. *)
Record GpConstants : Type := mkGp {
  MINIMUM_BALANCE_ITEM : Z; MINIMUM_BALANCE_OCTET : Z; MINIMUM_BALANCE_SERVICE : Z; CORE_COUNT : Z;
  PREIMAGE_EXPUNGE_TIMESLOTS : Z; EPOCH_TIMESLOTS : Z; GAS_ACCUMULATION : Z; GAS_INVOKE : Z;
  GAS_REFINE : Z; GAS_TOTAL : Z; HISTORY : Z; MAXIMUM_WORK_ITEMS : Z;
  MAXIMUM_DEPENDENCIES_WORK_REPORT : Z; MAXIMUM_EXTRINSIC_TICKETS : Z; MAXIMUM_AGE_LOOKUP_ANCHOR : Z;
  MAXIMIM_AUTHORIZATION_POOL_ITEMS : Z; SLOT_PERIOD : Z; MAXIMUM_AUTHORIZATION_QUEUE_ITEMS : Z;
  ROTATION_PERIOD_CORE : Z; MAXIMUM_NUMBER_EXTRINSICS_WORK_PACKAGE : Z;
  UNAVAILABLE_WORK_REPLACEMENT_PERIOD : Z; MAXIMUM_SIZE_IS_AUTH_CODE : Z; MAXIMUM_SIZE_WORK_PACKAGE : Z;
  MAXIMUM_SIZE_SERVICE_CODE : Z; MAXIMUM_NUMBER_IMPORTS_WORK_PACKAGE : Z;
  MAXIMUM_SIZE_ENCODED_WORK_REPORT : Z; SIZE_TRANSFER_MEMO : Z;
  MAXIMUM_NUMBER_EXPORTS_WORK_PACKAGE : Z; TICKET_SUBMISSION_END_SLOT : Z; VALIDATOR_COUNT : Z
}.

(** The full network, and the overrides of the [tiny] and [fuzz] test suites. *)
Definition gp_full : GpConstants :=
  mkGp 10 1 100 341 19200 600 10000000 50000000 5000000000 3500000000 8 16 8 16 14400 8 6 80 10 128 5
    64000 13791360 4000000 3072 (48 * 2 ^ 10) 128 3072 500 1023.
Definition gp_tiny : GpConstants :=
  mkGp 10 1 100 2 32 12 10000000 50000000 1000000000 20000000 8 16 8 3 24 8 6 80 4 128 5
    64000 13791360 4000000 3072 (48 * 2 ^ 10) 128 3072 10 6.
Definition gp_fuzz : GpConstants :=
  mkGp 10 1 100 85 900 60 10000000 50000000 1250000000 875000000 8 16 8 4 600 8 6 80 5 128 5
    64000 13791360 4000000 3072 (48 * 2 ^ 10) 128 3072 50 255.

(** [TEST_SUITE] of [settings.py] and the constants it selects. *)
Inductive test_suite : Set := suite_tiny | suite_full | suite_fuzz.

Definition gp_const (t : test_suite) : GpConstants :=
  match t with suite_tiny => gp_tiny | suite_full => gp_full | suite_fuzz => gp_fuzz end.

(** The validator counts of the protocol: a multiple of three, at most three per core. *)
Definition valid_validator_count (count core_count : Z) : bool :=
  (6 <=? count) && (count <=? 3 * core_count) && (count mod 3 =? 0).

(** [MAXIMUM_SIZE_ENCODED_WORK_PACKAGE * SIZE_ERASURE_CODED_PIECES], the same on every suite. *)
Definition EC_SEGMENT_SIZE : Z := 4104.

(** [int.bit_length] of a natural number. *)
Definition bit_length (n : Z) : Z := if n =? 0 then 0 else Z.log2 n + 1.

(** An imported segment and its proof, and the bound on a serialized bundle. *)
Definition IMPORT_SEGMENT_FOOTPRINT (gp : GpConstants) : Z :=
  EC_SEGMENT_SIZE + 32 * bit_length (MAXIMUM_NUMBER_EXPORTS_WORK_PACKAGE gp - 1).
Definition MAXIMUM_SIZE_AUDITABLE_BUNDLE (gp : GpConstants) : Z :=
  MAXIMUM_SIZE_WORK_PACKAGE gp
  + 4 + 32
  + 5 * 32 + 2 * 4 + 1 + 32 * MAXIMUM_DEPENDENCIES_WORK_REPORT gp
  + 2 * 4 + 1
  + MAXIMUM_WORK_ITEMS gp * (4 + 32 + 8 + 8 + 2 + 4 + 2 + 2)
  + MAXIMUM_NUMBER_IMPORTS_WORK_PACKAGE gp * (32 + 2 + 1)
  + MAXIMUM_NUMBER_EXTRINSICS_WORK_PACKAGE gp * (32 + 4).

(** ** Epochs *)

Section epochs.
Context (gp : GpConstants).

Definition is_epoch_change (pre_slotnumber post_slotnumber : Z) : bool :=
  negb (pre_slotnumber / EPOCH_TIMESLOTS gp =? post_slotnumber / EPOCH_TIMESLOTS gp).

Definition slot_phase_index (slot_number : Z) : Z := slot_number mod EPOCH_TIMESLOTS gp.

Definition epoch_number (slot_number : Z) : Z := slot_number / EPOCH_TIMESLOTS gp.
End epochs.

(** The constants the components rely on. *)
Record gp_ok (gp : GpConstants) : Prop := mkGpOk {
  gp_epoch : 0 < EPOCH_TIMESLOTS gp;
  gp_epoch_even : EPOCH_TIMESLOTS gp mod 2 = 0;
  gp_tail : 0 < TICKET_SUBMISSION_END_SLOT gp < EPOCH_TIMESLOTS gp;
  gp_cores : 0 < CORE_COUNT gp;
  gp_history : 0 < HISTORY gp;
  gp_pool : 0 < MAXIMIM_AUTHORIZATION_POOL_ITEMS gp;
  gp_queue : 0 < MAXIMUM_AUTHORIZATION_QUEUE_ITEMS gp;
  gp_rotation : 0 < ROTATION_PERIOD_CORE gp;
  gp_validators : valid_validator_count (VALIDATOR_COUNT gp) (CORE_COUNT gp) = true
}.

Lemma gp_const_ok t : gp_ok (gp_const t).
Proof. destruct t; by split. Qed.

Lemma is_epoch_change_number gp a b :
  is_epoch_change gp a b = true <-> epoch_number gp a <> epoch_number gp b.
Proof. unfold is_epoch_change, epoch_number. destruct (Z.eqb_spec (a / EPOCH_TIMESLOTS gp) (b / EPOCH_TIMESLOTS gp)); naive_solver. Qed.

Lemma slot_phase_index_range gp slot : gp_ok gp -> 0 <= slot_phase_index gp slot < EPOCH_TIMESLOTS gp.
Proof. intros H. apply Z.mod_pos_bound, H. Qed.
