(* ===== verification/ByteOrder.v ===== *)
(** * The order of byte strings, and sorted lists

    Python compares [bytes] lexicographically.  The state components keep hashes and keys
    in sorted lists: [bisect.insort] inserts by binary search, [sorted(..., key=...)] is a
    stable sort.  Both belong to Python's standard library and are written out here as they
    are documented; their lemmas (the result is a permutation; a strictly sorted list stays
    one) carry the proofs of the components. *)

From Stdlib Require Import ZArith Lia Bool List Ascii String Sorted.
From stdpp Require Import base numbers option list sets sorting.
From S2P Require Import Prelude.
Import ListNotations.

#[local] Open Scope Z_scope.

(** A bytes literal, [b'...']. *)
Definition bytes_of_string (s : string) : bytes :=
  map (fun c => Z.of_nat (nat_of_ascii c)) (list_ascii_of_string s).

(** ** Lexicographic comparison *)

Fixpoint bytes_cmp (a b : bytes) : comparison :=
  match a, b with
  | [], [] => Eq
  | [], _ :: _ => Lt
  | _ :: _, [] => Gt
  | x :: a, y :: b => match x ?= y with Eq => bytes_cmp a b | c => c end
  end.

Definition bytes_ltb (a b : bytes) : bool := match bytes_cmp a b with Lt => true | _ => false end.
Definition bytes_leb (a b : bytes) : bool := match bytes_cmp a b with Gt => false | _ => true end.
Definition bytes_lt (a b : bytes) : Prop := bytes_ltb a b = true.
Definition bytes_le (a b : bytes) : Prop := bytes_leb a b = true.

Lemma bytes_cmp_refl a : bytes_cmp a a = Eq.
Proof. induction a as [|x a IH]; simpl; [done|]. by rewrite Z.compare_refl. Qed.

Lemma bytes_cmp_eq a b : bytes_cmp a b = Eq -> a = b.
Proof.
  revert b. induction a as [|x a IH]; intros [|y b]; simpl; try done.
  destruct (x ?= y) eqn:E; try done. apply Z.compare_eq in E as ->. intros ?%IH. by subst.
Qed.

Lemma bytes_cmp_antisym a b : bytes_cmp b a = CompOpp (bytes_cmp a b).
Proof.
  revert b. induction a as [|x a IH]; intros [|y b]; simpl; try done.
  rewrite (Z.compare_antisym x y). destruct (x ?= y); simpl; auto.
Qed.

Lemma bytes_cmp_lt_trans a b c : bytes_cmp a b = Lt -> bytes_cmp b c = Lt -> bytes_cmp a c = Lt.
Proof.
  revert b c. induction a as [|x a IH]; intros [|y b] [|z c]; simpl; try done.
  destruct (Z.compare_spec x y), (Z.compare_spec y z); intros H1 H2; try done; subst.
  - rewrite Z.compare_refl. by eapply IH.
  - by rewrite (proj2 (Z.compare_lt_iff _ _)).
  - by rewrite (proj2 (Z.compare_lt_iff _ _)).
  - by rewrite (proj2 (Z.compare_lt_iff _ _)) by lia.
Qed.

Lemma bytes_lt_cmp a b : bytes_lt a b <-> bytes_cmp a b = Lt.
Proof. unfold bytes_lt, bytes_ltb. by destruct (bytes_cmp a b). Qed.

#[export] Instance bytes_lt_dec : RelDecision bytes_lt.
Proof. intros a b. unfold bytes_lt. apply _. Defined.
#[export] Instance bytes_le_dec : RelDecision bytes_le.
Proof. intros a b. unfold bytes_le. apply _. Defined.

#[export] Instance bytes_lt_trans : Transitive bytes_lt.
Proof. intros a b c. rewrite !bytes_lt_cmp. apply bytes_cmp_lt_trans. Qed.
#[export] Instance bytes_lt_irrefl : Irreflexive bytes_lt.
Proof. intros a. unfold complement. rewrite bytes_lt_cmp, bytes_cmp_refl. done. Qed.

Lemma bytes_lt_ne a b : bytes_lt a b -> a <> b.
Proof. intros H ->. by apply (irreflexivity bytes_lt b). Qed.

Lemma bytes_not_lt a b : ~ bytes_lt a b <-> bytes_le b a.
Proof.
  unfold bytes_lt, bytes_le, bytes_ltb, bytes_leb. rewrite (bytes_cmp_antisym a b).
  destruct (bytes_cmp a b); simpl; split; congruence.
Qed.

Lemma bytes_le_lt_eq a b : bytes_le a b <-> bytes_lt a b \/ a = b.
Proof.
  unfold bytes_le, bytes_leb. rewrite bytes_lt_cmp. destruct (bytes_cmp a b) eqn:E.
  - apply bytes_cmp_eq in E. naive_solver.
  - naive_solver.
  - split; [done|intros [ | ->]]; [done|]. by rewrite bytes_cmp_refl in E.
Qed.

Lemma bytes_ltb_spec a b : reflect (bytes_lt a b) (bytes_ltb a b).
Proof. unfold bytes_lt. destruct (bytes_ltb a b); by constructor. Qed.

#[export] Instance bytes_le_refl : Reflexive bytes_le.
Proof. intros a. apply bytes_le_lt_eq. by right. Qed.
#[export] Instance bytes_le_trans : Transitive bytes_le.
Proof.
  intros a b c. rewrite !bytes_le_lt_eq. intros [H1| ->] [H2| ->]; eauto.
  left. by etrans.
Qed.
#[export] Instance bytes_le_total : Total bytes_le.
Proof.
  intros a b. destruct (decide (bytes_lt a b)) as [H|H].
  - left. apply bytes_le_lt_eq. by left.
  - right. by apply bytes_not_lt.
Qed.
#[export] Instance bytes_le_antisymm : AntiSymm (=) bytes_le.
Proof.
  intros a b. rewrite !bytes_le_lt_eq. intros [H1| ?] [H2| ?]; try done.
  exfalso. apply (irreflexivity bytes_lt a). by etrans.
Qed.

(** ** Strictly sorted lists *)

Abbreviation strictly_sorted := (StronglySorted bytes_lt).

Lemma strictly_sorted_NoDup l : strictly_sorted l -> NoDup l.
Proof.
  induction 1 as [|x l _ IH Hx]; constructor; [|done].
  intros Hin. rewrite Forall_forall in Hx. apply (irreflexivity bytes_lt x). by apply Hx.
Qed.

(** Strictly sorted lists with the same elements are equal. *)
Lemma strictly_sorted_ext l1 l2 :
  strictly_sorted l1 -> strictly_sorted l2 -> (forall x, x ∈ l1 <-> x ∈ l2) -> l1 = l2.
Proof.
  intros H1 H2 Heq. apply (StronglySorted_unique_strong bytes_lt); [|done|done|].
  - intros x y _ _ Hxy Hyx. exfalso. apply (irreflexivity bytes_lt x). by etrans.
  - apply NoDup_Permutation; auto using strictly_sorted_NoDup.
Qed.

(** The check [all(l[i] < l[i+1] for i in range(len(l) - 1))]. *)
Fixpoint adjacent {A} (r : A -> A -> bool) (l : list A) : bool :=
  match l with
  | x :: (y :: _) as l' => r x y && adjacent r l'
  | _ => true
  end.

Lemma adjacent_sorted {A} (R : relation A) `{!Transitive R} (r : A -> A -> bool) l :
  (forall x y, r x y = true <-> R x y) -> adjacent r l = true <-> StronglySorted R l.
Proof.
  intros Hr. induction l as [|x l IH]; [split; [constructor|done]|].
  destruct l as [|y l].
  { split; [intros _; repeat constructor|done]. }
  change (adjacent r (x :: y :: l)) with (r x y && adjacent r (y :: l)).
  rewrite andb_true_iff, IH, Hr, (StronglySorted_cons R (y :: l) x). split.
  - intros [Hxy Hs]. split; [|done]. constructor; [done|].
    apply StronglySorted_cons in Hs as [Hy _]. eapply Forall_impl; [exact Hy|].
    intros z Hz. by etrans.
  - intros [Hf Hs]. split; [|done]. by apply Forall_cons in Hf as [? _].
Qed.

Lemma adjacent_map {A B} (f : A -> B) (r : B -> B -> bool) l :
  adjacent (fun a b => r (f a) (f b)) l = adjacent r (map f l).
Proof. induction l as [|x [|y l] IH]; [done|done|]. simpl in *. by rewrite IH. Qed.

(** Sorted and without repetitions is strictly sorted. *)
Lemma sorted_NoDup_strict {A} (le lt : relation A) `{!Irreflexive lt} l :
  (forall x y, le x y <-> lt x y \/ x = y) ->
  StronglySorted le l /\ NoDup l <-> StronglySorted lt l.
Proof.
  intros Hle. induction l as [|x l IH]; [split; [constructor|split; constructor]|].
  rewrite !StronglySorted_cons, NoDup_cons, <- IH, !Forall_forall. setoid_rewrite Hle. split.
  - intros ((Hf & Hs) & Hx & Hn). split_and!; try done. intros y Hy.
    destruct (Hf y Hy) as [H| ->]; [done|naive_solver].
  - intros (Hf & Hs & Hn). split_and!; try done; [naive_solver|].
    intros Hx. by apply (irreflexivity lt x), Hf.
Qed.

(** ** [bisect.insort] *)

(** [bisect_right]: the loop [while lo < hi] halves the interval. *)
Fixpoint bisect_right (fuel : nat) (a : list bytes) (x : bytes) (lo hi : Z) : Z :=
  match fuel with
  | O => lo
  | S fuel =>
      if lo <? hi then
        let mid := (lo + hi) / 2 in
        match py_index a mid with
        | Some y => if bytes_ltb x y then bisect_right fuel a x lo mid
                    else bisect_right fuel a x (mid + 1) hi
        | None => lo
        end
      else lo
  end.

(** [list.insert] at the position found: an interval of [n] elements needs at most [n]
    rounds, so the fuel is the length. *)
Definition insort (a : list bytes) (x : bytes) : list bytes :=
  let i := Z.to_nat (bisect_right (length a) a x 0 (Z.of_nat (length a))) in
  take i a ++ x :: drop i a.

Lemma insort_perm a x : insort a x ≡ₚ x :: a.
Proof. unfold insort. by rewrite <- Permutation_middle, take_drop. Qed.

Lemma elem_of_insort a x y : y ∈ insort a x <-> y = x \/ y ∈ a.
Proof. by rewrite (insort_perm a x), elem_of_cons. Qed.

(** On a strictly sorted list the loop ends at a position with everything before it at
    most [x] and everything from it on above [x]. *)
Lemma bisect_right_bounds fuel a x lo hi :
  strictly_sorted a -> 0 <= lo <= hi -> hi <= Z.of_nat (length a) -> hi - lo <= Z.of_nat fuel ->
  Forall (fun y => ~ bytes_lt x y) (take (Z.to_nat lo) a) ->
  Forall (bytes_lt x) (drop (Z.to_nat hi) a) ->
  let i := Z.to_nat (bisect_right fuel a x lo hi) in
  Forall (fun y => ~ bytes_lt x y) (take i a) /\ Forall (bytes_lt x) (drop i a).
Proof.
  intros Hs. revert lo hi. induction fuel as [|fuel IH]; intros lo hi Hlo Hhi Hf Hl Hh; simpl.
  { by replace hi with lo in Hh by lia. }
  destruct (Z.ltb_spec lo hi) as [Hlt|Hge]; [|by replace hi with lo in Hh by lia].
  set (mid := (lo + hi) / 2).
  assert (lo <= mid < hi) as Hmid by (unfold mid; split; [apply Z.div_le_lower_bound|apply Z.div_lt_upper_bound]; lia).
  rewrite py_index_nonneg by lia.
  destruct (lookup_lt_is_Some_2 a (Z.to_nat mid)) as [y Hy]; [lia|]. rewrite Hy.
  pose proof (take_drop_middle a _ _ Hy) as Ha.
  assert (strictly_sorted (take (Z.to_nat mid) a ++ y :: drop (S (Z.to_nat mid)) a)) as Hs' by by rewrite Ha.
  apply StronglySorted_app in Hs' as (Hcross & _ & Htl).
  apply StronglySorted_cons in Htl as [Hyd _].
  destruct (bytes_ltb_spec x y) as [Hxy|Hxy].
  - apply IH; [lia..|done|]. rewrite (drop_S _ _ _ Hy). constructor; [done|].
    eapply Forall_impl; [exact Hyd|]. intros z Hz. by etrans.
  - apply IH; [lia..| |done].
    replace (Z.to_nat (mid + 1)) with (S (Z.to_nat mid)) by lia.
    rewrite (take_S_r _ _ _ Hy), Forall_app. split; [|by repeat constructor].
    apply Forall_forall. intros z Hz Hxz. apply Hxy. etrans; [exact Hxz|].
    apply Hcross; set_solver.
Qed.

Lemma insort_sorted a x : strictly_sorted a -> x ∉ a -> strictly_sorted (insort a x).
Proof.
  intros Hs Hx. unfold insort.
  destruct (bisect_right_bounds (length a) a x 0 (Z.of_nat (length a))) as [Hl Hh];
    [done|lia..|constructor|rewrite drop_ge by lia; constructor|].
  set (i := Z.to_nat _) in *.
  rewrite <- (take_drop i a) in Hs. apply StronglySorted_app in Hs as (Hc & Hs1 & Hs2).
  apply StronglySorted_app. split_and!; [|done|by constructor].
  assert (forall y, y ∈ take i a -> bytes_lt y x) as Hlt.
  { intros y Hy. rewrite Forall_forall in Hl. specialize (Hl y Hy).
    apply bytes_not_lt, bytes_le_lt_eq in Hl as [H'| ->]; [done|].
    exfalso. apply Hx. rewrite <- (take_drop i a). set_solver. }
  intros y z Hy [-> | Hz]%elem_of_cons; [by apply Hlt|by apply Hc].
Qed.

(** ** [sorted(l, key=f)], a stable sort *)

Section sort.
Context {A : Type} (f : A -> bytes).

Fixpoint sort_insert (x : A) (l : list A) : list A :=
  match l with
  | [] => [x]
  | y :: l' => if bytes_leb (f x) (f y) then x :: l else y :: sort_insert x l'
  end.

Definition sorted_by (l : list A) : list A := foldr sort_insert [] l.

Lemma sort_insert_perm x l : sort_insert x l ≡ₚ x :: l.
Proof.
  induction l as [|y l IH]; simpl; [done|]. case_match; [done|]. rewrite IH. apply Permutation_swap.
Qed.

Lemma sorted_by_perm l : sorted_by l ≡ₚ l.
Proof. induction l as [|x l IH]; simpl; [done|]. by rewrite sort_insert_perm, IH. Qed.

Definition key_le (x y : A) : Prop := bytes_le (f x) (f y).
#[export] Instance key_le_trans : Transitive key_le.
Proof. intros x y z. unfold key_le. apply transitivity. Qed.

Lemma sort_insert_sorted x l : StronglySorted key_le l -> StronglySorted key_le (sort_insert x l).
Proof.
  induction 1 as [|y l Hs IH Hy]; simpl; [repeat constructor|].
  destruct (bytes_leb (f x) (f y)) eqn:E.
  - constructor; [by constructor|]. constructor; [done|].
    eapply Forall_impl; [exact Hy|]. intros z Hz. by transitivity y.
  - constructor; [done|]. rewrite sort_insert_perm. constructor; [|done].
    destruct (total bytes_le (f y) (f x)) as [|H]; [done|]. unfold bytes_le in H. congruence.
Qed.

Lemma sorted_by_sorted l : StronglySorted key_le (sorted_by l).
Proof. induction l; simpl; [constructor|by apply sort_insert_sorted]. Qed.

Lemma length_sorted_by l : length (sorted_by l) = length l.
Proof. apply Permutation_length, sorted_by_perm. Qed.

Lemma elem_of_sorted_by l x : x ∈ sorted_by l <-> x ∈ l.
Proof. by rewrite (sorted_by_perm l). Qed.

(** Sorting a list of elements with distinct keys does not depend on their order. *)
Lemma sorted_by_unique l l' : NoDup (map f l) -> l ≡ₚ l' -> sorted_by l = sorted_by l'.
Proof.
  intros Hnd Hp. apply (StronglySorted_unique_strong key_le).
  - intros x y Hx Hy Hxy Hyx. rewrite elem_of_sorted_by in Hx, Hy. rewrite <- Hp in Hy.
    assert (f x = f y) as Hf by (by apply (anti_symm bytes_le)).
    clear Hp Hxy Hyx. induction l as [|z l IH]; [set_solver|]. simpl in Hnd.
    apply NoDup_cons in Hnd as [Hz Hnd].
    apply elem_of_cons in Hx as [->|Hx], Hy as [->|Hy]; [done| | |auto].
    + exfalso. apply Hz. rewrite Hf. by apply list_elem_of_fmap_2.
    + exfalso. apply Hz. rewrite <- Hf. by apply list_elem_of_fmap_2.
  - apply sorted_by_sorted.
  - apply sorted_by_sorted.
  - by rewrite !sorted_by_perm.
Qed.
End sort.

Arguments sorted_by : simpl never.

(** ** Sorted numbers *)

Lemma Z_lt_NoDup l : StronglySorted Z.lt l -> NoDup l.
Proof.
  assert (Irreflexive Z.lt) as Hirr by (intros x; unfold complement; lia).
  intros H. by apply (sorted_NoDup_strict Z.le Z.lt l ltac:(lia)) in H as [_ H].
Qed.

(** Weakly sorted and without repetition. *)
Lemma indices_check {A} (key : A -> Z) l :
  adjacent (fun a b => key a <=? key b) l = true /\ NoDup (map key l) <-> StronglySorted Z.lt (map key l).
Proof.
  rewrite (adjacent_map key Z.leb), (adjacent_sorted Z.le) by apply Z.leb_le.
  apply sorted_NoDup_strict; [|lia]. intros x. unfold complement. lia.
Qed.
