(* ===== verification/Defs.v ===== *)
(** * Integer helpers of the interpreter

    [pvm/interpreters/cpython/defs.py]: the coercions to a machine width, the
    rotations, byte reversal, bit counting, the signed divisions, the sign
    conversions [pvm_X], [pvm_Z], [pvm_Z_inv], and the little-endian accesses
    [read_uint] and [write_uint].  Python's integers are unbounded, so every
    definition below is over [Z] with the masks the source writes.

    The lemmas give each helper its arithmetic reading: a mask is a remainder,
    [pvm_Z] is the two's complement reading, [pvm_X] sign-extends,
    [pvm_rtz_div] and [pvm_smod] are truncated division, a rotation moves bit
    [i + s mod w] to bit [i], and so on. *)

From Stdlib Require Import ZArith Lia Bool List.
From coqutil Require Import Z.bitblast.
From stdpp Require Import base numbers option list gmap.
From S2P Require Import Prelude Constants.
Import ListNotations.

#[local] Open Scope Z_scope.
#[local] Open Scope py_scope.

(** ** Coercions *)

Definition MASK8 : Z := 1 ≪ 8 - 1.
Definition MASK16 : Z := 1 ≪ 16 - 1.
Definition MASK32 : Z := 1 ≪ 32 - 1.
Definition MASK64 : Z := 1 ≪ 64 - 1.
Definition SIGN8 : Z := 1 ≪ 7.
Definition SIGN16 : Z := 1 ≪ 15.
Definition SIGN32 : Z := 1 ≪ 31.
Definition SIGN64 : Z := 1 ≪ 63.

(** Python's truth value of an integer. *)
Definition truthy (x : Z) : bool := negb (x =? 0).

(** Python's integer reading of a truth value. *)
Definition int_of_bool (b : bool) : Z := if b then 1 else 0.

Definition u8 (x : Z) : Z := x .& MASK8.
Definition u16 (x : Z) : Z := x .& MASK16.
Definition u32 (x : Z) : Z := x .& MASK32.
Definition u64 (x : Z) : Z := x .& MASK64.

Definition i8 (x : Z) : Z :=
  let x := x .& MASK8 in if truthy (x .& SIGN8) then x - 1 ≪ 8 else x.
Definition i16 (x : Z) : Z :=
  let x := x .& MASK16 in if truthy (x .& SIGN16) then x - 1 ≪ 16 else x.
Definition i32 (x : Z) : Z :=
  let x := x .& MASK32 in if truthy (x .& SIGN32) then x - 1 ≪ 32 else x.
Definition i64 (x : Z) : Z :=
  let x := x .& MASK64 in if truthy (x .& SIGN64) then x - 1 ≪ 64 else x.

(** ** Rotations *)

Definition rori64 (x shift_amount : Z) : Z :=
  let x := x .& 0xFFFFFFFFFFFFFFFF in
  let shift_amount := shift_amount .& 63 in
  ((x ≫ shift_amount) .| (x ≪ (64 - shift_amount))) .& 0xFFFFFFFFFFFFFFFF.

Definition roli64 (x shift_amount : Z) : Z :=
  let x := x .& 0xFFFFFFFFFFFFFFFF in
  let shift_amount := shift_amount .& 63 in
  ((x ≪ shift_amount) .| (x ≫ (64 - shift_amount))) .& 0xFFFFFFFFFFFFFFFF.

Definition rotl32 (x s : Z) : Z :=
  let s := s .& 31 in
  let x := x .& MASK32 in
  ((x ≪ s) .| (x ≫ (32 - s))) .& MASK32.

Definition rotr32 (x s : Z) : Z :=
  let s := s .& 31 in
  let x := x .& MASK32 in
  ((x ≫ s) .| (x ≪ (32 - s))) .& MASK32.

Definition rori32 (x shift_amount : Z) : Z :=
  let x := x .& 0xFFFFFFFF in
  let shift_amount := shift_amount .& 31 in
  ((x ≫ shift_amount) .| (x ≪ (32 - shift_amount))) .& 0xFFFFFFFF.

Definition roli32 (x shift_amount : Z) : Z :=
  let x := x .& 0xFFFFFFFF in
  let shift_amount := shift_amount .& 31 in
  ((x ≪ shift_amount) .| (x ≫ (32 - shift_amount))) .& 0xFFFFFFFF.

(** ** Bytes and bits *)

(** [struct.unpack('<Q', struct.pack('>Q', x))[0]]; [struct.pack] raises when
    [x] is not an unsigned 64-bit integer. *)
Definition reverse_bytes (x : Z) : outcome exn Z :=
  if (0 <=? x) && (x <? 2 ^ 64) then Ret (le_int (rev (le_bytes 8 x)))
  else Raise PyException.

(** [int.bit_length] and [int.bit_count]. *)
Definition bit_length (x : Z) : Z := if x =? 0 then 0 else Z.log2 (Z.abs x) + 1.

Fixpoint pos_bit_count (p : positive) : Z :=
  match p with
  | xH => 1
  | xO q => pos_bit_count q
  | xI q => 1 + pos_bit_count q
  end.
Definition bit_count (x : Z) : Z :=
  match x with Z0 => 0 | Zpos p | Zneg p => pos_bit_count p end.

Definition count_trailing_zeroes (value max_bits : Z) : Z :=
  if value =? 0 then max_bits else bit_length (value .& (- value)) - 1.

(** [len(bin(value)) - 2] is the number of binary digits of [value]. *)
Definition count_leading_zeroes (value max_bits : Z) : Z :=
  let value := value .& (1 ≪ max_bits - 1) in
  if value =? 0 then max_bits
  else let significant_bits := bit_length value in max_bits - significant_bits.

(** ** Signed division *)

Definition pvm_smod (a b : Z) : Z :=
  if b =? 0 then a
  else if 0 <=? a then
    if 0 <=? b then a mod b else a mod (- b)
  else
    if 0 <=? b then - ((- a) mod b) else - ((- a) mod (- b)).

(** [a // b] raises [ZeroDivisionError] when [b = 0]; the first branch of each
    test divides by [b > 0], the second by [-b]. *)
Definition pvm_rtz_div (a b : Z) : outcome exn Z :=
  if b =? 0 then Raise PyException
  else Ret (
    if 0 <=? a then
      if 0 <? b then a / b else - (a / (- b))
    else
      if 0 <? b then - ((- a) / b) else (- a) / (- b)).

(** ** Sign conversions *)

Definition pvm_X (x n : Z) : Z :=
  if n =? 1 then
    let masked := x .& 0xFF in
    if truthy (masked .& 0x80) then masked .| 0xFFFFFFFFFFFFFF00 else masked
  else if n =? 2 then
    let masked := x .& 0xFFFF in
    if truthy (masked .& 0x8000) then masked .| 0xFFFFFFFFFFFF0000 else masked
  else if n =? 3 then
    let masked := x .& 0xFFFFFF in
    if truthy (masked .& 0x800000) then masked .| 0xFFFFFFFFFF000000 else masked
  else if n =? 4 then
    let masked := x .& 0xFFFFFFFF in
    if truthy (masked .& 0x80000000) then masked .| 0xFFFFFFFF00000000 else masked
  else if n =? 5 then
    let masked := x .& 0xFFFFFFFFFF in
    if truthy (masked .& 0x8000000000) then masked .| 0xFFFFFF0000000000 else masked
  else if n =? 6 then
    let masked := x .& 0xFFFFFFFFFFFF in
    if truthy (masked .& 0x800000000000) then masked .| 0xFFFF000000000000 else masked
  else if n =? 7 then
    let masked := x .& 0xFFFFFFFFFFFFFF in
    if truthy (masked .& 0x80000000000000) then masked .| 0xFF00000000000000 else masked
  else if n =? 8 then x .& 0xFFFFFFFFFFFFFFFF
  else x.

Definition pvm_Z (a n : Z) : Z :=
  if n <=? 0 then 0
  else
    let bits := n * 8 in
    let mask := 1 ≪ bits - 1 in
    let sign := 1 ≪ (bits - 1) in
    let u := a .& mask in
    (u .^ sign) - sign.

Definition pvm_Z_inv (a n : Z) : Z :=
  if n <=? 0 then 0
  else
    let bits := n * 8 in
    let mask := 1 ≪ bits - 1 in
    u64 a .& mask.

(** ** Little-endian accesses to a byte buffer *)

(** [mem[addr]]: out of range raises [IndexError]. *)
Definition mem_index (mem : bytes) (addr : Z) : outcome exn Z :=
  match py_index mem addr with Some b => Ret b | None => Raise PyException end.

(** [struct.unpack_from(fmt, mem, addr)[0]] for the little-endian unsigned
    format of [n] bytes: [struct.error] unless the buffer holds [n] bytes from
    [addr]; a negative [addr] counts from the end of the buffer. *)
Definition unpack_from (n : nat) (mem : bytes) (addr : Z) : outcome exn Z :=
  let len := Z.of_nat (length mem) in
  let addr := if addr <? 0 then len + addr else addr in
  if (0 <=? addr) && (addr + Z.of_nat n <=? len)
  then Ret (le_int (take n (drop (Z.to_nat addr) mem)))
  else Raise PyException.

Definition read_uint (mem : bytes) (addr n : Z) : outcome exn Z :=
  if n =? 0 then Ret (0 .& 0xFF)
  else if n =? 1 then mem_index mem addr
  else if n =? 2 then unpack_from 2 mem addr
  else if n =? 4 then unpack_from 4 mem addr
  else if n =? 8 then unpack_from 8 mem addr
  else if n =? 3 then
    lo ← unpack_from 2 mem addr;
    hi ← unpack_from 1 mem (addr + 2);
    Ret (lo .| (hi ≪ 16))
  else Raise PVMMemoryError.

(** [struct.pack_into(fmt, mem, addr, value)]: [struct.error] when [value] does
    not fit the format or the buffer is too short. *)
Definition pack_into (n : nat) (mem : bytes) (addr value : Z) : outcome exn bytes :=
  let len := Z.of_nat (length mem) in
  let addr := if addr <? 0 then len + addr else addr in
  if ((0 <=? value) && (value <? 256 ^ Z.of_nat n))
     && ((0 <=? addr) && (addr + Z.of_nat n <=? len))
  then Ret (take (Z.to_nat addr) mem ++ le_bytes n value
            ++ drop (Z.to_nat addr + n) mem)
  else Raise PyException.

Definition write_uint (mem : bytes) (addr n value : Z) : outcome exn bytes :=
  if n =? 1 then
    match py_index mem addr with
    | Some _ =>
        let addr := if addr <? 0 then Z.of_nat (length mem) + addr else addr in
        Ret (<[Z.to_nat addr := value .& 0xFF]> mem)
    | None => Raise PyException
    end
  else if n =? 2 then pack_into 2 mem addr value
  else if n =? 4 then pack_into 4 mem addr value
  else if n =? 8 then pack_into 8 mem addr value
  else Raise PVMMemoryError.

(** * Properties *)

(** ** Coercions are remainders *)

Lemma u8_mod x : u8 x = x mod 2 ^ 8.
Proof. exact (land_mask x 8 ltac:(lia)). Qed.
Lemma u16_mod x : u16 x = x mod 2 ^ 16.
Proof. exact (land_mask x 16 ltac:(lia)). Qed.
Lemma u32_mod x : u32 x = x mod 2 ^ 32.
Proof. exact (land_mask x 32 ltac:(lia)). Qed.
Lemma u64_mod x : u64 x = x mod 2 ^ 64.
Proof. exact (land_mask x 64 ltac:(lia)). Qed.

Lemma u64_id x : 0 <= x < 2 ^ 64 -> u64 x = x.
Proof. rewrite u64_mod. apply Z.mod_small. Qed.
Lemma u32_id x : 0 <= x < 2 ^ 32 -> u32 x = x.
Proof. rewrite u32_mod. apply Z.mod_small. Qed.

(** The two's complement reading of the low [w] bits. *)
Definition signed (w x : Z) : Z :=
  let m := x mod 2 ^ w in if m <? 2 ^ (w - 1) then m else m - 2 ^ w.

Lemma pow2_half w : 0 < w -> 2 ^ w = 2 * 2 ^ (w - 1).
Proof. intros. rewrite <-Z.pow_succ_r by lia. f_equal. lia. Qed.

Lemma signed_range w x : 0 < w -> - 2 ^ (w - 1) <= signed w x < 2 ^ (w - 1).
Proof.
  intros Hw. unfold signed. pose proof (Z.mod_pos_bound x (2 ^ w)).
  pose proof (Z.pow_pos_nonneg 2 (w - 1)). pose proof (pow2_half w Hw). zcmp; lia.
Qed.

Lemma signed_mod w x : 0 <= w -> signed w x mod 2 ^ w = x mod 2 ^ w.
Proof.
  intros Hw. unfold signed. pose proof (Z.pow_pos_nonneg 2 w).
  case_match; [by rewrite Z.mod_mod by lia|].
  replace (x mod 2 ^ w - 2 ^ w) with (x mod 2 ^ w + (-1) * 2 ^ w) by lia.
  rewrite Z.mod_add by lia. by rewrite Z.mod_mod by lia.
Qed.

Lemma signed_of_mod w x : signed w (x mod 2 ^ w) = signed w x.
Proof. unfold signed. by rewrite Zmod_mod. Qed.

(** A number already in the signed range is read back unchanged. *)
Lemma signed_id w x : 0 < w -> - 2 ^ (w - 1) <= x < 2 ^ (w - 1) -> signed w x = x.
Proof.
  intros Hw Hx. unfold signed. pose proof (pow2_half w Hw).
  destruct (Z.lt_ge_cases x 0).
  - replace (x mod 2 ^ w) with (x + 2 ^ w).
    + zcmp; lia.
    + symmetry. rewrite <-(Z.mod_add x 1) by lia. rewrite Z.mul_1_l.
      apply Z.mod_small. lia.
  - rewrite Z.mod_small by lia. zcmp; lia.
Qed.

Lemma truthy_top m k :
  0 <= k -> 0 <= m < 2 ^ (k + 1) -> truthy (m .& 2 ^ k) = (2 ^ k <=? m).
Proof.
  intros Hk Hm. rewrite land_pow2, (testbit_top m k) by done.
  pose proof (Z.pow_pos_nonneg 2 k). unfold truthy.
  destruct (Z.leb_spec (2 ^ k) m); simpl; [|done].
  destruct (Z.eqb_spec (2 ^ k) 0); [lia|done].
Qed.

Lemma i_signed x w :
  0 < w ->
  (let y := x mod 2 ^ w in if truthy (y .& 2 ^ (w - 1)) then y - 2 ^ w else y)
  = signed w x.
Proof.
  intros Hw. cbn zeta. pose proof (Z.mod_pos_bound x (2 ^ w)).
  pose proof (Z.pow_pos_nonneg 2 w).
  rewrite truthy_top; [|lia|replace (w - 1 + 1) with w by lia; lia].
  unfold signed. zcmp; lia.
Qed.

Lemma i8_signed x : i8 x = signed 8 x.
Proof. rewrite <-i_signed, <-land_mask by lia. reflexivity. Qed.
Lemma i16_signed x : i16 x = signed 16 x.
Proof. rewrite <-i_signed, <-land_mask by lia. reflexivity. Qed.
Lemma i32_signed x : i32 x = signed 32 x.
Proof. rewrite <-i_signed, <-land_mask by lia. reflexivity. Qed.
Lemma i64_signed x : i64 x = signed 64 x.
Proof. rewrite <-i_signed, <-land_mask by lia. reflexivity. Qed.

(** ** Sign conversions *)

Lemma pvm_Z_signed a n : 0 < n -> pvm_Z a n = signed (n * 8) a.
Proof.
  intros Hn. unfold pvm_Z. destruct (Z.leb_spec n 0); [lia|]. cbn zeta.
  rewrite !Z.shiftl_mul_pow2, !Z.mul_1_l, land_mask by lia.
  set (w := n * 8). assert (0 < w) by lia. set (m := a mod 2 ^ w).
  pose proof (Z.mod_pos_bound a (2 ^ w) ltac:(lia)) as Hm. fold m in Hm.
  pose proof (pow2_half w ltac:(lia)) as Hw.
  assert (forall r, 0 <= r < 2 ^ (w - 1) -> r .^ 2 ^ (w - 1) = r + 2 ^ (w - 1)) as Hflip.
  { intros r Hr. symmetry. apply Z.add_nocarry_lxor.
    rewrite land_pow2, testbit_top by (try replace (w - 1 + 1) with w by lia; lia).
    destruct (Z.leb_spec (2 ^ (w - 1)) r); [lia|done]. }
  unfold signed. fold m. destruct (Z.ltb_spec m (2 ^ (w - 1))) as [H1|H1].
  - rewrite Hflip by lia. lia.
  - replace m with ((m - 2 ^ (w - 1)) .^ 2 ^ (w - 1)) at 1 by (rewrite Hflip by lia; lia).
    rewrite Z.lxor_assoc, Z.lxor_nilpotent, Z.lxor_0_r. lia.
Qed.

Lemma pvm_Z_inv_mod a n : 1 <= n <= 8 -> pvm_Z_inv a n = a mod 2 ^ (n * 8).
Proof.
  intros Hn. unfold pvm_Z_inv. destruct (Z.leb_spec n 0); [lia|]. cbn zeta.
  rewrite Z.shiftl_mul_pow2, Z.mul_1_l, land_mask, u64_mod by lia.
  apply Z.mod_mod_divide.
  exists (2 ^ (64 - n * 8)). rewrite <-Z.pow_add_r by lia. f_equal. lia.
Qed.

Lemma pvm_Z_inv_8 a : pvm_Z_inv a 8 = a mod 2 ^ 64.
Proof. by rewrite pvm_Z_inv_mod by lia. Qed.

(** One branch of [pvm_X]: mask to [w] bits, then set the upper ones. *)
Lemma sign_extend_mask x w c :
  0 < w < 64 -> c = 2 ^ 64 - 2 ^ w ->
  (let masked := x mod 2 ^ w in
   if truthy (masked .& 2 ^ (w - 1)) then masked .| c else masked)
  = signed w x mod 2 ^ 64.
Proof.
  intros Hw ->. cbn zeta. pose proof (Z.mod_pos_bound x (2 ^ w)) as Hx.
  pose proof (Z.pow_pos_nonneg 2 w). pose proof (Z.pow_lt_mono_r 2 w 64).
  rewrite truthy_top; [|lia|replace (w - 1 + 1) with w by lia; lia].
  unfold signed. rewrite Z.leb_antisym.
  destruct (Z.ltb_spec (x mod 2 ^ w) (2 ^ (w - 1))); cbn [negb].
  - rewrite (Z.mod_small (x mod 2 ^ w) (2 ^ 64)); lia.
  - rewrite (lor_low_high _ _ w); [|lia|lia|].
    + replace (x mod 2 ^ w - 2 ^ w) with (x mod 2 ^ w + (2 ^ 64 - 2 ^ w) + (-1) * 2 ^ 64)
        by lia.
      rewrite Z.mod_add by lia. rewrite (Z.mod_small (_ + _) (2 ^ 64)); lia.
    + replace (2 ^ 64) with (2 ^ (64 - w) * 2 ^ w).
      * rewrite <-(Z.mul_1_l (2 ^ w)) at 2. rewrite <-Z.mul_sub_distr_r.
        apply Z.mod_mul. lia.
      * rewrite <-Z.pow_add_r by lia. f_equal. lia.
Qed.

Lemma pvm_X_signed x n : 1 <= n <= 8 -> pvm_X x n = signed (n * 8) x mod 2 ^ 64.
Proof.
  intros Hn.
  assert (n = 1 \/ n = 2 \/ n = 3 \/ n = 4 \/ n = 5 \/ n = 6 \/ n = 7 \/ n = 8)
    as Hc by lia.
  destruct Hc as [->|[->|[->|[->|[->|[->|[->| ->]]]]]]];
    try match goal with |- _ = signed ?w x mod _ =>
      rewrite <-(sign_extend_mask x w _ ltac:(lia) eq_refl), <-land_mask by lia;
      reflexivity end.
  change (8 * 8) with 64. rewrite signed_mod by lia. exact (land_mask x 64 ltac:(lia)).
Qed.

Lemma pvm_X_0 : pvm_X 0 0 = 0.
Proof. done. Qed.

(** The paper's pair of conversions: sign extension is the signed reading of
    [n] bytes, written back to eight. *)
Lemma pvm_X_Z_inv x n : 1 <= n <= 8 -> pvm_X x n = pvm_Z_inv (pvm_Z x n) 8.
Proof. intros. by rewrite pvm_X_signed, pvm_Z_inv_8, pvm_Z_signed by lia. Qed.

(** ** Ranges *)

Definition is_u64 (x : Z) : Prop := 0 <= x < 2 ^ 64.

Lemma u64_is_u64 x : is_u64 (u64 x).
Proof. unfold is_u64. rewrite u64_mod. apply Z.mod_pos_bound. lia. Qed.
Lemma u32_is_u64 x : is_u64 (u32 x).
Proof. unfold is_u64. rewrite u32_mod. pose proof (Z.mod_pos_bound x (2 ^ 32)). lia. Qed.
Lemma u16_is_u64 x : is_u64 (u16 x).
Proof. unfold is_u64. rewrite u16_mod. pose proof (Z.mod_pos_bound x (2 ^ 16)). lia. Qed.
Lemma u8_is_u64 x : is_u64 (u8 x).
Proof. unfold is_u64. rewrite u8_mod. pose proof (Z.mod_pos_bound x (2 ^ 8)). lia. Qed.
Lemma mask64_is_u64 x : is_u64 (x .& MASK64).
Proof. apply u64_is_u64. Qed.
Lemma mask32_is_u64 x : is_u64 (x .& MASK32).
Proof. apply u32_is_u64. Qed.

Lemma pvm_X_is_u64 x n : 1 <= n <= 8 -> is_u64 (pvm_X x n).
Proof. intros. rewrite pvm_X_signed by lia. apply Z.mod_pos_bound. lia. Qed.
Lemma pvm_Z_inv_is_u64 x : is_u64 (pvm_Z_inv x 8).
Proof. rewrite pvm_Z_inv_8. apply Z.mod_pos_bound. lia. Qed.

Lemma land_is_u64 x y : is_u64 x -> is_u64 y -> is_u64 (x .& y).
Proof. unfold is_u64. intros. apply land_range; lia. Qed.
Lemma lor_is_u64 x y : is_u64 x -> is_u64 y -> is_u64 (x .| y).
Proof. unfold is_u64. intros. apply lor_range; lia. Qed.
Lemma lxor_is_u64 x y : is_u64 x -> is_u64 y -> is_u64 (x .^ y).
Proof. unfold is_u64. intros. apply lxor_range; lia. Qed.
Lemma shiftr_is_u64 x k : 0 <= k -> is_u64 x -> is_u64 (x ≫ k).
Proof. unfold is_u64. intros. apply shiftr_range; lia. Qed.
Lemma max_is_u64 x y : is_u64 x -> is_u64 y -> is_u64 (Z.max x y).
Proof. unfold is_u64. lia. Qed.
Lemma min_is_u64 x y : is_u64 x -> is_u64 y -> is_u64 (Z.min x y).
Proof. unfold is_u64. lia. Qed.
Lemma div_is_u64 x y : is_u64 x -> is_u64 y -> is_u64 (x / y).
Proof.
  unfold is_u64. intros Hx Hy. destruct (Z.eq_dec y 0) as [->|].
  - rewrite Z.div_0_r. lia.
  - pose proof (Z.div_pos x y). pose proof (Z.div_le_upper_bound x y x). nia.
Qed.
Lemma mod_is_u64 x y : is_u64 x -> is_u64 y -> is_u64 (x mod y).
Proof.
  unfold is_u64. intros Hx Hy. destruct (Z.eq_dec y 0) as [->|].
  - by rewrite Z.mod_0_r.
  - pose proof (Z.mod_pos_bound x y). lia.
Qed.
Lemma bool_is_u64 b : is_u64 (int_of_bool b).
Proof. unfold is_u64. destruct b; simpl; lia. Qed.

Lemma shift_amount_range x n : 0 <= n -> 0 <= x .& (2 ^ n - 1) < 2 ^ n.
Proof. intros. rewrite land_mask by lia. apply Z.mod_pos_bound.
  by apply Z.pow_pos_nonneg. Qed.
Lemma shift63_nonneg x : 0 <= x .& 63.
Proof. exact (proj1 (shift_amount_range x 6 ltac:(lia))). Qed.
Lemma shift31_nonneg x : 0 <= x .& 31.
Proof. exact (proj1 (shift_amount_range x 5 ltac:(lia))). Qed.

Create HintDb u64 discriminated.
#[export] Hint Resolve u64_is_u64 u32_is_u64 u16_is_u64 u8_is_u64 mask64_is_u64
  mask32_is_u64 pvm_Z_inv_is_u64 land_is_u64 lor_is_u64 lxor_is_u64
  max_is_u64 min_is_u64 div_is_u64 mod_is_u64 bool_is_u64 : u64.
#[export] Hint Extern 1 (is_u64 (pvm_X _ _)) => (apply pvm_X_is_u64; lia) : u64.
#[export] Hint Extern 2 (is_u64 (_ ≫ (_ .& 63))) =>
  (apply shiftr_is_u64; [apply shift63_nonneg|]) : u64.
#[export] Hint Extern 2 (is_u64 (_ ≫ (_ .& 31))) =>
  (apply shiftr_is_u64; [apply shift31_nonneg|]) : u64.
#[export] Hint Extern 3 (is_u64 (Zpos _)) => (unfold is_u64; lia) : u64.
#[export] Hint Extern 3 (is_u64 Z0) => (unfold is_u64; lia) : u64.

(** ** Signed division *)

Lemma pvm_rtz_div_quot a b : b <> 0 -> pvm_rtz_div a b = Ret (Z.quot a b).
Proof.
  intros Hb. unfold pvm_rtz_div. destruct (Z.eqb_spec b 0); [done|]. f_equal.
  destruct (Z.leb_spec 0 a), (Z.ltb_spec 0 b).
  - by rewrite Z.quot_div_nonneg by lia.
  - rewrite <-(Z.opp_involutive b) at 2. rewrite Z.quot_opp_r by lia.
    by rewrite Z.quot_div_nonneg by lia.
  - rewrite <-(Z.opp_involutive a) at 2. rewrite Z.quot_opp_l by lia.
    by rewrite Z.quot_div_nonneg by lia.
  - rewrite <-Z.quot_opp_opp by lia. by rewrite Z.quot_div_nonneg by lia.
Qed.

Lemma pvm_smod_rem a b : b <> 0 -> pvm_smod a b = Z.rem a b.
Proof.
  intros Hb. unfold pvm_smod. destruct (Z.eqb_spec b 0); [done|].
  destruct (Z.leb_spec 0 a), (Z.leb_spec 0 b).
  - by rewrite Z.rem_mod_nonneg by lia.
  - rewrite <-(Z.opp_involutive b) at 2. rewrite Z.rem_opp_r by lia.
    by rewrite Z.rem_mod_nonneg by lia.
  - rewrite <-(Z.opp_involutive a) at 2. rewrite Z.rem_opp_l by lia.
    by rewrite Z.rem_mod_nonneg by lia.
  - rewrite <-(Z.opp_involutive a), <-(Z.opp_involutive b) at 2.
    rewrite Z.rem_opp_l, Z.rem_opp_r by lia. by rewrite Z.rem_mod_nonneg by lia.
Qed.

(** ** Rotations *)

(** The rotation of the low [w] bits: bit [i] of the result is bit
    [(i + s) mod w] of the argument. *)
Definition rotr_bits (w x s r : Z) : Prop :=
  forall i, Z.testbit r i = (0 <=? i) && (i <? w) && Z.testbit x ((i + s) mod w).

Lemma rotr_bits_inj w x s r r' : rotr_bits w x s r -> rotr_bits w x s r' -> r = r'.
Proof. intros H H'. apply Z.bits_inj'. intros i _. by rewrite (H i), (H' i). Qed.

Lemma rotate_bits w x s :
  0 < w -> 0 <= s < w ->
  let y := x mod 2 ^ w in
  rotr_bits w x s (((y ≫ s) .| (y ≪ (w - s))) mod 2 ^ w).
Proof.
  intros Hw Hs y i. subst y. destruct (Z.leb_spec 0 i) as [Hi|Hi]; cbn [andb].
  2: by rewrite Z.testbit_neg_r.
  rewrite Z.testbit_mod_pow2 by lia. destruct (Z.ltb_spec i w); cbn [andb]; [|done].
  rewrite Z.lor_spec, Z.shiftr_spec, Z.shiftl_spec, !Z.testbit_mod_pow2 by lia.
  destruct (Z.ltb_spec (i + s) w).
  - rewrite (Z.testbit_neg_r x (i - (w - s))) by lia.
    rewrite andb_false_r, orb_false_r. cbn [andb]. by rewrite Z.mod_small by lia.
  - cbn [andb orb]. destruct (Z.ltb_spec (i - (w - s)) w); [|lia]. cbn [andb].
    f_equal. rewrite <-(Z.mod_small (i - (w - s)) w) by lia.
    rewrite <-(Z.mod_add (i - (w - s)) 1) by lia. f_equal. lia.
Qed.

Lemma rori64_bits x s : rotr_bits 64 x (s mod 64) (rori64 x s).
Proof.
  unfold rori64. change 0xFFFFFFFFFFFFFFFF with (2 ^ 64 - 1). change 63 with (2 ^ 6 - 1).
  rewrite !land_mask by lia. apply rotate_bits; [lia|]. apply Z.mod_pos_bound. lia.
Qed.
Lemma rotr32_bits x s : rotr_bits 32 x (s mod 32) (rotr32 x s).
Proof.
  unfold rotr32. change MASK32 with (2 ^ 32 - 1). change 31 with (2 ^ 5 - 1).
  rewrite !land_mask by lia. apply rotate_bits; [lia|]. apply Z.mod_pos_bound. lia.
Qed.
Lemma rori32_bits x s : rotr_bits 32 x (s mod 32) (rori32 x s).
Proof. exact (rotr32_bits x s). Qed.

(** A left rotation by [s] is the right rotation by [-s]. *)
Lemma rotate_left_bits w x s :
  0 < w -> 0 <= s < w ->
  let y := x mod 2 ^ w in
  rotr_bits w x (- s) (((y ≪ s) .| (y ≫ (w - s))) mod 2 ^ w).
Proof.
  intros Hw Hs y i. subst y. destruct (Z.leb_spec 0 i) as [Hi|Hi]; cbn [andb].
  2: by rewrite Z.testbit_neg_r.
  rewrite Z.testbit_mod_pow2 by lia. destruct (Z.ltb_spec i w); cbn [andb]; [|done].
  rewrite Z.lor_spec, Z.shiftr_spec, Z.shiftl_spec, !Z.testbit_mod_pow2 by lia.
  destruct (Z.lt_ge_cases i s).
  - rewrite (Z.testbit_neg_r x (i - s)) by lia. rewrite andb_false_r. cbn [orb].
    destruct (Z.ltb_spec (i + (w - s)) w); [|lia]. cbn [andb].
    f_equal. rewrite <-(Z.mod_small (i + (w - s)) w) by lia.
    rewrite <-(Z.mod_add (i + - s) 1) by lia. f_equal. lia.
  - destruct (Z.ltb_spec (i + (w - s)) w); [lia|]. cbn [andb]. rewrite orb_false_r.
    destruct (Z.ltb_spec (i - s) w); [|lia]. cbn [andb].
    f_equal. symmetry. rewrite Z.mod_small by lia. lia.
Qed.

Lemma roli64_bits x s : rotr_bits 64 x (- (s mod 64)) (roli64 x s).
Proof.
  unfold roli64. change 0xFFFFFFFFFFFFFFFF with (2 ^ 64 - 1). change 63 with (2 ^ 6 - 1).
  rewrite !land_mask by lia. apply rotate_left_bits; [lia|]. apply Z.mod_pos_bound. lia.
Qed.
Lemma rotl32_bits x s : rotr_bits 32 x (- (s mod 32)) (rotl32 x s).
Proof.
  unfold rotl32. change MASK32 with (2 ^ 32 - 1). change 31 with (2 ^ 5 - 1).
  rewrite !land_mask by lia. apply rotate_left_bits; [lia|]. apply Z.mod_pos_bound. lia.
Qed.
Lemma roli32_bits x s : rotr_bits 32 x (- (s mod 32)) (roli32 x s).
Proof. exact (rotl32_bits x s). Qed.

(** Rotating back gives the argument. *)
Lemma rotr_bits_back w x s r r' :
  0 < w -> 0 <= x < 2 ^ w -> rotr_bits w x (- s) r -> rotr_bits w r s r' -> r' = x.
Proof.
  intros Hw Hx Hr Hr'. apply Z.bits_inj'. intros i Hi.
  rewrite (Hr' i). destruct (Z.leb_spec 0 i); [|lia]. cbn [andb].
  destruct (Z.ltb_spec i w) as [Hiw|Hiw]; cbn [andb].
  - rewrite (Hr _). pose proof (Z.mod_pos_bound (i + s) w Hw).
    destruct (Z.leb_spec 0 ((i + s) mod w)); [|lia].
    destruct (Z.ltb_spec ((i + s) mod w) w); [|lia]. cbn [andb]. f_equal.
    rewrite Zplus_mod_idemp_l. replace (i + s + - s) with i by lia.
    by apply Z.mod_small.
  - symmetry. apply (range_bits x w); lia.
Qed.

Lemma rotr_bits_range w x s r : 0 < w -> rotr_bits w x s r -> 0 <= r < 2 ^ w.
Proof.
  intros Hw H. apply bits_range; [lia| |].
  - apply Z.bits_iff_nonneg_ex. exists w. intros i Hi. rewrite (H i).
    destruct (Z.ltb_spec i w); [lia|]. by rewrite andb_false_r.
  - intros i Hi. rewrite (H i). destruct (Z.ltb_spec i w); [lia|].
    by rewrite andb_false_r.
Qed.

Lemma rori64_is_u64 x s : is_u64 (rori64 x s).
Proof. eapply rotr_bits_range, rori64_bits. lia. Qed.
Lemma roli64_is_u64 x s : is_u64 (roli64 x s).
Proof. eapply rotr_bits_range, roli64_bits. lia. Qed.
#[export] Hint Resolve rori64_is_u64 roli64_is_u64 : u64.

(** ** Counting bits *)

Lemma bit_length_pos v : 0 < v -> bit_length v = Z.log2 v + 1.
Proof. intros. unfold bit_length. zcmp; [lia|]. by rewrite Z.abs_eq by lia. Qed.

(** Leading zeroes of the low [m] bits. *)
Lemma count_leading_zeroes_spec v m :
  0 <= m ->
  count_leading_zeroes v m
  = let y := v mod 2 ^ m in if y =? 0 then m else m - 1 - Z.log2 y.
Proof.
  intros Hm. unfold count_leading_zeroes. cbn zeta.
  rewrite Z.shiftl_mul_pow2, Z.mul_1_l, land_mask by lia.
  pose proof (Z.mod_pos_bound v (2 ^ m) ltac:(lia)).
  destruct (Z.eqb_spec (v mod 2 ^ m) 0); [done|]. rewrite bit_length_pos; lia.
Qed.

Lemma odd_part v : 0 < v -> exists t k, 0 <= t /\ 0 <= k /\ v = 2 ^ t * (2 * k + 1).
Proof.
  intros Hv. destruct v as [|p|p]; [lia| |lia]. clear Hv.
  induction p as [p _|p (t & k & Ht & Hk & IH)|].
  - exists 0, (Z.pos p). lia.
  - exists (t + 1), k. rewrite Z.pow_add_r by lia. lia.
  - by exists 0, 0.
Qed.

Lemma lowest_bit v t k :
  0 <= t -> 0 <= k -> v = 2 ^ t * (2 * k + 1) -> v .& (- v) = 2 ^ t.
Proof.
  intros Ht Hk ->. set (v := 2 ^ t * (2 * k + 1)).
  pose proof (Z.pow_pos_nonneg 2 t).
  assert (forall i, t < i -> Z.testbit (Z.pred v) i = Z.testbit v i) as Hhigh.
  { intros i Hi. replace i with ((i - (t + 1)) + (t + 1)) by lia.
    rewrite <-!Z.div_pow2_bits by lia. f_equal. rewrite Z.pow_add_r by lia.
    change (2 ^ 1) with 2. transitivity k; subst v.
    - symmetry. apply (Z.div_unique_pos _ _ _ (2 ^ t - 1)); [lia|].
      rewrite <-Z.sub_1_r. ring.
    - apply (Z.div_unique_pos _ _ _ (2 ^ t)); [lia|ring]. }
  assert (forall i, 0 <= i < t -> Z.testbit v i = false) as Hlow.
  { intros i Hi. subst v. rewrite Z.mul_comm. apply Z.mul_pow2_bits_low. lia. }
  assert (Z.testbit v t = true) as Hbit.
  { subst v. rewrite Z.mul_comm, Z.mul_pow2_bits, Z.sub_diag by lia.
    rewrite Z.bit0_odd, Z.add_comm, Z.odd_add_mul_2. done. }
  assert (Z.testbit (Z.pred v) t = false) as Hpred.
  { apply Z.testbit_false; [done|]. replace (Z.pred v / 2 ^ t) with (2 * k).
    - by rewrite Z.mul_comm, Z.mod_mul by lia.
    - subst v. apply (Z.div_unique_pos _ _ _ (2 ^ t - 1)); [lia|].
      rewrite <-Z.sub_1_r. ring. }
  apply Z.bits_inj'. intros i Hi. rewrite Z.land_spec, Z.bits_opp, Z.pow2_bits_eqb by lia.
  destruct (Z.lt_trichotomy i t) as [Hit|[->|Hit]].
  - rewrite Hlow by lia. destruct (Z.eqb_spec t i); [lia|done].
  - by rewrite Hbit, Hpred, Z.eqb_refl.
  - rewrite Hhigh by lia. destruct (Z.eqb_spec t i); [lia|].
    by destruct (Z.testbit v i).
Qed.

(** Trailing zeroes of the whole integer: [max_bits] only matters for [0]. *)
Lemma count_trailing_zeroes_spec v m t k :
  0 <= t -> 0 <= k -> v = 2 ^ t * (2 * k + 1) -> count_trailing_zeroes v m = t.
Proof.
  intros Ht Hk Hv. pose proof (Z.pow_pos_nonneg 2 t).
  unfold count_trailing_zeroes. destruct (Z.eqb_spec v 0); [nia|].
  rewrite (lowest_bit v t k), bit_length_pos, Z.log2_pow2 by (done || lia). lia.
Qed.

Lemma count_trailing_zeroes_range v m :
  0 <= v < 2 ^ 64 -> 0 <= m <= 64 -> 0 <= count_trailing_zeroes v m <= 64.
Proof.
  intros Hv Hm. destruct (Z.eq_dec v 0) as [->|].
  - unfold count_trailing_zeroes. simpl. lia.
  - destruct (odd_part v) as (t & k & Ht & Hk & Hv'); [lia|].
    rewrite (count_trailing_zeroes_spec v m t k) by done.
    enough (t < 64) by lia. apply (Z.pow_lt_mono_r_iff 2); nia.
Qed.

Lemma count_leading_zeroes_range v m : 0 <= m -> 0 <= count_leading_zeroes v m <= m.
Proof.
  intros Hm. rewrite count_leading_zeroes_spec by done. cbn zeta.
  pose proof (Z.mod_pos_bound v (2 ^ m) ltac:(lia)).
  destruct (Z.eqb_spec (v mod 2 ^ m) 0); [lia|].
  pose proof (Z.log2_nonneg (v mod 2 ^ m)).
  assert (Z.log2 (v mod 2 ^ m) < m) by (apply Z.log2_lt_pow2; lia). lia.
Qed.

(** The number of set bits among the low [n]. *)
Fixpoint popcount (n : nat) (x : Z) : Z :=
  match n with
  | O => 0
  | S k => x mod 2 + popcount k (x / 2)
  end.

Lemma bit_count_popcount n v : 0 <= v < 2 ^ Z.of_nat n -> bit_count v = popcount n v.
Proof.
  revert v; induction n as [|n IH]; intros v Hv.
  - change (2 ^ Z.of_nat 0) with 1 in Hv. by replace v with 0 by lia.
  - rewrite Nat2Z.inj_succ, Z.pow_succ_r in Hv by lia. cbn [popcount].
    pose proof (Z.div_mod v 2). pose proof (Z.mod_pos_bound v 2).
    rewrite <-IH by lia.
    destruct v as [|p|p]; [done| |lia]. destruct p as [p|p|]; [| |done].
    + replace (Z.pos p~1 / 2) with (Z.pos p) by
        (apply (Z.div_unique_pos _ _ _ 1); lia).
      replace (Z.pos p~1 mod 2) with 1 by
        (apply (Z.mod_unique_pos _ _ (Z.pos p)); lia). done.
    + replace (Z.pos p~0 / 2) with (Z.pos p) by
        (apply (Z.div_unique_pos _ _ _ 0); lia).
      replace (Z.pos p~0 mod 2) with 0 by
        (apply (Z.mod_unique_pos _ _ (Z.pos p)); lia). done.
Qed.

Lemma popcount_range n v : 0 <= popcount n v <= Z.of_nat n.
Proof.
  revert v; induction n as [|n IH]; intros v; cbn [popcount]; [lia|].
  specialize (IH (v / 2)). pose proof (Z.mod_pos_bound v 2). lia.
Qed.

(** ** Byte reversal *)

Lemma reverse_bytes_spec x :
  is_u64 x ->
  exists y, reverse_bytes x = Ret y /\ is_u64 y /\ le_bytes 8 y = rev (le_bytes 8 x).
Proof.
  unfold is_u64. intros Hx. unfold reverse_bytes.
  replace ((0 <=? x) && (x <? 2 ^ 64)) with true by (zcmp; simpl; lia).
  assert (Forall is_byte (rev (le_bytes 8 x))) as Hb.
  { apply Forall_rev, le_bytes_bytes. }
  assert (length (rev (le_bytes 8 x)) = 8%nat) as Hl.
  { by rewrite length_rev, length_le_bytes. }
  eexists; split; [done|split].
  - pose proof (le_int_range _ Hb) as Hr. rewrite Hl in Hr. exact Hr.
  - rewrite <-Hl at 1. by apply le_bytes_le_int.
Qed.

(** ** Little-endian reads *)

Lemma unpack_from_spec n mem addr :
  0 <= addr -> addr + Z.of_nat n <= Z.of_nat (length mem) ->
  unpack_from n mem addr = Ret (le_int (take n (drop (Z.to_nat addr) mem))).
Proof.
  intros Ha Hl. unfold unpack_from.
  destruct (Z.ltb_spec addr 0); [lia|].
  by replace ((0 <=? addr) && (addr + Z.of_nat n <=? Z.of_nat (length mem)))
    with true by (zcmp; simpl; lia).
Qed.

Lemma unpack_from_short n mem addr :
  0 <= addr -> Z.of_nat (length mem) < addr + Z.of_nat n ->
  unpack_from n mem addr = Raise PyException.
Proof.
  intros Ha Hl. unfold unpack_from.
  destruct (Z.ltb_spec addr 0); [lia|].
  by replace ((0 <=? addr) && (addr + Z.of_nat n <=? Z.of_nat (length mem)))
    with false by (zcmp; simpl; lia).
Qed.

(** The widths [read_uint] supports. *)
Definition read_width (n : Z) : bool := existsb (Z.eqb n) [0; 1; 2; 3; 4; 8].

Lemma take_drop_bytes (mem : bytes) a n :
  Forall is_byte mem -> Forall is_byte (take n (drop a mem)).
Proof. intros. by apply Forall_take, Forall_drop. Qed.

Lemma read_uint_spec mem addr n :
  Forall is_byte mem -> read_width n = true ->
  0 <= addr -> addr + n <= Z.of_nat (length mem) ->
  read_uint mem addr n
  = Ret (le_int (take (Z.to_nat n) (drop (Z.to_nat addr) mem))).
Proof.
  intros Hmem Hn Ha Hl. unfold read_width in Hn. cbn [existsb] in Hn.
  rewrite !orb_true_iff, !Z.eqb_eq in Hn.
  destruct Hn as [->|[->|[->|[->|[->|[->|Hn]]]]]]; try done;
    unfold read_uint; cbn [Z.eqb Pos.eqb].
  - unfold mem_index. rewrite py_index_nonneg by done.
    destruct (lookup_lt_is_Some_2 mem (Z.to_nat addr)) as [b Hb]; [lia|].
    rewrite Hb. f_equal. change (Z.to_nat 1) with 1%nat.
    rewrite (drop_S _ _ _ Hb), firstn_cons, take_0. cbn [le_int]. lia.
  - by apply unpack_from_spec.
  - rewrite !unpack_from_spec by lia. cbn [mbind outcome_bind]. f_equal.
    destruct (lookup_lt_is_Some_2 mem (Z.to_nat addr)) as [b0 H0]; [lia|].
    destruct (lookup_lt_is_Some_2 mem (S (Z.to_nat addr))) as [b1 H1]; [lia|].
    destruct (lookup_lt_is_Some_2 mem (S (S (Z.to_nat addr)))) as [b2 H2]; [lia|].
    replace (Z.to_nat (addr + 2)) with (S (S (Z.to_nat addr))) by lia.
    rewrite (drop_S _ _ _ H0), (drop_S _ _ _ H1), (drop_S _ _ _ H2).
    change (Z.to_nat 3) with 3%nat. rewrite !firstn_cons, !take_0. cbn [le_int].
    rewrite Forall_lookup in Hmem.
    pose proof (Hmem _ _ H0). pose proof (Hmem _ _ H1). pose proof (Hmem _ _ H2).
    unfold is_byte in *. rewrite Z.shiftl_mul_pow2 by lia.
    rewrite (lor_low_high _ _ 16); [lia|lia|lia|]. apply Z.mod_mul. lia.
  - by apply unpack_from_spec.
  - by apply unpack_from_spec.
Qed.

Lemma read_uint_range mem addr n v :
  Forall is_byte mem -> 0 <= addr -> 0 <= n <= 8 ->
  read_uint mem addr n = Ret v -> 0 <= v < 2 ^ (8 * n).
Proof.
  intros Hmem Ha Hn Hv. destruct (Z.eq_dec n 0) as [->|Hn0].
  { injection Hv as <-. done. }
  assert (read_width n = true) as Hw.
  { unfold read_uint in Hv. unfold read_width. cbn [existsb].
    repeat (case_match; [by rewrite ?orb_true_r|]). done. }
  destruct (Z.le_gt_cases (addr + n) (Z.of_nat (length mem))) as [Hl|Hl].
  - rewrite read_uint_spec in Hv by done. injection Hv as <-.
    pose proof (le_int_range _ (take_drop_bytes mem (Z.to_nat addr) (Z.to_nat n) Hmem)).
    rewrite length_take, length_drop in H.
    replace (Z.of_nat (Z.to_nat n `min` (length mem - Z.to_nat addr))) with n in H by lia.
    rewrite Z.pow_mul_r by lia. exact H.
  - exfalso. revert Hv. unfold read_uint, mem_index. rewrite py_index_nonneg by done.
    unfold read_width in Hw. cbn [existsb] in Hw.
    rewrite !orb_true_iff, !Z.eqb_eq in Hw.
    destruct Hw as [->|[->|[->|[->|[->|[->|Hw]]]]]]; try done;
      cbn [Z.eqb Pos.eqb]; try (by rewrite unpack_from_short by lia).
    + by rewrite lookup_ge_None_2 by lia.
    + destruct (unpack_from 2 mem addr); [|done].
      cbn [mbind outcome_bind]. by rewrite (unpack_from_short 1) by lia.
Qed.
