(* ===== verification/MemorySection.v ===== *)
(** * Memory sections and their access bitmaps

    [pvm/interpreters/cpython/memory_section.py] with the constructor it
    inherits from [AbstractMemorySection] ([pvm/types.py]).  A section is an
    address range with initial contents, an access mode and a bitmap of two
    bits per page, 32 pages to a 64-bit word, the first page in the top bits.

    The theorems show that the bitmap stores exactly the access of each page:
    setting a range makes exactly that range accessible ([check_acl_spec],
    [page_bits_set_range]), and the three ways the code tests a range agree. *)

From Stdlib Require Import ZArith Lia Bool List.
From coqutil Require Import Z.bitblast.
From stdpp Require Import base numbers option list gmap.
From S2P Require Import Prelude Constants Defs.
Import ListNotations.

#[local] Open Scope Z_scope.
#[local] Open Scope py_scope.

Definition ACL_PAGES_PER_BITMAP : Z := 32.
Definition ACL_BITS_PER_PAGE : Z := 2.
Definition ACL_READ_BIT : Z := 1.
Definition ACL_WRITE_BIT : Z := 2.

(** [page_size]; the quotient [bytes / PVM_PAGE_SIZE] is by a power of two, so
    Python's float division is exact below [2^53]. *)
Definition page_size (n : Z) : Z := PVM_PAGE_SIZE * ceil_div n PVM_PAGE_SIZE.

(** [settings.PVM_MAX_HEAP_SIZE] *)
Definition PVM_MAX_HEAP_SIZE : Z := 1000000 * 1000.

(** ** The bitmap *)

(** An absent access mode ([None]) is none of the modes. *)
Definition acl_bits (perm : option Z) : Z :=
  match perm with
  | Some perm =>
      if perm =? MEM_I then 0
      else if perm =? MEM_R then ACL_READ_BIT
      else if (perm =? MEM_W) || (perm =? MEM_RW) then ACL_READ_BIT .| ACL_WRITE_BIT
      else 0
  | None => 0
  end.

Definition acl_bitmap_idx (page : Z) : Z := page / ACL_PAGES_PER_BITMAP.

Definition acl_page_idx (page : Z) : Z :=
  (ACL_PAGES_PER_BITMAP - 1 - page mod ACL_PAGES_PER_BITMAP) * ACL_BITS_PER_PAGE.

Definition set_page_acl (acl_bitmap : list Z) (page_idx : Z) (acl : option Z)
  : outcome exn (list Z) :=
  let bitmap_idx := acl_bitmap_idx page_idx in
  if Z.of_nat (length acl_bitmap) <=? bitmap_idx then Raise PVMMemoryError
  else
    let shift := acl_page_idx page_idx in
    let mask := 3 ≪ shift in
    let bits := acl_bits acl ≪ shift in
    match py_index acl_bitmap bitmap_idx with
    | Some w =>
        match py_set acl_bitmap bitmap_idx ((w .& (MASK64 .^ mask)) .| bits) with
        | Some bitmap => Ret bitmap
        | None => Raise PyException
        end
    | None => Raise PyException
    end.

(** The [for] loop of [set_range_acl] over the pages of the range. *)
Fixpoint set_pages_acl (acl_bitmap : list Z) (pages : list Z) (acl : option Z)
  : outcome exn (list Z) :=
  match pages with
  | [] => Ret acl_bitmap
  | page :: pages =>
      match set_page_acl acl_bitmap page acl with
      | Ret bitmap => set_pages_acl bitmap pages acl
      | Raise e => Raise e
      end
  end.

Definition set_range_acl (acl_bitmap : list Z) (start_page nr_pages : Z)
  (acl : option Z) : outcome exn (list Z) :=
  if nr_pages <=? 0 then Ret acl_bitmap
  else set_pages_acl acl_bitmap (py_range start_page (start_page + nr_pages)) acl.

(** The word of a page, [0] beyond the bitmap; a negative index counts from the
    end, as in Python. *)
Definition bitmap_word (acl_bitmap : list Z) (bitmap_idx : Z) : outcome exn Z :=
  if bitmap_idx <? Z.of_nat (length acl_bitmap)
  then match py_index acl_bitmap bitmap_idx with
       | Some w => Ret w
       | None => Raise PyException
       end
  else Ret 0.

Definition has_bits (bitmap page required_bits : Z) : bool :=
  ((bitmap ≫ acl_page_idx page) .& 3) .& required_bits =? required_bits.

(** The inner loop of [check_acl]: [None] when a page lacks the access,
    otherwise the page it stops at. *)
Fixpoint check_sub (n : nat) (bitmap required_bits page sub_end : Z) : option Z :=
  match n with
  | O => Some page
  | S k => if page <? sub_end then
             if has_bits bitmap page required_bits
             then check_sub k bitmap required_bits (page + 1) sub_end
             else None
           else Some page
  end.

(** One turn of the outer loop, from page [page]. *)
Definition check_acl_body (acl_bitmap : list Z) (required_bits end_page page : Z)
  : Z + outcome exn bool :=
  if page <? end_page then
    let bitmap_idx := acl_bitmap_idx page in
    match bitmap_word acl_bitmap bitmap_idx with
    | Raise e => inr (Raise e)
    | Ret bitmap =>
        let bitmap_start := bitmap_idx * ACL_PAGES_PER_BITMAP in
        let bitmap_end := bitmap_start + ACL_PAGES_PER_BITMAP in
        let sub_end := Z.min end_page bitmap_end in
        match check_sub 32 bitmap required_bits page sub_end with
        | None => inr (Ret false)
        | Some page' => inl page'
        end
    end
  else inr (Ret true).

(** At most [nr_pages + 1] turns are needed; [None] would be running out of
    turns, which [check_acl_spec] excludes. *)
Definition check_acl (acl_bitmap : list Z) (start_page nr_pages : Z) (acl : option Z)
  : option (outcome exn bool) :=
  if nr_pages <=? 0 then Some (Ret false)
  else
    let required_bits := acl_bits acl in
    let end_page := start_page + nr_pages in
    match ploop (Z.to_pos (nr_pages + 1))
                (check_acl_body acl_bitmap required_bits end_page) start_page with
    | inr r => Some r
    | inl _ => None
    end.

(** ** Sections *)

(** The storage of a section: a buffer of its own when it is built, a view of
    the memory's mapping once it is loaded. *)
Inductive storage : Type :=
| Buffer (bs : bytes)
| View (address length : Z).

Record MemorySection : Type := mkSection {
  ms_address : Z;
  ms_size : Z;
  ms_paged_tail : Z;
  ms_contents : storage;
  ms_acl : option Z;
  ms_acl_bitmap : list Z
}.

(** [alloc_contents]: a zeroed buffer of [size] bytes whose head is replaced by
    the given bytes (a longer slice assignment extends a [bytearray]). *)
Definition alloc_contents (size : Z) (_bytes : bytes) : bytes :=
  _bytes ++ drop (length _bytes) (replicate (Z.to_nat size) 0).

Definition alloc_acl (size : Z) (acl_mode : option Z) (paged_size : Z)
  : outcome exn (list Z) :=
  let total_bytes := Z.max paged_size size in
  let nr_pages := ceil_div total_bytes PVM_PAGE_SIZE in
  let acl_size := ceil_div nr_pages ACL_PAGES_PER_BITMAP in
  let acl_bitmap := replicate (Z.to_nat (Z.max 0 acl_size)) 0 in
  if 0 <? acl_size then
    match acl_mode with
    | Some _ => set_range_acl acl_bitmap 0 nr_pages acl_mode
    | None => Ret acl_bitmap
    end
  else Ret acl_bitmap.

(** The constructor, [AbstractMemorySection.__init__]. *)
Definition new_section (address size : Z) (contents : bytes) (acl : option Z)
  : outcome exn MemorySection :=
  if PVM_MAX_HEAP_SIZE <? size then Raise PVMMemoryError
  else
    let size := page_size size in
    let buffer := alloc_contents size contents in
    let paged_size := page_size (Z.of_nat (length contents)) in
    bitmap ← alloc_acl size acl paged_size;
    Ret {| ms_address := address; ms_size := size;
           ms_paged_tail := address + paged_size;
           ms_contents := Buffer buffer; ms_acl := acl; ms_acl_bitmap := bitmap |}.

Definition acl_check (s : MemorySection) (section_addr length : Z) (required_acl : option Z)
  : option (outcome exn bool) :=
  if length <=? 0 then Some (Ret true)
  else
    let last_offset := section_addr + length - 1 in
    let start_page := section_addr / PVM_PAGE_SIZE in
    let end_page := last_offset / PVM_PAGE_SIZE in
    let nr_pages := end_page - start_page + 1 in
    check_acl (ms_acl_bitmap s) start_page nr_pages required_acl.

Definition acl_set_pages (s : MemorySection) (start_page nr_pages : Z) (acl_level : option Z)
  : outcome exn MemorySection :=
  bitmap ← set_range_acl (ms_acl_bitmap s) start_page nr_pages acl_level;
  Ret {| ms_address := ms_address s; ms_size := ms_size s;
         ms_paged_tail := ms_paged_tail s; ms_contents := ms_contents s;
         ms_acl := ms_acl s; ms_acl_bitmap := bitmap |}.

(** The first page of a list that lacks the access, [-1] when there is none. *)
Fixpoint find_bad_page (acl_bitmap : list Z) (pages : list Z) (required_bits : Z)
  : outcome exn Z :=
  match pages with
  | [] => Ret (-1)
  | page :: pages =>
      bitmap ← bitmap_word acl_bitmap (acl_bitmap_idx page);
      if has_bits bitmap page required_bits
      then find_bad_page acl_bitmap pages required_bits
      else Ret page
  end.

(** [acl_check_pages]; the interpreter's [find_err_page] is the same code over a
    bitmap argument. *)
Definition find_err_page (acl_bitmap : list Z) (section_offset length : Z)
  (required_acl : option Z) : outcome exn Z :=
  if length <=? 0 then Ret (-1)
  else
    let last_offset := section_offset + length - 1 in
    let start_page := section_offset / PVM_PAGE_SIZE in
    let end_page := last_offset / PVM_PAGE_SIZE in
    find_bad_page acl_bitmap (py_range start_page (end_page + 1)) (acl_bits required_acl).

Definition acl_check_pages (s : MemorySection) (section_addr length : Z)
  (required_acl : option Z) : outcome exn Z :=
  find_err_page (ms_acl_bitmap s) section_addr length required_acl.

(** * Properties *)

(** The two access bits of a page, read off the bitmap. *)
Definition page_bits (acl_bitmap : list Z) (page : Z) : Z :=
  ((default 0 (acl_bitmap !! Z.to_nat (acl_bitmap_idx page))) ≫ acl_page_idx page) .& 3.

(** The range a bitmap covers. *)
Definition covers (acl_bitmap : list Z) (page : Z) : Prop :=
  0 <= page < 32 * Z.of_nat (length acl_bitmap).

Lemma acl_bits_range a : 0 <= acl_bits a < 4.
Proof. unfold acl_bits. destruct a; [|lia]. repeat case_match; done. Qed.

Lemma acl_page_idx_range page : 0 <= acl_page_idx page <= 62.
Proof. unfold acl_page_idx, ACL_PAGES_PER_BITMAP, ACL_BITS_PER_PAGE.
  pose proof (Z.mod_pos_bound page 32). lia. Qed.

Lemma acl_bitmap_idx_lt bm page :
  0 <= page ->
  0 <= acl_bitmap_idx page /\
  (acl_bitmap_idx page < Z.of_nat (length bm) <-> covers bm page).
Proof.
  intros Hp. unfold acl_bitmap_idx, ACL_PAGES_PER_BITMAP, covers.
  pose proof (Z.div_mod page 32). pose proof (Z.mod_pos_bound page 32). lia.
Qed.

(** Distinct pages of one word have disjoint bits. *)
Lemma acl_page_idx_disjoint p q :
  acl_bitmap_idx p = acl_bitmap_idx q -> p <> q ->
  acl_page_idx p + 2 <= acl_page_idx q \/ acl_page_idx q + 2 <= acl_page_idx p.
Proof.
  unfold acl_bitmap_idx, acl_page_idx, ACL_PAGES_PER_BITMAP, ACL_BITS_PER_PAGE.
  pose proof (Z.div_mod p 32). pose proof (Z.div_mod q 32). lia.
Qed.

(** The bits of an updated word. *)
Lemma updated_word_bit w s b i :
  0 <= s <= 62 -> 0 <= b < 4 -> 0 <= i < 64 ->
  Z.testbit ((w .& (MASK64 .^ (3 ≪ s))) .| (b ≪ s)) i
  = if (s <=? i) && (i <? s + 2) then Z.testbit b (i - s) else Z.testbit w i.
Proof.
  intros Hs Hb Hi. rewrite Z.lor_spec, Z.land_spec, Z.lxor_spec, !Z.shiftl_spec by lia.
  change MASK64 with (Z.ones 64). rewrite Z.ones_spec_low by lia.
  assert (Z.testbit 3 (i - s) = (s <=? i) && (i <? s + 2)) as ->.
  { change 3 with (Z.ones 2). destruct (Z.leb_spec s i); cbn [andb].
    - rewrite Z.testbit_ones_nonneg by lia. zcmp; lia.
    - by rewrite Z.testbit_neg_r by lia. }
  destruct (Z.leb_spec s i), (Z.ltb_spec i (s + 2)); cbn [andb xorb];
    rewrite ?andb_false_r, ?andb_true_r, ?orb_false_l; try done.
  - rewrite (range_bits b 2) by lia. apply orb_false_r.
  - rewrite (Z.testbit_neg_r b) by lia. apply orb_false_r.
  - rewrite (Z.testbit_neg_r b) by lia. apply orb_false_r.
Qed.

Lemma field_bits w s i :
  0 <= s -> 0 <= i -> Z.testbit ((w ≫ s) .& 3) i = (i <? 2) && Z.testbit w (i + s).
Proof.
  intros Hs Hi. change 3 with (Z.ones 2).
  rewrite Z.land_spec, Z.shiftr_spec, Z.testbit_ones_nonneg by lia. apply andb_comm.
Qed.

Lemma updated_field_same w s b :
  0 <= s <= 62 -> 0 <= b < 4 -> (((w .& (MASK64 .^ (3 ≪ s))) .| (b ≪ s)) ≫ s) .& 3 = b.
Proof.
  intros Hs Hb. apply Z.bits_inj'. intros i Hi. rewrite field_bits by lia.
  destruct (Z.ltb_spec i 2); cbn [andb].
  - rewrite updated_word_bit by lia.
    replace ((s <=? i + s) && (i + s <? s + 2)) with true by (zcmp; simpl; lia).
    f_equal. lia.
  - by rewrite (range_bits b 2) by lia.
Qed.

Lemma updated_field_other w s b s' :
  0 <= s <= 62 -> 0 <= s' <= 62 -> 0 <= b < 4 -> s + 2 <= s' \/ s' + 2 <= s ->
  (((w .& (MASK64 .^ (3 ≪ s))) .| (b ≪ s)) ≫ s') .& 3 = (w ≫ s') .& 3.
Proof.
  intros Hs Hs' Hb Hd. apply Z.bits_inj'. intros i Hi. rewrite !field_bits by lia.
  destruct (Z.ltb_spec i 2); cbn [andb]; [|done]. rewrite updated_word_bit by lia.
  by replace ((s <=? i + s') && (i + s' <? s + 2)) with false by (zcmp; simpl; lia).
Qed.

Lemma set_page_acl_spec bm page acl :
  covers bm page ->
  exists bm', set_page_acl bm page acl = Ret bm' /\ length bm' = length bm /\
    forall q, 0 <= q -> page_bits bm' q = if q =? page then acl_bits acl else page_bits bm q.
Proof.
  intros Hc. pose proof Hc as Hp. unfold covers in Hp.
  destruct (acl_bitmap_idx_lt bm page) as [Hi0 Hi]; [lia|]. apply Hi in Hc.
  unfold set_page_acl. destruct (Z.leb_spec (Z.of_nat (length bm)) (acl_bitmap_idx page)); [lia|].
  rewrite py_index_nonneg by done.
  destruct (lookup_lt_is_Some_2 bm (Z.to_nat (acl_bitmap_idx page))) as [w Hw]; [lia|].
  rewrite Hw, py_set_nonneg by lia. eexists; split; [done|split].
  { apply length_insert. }
  intros q Hq. destruct (acl_bitmap_idx_lt bm q Hq) as [Hq0 _].
  pose proof (acl_page_idx_range page). pose proof (acl_page_idx_range q).
  pose proof (acl_bits_range acl).
  unfold page_bits. destruct (Z.eq_dec (acl_bitmap_idx q) (acl_bitmap_idx page)) as [He|He].
  - rewrite He, list_lookup_insert_eq, Hw by lia. cbn [default from_option id].
    destruct (Z.eqb_spec q page) as [->|Hne].
    + by apply updated_field_same.
    + apply updated_field_other; [lia|lia|lia|].
      by apply acl_page_idx_disjoint.
  - rewrite list_lookup_insert_ne by lia.
    destruct (Z.eqb_spec q page) as [->|Hne]; [done|done].
Qed.

Lemma set_pages_acl_spec pages bm acl :
  Forall (covers bm) pages ->
  exists bm', set_pages_acl bm pages acl = Ret bm' /\ length bm' = length bm /\
    forall q, 0 <= q ->
      page_bits bm' q = if existsb (Z.eqb q) pages then acl_bits acl else page_bits bm q.
Proof.
  revert bm; induction pages as [|p pages IH]; intros bm Hc; simpl.
  { by exists bm. }
  apply Forall_cons_1 in Hc as [Hp Hc].
  destruct (set_page_acl_spec bm p acl Hp) as (bm1 & -> & Hl1 & H1).
  destruct (IH bm1) as (bm2 & -> & Hl2 & H2).
  { eapply List.Forall_impl; [|exact Hc]. intros a. unfold covers. by rewrite Hl1. }
  exists bm2. split; [done|split; [congruence|]]. intros q Hq.
  rewrite H2, H1 by done. destruct (q =? p), (existsb (Z.eqb q) pages); done.
Qed.

Lemma existsb_py_range q lo hi : existsb (Z.eqb q) (py_range lo hi) = (lo <=? q) && (q <? hi).
Proof.
  apply eq_true_iff_eq. rewrite existsb_exists, andb_true_iff, Z.leb_le, Z.ltb_lt. split.
  - intros (x & Hx & Hq). apply Z.eqb_eq in Hq as ->.
    apply list_elem_of_In, elem_of_py_range in Hx. done.
  - intros H. exists q. rewrite Z.eqb_refl. split; [|done].
    apply list_elem_of_In, elem_of_py_range. lia.
Qed.

Lemma page_bits_set_range bm start nr acl :
  0 <= start -> start + nr <= 32 * Z.of_nat (length bm) ->
  exists bm', set_range_acl bm start nr acl = Ret bm' /\ length bm' = length bm /\
    forall q, 0 <= q ->
      page_bits bm' q
      = if (start <=? q) && (q <? start + nr) then acl_bits acl else page_bits bm q.
Proof.
  intros H0 Hn. unfold set_range_acl. destruct (Z.leb_spec nr 0).
  - exists bm. split; [done|split; [done|]]. intros q Hq.
    by replace ((start <=? q) && (q <? start + nr)) with false by (zcmp; simpl; lia).
  - destruct (set_pages_acl_spec (py_range start (start + nr)) bm acl) as (bm' & ? & ? & Hq).
    { apply Forall_forall. intros p Hp%elem_of_py_range. unfold covers. lia. }
    exists bm'. split; [done|split; [done|]]. intros q Hq'.
    rewrite Hq by done. by rewrite existsb_py_range.
Qed.

(** ** Testing a range *)

Lemma bitmap_word_spec bm page :
  0 <= page ->
  bitmap_word bm (acl_bitmap_idx page)
  = Ret (default 0 (bm !! Z.to_nat (acl_bitmap_idx page))).
Proof.
  intros Hp. destruct (acl_bitmap_idx_lt bm page Hp) as [Hi _]. unfold bitmap_word.
  destruct (Z.ltb_spec (acl_bitmap_idx page) (Z.of_nat (length bm))).
  - rewrite py_index_nonneg by done.
    by destruct (lookup_lt_is_Some_2 bm (Z.to_nat (acl_bitmap_idx page))) as [w ->]; [lia|].
  - by rewrite lookup_ge_None_2 by lia.
Qed.

(** A page has the access. *)
Definition page_ok (bm : list Z) (required_bits page : Z) : bool :=
  page_bits bm page .& required_bits =? required_bits.

Lemma has_bits_page_ok bm page r :
  has_bits (default 0 (bm !! Z.to_nat (acl_bitmap_idx page))) page r = page_ok bm r page.
Proof. done. Qed.

Lemma check_sub_spec n w r page sub_end :
  0 <= sub_end - page <= Z.of_nat n ->
  check_sub n w r page sub_end
  = if forallb (fun p => has_bits w p r) (py_range page sub_end) then Some sub_end else None.
Proof.
  revert page; induction n as [|n IH]; intros page Hn; cbn [check_sub].
  { replace sub_end with page by lia.
    unfold py_range. replace (page - page) with 0 by lia. done. }
  destruct (Z.ltb_spec page sub_end).
  - rewrite (py_range_cons page) by done. cbn [forallb].
    destruct (has_bits w page r); cbn [andb]; [|done]. apply IH. lia.
  - replace sub_end with page by lia.
    unfold py_range. replace (page - page) with 0 by lia. done.
Qed.

(** The number of turns still needed shrinks with every word tested. *)
Lemma check_acl_body_spec bm r end_page page :
  0 <= page ->
  match check_acl_body bm r end_page page with
  | inl page' =>
      page < page' <= end_page /\ forallb (page_ok bm r) (py_range page page') = true
  | inr o => o = Ret (forallb (page_ok bm r) (py_range page end_page))
             \/ (exists page', page < page' <= end_page /\ o = Ret false /\
                 forallb (page_ok bm r) (py_range page page') = false)
  end.
Proof.
  intros Hp. unfold check_acl_body. destruct (Z.ltb_spec page end_page).
  2: { left. by rewrite py_range_nil by lia. }
  rewrite bitmap_word_spec by done.
  set (sub_end := Z.min end_page _).
  assert (0 < sub_end - page <= 32) as Hs.
  { subst sub_end. unfold acl_bitmap_idx, ACL_PAGES_PER_BITMAP.
    pose proof (Z.div_mod page 32). pose proof (Z.mod_pos_bound page 32). lia. }
  rewrite check_sub_spec by lia.
  assert (forallb (fun p => has_bits (default 0 (bm !! Z.to_nat (acl_bitmap_idx page))) p r)
            (py_range page sub_end)
          = forallb (page_ok bm r) (py_range page sub_end)) as ->.
  { apply forallb_ext. intros p Hp'. apply elem_of_py_range in Hp'.
    rewrite <-has_bits_page_ok. do 4 f_equal.
    subst sub_end. unfold acl_bitmap_idx, ACL_PAGES_PER_BITMAP in *.
    pose proof (Z.div_mod page 32). pose proof (Z.mod_pos_bound page 32).
    apply (Z.div_unique_pos _ _ _ (p - 32 * (page / 32))); lia. }
  destruct (forallb _ _) eqn:Hall.
  - split; [lia|done].
  - right. exists sub_end. split; [lia|done].
Qed.

Lemma check_acl_spec bm start nr acl :
  0 <= start ->
  check_acl bm start nr acl
  = Some (Ret ((0 <? nr) && forallb (page_ok bm (acl_bits acl)) (py_range start (start + nr)))).
Proof.
  intros H0. unfold check_acl. destruct (Z.leb_spec nr 0).
  { destruct (Z.ltb_spec 0 nr); [lia|done]. }
  destruct (Z.ltb_spec 0 nr); [|lia]. cbn [andb].
  set (r := acl_bits acl). set (e := start + nr).
  set (ok := fun lo hi => forallb (page_ok bm r) (py_range lo hi)).
  assert (exists o, ploop (Z.to_pos (nr + 1)) (check_acl_body bm r e) start = inr o
                    /\ o = Ret (ok start e)) as (o & -> & ->); [|done].
  apply (ploop_total (fun p => start <= p <= e /\ ok start p = true) _ (fun p => e - p)).
  - intros p [Hp _]. lia.
  - intros p [Hp Hok]. pose proof (check_acl_body_spec bm r e p ltac:(lia)) as Hb.
    destruct (check_acl_body bm r e p) as [p'|o].
    + destruct Hb as [Hp' Hb]. split; [|lia]. split; [lia|]. unfold ok.
      rewrite (py_range_app start p p'), forallb_app, Hb, andb_true_r by lia. done.
    + unfold ok in *. destruct Hb as [->|(p' & Hp' & -> & Hb)]; f_equal.
      * rewrite (py_range_app start p e), forallb_app by lia. by rewrite Hok.
      * rewrite (py_range_app start p e), (py_range_app p p' e), !forallb_app by lia.
        by rewrite Hb, andb_false_r.
  - split; [lia|]. unfold ok. by rewrite py_range_nil by lia.
  - lia.
Qed.

(** [acl_check_pages] names the first page without the access. *)
Lemma find_bad_page_spec bm pages r :
  Forall (Z.le 0) pages ->
  match find_bad_page bm pages r with
  | Ret p => if forallb (page_ok bm r) pages then p = -1
             else exists l k, pages = l ++ p :: k /\ forallb (page_ok bm r) l = true
                              /\ page_ok bm r p = false
  | Raise _ => False
  end.
Proof.
  induction 1 as [|p pages Hp _ IH]; [done|]. cbn [find_bad_page].
  rewrite bitmap_word_spec by done. cbn [mbind outcome_bind]. rewrite has_bits_page_ok.
  cbn [forallb]. destruct (page_ok bm r p) eqn:Hok; cbn [andb].
  - destruct (find_bad_page bm pages r) as [q|]; [|done].
    destruct (forallb (page_ok bm r) pages); [done|].
    destruct IH as (l & k & -> & Hl & Hq). exists (p :: l), k.
    split; [done|]. cbn [forallb]. by rewrite Hok.
  - by exists [], pages.
Qed.

(** Setting the access of a range of pages makes a test of any part of that
    range for that access succeed, and leaves the bits of every other page as
    they were. *)
Theorem acl_set_then_check bm start nr acl first count :
  0 <= start -> start + nr <= 32 * Z.of_nat (length bm) ->
  start <= first -> 0 < count -> first + count <= start + nr ->
  exists bm', set_range_acl bm start nr acl = Ret bm' /\
    check_acl bm' first count acl = Some (Ret true) /\
    forall q, 0 <= q -> ~ (start <= q < start + nr) -> page_bits bm' q = page_bits bm q.
Proof.
  intros H0 Hn Hf Hc Hfc. destruct (page_bits_set_range bm start nr acl H0 Hn)
    as (bm' & Hset & _ & Hbits). exists bm'. split; [done|split].
  - rewrite check_acl_spec by lia. destruct (Z.ltb_spec 0 count); [|lia]. cbn [andb].
    do 2 f_equal. apply forallb_forall. intros p Hp.
    apply list_elem_of_In, elem_of_py_range in Hp. unfold page_ok. rewrite Hbits by lia.
    replace ((start <=? p) && (p <? start + nr)) with true by (zcmp; simpl; lia).
    rewrite Z.land_diag. apply Z.eqb_refl.
  - intros q Hq Hout. rewrite Hbits by done.
    by replace ((start <=? q) && (q <? start + nr)) with false by (zcmp; simpl; lia).
Qed.

Lemma acl_set_then_check_witness :
  exists bm', set_range_acl [0; 0] 30 5 (Some MEM_W) = Ret bm' /\
    check_acl bm' 31 2 (Some MEM_W) = Some (Ret true) /\
    forall q, 0 <= q -> ~ (30 <= q < 30 + 5) -> page_bits bm' q = page_bits [0; 0] q.
Proof. apply (acl_set_then_check [0; 0] 30 5 (Some MEM_W) 31 2); simpl; lia. Defined.
