(* ===== verification/Memory.v ===== *)
(** * The paged memory of the interpreter

    [pvm/interpreters/cpython/memory.py], class [PVMMemory]: a 4 GiB zero-filled
    mapping, the sets of readable and writable pages, the address of the last
    access ([_mem_addr], which the interpreter turns into the page-fault
    address), the heap and stack bounds and the four sections of the program.

    The mapping is a finite map from addresses to bytes, an absent address
    holding zero.  A slice of the mapping follows Python: its bounds are
    normalised, and an assignment needs data of the slice's length.

    The theorems show that an access succeeds exactly when every page it
    touches carries the access, that a refused one changes no byte and records
    the lowest inaccessible page ([read_bytes_correct], [write_bytes_spec]),
    that a write is read back and frames every other byte
    ([write_int_read_int]), and that every operation keeps the memory well
    formed ([memory_ops_preserve_wf]). *)

From Stdlib Require Import ZArith Lia Bool List.
From stdpp Require Import base numbers option list gmap.
From S2P Require Import Prelude Constants Defs MemorySection.
Import ListNotations.

#[local] Open Scope Z_scope.
#[local] Open Scope py_scope.

(** ** Shared constants of [pvm/types.py] *)

Definition ADDR_MOD : Z := 2 ^ 32.
Definition PAGE_SIZE : Z := PVM_PAGE_SIZE.
Definition _PAGE_SHIFT : Z := bit_length PAGE_SIZE - 1.
Definition _PAGE_MASK : Z := PAGE_SIZE - 1.
Definition _ADDR_MASK : Z := ADDR_MOD - 1.
Definition _MAX_PAGE_IDX : Z := ADDR_MOD / PAGE_SIZE - 1.
Definition SIZE : Z := 2 ^ 32.

(** [validate_pvm_gas] *)
Definition validate_pvm_gas (gas : Z) : outcome exn Z :=
  if negb ((0 <=? gas) && (gas <? 1 ≪ 64)) then Raise PVMGasError else Ret gas.

(** ** State *)

Record PVMMemory : Type := mkMem {
  mv : gmap Z Z;
  pages_r : gset Z;
  pages_w : gset Z;
  mem_addr : Z;
  heap_base : option Z;
  stack_base : option Z;
  heap_ptr : Z;
  rom : option MemorySection;
  heap : option MemorySection;
  stack : option MemorySection;
  args : option MemorySection
}.

Definition set_mv (m : PVMMemory) (v : gmap Z Z) : PVMMemory :=
  {| mv := v; pages_r := pages_r m; pages_w := pages_w m; mem_addr := mem_addr m;
     heap_base := heap_base m; stack_base := stack_base m; heap_ptr := heap_ptr m;
     rom := rom m; heap := heap m; stack := stack m; args := args m |}.
Definition set_pages (m : PVMMemory) (r w : gset Z) : PVMMemory :=
  {| mv := mv m; pages_r := r; pages_w := w; mem_addr := mem_addr m;
     heap_base := heap_base m; stack_base := stack_base m; heap_ptr := heap_ptr m;
     rom := rom m; heap := heap m; stack := stack m; args := args m |}.
Definition set_mem_addr (a : Z) (m : PVMMemory) : PVMMemory :=
  {| mv := mv m; pages_r := pages_r m; pages_w := pages_w m; mem_addr := a;
     heap_base := heap_base m; stack_base := stack_base m; heap_ptr := heap_ptr m;
     rom := rom m; heap := heap m; stack := stack m; args := args m |}.
Definition set_bounds (m : PVMMemory) (hb sb : option Z) (hp : Z) : PVMMemory :=
  {| mv := mv m; pages_r := pages_r m; pages_w := pages_w m; mem_addr := mem_addr m;
     heap_base := hb; stack_base := sb; heap_ptr := hp;
     rom := rom m; heap := heap m; stack := stack m; args := args m |}.
Definition set_sections (m : PVMMemory) (ro he st ar : option MemorySection) : PVMMemory :=
  {| mv := mv m; pages_r := pages_r m; pages_w := pages_w m; mem_addr := mem_addr m;
     heap_base := heap_base m; stack_base := stack_base m; heap_ptr := heap_ptr m;
     rom := ro; heap := he; stack := st; args := ar |}.

(** The bounds [grow_heap] reads. *)
Definition bounds (m : PVMMemory) : option Z * option Z * Z :=
  (heap_base m, stack_base m, heap_ptr m).

(** ** The mapping and its slices *)

Definition mv_get (v : gmap Z Z) (a : Z) : Z := default 0 (v !! a).

(** A bound of a slice of a sequence of [SIZE] elements. *)
Definition slice_bound (i : Z) : Z :=
  if i <? 0 then Z.max 0 (SIZE + i) else Z.min i SIZE.

(** [_mv[lo:hi]] *)
Definition mv_slice (v : gmap Z Z) (lo hi : Z) : bytes :=
  map (mv_get v) (py_range (slice_bound lo) (slice_bound hi)).

Fixpoint mv_store (v : gmap Z Z) (a : Z) (data : bytes) : gmap Z Z :=
  match data with
  | [] => v
  | b :: data => mv_store (<[a := b]> v) (a + 1) data
  end.

(** [_mv[lo:hi] = data] *)
Definition mv_assign (v : gmap Z Z) (lo hi : Z) (data : bytes) : outcome exn (gmap Z Z) :=
  let lo := slice_bound lo in
  let hi := slice_bound hi in
  if Z.of_nat (length data) =? Z.max 0 (hi - lo) then Ret (mv_store v lo data)
  else Raise PyException.

(** [view]: a checked window on the mapping, as its address and length. *)
Definition view (address length : Z) : outcome exn (Z * Z) :=
  let address := address .& _ADDR_MASK in
  if length <? 0 then Raise PVMMemoryError
  else
    let end_ := address + length in
    if SIZE <? end_ then Raise PVMMemoryError else Ret (address, length).

(** ** Access control *)

Definition merge_acl (page_idx : Z) (acl : option Z) (m : PVMMemory) : PVMMemory :=
  let acl := default MEM_RW acl in
  let r := if negb (acl =? MEM_I) then {[ page_idx ]} ∪ pages_r m else pages_r m in
  let w := if (acl =? MEM_W) || (acl =? MEM_RW) then {[ page_idx ]} ∪ pages_w m
           else pages_w m in
  set_pages m r w.

Definition set_acl (page_idx : Z) (acl : option Z) (m : PVMMemory) : PVMMemory :=
  let acl := default MEM_RW acl in
  if acl =? MEM_I then
    set_pages m (pages_r m ∖ {[ page_idx ]}) (pages_w m ∖ {[ page_idx ]})
  else
    set_pages m ({[ page_idx ]} ∪ pages_r m)
      (if (acl =? MEM_W) || (acl =? MEM_RW) then {[ page_idx ]} ∪ pages_w m
       else pages_w m ∖ {[ page_idx ]}).

(** [for pg in range(lo, hi): self.set_acl(pg, acl)] *)
Definition set_acl_range (lo hi : Z) (acl : option Z) (m : PVMMemory) : PVMMemory :=
  fold_left (fun m pg => set_acl pg acl m) (py_range lo hi) m.

(** ** Loading *)

Definition add_segment (address size : Z) (acl : option Z) (contents : bytes)
  : eff PVMMemory exn unit :=
  if (size <=? 0) && (Z.of_nat (length contents) =? 0) then mret tt
  else
    let address := address .& _ADDR_MASK in
    let size := Z.max size (Z.of_nat (length contents)) in
    if size <=? 0 then mret tt
    else
      let size := ((size + PAGE_SIZE - 1) / PAGE_SIZE) * PAGE_SIZE in
      let end_ := address + size in
      if SIZE <? end_ then raise PVMMemoryError
      else
        let start_page := address ≫ _PAGE_SHIFT in
        let page_count := size / PAGE_SIZE in
        modify (set_acl_range start_page (start_page + page_count) acl) ≫= fun _ =>
        let data_len := Z.min (Z.of_nat (length contents)) size in
        if data_len <=? 0 then mret tt
        else
          m ← get_state;
          v ← lift (mv_assign (mv m) address (address + data_len)
                      (take (Z.to_nat data_len) contents));
          modify (fun m => set_mv m v).

(** The bytes of a section's storage. *)
Definition storage_bytes (m : PVMMemory) (c : storage) : bytes :=
  match c with
  | Buffer bs => bs
  | View a n => mv_slice (mv m) a (a + n)
  end.

(** [load_section] returns the section with its storage replaced by a view. *)
Definition load_section (s : MemorySection) : eff PVMMemory exn MemorySection :=
  let base_page := ms_address s ≫ _PAGE_SHIFT in
  (if truthy (ms_size s) then
     let nr_pages := ceil_div (ms_size s) PAGE_SIZE in
     let default_acl := default MEM_RW (ms_acl s) in
     modify (fun m => fold_left
       (fun m local_page => merge_acl (base_page + local_page) (Some default_acl) m)
       (py_range 0 nr_pages) m)
   else mret tt) ≫= fun _ =>
  m ← get_state;
  let contents := storage_bytes m (ms_contents s) in
  let data_len := Z.max 0 (Z.min (Z.of_nat (length contents))
                                 (ms_paged_tail s - ms_address s)) in
  (if 0 <? data_len then
     v ← lift (mv_assign (mv m) (ms_address s) (ms_address s + data_len)
                 (take (Z.to_nat data_len) contents));
     modify (fun m => set_mv m v)
   else mret tt) ≫= fun _ =>
  w ← lift (view (ms_address s) (ms_size s));
  mret {| ms_address := ms_address s; ms_size := ms_size s;
          ms_paged_tail := ms_paged_tail s; ms_contents := View w.1 w.2;
          ms_acl := ms_acl s; ms_acl_bitmap := ms_acl_bitmap s |}.

Definition load_optional (s : option MemorySection)
  : eff PVMMemory exn (option MemorySection) :=
  match s with
  | Some s => s' ← load_section s; mret (Some s')
  | None => mret None
  end.

Definition empty_memory : PVMMemory :=
  {| mv := ∅; pages_r := ∅; pages_w := ∅; mem_addr := -1; heap_base := None;
     stack_base := None; heap_ptr := 0; rom := None; heap := None; stack := None;
     args := None |}.

(** The constructor. *)
Definition new_memory (ro he st ar : option MemorySection) : outcome exn PVMMemory :=
  let load : eff PVMMemory exn unit :=
    ro' ← load_optional ro;
    he' ← load_optional he;
    st' ← load_optional st;
    ar' ← load_optional ar;
    modify (fun m => set_sections m ro' he' st' ar') ≫= fun _ =>
    modify (fun m => match he with
                     | Some h => set_bounds m (Some (ms_address h)) (stack_base m)
                                   (ms_address h + ms_size h)
                     | None => m
                     end) ≫= fun _ =>
    modify (fun m => match st with
                     | Some s => set_bounds m (heap_base m) (Some (ms_address s)) (heap_ptr m)
                     | None => m
                     end) in
  match load empty_memory with
  | (Ret _, m) => Ret m
  | (Raise e, _) => Raise e
  end.

(** ** Reading and writing *)

Definition _page_fault {A} (page_idx : Z) : eff PVMMemory exn A :=
  modify (set_mem_addr (page_idx * PAGE_SIZE)) ≫= fun _ => raise PVMMemoryError.

(** [bytes.ljust], applied only when [padding] is truthy. *)
Definition pad (padding : option Z) (data : bytes) : bytes :=
  match padding with
  | Some p => if truthy p && (Z.of_nat (length data) <? p)
              then data ++ replicate (Z.to_nat p - length data) 0 else data
  | None => data
  end.

(** A page may not be accessed. *)
Definition page_refused (acc : gset Z) (pg : Z) : bool :=
  (_MAX_PAGE_IDX <? pg) || negb (bool_decide (pg ∈ acc)).

(** One turn of the page-by-page check: [inr (Some pg)] refuses page [pg]. *)
Definition scan_body (acc : gset Z) (end_ scan_addr : Z) : Z + option Z :=
  if scan_addr <? end_ then
    let pg := scan_addr ≫ _PAGE_SHIFT in
    let page_off := scan_addr .& _PAGE_MASK in
    let chunk := Z.min (PAGE_SIZE - page_off) (end_ - scan_addr) in
    if page_refused acc pg then inr (Some pg) else inl (scan_addr + chunk)
  else inr None.

(** There are [2^20] pages, and a page beyond the last is refused, so [2^20 + 2]
    turns suffice ([scan_pages_total]). *)
Definition scan_pages (acc : gset Z) (address end_ : Z) : option Z :=
  match ploop (2 ^ 20 + 2) (scan_body acc end_) address with
  | inr r => r
  | inl _ => Some (_MAX_PAGE_IDX + 1)
  end.

(** The access check of [read_bytes] and [write_bytes]: the single-page fast
    path, else the scan. *)
Definition check_pages (acc : gset Z) (address end_ : Z) : option Z :=
  if (address ≫ _PAGE_SHIFT) =? ((end_ - 1) ≫ _PAGE_SHIFT) then
    let pg := address ≫ _PAGE_SHIFT in
    if page_refused acc pg then Some pg else None
  else scan_pages acc address end_.

Definition read_bytes (address length : Z) (padding : option Z)
  : eff PVMMemory exn bytes :=
  if (address <? 0) || (SIZE <=? address) then
    modify (set_mem_addr address) ≫= fun _ => raise PVMMemoryError
  else
    modify (set_mem_addr address) ≫= fun _ =>
    if length <=? 0 then mret (pad padding [])
    else
      let end_ := address + length in
      m ← get_state;
      match check_pages (pages_r m) address end_ with
      | Some pg => _page_fault pg
      | None => mret (pad padding (mv_slice (mv m) address end_))
      end.

Definition write_bytes (address : Z) (content : bytes) : eff PVMMemory exn unit :=
  match content with
  | [] => mret tt
  | _ =>
      if (address <? 0) || (SIZE <=? address) then
        modify (set_mem_addr address) ≫= fun _ => raise PVMMemoryError
      else
        modify (set_mem_addr address) ≫= fun _ =>
        let length := Z.of_nat (length content) in
        let end_ := address + length in
        m ← get_state;
        match check_pages (pages_w m) address end_ with
        | Some pg => _page_fault pg
        | None => v ← lift (mv_assign (mv m) address end_ content);
                  modify (fun m => set_mv m v)
        end
  end.

Definition read_int (addr length : Z) : eff PVMMemory exn Z :=
  if length <=? 0 then mret 0
  else data ← read_bytes addr length None; mret (le_int data).

Definition write_int (addr value length : Z) : eff PVMMemory exn unit :=
  if length <=? 0 then mret tt
  else
    let mask := 1 ≪ (length * 8) - 1 in
    let data := value .& mask in
    write_bytes addr (le_bytes (Z.to_nat length) data).

(** ** Page operations *)

Definition is_accessible (address length mode : Z) (m : PVMMemory) : outcome exn bool :=
  if length =? 0 then Ret true
  else if (address <? 0) || (length <? 0) || (SIZE <? address + length) then Ret false
  else if negb (existsb (Z.eqb mode) [MEM_R; MEM_W; MEM_RW]) then Raise PVMError
  else
    let end_ := address + length in
    let start_page := address ≫ _PAGE_SHIFT in
    let end_page := (end_ - 1) ≫ _PAGE_SHIFT in
    let acc := if (mode =? MEM_W) || (mode =? MEM_RW) then pages_w m else pages_r m in
    Ret (forallb (fun pg => bool_decide (pg ∈ acc)) (py_range start_page (end_page + 1))).

Definition zero (page_idx nr_pages : Z) (acl : option Z) : eff PVMMemory exn unit :=
  if nr_pages <=? 0 then mret tt
  else
    let start := page_idx * PAGE_SIZE in
    let end_ := start + nr_pages * PAGE_SIZE in
    if SIZE <? end_ then raise PVMMemoryError
    else
      m ← get_state;
      v ← lift (mv_assign (mv m) start end_ (replicate (Z.to_nat (nr_pages * PAGE_SIZE)) 0));
      modify (fun m => set_mv m v) ≫= fun _ =>
      modify (set_acl_range page_idx (page_idx + nr_pages) acl).

Definition void (page_idx nr_pages : Z) (acl : option Z) : eff PVMMemory exn unit :=
  if nr_pages <=? 0 then mret tt else zero page_idx nr_pages acl.

Definition change_acl (page_idx nr_pages : Z) (acl : option Z) (m : PVMMemory) : PVMMemory :=
  if nr_pages <=? 0 then m else set_acl_range page_idx (page_idx + nr_pages) acl m.

Definition is_null (page_idx nr_pages : Z) (m : PVMMemory) : bool :=
  forallb (fun pg => negb (bool_decide (pg ∈ pages_r m) || bool_decide (pg ∈ pages_w m)))
          (py_range page_idx (page_idx + nr_pages)).

(** [zone_size]; the float division is by a power of two. *)
Definition zone_size (items : Z) : Z := PVM_INIT_ZONE_SIZE * ceil_div items PVM_INIT_ZONE_SIZE.

(** [PVMInterpreter.alloc_memory] *)
Definition alloc_memory (rom_start rom_size : Z) (rom_contents : bytes)
  (heap_start heap_size : Z) (heap_contents : bytes) (stack_start stack_size : Z)
  (argument_start argument_size : Z) (argument_contents : bytes)
  : outcome exn PVMMemory :=
  ro ← new_section rom_start rom_size rom_contents (Some MEM_R);
  he ← new_section heap_start heap_size heap_contents (Some MEM_W);
  st ← new_section stack_start stack_size (replicate (Z.to_nat stack_size) 0) (Some MEM_W);
  ar ← new_section argument_start argument_size argument_contents (Some MEM_R);
  m ← new_memory (Some ro) (Some he) (Some st) (Some ar);
  Ret (set_bounds m (Some heap_start) (Some stack_start) (heap_start + heap_size)).

(** ** Cloning *)

Definition clone_section (m : PVMMemory) (source : option MemorySection)
  : outcome exn (option MemorySection) :=
  match source with
  | None => Ret None
  | Some source =>
      let data_len := Z.max 0 (ms_paged_tail source - ms_address source) in
      let section_data :=
        if 0 <? data_len
        then take (Z.to_nat data_len) (storage_bytes m (ms_contents source)) else [] in
      cloned ← new_section (ms_address source) (ms_size source) section_data (ms_acl source);
      Ret (Some {| ms_address := ms_address cloned; ms_size := ms_size cloned;
                   ms_paged_tail := ms_paged_tail source;
                   ms_contents := ms_contents cloned; ms_acl := ms_acl cloned;
                   ms_acl_bitmap := ms_acl_bitmap source |})
  end.

(** The last loop of [clone]: a section's storage becomes a view of the new
    mapping. *)
Definition review_section (s : option MemorySection) : outcome exn (option MemorySection) :=
  match s with
  | None => Ret None
  | Some s =>
      w ← view (ms_address s) (ms_size s);
      Ret (Some {| ms_address := ms_address s; ms_size := ms_size s;
                   ms_paged_tail := ms_paged_tail s; ms_contents := View w.1 w.2;
                   ms_acl := ms_acl s; ms_acl_bitmap := ms_acl_bitmap s |})
  end.

(** [cloned._mv[start:end] = self._mv[start:end]] for the pages of a set. *)
Fixpoint copy_pages (src : gmap Z Z) (pages : list Z) (dst : gmap Z Z)
  : outcome exn (gmap Z Z) :=
  match pages with
  | [] => Ret dst
  | pg :: pages =>
      let start := pg * PAGE_SIZE in
      let end_ := start + PAGE_SIZE in
      match mv_assign dst start end_ (mv_slice src start end_) with
      | Ret dst => copy_pages src pages dst
      | Raise e => Raise e
      end
  end.

Definition clone (m : PVMMemory) : outcome exn PVMMemory :=
  ro ← clone_section m (rom m);
  he ← clone_section m (heap m);
  st ← clone_section m (stack m);
  ar ← clone_section m (args m);
  cloned ← new_memory ro he st ar;
  let cloned := set_bounds cloned (heap_base m) (stack_base m) (heap_ptr m) in
  let cloned := set_mem_addr (mem_addr m) cloned in
  let cloned := set_pages cloned (pages_r m) (pages_w m) in
  v ← copy_pages (mv m) (elements (pages_r m ∪ pages_w m)) (mv cloned);
  ro ← review_section (rom cloned);
  he ← review_section (heap cloned);
  st ← review_section (stack cloned);
  ar ← review_section (args cloned);
  Ret (set_sections (set_mv cloned v) ro he st ar).

(** * Properties *)

Lemma page_shift x : x ≫ _PAGE_SHIFT = x / 4096.
Proof. exact (Z.shiftr_div_pow2 x 12 ltac:(lia)). Qed.
Lemma page_mask x : x .& _PAGE_MASK = x mod 4096.
Proof. exact (land_mask x 12 ltac:(lia)). Qed.
Lemma max_page : _MAX_PAGE_IDX = 1048575.
Proof. done. Qed.
Lemma addr_mask x : x .& _ADDR_MASK = x mod SIZE.
Proof. exact (land_mask x 32 ltac:(lia)). Qed.

(** ** The page check *)

(** The pages an access of [length] bytes at [address] touches. *)
Definition pages_of (address length : Z) : list Z :=
  py_range (address / 4096) ((address + length - 1) / 4096 + 1).

(** Every page of the access carries it and exists. *)
Definition accessible (acc : gset Z) (address length : Z) : Prop :=
  forall pg, pg ∈ pages_of address length -> pg <= 1048575 /\ pg ∈ acc.

(** The lowest page of the access that refuses it. *)
Definition lowest_refused (acc : gset Z) (address length pg : Z) : Prop :=
  pg ∈ pages_of address length /\ ~ (pg <= 1048575 /\ pg ∈ acc) /\
  forall p, p ∈ pages_of address length -> p < pg -> p <= 1048575 /\ p ∈ acc.

Lemma page_refused_spec acc pg : page_refused acc pg = false <-> pg <= 1048575 /\ pg ∈ acc.
Proof.
  unfold page_refused. rewrite max_page. rewrite orb_false_iff, negb_false_iff.
  rewrite bool_decide_eq_true, Z.ltb_ge. done.
Qed.

(** What the check must answer. *)
Definition check_spec (acc : gset Z) (address length : Z) (r : option Z) : Prop :=
  match r with
  | None => accessible acc address length
  | Some pg => lowest_refused acc address length pg
  end.

Lemma scan_pages_total acc address length :
  0 <= address -> 0 < length ->
  exists r, ploop (2 ^ 20 + 2) (scan_body acc (address + length)) address = inr r
            /\ check_spec acc address length r.
Proof.
  intros Ha Hl. set (e := address + length).
  apply (ploop_total
    (fun a => address <= a <= e /\ (a = address \/ a = e \/ a mod 4096 = 0) /\
       forall p, p ∈ pages_of address length -> p * 4096 < a -> address < a -> p <= 1048575 /\ p ∈ acc)
    _ (fun a => if a <? e then Z.max 1 (2 ^ 20 + 1 - a / 4096) else 0)).
  - intros a _. destruct (a <? e); lia.
  - intros a (Ha1 & Ha2 & Ha3). unfold scan_body. rewrite page_shift, page_mask.
    change PAGE_SIZE with 4096. destruct (Z.ltb_spec a e) as [Hae|Hae].
    + set (a' := a + Z.min (4096 - a mod 4096) (e - a)).
      pose proof (Z.div_mod a 4096). pose proof (Z.mod_pos_bound a 4096).
      destruct (page_refused acc (a / 4096)) eqn:Href.
      * cbn [check_spec]. split; [|split].
        -- unfold pages_of. apply elem_of_py_range. fold e.
           split; [apply Z.div_le_mono; lia|].
           enough (a / 4096 <= (e - 1) / 4096) by lia. apply Z.div_le_mono; lia.
        -- rewrite <-page_refused_spec. by rewrite Href.
        -- intros p Hp Hlt. pose proof (proj1 (elem_of_py_range _ _ _) Hp) as Hp'.
           apply Ha3; [done|lia|]. destruct (Z.eq_dec a address) as [->|]; lia.
      * apply page_refused_spec in Href as [Hmax Hin].
        pose proof (Z.div_mod a' 4096). pose proof (Z.mod_pos_bound a' 4096).
        assert (a' = e \/ a' = 4096 * (a / 4096 + 1)) as Ha' by lia.
        assert (a' mod 4096 = 0 \/ a' = e) as Ha''.
        { destruct Ha' as [->| ->]; [by right|left].
          rewrite Z.mul_comm. apply Z.mod_mul. lia. }
        fold a'. split; [split; [lia|split; [tauto|]]|].
        -- intros p Hp Hlt _. assert (p <= a / 4096) as Hpa by lia.
           pose proof (proj1 (elem_of_py_range _ _ _) Hp) as Hp'.
           destruct (Z.eq_dec p (a / 4096)) as [->|]; [done|].
           apply Ha3; [done|lia|]. destruct (Z.eq_dec a address) as [->|]; lia.
        -- cbn beta. destruct (Z.ltb_spec a e); [|lia]. destruct (Z.ltb_spec a' e); [|lia].
           destruct Ha' as [|Ha']; [lia|].
           assert (a' / 4096 = a / 4096 + 1) as ->.
           { clear -Ha'. clearbody a'. subst a'. rewrite Z.mul_comm. by rewrite Z.div_mul. }
           change (2 ^ 20) with 1048576. clear -Hmax. lia.
    + cbn [check_spec]. intros p Hp. pose proof (proj1 (elem_of_py_range _ _ _) Hp) as Hp'.
      fold e in Hp'. pose proof (Z.mul_div_le (e - 1) 4096). apply Ha3; [done|lia..].
  - split; [lia|split; [by left|]]. lia.
  - cbn beta. destruct (Z.ltb_spec address e); [|lia].
    pose proof (Z.div_pos address 4096). lia.
Qed.

Lemma pages_of_single address length :
  0 <= address -> 0 < length ->
  address / 4096 = (address + length - 1) / 4096 ->
  forall pg, pg ∈ pages_of address length <-> pg = address / 4096.
Proof. intros ?? Heq pg. unfold pages_of. rewrite elem_of_py_range. lia. Qed.

(** The fast path and the scan both answer the specification. *)
Lemma check_pages_spec acc address length :
  0 <= address -> 0 < length ->
  check_spec acc address length (check_pages acc address (address + length)).
Proof.
  intros Ha Hl. unfold check_pages. rewrite !page_shift.
  destruct (Z.eqb_spec (address / 4096) ((address + length - 1) / 4096)) as [Heq|Hne].
  - pose proof (pages_of_single address length Ha Hl Heq) as Hpg.
    destruct (page_refused acc (address / 4096)) eqn:Href; cbn [check_spec].
    + split; [by apply Hpg|split].
      * rewrite <-page_refused_spec. by rewrite Href.
      * intros p ->%Hpg. lia.
    + intros p ->%Hpg. by apply page_refused_spec.
  - unfold scan_pages.
    destruct (scan_pages_total acc address length Ha Hl) as (r & -> & Hr). done.
Qed.

#[global] Instance accessible_dec acc address length : Decision (accessible acc address length).
Proof.
  refine (cast_if (decide (List.Forall (fun pg => pg <= 1048575 /\ pg ∈ acc)
                                       (pages_of address length))));
    unfold accessible; by rewrite <-Forall_forall.
Defined.

Lemma accessible_end acc address length :
  0 < length -> 0 <= address -> accessible acc address length -> address + length <= SIZE.
Proof.
  intros Hl Ha Hacc. destruct (Hacc ((address + length - 1) / 4096)) as [Hp _].
  - apply elem_of_py_range. split; [|lia]. apply Z.div_le_mono; lia.
  - pose proof (Z.div_mod (address + length - 1) 4096 ltac:(lia)).
    pose proof (Z.mod_pos_bound (address + length - 1) 4096 ltac:(lia)).
    change SIZE with 4294967296. lia.
Qed.

Lemma check_pages_accessible acc address length :
  0 <= address -> 0 < length ->
  (accessible acc address length /\ check_pages acc address (address + length) = None) \/
  (exists pg, lowest_refused acc address length pg /\
              check_pages acc address (address + length) = Some pg).
Proof.
  intros Ha Hl. pose proof (check_pages_spec acc address length Ha Hl) as Hs.
  destruct (check_pages _ _ _) as [pg|]; cbn [check_spec] in Hs; [right; by exists pg|by left].
Qed.

(** The lowest refused page is unique, and contradicts accessibility. *)
Lemma lowest_refused_not acc address length pg :
  lowest_refused acc address length pg -> ~ accessible acc address length.
Proof. intros (Hin & Hno & _) Hacc. by apply Hno, Hacc. Qed.

(** ** The mapping *)

Lemma mv_store_get data : forall v a x,
  mv_get (mv_store v a data) x =
    if (a <=? x) && (x <? a + Z.of_nat (length data))
    then nth (Z.to_nat (x - a)) data 0 else mv_get v x.
Proof.
  induction data as [|b data IH]; intros v a x; cbn [mv_store length nth].
  - destruct (Z.leb_spec a x), (Z.ltb_spec x (a + Z.of_nat 0)); try done; lia.
  - rewrite IH. unfold mv_get.
    destruct (Z.leb_spec (a + 1) x), (Z.ltb_spec x (a + 1 + Z.of_nat (length data))),
      (Z.leb_spec a x), (Z.ltb_spec x (a + Z.of_nat (S (length data)))); cbn [andb]; try lia.
    + replace (Z.to_nat (x - a)) with (S (Z.to_nat (x - (a + 1)))) by lia. done.
    + rewrite lookup_insert_ne by lia. done.
    + replace x with a by lia. rewrite lookup_insert_eq. by rewrite Z.sub_diag.
    + rewrite lookup_insert_ne by lia. done.
Qed.

Lemma mv_slice_range v lo hi :
  0 <= lo -> lo <= hi -> hi <= SIZE -> mv_slice v lo hi = map (mv_get v) (py_range lo hi).
Proof.
  intros. unfold mv_slice, slice_bound.
  destruct (Z.ltb_spec lo 0), (Z.ltb_spec hi 0); try lia.
  by rewrite !Z.min_l by lia.
Qed.

Lemma mv_assign_range v lo data :
  0 <= lo -> lo + Z.of_nat (length data) <= SIZE ->
  mv_assign v lo (lo + Z.of_nat (length data)) data = Ret (mv_store v lo data).
Proof.
  intros. unfold mv_assign, slice_bound.
  destruct (Z.ltb_spec lo 0), (Z.ltb_spec (lo + Z.of_nat (length data)) 0); try lia.
  rewrite !Z.min_l by lia. rewrite Z.max_r by lia.
  by replace (_ =? _) with true by lia.
Qed.

Lemma length_mv_slice v lo hi :
  0 <= lo -> lo <= hi -> hi <= SIZE -> Z.of_nat (length (mv_slice v lo hi)) = hi - lo.
Proof.
  intros. rewrite mv_slice_range by done. rewrite length_map, length_py_range. lia.
Qed.

(** Reading back what was stored. *)
Lemma mv_slice_store v a data :
  0 <= a -> a + Z.of_nat (length data) <= SIZE ->
  mv_slice (mv_store v a data) a (a + Z.of_nat (length data)) = data.
Proof.
  intros Ha He. rewrite mv_slice_range by lia.
  apply list_eq_same_length with (length data); [|rewrite length_map, length_py_range; lia|].
  { done. }
  intros i x y Hi Hx Hy. rewrite list_lookup_fmap in Hx.
  unfold py_range in Hx. rewrite list_lookup_fmap in Hx.
  rewrite lookup_seq_lt in Hx by lia. cbn in Hx. simplify_eq.
  rewrite mv_store_get. replace (_ && _) with true by lia.
  rewrite nth_lookup. replace (Z.to_nat _) with i by lia. by rewrite Hy.
Qed.

(** ** Reading *)

Lemma read_bytes_spec address length padding m :
  0 <= address < SIZE -> 0 < length ->
  (accessible (pages_r m) address length /\
   read_bytes address length padding m =
     (Ret (pad padding (map (mv_get (mv m)) (py_range address (address + length)))),
      set_mem_addr address m)) \/
  (exists pg, lowest_refused (pages_r m) address length pg /\
   read_bytes address length padding m = (Raise PVMMemoryError, set_mem_addr (pg * 4096) m)).
Proof.
  intros [Ha Hs] Hl. unfold read_bytes.
  destruct (Z.ltb_spec address 0), (Z.leb_spec SIZE address), (Z.leb_spec length 0); try lia.
  cbn [orb]. autorewrite with eff. cbn [pages_r set_mem_addr].
  destruct (check_pages_accessible (pages_r m) address length Ha Hl)
    as [[Hacc ->]|(pg & Hpg & ->)].
  - left. split; [done|]. autorewrite with eff.
    rewrite mv_slice_range; [done|lia|lia|].
    by apply (accessible_end (pages_r m)).
  - right. exists pg. split; [done|]. done.
Qed.

(** [read_bytes], on every branch: an address outside the address space raises and
    is recorded; an empty length reads nothing; a range whose pages are all
    readable yields its bytes, padded; otherwise the lowest page that refuses is
    recorded and the access raises. *)
Theorem read_bytes_correct address length padding m :
  (~ (0 <= address < SIZE) /\
   read_bytes address length padding m = (Raise PVMMemoryError, set_mem_addr address m)) \/
  (0 <= address < SIZE /\ length <= 0 /\
   read_bytes address length padding m = (Ret (pad padding []), set_mem_addr address m)) \/
  (0 <= address < SIZE /\ 0 < length /\ accessible (pages_r m) address length /\
   read_bytes address length padding m =
     (Ret (pad padding (map (mv_get (mv m)) (py_range address (address + length)))),
      set_mem_addr address m)) \/
  (exists pg, 0 <= address < SIZE /\ 0 < length /\ lowest_refused (pages_r m) address length pg /\
   read_bytes address length padding m = (Raise PVMMemoryError, set_mem_addr (pg * 4096) m)).
Proof.
  destruct (decide (0 <= address < SIZE)) as [Ha|Ha].
  - right. destruct (Z_lt_le_dec 0 length) as [Hl|Hl].
    + right. destruct (read_bytes_spec address length padding m Ha Hl) as [[Hc Hr]|(pg & Hc & Hr)].
      * left. split; [done|]. split; [done|]. by split.
      * right. exists pg. split; [done|]. split; [done|]. by split.
    + left. split; [done|]. split; [done|]. unfold read_bytes.
      destruct (Z.ltb_spec address 0), (Z.leb_spec SIZE address), (Z.leb_spec length 0); try lia.
      reflexivity.
  - left. split; [done|]. unfold read_bytes.
    destruct (Z.ltb_spec address 0), (Z.leb_spec SIZE address); try lia; reflexivity.
Qed.

Lemma write_bytes_cases address content m :
  0 <= address < SIZE -> content <> [] ->
  let length := Z.of_nat (length content) in
  (accessible (pages_w m) address length /\
   write_bytes address content m =
     (Ret tt, set_mv (set_mem_addr address m) (mv_store (mv m) address content))) \/
  (exists pg, lowest_refused (pages_w m) address length pg /\
   write_bytes address content m = (Raise PVMMemoryError, set_mem_addr (pg * 4096) m)).
Proof.
  intros [Ha Hs] Hne length. unfold write_bytes.
  destruct content as [|b content]; [done|]. set (data := b :: content) in *.
  assert (0 < length) as Hl by (subst length data; cbn; lia).
  destruct (Z.ltb_spec address 0), (Z.leb_spec SIZE address); try lia.
  cbn [orb]. autorewrite with eff. fold length. cbn [pages_w set_mem_addr].
  destruct (check_pages_accessible (pages_w m) address length Ha Hl)
    as [[Hacc ->]|(pg & Hpg & ->)].
  - left. split; [done|]. subst length.
    rewrite mv_assign_range; [done|done|]. by apply (accessible_end (pages_w m)).
  - right. exists pg. split; [done|]. done.
Qed.

(** ** Writing *)

(** The write succeeds exactly when every page it touches is writable; then the
    bytes of the range are replaced and no other byte changes.  Otherwise no
    byte changes and the lowest refused page is recorded. *)
Theorem write_bytes_spec address content m :
  0 <= address < SIZE -> content <> [] ->
  let n := Z.of_nat (length content) in
  (accessible (pages_w m) address n /\ exists m',
   write_bytes address content m = (Ret tt, m') /\
   pages_r m' = pages_r m /\ pages_w m' = pages_w m /\ mem_addr m' = address /\
   forall a, mv_get (mv m') a =
     if (address <=? a) && (a <? address + n)
     then nth (Z.to_nat (a - address)) content 0 else mv_get (mv m) a) \/
  (exists pg, lowest_refused (pages_w m) address n pg /\
   write_bytes address content m = (Raise PVMMemoryError, set_mem_addr (pg * 4096) m)).
Proof.
  intros Ha Hne n. destruct (write_bytes_cases address content m Ha Hne)
    as [[Hacc Heq]|Hpg]; [left|by right].
  split; [done|]. eexists. split; [exact Heq|].
  do 3 (split; [done|]). intros a. apply mv_store_get.
Qed.

(** Storing an integer and loading it back gives it modulo its width. *)
Theorem write_int_read_int address value length m :
  0 <= address < SIZE -> 0 < length ->
  accessible (pages_w m) address length -> pages_w m ⊆ pages_r m ->
  exists m', write_int address value length m = (Ret tt, m') /\
    read_int address length m' = (Ret (value mod 2 ^ (8 * length)), m').
Proof.
  intros Ha Hl Hacc Hsub. unfold write_int, read_int.
  destruct (Z.leb_spec length 0); [lia|].
  set (data := le_bytes _ _).
  assert (List.length data = Z.to_nat length) as Hlen by apply length_le_bytes.
  assert (data <> []) as Hne by (intros ->; cbn in Hlen; lia).
  pose proof (write_bytes_cases address data m Ha Hne) as Hw. cbn zeta in Hw.
  rewrite Hlen, Z2Nat.id in Hw by lia.
  destruct Hw as [[_ Hw]|(pg & Hpg & _)]; [|by apply lowest_refused_not in Hpg].
  eexists. split; [exact Hw|].
  rewrite eff_bind_run.
  destruct (read_bytes_spec address length None
    (set_mv (set_mem_addr address m) (mv_store (mv m) address data)) Ha Hl)
    as [[_ ->]|(pg & Hpg & _)].
  - autorewrite with eff. cbn [mv set_mv set_mem_addr pad].
    pose proof (accessible_end _ _ _ Hl (proj1 Ha) Hacc).
    rewrite <-(mv_slice_range _ address (address + length)) by lia.
    replace (address + length) with (address + Z.of_nat (List.length data)) by lia.
    rewrite mv_slice_store by lia. unfold data. rewrite le_int_le_bytes, Z2Nat.id by lia.
    do 2 f_equal. rewrite Z.shiftl_1_l, land_mask by lia.
    change 256 with (2 ^ 8). rewrite <-Z.pow_mul_r by lia. rewrite (Z.mul_comm length).
    by rewrite Z.mod_mod by lia.
  - exfalso. apply lowest_refused_not in Hpg. apply Hpg.
    intros p Hp. destruct (Hacc p Hp). split; [done|]. by apply Hsub.
Qed.

(** ** The memory invariant: cells hold bytes, writable pages are readable *)

Definition mv_wf (v : gmap Z Z) : Prop := forall a, is_byte (mv_get v a).
Definition mem_wf (m : PVMMemory) : Prop := mv_wf (mv m) /\ pages_w m ⊆ pages_r m.
Definition section_bytes (s : MemorySection) : Prop :=
  match ms_contents s with Buffer bs => List.Forall is_byte bs | View _ _ => True end.

Lemma mv_wf_store data : forall v a,
  List.Forall is_byte data -> mv_wf v -> mv_wf (mv_store v a data).
Proof.
  induction data as [|b data IH]; intros v a Hd Hv; [done|]. cbn [mv_store].
  inversion Hd as [|? ? Hb Hd']; subst. apply IH; [done|]. intros x. unfold mv_get.
  destruct (Z.eq_dec a x) as [->|]; [by rewrite lookup_insert_eq|].
  rewrite lookup_insert_ne by done. apply Hv.
Qed.

Lemma mv_wf_assign v lo hi data v' :
  List.Forall is_byte data -> mv_wf v -> mv_assign v lo hi data = Ret v' -> mv_wf v'.
Proof.
  unfold mv_assign. intros Hd Hv. destruct (_ =? _); [|done]. intros [= <-].
  by apply mv_wf_store.
Qed.

Lemma mv_wf_slice v lo hi : mv_wf v -> List.Forall is_byte (mv_slice v lo hi).
Proof. intros Hv. apply List.Forall_map, List.Forall_forall. intros x _. apply Hv. Qed.

Lemma merge_acl_wf pg acl m : mem_wf m -> mem_wf (merge_acl pg acl m).
Proof.
  intros [Hv Hp]. split; [done|]. unfold merge_acl. cbn.
  destruct (Z.eqb_spec (default MEM_RW acl) MEM_I) as [->|]; cbn; [done|].
  destruct (_ || _); set_solver.
Qed.

Lemma set_acl_wf pg acl m : mem_wf m -> mem_wf (set_acl pg acl m).
Proof.
  intros [Hv Hp]. unfold set_acl. destruct (_ =? MEM_I); (split; [done|]); cbn; [set_solver|].
  destruct (_ || _); set_solver.
Qed.

Lemma fold_left_inv {A B} (I : A -> Prop) (f : A -> B -> A) l :
  (forall a b, I a -> I (f a b)) -> forall a, I a -> I (fold_left f l a).
Proof. intros Hf. induction l; intros; cbn; [done|]. auto. Qed.

Lemma set_acl_range_wf lo hi acl m : mem_wf m -> mem_wf (set_acl_range lo hi acl m).
Proof. apply fold_left_inv. intros ??. apply set_acl_wf. Qed.

Lemma set_mem_addr_wf a m : mem_wf m -> mem_wf (set_mem_addr a m).
Proof. done. Qed.

Lemma set_mv_wf m v : mem_wf m -> mv_wf v -> mem_wf (set_mv m v).
Proof. intros [_ Hp] Hv. by split. Qed.
Create HintDb mem.
#[export] Hint Resolve merge_acl_wf set_acl_wf set_acl_range_wf set_mem_addr_wf set_mv_wf
  mv_wf_assign mv_wf_slice : mem.

(** The shape shared by every store: the assignment, then the new mapping. *)
Lemma assign_wf lo hi data m0 (k : unit -> eff PVMMemory exn unit) m :
  List.Forall is_byte data -> mem_wf m -> mem_wf m0 ->
  (forall m', mem_wf m' -> mem_wf (k tt m').2) ->
  mem_wf ((lift (mv_assign (mv m0) lo hi data) ≫= fun v =>
           modify (fun m => set_mv m v) ≫= k) m).2.
Proof.
  intros Hd Hm Hm0 Hk. destruct (mv_assign _ _ _ _) as [v|] eqn:Hv; autorewrite with eff.
  - apply Hk. apply set_mv_wf; [done|]. by eapply mv_wf_assign; [| |exact Hv]; [done|apply Hm0].
  - done.
Qed.

Lemma assign_wf_end lo hi data m0 m :
  List.Forall is_byte data -> mem_wf m -> mem_wf m0 ->
  mem_wf ((lift (mv_assign (mv m0) lo hi data) ≫= fun v =>
           modify (fun m => set_mv m v)) m : outcome exn unit * _).2.
Proof.
  intros Hd Hm Hm0. destruct (mv_assign _ _ _ _) as [v|] eqn:Hv; autorewrite with eff; [|done].
  apply set_mv_wf; [done|]. by eapply mv_wf_assign; [| |exact Hv]; [done|apply Hm0].
Qed.

Lemma read_bytes_wf address length padding m :
  mem_wf m -> mem_wf (read_bytes address length padding m).2.
Proof.
  intros Hm. unfold read_bytes. destruct (_ || _); autorewrite with eff; [done|].
  destruct (_ <=? _); [done|]. autorewrite with eff. by destruct (check_pages _ _ _).
Qed.

Lemma write_bytes_wf address content m :
  List.Forall is_byte content -> mem_wf m -> mem_wf (write_bytes address content m).2.
Proof.
  intros Hc Hm. unfold write_bytes. destruct content as [|b content]; [done|].
  destruct (_ || _); autorewrite with eff; [done|].
  destruct (check_pages _ _ _); [done|]. by apply assign_wf_end.
Qed.

Lemma write_int_wf addr value length m :
  mem_wf m -> mem_wf (write_int addr value length m).2.
Proof.
  intros Hm. unfold write_int. destruct (_ <=? _); [done|].
  apply write_bytes_wf; [|done]. apply le_bytes_bytes.
Qed.

Lemma zero_wf page_idx nr_pages acl m :
  mem_wf m -> mem_wf (zero page_idx nr_pages acl m).2.
Proof.
  intros Hm. unfold zero. destruct (_ <=? _); [done|]. destruct (_ <? _); [done|].
  autorewrite with eff. apply assign_wf; [|done..|].
  - by apply Forall_replicate.
  - intros m' Hm'. by apply set_acl_range_wf.
Qed.

Lemma add_segment_wf address size acl contents m :
  List.Forall is_byte contents -> mem_wf m ->
  mem_wf (add_segment address size acl contents m).2.
Proof.
  intros Hc Hm. unfold add_segment. destruct (_ && _); [done|].
  destruct (_ <=? 0); [done|]. destruct (_ <? _); [done|].
  autorewrite with eff. destruct (_ <=? 0); autorewrite with eff;
    [by apply set_acl_range_wf|].
  apply assign_wf_end; [|by apply set_acl_range_wf..]. by apply Forall_take.
Qed.

Lemma load_section_wf s m :
  section_bytes s -> mem_wf m -> mem_wf (load_section s m).2.
Proof.
  intros Hs Hm. unfold load_section. apply eff_bind_inv.
  { destruct (truthy _); autorewrite with eff; [|done]. apply fold_left_inv; [|done].
    intros ??. apply merge_acl_wf. }
  intros _ m1 Hm1. autorewrite with eff. apply eff_bind_inv.
  - destruct (_ <? _); [|done]. apply assign_wf_end; [|done..].
    apply Forall_take. unfold section_bytes, storage_bytes in *.
    destruct (ms_contents s); [done|]. apply mv_wf_slice, Hm1.
  - intros _ m2 Hm2. by destruct (view _ _).
Qed.

Lemma load_optional_wf s m :
  (forall s', s = Some s' -> section_bytes s') -> mem_wf m -> mem_wf (load_optional s m).2.
Proof.
  intros Hs Hm. destruct s as [s|]; [|done]. cbn [load_optional].
  apply eff_bind_inv; [apply load_section_wf; auto|]. done.
Qed.

Definition opt_section_bytes (s : option MemorySection) : Prop :=
  forall s', s = Some s' -> section_bytes s'.

Lemma empty_memory_wf : mem_wf empty_memory.
Proof. split; [|set_solver]. intros a. done. Qed.

Lemma new_memory_wf ro he st ar m :
  opt_section_bytes ro -> opt_section_bytes he -> opt_section_bytes st ->
  opt_section_bytes ar -> new_memory ro he st ar = Ret m -> mem_wf m.
Proof.
  intros Hro Hhe Hst Har. unfold new_memory.
  match goal with |- context [match ?l empty_memory with _ => _ end] => set (load := l) end.
  enough (mem_wf (load empty_memory).2) as Hwf.
  { destruct (load empty_memory) as [[[]|] m']; [|done]. by intros [= <-]. }
  unfold load. do 4 (apply eff_bind_inv; [|intros ???];
    [apply load_optional_wf; auto using empty_memory_wf|]).
  autorewrite with eff. destruct he, st; cbn; done.
Qed.

Lemma new_section_bytes address size contents acl s :
  List.Forall is_byte contents -> new_section address size contents acl = Ret s ->
  section_bytes s.
Proof.
  intros Hc. unfold new_section. destruct (_ <? _); [done|].
  destruct (alloc_acl _ _ _); cbn; [|done]. intros [= <-]. cbn.
  unfold alloc_contents. apply Forall_app. split; [done|]. apply Forall_drop.
  by apply Forall_replicate.
Qed.

(** ** Cloning *)

Lemma mv_slice_nth v lo hi i :
  0 <= lo -> hi <= SIZE -> 0 <= i < hi - lo ->
  nth (Z.to_nat i) (mv_slice v lo hi) 0 = mv_get v (lo + i).
Proof.
  intros Hlo Hhi Hi. rewrite mv_slice_range by lia.
  rewrite nth_lookup, list_lookup_fmap. unfold py_range. rewrite list_lookup_fmap.
  rewrite lookup_seq_lt by lia. cbn. by rewrite Z2Nat.id by lia.
Qed.

Definition page_exists (pg : Z) : Prop := 0 <= pg <= 1048575.

Lemma copy_page_spec src dst pg :
  page_exists pg -> exists v',
  mv_assign dst (pg * PAGE_SIZE) (pg * PAGE_SIZE + PAGE_SIZE)
    (mv_slice src (pg * PAGE_SIZE) (pg * PAGE_SIZE + PAGE_SIZE)) = Ret v' /\
  forall a, mv_get v' a = if a / 4096 =? pg then mv_get src a else mv_get dst a.
Proof.
  unfold page_exists. change PAGE_SIZE with 4096. intros Hpg.
  set (data := mv_slice _ _ _).
  assert (Z.of_nat (length data) = 4096) as Hlen.
  { unfold data. rewrite length_mv_slice; change SIZE with 4294967296; lia. }
  exists (mv_store dst (pg * 4096) data). split.
  - rewrite <-(mv_assign_range dst (pg * 4096) data); [by rewrite Hlen|lia|].
    change SIZE with 4294967296. lia.
  - intros a. rewrite mv_store_get, Hlen.
    pose proof (Z.div_mod a 4096 ltac:(lia)). pose proof (Z.mod_pos_bound a 4096 ltac:(lia)).
    destruct (Z.eqb_spec (a / 4096) pg) as [Heq|Hne].
    + replace (_ && _) with true by lia. unfold data.
      rewrite mv_slice_nth; [f_equal; lia| |change SIZE with 4294967296|]; lia.
    + by replace (_ && _) with false by lia.
Qed.

Lemma copy_pages_spec src pages : forall dst,
  List.Forall page_exists pages -> exists v', copy_pages src pages dst = Ret v' /\
  forall a, mv_get v' a =
    if bool_decide (a / 4096 ∈ pages) then mv_get src a else mv_get dst a.
Proof.
  induction pages as [|pg pages IH]; intros dst Hok; cbn [copy_pages].
  { exists dst. split; [done|]. intros a. by rewrite bool_decide_eq_false_2 by apply not_elem_of_nil. }
  inversion Hok as [|? ? Hpg Hpgs]; subst.
  destruct (copy_page_spec src dst pg Hpg) as (v1 & -> & Hv1).
  destruct (IH v1 Hpgs) as (v2 & -> & Hv2). exists v2. split; [done|]. intros a.
  rewrite Hv2, Hv1. destruct (Z.eqb_spec (a / 4096) pg) as [Heq|Hne].
  - rewrite (bool_decide_eq_true_2 (_ ∈ pg :: _)) by (rewrite Heq; left).
    by destruct (bool_decide _).
  - rewrite (bool_decide_ext (a / 4096 ∈ pg :: pages) (a / 4096 ∈ pages)); [done|].
    rewrite elem_of_cons. tauto.
Qed.

Definition pages_in_range (m : PVMMemory) : Prop :=
  forall pg, pg ∈ pages_r m ∪ pages_w m -> page_exists pg.

(** The cells of the accessible pages agree, and so do the access sets. *)
Definition same_view (m m' : PVMMemory) : Prop :=
  pages_r m' = pages_r m /\ pages_w m' = pages_w m /\
  forall a, a / 4096 ∈ pages_r m ∪ pages_w m -> mv_get (mv m') a = mv_get (mv m) a.

Lemma clone_same_view m m' :
  pages_in_range m -> clone m = Ret m' ->
  same_view m m' /\ heap_base m' = heap_base m /\ stack_base m' = stack_base m /\
  heap_ptr m' = heap_ptr m /\ mem_addr m' = mem_addr m.
Proof.
  intros Hr. unfold clone.
  destruct (clone_section m (rom m)) as [ro|]; [|done]. cbn.
  destruct (clone_section m (heap m)) as [he|]; [|done]. cbn.
  destruct (clone_section m (stack m)) as [st|]; [|done]. cbn.
  destruct (clone_section m (args m)) as [ar|]; [|done]. cbn.
  destruct (new_memory ro he st ar) as [c|]; [|done]. cbn.
  destruct (copy_pages_spec (mv m) (elements (pages_r m ∪ pages_w m)) (mv c)) as (v & -> & Hv).
  { apply List.Forall_forall. intros pg Hpg. apply Hr. by apply elem_of_elements, list_elem_of_In. }
  cbn. destruct (review_section (rom c)) as [ro'|]; [|done]. cbn.
  destruct (review_section (heap c)) as [he'|]; [|done]. cbn.
  destruct (review_section (stack c)) as [st'|]; [|done]. cbn.
  destruct (review_section (args c)) as [ar'|]; [|done]. cbn.
  intros [= <-]. repeat split; cbn; try done.
  intros a Ha. rewrite Hv. by rewrite bool_decide_eq_true_2 by by apply elem_of_elements.
Qed.

(** ** Building and cloning succeed *)

(** A section the memory can hold: page-sized, inside the address space. *)
Definition section_ok (s : MemorySection) : Prop :=
  0 <= ms_address s /\ ms_address s + ms_size s <= SIZE /\ ms_paged_tail s <= SIZE /\
  0 <= ms_size s <= PVM_MAX_HEAP_SIZE /\ page_size (ms_size s) = ms_size s.
Definition opt_section_ok (s : option MemorySection) : Prop :=
  match s with Some s => section_ok s | None => True end.

Lemma new_section_total address size contents acl :
  0 <= size <= PVM_MAX_HEAP_SIZE ->
  exists s, new_section address size contents acl = Ret s /\ ms_address s = address /\
    ms_size s = page_size size /\ ms_contents s = Buffer (alloc_contents (page_size size) contents) /\
    ms_paged_tail s = address + page_size (Z.of_nat (length contents)).
Proof.
  intros Hs. unfold new_section. destruct (Z.ltb_spec PVM_MAX_HEAP_SIZE size); [lia|].
  cbv zeta. set (ps := page_size (Z.of_nat _)). set (sz := page_size size).
  enough (exists bm, alloc_acl sz acl ps = Ret bm) as [bm ->] by (cbn; eauto 10).
  unfold alloc_acl. set (nr := ceil_div (Z.max ps sz) PVM_PAGE_SIZE).
  destruct (Z.ltb_spec 0 (ceil_div nr ACL_PAGES_PER_BITMAP)); [|by eauto].
  destruct acl as [acl|]; [|by eauto].
  destruct (page_bits_set_range (replicate (Z.to_nat (Z.max 0 (ceil_div nr ACL_PAGES_PER_BITMAP))) 0)
              0 nr (Some acl)) as (bm & -> & _); [lia| |by eauto].
  rewrite length_replicate. pose proof (ceil_div_spec nr ACL_PAGES_PER_BITMAP ltac:(done)).
  change ACL_PAGES_PER_BITMAP with 32 in *. lia.
Qed.

Definition memory_ok (m : PVMMemory) : Prop :=
  pages_in_range m /\ opt_section_ok (rom m) /\ opt_section_ok (heap m) /\
  opt_section_ok (stack m) /\ opt_section_ok (args m).

Lemma ceil_pages n : page_size n = n -> ceil_div n PAGE_SIZE * 4096 = n.
Proof. unfold page_size. change PVM_PAGE_SIZE with PAGE_SIZE. change PAGE_SIZE with 4096. lia. Qed.

Lemma merge_acl_range base pages acl m :
  List.Forall (fun p => page_exists (base + p)) pages -> pages_in_range m ->
  pages_in_range (fold_left (fun m p => merge_acl (base + p) acl m) pages m).
Proof.
  revert m. induction pages as [|p pages IH]; intros m Hp Hm; [done|]. cbn [fold_left].
  inversion Hp as [|? ? Hp1 Hp2]; subst. apply IH; [done|]. intros pg. unfold merge_acl. cbn.
  destruct (negb _), (_ || _); rewrite !elem_of_union, ?elem_of_singleton;
    specialize (Hm pg); rewrite elem_of_union in Hm; intuition congruence.
Qed.

Lemma section_pages_exist s :
  section_ok s ->
  List.Forall (fun p => page_exists (ms_address s ≫ _PAGE_SHIFT + p))
    (py_range 0 (ceil_div (ms_size s) PAGE_SIZE)).
Proof.
  intros (Ha & He & Ht & Hs & Hp%ceil_pages). apply List.Forall_forall.
  intros p Hin%list_elem_of_In%elem_of_py_range. rewrite page_shift. unfold page_exists.
  pose proof (Z.div_mod (ms_address s) 4096 ltac:(lia)).
  pose proof (Z.mod_pos_bound (ms_address s) 4096 ltac:(lia)).
  change SIZE with 4294967296 in *. lia.
Qed.

Lemma load_section_total s m :
  section_ok s -> pages_in_range m ->
  exists s' m', load_section s m = (Ret s', m') /\ section_ok s' /\
    ms_address s' = ms_address s /\ ms_size s' = ms_size s /\ pages_in_range m'.
Proof.
  intros Hok Hm. pose proof Hok as (Ha & He & Ht & Hs & _). unfold load_section.
  rewrite eff_bind_run. destruct (_ m) as [[[]|] m1] eqn:Hm1; [|by destruct (truthy _)].
  assert (pages_in_range m1) as Hr1.
  { destruct (truthy _); [|by injection Hm1 as <-]. injection Hm1 as <-.
    by apply merge_acl_range; [apply section_pages_exist|]. }
  autorewrite with eff. set (data := storage_bytes m1 (ms_contents s)).
  set (n := Z.max 0 _). rewrite eff_bind_run.
  assert (exists m2, (if 0 <? n then
     lift (mv_assign (mv m1) (ms_address s) (ms_address s + n) (take (Z.to_nat n) data))
       ≫= (fun v => modify (fun m => set_mv m v))
     else mret tt) m1 = (@Ret exn unit tt, m2) /\ pages_in_range m2) as (m2 & -> & Hr2).
  { destruct (Z.ltb_spec 0 n); [|by eauto].
    assert (Z.of_nat (length (take (Z.to_nat n) data)) = n) as Hlen
      by (rewrite length_take; lia).
    pose proof (mv_assign_range (mv m1) (ms_address s) (take (Z.to_nat n) data)) as Hass.
    rewrite Hlen in Hass. rewrite Hass by lia. by eauto. }
  unfold view. destruct (Z.ltb_spec (ms_size s) 0); [lia|]. rewrite addr_mask.
  pose proof (Z.mod_le (ms_address s) SIZE ltac:(done) ltac:(done)).
  destruct (Z.ltb_spec SIZE (ms_address s `mod` SIZE + ms_size s)); [lia|].
  autorewrite with eff. by eauto 10.
Qed.

(** A loaded section keeps its place. *)
Definition same_place (s s' : option MemorySection) : Prop :=
  (ms_address <$> s') = (ms_address <$> s) /\ (ms_size <$> s') = (ms_size <$> s).

Lemma load_optional_total s m :
  opt_section_ok s -> pages_in_range m ->
  exists s' m', load_optional s m = (Ret s', m') /\ opt_section_ok s' /\ same_place s s' /\
    pages_in_range m'.
Proof.
  destruct s as [s|]; intros Hs Hm; cbn [load_optional];
    [|by exists None, m].
  destruct (load_section_total s m Hs Hm) as (s' & m' & H & ? & Ha & Hz & ?).
  rewrite eff_bind_run, H. exists (Some s'), m'. unfold same_place. cbn. by rewrite Ha, Hz.
Qed.

Lemma new_memory_total ro he st ar :
  opt_section_ok ro -> opt_section_ok he -> opt_section_ok st -> opt_section_ok ar ->
  exists m, new_memory ro he st ar = Ret m /\ memory_ok m.
Proof.
  intros Hro Hhe Hst Har. unfold new_memory.
  destruct (load_optional_total ro empty_memory Hro) as (ro' & m1 & E1 & S1 & _ & R1).
  { intros pg. cbn. set_solver. }
  destruct (load_optional_total he m1 Hhe R1) as (he' & m2 & E2 & S2 & _ & R2).
  destruct (load_optional_total st m2 Hst R2) as (st' & m3 & E3 & S3 & _ & R3).
  destruct (load_optional_total ar m3 Har R3) as (ar' & m4 & E4 & S4 & _ & R4).
  rewrite eff_bind_run, E1, eff_bind_run, E2, eff_bind_run, E3, eff_bind_run, E4.
  autorewrite with eff. eexists. split; [done|]. by destruct he, st.
Qed.

Lemma clone_section_total m s :
  opt_section_ok s -> exists s', clone_section m s = Ret s' /\ opt_section_ok s'.
Proof.
  destruct s as [s|]; intros Hs; cbn [clone_section]; [|by exists None].
  destruct Hs as (Ha & He & Ht & Hs & Hp).
  match goal with |- context [new_section _ _ ?d ?a] =>
    destruct (new_section_total (ms_address s) (ms_size s) d a Hs)
      as (c & -> & Hca & Hcs & Hcc & Hct) end.
  cbn. eexists. split; [done|]. cbn. unfold section_ok. cbn.
  rewrite Hca, Hcs, Hp. done.
Qed.

Lemma review_section_total s : opt_section_ok s -> exists s', review_section s = Ret s'.
Proof.
  destruct s as [s|]; cbn; [|by eauto]. intros (Ha & He & _ & Hs & _).
  unfold view. destruct (Z.ltb_spec (ms_size s) 0); [lia|]. rewrite addr_mask.
  pose proof (Z.mod_le (ms_address s) SIZE ltac:(done) ltac:(done)).
  destruct (Z.ltb_spec SIZE (ms_address s `mod` SIZE + ms_size s)); [lia|]. by eauto.
Qed.

Lemma clone_total m : memory_ok m -> exists m', clone m = Ret m'.
Proof.
  intros (Hr & Hro & Hhe & Hst & Har). unfold clone.
  destruct (clone_section_total m (rom m) Hro) as (ro & -> & Hro').
  destruct (clone_section_total m (heap m) Hhe) as (he & -> & Hhe').
  destruct (clone_section_total m (stack m) Hst) as (st & -> & Hst').
  destruct (clone_section_total m (args m) Har) as (ar & -> & Har'). cbn.
  destruct (new_memory_total ro he st ar) as (c & -> & _ & Hi1 & Hi2 & Hi3 & Hi4); try done. cbn.
  destruct (copy_pages_spec (mv m) (elements (pages_r m ∪ pages_w m)) (mv c)) as (v & -> & Hv).
  { apply List.Forall_forall. intros pg Hpg. apply Hr. by apply elem_of_elements, list_elem_of_In. }
  cbn. destruct (review_section_total _ Hi1) as (r1 & ->), (review_section_total _ Hi2) as (r2 & ->),
    (review_section_total _ Hi3) as (r3 & ->), (review_section_total _ Hi4) as (r4 & ->).
  by eauto.
Qed.

(** Reads depend only on the cells of the readable pages. *)
Lemma same_view_read m m' address length padding :
  same_view m m' ->
  (read_bytes address length padding m').1 = (read_bytes address length padding m).1.
Proof.
  intros (Hpr & Hpw & Hv). unfold read_bytes.
  destruct (Z.ltb_spec address 0) as [|H0]; [done|].
  destruct (Z.leb_spec SIZE address) as [|H1]; [done|]. cbn [orb]. autorewrite with eff.
  destruct (Z.leb_spec length 0); [done|]. autorewrite with eff. cbn [pages_r set_mem_addr].
  rewrite Hpr. destruct (check_pages_accessible (pages_r m) address length H0 ltac:(done))
    as [[Hacc ->]|(pg & _ & ->)]; [|done]. cbn.
  pose proof (accessible_end _ _ _ ltac:(done) H0 Hacc).
  rewrite !mv_slice_range by lia. do 2 f_equal. apply map_ext_in.
  intros a Ha%list_elem_of_In%elem_of_py_range. apply Hv. apply elem_of_union_l, Hacc.
  apply elem_of_py_range. split; [apply Z.div_le_mono; lia|].
  enough (a / 4096 <= (address + length - 1) / 4096) by lia. apply Z.div_le_mono; lia.
Qed.

(** [clone] succeeds on every well-formed memory, and the clone answers every
    read, and every access question, as the original does. *)
Theorem clone_reads m :
  memory_ok m -> exists m', clone m = Ret m' /\
    pages_r m' = pages_r m /\ pages_w m' = pages_w m /\
    heap_base m' = heap_base m /\ stack_base m' = stack_base m /\ heap_ptr m' = heap_ptr m /\
    forall address length padding,
      (read_bytes address length padding m').1 = (read_bytes address length padding m).1.
Proof.
  intros Hok. destruct (clone_total m Hok) as [m' Hm']. exists m'. split; [done|].
  destruct (clone_same_view m m' (proj1 Hok) Hm') as (Hv & ? & ? & ? & ?).
  destruct Hv as (Hpr & Hpw & Hcells). do 5 (split; [done|]).
  intros. by apply same_view_read.
Qed.

(** ** Allocating *)

(** The bounds of a section handed to [alloc_memory]. *)
Definition region_ok (start size : Z) (contents : bytes) : Prop :=
  0 <= start /\ 0 <= size /\ page_size size <= PVM_MAX_HEAP_SIZE /\
  start + page_size size <= SIZE /\
  start + page_size (Z.of_nat (length contents)) <= SIZE /\ List.Forall is_byte contents.

Lemma page_size_spec n : n <= page_size n < n + 4096.
Proof.
  unfold page_size. change PVM_PAGE_SIZE with 4096.
  pose proof (ceil_div_spec n 4096 ltac:(lia)). lia.
Qed.

Lemma page_size_idem n : page_size (page_size n) = page_size n.
Proof.
  unfold page_size. change PVM_PAGE_SIZE with 4096.
  pose proof (ceil_div_spec n 4096 ltac:(lia)).
  pose proof (ceil_div_spec (4096 * ceil_div n 4096) 4096 ltac:(lia)). lia.
Qed.

Lemma new_section_ok start size contents acl :
  region_ok start size contents -> exists s, new_section start size contents acl = Ret s /\
    section_ok s /\ section_bytes s.
Proof.
  intros (H0 & Hs & Hp & He & Hc & Hb). pose proof (page_size_spec size).
  destruct (new_section_total start size contents acl ltac:(lia)) as (s & Hn & Ha & Hz & _ & Ht).
  exists s. split; [done|]. split; [|by eapply new_section_bytes].
  unfold section_ok. rewrite Ha, Hz, Ht, page_size_idem. lia.
Qed.

(** [alloc_memory] succeeds on regions inside the address space, and builds a
    well-formed memory with the heap pointer at the end of the heap. *)
Theorem alloc_memory_ok rs rz rc hs hz hc ss sz as_ az ac :
  region_ok rs rz rc -> region_ok hs hz hc -> region_ok ss sz (replicate (Z.to_nat sz) 0) ->
  region_ok as_ az ac ->
  exists m, alloc_memory rs rz rc hs hz hc ss sz as_ az ac = Ret m /\
    memory_ok m /\ mem_wf m /\ heap_ptr m = hs + hz /\ heap_base m = Some hs /\
    stack_base m = Some ss.
Proof.
  intros Hr Hh Hs Ha. unfold alloc_memory.
  destruct (new_section_ok _ _ _ (Some MEM_R) Hr) as (ro & -> & Hro & Bro).
  destruct (new_section_ok _ _ _ (Some MEM_W) Hh) as (he & -> & Hhe & Bhe).
  destruct (new_section_ok _ _ _ (Some MEM_W) Hs) as (st & -> & Hst & Bst).
  destruct (new_section_ok _ _ _ (Some MEM_R) Ha) as (ar & -> & Har & Bar). cbn.
  destruct (new_memory_total (Some ro) (Some he) (Some st) (Some ar)) as (m & Hm & Hok); try done.
  rewrite Hm. cbn. eexists. split; [done|]. split; [exact Hok|]. split; [|done].
  apply (new_memory_wf (Some ro) (Some he) (Some st) (Some ar)) in Hm;
    [done|by intros ? [= <-]..].
Qed.

(** A size within one page of the limit, but not page aligned, builds a section
    that [clone_section] refuses: the size it clones is the rounded one. *)
Theorem clone_section_refuses_limit m address size acl :
  PVM_MAX_HEAP_SIZE - 2560 < size <= PVM_MAX_HEAP_SIZE ->
  exists s, new_section address size [] acl = Ret s /\
    clone_section m (Some s) = Raise PVMMemoryError.
Proof.
  unfold PVM_MAX_HEAP_SIZE. intros Hs.
  destruct (new_section_total address size [] acl) as (s & Hn & Ha & Hz & _ & Ht).
  { unfold PVM_MAX_HEAP_SIZE. lia. }
  exists s. split; [done|]. cbn [clone_section]. rewrite Hz.
  unfold new_section at 1. destruct (Z.ltb_spec PVM_MAX_HEAP_SIZE (page_size size)) as [|Hle]; [done|].
  exfalso. revert Hle. unfold PVM_MAX_HEAP_SIZE, page_size. change PVM_PAGE_SIZE with 4096.
  pose proof (ceil_div_spec size 4096 ltac:(lia)). lia.
Qed.

(** ** The access question agrees with the accesses *)

Lemma is_accessible_accessible address length acc :
  0 <= address -> 0 < length -> address + length <= SIZE ->
  forallb (fun pg => bool_decide (pg ∈ acc))
    (py_range (address ≫ _PAGE_SHIFT) ((address + length - 1) ≫ _PAGE_SHIFT + 1)) = true
  <-> accessible acc address length.
Proof.
  intros Ha Hl He. rewrite !page_shift, forallb_forall. unfold accessible, pages_of. split.
  - intros H pg Hpg. split.
    + apply elem_of_py_range in Hpg.
      pose proof (Z.mul_div_le (address + length - 1) 4096). change SIZE with 4294967296 in *. lia.
    + eapply bool_decide_eq_true_1. by apply H, list_elem_of_In.
  - intros H pg Hpg%list_elem_of_In. apply bool_decide_eq_true_2. by apply H.
Qed.

(** [is_accessible] answers [True] for the read mode exactly when [read_bytes]
    succeeds, and for the write modes exactly when [write_bytes] does. *)
Theorem is_accessible_agrees address content m :
  0 <= address -> content <> [] ->
  let n := Z.of_nat (length content) in
  address + n <= SIZE ->
  (is_accessible address n MEM_R m = Ret true <->
     exists bs, (read_bytes address n None m).1 = Ret bs) /\
  (forall mode, mode = MEM_W \/ mode = MEM_RW ->
     is_accessible address n mode m = Ret true <->
     (write_bytes address content m).1 = Ret tt).
Proof.
  intros Ha Hne n He.
  assert (0 < n) as Hl by (subst n; destruct content; cbn; [done|lia]).
  assert (is_accessible address n MEM_R m = Ret true <-> accessible (pages_r m) address n) as Hr.
  { unfold is_accessible. destruct (Z.eqb_spec n 0); [lia|].
    replace (_ || _) with false by lia. cbn -[_PAGE_SHIFT].
    rewrite <-is_accessible_accessible by done. split; [by intros [=]|by intros ->]. }
  assert (forall mode, mode = MEM_W \/ mode = MEM_RW ->
    is_accessible address n mode m = Ret true <-> accessible (pages_w m) address n) as Hw.
  { intros mode Hm. unfold is_accessible. destruct (Z.eqb_spec n 0); [lia|].
    replace (_ || _ || _) with false by lia.
    destruct Hm as [->| ->]; cbn -[_PAGE_SHIFT]; rewrite <-is_accessible_accessible by done;
      (split; [by intros [=]|by intros ->]). }
  assert (0 <= address < SIZE) as Ha' by lia. split.
  - rewrite Hr. destruct (read_bytes_spec address n None m Ha' Hl) as [[? ->]|(pg & Hpg & ->)].
    + split; [by eauto|done].
    + split; [by intros ?%(lowest_refused_not _ _ _ _ Hpg)|by intros [? [=]]].
  - intros mode Hm. rewrite Hw by done.
    destruct (write_bytes_cases address content m Ha' Hne) as [[? ->]|(pg & Hpg & ->)]; [done|].
    split; [by intros ?%(lowest_refused_not _ _ _ _ Hpg)|done].
Qed.

Lemma clone_section_bytes m s s' :
  mem_wf m -> opt_section_bytes s -> clone_section m s = Ret s' -> opt_section_bytes s'.
Proof.
  intros Hm Hs. destruct s as [s|]; cbn [clone_section]; [|by intros [= <-] ? [=]].
  match goal with |- context [new_section _ _ ?d ?a] =>
    destruct (new_section (ms_address s) (ms_size s) d a) as [c|] eqn:Hc; [|done] end.
  cbn. intros [= <-] x [= <-]. unfold section_bytes. cbn.
  apply (new_section_bytes _ _ _ _ _) in Hc; [done|].
  destruct (0 <? _); [|done]. apply Forall_take. pose proof (Hs s eq_refl) as Hb.
  unfold section_bytes in Hb. unfold storage_bytes. destruct (ms_contents s); [done|].
  apply mv_wf_slice, Hm.
Qed.

Lemma copy_pages_wf src pages : forall dst v,
  mv_wf src -> mv_wf dst -> copy_pages src pages dst = Ret v -> mv_wf v.
Proof.
  induction pages as [|pg pages IH]; intros dst v Hs Hd; cbn [copy_pages]; [by intros [= <-]|].
  destruct (mv_assign _ _ _ _) as [d|] eqn:Ha; [|done]. apply IH; [done|].
  eapply mv_wf_assign; [|exact Hd|exact Ha]. by apply mv_wf_slice.
Qed.

Definition sections_bytes (m : PVMMemory) : Prop :=
  opt_section_bytes (rom m) /\ opt_section_bytes (heap m) /\
  opt_section_bytes (stack m) /\ opt_section_bytes (args m).

Lemma clone_wf m m' : mem_wf m -> sections_bytes m -> clone m = Ret m' -> mem_wf m'.
Proof.
  intros Hm (Hro & Hhe & Hst & Har). unfold clone.
  destruct (clone_section m (rom m)) as [ro|] eqn:Ero; [|done]. cbn.
  destruct (clone_section m (heap m)) as [he|] eqn:Ehe; [|done]. cbn.
  destruct (clone_section m (stack m)) as [st|] eqn:Est; [|done]. cbn.
  destruct (clone_section m (args m)) as [ar|] eqn:Ear; [|done]. cbn.
  apply clone_section_bytes in Ero, Ehe, Est, Ear; [|done..].
  destruct (new_memory ro he st ar) as [c|] eqn:Ec; [|done]. cbn.
  apply new_memory_wf in Ec; [|done..].
  destruct (copy_pages _ _ _) as [v|] eqn:Ev; [|done]. cbn.
  apply copy_pages_wf in Ev; [|apply Hm|apply Ec].
  destruct (review_section (rom c)) as [ro'|]; [|done]. cbn.
  destruct (review_section (heap c)) as [he'|]; [|done]. cbn.
  destruct (review_section (stack c)) as [st'|]; [|done]. cbn.
  destruct (review_section (args c)) as [ar'|]; [|done]. cbn.
  intros [= <-]. split; [exact Ev|]. apply Hm.
Qed.

(** ** The invariant, all operations together *)

(** Every operation keeps the cells bytes and the writable pages readable. *)
Theorem memory_ops_preserve_wf m :
  mem_wf m ->
  (forall a n p, mem_wf (read_bytes a n p m).2) /\
  (forall a c, List.Forall is_byte c -> mem_wf (write_bytes a c m).2) /\
  (forall a v n, mem_wf (write_int a v n m).2) /\
  (forall pg n acl, mem_wf (zero pg n acl m).2) /\
  (forall pg n acl, mem_wf (void pg n acl m).2) /\
  (forall pg n acl, mem_wf (change_acl pg n acl m)) /\
  (forall a n acl c, List.Forall is_byte c -> mem_wf (add_segment a n acl c m).2) /\
  (forall s, section_bytes s -> mem_wf (load_section s m).2) /\
  (forall m', sections_bytes m -> clone m = Ret m' -> mem_wf m').
Proof.
  intros Hm. split_and!; intros.
  - by apply read_bytes_wf.
  - by apply write_bytes_wf.
  - by apply write_int_wf.
  - by apply zero_wf.
  - unfold void. destruct (_ <=? _); [done|]. by apply zero_wf.
  - unfold change_acl. destruct (_ <=? _); [done|]. by apply set_acl_range_wf.
  - by apply add_segment_wf.
  - by apply load_section_wf.
  - by eapply clone_wf.
Qed.

(** ** Concrete instances *)

(** Page 16 is readable, page 17 readable and writable. *)
Definition demo_memory : PVMMemory := set_pages empty_memory {[ 16; 17 ]} {[ 17 ]}.

Lemma demo_memory_wf : mem_wf demo_memory.
Proof. split; [apply empty_memory_wf|]. cbn. set_solver. Qed.

Lemma demo_memory_ok : memory_ok demo_memory.
Proof. split; [|done]. intros pg. cbn. unfold page_exists. rewrite !elem_of_union, !elem_of_singleton. lia. Qed.

Lemma write_bytes_spec_witness :
  (exists m', write_bytes 69632 [1; 2; 3] demo_memory = (Ret tt, m') /\
     mv_get (mv m') 69633 = 2 /\ mv_get (mv m') 69640 = 0).
Proof.
  destruct (write_bytes_spec 69632 [1; 2; 3] demo_memory) as [[_ (m' & Hw & _ & _ & _ & Hg)]|(pg & Hpg & _)].
  - unfold SIZE. lia.
  - done.
  - exists m'. split; [exact Hw|]. rewrite !Hg. done.
  - exfalso. apply lowest_refused_not in Hpg. apply Hpg.
    apply (bool_decide_eq_true_1 (accessible (pages_w demo_memory) 69632 3)). vm_compute. reflexivity.
Defined.

Lemma write_int_read_int_witness :
  exists m', write_int 69700 4294967301 4 demo_memory = (Ret tt, m') /\
    read_int 69700 4 m' = (Ret 5, m').
Proof.
  apply (write_int_read_int 69700 4294967301 4 demo_memory).
  - unfold SIZE. lia.
  - lia.
  - apply (bool_decide_eq_true_1 (accessible (pages_w demo_memory) 69700 4)). vm_compute. reflexivity.
  - cbn. set_solver.
Defined.

Lemma clone_reads_witness :
  exists m', clone demo_memory = Ret m' /\ pages_r m' = pages_r demo_memory.
Proof.
  destruct (clone_reads demo_memory demo_memory_ok) as (m' & Hc & Hp & _).
  exists m'. by split.
Defined.

Lemma clone_section_refuses_limit_witness :
  exists s, new_section 65536 PVM_MAX_HEAP_SIZE [] None = Ret s /\
    clone_section demo_memory (Some s) = Raise PVMMemoryError.
Proof. apply clone_section_refuses_limit. unfold PVM_MAX_HEAP_SIZE. lia. Defined.

Lemma is_accessible_agrees_witness :
  is_accessible 69632 3 MEM_RW demo_memory = Ret true /\
  (write_bytes 69632 [1; 2; 3] demo_memory).1 = Ret tt.
Proof.
  destruct (is_accessible_agrees 69632 [1; 2; 3] demo_memory) as [_ Hw];
    [lia|done|unfold SIZE; cbn; lia|].
  assert (is_accessible 69632 3 MEM_RW demo_memory = Ret true) as H by (vm_compute; reflexivity).
  split; [exact H|]. apply (Hw MEM_RW); [by right|exact H].
Defined.

Lemma memory_ops_preserve_wf_witness :
  mem_wf (write_bytes 69632 [1; 255] demo_memory).2.
Proof.
  destruct (memory_ops_preserve_wf demo_memory demo_memory_wf) as (_ & Hw & _).
  apply Hw. repeat apply Forall_cons_2; try done; apply Forall_nil_2.
Defined.
