(* ===== verification/BasicBlock.v ===== *)
(** * Instructions and basic blocks

    [pvm/basic_block.py]: the decoding of a code blob into instructions, the
    static offsets of jumps and branches, the starts of basic blocks and the
    search of the block that contains a program counter.

    [decode_spec] gives the decoder its specification, the relation [decodes];
    [decode_valid_instructions] says what the
    interpreter relies on: in accepted code the decoded positions are exactly
    the positions flagged by the bitmask, and every instruction that is not a
    terminator is followed by another.  [detect_spec] characterises the block
    starts and [get_block_start_spec] the binary search. *)

From Stdlib Require Import ZArith Lia Bool List.
From stdpp Require Import base numbers option sorting list gmap.
From S2P Require Import Prelude Constants Defs.
Import ListNotations.

#[local] Open Scope Z_scope.
#[local] Open Scope py_scope.

(** ** Decoding *)

Definition code_at (code : bytes) (i : Z) : Z := default 0 (py_index code i).
Definition bit_at (bitmask : list bool) (i : Z) : bool := default false (py_index bitmask i).
Definition blen (code : bytes) : Z := Z.of_nat (length code).

(** The inner loop; [length < 24] bounds it. *)
Fixpoint scan_skip (n : nat) (code : bytes) (bitmask : list bool) (pc length : Z) : Z :=
  match n with
  | O => length
  | S k =>
      if (length <? 24) && (pc + length + 1 <? blen code)
         && negb (bit_at bitmask (pc + length + 1))
      then scan_skip k code bitmask pc (length + 1)
      else length
  end.

Definition skip_length (code : bytes) (bitmask : list bool) (pc : Z) : Z :=
  scan_skip 25 code bitmask pc 0.

Record decode_state : Type := mkDecode {
  dc_pc : Z;
  dc_positions : gmap Z Z;
  dc_lengths : list Z;
  dc_last : option Z
}.

Definition decoded : Type := gmap Z Z * list Z * bool.

Definition decode_body (code : bytes) (bitmask : list bool) (s : decode_state)
  : decode_state + decoded :=
  let pc := dc_pc s in
  if pc <? blen code then
    if negb (bit_at bitmask pc) || negb (is_valid_opcode (code_at code pc)) then
      inr (dc_positions s, dc_lengths s, false)
    else
      let length := skip_length code bitmask pc in
      inl {| dc_pc := pc + length + 1;
             dc_positions := <[pc := Z.of_nat (List.length (dc_lengths s))]> (dc_positions s);
             dc_lengths := dc_lengths s ++ [length];
             dc_last := Some (code_at code pc) |}
  else
    inr (dc_positions s, dc_lengths s,
         match dc_last s with Some last_opcode => is_termination last_opcode | None => false end).

(** Each turn advances, so [len(code) + 1] turns suffice ([decode_spec]). *)
Definition decode_instructions (code : bytes) (bitmask : list bool) : decoded :=
  if (blen code =? 0) || negb (blen code =? Z.of_nat (length bitmask)) then (∅, [], false)
  else
    match ploop (Z.to_pos (blen code + 1)) (decode_body code bitmask)
                {| dc_pc := 0; dc_positions := ∅; dc_lengths := []; dc_last := None |} with
    | inr r => r
    | inl s => (dc_positions s, dc_lengths s, false)
    end.

(** ** Static offsets *)

(** Little-endian accumulation of [length] bytes from [offset]. *)
Definition read_unsigned (code : bytes) (offset length : Z) : Z :=
  fold_left (fun value i => value .| (code_at code (offset + i) ≪ (8 * i)))
    (py_range 0 length) 0.

Definition _read_signed_offset (code : bytes) (offset length : Z) : Z :=
  if (length <=? 0) || (blen code <? offset + length) then 0
  else
    let value := read_unsigned code offset length in
    if 1 ≪ (8 * length - 1) <=? value then value - 1 ≪ (8 * length) else value.

(** [inst_arg_len[inst_index]] may raise [IndexError]. *)
Definition arg_len_at (inst_arg_len : list Z) (inst_index : Z) : outcome exn Z :=
  match py_index inst_arg_len inst_index with Some l => Ret l | None => Raise PyException end.

Definition calculate_jump_offset (code : bytes) (inst_arg_len : list Z) (pc inst_index : Z)
  : outcome exn Z :=
  arg_len ← arg_len_at inst_arg_len inst_index;
  if arg_len =? 0 then Ret 0 else Ret (_read_signed_offset code (pc + 1) arg_len).

Definition calculate_jump_target (code : bytes) (inst_arg_len : list Z) (pc inst_index : Z)
  : outcome exn Z :=
  offset ← calculate_jump_offset code inst_arg_len pc inst_index; Ret (pc + offset).

Definition calculate_branch_reg_offset (code : bytes) (inst_arg_len : list Z)
  (pc inst_index : Z) : outcome exn Z :=
  arg_len ← arg_len_at inst_arg_len inst_index;
  if arg_len <=? 1 then Ret 0
  else Ret (_read_signed_offset code (pc + 2) (arg_len - 1)).

Definition calculate_branch_reg_target (code : bytes) (inst_arg_len : list Z)
  (pc inst_index : Z) : outcome exn Z :=
  offset ← calculate_branch_reg_offset code inst_arg_len pc inst_index; Ret (pc + offset).

Definition calculate_branch_imm_offset (code : bytes) (inst_arg_len : list Z)
  (pc inst_index : Z) : outcome exn Z :=
  arg_len ← arg_len_at inst_arg_len inst_index;
  if arg_len <? 1 then Ret 0
  else
    match py_index code (pc + 1) with
    | None => Raise PyException
    | Some b =>
        let l_x := Z.min 4 ((b / 16) mod 8) in
        let l_y := Z.min 4 (Z.max 0 (arg_len - l_x - 1)) in
        if l_y <=? 0 then Ret 0
        else Ret (_read_signed_offset code (pc + 2 + l_x) l_y)
    end.

Definition calculate_branch_imm_target (code : bytes) (inst_arg_len : list Z)
  (pc inst_index : Z) : outcome exn Z :=
  offset ← calculate_branch_imm_offset code inst_arg_len pc inst_index; Ret (pc + offset).

(** ** Basic blocks *)

(** One turn of the loop over [inst_pos.items()]. *)
Definition detect_step (code : bytes) (code_length : Z) (inst_pos : gmap Z Z)
  (inst_arg_len : list Z) (item : Z * Z) (starts : gset Z) : outcome exn (gset Z) :=
  let '(pc, index) := item in
  if (pc <? code_length) && is_termination (code_at code pc) then
    arg_len ← arg_len_at inst_arg_len index;
    let following := pc + arg_len + 1 in
    if (following <? code_length) && bool_decide (is_Some (inst_pos !! following))
    then Ret ({[ following ]} ∪ starts) else Ret starts
  else Ret starts.

Fixpoint detect_loop (code : bytes) (code_length : Z) (inst_pos : gmap Z Z)
  (inst_arg_len : list Z) (items : list (Z * Z)) (starts : gset Z) : outcome exn (gset Z) :=
  match items with
  | [] => Ret starts
  | item :: items =>
      starts ← detect_step code code_length inst_pos inst_arg_len item starts;
      detect_loop code code_length inst_pos inst_arg_len items starts
  end.

Definition detect_basic_blocks (code : bytes) (code_length : Z) (inst_pos : gmap Z Z)
  (inst_arg_len : list Z) : outcome exn (gset Z) :=
  let starts := if bool_decide (is_Some (inst_pos !! 0)) then {[ 0 ]} else ∅ in
  detect_loop code code_length inst_pos inst_arg_len (map_to_list inst_pos) starts.

(** [sorted] of a set of integers. *)
Definition sorted (s : gset Z) : list Z := merge_sort Z.le (elements s).

(** [bisect.bisect_right]: the standard library's binary search. *)
Definition bisect_body (a : list Z) (x : Z) (s : Z * Z) : Z * Z + Z :=
  let '(lo, hi) := s in
  if lo <? hi then
    let mid := (lo + hi) / 2 in
    if x <? default 0 (py_index a mid) then inl (lo, mid) else inl (mid + 1, hi)
  else inr lo.

(** The interval shrinks at every turn. *)
Definition bisect_right (a : list Z) (x : Z) : Z :=
  match ploop (Z.to_pos (Z.of_nat (length a) + 1)) (bisect_body a x)
              (0, Z.of_nat (length a)) with
  | inr i => i
  | inl (lo, _) => lo
  end.

Definition get_block_start (basic_block_starts_sorted : list Z) (pc : Z) : Z :=
  let idx := bisect_right basic_block_starts_sorted pc - 1 in
  if 0 <=? idx then default 0 (py_index basic_block_starts_sorted idx) else 0.

(** * Properties *)

(** ** The skip distance *)

Section skip.
Context (code : bytes) (bitmask : list bool) (pc : Z).
Let free (i : Z) := bit_at bitmask (pc + i + 1) = false.

Lemma scan_skip_spec n l :
  0 <= l -> 24 - l < Z.of_nat n -> l <= 24 ->
  let r := scan_skip n code bitmask pc l in
  l <= r <= 24 /\ (forall i, l <= i < r -> free i /\ pc + i + 1 < blen code) /\
  (r = 24 \/ blen code <= pc + r + 1 \/ bit_at bitmask (pc + r + 1) = true).
Proof using.
  revert l. induction n as [|n IH]; intros l Hl Hn H24; [lia|]. cbn [scan_skip].
  destruct (Z.ltb_spec l 24), (Z.ltb_spec (pc + l + 1) (blen code)),
    (bit_at bitmask (pc + l + 1)) eqn:Hb; cbn [andb negb]; cbv zeta;
    try (split; [lia|]; split; [lia|]; first [by left; lia|right; first [by left|by right]]).
  destruct (IH (l + 1)) as (Hr & Hf & He); [lia..|].
  split; [lia|]. split; [|exact He].
  intros i Hi. destruct (Z.eq_dec i l) as [->|]; [by split|]. apply Hf. lia.
Qed.

Lemma skip_length_spec :
  let r := skip_length code bitmask pc in
  0 <= r <= 24 /\ (forall i, 0 <= i < r -> free i /\ pc + i + 1 < blen code) /\
  (r = 24 \/ blen code <= pc + r + 1 \/ bit_at bitmask (pc + r + 1) = true).
Proof using. apply scan_skip_spec; lia. Qed.
End skip.

Lemma skip_length_next code bitmask pc :
  pc < blen code -> pc + skip_length code bitmask pc + 1 <= blen code.
Proof.
  intros Hpc. destruct (skip_length_spec code bitmask pc) as (Hr & Hf & _).
  destruct (Z.eq_dec (skip_length code bitmask pc) 0) as [->|]; [lia|].
  destruct (Hf (skip_length code bitmask pc - 1)) as [_ ?]; lia.
Qed.

(** ** The decoder's specification

    [decodes pc insts whole]: from [pc] the blob reads as the instructions
    [insts] (position and skip distance), up to the end of the blob if [whole],
    up to a position that holds no instruction otherwise. *)

Definition inst_ok (code : bytes) (bitmask : list bool) (pc : Z) : bool :=
  bit_at bitmask pc && is_valid_opcode (code_at code pc).

Inductive decodes (code : bytes) (bitmask : list bool) : Z -> list (Z * Z) -> bool -> Prop :=
| decodes_end pc : blen code <= pc -> decodes code bitmask pc [] true
| decodes_stuck pc : pc < blen code -> inst_ok code bitmask pc = false ->
    decodes code bitmask pc [] false
| decodes_inst pc insts whole : pc < blen code -> inst_ok code bitmask pc = true ->
    decodes code bitmask (pc + skip_length code bitmask pc + 1) insts whole ->
    decodes code bitmask pc ((pc, skip_length code bitmask pc) :: insts) whole.

(** The dictionary of positions the decoder builds. *)
Fixpoint number_from (k : nat) (insts : list (Z * Z)) (positions : gmap Z Z) : gmap Z Z :=
  match insts with
  | [] => positions
  | (pc, _) :: insts => number_from (S k) insts (<[pc := Z.of_nat k]> positions)
  end.

Definition ends_block (code : bytes) (last : option Z) (insts : list (Z * Z)) : bool :=
  match List.last (map (fun i => Some (code_at code i.1)) insts) last with
  | Some opcode => is_termination opcode
  | None => false
  end.

Lemma decodes_total code bitmask n : forall pc,
  blen code - pc <= Z.of_nat n -> pc <= blen code ->
  exists insts whole, decodes code bitmask pc insts whole /\
    Z.of_nat (length insts) <= Z.max 0 (blen code - pc).
Proof.
  induction n as [|n IH]; intros pc Hn Hpc.
  { exists [], true. split; [constructor; lia|cbn; lia]. }
  destruct (Z_lt_le_dec pc (blen code)) as [Hlt|]; [|exists [], true; split; [constructor; lia|cbn; lia]].
  destruct (inst_ok code bitmask pc) eqn:Hok; [|exists [], false; split; [by constructor|cbn; lia]].
  pose proof (skip_length_next code bitmask pc Hlt). 
  pose proof (skip_length_spec code bitmask pc) as [Hs _].
  destruct (IH (pc + skip_length code bitmask pc + 1)) as (insts & whole & Hd & Hl); [lia..|].
  eexists _, whole. split; [by apply decodes_inst|]. cbn [length]. lia.
Qed.

Lemma decodes_fun code bitmask pc insts whole :
  decodes code bitmask pc insts whole -> forall insts' whole',
  decodes code bitmask pc insts' whole' -> insts = insts' /\ whole = whole'.
Proof.
  induction 1 as [|pc Hlt Hok|pc insts whole Hlt Hok Hd IH]; intros insts' whole' Hd';
    inversion Hd'; subst; try lia; try congruence; try done.
  destruct (IH _ _ ltac:(eassumption)) as [-> ->]. done.
Qed.

Lemma last_default {A} (l : list A) a d : List.last (a :: l) d = List.last l a.
Proof. revert a d. induction l as [|b l IH]; intros a d; [done|]. rewrite (IH b a). apply (IH b d). Qed.

Lemma decode_run code bitmask pc insts whole :
  decodes code bitmask pc insts whole -> forall positions lengths last,
  nloop (S (length insts)) (decode_body code bitmask)
    {| dc_pc := pc; dc_positions := positions; dc_lengths := lengths; dc_last := last |}
  = inr (number_from (length lengths) insts positions, lengths ++ map snd insts,
         whole && ends_block code last insts).
Proof.
  induction 1 as [pc Hle|pc Hlt Hok|pc insts whole Hlt Hok Hd IH]; intros positions lengths last.
  - cbn [nloop length]. unfold decode_body. cbn [dc_pc].
    destruct (Z.ltb_spec pc (blen code)); [lia|]. cbn. by rewrite app_nil_r.
  - cbn [nloop length]. unfold decode_body. cbn [dc_pc].
    destruct (Z.ltb_spec pc (blen code)); [|lia]. rewrite <-negb_andb.
    unfold inst_ok in Hok. rewrite Hok. cbn. by rewrite app_nil_r.
  - cbn [length]. remember (S (length insts)) as n. cbn [nloop]. unfold decode_body at 1. cbn [dc_pc].
    destruct (Z.ltb_spec pc (blen code)); [|lia]. rewrite <-negb_andb.
    unfold inst_ok in Hok. rewrite Hok. cbn [negb].
    subst n. rewrite IH. cbn [number_from map snd]. rewrite length_app. cbn [length].
    rewrite Nat.add_1_r, <-app_assoc. cbn [app].
    do 2 f_equal. unfold ends_block. cbn [map fst]. by rewrite last_default.
Qed.

(** [decode_instructions] computes exactly what [decodes] specifies. *)
Lemma decode_spec code bitmask :
  code <> [] -> length bitmask = length code ->
  exists insts whole, decodes code bitmask 0 insts whole /\
    decode_instructions code bitmask =
      (number_from 0 insts ∅, map snd insts, whole && ends_block code None insts).
Proof.
  intros Hne Hlen. assert (0 < blen code) as Hpos by (unfold blen; destruct code; cbn; [done|lia]).
  destruct (decodes_total code bitmask (length code) 0) as (insts & whole & Hd & Hl);
    [unfold blen; lia|lia|].
  exists insts, whole. split; [done|]. unfold decode_instructions.
  destruct (Z.eqb_spec (blen code) 0); [lia|]. rewrite Hlen.
  fold (blen code). rewrite Z.eqb_refl. cbn [negb orb].
  pose proof (decode_run code bitmask 0 insts whole Hd ∅ [] None) as Hr.
  rewrite ploop_nloop.
  replace (Pos.to_nat (Z.to_pos (blen code + 1)))
    with (S (length insts) + (Z.to_nat (blen code) - length insts))%nat by lia.
  by rewrite nloop_add, Hr.
Qed.

(** ** What accepted code guarantees *)

Lemma decodes_ge code bitmask pc insts whole :
  decodes code bitmask pc insts whole ->
  forall p l, (p, l) ∈ insts -> pc <= p < blen code /\ l = skip_length code bitmask p /\
    inst_ok code bitmask p = true.
Proof.
  induction 1 as [pc Hle|pc Hlt Hok|pc insts whole Hlt Hok Hd IH]; intros p l Hin.
  - by apply not_elem_of_nil in Hin.
  - by apply not_elem_of_nil in Hin.
  - pose proof (skip_length_spec code bitmask pc) as [Hs _].
    apply elem_of_cons in Hin as [[= -> ->]|Hin]; [done|].
    destruct (IH p l Hin) as [? ?]. split; [lia|done].
Qed.

Lemma decodes_nodup code bitmask pc insts whole :
  decodes code bitmask pc insts whole -> NoDup (map fst insts).
Proof.
  induction 1 as [pc Hle|pc Hlt Hok|pc insts whole Hlt Hok Hd IH]; [constructor..|].
  cbn. constructor; [|done]. intros ([p l] & Hp & Hin)%list_elem_of_fmap. cbn in Hp. subst p.
  pose proof (skip_length_spec code bitmask pc) as [Hs _].
  apply (decodes_ge _ _ _ _ _ Hd) in Hin. lia.
Qed.

Lemma number_from_lookup insts : forall k m p x,
  NoDup (map fst insts) ->
  number_from k insts m !! p = Some x <->
  (exists i l, insts !! i = Some (p, l) /\ x = Z.of_nat (k + i)) \/
  (m !! p = Some x /\ p ∉ map fst insts).
Proof.
  induction insts as [|[q l] insts IH]; intros k m p x Hnd; cbn [number_from map fst].
  { split; [intros H; right; split; [done|apply not_elem_of_nil]|].
    intros [(i & l & H & _)|[H _]]; [by rewrite lookup_nil in H|done]. }
  cbn in Hnd. apply NoDup_cons in Hnd as [Hq Hnd]. rewrite IH by done. split.
  - intros [(i & l' & Hi & ->)|[Hm Hp]].
    + left. exists (S i), l'. split; [done|]. lia.
    + destruct (decide (q = p)) as [->|Hne].
      * rewrite lookup_insert_eq in Hm. injection Hm as <-. left. exists O, l. split; [done|]. lia.
      * rewrite lookup_insert_ne in Hm by done. right. split; [done|]. by apply not_elem_of_cons.
  - intros [([|i] & l' & Hi & ->)|[Hm Hp]].
    + cbn in Hi. injection Hi as <- <-. right. rewrite lookup_insert_eq. split; [|done].
      do 2 f_equal. lia.
    + left. exists i, l'. split; [done|]. lia.
    + apply not_elem_of_cons in Hp as [Hne Hp]. right. by rewrite lookup_insert_ne by done.
Qed.

(** The next instruction, or the end of the blob. *)
Lemma decodes_next code bitmask pc insts :
  decodes code bitmask pc insts true ->
  (pc < blen code -> pc ∈ map fst insts) /\
  forall p l, (p, l) ∈ insts -> p + l + 1 < blen code -> p + l + 1 ∈ map fst insts.
Proof.
  intros Hd. remember true as whole eqn:Hw. revert Hw.
  induction Hd as [pc Hle|pc Hlt Hok|pc insts whole Hlt Hok Hd IH]; intros Hw; [|done|].
  - split; [lia|]. intros p l Hin. by apply not_elem_of_nil in Hin.
  - destruct (IH Hw) as [IH1 IH2]. cbn. split; [left|].
    intros p l [[= -> ->]|Hin]%elem_of_cons Hlt'; right; [by apply IH1|by eapply IH2].
Qed.

Lemma decodes_last code bitmask pc insts last :
  decodes code bitmask pc insts true -> pc <= blen code ->
  ends_block code last insts = true ->
  forall p l, (p, l) ∈ insts -> p + l + 1 = blen code -> is_termination (code_at code p) = true.
Proof.
  intros Hd. remember true as whole eqn:Hw. revert Hw last.
  induction Hd as [pc Hle|pc Hlt Hok|pc insts whole Hlt Hok Hd IH]; intros Hw last Hpc He p l Hin;
    [by apply not_elem_of_nil in Hin|done|].
  apply elem_of_cons in Hin as [[= -> ->]|Hin]; intros Heq.
  - inversion Hd; subst; try lia.
    unfold ends_block in He. cbn in He. done.
  - eapply (IH Hw (Some (code_at code pc))); [by apply skip_length_next| |done|done].
    unfold ends_block in *. cbn [map fst] in He. by rewrite last_default in He.
Qed.

Record valid_tables (code : bytes) (bitmask : list bool) (positions : gmap Z Z)
  (lengths : list Z) : Prop := {
  vt_zero : is_Some (positions !! 0);
  vt_inst : forall pc index, positions !! pc = Some index ->
    0 <= pc < blen code /\ is_valid_opcode (code_at code pc) = true /\
    exists l, py_index lengths index = Some l /\ 0 <= l <= 24 /\
      l = skip_length code bitmask pc /\ pc + l + 1 <= blen code /\
      (pc + l + 1 < blen code -> is_Some (positions !! (pc + l + 1))) /\
      (pc + l + 1 = blen code -> is_termination (code_at code pc) = true);
  vt_flag : forall pc, 0 <= pc < blen code ->
    is_Some (positions !! pc) <-> bit_at bitmask pc = true
}.

Lemma decodes_flagged code bitmask pc insts :
  decodes code bitmask pc insts true ->
  forall i, pc <= i < blen code -> bit_at bitmask i = true -> i ∈ map fst insts.
Proof.
  intros Hd. remember true as whole eqn:Hw. revert Hw.
  induction Hd as [pc Hle|pc Hlt Hok|pc insts whole Hlt Hok Hd IH]; intros Hw i Hi Hb;
    [lia|done|]. cbn. apply elem_of_cons.
  destruct (Z.eq_dec i pc) as [->|]; [by left|right].
  apply (IH Hw); [|done]. split; [|lia].
  destruct (skip_length_spec code bitmask pc) as (Hs & Hf & _).
  destruct (Z_lt_le_dec i (pc + skip_length code bitmask pc + 1)) as [Hlt'|]; [|done].
  destruct (Hf (i - pc - 1)) as [Hbit _]; [lia|]. cbv zeta in Hbit.
  replace (pc + (i - pc - 1) + 1) with i in Hbit by lia. congruence.
Qed.

(** Code that the decoder accepts: position 0 holds an instruction, every
    decoded position holds a valid opcode whose skip distance is in range, an
    instruction that does not end a block is followed by another, and the
    decoded positions are exactly the flagged ones. *)
Lemma decode_valid_instructions code bitmask positions lengths :
  decode_instructions code bitmask = (positions, lengths, true) ->
  valid_tables code bitmask positions lengths.
Proof.
  intros Hdec. assert (code <> [] /\ length bitmask = length code) as [Hne Hlen].
  { unfold decode_instructions in Hdec. split.
    - intros ->. done.
    - destruct (Z.eqb_spec (blen code) 0); [done|].
      destruct (Z.eqb_spec (blen code) (Z.of_nat (length bitmask))) as [Heq|]; [|done].
      unfold blen in Heq. lia. }
  destruct (decode_spec code bitmask Hne Hlen) as (insts & whole & Hd & Heq).
  rewrite Hdec in Heq. injection Heq as -> -> Hv. symmetry in Hv.
  apply andb_true_iff in Hv as [-> He].
  pose proof (decodes_nodup _ _ _ _ _ Hd) as Hnd.
  assert (forall p, is_Some (number_from 0 insts ∅ !! p) <-> p ∈ map fst insts) as Hdom.
  { intros p. split.
    - intros [x [(i & l & Hi & _)|[Hx _]]%number_from_lookup]; [|by rewrite lookup_empty in Hx|done].
      apply list_elem_of_fmap. exists (p, l). split; [done|]. by eapply list_elem_of_lookup_2.
    - intros ([q l] & -> & [i Hi]%list_elem_of_lookup_1)%list_elem_of_fmap.
      exists (Z.of_nat (0 + i)). apply number_from_lookup; [done|]. left. by exists i, l. }
  assert (0 < blen code) as Hpos by (unfold blen; destruct code; cbn; [done|lia]).
  split.
  - apply Hdom. by apply (decodes_next _ _ _ _ Hd).
  - intros pc index [(i & l & Hi & ->)|[Hx _]]%number_from_lookup; [|by rewrite lookup_empty in Hx|done].
    pose proof (list_elem_of_lookup_2 _ _ _ Hi) as Hin.
    destruct (decodes_ge _ _ _ _ _ Hd pc l Hin) as (Hpc & Hl & Hok).
    unfold inst_ok in Hok. apply andb_true_iff in Hok as [Hb Hok].
    split; [done|]. split; [done|]. exists l.
    split. { rewrite py_index_nonneg by lia. rewrite Nat2Z.id, list_lookup_fmap, Nat.add_0_l.
      by rewrite Hi. }
    pose proof (skip_length_spec code bitmask pc) as [Hs _].
    pose proof (skip_length_next code bitmask pc). split; [lia|]. split; [done|]. split; [lia|].
    split; [|by apply (decodes_last _ _ _ _ _ Hd ltac:(lia) He pc l Hin)].
    intros Hlt. apply Hdom. by apply (decodes_next _ _ _ _ Hd).
  - intros pc Hpc. rewrite Hdom. split.
    + intros ([q l] & -> & Hin)%list_elem_of_fmap. cbn in *.
      destruct (decodes_ge _ _ _ _ _ Hd q l Hin) as (_ & _ & Hok).
      by apply andb_true_iff in Hok as [? _].
    + by apply (decodes_flagged _ _ _ _ Hd).
Qed.

(** ** Block starts *)

Section detect.
Context (code : bytes) (code_length : Z) (inst_pos : gmap Z Z) (inst_arg_len : list Z).

(** Position [following] follows a terminator of the code. *)
Definition follows (following : Z) : Prop :=
  following < code_length /\ is_Some (inst_pos !! following) /\
  exists pc index l, inst_pos !! pc = Some index /\ pc < code_length /\
    is_termination (code_at code pc) = true /\ py_index inst_arg_len index = Some l /\
    following = pc + l + 1.

Definition starts_spec (s : Z) : Prop :=
  (s = 0 /\ is_Some (inst_pos !! 0)) \/ follows s.

(** Every terminator has a recorded length. *)
Hypothesis lengths_ok : forall pc index, inst_pos !! pc = Some index ->
  is_Some (py_index inst_arg_len index).

Definition follows_item (item : Z * Z) (s : Z) : Prop :=
  item.1 < code_length /\ is_termination (code_at code item.1) = true /\
  exists l, py_index inst_arg_len item.2 = Some l /\ s = item.1 + l + 1 /\
    s < code_length /\ is_Some (inst_pos !! s).

Lemma detect_step_spec item starts :
  is_Some (py_index inst_arg_len item.2) ->
  exists starts', detect_step code code_length inst_pos inst_arg_len item starts = Ret starts' /\
    forall s, s ∈ starts' <-> s ∈ starts \/ follows_item item s.
Proof using.
  destruct item as [pc index]. intros [l Hl]. cbn in Hl. unfold detect_step, follows_item. cbn [fst snd].
  destruct (Z.ltb_spec pc code_length) as [Hpc|Hpc]; cbn [andb];
    [|exists starts; split; [done|intros s; split; [by left|intros [|[? _]]; [done|lia]]]].
  destruct (is_termination (code_at code pc)) eqn:Ht;
    [|exists starts; split; [done|intros s; split; [by left|intros [|(_ & ? & _)]; done]]].
  unfold arg_len_at. rewrite Hl. cbn [mbind outcome_bind].
  destruct (Z.ltb_spec (pc + l + 1) code_length) as [Hf|Hf]; cbn [andb].
  - destruct (bool_decide_reflect (is_Some (inst_pos !! (pc + l + 1)))) as [Hs|Hs].
    + eexists. split; [done|]. intros s. rewrite elem_of_union, elem_of_singleton.
      split; [intros [->|]; [|by left]; right; eauto 10|].
      intros [|(_ & _ & l' & Hl' & -> & _)]; [by right|left]. congruence.
    + eexists. split; [done|]. intros s. split; [by left|].
      intros [|(_ & _ & l' & Hl' & -> & _ & Hs')]; [done|]. assert (l' = l) by (cbn in *; congruence).
      subst. done.
  - eexists. split; [done|]. intros s. split; [by left|].
    intros [|(_ & _ & l' & Hl' & -> & ? & _)]; [done|]. assert (l' = l) by (cbn in *; congruence). subst. lia.
Qed.

Lemma detect_loop_spec items : forall starts,
  (forall item, item ∈ items -> is_Some (py_index inst_arg_len item.2)) ->
  exists starts', detect_loop code code_length inst_pos inst_arg_len items starts = Ret starts' /\
    forall s, s ∈ starts' <-> s ∈ starts \/ exists item, item ∈ items /\ follows_item item s.
Proof using.
  induction items as [|item items IH]; intros starts Hi; cbn [detect_loop].
  { exists starts. split; [done|]. intros s. split; [by left|].
    intros [|(? & []%not_elem_of_nil & _)]; done. }
  destruct (detect_step_spec item starts) as (s1 & -> & H1); [apply Hi; left|].
  cbn [mbind outcome_bind].
  destruct (IH s1) as (s2 & -> & H2); [intros; apply Hi; by right|].
  exists s2. split; [done|]. intros s. rewrite H2, H1. setoid_rewrite elem_of_cons.
  split; [intros [[|]|(i & ? & ?)]; eauto 10|].
  intros [|(i & [->|] & ?)]; eauto 10.
Qed.

Lemma detect_spec_sets :
  exists starts, detect_basic_blocks code code_length inst_pos inst_arg_len = Ret starts /\
    forall s, s ∈ starts <-> starts_spec s.
Proof using lengths_ok.
  unfold detect_basic_blocks.
  destruct (detect_loop_spec (map_to_list inst_pos)
    (if bool_decide (is_Some (inst_pos !! 0)) then {[ 0 ]} else ∅)) as (starts & -> & Hs).
  { intros [pc index] Hin%elem_of_map_to_list. by apply (lengths_ok pc). }
  exists starts. split; [done|]. intros s. rewrite Hs. unfold starts_spec.
  assert (s ∈ (if bool_decide (is_Some (inst_pos !! 0)) then {[ 0 ]} else ∅ : gset Z) <->
          s = 0 /\ is_Some (inst_pos !! 0)) as ->.
  { case_bool_decide; rewrite ?elem_of_singleton; [tauto|]. split; [set_solver|tauto]. }
  enough ((exists item, item ∈ map_to_list inst_pos /\ follows_item item s) <-> follows s) as ->
    by done.
  unfold follows, follows_item. split.
  - intros ([pc index] & Hin%elem_of_map_to_list & ? & ? & l & ? & ? & ? & ?). cbn in *. eauto 15.
  - intros (? & ? & pc & index & l & ? & ? & ? & ? & ?). exists (pc, index).
    split; [by apply elem_of_map_to_list|]. cbn. eauto 10.
Qed.
End detect.

(** The block starts of accepted code: entry zero and the instructions that
    follow a terminator.  No lookup of the computation fails. *)
Lemma detect_spec code bitmask positions lengths :
  decode_instructions code bitmask = (positions, lengths, true) ->
  exists starts, detect_basic_blocks code (blen code) positions lengths = Ret starts /\
    0 ∈ starts /\
    forall s, s ∈ starts <->
      s = 0 \/
      exists pc l, py_index lengths (default 0 (positions !! pc)) = Some l /\
        is_Some (positions !! pc) /\ is_termination (code_at code pc) = true /\
        s = pc + l + 1 /\ s < blen code.
Proof.
  intros Hdec. pose proof (decode_valid_instructions _ _ _ _ Hdec) as [H0 Hi Hf].
  destruct (detect_spec_sets code (blen code) positions lengths) as (starts & -> & Hs).
  { intros pc index Hpc. destruct (Hi pc index Hpc) as (_ & _ & l & ? & _). by exists l. }
  exists starts. split; [done|]. split; [apply Hs; by left|].
  intros s. rewrite Hs. unfold starts_spec, follows. split.
  - intros [[-> _]|(Hlt & _ & pc & index & l & Hpc & _ & Ht & Hl & ->)]; [by left|right].
    exists pc, l. rewrite Hpc. cbn. eauto.
  - intros [->|(pc & l & Hl & [index Hpc] & Ht & -> & Hlt)]; [by left|right].
    rewrite Hpc in Hl. cbn in Hl. destruct (Hi pc index Hpc) as (Hr & Hv & l' & Hl' & H24 & Hsk & _ & Hle & _).
    assert (l' = l) as -> by congruence. split; [done|]. split; [|exists pc, index, l; eauto with lia].
    by apply Hle.
Qed.

(** The instruction after one that does not end a block. *)
Lemma valid_tables_next code bitmask positions lengths pc index l :
  valid_tables code bitmask positions lengths ->
  positions !! pc = Some index -> py_index lengths index = Some l ->
  is_termination (code_at code pc) = false -> is_Some (positions !! (pc + l + 1)).
Proof.
  intros [_ Hi _] Hpc Hl Ht. destruct (Hi pc index Hpc) as (_ & _ & l' & Hl' & _ & _ & Hle & Hn & He).
  assert (l' = l) as -> by congruence.
  destruct (Z.eq_dec (pc + l + 1) (blen code)) as [Heq|]; [|apply Hn; lia].
  rewrite He in Ht by done. done.
Qed.

(** ** The binary search *)

Lemma sorted_lookup_le a i j y z :
  StronglySorted Z.le a -> a !! i = Some y -> a !! j = Some z -> (i <= j)%nat -> y <= z.
Proof.
  intros Hs. revert i j. induction Hs as [|y0 a Hs IH Hf]; intros i j Hi Hj Hij.
  { by rewrite lookup_nil in Hi. }
  destruct i as [|i], j as [|j]; cbn in *; simplify_eq; try lia.
  - rewrite Forall_lookup in Hf. by eapply Hf.
  - by apply (IH i j); [| |lia].
Qed.

Lemma bisect_right_spec a x :
  StronglySorted Z.le a ->
  exists i, ploop (Z.to_pos (Z.of_nat (length a) + 1)) (bisect_body a x) (0, Z.of_nat (length a))
            = inr i /\ 0 <= i <= Z.of_nat (length a) /\
    forall k y, a !! k = Some y -> (Z.of_nat k < i -> y <= x) /\ (i <= Z.of_nat k -> x < y).
Proof.
  intros Hs. set (n := Z.of_nat (length a)).
  pose proof (fun i j y z => sorted_lookup_le a i j y z Hs) as Hmono.
  apply (ploop_total (fun s => 0 <= s.1 <= s.2 /\ s.2 <= n /\
      forall k y, a !! k = Some y -> (Z.of_nat k < s.1 -> y <= x) /\ (s.2 <= Z.of_nat k -> x < y))
    _ (fun s => s.2 - s.1)).
  - intros [lo hi]. cbn. lia.
  - intros [lo hi] (Hr & Hn & Hk). cbn [fst snd] in *. unfold bisect_body.
    destruct (Z.ltb_spec lo hi).
    + set (mid := (lo + hi) / 2).
      assert (lo <= mid < hi) as Hmid.
      { subst mid. split; [apply Z.div_le_lower_bound|apply Z.div_lt_upper_bound]; lia. }
      destruct (lookup_lt_is_Some_2 a (Z.to_nat mid)) as [ym Hym]; [lia|].
      rewrite py_index_nonneg, Hym by lia. cbn [default from_option id].
      destruct (Z.ltb_spec x ym); cbn [fst snd]; (split; [|lia]); (split; [lia|split; [lia|]]);
        intros k y Hy; destruct (Hk k y Hy); (split; [intros|intros]); auto.
      * apply (Z.lt_le_trans _ ym); [done|]. apply (Hmono (Z.to_nat mid) k); [done|done|lia].
      * apply (Z.le_trans _ ym); [|done]. apply (Hmono k (Z.to_nat mid)); [done|done|lia].
    + split; [lia|]. intros k y Hy. destruct (Hk k y Hy). split; intros; auto with lia.
  - cbn [fst snd]. split; [lia|split; [lia|]]. intros k y Hy.
    apply lookup_lt_Some in Hy. lia.
  - cbn. lia.
Qed.

(** [get_block_start] finds the greatest block start at or below the counter. *)
Lemma get_block_start_spec starts pc :
  0 ∈ starts -> 0 <= pc -> (forall s, s ∈ starts -> 0 <= s) ->
  let b := get_block_start (sorted starts) pc in
  b ∈ starts /\ b <= pc /\ forall s, s ∈ starts -> s <= pc -> s <= b.
Proof.
  intros H0 Hpc Hpos.
  assert (forall s, s ∈ sorted starts <-> s ∈ starts) as Hel.
  { intros s. unfold sorted. rewrite merge_sort_Permutation. apply elem_of_elements. }
  assert (StronglySorted Z.le (sorted starts)) as Hss by apply (StronglySorted_merge_sort Z.le _).
  unfold get_block_start, bisect_right.
  destruct (bisect_right_spec (sorted starts) pc Hss) as (i & -> & Hi & Hk).
  apply Hel in H0 as H0'. apply list_elem_of_lookup in H0' as [k0 Hk0].
  assert (0 < i) as Hi0.
  { destruct (Z_lt_le_dec 0 i); [done|]. destruct (Hk k0 0 Hk0) as [_ Hc]. specialize (Hc ltac:(lia)). lia. }
  destruct (Z.leb_spec 0 (i - 1)); [|lia].
  destruct (lookup_lt_is_Some_2 (sorted starts) (Z.to_nat (i - 1))) as [b Hb]; [lia|].
  rewrite py_index_nonneg, Hb by lia. cbn.
  split; [apply Hel; by eapply list_elem_of_lookup_2|].
  split; [apply (Hk (Z.to_nat (i - 1)) b Hb); lia|].
  intros s Hs Hle. apply Hel, list_elem_of_lookup in Hs as [k Hks].
  assert (Z.of_nat k < i) as Hki.
  { destruct (Z_lt_le_dec (Z.of_nat k) i); [done|]. destruct (Hk k s Hks) as [_ Hc].
    specialize (Hc ltac:(lia)). lia. }
  apply (sorted_lookup_le (sorted starts) k (Z.to_nat (i - 1))); [done..|lia].
Qed.

(** ** Static offsets *)

(** The [n] bytes at [offset]. *)
Definition code_slice (code : bytes) (offset n : Z) : bytes :=
  map (fun i => code_at code (offset + i)) (py_range 0 n).

Lemma code_slice_S code offset n :
  0 <= n -> code_slice code offset (n + 1) = code_slice code offset n ++ [code_at code (offset + n)].
Proof.
  intros. unfold code_slice. rewrite (py_range_app 0 n (n + 1)), map_app by lia.
  rewrite (py_range_cons n), (py_range_nil (n + 1)) by lia. done.
Qed.

Lemma code_at_byte code i : List.Forall is_byte code -> is_byte (code_at code i).
Proof.
  intros Hc. unfold code_at, py_index.
  assert (forall k, is_byte (default 0 (code !! k))) as H.
  { intros k. destruct (code !! k) as [b|] eqn:Hk; [|done]. cbn.
    by apply (Forall_lookup_1 _ _ _ _ Hc Hk). }
  repeat case_match; try apply H. done.
Qed.

Lemma code_slice_bytes code offset n :
  List.Forall is_byte code -> List.Forall is_byte (code_slice code offset n).
Proof. intros Hc. apply List.Forall_map, List.Forall_forall. intros. by apply code_at_byte. Qed.

Lemma length_code_slice code offset n : 0 <= n -> Z.of_nat (length (code_slice code offset n)) = n.
Proof. intros. unfold code_slice. rewrite length_map, length_py_range. lia. Qed.

Lemma read_unsigned_le code offset (n : nat) :
  List.Forall is_byte code ->
  read_unsigned code offset (Z.of_nat n) = le_int (code_slice code offset (Z.of_nat n)).
Proof.
  intros Hc. induction n as [|n IH]; [done|].
  replace (Z.of_nat (S n)) with (Z.of_nat n + 1) by lia.
  rewrite code_slice_S by lia. unfold read_unsigned in *.
  rewrite (py_range_app 0 (Z.of_nat n)) by lia.
  rewrite fold_left_app, IH, (py_range_cons (Z.of_nat n)), (py_range_nil (_ + 1)) by lia.
  cbn [fold_left]. rewrite Z.shiftl_mul_pow2 by lia.
  rewrite (lor_low_high _ _ (8 * Z.of_nat n)); [|lia| |apply Z.mod_mul; lia].
  - rewrite le_int_app, length_code_slice by lia. cbn [le_int].
    rewrite (Z.pow_mul_r 2 8) by lia. change (2 ^ 8) with 256. lia.
  - pose proof (le_int_range _ (code_slice_bytes code offset (Z.of_nat n) Hc)) as Hr.
    rewrite length_code_slice in Hr by lia. rewrite (Z.pow_mul_r 2 8) by lia. done.
Qed.

(** A static offset is the two's complement reading of its bytes. *)
Theorem read_signed_offset_spec code offset length :
  List.Forall is_byte code -> 0 < length -> offset + length <= blen code ->
  _read_signed_offset code offset length
  = signed (8 * length) (le_int (code_slice code offset length)).
Proof.
  intros Hc Hl Hb. unfold _read_signed_offset.
  destruct (Z.leb_spec length 0), (Z.ltb_spec (blen code) (offset + length)); try lia. cbn [orb].
  pose proof (read_unsigned_le code offset (Z.to_nat length) Hc) as Hr.
  rewrite Z2Nat.id in Hr by lia. rewrite Hr. unfold signed.
  pose proof (le_int_range _ (code_slice_bytes code offset length Hc)) as Hrange.
  rewrite length_code_slice in Hrange by lia. change 256 with (2 ^ 8) in Hrange.
  rewrite <-Z.pow_mul_r in Hrange by lia.
  rewrite Z.mod_small by done. rewrite !Z.shiftl_1_l.
  destruct (Z.leb_spec (2 ^ (8 * length - 1)) (le_int (code_slice code offset length))),
    (Z.ltb_spec (le_int (code_slice code offset length)) (2 ^ (8 * length - 1))); lia.
Qed.

(** ** The properties *)

(** The decoder computes exactly the reading of the blob that [decodes]
    specifies, accepts it when the reading covers the whole blob and ends with a
    block terminator, and refuses an empty blob or a bitmask of another
    length. *)
Theorem decode_instructions_correct code bitmask :
  ((code = [] \/ length bitmask <> length code) /\
   decode_instructions code bitmask = (∅, [], false)) \/
  (code <> [] /\ length bitmask = length code /\
   exists insts whole, decodes code bitmask 0 insts whole /\
     decode_instructions code bitmask =
       (number_from 0 insts ∅, map snd insts, whole && ends_block code None insts)).
Proof.
  destruct (decide (code = [])) as [->|Hne]; [by left; split; [left|]|].
  destruct (decide (length bitmask = length code)) as [Hl|Hl].
  - right. split; [done|]. split; [done|]. by apply decode_spec.
  - left. split; [by right|]. unfold decode_instructions, blen.
    destruct (Z.eqb_spec (Z.of_nat (length code)) (Z.of_nat (length bitmask))); [lia|].
    by rewrite orb_true_r.
Qed.

(** In accepted code the recorded positions are exactly the flagged ones, every
    one holds a valid opcode with its skip distance, and execution that falls
    through always reaches another instruction: only a block terminator can be
    the last. *)
Theorem accepted_code_tables code bitmask positions lengths :
  decode_instructions code bitmask = (positions, lengths, true) ->
  valid_tables code bitmask positions lengths /\
  forall pc index l, positions !! pc = Some index -> py_index lengths index = Some l ->
    is_termination (code_at code pc) = false -> is_Some (positions !! (pc + l + 1)).
Proof.
  intros Hdec. pose proof (decode_valid_instructions _ _ _ _ Hdec) as Hvt. split; [done|].
  intros pc index l. by apply (valid_tables_next code bitmask).
Qed.

(** Block detection never fails on accepted code: the blocks start at entry zero
    and at the instructions that follow a terminator; and the binary search over
    the sorted starts finds the block that contains a counter. *)
Theorem block_starts_correct code bitmask positions lengths :
  decode_instructions code bitmask = (positions, lengths, true) ->
  exists starts, detect_basic_blocks code (blen code) positions lengths = Ret starts /\
    (forall s, s ∈ starts <->
      s = 0 \/
      exists pc l, py_index lengths (default 0 (positions !! pc)) = Some l /\
        is_Some (positions !! pc) /\ is_termination (code_at code pc) = true /\
        s = pc + l + 1 /\ s < blen code) /\
    forall pc, 0 <= pc ->
      let b := get_block_start (sorted starts) pc in
      b ∈ starts /\ b <= pc /\ forall s, s ∈ starts -> s <= pc -> s <= b.
Proof.
  intros Hdec. destruct (detect_spec _ _ _ _ Hdec) as (starts & Hd & H0 & Hs).
  exists starts. split; [done|]. split; [done|]. intros pc Hpc. apply get_block_start_spec; [done..|].
  pose proof (decode_valid_instructions _ _ _ _ Hdec) as [_ Hi _].
  intros s [->|(p & l & Hl & [i Hp] & _ & -> & _)]%Hs; [done|].
  destruct (Hi p i Hp) as (? & _ & l' & Hl' & ? & _). rewrite Hp in Hl. cbn in Hl.
  assert (l' = l) by congruence. lia.
Qed.

(** *** Witnesses *)

(** [load_imm], [trap], [fallthrough] *)
Definition demo_blob : bytes := [51; 7; 5; 0; 1].
Definition demo_bitmask : list bool := [true; false; false; true; true].

Lemma accepted_code_tables_witness :
  exists positions lengths, decode_instructions demo_blob demo_bitmask = (positions, lengths, true) /\
    valid_tables demo_blob demo_bitmask positions lengths.
Proof.
  destruct (decode_instructions demo_blob demo_bitmask) as [[positions lengths] valid] eqn:Hd.
  assert (valid = true) as ->.
  { change valid with (snd (positions, lengths, valid)). rewrite <-Hd. vm_compute. reflexivity. }
  exists positions, lengths. split; [reflexivity|].
  apply (accepted_code_tables demo_blob demo_bitmask positions lengths Hd).
Defined.

Lemma block_starts_correct_witness :
  exists starts, detect_basic_blocks demo_blob 5
      (fst (fst (decode_instructions demo_blob demo_bitmask)))
      (snd (fst (decode_instructions demo_blob demo_bitmask))) = Ret starts /\ 0 ∈ starts.
Proof.
  destruct (block_starts_correct demo_blob demo_bitmask
    (fst (fst (decode_instructions demo_blob demo_bitmask)))
    (snd (fst (decode_instructions demo_blob demo_bitmask)))) as (starts & Hd & Hs & _).
  - vm_compute. reflexivity.
  - exists starts. split; [exact Hd|]. apply Hs. by left.
Defined.

Lemma read_signed_offset_spec_witness :
  _read_signed_offset [40; 254; 255] 1 2 = -2.
Proof.
  rewrite (read_signed_offset_spec [40; 254; 255] 1 2).
  - vm_compute. reflexivity.
  - repeat constructor; unfold is_byte; lia.
  - lia.
  - vm_compute. congruence.
Defined.
