(* ===== verification/GasModel.v ===== *)
(** * The gas cost of a basic block

    [pvm/gas_model.py]: the cost table, the registers an instruction reads and
    writes, the cost of an instruction and the simulation of a basic block on an
    out-of-order pipeline.

    A reorder entry is a shared object in the code: the dependencies of an entry
    are references to older entries.  Here every entry has a number, its place
    in the order of allocation; the entries deleted from the front of [rob] are
    kept in [g_gone], so that entry [k] is the [k]-th of [g_gone ++ g_rob].

    [cost_rules_total] states that the table covers exactly the opcodes, each
    once.  [calculate_block_gas_total] states that the simulation of a block of
    accepted code ends with a positive cost: the number of turns is bounded by a
    potential of 110 per byte left to decode ([gas_potential]). *)

From Stdlib Require Import ZArith Lia Bool List.
From stdpp Require Import base numbers option list gmap.
From S2P Require Import Prelude Constants Defs BasicBlock.
Import ListNotations.

#[local] Open Scope Z_scope.
#[local] Open Scope py_scope.

(** ** Execution units, in the order A, L, S, M, D *)

Record Units : Type := mkUnits { uA : Z; uL : Z; uS : Z; uM : Z; uD : Z }.

Definition _ALU : Units := mkUnits 1 0 0 0 0.
Definition _NONE : Units := mkUnits 0 0 0 0 0.
Definition _LOAD : Units := mkUnits 1 1 0 0 0.
Definition _STORE : Units := mkUnits 1 0 1 0 0.
Definition _MULTIPLY : Units := mkUnits 1 0 0 1 0.
Definition _DIVIDE : Units := mkUnits 1 0 0 0 1.
Definition all_units : Units := mkUnits 4 4 4 1 1.

Definition units_add (u v : Units) : Units :=
  mkUnits (uA u + uA v) (uL u + uL v) (uS u + uS v) (uM u + uM v) (uD u + uD v).
Definition units_sub (u v : Units) : Units :=
  mkUnits (uA u - uA v) (uL u - uL v) (uS u - uS v) (uM u - uM v) (uD u - uD v).
Definition units_fit (wanted available : Units) : bool :=
  (uA wanted <=? uA available) && (uL wanted <=? uL available) &&
  (uS wanted <=? uS available) && (uM wanted <=? uM available) &&
  (uD wanted <=? uD available).

Inductive entry_state : Type := _DEC | _WAIT | _EXE | _FIN.
#[export] Instance entry_state_eq_dec : EqDecision entry_state.
Proof. solve_decision. Defined.

Record InstructionCost : Type := mkCost {
  ic_cycles : Z; ic_decode_slots : Z; ic_units : Units
}.

Record CostRule : Type := mkRule {
  cycles : Z;
  decode_slots : Z;
  rule_units : Units;
  overlap_slots : option Z;
  first_source_only : bool
}.

(** ** The cost table *)

Section table.
Import Opcode.

Definition _cost_rules : list (list Opcode.t * CostRule) :=
  [ ([move_reg], mkRule 0 1 _NONE None false);
    ([_and; xor; _or; add_64; sub_64], mkRule 1 2 _ALU (Some 1) false);
    ([add_32; sub_32], mkRule 2 3 _ALU (Some 2) false);
    ([and_imm; xor_imm; or_imm; add_imm_64; shlo_r_imm_64; shar_r_imm_64;
      shlo_l_imm_64; rot_r_64_imm; reverse_bytes], mkRule 1 2 _ALU (Some 1) false);
    ([add_imm_32; shlo_r_imm_32; shar_r_imm_32; shlo_l_imm_32; rot_r_32_imm],
      mkRule 2 3 _ALU (Some 2) false);
    ([count_set_bits_64; count_set_bits_32; leading_zero_bits_64;
      leading_zero_bits_32; sign_extend_8; sign_extend_16; zero_extend_16],
      mkRule 1 1 _ALU None false);
    ([trailing_zero_bits_64; trailing_zero_bits_32],
      mkRule 2 1 (mkUnits 2 0 0 0 0) None false);
    ([shlo_l_64; shlo_r_64; shar_r_64; rot_l_64; rot_r_64], mkRule 1 3 _ALU (Some 2) true);
    ([shlo_l_32; shlo_r_32; shar_r_32; rot_l_32; rot_r_32], mkRule 2 4 _ALU (Some 3) true);
    ([shlo_l_imm_alt_64; shlo_r_imm_alt_64; shar_r_imm_alt_64; rot_r_64_imm_alt],
      mkRule 1 3 _ALU None false);
    ([shlo_l_imm_alt_32; shlo_r_imm_alt_32; shar_r_imm_alt_32; rot_r_32_imm_alt],
      mkRule 2 4 _ALU None false);
    ([set_lt_u; set_lt_s; set_lt_u_imm; set_lt_s_imm; set_gt_u_imm; set_gt_s_imm],
      mkRule 3 3 _ALU None false);
    ([cmov_iz; cmov_nz], mkRule 2 2 _ALU None false);
    ([cmov_iz_imm; cmov_nz_imm], mkRule 2 3 _ALU None false);
    ([_max; max_u; _min; min_u], mkRule 3 3 _ALU (Some 2) false);
    ([load_ind_u8; load_ind_i8; load_ind_u16; load_ind_i16; load_ind_u32;
      load_ind_i32; load_ind_u64; load_u8; load_i8; load_u16; load_i16;
      load_u32; load_i32; load_u64], mkRule 25 1 _LOAD None false);
    ([store_imm_ind_u8; store_imm_ind_u16; store_imm_ind_u32; store_imm_ind_u64;
      store_ind_u8; store_ind_u16; store_ind_u32; store_ind_u64;
      store_imm_u8; store_imm_u16; store_imm_u32; store_imm_u64;
      store_u8; store_u16; store_u32; store_u64], mkRule 25 1 _STORE None false);
    ([branch_eq; branch_ne; branch_lt_u; branch_lt_s; branch_ge_u; branch_ge_s;
      branch_eq_imm; branch_ne_imm; branch_lt_u_imm; branch_le_u_imm;
      branch_ge_u_imm; branch_gt_u_imm; branch_lt_s_imm; branch_le_s_imm;
      branch_ge_s_imm; branch_gt_s_imm], mkRule 20 1 _ALU None false);
    ([div_u_32; div_s_32; rem_u_32; rem_s_32; div_u_64; div_s_64; rem_u_64; rem_s_64],
      mkRule 60 4 _DIVIDE None false);
    ([and_inv; or_inv; neg_add_imm_64], mkRule 2 3 _ALU None false);
    ([xnor], mkRule 2 3 _ALU (Some 2) false);
    ([neg_add_imm_32], mkRule 3 4 _ALU None false);
    ([load_imm], mkRule 1 1 _NONE None false);
    ([load_imm_64], mkRule 1 2 _NONE None false);
    ([mul_64; mul_imm_64], mkRule 3 2 _MULTIPLY (Some 1) false);
    ([mul_32; mul_imm_32], mkRule 4 3 _MULTIPLY (Some 2) false);
    ([mul_upper_s_s; mul_upper_u_u], mkRule 4 4 _MULTIPLY None false);
    ([mul_upper_s_u], mkRule 6 4 _MULTIPLY None false);
    ([trap; fallthrough], mkRule 2 1 _NONE None false);
    ([unlikely], mkRule 40 1 _NONE None false);
    ([jump; load_imm_jump], mkRule 15 1 _NONE None false);
    ([jump_ind; load_imm_jump_ind], mkRule 22 1 _NONE None false);
    ([ecalli], mkRule 100 4 _ALU None false) ].
End table.

(** The dictionary lookup. *)
Definition _COSTS (opcode : Z) : option CostRule :=
  snd <$> List.find (fun row => existsb (fun o => Opcode.value o =? opcode) row.1) _cost_rules.

(** [opcode in _CONDITIONAL_MOVES], [opcode in _CONDITIONAL_IMMEDIATES] *)
Definition is_cmov (opcode : Z) : bool :=
  (opcode =? Opcode.value Opcode.cmov_iz) || (opcode =? Opcode.value Opcode.cmov_nz).
Definition is_cmov_imm (opcode : Z) : bool :=
  (opcode =? Opcode.value Opcode.cmov_iz_imm) || (opcode =? Opcode.value Opcode.cmov_nz_imm).

(** ** Instructions *)

Definition _byte (code : bytes) (index : Z) : Z :=
  if (0 <=? index) && (index <? blen code) then code_at code index else 0.

(** Source and destination register masks. *)
Definition instruction_registers (code : bytes) (pc : Z) (polkavm_cmov : bool)
  : outcome exn (Z * Z) :=
  let opcode := _byte code pc in
  match Opcode.of_Z opcode, _COSTS opcode with
  | Some o, Some _ =>
      let scheme := OpcodeScheme o in
      let first := _byte code (pc + 1) in
      let low := Z.min 12 (first .& 15) in
      let high := Z.min 12 (first ≫ 4) in
      let a := 1 ≪ low in
      let b := 1 ≪ high in
      match scheme with
      | InstructionType.none | InstructionType.imm
      | InstructionType.imm_imm | InstructionType.offset => Ret (0, 0)
      | InstructionType.reg_ext_imm => Ret (0, a)
      | InstructionType.reg_imm =>
          if (opcode =? Opcode.value Opcode.jump_ind)
             || ((Opcode.value Opcode.store_u8 <=? opcode)
                 && (opcode <=? Opcode.value Opcode.store_u64))
          then Ret (a, 0) else Ret (0, a)
      | InstructionType.reg_imm_imm => Ret (a, 0)
      | InstructionType.reg_imm_offset =>
          if opcode =? Opcode.value Opcode.load_imm_jump then Ret (0, a) else Ret (a, 0)
      | InstructionType.reg_reg => Ret (b, a)
      | InstructionType.reg_reg_imm =>
          if (Opcode.value Opcode.store_ind_u8 <=? opcode)
             && (opcode <=? Opcode.value Opcode.store_ind_u64)
          then Ret (a .| b, 0)
          else Ret (if is_cmov_imm opcode && negb polkavm_cmov then a .| b else b, a)
      | InstructionType.reg_reg_offset => Ret (a .| b, 0)
      | InstructionType.reg_reg_imm_imm => Ret (b, a)
      | InstructionType.reg_reg_reg =>
          let dest := 1 ≪ Z.min 12 (_byte code (pc + 2)) in
          Ret (if is_cmov opcode && negb polkavm_cmov then (a .| b) .| dest else a .| b, dest)
      end
  | _, _ => Raise PyException
  end.

Definition _signed_offset (code : bytes) (start size : Z) : Z :=
  if negb (truthy size) then 0
  else
    let value := fold_left (fun acc i => acc + _byte code (start + i) ≪ (8 * i))
                           (py_range 0 size) 0 in
    if truthy (value .& (1 ≪ (8 * size - 1))) then value - 1 ≪ (8 * size) else value.

(** [in (Opcode.trap.value, Opcode.unlikely.value)] *)
Definition trap_or_unlikely (v : Z) : bool :=
  (v =? Opcode.value Opcode.trap) || (v =? Opcode.value Opcode.unlikely).

(** The static target of a conditional branch. *)
Definition branch_target (code : bytes) (pc arg_len opcode : Z) (scheme : InstructionType.t)
  : option Z :=
  match scheme with
  | InstructionType.reg_reg_offset =>
      Some (pc + _signed_offset code (pc + 2) (Z.min 4 (Z.max 0 (arg_len - 1))))
  | InstructionType.reg_imm_offset =>
      if negb (opcode =? Opcode.value Opcode.load_imm_jump) then
        let immediate_len := Z.min 4 ((_byte code (pc + 1) ≫ 4) .& 7) in
        let offset_len := Z.min 4 (Z.max 0 (arg_len - immediate_len - 1)) in
        Some (pc + _signed_offset code (pc + 2 + immediate_len) offset_len)
      else None
  | _ => None
  end.

Definition instruction_cost (code : bytes) (pc arg_len : Z) : outcome exn InstructionCost :=
  let opcode := _byte code pc in
  match Opcode.of_Z opcode, _COSTS opcode with
  | Some o, Some rule =>
      slots ←
        match overlap_slots rule with
        | None => Ret (decode_slots rule)
        | Some overlap =>
            regs ← instruction_registers code pc false;
            let sources := if first_source_only rule
                           then 1 ≪ Z.min 12 (_byte code (pc + 1) .& 15) else regs.1 in
            Ret (if truthy (sources .& regs.2) then overlap else decode_slots rule)
        end;
      match branch_target code pc arg_len opcode (OpcodeScheme o) with
      | None => Ret (mkCost (cycles rule) slots (rule_units rule))
      | Some target =>
          let cycles := if trap_or_unlikely (_byte code target)
                           || trap_or_unlikely (_byte code (pc + 1 + arg_len))
                        then 1 else cycles rule in
          Ret (mkCost cycles slots (rule_units rule))
      end
  | _, _ => Raise PyException
  end.

(** ** The pipeline *)

Record Entry : Type := mkEntry {
  e_state : entry_state;
  e_cycles_left : Z;
  e_dependencies : list nat;
  e_registers : Z;
  e_units : Units;
  e_pc : Z
}.

Definition set_registers (e : Entry) (r : Z) : Entry :=
  mkEntry (e_state e) (e_cycles_left e) (e_dependencies e) r (e_units e) (e_pc e).

Record GasState : Type := mkGas {
  g_pc : option Z;
  g_cycles : Z;
  g_decode_slots : Z;
  g_starts_left : Z;
  g_units : Units;
  g_gone : list Entry;
  g_rob : list Entry
}.

(** The dependency with this number has no cycle left. *)
Definition dep_done (entries : list Entry) (d : nat) : bool :=
  match entries !! d with Some e => e_cycles_left e =? 0 | None => false end.

Definition is_ready (entries : list Entry) (units : Units) (e : Entry) : bool :=
  bool_decide (e_state e = _WAIT) && units_fit (e_units e) units
  && forallb (dep_done entries) (e_dependencies e).

(** [next((entry for entry in rob if ...), None)], as the entries before the
    first ready one, that one and those after it. *)
Fixpoint split_ready (entries : list Entry) (units : Units) (rob : list Entry)
  : option (list Entry * Entry * list Entry) :=
  match rob with
  | [] => None
  | e :: rob =>
      if is_ready entries units e then Some ([], e, rob)
      else match split_ready entries units rob with
           | Some (before, r, after) => Some (e :: before, r, after)
           | None => None
           end
  end.

Definition start_entry (e : Entry) : Entry :=
  mkEntry _EXE (e_cycles_left e) [] (e_registers e) (e_units e) (e_pc e).

(** The numbers of the entries of [rob] that hold a source register. *)
Fixpoint dependencies_on (sources : Z) (k : nat) (rob : list Entry) : list nat :=
  match rob with
  | [] => []
  | e :: rob => (if truthy (e_registers e .& sources) then [k] else [])
                ++ dependencies_on sources (S k) rob
  end.

(** The decoding branch, once the instruction fits the decode slots. *)
Definition decode_instruction (code : bytes) (polkavm_cmov : bool) (pc arg_len : Z)
  (cost : InstructionCost) (s : GasState) : outcome exn GasState :=
  regs ← instruction_registers code pc polkavm_cmov;
  let '(sources, destinations) := regs : Z * Z in
  let opcode := _byte code pc in
  let rob :=
    if opcode =? Opcode.value Opcode.move_reg then
      map (fun e => set_registers e
             (if truthy (e_registers e .& sources) then e_registers e .| destinations
              else e_registers e .& Z.lnot destinations)) (g_rob s)
    else
      map (fun e => set_registers e (e_registers e .& Z.lnot destinations)) (g_rob s)
      ++ [mkEntry _DEC (ic_cycles cost)
            (dependencies_on sources (length (g_gone s)) (g_rob s))
            destinations (ic_units cost) pc] in
  Ret (mkGas (if is_termination opcode then None else Some (pc + 1 + arg_len))
             (g_cycles s) (g_decode_slots s - ic_decode_slots cost) (g_starts_left s)
             (g_units s) (g_gone s) rob).

(** The first branch of the loop: [None] falls through to the next one. *)
Definition try_decode (code : bytes) (inst_pos : gmap Z Z) (inst_arg_len : list Z)
  (polkavm_cmov : bool) (s : GasState) : outcome exn (option GasState) :=
  match g_pc s with
  | Some pc =>
      if Z.of_nat (length (g_rob s)) <? 32 then
        arg_len ← match inst_pos !! pc with
                  | Some i => arg_len_at inst_arg_len i
                  | None => Raise PyException
                  end;
        if negb ((0 <=? arg_len) && (arg_len <=? 24)) then Raise PyException
        else
          cost ← instruction_cost code pc arg_len;
          if ic_decode_slots cost <=? g_decode_slots s
          then Some <$> decode_instruction code polkavm_cmov pc arg_len cost s
          else Ret None
      else Ret None
  | None => Ret None
  end.
Definition try_start (s : GasState) : option GasState :=
  if truthy (g_starts_left s) then
    match split_ready (g_gone s ++ g_rob s) (g_units s) (g_rob s) with
    | Some (before, ready, after) =>
        Some (mkGas (g_pc s) (g_cycles s) (g_decode_slots s) (g_starts_left s - 1)
                (units_sub (g_units s) (e_units ready)) (g_gone s)
                (before ++ start_entry ready :: after))
    | None => None
    end
  else None.

(** The retired prefix. *)
Fixpoint take_finished (rob : list Entry) : list Entry * list Entry :=
  match rob with
  | [] => ([], [])
  | e :: rest =>
      if bool_decide (e_state e = _FIN)
      then let '(gone, rob) := take_finished rest in (e :: gone, rob)
      else ([], rob)
  end.

Definition tick_entry (e : Entry) : Entry :=
  match e_state e with
  | _DEC => mkEntry _WAIT (e_cycles_left e) (e_dependencies e) (e_registers e) (e_units e) (e_pc e)
  | _EXE =>
      if e_cycles_left e =? 0
      then mkEntry _FIN (e_cycles_left e) (e_dependencies e) (e_registers e) (e_units e) (e_pc e)
      else mkEntry _EXE (e_cycles_left e - 1) (e_dependencies e) (e_registers e) (e_units e) (e_pc e)
  | _ => e
  end.

Definition released (units : Units) (e : Entry) : Units :=
  if bool_decide (e_state e = _EXE) && (e_cycles_left e =? 1)
  then units_add units (e_units e) else units.

Definition tick (s : GasState) : GasState :=
  let '(retired, rob) := take_finished (g_rob s) in
  mkGas (g_pc s) (g_cycles s + 1) 4 5 (fold_left released rob (g_units s))
        (g_gone s ++ retired) (map tick_entry rob).

Definition gas_body (code : bytes) (inst_pos : gmap Z Z) (inst_arg_len : list Z)
  (polkavm_cmov : bool) (s : GasState) : GasState + outcome exn Z :=
  match try_decode code inst_pos inst_arg_len polkavm_cmov s with
  | Raise e => inr (Raise e)
  | Ret (Some s') => inl s'
  | Ret None =>
      match try_start s with
      | Some s' => inl s'
      | None =>
          match g_pc s, g_rob s with
          | None, [] => inr (Ret (Z.max (g_cycles s - 3) 1))
          | _, _ => inl (tick s)
          end
      end
  end.

(** The turns never exceed [110 * (len(code) + 1) + 2]
    ([calculate_block_gas_total]); running out of them is [None]. *)
Definition gas_fuel (code : bytes) : positive := Z.to_pos (110 * (blen code + 1) + 2).

Definition initial_gas (start : Z) : GasState := mkGas (Some start) 0 4 5 all_units [] [].

Definition calculate_block_gas (code : bytes) (inst_pos : gmap Z Z) (inst_arg_len : list Z)
  (start : Z) (polkavm_cmov : bool) : option (outcome exn Z) :=
  if negb (bool_decide (is_Some (inst_pos !! start))) || (start <? 0) then Some (Raise PyException)
  else
    match ploop (gas_fuel code) (gas_body code inst_pos inst_arg_len polkavm_cmov)
                (initial_gas start) with
    | inr r => Some r
    | inl _ => None
    end.

(** [GasModel.compute_block_gas_cost] *)
Record GasModel : Type := mkGasModel {
  sim_code : bytes;
  inst_pos_sim : gmap Z Z;
  inst_arg_len_sim : list Z
}.

Definition compute_block_gas_cost (g : GasModel) (block_start_pc : Z) (polkavm_cmov : bool)
  : option (outcome exn Z) :=
  calculate_block_gas (sim_code g) (inst_pos_sim g) (inst_arg_len_sim g) block_start_pc
    polkavm_cmov.

(** * Properties *)

(** ** The table *)

Lemma cost_row_find v row :
  List.find (fun row : list Opcode.t * CostRule => existsb (fun o => Opcode.value o =? v) row.1)
    _cost_rules = Some row ->
  In row _cost_rules /\ is_valid_opcode v = true.
Proof.
  intros H. apply find_some in H as [Hin (o & _ & Ho)%existsb_exists]. split; [done|].
  apply Z.eqb_eq in Ho as <-. unfold is_valid_opcode. by rewrite Opcode.of_Z_value.
Qed.

(** The table gives every opcode of the enumeration exactly one row, and no
    other number a row: [add] never raises and no lookup of a valid opcode
    fails. *)
Lemma cost_rules_total :
  NoDup (concat (map fst _cost_rules)) /\
  forall v, is_Some (_COSTS v) <-> is_valid_opcode v = true.
Proof.
  split.
  - apply (NoDup_fmap_1 Opcode.value). apply (bool_decide_eq_true_1 (NoDup _)).
    vm_compute. reflexivity.
  - intros v. unfold _COSTS. split.
    + intros [r Hr]. apply fmap_Some in Hr as (row & Hf & _). by apply cost_row_find in Hf as [_ ?].
    + unfold is_valid_opcode. destruct (Opcode.of_Z v) as [o|] eqn:Ho; [|done].
      intros _. apply opcode_value_of_Z in Ho as <-. destruct o; vm_compute; by eexists.
Qed.

Definition units_bounded (u : Units) : bool :=
  units_fit _NONE u && units_fit u all_units.

(** What the simulation needs of a row. *)
Definition row_ok (row : list Opcode.t * CostRule) : bool :=
  let r := row.2 in
  (0 <=? cycles r) && (cycles r <=? 100) && (1 <=? decode_slots r) && (decode_slots r <=? 4)
  && match overlap_slots r with Some n => (1 <=? n) && (n <=? 4) | None => true end
  && units_bounded (rule_units r)
  && ((1 <=? cycles r) || forallb (fun o => Opcode.value o =? Opcode.value Opcode.move_reg) row.1).

Lemma rows_ok : forallb row_ok _cost_rules = true.
Proof. vm_compute. reflexivity. Qed.

Record cost_ok (code : bytes) (pc : Z) (c : InstructionCost) : Prop := {
  co_slots : 1 <= ic_decode_slots c <= 4;
  co_cycles : 0 <= ic_cycles c <= 100;
  co_units : units_bounded (ic_units c) = true;
  co_pos : (_byte code pc =? Opcode.value Opcode.move_reg) = false -> 1 <= ic_cycles c
}.

Lemma instruction_registers_total code pc b :
  is_valid_opcode (_byte code pc) = true ->
  exists s d, instruction_registers code pc b = Ret (s, d).
Proof.
  intros Hv. unfold instruction_registers.
  destruct (proj2 (proj2 cost_rules_total (_byte code pc)) Hv) as [r ->].
  unfold is_valid_opcode in Hv. destruct (Opcode.of_Z _) as [o|]; [|done].
  destruct (OpcodeScheme o); repeat case_match; by eauto.
Qed.

Lemma instruction_cost_ok code pc arg_len :
  is_valid_opcode (_byte code pc) = true ->
  exists c, instruction_cost code pc arg_len = Ret c /\ cost_ok code pc c.
Proof.
  intros Hv. unfold instruction_cost.
  destruct (proj2 (proj2 cost_rules_total (_byte code pc)) Hv) as [r Hr]. rewrite Hr.
  destruct (instruction_registers_total code pc false Hv) as (s & d & ->).
  unfold is_valid_opcode in Hv. destruct (Opcode.of_Z _) as [o|] eqn:Ho; [|done]. cbn.
  unfold _COSTS in Hr. apply fmap_Some in Hr as ([ops rule] & Hf & ->). cbn.
  pose proof (find_some _ _ Hf) as [Hin Hop]. cbn in Hop.
  pose proof (proj1 (forallb_forall _ _) rows_ok _ Hin) as Hok.
  unfold row_ok in Hok. cbn in Hok. rewrite !andb_true_iff, !Z.leb_le in Hok.
  destruct Hok as [[[[[[? ?] ?] ?] Hov] Hu] Hpos].
  set (slots := match overlap_slots rule with Some overlap => _ | None => _ end).
  assert (exists n, slots = Ret n /\ 1 <= n <= 4) as (n & -> & Hn).
  { subst slots. destruct (overlap_slots rule) as [k|]; [|by eauto].
    rewrite andb_true_iff, !Z.leb_le in Hov. case_match; eauto. }
  cbn. assert ((_byte code pc =? Opcode.value Opcode.move_reg) = false -> 1 <= cycles rule) as Hp.
  { intros Hm. apply orb_true_iff in Hpos as [Hc|Hm']; [lia|].
    apply existsb_exists in Hop as (o' & Hin' & Heq).
    rewrite forallb_forall in Hm'. specialize (Hm' _ Hin').
    apply Z.eqb_eq in Heq, Hm'. apply Z.eqb_neq in Hm. destruct Hm. by rewrite <-Heq. }
  assert (0 <= cycles rule <= 100) as Hcy by lia.
  destruct (branch_target _ _ _ _ _) as [target|]; eexists; (split; [done|]); split; cbn;
    try done; try exact Hp; clear Hpos;
    destruct (trap_or_unlikely _), (trap_or_unlikely _); cbn; try lia; try exact Hp; intros; lia.
Qed.

(** ** The pipeline invariant *)

Definition held (e : Entry) : Units :=
  if bool_decide (e_state e = _EXE) && (1 <=? e_cycles_left e) then e_units e else _NONE.
Fixpoint units_held (rob : list Entry) : Units :=
  match rob with [] => _NONE | e :: rob => units_add (held e) (units_held rob) end.

Record entry_ok (e : Entry) : Prop := {
  eo_units : units_bounded (e_units e) = true;
  eo_cycles : match e_state e with
              | _DEC | _WAIT => 1 <= e_cycles_left e <= 100
              | _EXE => 0 <= e_cycles_left e <= 100
              | _FIN => e_cycles_left e = 0
              end
}.

(** Every entry depends on older ones only. *)
Definition deps_ok (k : nat) (rob : list Entry) : Prop :=
  forall i e d, rob !! i = Some e -> d ∈ e_dependencies e -> (d < k + i)%nat.

Record gas_inv (s : GasState) : Prop := {
  gi_entries : List.Forall entry_ok (g_rob s);
  gi_gone : List.Forall (fun e => e_cycles_left e = 0) (g_gone s);
  gi_deps : deps_ok (length (g_gone s)) (g_rob s);
  gi_units : units_add (g_units s) (units_held (g_rob s)) = all_units;
  gi_starts : 0 <= g_starts_left s <= 5 /\
    (g_starts_left s = 5 \/ exists e, e ∈ g_rob s /\ e_state e = _EXE);
  gi_slots : 0 <= g_decode_slots s <= 4;
  gi_cycles : 0 <= g_cycles s
}.

Definition weight (e : Entry) : Z :=
  match e_state e with
  | _DEC => e_cycles_left e + 4
  | _WAIT => e_cycles_left e + 3
  | _EXE => e_cycles_left e + 2
  | _FIN => 1
  end.
Fixpoint weights (rob : list Entry) : Z :=
  match rob with [] => 0 | e :: rob => weight e + weights rob end.

Definition left_to_decode (code : bytes) (pc : option Z) : Z :=
  match pc with Some p => Z.max 0 (blen code - p) + 1 | None => 0 end.

Definition slots_used (slots : Z) : Z := if slots <? 4 then 1 else 0.

Lemma slots_used_range n : 0 <= slots_used n <= 1.
Proof. unfold slots_used. destruct (n <? 4); lia. Qed.

(** The potential every turn of the simulation lowers. *)
Definition gas_potential (code : bytes) (s : GasState) : Z :=
  110 * left_to_decode code (g_pc s) + weights (g_rob s)
  + slots_used (g_decode_slots s).

Lemma units_add_comm u v : units_add u v = units_add v u.
Proof. destruct u, v. unfold units_add. cbn. f_equal; lia. Qed.
Lemma units_add_assoc u v w : units_add u (units_add v w) = units_add (units_add u v) w.
Proof. destruct u, v, w. unfold units_add. cbn. f_equal; lia. Qed.
Lemma units_add_none u : units_add u _NONE = u.
Proof. destruct u. unfold units_add. cbn. f_equal; lia. Qed.
Lemma units_sub_add u v w : units_add (units_sub u v) (units_add v w) = units_add u w.
Proof. destruct u, v, w. unfold units_add, units_sub. cbn. f_equal; lia. Qed.

Lemma units_held_app a b : units_held (a ++ b) = units_add (units_held a) (units_held b).
Proof.
  induction a as [|e a IH]; cbn; [by rewrite units_add_comm, units_add_none|].
  by rewrite IH, units_add_assoc.
Qed.

Lemma weights_app a b : weights (a ++ b) = weights a + weights b.
Proof. induction a as [|e a IH]; cbn; [done|]. rewrite IH. lia. Qed.

Lemma weight_pos e : entry_ok e -> 1 <= weight e <= 104.
Proof. intros [_ H]. unfold weight. destruct (e_state e); lia. Qed.

Lemma weights_nonneg rob : List.Forall entry_ok rob -> 0 <= weights rob.
Proof. induction 1 as [|e rob He _ IH]; cbn; [lia|]. apply weight_pos in He. lia. Qed.

(** Changing the registers of entries changes nothing else. *)
Lemma entry_ok_registers e r : entry_ok e -> entry_ok (set_registers e r).
Proof. by intros [? ?]. Qed.

Section registers.
Context (f : Entry -> Z).
Let g e := set_registers e (f e).

Lemma units_held_registers rob : units_held (map g rob) = units_held rob.
Proof using. induction rob as [|e rob IH]; cbn; [done|]. by rewrite IH. Qed.
Lemma weights_registers rob : weights (map g rob) = weights rob.
Proof using. induction rob as [|e rob IH]; cbn; [done|]. by rewrite IH. Qed.
Lemma entries_registers rob : List.Forall entry_ok rob -> List.Forall entry_ok (map g rob).
Proof using. intros H. apply List.Forall_map. eapply List.Forall_impl; [|exact H].
  intros e. apply entry_ok_registers. Qed.
Lemma deps_registers k rob : deps_ok k rob -> deps_ok k (map g rob).
Proof using.
  intros H i e d Hi Hd. rewrite list_lookup_fmap in Hi.
  destruct (rob !! i) as [e'|] eqn:He; [|done]. cbn in Hi. simplify_eq. by eapply H.
Qed.
Lemma exe_registers rob :
  (exists e, e ∈ rob /\ e_state e = _EXE) -> exists e, e ∈ map g rob /\ e_state e = _EXE.
Proof using. intros (e & He & Hs). exists (g e). split; [|done]. by apply list_elem_of_fmap_2. Qed.
End registers.

(** ** Every turn keeps the invariant and lowers the potential *)

Lemma dependencies_on_range sources rob : forall k d,
  d ∈ dependencies_on sources k rob -> (k <= d < k + length rob)%nat.
Proof.
  induction rob as [|e rob IH]; intros k d Hd; cbn in Hd; [by apply not_elem_of_nil in Hd|].
  apply elem_of_app in Hd as [Hd|Hd]; cbn [length].
  - destruct (truthy _); [|by apply not_elem_of_nil in Hd].
    apply list_elem_of_singleton in Hd. lia.
  - apply IH in Hd. lia.
Qed.

Lemma deps_app k a b : deps_ok k a -> deps_ok (k + length a) b -> deps_ok k (a ++ b).
Proof.
  intros Ha Hb i e d Hi Hd. apply lookup_app_Some in Hi as [Hi|[Hl Hi]]; [by eapply Ha|].
  specialize (Hb _ _ _ Hi Hd). lia.
Qed.

Lemma exe_app_l (a b : list Entry) :
  (exists e, e ∈ a /\ e_state e = _EXE) -> exists e, e ∈ a ++ b /\ e_state e = _EXE.
Proof. intros (e & He & Hs). exists e. split; [|done]. apply elem_of_app. by left. Qed.

Lemma byte_outside code p : ~ (0 <= p < blen code) -> _byte code p = 0.
Proof.
  intros Hp. unfold _byte. destruct (Z.leb_spec 0 p), (Z.ltb_spec p (blen code)); try done. lia.
Qed.

Lemma decode_lowers code p arg_len :
  0 <= arg_len ->
  left_to_decode code (if is_termination (_byte code p) then None else Some (p + 1 + arg_len))
  < left_to_decode code (Some p).
Proof.
  intros Hl. destruct (decide (0 <= p < blen code)) as [Hp|Hp].
  - destruct (is_termination _); cbn [left_to_decode]; lia.
  - rewrite byte_outside by done. change (is_termination 0) with true. cbn [left_to_decode]. lia.
Qed.

Lemma decode_instruction_step code b p arg_len cost s s' :
  gas_inv s -> g_pc s = Some p -> 0 <= arg_len -> cost_ok code p cost ->
  ic_decode_slots cost <= g_decode_slots s ->
  decode_instruction code b p arg_len cost s = Ret s' ->
  gas_inv s' /\ gas_potential code s' < gas_potential code s /\
  g_cycles s' = g_cycles s /\
  g_pc s' = (if is_termination (_byte code p) then None else Some (p + 1 + arg_len)).
Proof.
  intros [He Hg Hd Hu Hs Hsl Hc] Hpc Hl [Cs Cc Cu Cp] Hfit. unfold decode_instruction.
  destruct (instruction_registers code p b) as [[src dst]|]; [|done]. cbn.
  intros [= <-]. pose proof (decode_lowers code p arg_len Hl) as Hlow. rewrite <-Hpc in Hlow.
  unfold gas_potential. cbn [g_pc g_rob g_decode_slots g_cycles].
  pose proof (slots_used_range (g_decode_slots s)).
  pose proof (slots_used_range (g_decode_slots s - ic_decode_slots cost)).
  destruct (_byte code p =? 100) eqn:Hm.
  - rewrite weights_registers. split; [|split; [lia|done]].
    split; cbn; [by apply entries_registers|done|by apply deps_registers
                |by rewrite units_held_registers| |lia|done].
    split; [lia|]. destruct Hs as [_ [?|?]]; [by left|right; by apply exe_registers].
  - specialize (Cp Hm). set (e := mkEntry _ _ _ _ _ _).
    assert (entry_ok e) as Heo by (split; [done|cbn; lia]).
    rewrite weights_app, weights_registers. cbn [weights].
    pose proof (weight_pos e Heo). split; [|split; [lia|done]].
    split; cbn; [| |apply deps_app| | |lia|done].
    + apply Forall_app. split; [by apply entries_registers|]. by apply Forall_singleton.
    + done.
    + by apply deps_registers.
    + rewrite length_map. intros [|i] e' d Hi Hin; [|done]. cbn in Hi. injection Hi as <-.
      cbn in Hin. apply dependencies_on_range in Hin. lia.
    + rewrite units_held_app, units_held_registers. cbn.
      change (held e) with _NONE. by rewrite !units_add_none.
    + split; [lia|]. destruct Hs as [_ [?|?]]; [by left|right].
      by apply exe_app_l, exe_registers.
Qed.

Lemma split_ready_Some entries units rob before ready after :
  split_ready entries units rob = Some (before, ready, after) ->
  rob = before ++ ready :: after /\ is_ready entries units ready = true.
Proof.
  revert before. induction rob as [|e rob IH]; intros before; cbn; [done|].
  destruct (is_ready entries units e) eqn:Hr; [by intros [= <- <- <-]|].
  destruct (split_ready _ _ rob) as [[[b r] a]|] eqn:Hs; [|done].
  intros [= <- <- <-]. destruct (IH b eq_refl) as [-> ?]. done.
Qed.

Lemma split_ready_None entries units rob e :
  split_ready entries units rob = None -> e ∈ rob -> is_ready entries units e = false.
Proof.
  induction rob as [|e' rob IH]; cbn; [intros _ []%not_elem_of_nil|].
  destruct (is_ready entries units e') eqn:Hr; [done|].
  destruct (split_ready _ _ rob) as [[[b r] a]|]; [done|].
  intros _ [->|Hin]%elem_of_cons; [done|]. by apply IH.
Qed.

Lemma is_ready_wait entries units e : is_ready entries units e = true -> e_state e = _WAIT.
Proof. unfold is_ready. rewrite !andb_true_iff, bool_decide_eq_true. tauto. Qed.

Lemma try_start_step code s s' :
  gas_inv s -> try_start s = Some s' ->
  gas_inv s' /\ gas_potential code s' < gas_potential code s /\
  g_cycles s' = g_cycles s /\ g_pc s' = g_pc s.
Proof.
  intros [He Hg Hd Hu Hs Hsl Hc]. unfold try_start.
  destruct (truthy (g_starts_left s)) eqn:Ht; [|done].
  destruct (split_ready _ _ _) as [[[before ready] after]|] eqn:Hr; [|done].
  apply split_ready_Some in Hr as [Hrob Hr%is_ready_wait]. intros [= <-].
  rewrite Hrob in *. apply Forall_app in He as [Hb Hra]. apply Forall_cons_1 in Hra as [[Ru Rc] Ha].
  rewrite Hr in Rc. unfold gas_potential. cbn [g_pc g_rob g_decode_slots g_cycles].
  split; [|split; [|done]].
  - split; cbn; [| | | | |done|done].
    + apply Forall_app. split; [done|]. apply Forall_cons_2; [|done]. split; [done|]. cbn. lia.
    + done.
    + intros i e d Hi Hin. destruct (decide (i = length before)) as [->|Hne].
      * rewrite list_lookup_middle in Hi by done. injection Hi as <-. by apply not_elem_of_nil in Hin.
      * apply (Hd i e d); [|done]. rewrite <-Hi.
        destruct (decide (i < length before)%nat).
        -- by rewrite !lookup_app_l by lia.
        -- rewrite !lookup_app_r by lia. by destruct (i - length before)%nat eqn:?; [lia|].
    + rewrite units_held_app in *. cbn in *.
      assert (held ready = _NONE) as E1 by (unfold held; by rewrite Hr).
      assert (held (start_entry ready) = e_units ready) as ->.
      { unfold held. cbn. by replace (1 <=? _) with true by lia. }
      rewrite E1, (units_add_comm _NONE), units_add_none in Hu. rewrite <-Hu.
      rewrite (units_add_comm (units_held before)), <-units_add_assoc, units_sub_add.
      by rewrite (units_add_comm (units_held after)).
    + unfold truthy in Ht. split; [lia|]. right. exists (start_entry ready). split; [|done].
      apply elem_of_app. right. left.
  - rewrite Hrob, !weights_app. cbn [weights].
    assert (weight (start_entry ready) = e_cycles_left ready + 2) as -> by done.
    assert (weight ready = e_cycles_left ready + 3) as -> by (unfold weight; by rewrite Hr).
    lia.
Qed.

(** ** The end of a cycle *)

Lemma take_finished_spec rob : forall gone rest,
  take_finished rob = (gone, rest) ->
  rob = gone ++ rest /\ List.Forall (fun e => e_state e = _FIN) gone /\
  (forall e r, rest = e :: r -> e_state e <> _FIN).
Proof.
  induction rob as [|e rob IH]; intros gone rest; cbn [take_finished]; [by intros [= <- <-]|].
  case_bool_decide as He.
  - destruct (take_finished rob) as [g r]. intros [= <- <-].
    destruct (IH g r eq_refl) as (-> & Hg & Hr). split; [done|]. split; [by constructor|done].
  - intros [= <- <-]. split; [done|]. split; [constructor|]. intros e' r' [= -> ->]. done.
Qed.

Lemma tick_entry_ok e : entry_ok e -> entry_ok (tick_entry e).
Proof.
  intros [Hu Hc]. unfold tick_entry. destruct e as [st cl ds rg un pc]; cbn in *.
  destruct st; try (by split). destruct (Z.eqb_spec cl 0); split; cbn; try done. lia.
Qed.

Lemma tick_entry_weight e : entry_ok e ->
  weight (tick_entry e) <= weight e /\
  (e_state e = _DEC \/ e_state e = _EXE -> weight (tick_entry e) < weight e).
Proof.
  intros [_ Hc]. unfold tick_entry, weight. destruct e as [st cl ds rg un pc]; cbn in *.
  destruct st; cbn; try (split; [lia|]; by intros [|]); [lia|].
  destruct (Z.eqb_spec cl 0); cbn; lia.
Qed.

Lemma tick_entry_held e u : entry_ok e ->
  units_add (released u e) (held (tick_entry e)) = units_add u (held e).
Proof.
  intros [_ Hc]. unfold tick_entry, held, released. destruct e as [st cl ds rg un pc]; cbn in *.
  destruct st; cbn; try done.
  destruct (Z.eqb_spec cl 0) as [->|]; cbn; [done|].
  destruct (Z.eqb_spec cl 1) as [->|]; cbn; [by rewrite units_add_none|].
  by replace (1 <=? cl - 1) with (1 <=? cl) by lia.
Qed.

Lemma released_held rob : forall u,
  List.Forall entry_ok rob ->
  units_add (fold_left released rob u) (units_held (map tick_entry rob))
  = units_add u (units_held rob).
Proof.
  induction rob as [|e rob IH]; intros u Hok; [done|]. cbn [fold_left map units_held].
  apply Forall_cons_1 in Hok as [He Hok].
  rewrite units_add_assoc, (units_add_comm (fold_left _ _ _)), <-units_add_assoc.
  rewrite IH by done. rewrite units_add_assoc, (units_add_comm (held _)).
  by rewrite tick_entry_held, units_add_assoc.
Qed.

Lemma tick_weights rob :
  List.Forall entry_ok rob ->
  weights (map tick_entry rob) <= weights rob /\
  ((exists e, e ∈ rob /\ (e_state e = _DEC \/ e_state e = _EXE)) ->
   weights (map tick_entry rob) < weights rob).
Proof.
  induction 1 as [|e rob He Hok [IH1 IH2]]; cbn.
  - split; [lia|]. intros (? & []%not_elem_of_nil & _).
  - destruct (tick_entry_weight e He) as [H1 H2]. split; [lia|].
    intros (e' & [->|Hin]%elem_of_cons & Hs); [specialize (H2 Hs); lia|].
    assert (weights (map tick_entry rob) < weights rob) by (apply IH2; by exists e'). lia.
Qed.

Lemma finished_idle rob : List.Forall entry_ok rob ->
  (forall e, e ∈ rob -> e_state e <> _EXE) -> units_held rob = _NONE.
Proof.
  induction 1 as [|e rob He Hok IH]; intros Hn; [done|]. cbn.
  assert (held e = _NONE) as ->.
  { unfold held. rewrite bool_decide_eq_false_2; [done|]. apply Hn. left. }
  rewrite IH; [done|]. intros e' He'. apply Hn. by right.
Qed.

(** A cycle that starts nothing while the buffer holds an entry still makes
    progress: were every entry waiting or finished, no unit would be held and the
    oldest entry would be ready. *)
Lemma stalled_progress s e rob :
  gas_inv s -> g_rob s = e :: rob -> e_state e <> _FIN -> try_start s = None ->
  exists e', e' ∈ g_rob s /\ (e_state e' = _DEC \/ e_state e' = _EXE).
Proof.
  intros [He Hg Hd Hu Hs Hsl Hc] Hrob Hfin Hst.
  destruct (decide (Exists (fun e => e_state e = _DEC \/ e_state e = _EXE) (g_rob s)))
    as [Hex%list.Exists_exists|Hno]; [done|exfalso].
  assert (forall e', e' ∈ g_rob s -> e_state e' <> _DEC /\ e_state e' <> _EXE) as Hst'.
  { intros e' Hin. split; intros Hs'; apply Hno, list.Exists_exists; exists e'; eauto. }
  assert (g_starts_left s = 5) as Hs5.
  { destruct Hs as [_ [?|(e' & Hin & Hs')]]; [done|]. by destruct (Hst' e' Hin). }
  rewrite finished_idle, units_add_none in Hu; [|done|intros e' Hin; by apply Hst'].
  assert (e ∈ g_rob s) as Hin by (rewrite Hrob; left).
  pose proof (proj1 (Forall_forall _ _) He e Hin) as [Ee _].
  unfold try_start in Hst. rewrite Hs5 in Hst. cbn [truthy negb Z.eqb] in Hst.
  destruct (split_ready _ _ _) as [[[b r] a]|] eqn:Hr; [done|].
  apply (split_ready_None _ _ _ e) in Hr; [|done]. unfold is_ready in Hr.
  rewrite bool_decide_eq_true_2 in Hr by (destruct (Hst' e Hin); by destruct (e_state e)).
  rewrite Hu in Hr. unfold units_bounded in Ee. apply andb_true_iff in Ee as [_ Hfit].
  rewrite Hfit in Hr. cbn [andb] in Hr. apply not_true_iff_false in Hr. apply Hr, forallb_forall.
  intros d Hdin%list_elem_of_In. unfold dep_done.
  assert (d < length (g_gone s))%nat as Hlt.
  { specialize (Hd 0%nat e d). rewrite Hrob in Hd. specialize (Hd eq_refl Hdin). lia. }
  rewrite lookup_app_l by done. destruct (lookup_lt_is_Some_2 _ _ Hlt) as [e' He'].
  rewrite He'. pose proof (Forall_lookup_1 _ _ _ _ Hg He') as Hz. cbn in Hz. lia.
Qed.

Lemma tick_inv s : gas_inv s -> gas_inv (tick s).
Proof.
  intros [He Hg Hd Hu Hs Hsl Hc]. unfold tick.
  destruct (take_finished (g_rob s)) as [gone rest] eqn:Ht.
  apply take_finished_spec in Ht as (Hrob & Hfin & _). rewrite Hrob in *.
  apply Forall_app in He as [Hge Hre]. split; cbn.
  - apply List.Forall_map. eapply List.Forall_impl; [|exact Hre]. apply tick_entry_ok.
  - apply Forall_app. split; [done|]. apply List.Forall_forall. intros e Hin.
    rewrite List.Forall_forall in Hfin, Hge. destruct (Hge e Hin) as [_ Hcl].
    by rewrite (Hfin e Hin) in Hcl.
  - intros i e d Hi Hin. rewrite list_lookup_fmap in Hi.
    destruct (rest !! i) as [e'|] eqn:He'; [|done]. cbn in Hi. injection Hi as <-.
    specialize (Hd (length gone + i)%nat e' d). rewrite lookup_app_r in Hd by lia.
    rewrite length_app. replace (length gone + i - length gone)%nat with i in Hd by lia.
    enough (d < length (g_gone s) + (length gone + i))%nat by lia. apply Hd; [done|].
    revert Hin. unfold tick_entry. by destruct (e_state e'), (e_cycles_left e' =? 0).
  - rewrite released_held by done. rewrite <-Hu, units_held_app. f_equal.
    rewrite (finished_idle gone); [by rewrite units_add_comm, units_add_none|done|].
    intros e Hin. rewrite Forall_forall in Hfin. by rewrite (Hfin e Hin).
  - split; [lia|by left].
  - lia.
  - lia.
Qed.

Lemma tick_lowers code s :
  gas_inv s -> try_start s = None ->
  (g_rob s = [] -> g_decode_slots s < 4) ->
  gas_potential code (tick s) < gas_potential code s.
Proof.
  intros Hinv Hst Hempty. pose proof Hinv as [He _ _ _ _ _ _].
  unfold gas_potential, tick. destruct (take_finished (g_rob s)) as [gone rest] eqn:Ht.
  apply take_finished_spec in Ht as (Hrob & Hfin & Hhead). cbn [g_pc g_rob g_decode_slots].
  change (slots_used 4) with 0. pose proof (slots_used_range (g_decode_slots s)).
  rewrite Hrob in He |- *. apply Forall_app in He as [Hge Hre]. rewrite weights_app.
  pose proof (weights_nonneg gone Hge). destruct (tick_weights rest Hre) as [Hw Hw'].
  destruct gone as [|g gone].
  - cbn in Hrob. destruct rest as [|e rest].
    + specialize (Hempty Hrob). unfold slots_used. destruct (Z.ltb_spec (g_decode_slots s) 4); [|lia].
      cbn. lia.
    + destruct (stalled_progress s e rest Hinv Hrob (Hhead _ _ eq_refl) Hst) as (e' & Hin & Hs).
      rewrite Hrob in Hin. specialize (Hw' (ex_intro _ e' (conj Hin Hs))). cbn [weights] in *. lia.
  - apply Forall_cons_1 in Hge as [Hg1 Hg2]. cbn [weights].
    pose proof (weight_pos g Hg1). pose proof (weights_nonneg gone Hg2). lia.
Qed.

(** ** The simulation *)

Section simulation.
Context (code : bytes) (inst_pos : gmap Z Z) (inst_arg_len : list Z) (cmov : bool).

(** The decoded instructions the simulation walks over. *)
Definition sim_tables : Prop := forall pc index, inst_pos !! pc = Some index ->
  exists l, py_index inst_arg_len index = Some l /\ 0 <= l <= 24 /\
    is_valid_opcode (_byte code pc) = true /\
    (is_termination (_byte code pc) = false -> is_Some (inst_pos !! (pc + 1 + l))).

Definition pc_decoded (s : GasState) : Prop :=
  match g_pc s with Some pc => is_Some (inst_pos !! pc) | None => True end.

Lemma try_decode_None s :
  gas_inv s -> try_decode code inst_pos inst_arg_len cmov s = Ret None ->
  g_rob s = [] -> g_pc s = None \/ g_decode_slots s < 4.
Proof using.
  intros Hinv Htd Hrob. unfold try_decode in Htd. destruct (g_pc s) as [pc|]; [right|by left].
  rewrite Hrob in Htd. cbn -[instruction_cost] in Htd.
  destruct (inst_pos !! pc) as [i|]; [|done].
  unfold arg_len_at in Htd. destruct (py_index inst_arg_len i) as [l|]; [|done].
  cbn -[instruction_cost Z.leb] in Htd. destruct (negb _); [done|].
  destruct (instruction_cost code pc l) as [c|] eqn:Hc; [|done].
  cbn -[Z.leb] in Htd. destruct (Z.leb_spec (ic_decode_slots c) (g_decode_slots s)) as [|Hlt].
  - by destruct (decode_instruction _ _ _ _ _ _).
  - enough (ic_decode_slots c <= 4) by lia.
    destruct (is_valid_opcode (_byte code pc)) eqn:Hv.
    + destruct (instruction_cost_ok code pc l Hv) as (c' & Hc' & [? _ _ _]).
      assert (c' = c) as -> by congruence. lia.
    + unfold instruction_cost in Hc. unfold is_valid_opcode in Hv. by destruct (Opcode.of_Z _).
Qed.

Lemma try_decode_spec s :
  gas_inv s ->
  match try_decode code inst_pos inst_arg_len cmov s with
  | Ret (Some s') => gas_inv s' /\ gas_potential code s' < gas_potential code s /\
      g_cycles s' = g_cycles s /\ (sim_tables -> pc_decoded s -> pc_decoded s')
  | Ret None => True
  | Raise e => e = PyException /\ ~ (sim_tables /\ pc_decoded s)
  end.
Proof using.
  intros Hinv. unfold try_decode, pc_decoded. destruct (g_pc s) as [pc|] eqn:Hpc; [|done].
  destruct (_ <? 32); [|done].
  destruct (inst_pos !! pc) as [i|] eqn:Hi; [|split; [done|]; intros [_ [? [=]]]].
  unfold arg_len_at. destruct (py_index inst_arg_len i) as [l|] eqn:Hl;
    [|split; [done|]; intros [Ht _]; destruct (Ht pc i Hi) as (? & ? & _); congruence].
  cbn [mbind outcome_bind].
  destruct (Z.leb_spec 0 l), (Z.leb_spec l 24); cbn [andb negb];
    try (split; [done|]; intros [Ht _]; destruct (Ht pc i Hi) as (l' & ? & ? & _);
         assert (l' = l) by congruence; lia).
  destruct (is_valid_opcode (_byte code pc)) eqn:Hv; cycle 1.
  { assert (instruction_cost code pc l = Raise PyException) as ->.
    { unfold instruction_cost. unfold is_valid_opcode in Hv. by destruct (Opcode.of_Z _). }
    split; [done|]. intros [Ht _]. destruct (Ht pc i Hi) as (? & _ & _ & ? & _). congruence. }
  destruct (instruction_cost_ok code pc l Hv) as (c & -> & Hc). cbn [mbind outcome_bind].
  destruct (Z.leb_spec (ic_decode_slots c) (g_decode_slots s)); [|done].
  destruct (decode_instruction code cmov pc l c s) as [s'|e] eqn:Hd.
  - destruct (decode_instruction_step code cmov pc l c s s') as (? & ? & ? & Hpc'); try done.
    cbn [fmap outcome_fmap]. split; [done|]. split; [done|]. split; [done|].
    intros Ht _. rewrite Hpc'. destruct (is_termination (_byte code pc)) eqn:Hterm; [done|].
    destruct (Ht pc i Hi) as (l' & ? & _ & _ & Hn). assert (l' = l) as -> by congruence. by apply Hn.
  - exfalso. unfold decode_instruction in Hd.
    by destruct (instruction_registers_total code pc cmov Hv) as (? & ? & Hr); rewrite Hr in Hd.
Qed.

Lemma gas_body_spec s :
  gas_inv s ->
  match gas_body code inst_pos inst_arg_len cmov s with
  | inl s' => gas_inv s' /\ gas_potential code s' < gas_potential code s /\
      g_cycles s' + gas_potential code s' <= g_cycles s + gas_potential code s /\
      (sim_tables -> pc_decoded s -> pc_decoded s')
  | inr (Ret g) => 1 <= g <= Z.max 1 (g_cycles s)
  | inr (Raise e) => e = PyException /\ ~ (sim_tables /\ pc_decoded s)
  end.
Proof using.
  intros Hinv. pose proof (try_decode_spec s Hinv) as Hdec. unfold gas_body.
  destruct (try_decode code inst_pos inst_arg_len cmov s) as [[s'|]|e] eqn:Htd; [|clear Hdec|done].
  { destruct Hdec as (? & ? & -> & ?). split; [done|]. split; [done|]. split; [lia|done]. }
  destruct (try_start s) as [s'|] eqn:Hst.
  { destruct (try_start_step code s s' Hinv Hst) as (? & ? & Hcy & Hpc).
    split; [done|]. split; [done|]. split; [lia|]. unfold pc_decoded. by rewrite Hpc. }
  assert (match g_pc s, g_rob s with
          | None, [] => True
          | _, _ => gas_inv (tick s) /\ gas_potential code (tick s) < gas_potential code s /\
              g_cycles (tick s) + gas_potential code (tick s) <= g_cycles s + gas_potential code s /\
              (sim_tables -> pc_decoded s -> pc_decoded (tick s))
          end) as Htick.
  { assert ((g_pc s <> None \/ g_rob s <> []) -> gas_potential code (tick s) < gas_potential code s) as Hlow.
    { intros Hno. apply tick_lowers; [done|done|]. intros Hrob.
      destruct (try_decode_None s Hinv Htd Hrob) as [Hpc|]; [|done]. destruct Hno; congruence. }
    assert (g_cycles (tick s) = g_cycles s + 1 /\ g_pc (tick s) = g_pc s) as [Hcy Hpc].
    { unfold tick. by destruct (take_finished (g_rob s)). }
    pose proof (tick_inv s Hinv) as Hti. unfold pc_decoded. rewrite Hcy, Hpc.
    destruct (g_pc s), (g_rob s); try done; (specialize (Hlow ltac:(first [by left|by right])));
      (split; [done|]); (split; [done|]); (split; [lia|done]). }
  destruct (g_pc s), (g_rob s); try exact Htick. lia.
Qed.

Lemma initial_gas_inv start : gas_inv (initial_gas start).
Proof using.
  split; cbn; try done; try lia; try by constructor.
Qed.

(** The simulation always ends; it raises only on tables that do not decode
    the block. *)
Lemma simulation_total start :
  0 <= start ->
  exists o, ploop (gas_fuel code) (gas_body code inst_pos inst_arg_len cmov) (initial_gas start)
            = inr o /\
  match o with
  | Ret g => 1 <= g <= 110 * (blen code + 1)
  | Raise e => e = PyException /\ ~ (sim_tables /\ is_Some (inst_pos !! start))
  end.
Proof using.
  intros Hst. set (B := 110 * (blen code + 1)).
  assert (gas_potential code (initial_gas start) <= B) as HB.
  { unfold gas_potential. cbn -[Z.mul Z.max]. change (slots_used 4) with 0. unfold B, blen. lia. }
  apply (ploop_total (fun s => gas_inv s /\ g_cycles s + gas_potential code s <= B /\
      (sim_tables /\ is_Some (inst_pos !! start) -> pc_decoded s))
    _ (gas_potential code)).
  - intros s ([He _ _ _ _ _ _] & _). unfold gas_potential.
    pose proof (weights_nonneg _ He). pose proof (slots_used_range (g_decode_slots s)).
    enough (0 <= left_to_decode code (g_pc s)) by lia.
    unfold left_to_decode. destruct (g_pc s); lia.
  - intros s (Hinv & Hcy & Hpc). pose proof (gas_body_spec s Hinv) as Hb.
    destruct (gas_body _ _ _ _ s) as [s'|[g|e]].
    + destruct Hb as (? & ? & ? & Hp). split; [|lia]. split; [done|]. split; [lia|].
      intros Hok. apply Hp; [apply Hok|by apply Hpc].
    + pose proof Hinv as [He _ _ _ _ _ _]. pose proof (weights_nonneg _ He).
      pose proof (slots_used_range (g_decode_slots s)).
      assert (0 <= left_to_decode code (g_pc s)) by (unfold left_to_decode; destruct (g_pc s); lia).
      unfold gas_potential in Hcy. unfold B, blen in *. lia.
    + destruct Hb as [-> Hno]. split; [done|]. intros Hok. apply Hno. split; [apply Hok|by apply Hpc].
  - split; [apply initial_gas_inv|]. split; [cbn; lia|]. by intros [_ ?].
  - unfold gas_fuel. unfold B, blen in *. lia.
Qed.
End simulation.

(** The cost of a block over decoded tables: the simulation ends, and its cost
    is positive and linear in the size of the code. *)
Lemma calculate_block_gas_total code inst_pos inst_arg_len start cmov :
  sim_tables code inst_pos inst_arg_len -> is_Some (inst_pos !! start) -> 0 <= start ->
  exists g, calculate_block_gas code inst_pos inst_arg_len start cmov = Some (Ret g) /\
    1 <= g <= 110 * (blen code + 1).
Proof.
  intros Ht Hs H0. unfold calculate_block_gas.
  rewrite bool_decide_eq_true_2 by done. destruct (Z.ltb_spec start 0); [lia|]. cbn [negb orb].
  destruct (simulation_total code inst_pos inst_arg_len cmov start H0) as ([g|e] & -> & Hg).
  - by exists g.
  - destruct Hg as [_ []]. done.
Qed.

(** Without any hypothesis on the tables, the code never loops: it returns a
    cost or raises [ValueError]. *)
Lemma calculate_block_gas_terminates code inst_pos inst_arg_len start cmov :
  calculate_block_gas code inst_pos inst_arg_len start cmov <> None.
Proof.
  unfold calculate_block_gas. destruct (bool_decide _); [|done].
  destruct (Z.ltb_spec start 0); [done|]. cbn [negb orb].
  by destruct (simulation_total code inst_pos inst_arg_len cmov start) as (o & -> & _).
Qed.

(** The interpreter simulates the decoded code followed by its zero padding. *)
Lemma valid_tables_sim code bitmask positions lengths padding :
  valid_tables code bitmask positions lengths ->
  sim_tables (code ++ padding) positions lengths.
Proof.
  intros Hvt pc index Hpc. pose proof Hvt as [_ Hi _].
  destruct (Hi pc index Hpc) as (Hr & Hv & l & Hl & H24 & _ & _ & _ & _).
  assert (_byte (code ++ padding) pc = code_at code pc) as ->.
  { unfold _byte, code_at. unfold blen in *. rewrite length_app.
    destruct (Z.leb_spec 0 pc), (Z.ltb_spec pc (Z.of_nat (length code + length padding))); try lia.
    cbn [andb]. rewrite !py_index_nonneg by lia.
    by rewrite lookup_app_l by lia. }
  exists l. split; [done|]. split; [done|]. split; [done|]. intros Ht.
  replace (pc + 1 + l) with (pc + l + 1) by lia. by eapply valid_tables_next.
Qed.

(** ** The properties *)

(** The cost table gives every opcode exactly one row; the cost of a valid
    opcode is always computed and is within the pipeline's capacity, and another
    byte raises. *)
Theorem instruction_cost_total :
  NoDup (concat (map fst _cost_rules)) /\
  forall code pc arg_len,
    if is_valid_opcode (_byte code pc)
    then exists c, instruction_cost code pc arg_len = Ret c /\ cost_ok code pc c
    else instruction_cost code pc arg_len = Raise PyException.
Proof.
  split; [apply cost_rules_total|]. intros code pc arg_len.
  destruct (is_valid_opcode (_byte code pc)) eqn:Hv; [by apply instruction_cost_ok|].
  unfold instruction_cost, is_valid_opcode in *. by destruct (Opcode.of_Z _).
Qed.

(** The pipeline simulation of a block of accepted code ends with a positive cost
    bounded by the code's length; on any other table it still ends, with a cost
    or [ValueError]. *)
Theorem block_gas_positive code bitmask positions lengths padding start cmov :
  decode_instructions code bitmask = (positions, lengths, true) ->
  let g := mkGasModel (code ++ padding) positions lengths in
  (is_Some (positions !! start) ->
   exists cost, compute_block_gas_cost g start cmov = Some (Ret cost) /\
     1 <= cost <= 110 * (blen (code ++ padding) + 1)) /\
  (forall g' start', compute_block_gas_cost g' start' cmov <> None).
Proof.
  intros Hdec g. split; [|intros; apply calculate_block_gas_terminates].
  intros Hs. pose proof (decode_valid_instructions _ _ _ _ Hdec) as Hvt.
  apply calculate_block_gas_total; [by eapply valid_tables_sim|done|].
  destruct Hs as [i Hi]. by apply (vt_inst _ _ _ _ Hvt start i).
Qed.

(** A block of two instructions: [load_imm] then [trap]. *)
Lemma block_gas_positive_witness :
  exists cost, compute_block_gas_cost
      (mkGasModel (demo_blob ++ replicate 25 0) (fst (fst (decode_instructions demo_blob demo_bitmask)))
         (snd (fst (decode_instructions demo_blob demo_bitmask)))) 0 false
    = Some (Ret cost) /\ cost = 2.
Proof.
  destruct (block_gas_positive demo_blob demo_bitmask
    (fst (fst (decode_instructions demo_blob demo_bitmask)))
    (snd (fst (decode_instructions demo_blob demo_bitmask))) (replicate 25 0) 0 false) as [H _].
  - vm_compute. reflexivity.
  - destruct H as (cost & Hc & _); [vm_compute; by eexists|].
    exists cost. split; [exact Hc|]. vm_compute in Hc. by injection Hc as <-.
Defined.
