(* ===== verification/Machine.v ===== *)
(** * The interpreter's state and its primitive operations

    The attributes of [PVMInterpreter]
    ([pvm/interpreters/cpython/interpreter_cpython.py]) that instructions use,
    the operand fetchers of [pvm/interpreters/cpython/opcodes], the jumps
    [sjump], [branch] and [djump], and the guarded memory accesses [mem_read]
    and [mem_write].

    The attributes computed by [reset] from the program never change while
    instructions run; they are the record [Code].  An instruction is a
    computation of the monad [M]: it changes the machine and may raise, keeping
    the changes made before the exception, as the Python code does.

    [handler_post] at the end is the interface the handlers are verified against:
    what a handler may do to the machine and how it may end; the lemmas below it
    give it for the jumps, branches and memory accesses the handlers share. *)

From Stdlib Require Import ZArith Lia Bool List.
From stdpp Require Import base numbers option list gmap.
From S2P Require Import Prelude Constants Defs MemorySection Memory BasicBlock.
Import ListNotations.

#[local] Open Scope Z_scope.
#[local] Open Scope py_scope.

(** [graypaper_constants.PVM_DYNAMIC_ALIGNMENT_FACTOR] *)
Definition PVM_DYNAMIC_ALIGNMENT_FACTOR : Z := 2.

(** ** State *)

Record Code : Type := mkCode {
  code : bytes;
  code_length : Z;
  code_size : Z;
  code_valid : bool;
  jump_table : list Z;
  inst_bitmask : list bool;
  inst_pos : gmap Z Z;
  inst_arg_len : list Z;
  basic_block_gas : gmap Z Z;
  basic_block_starts_set : gset Z;
  basic_block_starts_sorted : list Z
}.

Record VM : Type := mkVM {
  vm_code : Code;
  reg : list Z;
  pc : Z;
  opcode : Z;
  skip_len : Z;
  gas : Z;
  inst_nr : Z;
  mem : PVMMemory;
  status : ExitReason.t;
  exit_value : option Z;
  _mem_addr : Z;
  current_block_start : option Z
}.

Abbreviation M := (eff VM exn).

Definition set_reg_list (r : list Z) (vm : VM) : VM :=
  mkVM (vm_code vm) r (pc vm) (opcode vm) (skip_len vm) (gas vm) (inst_nr vm) (mem vm)
    (status vm) (exit_value vm) (_mem_addr vm) (current_block_start vm).
Definition set_pc (x : Z) (vm : VM) : VM :=
  mkVM (vm_code vm) (reg vm) x (opcode vm) (skip_len vm) (gas vm) (inst_nr vm) (mem vm)
    (status vm) (exit_value vm) (_mem_addr vm) (current_block_start vm).
Definition set_skip_len (x : Z) (vm : VM) : VM :=
  mkVM (vm_code vm) (reg vm) (pc vm) (opcode vm) x (gas vm) (inst_nr vm) (mem vm)
    (status vm) (exit_value vm) (_mem_addr vm) (current_block_start vm).
Definition set_gas (x : Z) (vm : VM) : VM :=
  mkVM (vm_code vm) (reg vm) (pc vm) (opcode vm) (skip_len vm) x (inst_nr vm) (mem vm)
    (status vm) (exit_value vm) (_mem_addr vm) (current_block_start vm).
Definition set_status (x : ExitReason.t) (vm : VM) : VM :=
  mkVM (vm_code vm) (reg vm) (pc vm) (opcode vm) (skip_len vm) (gas vm) (inst_nr vm) (mem vm)
    x (exit_value vm) (_mem_addr vm) (current_block_start vm).
Definition set_exit_value (x : option Z) (vm : VM) : VM :=
  mkVM (vm_code vm) (reg vm) (pc vm) (opcode vm) (skip_len vm) (gas vm) (inst_nr vm) (mem vm)
    (status vm) x (_mem_addr vm) (current_block_start vm).
Definition set_current_block (x : option Z) (vm : VM) : VM :=
  mkVM (vm_code vm) (reg vm) (pc vm) (opcode vm) (skip_len vm) (gas vm) (inst_nr vm) (mem vm)
    (status vm) (exit_value vm) (_mem_addr vm) x.
(** The memory object, and the interpreter's copy of its last address. *)
Definition set_memory (m : PVMMemory) (vm : VM) : VM :=
  mkVM (vm_code vm) (reg vm) (pc vm) (opcode vm) (skip_len vm) (gas vm) (inst_nr vm) m
    (status vm) (exit_value vm) (mem_addr m) (current_block_start vm).

(** The memory object alone. *)
Definition put_mem (m : PVMMemory) (vm : VM) : VM :=
  mkVM (vm_code vm) (reg vm) (pc vm) (opcode vm) (skip_len vm) (gas vm) (inst_nr vm) m
    (status vm) (exit_value vm) (_mem_addr vm) (current_block_start vm).

(** ** Attribute accesses that may raise *)

Definition of_option {A} (o : option A) : M A :=
  match o with Some a => mret a | None => raise PyException end.

(** [vm.reg[r]], [vm.reg[r] = v] *)
Definition get_reg (r : Z) : M Z := fun vm => of_option (py_index (reg vm) r) vm.
Definition set_reg (r v : Z) : M unit := fun vm =>
  match py_set (reg vm) r v with
  | Some l => (Ret tt, set_reg_list l vm)
  | None => (Raise PyException, vm)
  end.

(** [vm.code[vm.pc + k]], [vm.mv_code[vm.pc + k]] *)
Definition code_byte (k : Z) : M Z := fun vm => lift (mem_index (code (vm_code vm)) (pc vm + k)) vm.

(** [vm.mv_inst_arg_len[vm.inst_pos[vm.pc]]] *)
Definition arg_len : M Z := fun vm =>
  match inst_pos (vm_code vm) !! pc vm with
  | Some inst_index => lift (arg_len_at (inst_arg_len (vm_code vm)) inst_index) vm
  | None => (Raise PyException, vm)
  end.

(** [read_uint(vm.mv_code, vm.pc + k, n)] *)
Definition code_uint (k n : Z) : M Z := fun vm =>
  lift (read_uint (code (vm_code vm)) (pc vm + k) n) vm.

(** ** Operand fetchers *)

Definition _fetch_imm : M Z :=
  l ← arg_len;
  let l_x := Z.min 4 l in
  x ← code_uint 1 l_x;
  mret (pvm_X x l_x).

Definition _fetch_imm_imm : M (Z * Z) :=
  l ← arg_len;
  b ← code_byte 1;
  let l_x := Z.min 4 (b mod 8) in
  let l_y := Z.min 4 (Z.max 0 (l - l_x - 1)) in
  x ← code_uint 2 l_x;
  y ← code_uint (2 + l_x) l_y;
  mret (pvm_X x l_x, pvm_X y l_y).

Definition _fetch_offset : M Z :=
  l ← arg_len;
  let l_x := Z.min 4 l in
  x ← code_uint 1 l_x;
  mret (pvm_Z x l_x).

Definition _fetch_reg_ext_imm : M (Z * Z) :=
  b ← code_byte 1;
  let r_a := Z.min 12 (b mod 16) in
  v_x ← code_uint 2 8;
  mret (r_a, v_x).

Definition _fetch_reg_imm : M (Z * Z) :=
  b ← code_byte 1;
  let r_a := Z.min 12 (b mod 16) in
  l ← arg_len;
  let l_x := Z.min 4 (Z.max 0 (l - 1)) in
  x ← code_uint 2 l_x;
  mret (r_a, pvm_X x l_x).

Definition _fetch_reg_imm_imm : M (Z * Z * Z * Z) :=
  b ← code_byte 1;
  let r_a := Z.min 12 (b mod 16) in
  w_a ← get_reg r_a;
  let l_x := Z.min 4 ((b / 16) mod 8) in
  x ← code_uint 2 l_x;
  l ← arg_len;
  let l_y := Z.min 4 (Z.max 0 (l - l_x - 1)) in
  y ← code_uint (2 + l_x) l_y;
  mret (r_a, w_a, pvm_X x l_x, pvm_X y l_y).

Definition _fetch_reg_imm_offset : M (Z * Z * Z * Z) :=
  b ← code_byte 1;
  let r_a := Z.min 12 (b mod 16) in
  w_a ← get_reg r_a;
  let l_x := Z.min 4 ((b / 16) mod 8) in
  x ← code_uint 2 l_x;
  l ← arg_len;
  let l_y := Z.min 4 (Z.max 0 (l - l_x - 1)) in
  y ← code_uint (2 + l_x) l_y;
  mret (r_a, w_a, pvm_X x l_x, pvm_Z y l_y).

Definition _fetch_reg_reg : M (Z * Z * Z) :=
  b ← code_byte 1;
  let r_d := Z.min 12 (b mod 16) in
  let r_a := Z.min 12 (b / 16) in
  w_a ← get_reg r_a;
  mret (r_d, r_a, w_a).

Definition _fetch_reg_reg_imm : M (Z * Z * Z * Z * Z) :=
  b ← code_byte 1;
  let r_a := Z.min 12 (b mod 16) in
  let r_b := Z.min 12 (b / 16) in
  w_a ← get_reg r_a;
  w_b ← get_reg r_b;
  l ← arg_len;
  let l_x := Z.min 4 (Z.max 0 (l - 1)) in
  x ← code_uint 2 l_x;
  mret (r_a, r_b, w_a, w_b, pvm_X x l_x).

Definition _fetch_reg_reg_offset : M (Z * Z * Z * Z * Z) :=
  l ← arg_len;
  b ← code_byte 1;
  let r_a := Z.min 12 (b mod 16) in
  let r_b := Z.min 12 (b / 16) in
  w_a ← get_reg r_a;
  w_b ← get_reg r_b;
  let l_x := Z.min 4 (Z.max 0 (l - 1)) in
  x ← code_uint 2 l_x;
  mret (r_a, r_b, w_a, w_b, pvm_Z x l_x).

Definition _fetch_reg_reg_imm_imm : M (Z * Z * Z * Z * Z) :=
  l ← arg_len;
  b ← code_byte 1;
  let r_a := Z.min 12 (b mod 16) in
  let r_b := Z.min 12 (b / 16) in
  w_b ← get_reg r_b;
  b2 ← code_byte 2;
  let l_x := Z.min 4 (b2 mod 8) in
  x ← code_uint 3 l_x;
  let l_y := Z.min 4 (Z.max 0 (l - l_x - 2)) in
  y ← code_uint (3 + l_x) l_y;
  mret (r_a, r_b, w_b, pvm_X x l_x, pvm_X y l_y).

Definition _fetch_reg_reg_reg : M (Z * Z * Z * Z * Z) :=
  b ← code_byte 1;
  let r_a := Z.min 12 (b mod 16) in
  let r_b := Z.min 12 (b / 16) in
  b2 ← code_byte 2;
  let r_d := Z.min 12 b2 in
  wa ← get_reg r_a;
  wb ← get_reg r_b;
  mret (r_a, r_b, r_d, wa, wb).

(** ** Jumps *)

Definition is_block_start (vm : VM) (a : Z) : bool :=
  bool_decide (a ∈ basic_block_starts_set (vm_code vm)).

Definition sjump (offset : Z) : M unit := fun vm =>
  if negb (is_block_start vm (pc vm + offset)) then (Raise PanicError, vm)
  else (Ret tt, set_skip_len offset vm).

Definition branch (b : Z) (C : bool) : M unit := fun vm =>
  if negb (is_block_start vm (pc vm + b)) || negb (is_block_start vm (pc vm + skip_len vm))
  then (Raise PanicError, vm)
  else if C then (Ret tt, set_skip_len b vm) else (Ret tt, vm).

Definition djump (a : Z) : M Z := fun vm =>
  if a =? 2 ^ 32 - 2 ^ 16 then (Ret 0, set_status ExitReason.halt vm)
  else if (a =? 0) || negb (a mod PVM_DYNAMIC_ALIGNMENT_FACTOR =? 0) then (Raise PanicError, vm)
  else
    let jump_table_index := a / PVM_DYNAMIC_ALIGNMENT_FACTOR - 1 in
    if (jump_table_index <? 0)
       || (Z.of_nat (length (jump_table (vm_code vm))) <=? jump_table_index)
    then (Raise PanicError, vm)
    else
      match py_index (jump_table (vm_code vm)) jump_table_index with
      | None => (Raise PyException, vm)
      | Some destination =>
          if negb (is_block_start vm destination) then (Raise PanicError, vm)
          else (Ret (destination - pc vm), vm)
      end.

(** ** Memory accesses *)

(** [mem_ops_bytes[opcode]] *)
Definition mem_ops_bytes (o : Opcode.t) : Z :=
  match MemOps o with Some ops => u8 (mo_bytes ops) | None => u8 0 end.

(** [try: ... finally: self._mem_addr = self.mem._mem_addr] *)
Definition on_memory {A} (m : eff PVMMemory exn A) : M A := fun vm =>
  let '(r, memory) := m (mem vm) in (r, set_memory memory vm).

Definition mem_write (o : Opcode.t) (addr value : Z) : M unit :=
  let addr := u32 addr in
  let bytes_to_write := mem_ops_bytes o in
  if (addr <? 65536) || (2 ^ 32 <? addr + bytes_to_write) then raise PanicError
  else on_memory (write_int addr value bytes_to_write).

Definition mem_read (o : Opcode.t) (addr : Z) : M Z :=
  let addr := u32 addr in
  let bytes_to_read := mem_ops_bytes o in
  if (addr <? 65536) || (2 ^ 32 <? addr + bytes_to_read) then raise PanicError
  else on_memory (read_int addr bytes_to_read).

(** * Properties *)

(** ** Well-formed machines *)

Definition is_reg (r : Z) : Prop := 0 <= r <= 12.

Definition regs_ok (vm : VM) : Prop :=
  length (reg vm) = 13%nat /\ List.Forall is_u64 (reg vm).

(** The tables [reset] computes from an accepted program. *)
Record code_ok (c : Code) : Prop := {
  ck_tables : exists orig, code c = orig ++ replicate 25 0 /\ blen orig = code_length c /\
    valid_tables orig (inst_bitmask c) (inst_pos c) (inst_arg_len c);
  ck_bytes : List.Forall is_byte (code c);
  ck_size : code_size c = code_length c;
  ck_length : code_length c <= 2 ^ 32;
  ck_starts : forall s, s ∈ basic_block_starts_set c -> is_Some (inst_pos c !! s);
  ck_zero : 0 ∈ basic_block_starts_set c;
  ck_sorted : basic_block_starts_sorted c = sorted (basic_block_starts_set c);
  ck_gas : forall s, s ∈ basic_block_starts_set c ->
    exists g, basic_block_gas c !! s = Some g /\ 1 <= g
}.

Lemma decoded_inst c p :
  code_ok c -> is_Some (inst_pos c !! p) ->
  0 <= p < code_length c /\ p + 25 < blen (code c) /\
  is_valid_opcode (code_at (code c) p) = true /\
  exists i l, inst_pos c !! p = Some i /\ py_index (inst_arg_len c) i = Some l /\ 0 <= l <= 24 /\
    (is_termination (code_at (code c) p) = false -> is_Some (inst_pos c !! (p + l + 1))).
Proof.
  intros [(orig & Hcode & Hlen & Hvt) _ _ _ _ _ _ _] [i Hi].
  pose proof Hvt as [_ Hinst _]. destruct (Hinst p i Hi) as (Hp & Hv & l & Hl & H24 & _).
  assert (code_at (code c) p = code_at orig p) as ->.
  { rewrite Hcode. unfold code_at. unfold blen in Hp. rewrite !py_index_nonneg by lia.
    by rewrite lookup_app_l by lia. }
  split; [lia|]. split; [rewrite Hcode; unfold blen in *; rewrite length_app, length_replicate; lia|].
  split; [done|]. exists i, l. split; [done|]. split; [done|]. split; [done|].
  by eapply valid_tables_next.
Qed.

(** A machine about to run the instruction at its counter. *)
Record at_inst (vm : VM) : Prop := {
  ai_code : code_ok (vm_code vm);
  ai_pc : is_Some (inst_pos (vm_code vm) !! pc vm);
  ai_regs : regs_ok vm;
  ai_mem : mem_wf (mem vm)
}.

(** ** Reading operands *)

(** [m] only reads, and yields a value satisfying [P]. *)
Definition reads {A} (m : M A) (P : A -> Prop) : Prop :=
  forall vm, at_inst vm -> exists a, m vm = (Ret a, vm) /\ P a.

Lemma reads_ret {A} (a : A) (P : A -> Prop) : P a -> reads (mret a) P.
Proof. intros Ha vm _. by exists a. Qed.

Lemma reads_bind {A B} (m : M A) (k : A -> M B) P Q :
  reads m P -> (forall a, P a -> reads (k a) Q) -> reads (m ≫= k) Q.
Proof.
  intros Hm Hk vm Hvm. destruct (Hm vm Hvm) as (a & Ha & HP).
  destruct (Hk a HP vm Hvm) as (b & Hb & HQ). exists b. rewrite eff_bind_run, Ha. done.
Qed.

(** A continuation after a read. *)
Lemma reads_then {A B} (m : M A) (k : A -> M B) P (Φ : outcome exn B * VM -> Prop) vm :
  reads m P -> at_inst vm -> (forall a, P a -> Φ (k a vm)) -> Φ ((m ≫= k) vm).
Proof.
  intros Hm Hvm Hk. destruct (Hm vm Hvm) as (a & Ha & HP). rewrite eff_bind_run, Ha. by apply Hk.
Qed.

Lemma reads_get_reg r : is_reg r -> reads (get_reg r) is_u64.
Proof.
  intros Hr vm [_ _ [Hlen Hok] _]. unfold get_reg.
  destruct (py_index_Some (reg vm) r) as [v Hv]; [unfold is_reg in Hr; lia|].
  rewrite Hv. exists v. split; [done|].
  rewrite py_index_nonneg in Hv by apply Hr. by apply (Forall_lookup_1 _ _ _ _ Hok Hv).
Qed.

Lemma reads_code_byte k : 0 <= k <= 24 -> reads (code_byte k) is_byte.
Proof.
  intros Hk vm [Hc Hpc _ _]. destruct (decoded_inst _ _ Hc Hpc) as (Hp & Hlen & _).
  unfold code_byte, lift, mem_index, blen in *.
  destruct (py_index_Some (code (vm_code vm)) (pc vm + k)) as [v Hv]; [lia|].
  rewrite Hv. exists v. split; [done|]. rewrite py_index_nonneg in Hv by lia.
  by apply (Forall_lookup_1 _ _ _ _ (ck_bytes _ Hc) Hv).
Qed.

Lemma reads_arg_len : reads arg_len (fun l => 0 <= l <= 24).
Proof.
  intros vm [Hc Hpc _ _]. destruct (decoded_inst _ _ Hc Hpc) as (_ & _ & _ & i & l & Hi & Hl & H24 & _).
  exists l. split; [|done]. unfold arg_len. rewrite Hi. unfold lift, arg_len_at. by rewrite Hl.
Qed.

(** The operand widths the fetchers use. *)
Definition operand_width (n : Z) : Prop := 0 <= n <= 4 \/ n = 8.

Lemma reads_code_uint k n :
  0 <= k <= 16 -> operand_width n -> reads (code_uint k n) (fun v => 0 <= v < 2 ^ (8 * n)).
Proof.
  intros Hk Hn vm [Hc Hpc _ _]. destruct (decoded_inst _ _ Hc Hpc) as (Hp & Hlen & _).
  unfold code_uint, lift, blen in *.
  assert (read_width n = true) as Hw.
  { destruct Hn as [Hn| ->]; [|done].
    assert (n = 0 \/ n = 1 \/ n = 2 \/ n = 3 \/ n = 4) as Hcases by lia.
    by destruct Hcases as [->|[->|[->|[->| ->]]]]. }
  assert (0 <= n <= 8) as Hn8 by (destruct Hn; lia).
  pose proof (read_uint_spec (code (vm_code vm)) (pc vm + k) n (ck_bytes _ Hc) Hw) as Hs.
  rewrite Hs by lia. eexists. split; [done|].
  apply (read_uint_range (code (vm_code vm)) (pc vm + k) n); [apply Hc|lia|done|].
  apply Hs; lia.
Qed.

(** An immediate of an operand width is sign-extended to a register value. *)
Lemma immediate_is_u64 x n : 0 <= n <= 4 -> 0 <= x < 2 ^ (8 * n) -> is_u64 (pvm_X x n).
Proof.
  intros Hn Hx. destruct (Z.eq_dec n 0) as [->|].
  - change (2 ^ (8 * 0)) with 1 in Hx. replace x with 0 by lia. rewrite pvm_X_0. unfold is_u64. lia.
  - apply pvm_X_is_u64. lia.
Qed.

Lemma is_reg_mod b k : 0 < k -> is_reg (Z.min 12 (b mod k)).
Proof. intros Hk. pose proof (Z.mod_pos_bound b k Hk). unfold is_reg. lia. Qed.
Lemma is_reg_div b k : 0 < k -> 0 <= b -> is_reg (Z.min 12 (b / k)).
Proof. intros. pose proof (Z.div_pos b k). unfold is_reg. lia. Qed.
Lemma is_reg_byte b : 0 <= b -> is_reg (Z.min 12 b).
Proof. intros. unfold is_reg. lia. Qed.

Create HintDb fetch discriminated.
#[export] Hint Resolve reads_get_reg reads_code_byte reads_arg_len reads_code_uint : fetch.
#[export] Hint Extern 1 (is_reg (Z.min 12 (_ mod _))) => (apply is_reg_mod; lia) : fetch.
#[export] Hint Extern 1 (is_reg (Z.min 12 (_ / _))) =>
  (apply is_reg_div; unfold is_byte in *; lia) : fetch.
#[export] Hint Extern 2 (is_reg (Z.min 12 _)) => (apply is_reg_byte; unfold is_byte in *; lia) : fetch.
#[export] Hint Extern 1 (operand_width _) =>
  (unfold operand_width in *; lia) : fetch.
#[export] Hint Extern 1 (0 <= _ <= _) => lia : fetch.
#[export] Hint Extern 1 (0 <= _) => lia : fetch.
#[export] Hint Extern 1 (is_u64 (pvm_X _ _)) => (apply immediate_is_u64; [|done]; lia) : fetch.

(** Step over one read of a fetcher. *)
Ltac fetch_bind := eapply reads_bind;
  [first [apply reads_arg_len | apply reads_code_byte; lia | apply reads_get_reg; auto with fetch
         |apply reads_code_uint; solve [auto with fetch]]|cbn beta].

Lemma operand_width_min l : 0 <= l -> operand_width (Z.min 4 l).
Proof. unfold operand_width. lia. Qed.
Lemma min4_range l : 0 <= l -> 0 <= Z.min 4 l <= 4.
Proof. lia. Qed.
Lemma mod8_nonneg b : 0 <= b mod 8.
Proof. apply Z.mod_pos_bound. lia. Qed.
Lemma max0_nonneg b : 0 <= Z.max 0 b.
Proof. lia. Qed.
#[export] Hint Resolve mod8_nonneg max0_nonneg operand_width_min : fetch.

Lemma reads_fetch_imm : reads _fetch_imm is_u64.
Proof.
  unfold _fetch_imm. fetch_bind. intros l Hl. cbv zeta.
  pose proof (min4_range l). fetch_bind.
  intros x Hx. apply reads_ret, immediate_is_u64; [lia|done].
Qed.

(** The second operand's width. *)
Ltac second_width := match goal with |- context [Z.min 4 (Z.max 0 ?e)] =>
  pose proof (min4_range (Z.max 0 e) (max0_nonneg e)) end.

Lemma reads_fetch_imm_imm : reads _fetch_imm_imm (fun '(v_x, v_y) => is_u64 v_x /\ is_u64 v_y).
Proof.
  unfold _fetch_imm_imm. fetch_bind. intros l Hl.
  fetch_bind. intros b Hb. cbv zeta. second_width.
  pose proof (min4_range (b mod 8) (mod8_nonneg b)).
  fetch_bind. intros x Hx.
  fetch_bind. intros y Hy.
  apply reads_ret. split; by apply immediate_is_u64.
Qed.

Lemma reads_fetch_offset : reads _fetch_offset (fun _ => True).
Proof.
  unfold _fetch_offset. fetch_bind. intros l Hl. cbv zeta.
  fetch_bind. intros x Hx. by apply reads_ret.
Qed.

Lemma reads_fetch_reg_ext_imm : reads _fetch_reg_ext_imm (fun '(r, v) => is_reg r /\ is_u64 v).
Proof.
  unfold _fetch_reg_ext_imm. fetch_bind. intros b Hb. cbv zeta.
  fetch_bind. intros x Hx.
  apply reads_ret. split; [auto with fetch|exact Hx].
Qed.

Lemma reads_fetch_reg_imm : reads _fetch_reg_imm (fun '(r, v) => is_reg r /\ is_u64 v).
Proof.
  unfold _fetch_reg_imm. fetch_bind. intros b Hb. cbv zeta.
  fetch_bind. intros l Hl. second_width.
  fetch_bind. intros x Hx.
  apply reads_ret. split; [auto with fetch|by apply immediate_is_u64].
Qed.

Lemma reads_fetch_reg_imm_imm : reads _fetch_reg_imm_imm
  (fun '(r, w, x, y) => is_reg r /\ is_u64 w /\ is_u64 x /\ is_u64 y).
Proof.
  unfold _fetch_reg_imm_imm. fetch_bind. intros b Hb. cbv zeta.
  fetch_bind. intros w Hw.
  pose proof (min4_range ((b / 16) mod 8) (mod8_nonneg _)).
  fetch_bind. intros x Hx.
  fetch_bind. intros l Hl. second_width.
  fetch_bind. intros y Hy.
  apply reads_ret. split; [auto with fetch|]. split; [done|]. split; by apply immediate_is_u64.
Qed.

Lemma reads_fetch_reg_imm_offset : reads _fetch_reg_imm_offset
  (fun '(r, w, x, y) => is_reg r /\ is_u64 w /\ is_u64 x).
Proof.
  unfold _fetch_reg_imm_offset. fetch_bind. intros b Hb. cbv zeta.
  fetch_bind. intros w Hw.
  pose proof (min4_range ((b / 16) mod 8) (mod8_nonneg _)).
  fetch_bind. intros x Hx.
  fetch_bind. intros l Hl.
  fetch_bind. intros y Hy.
  apply reads_ret. split; [auto with fetch|]. split; [done|]. by apply immediate_is_u64.
Qed.

Lemma reads_fetch_reg_reg : reads _fetch_reg_reg
  (fun '(r_d, r_a, w) => is_reg r_d /\ is_reg r_a /\ is_u64 w).
Proof.
  unfold _fetch_reg_reg. fetch_bind. intros b Hb. cbv zeta.
  fetch_bind. intros w Hw.
  apply reads_ret. auto with fetch.
Qed.

Lemma reads_fetch_reg_reg_imm : reads _fetch_reg_reg_imm
  (fun '(r_a, r_b, w_a, w_b, v_x) => is_reg r_a /\ is_reg r_b /\ is_u64 w_a /\ is_u64 w_b /\ is_u64 v_x).
Proof.
  unfold _fetch_reg_reg_imm. fetch_bind. intros b Hb. cbv zeta.
  fetch_bind. intros wa Hwa.
  fetch_bind. intros wb Hwb.
  fetch_bind. intros l Hl. second_width.
  fetch_bind. intros x Hx.
  apply reads_ret. split_and!; auto with fetch.
Qed.

Lemma reads_fetch_reg_reg_offset : reads _fetch_reg_reg_offset
  (fun '(r_a, r_b, w_a, w_b, v_x) => is_reg r_a /\ is_reg r_b /\ is_u64 w_a /\ is_u64 w_b).
Proof.
  unfold _fetch_reg_reg_offset. fetch_bind. intros l Hl.
  fetch_bind. intros b Hb. cbv zeta.
  fetch_bind. intros wa Hwa.
  fetch_bind. intros wb Hwb. second_width.
  fetch_bind. intros x Hx.
  apply reads_ret. split_and!; auto with fetch.
Qed.

Lemma reads_fetch_reg_reg_imm_imm : reads _fetch_reg_reg_imm_imm
  (fun '(r_a, r_b, w_b, v_x, v_y) => is_reg r_a /\ is_reg r_b /\ is_u64 w_b /\ is_u64 v_x /\ is_u64 v_y).
Proof.
  unfold _fetch_reg_reg_imm_imm. fetch_bind. intros l Hl.
  fetch_bind. intros b Hb. cbv zeta.
  fetch_bind. intros wb Hwb.
  fetch_bind. intros b2 Hb2. second_width.
  pose proof (min4_range (b2 mod 8) (mod8_nonneg b2)).
  fetch_bind. intros x Hx.
  fetch_bind. intros y Hy.
  apply reads_ret. split_and!; auto with fetch; by apply immediate_is_u64.
Qed.

Lemma reads_fetch_reg_reg_reg : reads _fetch_reg_reg_reg
  (fun '(r_a, r_b, r_d, a, b) => is_reg r_a /\ is_reg r_b /\ is_reg r_d /\ is_u64 a /\ is_u64 b).
Proof.
  unfold _fetch_reg_reg_reg. fetch_bind. intros b Hb. cbv zeta.
  fetch_bind. intros b2 Hb2.
  fetch_bind. intros wa Hwa.
  fetch_bind. intros wb Hwb.
  apply reads_ret. split_and!; auto with fetch.
Qed.

(** ** What an instruction may do *)

(** Instructions keep the counter, the gas, the code and the page permissions. *)
Record same_frame (vm vm' : VM) : Prop := {
  sf_code : vm_code vm' = vm_code vm;
  sf_pc : pc vm' = pc vm;
  sf_opcode : opcode vm' = opcode vm;
  sf_gas : gas vm' = gas vm;
  sf_inst_nr : inst_nr vm' = inst_nr vm;
  sf_block : current_block_start vm' = current_block_start vm;
  sf_readable : pages_r (mem vm') = pages_r (mem vm);
  sf_writable : pages_w (mem vm') = pages_w (mem vm);
  sf_bounds : bounds (mem vm') = bounds (mem vm)
}.

Lemma same_frame_refl vm : same_frame vm vm.
Proof. by split. Qed.
Lemma same_frame_trans a b c : same_frame a b -> same_frame b c -> same_frame a c.
Proof. intros [] []. split; congruence. Qed.

(** The recorded address is the start of a page above the guard zone that may
    not be written. *)
Definition page_fault_at (vm : VM) : Prop :=
  exists pg, _mem_addr vm = pg * 4096 /\ 16 <= pg <= 1048575 /\ pg ∉ pages_w (mem vm).

Definition handler_post (o : Opcode.t) (vm : VM) (res : outcome exn unit * VM) : Prop :=
  let vm' := res.2 in
  same_frame vm vm' /\ regs_ok vm' /\ mem_wf (mem vm') /\
  match res.1 with
  | Ret _ =>
      match status vm' with
      | ExitReason.resume =>
          if is_termination (Opcode.value o)
          then pc vm' + skip_len vm' ∈ basic_block_starts_set (vm_code vm')
          else skip_len vm' = skip_len vm
      | ExitReason.halt => is_termination (Opcode.value o) = true
      | ExitReason.host_halt =>
          o = Opcode.ecalli /\ (exists v, exit_value vm' = Some v /\ is_u64 v) /\ skip_len vm' = skip_len vm
      | _ => False
      end
  | Raise e =>
      status vm' = status vm /\
      (e = PanicError \/ (e = PVMMemoryError /\ page_fault_at vm') \/
       (e = PyException /\ o = Opcode.div_u_32))
  end.

(** A machine in the middle of an instruction. *)
Record midway (vm vm' : VM) : Prop := {
  mw_frame : same_frame vm vm';
  mw_inst : at_inst vm';
  mw_status : status vm' = status vm;
  mw_skip : skip_len vm' = skip_len vm
}.

Lemma midway_post o vm vm' res : midway vm vm' -> handler_post o vm' res -> handler_post o vm res.
Proof.
  intros [Hf _ Hs Hk] (Hf' & Hr & Hm & Hres). split; [by eapply same_frame_trans|].
  split; [done|]. split; [done|]. destruct res as [[u|e] vm'']; cbn in *; [|by rewrite <-Hs].
  destruct (status vm''); try done.
  - destruct (is_termination _); [done|]. congruence.
  - destruct Hres as (? & ? & ?). split_and!; try done. congruence.
Qed.

Lemma midway_regs vm r v :
  at_inst vm -> is_reg r -> is_u64 v ->
  exists l, py_set (reg vm) r v = Some l /\ midway vm (set_reg_list l vm).
Proof.
  intros [Hc Hp [Hlen Hok] Hm] Hr Hv. exists (<[Z.to_nat r := v]> (reg vm)).
  split; [apply py_set_nonneg; unfold is_reg in Hr; lia|].
  split; [by split| |done|done]. split; [done|done| |done].
  split; cbn; [by rewrite length_insert|]. by apply Forall_insert.
Qed.

Lemma set_reg_then {B} vm r v (k : unit -> M B) (Φ : outcome exn B * VM -> Prop) :
  at_inst vm -> is_reg r -> is_u64 v ->
  (forall vm', midway vm vm' -> Φ (k tt vm')) -> Φ ((set_reg r v ≫= k) vm).
Proof.
  intros Hi Hr Hv Hk. destruct (midway_regs vm r v Hi Hr Hv) as (l & Hl & Hmid).
  rewrite eff_bind_run. unfold set_reg. rewrite Hl. by apply Hk.
Qed.

Lemma unchanged_post o vm :
  at_inst vm -> status vm = ExitReason.resume -> is_termination (Opcode.value o) = false ->
  handler_post o vm (Ret tt, vm).
Proof.
  intros [Hc Hp Hr Hm] Hs Ht. split; [apply same_frame_refl|]. split; [done|]. split; [done|].
  cbn. by rewrite Hs, Ht.
Qed.

Lemma set_reg_post o vm r v :
  at_inst vm -> status vm = ExitReason.resume -> is_termination (Opcode.value o) = false ->
  is_reg r -> is_u64 v -> handler_post o vm (set_reg r v vm).
Proof.
  intros Hi Hs Ht Hr Hv. destruct (midway_regs vm r v Hi Hr Hv) as (l & Hl & Hmid).
  unfold set_reg. rewrite Hl. apply (midway_post _ _ _ _ Hmid).
  pose proof Hmid as [_ Hi' Hs' _]. apply unchanged_post; [done|congruence|done].
Qed.

Lemma panic_post o vm :
  at_inst vm -> handler_post o vm (Raise PanicError, vm).
Proof.
  intros [Hc Hp Hr Hm]. split; [apply same_frame_refl|]. split; [done|]. split; [done|].
  split; [done|by left].
Qed.

(** *** Jumps *)

Lemma jump_post o vm s :
  at_inst vm -> status vm = ExitReason.resume -> is_termination (Opcode.value o) = true ->
  is_block_start vm (pc vm + s) = true -> handler_post o vm (Ret tt, set_skip_len s vm).
Proof.
  intros [Hc Hp Hr Hm] Hs Ht Hb. split; [by split|]. split; [done|]. split; [done|].
  cbn. rewrite Hs, Ht. by apply bool_decide_eq_true in Hb.
Qed.

Lemma sjump_post o vm offset :
  at_inst vm -> status vm = ExitReason.resume -> is_termination (Opcode.value o) = true ->
  handler_post o vm (sjump offset vm).
Proof.
  intros Hi Hs Ht. unfold sjump. destruct (is_block_start vm (pc vm + offset)) eqn:Hb;
    cbn [negb]; [by apply jump_post|by apply panic_post].
Qed.

Lemma branch_post o vm b C :
  at_inst vm -> status vm = ExitReason.resume -> is_termination (Opcode.value o) = true ->
  handler_post o vm (branch b C vm).
Proof.
  intros Hi Hs Ht. unfold branch. destruct (is_block_start vm (pc vm + b)) eqn:Hb;
    cbn [negb orb]; [|by apply panic_post].
  destruct (is_block_start vm (pc vm + skip_len vm)) eqn:Hn; cbn [negb]; [|by apply panic_post].
  destruct C; [by apply jump_post|]. pose proof (jump_post o vm (skip_len vm) Hi Hs Ht Hn) as H.
  by replace (set_skip_len (skip_len vm) vm) with vm in H by (by destruct vm).
Qed.

Lemma djump_post o vm a :
  at_inst vm -> status vm = ExitReason.resume -> is_termination (Opcode.value o) = true ->
  handler_post o vm ((djump a ≫= fun skip => modify (set_skip_len skip)) vm).
Proof.
  intros Hi Hs Ht. rewrite eff_bind_run. unfold djump.
  destruct (a =? _).
  { pose proof Hi as [Hc Hp Hr Hm]. split; [by split|]. split; [done|]. split; [done|]. done. }
  destruct (_ || _); [by apply panic_post|].
  set (i := a / _ - 1). destruct (Z.ltb_spec i 0), (Z.leb_spec (Z.of_nat (length (jump_table (vm_code vm)))) i);
    cbn [orb]; try by apply panic_post.
  destruct (py_index_Some (jump_table (vm_code vm)) i) as [d Hd]; [lia|]. rewrite Hd.
  destruct (is_block_start vm d) eqn:Hb; cbn [negb]; [|by apply panic_post].
  apply jump_post; try done. by replace (pc vm + (d - pc vm)) with d by lia.
Qed.

(** *** Memory *)

Definition access_width (o : Opcode.t) : Prop := 1 <= mem_ops_bytes o <= 8.

(** A refused access of a few bytes above the guard zone. *)
Lemma refused_fault vm acc a n pg m' :
  0 < n -> 65536 <= a -> a + n <= 2 ^ 32 ->
  pages_w (mem vm) ⊆ acc -> lowest_refused acc a n pg ->
  mem_addr m' = pg * 4096 -> pages_w m' = pages_w (mem vm) ->
  page_fault_at (set_memory m' vm).
Proof.
  intros Hn Ha Hb Hsub (Hin & Hno & _) Hm Hw. exists pg. split; [done|].
  apply elem_of_py_range in Hin.
  assert (16 <= pg <= 1048575) as Hpg.
  { pose proof (Z.div_le_mono 65536 a 4096 ltac:(lia) ltac:(lia)). change (65536 / 4096) with 16 in *.
    pose proof (Z.div_lt_upper_bound (a + n - 1) 4096 1048576 ltac:(lia) ltac:(lia)). lia. }
  split; [done|]. cbn. rewrite Hw. intros Hc. apply Hno. split; [lia|]. by apply Hsub.
Qed.

Lemma midway_memory vm m' :
  at_inst vm -> mem_wf m' -> pages_r m' = pages_r (mem vm) -> pages_w m' = pages_w (mem vm) ->
  bounds m' = bounds (mem vm) ->
  midway vm (set_memory m' vm).
Proof. intros [Hc Hp Hr Hm] Hw H1 H2 H3. split; [by split|by split|done|done]. Qed.

Lemma fault_post o vm m' :
  midway vm (set_memory m' vm) -> status vm = ExitReason.resume ->
  page_fault_at (set_memory m' vm) -> handler_post o vm (Raise PVMMemoryError, set_memory m' vm).
Proof.
  intros [Hf [_ _ Hr Hm] Hs _] Hst Hp. split; [done|]. split; [done|]. split; [done|].
  cbn. split; [done|]. right. left. done.
Qed.

Lemma mem_read_then o oo vm a (k : Z -> M unit) :
  at_inst vm -> status vm = ExitReason.resume -> access_width oo ->
  (forall v vm', midway vm vm' -> 0 <= v < 2 ^ (8 * mem_ops_bytes oo) -> handler_post o vm (k v vm')) ->
  handler_post o vm ((mem_read oo a ≫= k) vm).
Proof.
  intros Hi Hs Hw Hk. pose proof Hi as [_ _ _ Hm]. unfold mem_read, access_width in *.
  set (n := mem_ops_bytes oo) in *. set (addr := u32 a).
  destruct (Z.ltb_spec addr 65536); cbn [orb];
    [rewrite eff_raise_bind; by apply panic_post|].
  destruct (Z.ltb_spec (2 ^ 32) (addr + n)); cbn [orb];
    [rewrite eff_raise_bind; by apply panic_post|].
  rewrite eff_bind_run. unfold on_memory, read_int. destruct (Z.leb_spec n 0); [lia|].
  rewrite eff_bind_run.
  assert (0 <= addr < SIZE) as Ha by (unfold SIZE; lia).
  assert (midway vm (set_memory (set_mem_addr addr (mem vm)) vm)) as Hmid by by apply midway_memory.
  destruct (read_bytes_spec addr n None (mem vm) Ha ltac:(lia)) as [[Hacc ->]|(pg & Hpg & ->)].
  - autorewrite with eff. cbn [pad]. apply Hk; [done|].
    assert (0 < n) as Hn by lia. pose proof (accessible_end _ addr n Hn (proj1 Ha) Hacc).
    rewrite <-mv_slice_range by lia.
    pose proof (le_int_range _ (mv_wf_slice (mv (mem vm)) addr (addr + n) (proj1 Hm))) as Hr.
    rewrite length_mv_slice in Hr by lia. replace (addr + n - addr) with n in Hr by lia.
    change 256 with (2 ^ 8) in Hr. by rewrite <-Z.pow_mul_r in Hr by lia.
  - apply fault_post; [by apply midway_memory|done|].
    apply (refused_fault vm (pages_r (mem vm)) addr n pg); try done; [lia..|apply Hm].
Qed.

Lemma mem_write_post o oo vm a v :
  at_inst vm -> status vm = ExitReason.resume -> access_width oo ->
  is_termination (Opcode.value o) = false -> handler_post o vm (mem_write oo a v vm).
Proof.
  intros Hi Hs Hw Ht. pose proof Hi as [_ _ _ Hm]. unfold mem_write, access_width in *.
  set (n := mem_ops_bytes oo) in *. set (addr := u32 a).
  destruct (Z.ltb_spec addr 65536); cbn [orb]; [by apply panic_post|].
  destruct (Z.ltb_spec (2 ^ 32) (addr + n)); cbn [orb]; [by apply panic_post|].
  unfold on_memory, write_int. destruct (Z.leb_spec n 0); [lia|].
  set (data := le_bytes _ _).
  assert (length data = Z.to_nat n) as Hlen by apply length_le_bytes.
  assert (data <> []) as Hne by (intros Hd; rewrite Hd in Hlen; cbn in Hlen; lia).
  assert (0 <= addr < SIZE) as Ha by (unfold SIZE; lia).
  pose proof (write_bytes_wf addr data (mem vm) (le_bytes_bytes _ _) Hm) as Hwf.
  pose proof (write_bytes_cases addr data (mem vm) Ha Hne) as Hc. cbn zeta in Hc.
  rewrite Hlen, Z2Nat.id in Hc by lia.
  destruct Hc as [[_ Hc]|(pg & Hpg & Hc)]; rewrite Hc in Hwf |- *.
  - assert (midway vm (set_memory (set_mv (set_mem_addr addr (mem vm))
      (mv_store (mv (mem vm)) addr data)) vm)) as Hmid by by apply midway_memory.
    apply (midway_post _ _ _ _ Hmid). apply unchanged_post; [apply Hmid|done|done].
  - apply fault_post; [by apply midway_memory|done|].
    apply (refused_fault vm (pages_w (mem vm)) addr n pg); try done; lia.
Qed.
