(* ===== verification/Ops.v ===== *)
(** * The instruction handlers

    [pvm/interpreters/cpython/opcodes]: one definition per handler, by operand
    scheme, and the dispatch table [_opcode_lut].  The calls of the logger
    ([vm.log]) are left out.  [reg_reg._op_sbrk] is not in the dispatch table
    and is not modelled. *)

From Stdlib Require Import ZArith Lia Bool List.
From stdpp Require Import base numbers option list gmap.
From S2P Require Import Prelude Constants Defs Memory Machine.
Import ListNotations.

#[local] Open Scope Z_scope.
#[local] Open Scope py_scope.

(** ** none.py *)

Definition _op_invalid : M unit :=
  raise InvalidOpcode.

Definition _op_trap : M unit :=
  raise PanicError.

Definition _op_fallthrough : M unit :=
  s ← gets skip_len;
  sjump s.

Definition _op_unlikely : M unit :=
  mret tt.

(** ** imm.py *)

Definition _op_ecalli : M unit :=
  v_x ← _fetch_imm;
  modify (set_status ExitReason.host_halt) ≫= fun _ =>
  modify (set_exit_value (Some v_x)).

(** ** imm_imm.py *)

Definition _op_store_imm_u8 : M unit :=
  '(v_x, v_y) ← _fetch_imm_imm;
  mem_write Opcode.store_imm_u8 v_x (v_y mod 2 ^ 8).

Definition _op_store_imm_u16 : M unit :=
  '(v_x, v_y) ← _fetch_imm_imm;
  mem_write Opcode.store_imm_u16 v_x (v_y mod 2 ^ 16).

Definition _op_store_imm_u32 : M unit :=
  '(v_x, v_y) ← _fetch_imm_imm;
  mem_write Opcode.store_imm_u32 v_x (u32 v_y).

Definition _op_store_imm_u64 : M unit :=
  '(v_x, v_y) ← _fetch_imm_imm;
  mem_write Opcode.store_imm_u64 v_x v_y.

(** ** offset.py *)

Definition _op_jump : M unit :=
  v_x ← _fetch_offset;
  sjump v_x.

(** ** reg_ext_imm.py *)

Definition _op_load_imm_64 : M unit :=
  '(r_a, v_x) ← _fetch_reg_ext_imm;
  set_reg r_a v_x.

(** ** reg_imm.py *)

Definition _op_jump_ind : M unit :=
  '(r_a, v_x) ← _fetch_reg_imm;
  w_a ← get_reg r_a;
  skip ← djump (u32 (w_a + v_x));
  modify (set_skip_len skip).

Definition _op_load_imm : M unit :=
  '(r_a, v_x) ← _fetch_reg_imm;
  set_reg r_a v_x.

Definition _op_load_u8 : M unit :=
  '(r_a, v_x) ← _fetch_reg_imm;
  v ← mem_read Opcode.load_u8 v_x;
  set_reg r_a v.

Definition _op_load_i8 : M unit :=
  '(r_a, v_x) ← _fetch_reg_imm;
  v ← mem_read Opcode.load_i8 v_x;
  set_reg r_a (pvm_X v 1).

Definition _op_load_u16 : M unit :=
  '(r_a, v_x) ← _fetch_reg_imm;
  v ← mem_read Opcode.load_u16 v_x;
  set_reg r_a v.

Definition _op_load_i16 : M unit :=
  '(r_a, v_x) ← _fetch_reg_imm;
  v ← mem_read Opcode.load_i16 v_x;
  set_reg r_a (pvm_X v 2).

Definition _op_load_u32 : M unit :=
  '(r_a, v_x) ← _fetch_reg_imm;
  v ← mem_read Opcode.load_u32 v_x;
  set_reg r_a v.

Definition _op_load_i32 : M unit :=
  '(r_a, v_x) ← _fetch_reg_imm;
  v ← mem_read Opcode.load_i32 v_x;
  set_reg r_a (pvm_X v 4).

Definition _op_load_u64 : M unit :=
  '(r_a, v_x) ← _fetch_reg_imm;
  v ← mem_read Opcode.load_u64 v_x;
  set_reg r_a v.

Definition _op_store_u8 : M unit :=
  '(r_a, v_x) ← _fetch_reg_imm;
  w_a ← get_reg r_a;
  mem_write Opcode.store_u8 v_x (u8 w_a).

Definition _op_store_u16 : M unit :=
  '(r_a, v_x) ← _fetch_reg_imm;
  w_a ← get_reg r_a;
  mem_write Opcode.store_u16 v_x (u16 w_a).

Definition _op_store_u32 : M unit :=
  '(r_a, v_x) ← _fetch_reg_imm;
  w_a ← get_reg r_a;
  mem_write Opcode.store_u32 v_x (u32 w_a).

Definition _op_store_u64 : M unit :=
  '(r_a, v_x) ← _fetch_reg_imm;
  w_a ← get_reg r_a;
  mem_write Opcode.store_u64 v_x w_a.

(** ** reg_imm_imm.py *)

Definition _op_store_imm_ind_u8 : M unit :=
  '(r_a, w_a, v_x, v_y) ← _fetch_reg_imm_imm;
  let addr := u32 (w_a + v_x) in
  mem_write Opcode.store_imm_ind_u8 addr (u8 v_y).

Definition _op_store_imm_ind_u16 : M unit :=
  '(r_a, w_a, v_x, v_y) ← _fetch_reg_imm_imm;
  let addr := u32 (w_a + v_x) in
  mem_write Opcode.store_imm_ind_u16 addr (u16 v_y).

Definition _op_store_imm_ind_u32 : M unit :=
  '(r_a, w_a, v_x, v_y) ← _fetch_reg_imm_imm;
  let addr := u32 (w_a + v_x) in
  mem_write Opcode.store_imm_ind_u32 addr (u32 v_y).

Definition _op_store_imm_ind_u64 : M unit :=
  '(r_a, w_a, v_x, v_y) ← _fetch_reg_imm_imm;
  let addr := u32 (w_a + v_x) in
  mem_write Opcode.store_imm_ind_u64 addr v_y.

(** ** reg_imm_offset.py *)

Definition _op_load_imm_jump : M unit :=
  '(r_a, w_a, v_x, v_y) ← _fetch_reg_imm_offset;
  set_reg r_a v_x ≫= fun _ =>
  sjump v_y.

Definition _op_branch_eq_imm : M unit :=
  '(r_a, w_a, v_x, v_y) ← _fetch_reg_imm_offset;
  branch v_y (w_a =? v_x).

Definition _op_branch_ne_imm : M unit :=
  '(r_a, w_a, v_x, v_y) ← _fetch_reg_imm_offset;
  branch v_y (negb (w_a =? v_x)).

Definition _op_branch_lt_u_imm : M unit :=
  '(r_a, w_a, v_x, v_y) ← _fetch_reg_imm_offset;
  branch v_y (w_a <? v_x).

Definition _op_branch_le_u_imm : M unit :=
  '(r_a, w_a, v_x, v_y) ← _fetch_reg_imm_offset;
  branch v_y (w_a <=? v_x).

Definition _op_branch_ge_u_imm : M unit :=
  '(r_a, w_a, v_x, v_y) ← _fetch_reg_imm_offset;
  branch v_y (v_x <=? w_a).

Definition _op_branch_gt_u_imm : M unit :=
  '(r_a, w_a, v_x, v_y) ← _fetch_reg_imm_offset;
  branch v_y (v_x <? w_a).

Definition _op_branch_lt_s_imm : M unit :=
  '(r_a, w_a, v_x, v_y) ← _fetch_reg_imm_offset;
  branch v_y (pvm_Z w_a 8 <? pvm_Z v_x 8).

Definition _op_branch_le_s_imm : M unit :=
  '(r_a, w_a, v_x, v_y) ← _fetch_reg_imm_offset;
  branch v_y (pvm_Z w_a 8 <=? pvm_Z v_x 8).

Definition _op_branch_ge_s_imm : M unit :=
  '(r_a, w_a, v_x, v_y) ← _fetch_reg_imm_offset;
  branch v_y (pvm_Z v_x 8 <=? pvm_Z w_a 8).

Definition _op_branch_gt_s_imm : M unit :=
  '(r_a, w_a, v_x, v_y) ← _fetch_reg_imm_offset;
  branch v_y (pvm_Z v_x 8 <? pvm_Z w_a 8).

(** ** reg_reg.py *)

Definition _op_move_reg : M unit :=
  '(r_d, r_a, w_a) ← _fetch_reg_reg;
  set_reg r_d w_a.

Definition _op_count_set_bits_64 : M unit :=
  '(r_d, r_a, w_a) ← _fetch_reg_reg;
  set_reg r_d (bit_count (w_a .& 0xFFFFFFFFFFFFFFFF)).

Definition _op_count_set_bits_32 : M unit :=
  '(r_d, r_a, w_a) ← _fetch_reg_reg;
  set_reg r_d (bit_count (w_a .& 0xFFFFFFFF)).

Definition _op_leading_zero_bits_64 : M unit :=
  '(r_d, r_a, w_a) ← _fetch_reg_reg;
  set_reg r_d (count_leading_zeroes w_a 64).

Definition _op_leading_zero_bits_32 : M unit :=
  '(r_d, r_a, w_a) ← _fetch_reg_reg;
  set_reg r_d (count_leading_zeroes w_a 32).

Definition _op_trailing_zero_bits_64 : M unit :=
  '(r_d, r_a, w_a) ← _fetch_reg_reg;
  set_reg r_d (count_trailing_zeroes w_a 64).

Definition _op_trailing_zero_bits_32 : M unit :=
  '(r_d, r_a, w_a) ← _fetch_reg_reg;
  set_reg r_d (count_trailing_zeroes w_a 32).

Definition _op_sign_extend_8 : M unit :=
  '(r_d, r_a, w_a) ← _fetch_reg_reg;
  set_reg r_d (pvm_Z_inv (pvm_Z (u8 w_a) 1) 8).

Definition _op_sign_extend_16 : M unit :=
  '(r_d, r_a, w_a) ← _fetch_reg_reg;
  set_reg r_d (pvm_Z_inv (pvm_Z (u16 w_a) 2) 8).

Definition _op_zero_extend_16 : M unit :=
  '(r_d, r_a, w_a) ← _fetch_reg_reg;
  set_reg r_d (u16 w_a).

Definition _op_reverse_bytes : M unit :=
  '(r_d, r_a, w_a) ← _fetch_reg_reg;
  v ← lift (reverse_bytes (w_a .& 0xFFFFFFFFFFFFFFFF));
  set_reg r_d v.

(** ** reg_reg_imm.py *)

Definition _op_store_ind_u8 : M unit :=
  '(r_a, r_b, w_a, w_b, v_x) ← _fetch_reg_reg_imm;
  mem_write Opcode.store_ind_u8 (u32 (w_b + v_x)) (u8 w_a).

Definition _op_store_ind_u16 : M unit :=
  '(r_a, r_b, w_a, w_b, v_x) ← _fetch_reg_reg_imm;
  mem_write Opcode.store_ind_u16 (u32 (w_b + v_x)) (u16 w_a).

Definition _op_store_ind_u32 : M unit :=
  '(r_a, r_b, w_a, w_b, v_x) ← _fetch_reg_reg_imm;
  mem_write Opcode.store_ind_u32 (u32 (w_b + v_x)) (u32 w_a).

Definition _op_store_ind_u64 : M unit :=
  '(r_a, r_b, w_a, w_b, v_x) ← _fetch_reg_reg_imm;
  mem_write Opcode.store_ind_u64 (u32 (w_b + v_x)) w_a.

Definition _op_load_ind_u8 : M unit :=
  '(r_a, r_b, w_a, w_b, v_x) ← _fetch_reg_reg_imm;
  v ← mem_read Opcode.load_ind_u8 (u32 (w_b + v_x));
  set_reg r_a v.

Definition _op_load_ind_i8 : M unit :=
  '(r_a, r_b, w_a, w_b, v_x) ← _fetch_reg_reg_imm;
  v ← mem_read Opcode.load_ind_i8 (u32 (w_b + v_x));
  set_reg r_a (pvm_Z_inv (pvm_Z v 1) 8).

Definition _op_load_ind_u16 : M unit :=
  '(r_a, r_b, w_a, w_b, v_x) ← _fetch_reg_reg_imm;
  v ← mem_read Opcode.load_ind_u16 (u32 (w_b + v_x));
  set_reg r_a v.

Definition _op_load_ind_i16 : M unit :=
  '(r_a, r_b, w_a, w_b, v_x) ← _fetch_reg_reg_imm;
  v ← mem_read Opcode.load_ind_i16 (u32 (w_b + v_x));
  set_reg r_a (pvm_Z_inv (pvm_Z v 2) 8).

Definition _op_load_ind_u32 : M unit :=
  '(r_a, r_b, w_a, w_b, v_x) ← _fetch_reg_reg_imm;
  v ← mem_read Opcode.load_ind_u32 (u32 (w_b + v_x));
  set_reg r_a v.

Definition _op_load_ind_i32 : M unit :=
  '(r_a, r_b, w_a, w_b, v_x) ← _fetch_reg_reg_imm;
  v ← mem_read Opcode.load_ind_i32 (u32 (w_b + v_x));
  set_reg r_a (pvm_Z_inv (pvm_Z v 4) 8).

Definition _op_load_ind_u64 : M unit :=
  '(r_a, r_b, w_a, w_b, v_x) ← _fetch_reg_reg_imm;
  v ← mem_read Opcode.load_ind_u64 (u32 (w_b + v_x));
  set_reg r_a v.

Definition _op_add_imm_32 : M unit :=
  '(r_a, r_b, w_a, w_b, v_x) ← _fetch_reg_reg_imm;
  set_reg r_a (pvm_X (u32 (w_b + v_x)) 4).

Definition _op_and_imm : M unit :=
  '(r_a, r_b, w_a, w_b, v_x) ← _fetch_reg_reg_imm;
  set_reg r_a (w_b .& v_x).

Definition _op_xor_imm : M unit :=
  '(r_a, r_b, w_a, w_b, v_x) ← _fetch_reg_reg_imm;
  set_reg r_a (w_b .^ v_x).

Definition _op_or_imm : M unit :=
  '(r_a, r_b, w_a, w_b, v_x) ← _fetch_reg_reg_imm;
  set_reg r_a (w_b .| v_x).

Definition _op_mul_imm_32 : M unit :=
  '(r_a, r_b, w_a, w_b, v_x) ← _fetch_reg_reg_imm;
  set_reg r_a (pvm_X (u32 (w_b * v_x)) 4).

Definition _op_set_lt_u_imm : M unit :=
  '(r_a, r_b, w_a, w_b, v_x) ← _fetch_reg_reg_imm;
  set_reg r_a (if w_b <? v_x then 1 else 0).

Definition _op_set_lt_s_imm : M unit :=
  '(r_a, r_b, w_a, w_b, v_x) ← _fetch_reg_reg_imm;
  set_reg r_a (if pvm_Z w_b 8 <? pvm_Z v_x 8 then 1 else 0).

Definition _op_shlo_l_imm_32 : M unit :=
  '(r_a, r_b, w_a, w_b, v_x) ← _fetch_reg_reg_imm;
  set_reg r_a (pvm_X (u32 (w_b ≪ (v_x .& 31))) 4).

Definition _op_shlo_r_imm_32 : M unit :=
  '(r_a, r_b, w_a, w_b, v_x) ← _fetch_reg_reg_imm;
  set_reg r_a (pvm_X (u32 w_b ≫ (v_x .& 31)) 4).

Definition _op_shar_r_imm_32 : M unit :=
  '(r_a, r_b, w_a, w_b, v_x) ← _fetch_reg_reg_imm;
  set_reg r_a (pvm_Z_inv (pvm_Z (w_b .& MASK32) 4 ≫ (v_x .& 31)) 8).

Definition _op_neg_add_imm_32 : M unit :=
  '(r_a, r_b, w_a, w_b, v_x) ← _fetch_reg_reg_imm;
  set_reg r_a (pvm_X (u32 (v_x + 1 ≪ 32 - w_b)) 4).

Definition _op_set_gt_u_imm : M unit :=
  '(r_a, r_b, w_a, w_b, v_x) ← _fetch_reg_reg_imm;
  set_reg r_a (if v_x <? w_b then 1 else 0).

Definition _op_set_gt_s_imm : M unit :=
  '(r_a, r_b, w_a, w_b, v_x) ← _fetch_reg_reg_imm;
  set_reg r_a (if pvm_Z v_x 8 <? pvm_Z w_b 8 then 1 else 0).

Definition _op_shlo_l_imm_alt_32 : M unit :=
  '(r_a, r_b, w_a, w_b, v_x) ← _fetch_reg_reg_imm;
  set_reg r_a (pvm_X (u32 (v_x ≪ (w_b .& 31))) 4).

Definition _op_shlo_r_imm_alt_32 : M unit :=
  '(r_a, r_b, w_a, w_b, v_x) ← _fetch_reg_reg_imm;
  set_reg r_a (pvm_X (u32 v_x ≫ (w_b .& 31)) 4).

Definition _op_shar_r_imm_alt_32 : M unit :=
  '(r_a, r_b, w_a, w_b, v_x) ← _fetch_reg_reg_imm;
  let shift := w_b .& 31 in
  set_reg r_a (pvm_Z_inv (pvm_Z (v_x .& 0xFFFFFFFF) 4 ≫ shift) 8).

Definition _op_cmov_iz_imm : M unit :=
  '(r_a, r_b, w_a, w_b, v_x) ← _fetch_reg_reg_imm;
  if w_b =? 0 then set_reg r_a v_x else mret tt.

Definition _op_cmov_nz_imm : M unit :=
  '(r_a, r_b, w_a, w_b, v_x) ← _fetch_reg_reg_imm;
  if negb (w_b =? 0) then set_reg r_a v_x else mret tt.

Definition _op_add_imm_64 : M unit :=
  '(r_a, r_b, w_a, w_b, v_x) ← _fetch_reg_reg_imm;
  set_reg r_a (u64 (w_b + v_x)).

Definition _op_mul_imm_64 : M unit :=
  '(r_a, r_b, w_a, w_b, v_x) ← _fetch_reg_reg_imm;
  set_reg r_a (u64 (w_b * v_x)).

Definition _op_shlo_l_imm_64 : M unit :=
  '(r_a, r_b, w_a, w_b, v_x) ← _fetch_reg_reg_imm;
  set_reg r_a (pvm_X (w_b ≪ (v_x .& 63)) 8).

Definition _op_shlo_r_imm_64 : M unit :=
  '(r_a, r_b, w_a, w_b, v_x) ← _fetch_reg_reg_imm;
  set_reg r_a (pvm_X (w_b ≫ (v_x .& 63)) 8).

Definition _op_shar_r_imm_64 : M unit :=
  '(r_a, r_b, w_a, w_b, v_x) ← _fetch_reg_reg_imm;
  set_reg r_a (pvm_Z_inv (pvm_Z w_b 8 ≫ (v_x .& 63)) 8).

Definition _op_neg_add_imm_64 : M unit :=
  '(r_a, r_b, w_a, w_b, v_x) ← _fetch_reg_reg_imm;
  set_reg r_a ((v_x + 1 ≪ 64 - w_b) .& MASK64).

Definition _op_shlo_l_imm_alt_64 : M unit :=
  '(r_a, r_b, w_a, w_b, v_x) ← _fetch_reg_reg_imm;
  set_reg r_a ((v_x ≪ (w_b .& 63)) .& MASK64).

Definition _op_shlo_r_imm_alt_64 : M unit :=
  '(r_a, r_b, w_a, w_b, v_x) ← _fetch_reg_reg_imm;
  set_reg r_a (v_x ≫ (w_b .& 63)).

Definition _op_shar_r_imm_alt_64 : M unit :=
  '(r_a, r_b, w_a, w_b, v_x) ← _fetch_reg_reg_imm;
  let signed_val := pvm_Z v_x 8 in
  let shift_amount := w_b .& 63 in
  let shifted := signed_val ≫ shift_amount in
  let shifted := if shifted <? 0 then shifted + 1 ≪ 64 else shifted in
  set_reg r_a (shifted .& MASK64).

Definition _op_rot_r_64_imm : M unit :=
  '(r_a, r_b, w_a, w_b, v_x) ← _fetch_reg_reg_imm;
  set_reg r_a (rori64 w_b v_x).

Definition _op_rot_r_64_imm_alt : M unit :=
  '(r_a, r_b, w_a, w_b, v_x) ← _fetch_reg_reg_imm;
  set_reg r_a (rori64 v_x w_b).

Definition _op_rot_r_32_imm : M unit :=
  '(r_a, r_b, w_a, w_b, v_x) ← _fetch_reg_reg_imm;
  set_reg r_a (pvm_X (rori32 w_b v_x) 4).

Definition _op_rot_r_32_imm_alt : M unit :=
  '(r_a, r_b, w_a, w_b, v_x) ← _fetch_reg_reg_imm;
  set_reg r_a (pvm_X (rori32 v_x w_b) 4).

(** ** reg_reg_reg.py *)

(** [a // b] of non-negative integers. *)
Definition floor_div (a b : Z) : outcome exn Z :=
  if b =? 0 then Raise PyException else Ret (a / b).

Definition _op_add_64 : M unit :=
  '(r_a, r_b, r_d, a, b) ← _fetch_reg_reg_reg;
  set_reg r_d (u64 (a + b)).

Definition _op_add_32 : M unit :=
  '(r_a, r_b, r_d, a, b) ← _fetch_reg_reg_reg;
  set_reg r_d (pvm_X (u32 (a + b)) 4).

Definition _op_sub_32 : M unit :=
  '(r_a, r_b, r_d, a, b) ← _fetch_reg_reg_reg;
  set_reg r_d (pvm_X (u32 (a + 1 ≪ 32 - u32 b)) 4).

Definition _op_mul_32 : M unit :=
  '(r_a, r_b, r_d, a, b) ← _fetch_reg_reg_reg;
  set_reg r_d (pvm_X (u32 (a * b)) 4).

Definition _op_div_u_32 : M unit :=
  '(r_a, r_b, r_d, a, b) ← _fetch_reg_reg_reg;
  if b =? 0 then set_reg r_d (1 ≪ 64 - 1)
  else
    q ← lift (floor_div (u32 a) (u32 b));
    set_reg r_d (pvm_X q 4).

Definition _op_div_s_32 : M unit :=
  '(r_a, r_b, r_d, a, b) ← _fetch_reg_reg_reg;
  let a_s32 := pvm_Z (u32 a) 4 in
  let b_s32 := pvm_Z (u32 b) 4 in
  if b_s32 =? 0 then set_reg r_d (1 ≪ 64 - 1)
  else if (a_s32 =? - (1 ≪ 31)) && (b_s32 =? -1) then set_reg r_d (pvm_Z_inv a_s32 8)
  else
    q ← lift (pvm_rtz_div a_s32 b_s32);
    set_reg r_d (pvm_Z_inv q 8).

Definition _op_rem_u_32 : M unit :=
  '(r_a, r_b, r_d, a, b) ← _fetch_reg_reg_reg;
  if (b .& MASK32) =? 0 then set_reg r_d (pvm_X (a .& MASK32) 4)
  else set_reg r_d (pvm_X ((a .& MASK32) mod (b .& MASK32)) 4).

Definition _op_rem_s_32 : M unit :=
  '(r_a, r_b, r_d, a, b) ← _fetch_reg_reg_reg;
  let a_s32 := pvm_Z (u32 a) 4 in
  let b_s32 := pvm_Z (u32 b) 4 in
  if b_s32 =? 0 then set_reg r_d (pvm_Z_inv a_s32 8)
  else if (a_s32 =? - (1 ≪ 31)) && (b_s32 =? -1) then set_reg r_d 0
  else set_reg r_d (pvm_Z_inv (pvm_smod a_s32 b_s32) 8).

Definition _op_shlo_l_32 : M unit :=
  '(r_a, r_b, r_d, a, b) ← _fetch_reg_reg_reg;
  set_reg r_d (pvm_X ((a ≪ (b .& 31)) .& MASK32) 4).

Definition _op_shlo_r_32 : M unit :=
  '(r_a, r_b, r_d, a, b) ← _fetch_reg_reg_reg;
  set_reg r_d (pvm_X ((a .& MASK32) ≫ (b .& 31)) 4).

Definition _op_shar_r_32 : M unit :=
  '(r_a, r_b, r_d, a, b) ← _fetch_reg_reg_reg;
  let val_32 := a .& MASK32 in
  let val_32 := if 1 ≪ 31 <=? val_32 then val_32 - 1 ≪ 32 else val_32 in
  let result := val_32 ≫ (b .& 31) in
  let result := if result <? 0 then result + 1 ≪ 64 else result in
  set_reg r_d (pvm_Z_inv result 8).

Definition _op_sub_64 : M unit :=
  '(r_a, r_b, r_d, a, b) ← _fetch_reg_reg_reg;
  set_reg r_d (u64 (a + 1 ≪ 64 - b)).

Definition _op_mul_64 : M unit :=
  '(r_a, r_b, r_d, a, b) ← _fetch_reg_reg_reg;
  set_reg r_d (u64 (a * b)).

Definition _op_div_u_64 : M unit :=
  '(r_a, r_b, r_d, a, b) ← _fetch_reg_reg_reg;
  if b =? 0 then set_reg r_d (1 ≪ 64 - 1) else set_reg r_d (a / b).

Definition _op_div_s_64 : M unit :=
  '(r_a, r_b, r_d, a, b) ← _fetch_reg_reg_reg;
  if b =? 0 then set_reg r_d (1 ≪ 64 - 1)
  else if (pvm_Z a 8 =? - (1 ≪ 63)) && (pvm_Z b 8 =? -1) then set_reg r_d a
  else
    q ← lift (pvm_rtz_div (pvm_Z a 8) (pvm_Z b 8));
    set_reg r_d (pvm_Z_inv q 8).

Definition _op_rem_u_64 : M unit :=
  '(r_a, r_b, r_d, a, b) ← _fetch_reg_reg_reg;
  if b =? 0 then set_reg r_d a else set_reg r_d (a mod b).

Definition _op_rem_s_64 : M unit :=
  '(r_a, r_b, r_d, a, b) ← _fetch_reg_reg_reg;
  let a_s64 := pvm_Z a 8 in
  let b_s64 := pvm_Z b 8 in
  if b =? 0 then set_reg r_d a
  else if (a_s64 =? - (1 ≪ 63)) && (b_s64 =? -1) then set_reg r_d 0
  else set_reg r_d (pvm_Z_inv (pvm_smod a_s64 b_s64) 8).

Definition _op_shlo_l_64 : M unit :=
  '(r_a, r_b, r_d, a, b) ← _fetch_reg_reg_reg;
  set_reg r_d (u64 (a ≪ (b .& 63))).

Definition _op_shlo_r_64 : M unit :=
  '(r_a, r_b, r_d, a, b) ← _fetch_reg_reg_reg;
  set_reg r_d (a ≫ (b .& 63)).

Definition _op_shar_r_64 : M unit :=
  '(r_a, r_b, r_d, a, b) ← _fetch_reg_reg_reg;
  let signed_val := pvm_Z a 8 in
  let shifted := signed_val ≫ (b .& 63) in
  set_reg r_d (pvm_Z_inv shifted 8).

Definition _op_and : M unit :=
  '(r_a, r_b, r_d, a, b) ← _fetch_reg_reg_reg;
  set_reg r_d (a .& b).

Definition _op_xor : M unit :=
  '(r_a, r_b, r_d, a, b) ← _fetch_reg_reg_reg;
  set_reg r_d (a .^ b).

Definition _op_or : M unit :=
  '(r_a, r_b, r_d, a, b) ← _fetch_reg_reg_reg;
  set_reg r_d (a .| b).

Definition _op_mul_upper_s_s : M unit :=
  '(r_a, r_b, r_d, a, b) ← _fetch_reg_reg_reg;
  set_reg r_d (pvm_Z_inv ((pvm_Z a 8 * pvm_Z b 8) ≫ 64) 8).

Definition _op_mul_upper_u_u : M unit :=
  '(r_a, r_b, r_d, a, b) ← _fetch_reg_reg_reg;
  set_reg r_d ((a * b) ≫ 64).

Definition _op_mul_upper_s_u : M unit :=
  '(r_a, r_b, r_d, a, b) ← _fetch_reg_reg_reg;
  set_reg r_d (pvm_Z_inv ((pvm_Z a 8 * b) ≫ 64) 8).

Definition _op_set_lt_u : M unit :=
  '(r_a, r_b, r_d, a, b) ← _fetch_reg_reg_reg;
  set_reg r_d (u64 (int_of_bool (a <? b))).

Definition _op_set_lt_s : M unit :=
  '(r_a, r_b, r_d, a, b) ← _fetch_reg_reg_reg;
  set_reg r_d (u64 (int_of_bool (pvm_Z a 8 <? pvm_Z b 8))).

Definition _op_cmov_iz : M unit :=
  '(r_a, r_b, r_d, a, b) ← _fetch_reg_reg_reg;
  if b =? 0 then set_reg r_d a else mret tt.

Definition _op_cmov_nz : M unit :=
  '(r_a, r_b, r_d, a, b) ← _fetch_reg_reg_reg;
  if negb (b =? 0) then set_reg r_d a else mret tt.

Definition _op_rot_l_64 : M unit :=
  '(r_a, r_b, r_d, a, b) ← _fetch_reg_reg_reg;
  set_reg r_d (roli64 a (b .& 63)).

Definition _op_rot_l_32 : M unit :=
  '(r_a, r_b, r_d, a, b) ← _fetch_reg_reg_reg;
  set_reg r_d (pvm_X (rotl32 a b) 4).

Definition _op_rot_r_64 : M unit :=
  '(r_a, r_b, r_d, a, b) ← _fetch_reg_reg_reg;
  set_reg r_d (rori64 a (b .& 63)).

Definition _op_rot_r_32 : M unit :=
  '(r_a, r_b, r_d, a, b) ← _fetch_reg_reg_reg;
  set_reg r_d (pvm_X (rotr32 a b) 4).

Definition _op_and_inv : M unit :=
  '(r_a, r_b, r_d, a, b) ← _fetch_reg_reg_reg;
  set_reg r_d (a .& u64 (Z.lnot b)).

Definition _op_or_inv : M unit :=
  '(r_a, r_b, r_d, a, b) ← _fetch_reg_reg_reg;
  set_reg r_d (a .| u64 (Z.lnot b)).

Definition _op_xnor : M unit :=
  '(r_a, r_b, r_d, a, b) ← _fetch_reg_reg_reg;
  set_reg r_d (Z.lnot (a .^ b) .& MASK64).

Definition _op_max : M unit :=
  '(r_a, r_b, r_d, a, b) ← _fetch_reg_reg_reg;
  set_reg r_d (pvm_Z_inv (Z.max (pvm_Z a 8) (pvm_Z b 8)) 8).

Definition _op_max_u : M unit :=
  '(r_a, r_b, r_d, a, b) ← _fetch_reg_reg_reg;
  set_reg r_d (Z.max a b).

Definition _op_min : M unit :=
  '(r_a, r_b, r_d, a, b) ← _fetch_reg_reg_reg;
  set_reg r_d (pvm_Z_inv (Z.min (pvm_Z a 8) (pvm_Z b 8)) 8).

Definition _op_min_u : M unit :=
  '(r_a, r_b, r_d, a, b) ← _fetch_reg_reg_reg;
  set_reg r_d (Z.min a b).

(** ** reg_reg_imm_imm.py *)

Definition _op_load_imm_jump_ind : M unit :=
  '(r_a, r_b, w_b, v_x, v_y) ← _fetch_reg_reg_imm_imm;
  set_reg r_a v_x ≫= fun _ =>
  skip ← djump (u32 (w_b + v_y));
  modify (set_skip_len skip).

(** ** reg_reg_offset.py *)

Definition _op_branch_eq : M unit :=
  '(r_a, r_b, w_a, w_b, v_x) ← _fetch_reg_reg_offset;
  branch v_x (w_a =? w_b).

Definition _op_branch_ne : M unit :=
  '(r_a, r_b, w_a, w_b, v_x) ← _fetch_reg_reg_offset;
  branch v_x (negb (w_a =? w_b)).

Definition _op_branch_lt_u : M unit :=
  '(r_a, r_b, w_a, w_b, v_x) ← _fetch_reg_reg_offset;
  branch v_x (w_a <? w_b).

Definition _op_branch_lt_s : M unit :=
  '(r_a, r_b, w_a, w_b, v_x) ← _fetch_reg_reg_offset;
  branch v_x (pvm_Z w_a 8 <? pvm_Z w_b 8).

Definition _op_branch_ge_u : M unit :=
  '(r_a, r_b, w_a, w_b, v_x) ← _fetch_reg_reg_offset;
  branch v_x (w_b <=? w_a).

Definition _op_branch_ge_s : M unit :=
  '(r_a, r_b, w_a, w_b, v_x) ← _fetch_reg_reg_offset;
  branch v_x (pvm_Z w_b 8 <=? pvm_Z w_a 8).

(** ** The dispatch table *)

Definition handler (o : Opcode.t) : M unit :=
  match o with
  | Opcode.trap => _op_trap
  | Opcode.fallthrough => _op_fallthrough
  | Opcode.unlikely => _op_unlikely
  | Opcode.ecalli => _op_ecalli
  | Opcode.load_imm_64 => _op_load_imm_64
  | Opcode.store_imm_u8 => _op_store_imm_u8
  | Opcode.store_imm_u16 => _op_store_imm_u16
  | Opcode.store_imm_u32 => _op_store_imm_u32
  | Opcode.store_imm_u64 => _op_store_imm_u64
  | Opcode.jump => _op_jump
  | Opcode.jump_ind => _op_jump_ind
  | Opcode.load_imm => _op_load_imm
  | Opcode.load_u8 => _op_load_u8
  | Opcode.load_i8 => _op_load_i8
  | Opcode.load_u16 => _op_load_u16
  | Opcode.load_i16 => _op_load_i16
  | Opcode.load_u32 => _op_load_u32
  | Opcode.load_i32 => _op_load_i32
  | Opcode.load_u64 => _op_load_u64
  | Opcode.store_u8 => _op_store_u8
  | Opcode.store_u16 => _op_store_u16
  | Opcode.store_u32 => _op_store_u32
  | Opcode.store_u64 => _op_store_u64
  | Opcode.store_imm_ind_u8 => _op_store_imm_ind_u8
  | Opcode.store_imm_ind_u16 => _op_store_imm_ind_u16
  | Opcode.store_imm_ind_u32 => _op_store_imm_ind_u32
  | Opcode.store_imm_ind_u64 => _op_store_imm_ind_u64
  | Opcode.load_imm_jump => _op_load_imm_jump
  | Opcode.branch_eq_imm => _op_branch_eq_imm
  | Opcode.branch_ne_imm => _op_branch_ne_imm
  | Opcode.branch_lt_u_imm => _op_branch_lt_u_imm
  | Opcode.branch_le_u_imm => _op_branch_le_u_imm
  | Opcode.branch_ge_u_imm => _op_branch_ge_u_imm
  | Opcode.branch_gt_u_imm => _op_branch_gt_u_imm
  | Opcode.branch_lt_s_imm => _op_branch_lt_s_imm
  | Opcode.branch_le_s_imm => _op_branch_le_s_imm
  | Opcode.branch_ge_s_imm => _op_branch_ge_s_imm
  | Opcode.branch_gt_s_imm => _op_branch_gt_s_imm
  | Opcode.move_reg => _op_move_reg
  | Opcode.count_set_bits_64 => _op_count_set_bits_64
  | Opcode.count_set_bits_32 => _op_count_set_bits_32
  | Opcode.leading_zero_bits_64 => _op_leading_zero_bits_64
  | Opcode.leading_zero_bits_32 => _op_leading_zero_bits_32
  | Opcode.trailing_zero_bits_64 => _op_trailing_zero_bits_64
  | Opcode.trailing_zero_bits_32 => _op_trailing_zero_bits_32
  | Opcode.sign_extend_8 => _op_sign_extend_8
  | Opcode.sign_extend_16 => _op_sign_extend_16
  | Opcode.zero_extend_16 => _op_zero_extend_16
  | Opcode.reverse_bytes => _op_reverse_bytes
  | Opcode.store_ind_u8 => _op_store_ind_u8
  | Opcode.store_ind_u16 => _op_store_ind_u16
  | Opcode.store_ind_u32 => _op_store_ind_u32
  | Opcode.store_ind_u64 => _op_store_ind_u64
  | Opcode.load_ind_u8 => _op_load_ind_u8
  | Opcode.load_ind_i8 => _op_load_ind_i8
  | Opcode.load_ind_u16 => _op_load_ind_u16
  | Opcode.load_ind_i16 => _op_load_ind_i16
  | Opcode.load_ind_u32 => _op_load_ind_u32
  | Opcode.load_ind_i32 => _op_load_ind_i32
  | Opcode.load_ind_u64 => _op_load_ind_u64
  | Opcode.add_imm_32 => _op_add_imm_32
  | Opcode.and_imm => _op_and_imm
  | Opcode.xor_imm => _op_xor_imm
  | Opcode.or_imm => _op_or_imm
  | Opcode.mul_imm_32 => _op_mul_imm_32
  | Opcode.set_lt_u_imm => _op_set_lt_u_imm
  | Opcode.set_lt_s_imm => _op_set_lt_s_imm
  | Opcode.shlo_l_imm_32 => _op_shlo_l_imm_32
  | Opcode.shlo_r_imm_32 => _op_shlo_r_imm_32
  | Opcode.shar_r_imm_32 => _op_shar_r_imm_32
  | Opcode.neg_add_imm_32 => _op_neg_add_imm_32
  | Opcode.set_gt_u_imm => _op_set_gt_u_imm
  | Opcode.set_gt_s_imm => _op_set_gt_s_imm
  | Opcode.shlo_l_imm_alt_32 => _op_shlo_l_imm_alt_32
  | Opcode.shlo_r_imm_alt_32 => _op_shlo_r_imm_alt_32
  | Opcode.shar_r_imm_alt_32 => _op_shar_r_imm_alt_32
  | Opcode.cmov_iz_imm => _op_cmov_iz_imm
  | Opcode.cmov_nz_imm => _op_cmov_nz_imm
  | Opcode.add_imm_64 => _op_add_imm_64
  | Opcode.mul_imm_64 => _op_mul_imm_64
  | Opcode.shlo_l_imm_64 => _op_shlo_l_imm_64
  | Opcode.shlo_r_imm_64 => _op_shlo_r_imm_64
  | Opcode.shar_r_imm_64 => _op_shar_r_imm_64
  | Opcode.neg_add_imm_64 => _op_neg_add_imm_64
  | Opcode.shlo_l_imm_alt_64 => _op_shlo_l_imm_alt_64
  | Opcode.shlo_r_imm_alt_64 => _op_shlo_r_imm_alt_64
  | Opcode.shar_r_imm_alt_64 => _op_shar_r_imm_alt_64
  | Opcode.rot_r_64_imm => _op_rot_r_64_imm
  | Opcode.rot_r_64_imm_alt => _op_rot_r_64_imm_alt
  | Opcode.rot_r_32_imm => _op_rot_r_32_imm
  | Opcode.rot_r_32_imm_alt => _op_rot_r_32_imm_alt
  | Opcode.branch_eq => _op_branch_eq
  | Opcode.branch_ne => _op_branch_ne
  | Opcode.branch_lt_u => _op_branch_lt_u
  | Opcode.branch_lt_s => _op_branch_lt_s
  | Opcode.branch_ge_u => _op_branch_ge_u
  | Opcode.branch_ge_s => _op_branch_ge_s
  | Opcode.load_imm_jump_ind => _op_load_imm_jump_ind
  | Opcode.add_32 => _op_add_32
  | Opcode.sub_32 => _op_sub_32
  | Opcode.mul_32 => _op_mul_32
  | Opcode.div_u_32 => _op_div_u_32
  | Opcode.div_s_32 => _op_div_s_32
  | Opcode.rem_u_32 => _op_rem_u_32
  | Opcode.rem_s_32 => _op_rem_s_32
  | Opcode.shlo_l_32 => _op_shlo_l_32
  | Opcode.shlo_r_32 => _op_shlo_r_32
  | Opcode.shar_r_32 => _op_shar_r_32
  | Opcode.add_64 => _op_add_64
  | Opcode.sub_64 => _op_sub_64
  | Opcode.mul_64 => _op_mul_64
  | Opcode.div_u_64 => _op_div_u_64
  | Opcode.div_s_64 => _op_div_s_64
  | Opcode.rem_u_64 => _op_rem_u_64
  | Opcode.rem_s_64 => _op_rem_s_64
  | Opcode.shlo_l_64 => _op_shlo_l_64
  | Opcode.shlo_r_64 => _op_shlo_r_64
  | Opcode.shar_r_64 => _op_shar_r_64
  | Opcode._and => _op_and
  | Opcode.xor => _op_xor
  | Opcode._or => _op_or
  | Opcode.mul_upper_s_s => _op_mul_upper_s_s
  | Opcode.mul_upper_u_u => _op_mul_upper_u_u
  | Opcode.mul_upper_s_u => _op_mul_upper_s_u
  | Opcode.set_lt_u => _op_set_lt_u
  | Opcode.set_lt_s => _op_set_lt_s
  | Opcode.cmov_iz => _op_cmov_iz
  | Opcode.cmov_nz => _op_cmov_nz
  | Opcode.rot_l_64 => _op_rot_l_64
  | Opcode.rot_l_32 => _op_rot_l_32
  | Opcode.rot_r_64 => _op_rot_r_64
  | Opcode.rot_r_32 => _op_rot_r_32
  | Opcode.and_inv => _op_and_inv
  | Opcode.or_inv => _op_or_inv
  | Opcode.xnor => _op_xnor
  | Opcode._max => _op_max
  | Opcode.max_u => _op_max_u
  | Opcode._min => _op_min
  | Opcode.min_u => _op_min_u
  end.

(** [_opcode_lut()[v]] *)
Definition _opcode_lut (v : Z) : M unit :=
  match Opcode.of_Z v with Some o => handler o | None => _op_invalid end.
