(* ===== verification/OpsSafety.v ===== *)
(** * Every handler keeps the machine well formed

    [handler_safe]: from a well-formed machine about to run an instruction, the
    handler of any opcode keeps the counter, the gas, the code and the page
    permissions, keeps thirteen 64-bit registers and a well-formed memory, and
    ends in one of the ways the interpreter loop expects: it falls through with
    its skip distance unchanged, or, for a block terminator, its skip distance
    leads to the start of a block; it halts or asks for a host call; or it
    raises a panic, or a page fault with the address of a page that refuses the
    access.  No other exception can leave a handler, with one exception:
    [div_u_32] ([div_u_32_raises]). *)

From Stdlib Require Import ZArith Lia Bool List.
From stdpp Require Import base numbers option list gmap.
From S2P Require Import Prelude Constants Defs MemorySection Memory BasicBlock Machine Ops.
Import ListNotations.

#[local] Open Scope Z_scope.
#[local] Open Scope py_scope.

(** ** Results are register values *)

Lemma mul_upper_is_u64 a b : is_u64 a -> is_u64 b -> is_u64 ((a * b) ≫ 64).
Proof.
  unfold is_u64. intros Ha Hb. rewrite Z.shiftr_div_pow2 by lia. split; [apply Z.div_pos; lia|].
  apply Z.div_lt_upper_bound; [lia|]. nia.
Qed.

Lemma small_is_u64 n x : 0 <= n <= 64 -> 0 <= x < 2 ^ n -> is_u64 x.
Proof.
  intros Hn Hx. unfold is_u64. pose proof (Z.pow_le_mono_r 2 n 64 ltac:(lia) ltac:(lia)). lia.
Qed.

Lemma bit_count_is_u64 (n : nat) x :
  (n <= 64)%nat -> 0 <= x < 2 ^ Z.of_nat n -> is_u64 (bit_count x).
Proof.
  intros Hn Hx. rewrite (bit_count_popcount n) by done.
  pose proof (popcount_range n x). unfold is_u64. lia.
Qed.

Lemma leading_zeroes_is_u64 x n : 0 <= n <= 64 -> is_u64 (count_leading_zeroes x n).
Proof. intros. pose proof (count_leading_zeroes_range x n). unfold is_u64. lia. Qed.

Lemma reverse_bytes_is_u64 x : is_u64 x ->
  exists v, reverse_bytes (x .& 0xFFFFFFFFFFFFFFFF) = Ret v /\ is_u64 v.
Proof.
  intros Hx. change 0xFFFFFFFFFFFFFFFF with (2 ^ 64 - 1). rewrite (land_mask x 64) by lia.
  unfold reverse_bytes.
  pose proof (Z.mod_pos_bound x (2 ^ 64) ltac:(lia)).
  destruct (Z.leb_spec 0 (x mod 2 ^ 64)), (Z.ltb_spec (x mod 2 ^ 64) (2 ^ 64)); try lia.
  eexists. split; [done|]. set (bs := rev _).
  assert (List.Forall is_byte bs) as Hb.
  { apply List.Forall_rev, le_bytes_bytes. }
  pose proof (le_int_range bs Hb) as Hr.
  replace (length bs) with 8%nat in Hr by (unfold bs; by rewrite length_rev, length_le_bytes).
  exact Hr.
Qed.
#[export] Hint Resolve mul_upper_is_u64 : u64.

Lemma trailing_zeroes_is_u64 x n : is_u64 x -> 0 <= n <= 64 -> is_u64 (count_trailing_zeroes x n).
Proof. intros Hx Hn. pose proof (count_trailing_zeroes_range x n Hx Hn). unfold is_u64. lia. Qed.

Lemma masked_count_is_u64 x : is_u64 (bit_count (x .& 0xFFFFFFFF)).
Proof.
  apply (bit_count_is_u64 32); [lia|]. change 0xFFFFFFFF with (2 ^ 32 - 1).
  rewrite land_mask by lia. by apply Z.mod_pos_bound.
Qed.
Lemma masked_count64_is_u64 x : is_u64 (bit_count (x .& 0xFFFFFFFFFFFFFFFF)).
Proof.
  apply (bit_count_is_u64 64); [lia|]. change 0xFFFFFFFFFFFFFFFF with (2 ^ 64 - 1).
  rewrite land_mask by lia. by apply Z.mod_pos_bound.
Qed.
#[export] Hint Resolve masked_count_is_u64 masked_count64_is_u64 : u64.
#[export] Hint Extern 1 (is_u64 (count_leading_zeroes _ _)) =>
  (apply leading_zeroes_is_u64; lia) : u64.
#[export] Hint Extern 1 (is_u64 (count_trailing_zeroes _ _)) =>
  (apply trailing_zeroes_is_u64; [done|lia]) : u64.
#[export] Hint Extern 1 (is_u64 (1 ≪ 64 - 1)) => (unfold is_u64; vm_compute; split; congruence) : u64.
#[export] Hint Extern 4 (is_u64 (if ?b then _ else _)) => destruct b : u64.

(** A loaded value is a register value, whatever its width. *)
Lemma loaded_is_u64 o v : access_width o -> 0 <= v < 2 ^ (8 * mem_ops_bytes o) -> is_u64 v.
Proof. unfold access_width. intros Hw Hv. apply (small_is_u64 (8 * mem_ops_bytes o)); lia. Qed.

(** ** The handlers, scheme by scheme *)

(** Run a fetcher: name its operands and their properties. *)
Ltac fetch L := eapply reads_then; [apply L|eassumption|cbn beta].

Ltac width := unfold access_width; vm_compute; split; congruence.

(** A handler that ends by writing a register. *)
Ltac finish_reg := solve [apply set_reg_post; eauto with u64].

Section handlers.
Context (vm : VM) (Hi : at_inst vm) (Hs : status vm = ExitReason.resume).

Lemma rrr_safe o (k : Z -> Z -> Z -> M unit) :
  (forall r_d a b, is_reg r_d -> is_u64 a -> is_u64 b -> handler_post o vm (k r_d a b vm)) ->
  handler_post o vm (('(r_a, r_b, r_d, a, b) ← _fetch_reg_reg_reg; k r_d a b) vm).
Proof using Hi.
  intros Hk. fetch reads_fetch_reg_reg_reg. intros [[[[ra rb] rd] a] b] (? & ? & ? & ? & ?).
  by apply Hk.
Qed.

Lemma rr_safe o (k : Z -> Z -> M unit) :
  (forall r_d w_a, is_reg r_d -> is_u64 w_a -> handler_post o vm (k r_d w_a vm)) ->
  handler_post o vm (('(r_d, r_a, w_a) ← _fetch_reg_reg; k r_d w_a) vm).
Proof using Hi.
  intros Hk. fetch reads_fetch_reg_reg. intros [[rd ra] w] (? & ? & ?). by apply Hk.
Qed.

Lemma rri_safe o (k : Z -> Z -> Z -> Z -> M unit) :
  (forall r_a w_a w_b v_x, is_reg r_a -> is_u64 w_a -> is_u64 w_b -> is_u64 v_x ->
     handler_post o vm (k r_a w_a w_b v_x vm)) ->
  handler_post o vm (('(r_a, r_b, w_a, w_b, v_x) ← _fetch_reg_reg_imm; k r_a w_a w_b v_x) vm).
Proof using Hi.
  intros Hk. fetch reads_fetch_reg_reg_imm. intros [[[[ra rb] wa] wb] x] (? & ? & ? & ? & ?).
  by apply Hk.
Qed.

Lemma rro_safe o (C : Z -> Z -> bool) :
  is_termination (Opcode.value o) = true ->
  handler_post o vm (('(r_a, r_b, w_a, w_b, v_x) ← _fetch_reg_reg_offset; branch v_x (C w_a w_b)) vm).
Proof using Hi Hs.
  intros Ht. fetch reads_fetch_reg_reg_offset. intros [[[[ra rb] wa] wb] x] _. by apply branch_post.
Qed.

Lemma rio_safe o (C : Z -> Z -> bool) :
  is_termination (Opcode.value o) = true ->
  handler_post o vm (('(r_a, w_a, v_x, v_y) ← _fetch_reg_imm_offset; branch v_y (C w_a v_x)) vm).
Proof using Hi Hs.
  intros Ht. fetch reads_fetch_reg_imm_offset. intros [[[ra wa] x] y] _. by apply branch_post.
Qed.

Lemma ri_safe o (k : Z -> Z -> M unit) :
  (forall r_a v_x, is_reg r_a -> is_u64 v_x -> handler_post o vm (k r_a v_x vm)) ->
  handler_post o vm (('(r_a, v_x) ← _fetch_reg_imm; k r_a v_x) vm).
Proof using Hi. intros Hk. fetch reads_fetch_reg_imm. intros [ra x] [? ?]. by apply Hk. Qed.

(** A load: read memory, convert, write the register. *)
Lemma load_safe o oo r a (f : Z -> Z) :
  is_termination (Opcode.value o) = false -> access_width oo -> is_reg r ->
  (forall v, is_u64 v -> is_u64 (f v)) ->
  handler_post o vm ((v ← mem_read oo a; set_reg r (f v)) vm).
Proof using Hi Hs.
  intros Ht Hw Hr Hf. apply mem_read_then; [done|done|done|]. intros v vm' Hmid Hv.
  apply (midway_post _ _ _ _ Hmid). pose proof Hmid as [_ Hi' Hs' _].
  apply set_reg_post; [done|congruence|done|done|]. by eapply Hf, loaded_is_u64.
Qed.
End handlers.

(** Division steps raise only on a zero divisor. *)
Lemma signed_division_then o vm n d r (f : Z -> Z) :
  at_inst vm -> status vm = ExitReason.resume -> is_termination (Opcode.value o) = false ->
  is_reg r -> d <> 0 -> (forall q, is_u64 (f q)) ->
  handler_post o vm ((q ← lift (pvm_rtz_div n d); set_reg r (f q)) vm).
Proof.
  intros Hi Hs Ht Hr Hd Hf. rewrite pvm_rtz_div_quot by done. rewrite eff_lift_ret_bind.
  by apply set_reg_post.
Qed.

Lemma pvm_Z_nonzero b : is_u64 b -> (b =? 0) = false -> pvm_Z b 8 <> 0.
Proof.
  intros Hb Hne Hz. rewrite pvm_Z_signed in Hz by lia.
  pose proof (signed_mod (8 * 8) b ltac:(lia)) as Hm. rewrite Hz in Hm.
  rewrite Z.mod_0_l, Z.mod_small in Hm by (try exact Hb; lia). lia.
Qed.

(** The shape of every arithmetic handler: tests, divisions, one register
    written. *)
Ltac arithmetic := repeat first
  [ finish_reg
  | apply signed_division_then; [done|done|done|done|first [lia|by apply pvm_Z_nonzero]|auto with u64]
  | apply unchanged_post; done
  | case_match ].

Lemma rrr_handlers o vm :
  at_inst vm -> status vm = ExitReason.resume ->
  OpcodeScheme o = InstructionType.reg_reg_reg -> o <> Opcode.div_u_32 ->
  handler_post o vm (handler o vm).
Proof.
  intros Hi Hs Ho Hne. destruct o; try discriminate Ho; cbn [handler];
    first [by destruct (Hne eq_refl)
          |match goal with |- handler_post _ _ (?h _) => unfold h end;
           apply rrr_safe; [done|]; intros; cbv zeta; arithmetic].
Qed.

Lemma rr_handlers o vm :
  at_inst vm -> status vm = ExitReason.resume ->
  OpcodeScheme o = InstructionType.reg_reg -> handler_post o vm (handler o vm).
Proof.
  intros Hi Hs Ho. destruct o; try discriminate Ho; cbn [handler];
    match goal with |- handler_post _ _ (?h _) => unfold h end;
    apply rr_safe; try done; intros; try finish_reg.
  destruct (reverse_bytes_is_u64 w_a) as (v & -> & Hv); [done|]. rewrite eff_lift_ret_bind. finish_reg.
Qed.

Lemma rri_handlers o vm :
  at_inst vm -> status vm = ExitReason.resume ->
  OpcodeScheme o = InstructionType.reg_reg_imm -> handler_post o vm (handler o vm).
Proof.
  intros Hi Hs Ho. destruct o; try discriminate Ho; cbn [handler];
    match goal with |- handler_post _ _ (?h _) => unfold h end;
    apply rri_safe; try done; intros; cbv zeta;
    first [ apply mem_write_post; [done|done|width|done]
          | apply load_safe; [done|done|done|width|done|solve [auto with u64]]
          | solve [arithmetic] ].
Qed.

Lemma ri_handlers o vm :
  at_inst vm -> status vm = ExitReason.resume ->
  OpcodeScheme o = InstructionType.reg_imm -> handler_post o vm (handler o vm).
Proof.
  intros Hi Hs Ho. destruct o; try discriminate Ho; cbn [handler];
    match goal with |- handler_post _ _ (?h _) => unfold h end;
    apply ri_safe; try done; intros;
    first [ solve [arithmetic]
          | apply load_safe; [done|done|done|width|done|solve [auto with u64]]
          | eapply reads_then; [by apply reads_get_reg|done|]; intros w Hw;
            first [apply mem_write_post; [done|done|width|done]|by apply djump_post] ].
Qed.

(** The remaining schemes. *)
Lemma other_handlers o vm :
  at_inst vm -> status vm = ExitReason.resume ->
  (match OpcodeScheme o with
   | InstructionType.reg_reg_reg | InstructionType.reg_reg
   | InstructionType.reg_reg_imm | InstructionType.reg_imm => False | _ => True end) ->
  handler_post o vm (handler o vm).
Proof.
  intros Hi Hs Ho. destruct o; try done; clear Ho; cbn [handler];
    match goal with |- handler_post _ _ (?h _) => unfold h end;
    first
      [ by apply panic_post
      | by apply unchanged_post
      | rewrite eff_gets_bind; by apply sjump_post
      | fetch reads_fetch_imm_imm; intros [x y] _; apply mem_write_post; [done|done|width|done]
      | fetch reads_fetch_reg_imm_imm; intros [[[r w] x] y] _; cbv zeta;
        apply mem_write_post; [done|done|width|done]
      | fetch reads_fetch_offset; intros x _; by apply sjump_post
      | fetch reads_fetch_reg_ext_imm; intros [r x] [? ?]; by apply set_reg_post
      | by apply rio_safe
      | by apply rro_safe
      | idtac ].
  - (* ecalli *) fetch reads_fetch_imm. intros x Hx. autorewrite with eff.
    pose proof Hi as [Hc Hp Hr Hm]. split; [by split|]. split; [done|]. split; [done|].
    split; [done|]. split; [by exists x|done].
  - (* load_imm_jump *) fetch reads_fetch_reg_imm_offset. intros [[[r w] x] y] (? & ? & ?).
    apply set_reg_then; [done..|]. intros vm' Hmid. apply (midway_post _ _ _ _ Hmid).
    pose proof Hmid as [_ ? Hs' _]. apply sjump_post; [done|congruence|done].
  - (* load_imm_jump_ind *) fetch reads_fetch_reg_reg_imm_imm.
    intros [[[[ra rb] wb] x] y] (? & ? & ? & ? & ?).
    apply set_reg_then; [done..|]. intros vm' Hmid. apply (midway_post _ _ _ _ Hmid).
    pose proof Hmid as [_ ? Hs' _]. apply djump_post; [done|congruence|done].
Qed.

(** [div_u_32]: the zero test looks at the whole register, the division at its
    low half. *)
Lemma div_u_32_handler vm :
  at_inst vm -> status vm = ExitReason.resume ->
  handler_post Opcode.div_u_32 vm (handler Opcode.div_u_32 vm).
Proof.
  intros Hi Hs. cbn [handler]. unfold _op_div_u_32. apply rrr_safe; [done|].
  intros r_d a b Hr Ha Hb. destruct (b =? 0); [finish_reg|].
  unfold floor_div. destruct (u32 b =? 0).
  - rewrite eff_lift_raise_bind. pose proof Hi as [Hc Hp Hreg Hm].
    split; [apply same_frame_refl|]. split; [done|]. split; [done|]. split; [done|]. by right; right.
  - rewrite eff_lift_ret_bind. finish_reg.
Qed.

(** Safety of every instruction. *)
Lemma handler_safe o vm :
  at_inst vm -> status vm = ExitReason.resume -> handler_post o vm (handler o vm).
Proof.
  intros Hi Hs. destruct (decide (Opcode.value o = Opcode.value Opcode.div_u_32)) as [Hd|Hd].
  { apply opcode_value_inj in Hd as ->. by apply div_u_32_handler. }
  assert (o <> Opcode.div_u_32) as Hne by congruence.
  destruct (OpcodeScheme o) eqn:Hsch;
    first [ by apply rrr_handlers | by apply rr_handlers | by apply rri_handlers
          | by apply ri_handlers | (apply other_handlers; [done|done|by rewrite Hsch]) ].
Qed.

(** How the dispatch of the opcode byte at the counter ends. *)
Definition dispatch_post (vm : VM) (byte : Z) (res : outcome exn unit * VM) : Prop :=
  exists o, Opcode.of_Z byte = Some o /\ handler_post o vm res.

(** C3: From a well-formed machine at an instruction, dispatching the opcode byte at
    the counter runs a handler that keeps the counter, gas, code and page
    permissions, keeps the registers in range and the memory well formed, and
    ends in one of the ways the loop expects: fall through, a jump to a block
    start, a halt, a host call, a panic, or a page fault on a page above the guard
    zone that refuses the access. *)
Theorem dispatch_safe vm :
  at_inst vm -> status vm = ExitReason.resume ->
  let byte := code_at (code (vm_code vm)) (pc vm) in
  dispatch_post vm byte (_opcode_lut byte vm).
Proof.
  intros Hi Hs byte. pose proof Hi as [Hc Hpc _ _].
  destruct (decoded_inst _ _ Hc Hpc) as (_ & _ & Hv & _). fold byte in Hv. unfold is_valid_opcode in Hv.
  destruct (Opcode.of_Z _) as [o|] eqn:Ho; [|done]. exists o. split; [done|].
  unfold _opcode_lut. rewrite Ho. by apply handler_safe.
Qed.
