(* ===== verification/Alu.v ===== *)
(** * What the arithmetic instructions compute

    A specification of the instructions without memory or control, in plain
    arithmetic on 64-bit registers ([alu3] for three registers, [alu2] for two,
    [alu_imm] for an immediate), independent of the masks, shifts and helpers
    the handlers use; and the proofs that the handlers of
    [pvm/interpreters/cpython/opcodes] compute it ([alu3_correct],
    [alu2_correct], [alu_imm_correct]).

    [alu_imm] is [alu3] with the immediate as an operand, so its theorem also
    says that the immediate forms agree with the register forms.

    Two handlers leave the specification on some inputs: [div_u_32] raises when
    the divisor is non-zero but its low half is zero ([div_u_32_raises]), and
    [trailing_zero_bits_32] counts past bit 31 when the low half is zero
    ([trailing_zero_bits_32_wrong]). *)

From Stdlib Require Import ZArith Lia Bool List.
From stdpp Require Import base numbers option list gmap.
From S2P Require Import Prelude Constants Defs MemorySection Memory BasicBlock Machine Ops OpsSafety.
Import ListNotations.

#[local] Open Scope Z_scope.
#[local] Open Scope py_scope.

(** ** Specification *)

Definition to_u64 (x : Z) : Z := x mod 2 ^ 64.
(** The low 32 bits, sign-extended to 64. *)
Definition sext32 (x : Z) : Z := to_u64 (signed 32 x).
Definition low32 (x : Z) : Z := x mod 2 ^ 32.
Definition s32 (x : Z) : Z := signed 32 x.
Definition s64 (x : Z) : Z := signed 64 x.
Definition all_ones : Z := 2 ^ 64 - 1.

Definition rotate_left (w x s : Z) : Z := (x * 2 ^ s) mod 2 ^ w + x / 2 ^ (w - s).
Definition rotate_right (w x s : Z) : Z := x / 2 ^ s + (x * 2 ^ (w - s)) mod 2 ^ w.

(** The new value of the destination; [None] leaves it. *)
Definition alu3 (o : Opcode.t) (a b : Z) : option Z :=
  match o with
  | Opcode.add_64 => Some (to_u64 (a + b))
  | Opcode.sub_64 => Some (to_u64 (a - b))
  | Opcode.mul_64 => Some (to_u64 (a * b))
  | Opcode.add_32 => Some (sext32 (a + b))
  | Opcode.sub_32 => Some (sext32 (a - b))
  | Opcode.mul_32 => Some (sext32 (a * b))
  | Opcode.div_u_32 =>
      Some (if low32 b =? 0 then all_ones else sext32 (low32 a / low32 b))
  | Opcode.div_s_32 =>
      Some (if low32 b =? 0 then all_ones else sext32 (Z.quot (s32 a) (s32 b)))
  | Opcode.rem_u_32 =>
      Some (if low32 b =? 0 then sext32 a else sext32 (low32 a mod low32 b))
  | Opcode.rem_s_32 =>
      Some (if low32 b =? 0 then sext32 a else to_u64 (Z.rem (s32 a) (s32 b)))
  | Opcode.div_u_64 => Some (if b =? 0 then all_ones else a / b)
  | Opcode.div_s_64 => Some (if b =? 0 then all_ones else to_u64 (Z.quot (s64 a) (s64 b)))
  | Opcode.rem_u_64 => Some (if b =? 0 then a else a mod b)
  | Opcode.rem_s_64 => Some (if b =? 0 then a else to_u64 (Z.rem (s64 a) (s64 b)))
  | Opcode.shlo_l_32 => Some (sext32 (a * 2 ^ (b mod 32)))
  | Opcode.shlo_r_32 => Some (sext32 (low32 a / 2 ^ (b mod 32)))
  | Opcode.shar_r_32 => Some (to_u64 (s32 a / 2 ^ (b mod 32)))
  | Opcode.shlo_l_64 => Some (to_u64 (a * 2 ^ (b mod 64)))
  | Opcode.shlo_r_64 => Some (a / 2 ^ (b mod 64))
  | Opcode.shar_r_64 => Some (to_u64 (s64 a / 2 ^ (b mod 64)))
  | Opcode._and => Some (Z.land a b)
  | Opcode.xor => Some (Z.lxor a b)
  | Opcode._or => Some (Z.lor a b)
  | Opcode.and_inv => Some (Z.ldiff a b)
  | Opcode.or_inv => Some (Z.lor a (all_ones - b))
  | Opcode.xnor => Some (all_ones - Z.lxor a b)
  | Opcode.mul_upper_s_s => Some (to_u64 ((s64 a * s64 b) / 2 ^ 64))
  | Opcode.mul_upper_u_u => Some (a * b / 2 ^ 64)
  | Opcode.mul_upper_s_u => Some (to_u64 ((s64 a * b) / 2 ^ 64))
  | Opcode.set_lt_u => Some (if a <? b then 1 else 0)
  | Opcode.set_lt_s => Some (if s64 a <? s64 b then 1 else 0)
  | Opcode.cmov_iz => if b =? 0 then Some a else None
  | Opcode.cmov_nz => if b =? 0 then None else Some a
  | Opcode.rot_l_64 => Some (rotate_left 64 a (b mod 64))
  | Opcode.rot_r_64 => Some (rotate_right 64 a (b mod 64))
  | Opcode.rot_l_32 => Some (sext32 (rotate_left 32 (low32 a) (b mod 32)))
  | Opcode.rot_r_32 => Some (sext32 (rotate_right 32 (low32 a) (b mod 32)))
  | Opcode._max => Some (if s64 a <? s64 b then b else a)
  | Opcode._min => Some (if s64 a <? s64 b then a else b)
  | Opcode.max_u => Some (if a <? b then b else a)
  | Opcode.min_u => Some (if a <? b then a else b)
  | _ => None
  end.

(** An immediate form is a register form on the second register and the
    immediate, in one order or the other. *)
Definition alu_imm (o : Opcode.t) (b x : Z) : option Z :=
  match o with
  | Opcode.add_imm_32 => alu3 Opcode.add_32 b x
  | Opcode.and_imm => alu3 Opcode._and b x
  | Opcode.xor_imm => alu3 Opcode.xor b x
  | Opcode.or_imm => alu3 Opcode._or b x
  | Opcode.mul_imm_32 => alu3 Opcode.mul_32 b x
  | Opcode.set_lt_u_imm => alu3 Opcode.set_lt_u b x
  | Opcode.set_lt_s_imm => alu3 Opcode.set_lt_s b x
  | Opcode.shlo_l_imm_32 => alu3 Opcode.shlo_l_32 b x
  | Opcode.shlo_r_imm_32 => alu3 Opcode.shlo_r_32 b x
  | Opcode.shar_r_imm_32 => alu3 Opcode.shar_r_32 b x
  | Opcode.neg_add_imm_32 => alu3 Opcode.sub_32 x b
  | Opcode.set_gt_u_imm => alu3 Opcode.set_lt_u x b
  | Opcode.set_gt_s_imm => alu3 Opcode.set_lt_s x b
  | Opcode.shlo_l_imm_alt_32 => alu3 Opcode.shlo_l_32 x b
  | Opcode.shlo_r_imm_alt_32 => alu3 Opcode.shlo_r_32 x b
  | Opcode.shar_r_imm_alt_32 => alu3 Opcode.shar_r_32 x b
  | Opcode.cmov_iz_imm => alu3 Opcode.cmov_iz x b
  | Opcode.cmov_nz_imm => alu3 Opcode.cmov_nz x b
  | Opcode.add_imm_64 => alu3 Opcode.add_64 b x
  | Opcode.mul_imm_64 => alu3 Opcode.mul_64 b x
  | Opcode.shlo_l_imm_64 => alu3 Opcode.shlo_l_64 b x
  | Opcode.shlo_r_imm_64 => alu3 Opcode.shlo_r_64 b x
  | Opcode.shar_r_imm_64 => alu3 Opcode.shar_r_64 b x
  | Opcode.neg_add_imm_64 => alu3 Opcode.sub_64 x b
  | Opcode.shlo_l_imm_alt_64 => alu3 Opcode.shlo_l_64 x b
  | Opcode.shlo_r_imm_alt_64 => alu3 Opcode.shlo_r_64 x b
  | Opcode.shar_r_imm_alt_64 => alu3 Opcode.shar_r_64 x b
  | Opcode.rot_r_64_imm => alu3 Opcode.rot_r_64 b x
  | Opcode.rot_r_64_imm_alt => alu3 Opcode.rot_r_64 x b
  | Opcode.rot_r_32_imm => alu3 Opcode.rot_r_32 b x
  | Opcode.rot_r_32_imm_alt => alu3 Opcode.rot_r_32 x b
  | _ => None
  end.

(** Number of trailing zeros of [x], as a bounded search. *)
Fixpoint trailing_zeros (n : nat) (x : Z) : Z :=
  match n with
  | O => 0
  | S k => if Z.odd x then 0 else 1 + trailing_zeros k (x / 2)
  end.

(** Number of leading zeros of the low [n] bits of [x]. *)
Fixpoint leading_zeros (n : nat) (x : Z) : Z :=
  match n with
  | O => 0
  | S k => if Z.testbit x (Z.of_nat k) then 0 else 1 + leading_zeros k x
  end.

Definition alu2 (o : Opcode.t) (a : Z) : option Z :=
  match o with
  | Opcode.move_reg => Some a
  | Opcode.count_set_bits_64 => Some (popcount 64 a)
  | Opcode.count_set_bits_32 => Some (popcount 32 (low32 a))
  | Opcode.leading_zero_bits_64 => Some (leading_zeros 64 a)
  | Opcode.leading_zero_bits_32 => Some (leading_zeros 32 a)
  | Opcode.trailing_zero_bits_64 => Some (trailing_zeros 64 a)
  | Opcode.trailing_zero_bits_32 => Some (trailing_zeros 32 a)
  | Opcode.sign_extend_8 => Some (to_u64 (signed 8 a))
  | Opcode.sign_extend_16 => Some (to_u64 (signed 16 a))
  | Opcode.zero_extend_16 => Some (a mod 2 ^ 16)
  | Opcode.reverse_bytes => Some (le_int (rev (le_bytes 8 a)))
  | _ => None
  end.

(** * Properties *)

(** ** Operands *)

(** Byte [k] of the instruction, the registers its operand bytes name. *)
Definition inst_byte (vm : VM) (k : Z) : Z := code_at (code (vm_code vm)) (pc vm + k).
Definition low_reg (vm : VM) : Z := Z.min 12 (inst_byte vm 1 mod 16).
Definition high_reg (vm : VM) : Z := Z.min 12 (inst_byte vm 1 / 16).
Definition third_reg (vm : VM) : Z := Z.min 12 (inst_byte vm 2).
Definition reg_val (vm : VM) (r : Z) : Z := nth (Z.to_nat r) (reg vm) 0.
(** The number of operand bytes of the instruction. *)
Definition operand_length (vm : VM) : Z :=
  default 0 (inst_pos (vm_code vm) !! pc vm ≫= py_index (inst_arg_len (vm_code vm))).
(** The sign-extended immediate in the [n] bytes from byte [k]. *)
Definition immediate (vm : VM) (k n : Z) : Z :=
  if n =? 0 then 0
  else to_u64 (signed (8 * n) (le_int (code_slice (code (vm_code vm)) (pc vm + k) n))).

(** Write the result of a specification. *)
Definition write_result (r : Z) (v : option Z) (vm : VM) : VM :=
  match v with Some v => set_reg_list (<[Z.to_nat r := v]> (reg vm)) vm | None => vm end.

Lemma get_reg_val vm r : at_inst vm -> is_reg r -> get_reg r vm = (Ret (reg_val vm r), vm).
Proof.
  intros [_ _ [Hlen _] _] Hr. unfold get_reg, is_reg, reg_val in *.
  rewrite py_index_nonneg by lia.
  destruct (lookup_lt_is_Some_2 (reg vm) (Z.to_nat r)) as [v Hv]; [lia|].
  rewrite Hv, nth_lookup, Hv. done.
Qed.

Lemma code_byte_val vm k : at_inst vm -> 0 <= k <= 24 -> code_byte k vm = (Ret (inst_byte vm k), vm).
Proof.
  intros [Hc Hpc _ _] Hk. destruct (decoded_inst _ _ Hc Hpc) as (Hp & Hlen & _).
  unfold code_byte, lift, mem_index, inst_byte, code_at, blen in *.
  destruct (py_index_Some (code (vm_code vm)) (pc vm + k)) as [v Hv]; [lia|]. by rewrite Hv.
Qed.

Lemma arg_len_val vm : at_inst vm ->
  arg_len vm = (Ret (operand_length vm), vm) /\ 0 <= operand_length vm <= 24.
Proof.
  intros [Hc Hpc _ _]. destruct (decoded_inst _ _ Hc Hpc) as (_ & _ & _ & i & l & Hi & Hl & H24 & _).
  unfold arg_len, operand_length, lift, arg_len_at. rewrite Hi. cbn. rewrite Hl. done.
Qed.

Lemma take_drop_slice (bs : bytes) a n :
  0 <= a -> 0 <= n -> a + n <= blen bs ->
  take (Z.to_nat n) (drop (Z.to_nat a) bs) = code_slice bs a n.
Proof.
  intros Ha Hn Hb. unfold blen in Hb. apply list_eq. intros i.
  unfold code_slice, py_range. rewrite !list_lookup_fmap.
  destruct (decide (i < Z.to_nat n)%nat) as [Hi|Hi].
  - rewrite lookup_take_lt, lookup_drop by lia. rewrite lookup_seq_lt by lia. cbn.
    unfold code_at. rewrite py_index_nonneg by lia.
    destruct (lookup_lt_is_Some_2 bs (Z.to_nat a + i)) as [v Hv]; [lia|].
    replace (Z.to_nat (a + (0 + Z.of_nat i))) with (Z.to_nat a + i)%nat by lia. by rewrite Hv.
  - rewrite lookup_take_ge by lia. rewrite lookup_seq_ge by lia. done.
Qed.

Lemma code_uint_imm vm k n : at_inst vm -> 0 <= k <= 16 -> 0 <= n <= 4 ->
  exists x, code_uint k n vm = (Ret x, vm) /\ pvm_X x n = immediate vm k n.
Proof.
  intros Hi Hk Hn. pose proof Hi as [Hc Hpc _ _].
  destruct (decoded_inst _ _ Hc Hpc) as (Hp & Hlen & _). unfold code_uint, lift.
  assert (read_width n = true) as Hw.
  { assert (n = 0 \/ n = 1 \/ n = 2 \/ n = 3 \/ n = 4) as Hcases by lia.
    by destruct Hcases as [->|[->|[->|[->| ->]]]]. }
  rewrite read_uint_spec; [|apply Hc|done|lia|unfold blen in *; lia].
  eexists. split; [done|]. unfold immediate. rewrite take_drop_slice by lia.
  destruct (Z.eqb_spec n 0) as [->|Hn0]; [done|].
  rewrite pvm_X_signed by lia. unfold to_u64. by rewrite (Z.mul_comm n 8).
Qed.

Lemma inst_byte_range vm k : at_inst vm -> is_byte (inst_byte vm k).
Proof. intros [Hc _ _ _]. apply code_at_byte, Hc. Qed.

Lemma low_reg_ok vm : is_reg (low_reg vm).
Proof. apply is_reg_mod. lia. Qed.
Lemma high_reg_ok vm : at_inst vm -> is_reg (high_reg vm).
Proof. intros Hi. pose proof (inst_byte_range vm 1 Hi). apply is_reg_div; unfold is_byte in *; lia. Qed.
Lemma third_reg_ok vm : at_inst vm -> is_reg (third_reg vm).
Proof. intros Hi. pose proof (inst_byte_range vm 2 Hi). apply is_reg_byte. unfold is_byte in *; lia. Qed.

Lemma reg_val_u64 vm r : at_inst vm -> is_u64 (reg_val vm r).
Proof.
  intros [_ _ [_ Hok] _]. unfold reg_val. rewrite nth_lookup.
  destruct (reg vm !! Z.to_nat r) as [v|] eqn:Hv; [by apply (Forall_lookup_1 _ _ _ _ Hok Hv)|].
  cbn. unfold is_u64. lia.
Qed.

Lemma fetch_rrr vm : at_inst vm ->
  _fetch_reg_reg_reg vm = (Ret (low_reg vm, high_reg vm, third_reg vm,
    reg_val vm (low_reg vm), reg_val vm (high_reg vm)), vm).
Proof.
  intros Hi. unfold _fetch_reg_reg_reg. rewrite eff_bind_run, code_byte_val by (done || lia).
  rewrite eff_bind_run, code_byte_val by (done || lia). cbv zeta.
  rewrite eff_bind_run, get_reg_val by (done || apply low_reg_ok).
  rewrite eff_bind_run, get_reg_val by (done || by apply high_reg_ok). done.
Qed.

Lemma fetch_rr vm : at_inst vm ->
  _fetch_reg_reg vm = (Ret (low_reg vm, high_reg vm, reg_val vm (high_reg vm)), vm).
Proof.
  intros Hi. unfold _fetch_reg_reg. rewrite eff_bind_run, code_byte_val by (done || lia). cbv zeta.
  rewrite eff_bind_run, get_reg_val by (done || by apply high_reg_ok). done.
Qed.

(** The immediate of the two-register schemes. *)
Definition rri_immediate (vm : VM) : Z :=
  immediate vm 2 (Z.min 4 (Z.max 0 (operand_length vm - 1))).

Lemma fetch_rri vm : at_inst vm ->
  _fetch_reg_reg_imm vm = (Ret (low_reg vm, high_reg vm, reg_val vm (low_reg vm),
    reg_val vm (high_reg vm), rri_immediate vm), vm).
Proof.
  intros Hi. unfold _fetch_reg_reg_imm. rewrite eff_bind_run, code_byte_val by (done || lia). cbv zeta.
  rewrite eff_bind_run, get_reg_val by (done || apply low_reg_ok).
  rewrite eff_bind_run, get_reg_val by (done || by apply high_reg_ok).
  destruct (arg_len_val vm Hi) as [Ha Hl]. rewrite eff_bind_run, Ha.
  destruct (code_uint_imm vm 2 (Z.min 4 (Z.max 0 (operand_length vm - 1)))) as (x & Hx & Himm);
    [done|lia|lia|].
  rewrite eff_bind_run, Hx. unfold rri_immediate. by rewrite <-Himm.
Qed.

Lemma immediate_u64 vm k n : is_u64 (immediate vm k n).
Proof.
  unfold immediate, to_u64, is_u64. destruct (n =? 0); [lia|]. apply Z.mod_pos_bound. lia.
Qed.

(** ** Values *)

Lemma and63 b : b .& 63 = b mod 64.
Proof. exact (land_mask b 6 ltac:(lia)). Qed.
Lemma and31 b : b .& 31 = b mod 32.
Proof. exact (land_mask b 5 ltac:(lia)). Qed.
Lemma mask64 x : x .& MASK64 = to_u64 x.
Proof. apply u64_mod. Qed.
Lemma mask32 x : x .& MASK32 = low32 x.
Proof. apply u32_mod. Qed.
Lemma u64_to x : u64 x = to_u64 x.
Proof. apply u64_mod. Qed.
Lemma u32_low x : u32 x = low32 x.
Proof. apply u32_mod. Qed.
Lemma X4_sext x : pvm_X x 4 = sext32 x.
Proof. by rewrite pvm_X_signed by lia. Qed.
Lemma X8_to x : pvm_X x 8 = to_u64 x.
Proof.
  rewrite pvm_X_signed by lia. unfold to_u64. change (8 * 8) with 64. by rewrite signed_mod by lia.
Qed.
Lemma Z4_s32 x : pvm_Z x 4 = s32 x.
Proof. by rewrite pvm_Z_signed by lia. Qed.
Lemma Z8_s64 x : pvm_Z x 8 = s64 x.
Proof. by rewrite pvm_Z_signed by lia. Qed.
Lemma Zinv_to x : pvm_Z_inv x 8 = to_u64 x.
Proof. apply pvm_Z_inv_8. Qed.
Lemma shl_mul x n : 0 <= n -> x ≪ n = x * 2 ^ n.
Proof. intros. by apply Z.shiftl_mul_pow2. Qed.
Lemma shr_div x n : 0 <= n -> x ≫ n = x / 2 ^ n.
Proof. intros. by apply Z.shiftr_div_pow2. Qed.
Lemma mod64_nonneg b : 0 <= b mod 64.
Proof. apply Z.mod_pos_bound. lia. Qed.
Lemma mod32_nonneg b : 0 <= b mod 32.
Proof. apply Z.mod_pos_bound. lia. Qed.

Lemma sext32_low x : sext32 (low32 x) = sext32 x.
Proof. unfold sext32, low32. by rewrite signed_of_mod. Qed.
Lemma s32_low x : s32 (low32 x) = s32 x.
Proof. unfold s32, low32. apply signed_of_mod. Qed.
(** Reading is only modulo [2 ^ 32]. *)
Lemma sext32_congr x y : low32 x = low32 y -> sext32 x = sext32 y.
Proof. intros H. by rewrite <-(sext32_low x), H, sext32_low. Qed.
Lemma low32_low x : low32 (low32 x) = low32 x.
Proof. unfold low32. apply Z.mod_mod. lia. Qed.
Lemma low32_range x : 0 <= low32 x < 2 ^ 32.
Proof. apply Z.mod_pos_bound. lia. Qed.
Lemma to_u64_to x : to_u64 (to_u64 x) = to_u64 x.
Proof. unfold to_u64. apply Z.mod_mod. lia. Qed.
Lemma to_u64_id x : is_u64 x -> to_u64 x = x.
Proof. apply Z.mod_small. Qed.
Lemma to_u64_range x : is_u64 (to_u64 x).
Proof. apply Z.mod_pos_bound. lia. Qed.
Lemma to_u64_add x : to_u64 (x + 2 ^ 64) = to_u64 x.
Proof. unfold to_u64. rewrite <-(Z.mul_1_l (2 ^ 64)) at 1. by rewrite Z.mod_add by lia. Qed.
Lemma s64_id x : is_u64 x -> s64 x = if x <? 2 ^ 63 then x else x - 2 ^ 64.
Proof. intros Hx. unfold s64, signed. rewrite Z.mod_small by exact Hx. done. Qed.
Lemma to_u64_s64 x : is_u64 x -> to_u64 (s64 x) = x.
Proof. intros Hx. unfold to_u64, s64. rewrite signed_mod by lia. by apply Z.mod_small. Qed.
Lemma s32_id_low x : s32 x = if low32 x <? 2 ^ 31 then low32 x else low32 x - 2 ^ 32.
Proof. done. Qed.
Lemma s32_zero x : (s32 x =? 0) = (low32 x =? 0).
Proof.
  rewrite s32_id_low. pose proof (low32_range x).
  destruct (Z.ltb_spec (low32 x) (2 ^ 31)); [done|]. lia.
Qed.
Lemma s32_bounds x : - 2 ^ 31 <= s32 x < 2 ^ 31.
Proof. exact (signed_range 32 x ltac:(lia)). Qed.
Lemma s64_bounds x : - 2 ^ 63 <= s64 x < 2 ^ 63.
Proof. exact (signed_range 64 x ltac:(lia)). Qed.
(** A value in the signed 32-bit range reads back as itself. *)
Lemma sext32_id x : - 2 ^ 31 <= x < 2 ^ 31 -> sext32 x = to_u64 x.
Proof. intros Hx. unfold sext32. by rewrite signed_id by (lia || exact Hx). Qed.

(** Python's mask-and-compare reading of the low half as a signed number. *)
Lemma low32_signed x :
  (if 1 ≪ 31 <=? low32 x then low32 x - 1 ≪ 32 else low32 x) = s32 x.
Proof.
  rewrite s32_id_low. change (1 ≪ 31) with (2 ^ 31). change (1 ≪ 32) with (2 ^ 32).
  destruct (Z.leb_spec (2 ^ 31) (low32 x)), (Z.ltb_spec (low32 x) (2 ^ 31)); lia.
Qed.
(** Adding [2 ^ 64] to a negative number before the mask changes nothing. *)
Lemma wrap_negative x : to_u64 (if x <? 0 then x + 1 ≪ 64 else x) = to_u64 x.
Proof. destruct (x <? 0); [apply to_u64_add|done]. Qed.

(** *** Division *)

Lemma quot_bounds n d w : 0 < w -> - 2 ^ w <= n < 2 ^ w -> - 2 ^ w <= d < 2 ^ w -> d <> 0 ->
  ~ (n = - 2 ^ w /\ d = -1) -> - 2 ^ w <= Z.quot n d < 2 ^ w.
Proof.
  intros Hw Hn Hd Hd0 Hno.
  assert (Z.abs (Z.quot n d) <= Z.abs n) as Habs.
  { rewrite <-Z.quot_abs by done. apply Z.quot_le_upper_bound; [lia|]. nia. }
  destruct (Z.eq_dec n (- 2 ^ w)) as [->|]; [|lia].
  destruct (Z.eq_dec (Z.quot (- 2 ^ w) d) (2 ^ w)) as [He|]; [|lia].
  exfalso. apply Hno. split; [done|].
  pose proof (Z.quot_rem (- 2 ^ w) d Hd0). pose proof (Z.rem_bound_abs (- 2 ^ w) d Hd0). nia.
Qed.

Lemma div_s_32_value a b : low32 b <> 0 ->
  (if (s32 a =? - (1 ≪ 31)) && (s32 b =? -1) then to_u64 (s32 a) else to_u64 (Z.quot (s32 a) (s32 b)))
  = sext32 (Z.quot (s32 a) (s32 b)).
Proof.
  intros Hb. change (1 ≪ 31) with (2 ^ 31).
  pose proof (s32_bounds a). pose proof (s32_bounds b).
  assert (s32 b <> 0) as Hb0 by (pose proof (s32_zero b); lia).
  destruct (Z.eqb_spec (s32 a) (- 2 ^ 31)) as [Ha|Ha]; [|cbn [andb]].
  - destruct (Z.eqb_spec (s32 b) (-1)) as [Hm|Hm]; cbn [andb].
    + by rewrite Ha, Hm.
    + rewrite sext32_id; [done|]. apply quot_bounds; lia.
  - rewrite sext32_id; [done|]. apply quot_bounds; lia.
Qed.

Lemma rem_s_32_value a b : low32 b <> 0 ->
  (if (s32 a =? - (1 ≪ 31)) && (s32 b =? -1) then 0 else to_u64 (Z.rem (s32 a) (s32 b)))
  = to_u64 (Z.rem (s32 a) (s32 b)).
Proof.
  intros Hb. change (1 ≪ 31) with (2 ^ 31).
  destruct (Z.eqb_spec (s32 a) (- 2 ^ 31)) as [->|], (Z.eqb_spec (s32 b) (-1)) as [->|]; done.
Qed.

Lemma div_s_64_value a b : is_u64 a -> b <> 0 ->
  (if (s64 a =? - (1 ≪ 63)) && (s64 b =? -1) then a else to_u64 (Z.quot (s64 a) (s64 b)))
  = to_u64 (Z.quot (s64 a) (s64 b)).
Proof.
  intros Ha Hb. change (1 ≪ 63) with (2 ^ 63).
  destruct (Z.eqb_spec (s64 a) (- 2 ^ 63)) as [Hs|], (Z.eqb_spec (s64 b) (-1)) as [->|]; try done.
  cbn [andb]. rewrite <-(to_u64_s64 a Ha) at 1. by rewrite Hs.
Qed.

Lemma rem_s_64_value a b :
  (if (s64 a =? - (1 ≪ 63)) && (s64 b =? -1) then 0 else to_u64 (Z.rem (s64 a) (s64 b)))
  = to_u64 (Z.rem (s64 a) (s64 b)).
Proof.
  change (1 ≪ 63) with (2 ^ 63).
  destruct (Z.eqb_spec (s64 a) (- 2 ^ 63)) as [->|], (Z.eqb_spec (s64 b) (-1)) as [->|]; done.
Qed.

(** *** Rotations, complements, order *)

Lemma rotate_left_value w x s :
  0 <= s < w -> 0 <= x < 2 ^ w ->
  ((x ≪ s) .| (x ≫ (w - s))) .& (2 ^ w - 1) = rotate_left w x s.
Proof.
  intros Hs Hx. rewrite shl_mul, shr_div, land_mask by lia. unfold rotate_left.
  assert (0 <= x / 2 ^ (w - s) < 2 ^ s) as Hd.
  { split; [apply Z.div_pos; lia|]. apply Z.div_lt_upper_bound; [lia|].
    rewrite <-Z.pow_add_r by lia. replace (w - s + s) with w by lia. lia. }
  assert (2 ^ w = 2 ^ (w - s) * 2 ^ s) as Hw.
  { rewrite <-Z.pow_add_r by lia. f_equal. lia. }
  rewrite Z.lor_comm, (lor_low_high _ _ s) by (try done; try lia; apply Z.mod_mul; lia).
  rewrite <-Z.add_mod_idemp_r by lia.
  assert ((x * 2 ^ s) mod 2 ^ w = (x mod 2 ^ (w - s)) * 2 ^ s) as ->.
  { rewrite Hw. by rewrite Z.mul_mod_distr_r by lia. }
  rewrite Z.mod_small; [lia|]. pose proof (Z.mod_pos_bound x (2 ^ (w - s)) ltac:(lia)). nia.
Qed.

Lemma rotate_right_value w x s :
  0 <= s < w -> 0 <= x < 2 ^ w ->
  ((x ≫ s) .| (x ≪ (w - s))) .& (2 ^ w - 1) = rotate_right w x s.
Proof.
  intros Hs Hx. destruct (Z.eq_dec s 0) as [->|].
  - rewrite shl_mul, shr_div, land_mask by lia. unfold rotate_right. rewrite Z.sub_0_r.
    change (2 ^ 0) with 1. rewrite Z.div_1_r, Z.mod_mul by lia.
    rewrite (lor_low_high _ _ w) by (try done; try lia; apply Z.mod_mul; lia).
    rewrite Z.mod_add by lia. rewrite Z.mod_small by done. lia.
  - replace s with (w - (w - s)) at 1 by lia. rewrite Z.lor_comm.
    rewrite rotate_left_value by lia. unfold rotate_left, rotate_right.
    replace (w - (w - s)) with s by lia. lia.
Qed.

Lemma roli64_value x s : roli64 x s = rotate_left 64 (to_u64 x) (s mod 64).
Proof.
  unfold roli64. rewrite and63. change 0xFFFFFFFFFFFFFFFF with (2 ^ 64 - 1).
  rewrite (land_mask x) by lia. rewrite (rotate_left_value 64); [done| |apply to_u64_range].
  apply Z.mod_pos_bound. lia.
Qed.
Lemma rori64_value x s : rori64 x s = rotate_right 64 (to_u64 x) (s mod 64).
Proof.
  unfold rori64. rewrite and63. change 0xFFFFFFFFFFFFFFFF with (2 ^ 64 - 1).
  rewrite (land_mask x) by lia. rewrite (rotate_right_value 64); [done| |apply to_u64_range].
  apply Z.mod_pos_bound. lia.
Qed.
Lemma rotl32_value x s : rotl32 x s = rotate_left 32 (low32 x) (s mod 32).
Proof.
  unfold rotl32. rewrite and31. change MASK32 with (2 ^ 32 - 1).
  rewrite (land_mask x) by lia. rewrite (rotate_left_value 32); [done| |apply low32_range].
  apply Z.mod_pos_bound. lia.
Qed.
Lemma rotr32_value x s : rotr32 x s = rotate_right 32 (low32 x) (s mod 32).
Proof.
  unfold rotr32. rewrite and31. change MASK32 with (2 ^ 32 - 1).
  rewrite (land_mask x) by lia. rewrite (rotate_right_value 32); [done| |apply low32_range].
  apply Z.mod_pos_bound. lia.
Qed.
Lemma rori32_value x s : rori32 x s = rotate_right 32 (low32 x) (s mod 32).
Proof. exact (rotr32_value x s). Qed.

Lemma lnot_to_u64 b : is_u64 b -> to_u64 (Z.lnot b) = all_ones - b.
Proof.
  intros Hb. unfold to_u64, all_ones, is_u64, Z.lnot in *. rewrite <-Z.sub_1_r.
  rewrite <-(Z.mod_add _ 1) by lia. rewrite Z.mod_small; lia.
Qed.

Lemma and_inv_value a b : is_u64 a -> a .& u64 (Z.lnot b) = Z.ldiff a b.
Proof.
  intros Ha. rewrite Z.ldiff_land. unfold u64. rewrite (Z.land_comm (Z.lnot b)), Z.land_assoc.
  fold (u64 a). by rewrite u64_id.
Qed.

Lemma max_signed_value a b : is_u64 a -> is_u64 b ->
  to_u64 (Z.max (s64 a) (s64 b)) = if s64 a <? s64 b then b else a.
Proof.
  intros Ha Hb. destruct (Z.ltb_spec (s64 a) (s64 b)).
  - rewrite Z.max_r by lia. by apply to_u64_s64.
  - rewrite Z.max_l by lia. by apply to_u64_s64.
Qed.
Lemma min_signed_value a b : is_u64 a -> is_u64 b ->
  to_u64 (Z.min (s64 a) (s64 b)) = if s64 a <? s64 b then a else b.
Proof.
  intros Ha Hb. destruct (Z.ltb_spec (s64 a) (s64 b)).
  - rewrite Z.min_l by lia. by apply to_u64_s64.
  - rewrite Z.min_r by lia. by apply to_u64_s64.
Qed.
Lemma max_value a b : Z.max a b = if a <? b then b else a.
Proof. destruct (Z.ltb_spec a b); lia. Qed.
Lemma min_value a b : Z.min a b = if a <? b then a else b.
Proof. destruct (Z.ltb_spec a b); lia. Qed.

Lemma set_value (b : bool) : to_u64 (int_of_bool b) = if b then 1 else 0.
Proof. by destruct b. Qed.

Lemma sub_32_value a b : sext32 (low32 (a + 1 ≪ 32 - low32 b)) = sext32 (a - b).
Proof.
  rewrite sext32_low. apply sext32_congr. change (1 ≪ 32) with (2 ^ 32). unfold low32.
  rewrite Zminus_mod_idemp_r.
  replace (a + 2 ^ 32 - b) with (a - b + 1 * 2 ^ 32) by lia. by rewrite Z.mod_add by lia.
Qed.
Lemma neg_add_32_value a b : sext32 (low32 (a + 1 ≪ 32 - b)) = sext32 (a - b).
Proof.
  rewrite sext32_low. apply sext32_congr. change (1 ≪ 32) with (2 ^ 32). unfold low32.
  replace (a + 2 ^ 32 - b) with (a - b + 1 * 2 ^ 32) by lia. by rewrite Z.mod_add by lia.
Qed.
Lemma sub_64_value a b : to_u64 (a + 1 ≪ 64 - b) = to_u64 (a - b).
Proof.
  change (1 ≪ 64) with (2 ^ 64). replace (a + 2 ^ 64 - b) with (a - b + 2 ^ 64) by lia.
  apply to_u64_add.
Qed.

Lemma shl64 x b : x ≪ (b mod 64) = x * 2 ^ (b mod 64).
Proof. apply shl_mul, mod64_nonneg. Qed.
Lemma shl32 x b : x ≪ (b mod 32) = x * 2 ^ (b mod 32).
Proof. apply shl_mul, mod32_nonneg. Qed.
Lemma shr64 x b : x ≫ (b mod 64) = x / 2 ^ (b mod 64).
Proof. apply shr_div, mod64_nonneg. Qed.
Lemma shr32 x b : x ≫ (b mod 32) = x / 2 ^ (b mod 32).
Proof. apply shr_div, mod32_nonneg. Qed.
Lemma shr_64 x : x ≫ 64 = x / 2 ^ 64.
Proof. apply shr_div. lia. Qed.
Lemma sub_low_32_value a b : sext32 (a - low32 b) = sext32 (a - b).
Proof. apply sext32_congr. unfold low32. apply Zminus_mod_idemp_r. Qed.

(** The Python expressions, read as arithmetic. *)
Create Rewrite HintDb alu.
#[export] Hint Rewrite and63 and31 mask64 mask32 u64_to u32_low X4_sext X8_to Z4_s32 Z8_s64 Zinv_to
  sext32_low s32_low low32_low to_u64_to low32_signed wrap_negative s32_zero
  sub_32_value neg_add_32_value sub_64_value roli64_value rori64_value rotl32_value rotr32_value
  rori32_value set_value shl64 shl32 shr64 shr32 shr_64 sub_low_32_value : alu.

Lemma set_reg_write vm r v : at_inst vm -> is_reg r ->
  set_reg r v vm = (Ret tt, write_result r (Some v) vm).
Proof.
  intros [_ _ [Hlen _] _] Hr. unfold set_reg. rewrite py_set_nonneg; [done|].
  unfold is_reg in Hr. lia.
Qed.

(** Evaluate a handler to its last step and compare with the specification. *)
Ltac alu_value :=
  cbn [alu3]; cbv zeta; autorewrite with alu.

Lemma alu3_core o vm a b r :
  at_inst vm -> is_reg r -> is_u64 a -> is_u64 b ->
  OpcodeScheme o = InstructionType.reg_reg_reg ->
  (o = Opcode.div_u_32 -> b = 0 \/ low32 b <> 0) ->
  _fetch_reg_reg_reg vm = (Ret (low_reg vm, high_reg vm, r, a, b), vm) ->
  handler o vm = (Ret tt, write_result r (alu3 o a b) vm).
Proof.
  intros Hi Hr Ha Hb Ho Hdiv Hf.
  assert (forall v w, v = w -> set_reg r v vm = (Ret tt, write_result r (Some w) vm)) as Hset.
  { intros v w ->. by apply set_reg_write. }
  destruct o; try discriminate Ho; cbn [handler];
    match goal with |- ?h _ = _ => unfold h end; rewrite eff_bind_run, Hf; alu_value.
  all: try (apply Hset; first [done | by rewrite to_u64_id | by rewrite (to_u64_id a)]).
  all: try solve [apply Hset; auto using and_inv_value, max_signed_value, min_signed_value,
                  max_value, min_value].
  - (* div_u_32 *) destruct (Z.eqb_spec b 0) as [->|Hb0]; [by apply Hset|].
    destruct Hdiv as [|Hbz]; [done|done|]. unfold floor_div.
    destruct (Z.eqb_spec (low32 b) 0); [done|]. rewrite eff_lift_ret_bind, X4_sext. by apply Hset.
  - (* div_s_32 *) destruct (Z.eqb_spec (low32 b) 0) as [|Hbz]; [by apply Hset|].
    rewrite <-div_s_32_value by done.
    destruct ((s32 a =? - 1 ≪ 31) && (s32 b =? -1)); [by apply Hset|].
    rewrite pvm_rtz_div_quot by (pose proof (s32_zero b); lia).
    rewrite eff_lift_ret_bind, Zinv_to. by apply Hset.
  - (* rem_u_32 *) destruct (low32 b =? 0); by apply Hset.
  - (* rem_s_32 *) destruct (Z.eqb_spec (low32 b) 0) as [|Hbz]; [by apply Hset|].
    rewrite <-rem_s_32_value by done.
    destruct ((s32 a =? - 1 ≪ 31) && (s32 b =? -1)); [by apply Hset|].
    rewrite pvm_smod_rem by (pose proof (s32_zero b); lia). by apply Hset.
  - (* div_u_64 *) destruct (b =? 0); by apply Hset.
  - (* div_s_64 *) destruct (Z.eqb_spec b 0) as [|Hbz]; [by apply Hset|].
    rewrite <-div_s_64_value by done.
    destruct ((s64 a =? - 1 ≪ 63) && (s64 b =? -1)); [by apply Hset|].
    rewrite pvm_rtz_div_quot by (rewrite <-Z8_s64; apply pvm_Z_nonzero; [done|lia]).
    rewrite eff_lift_ret_bind, Zinv_to. by apply Hset.
  - (* rem_u_64 *) destruct (b =? 0); by apply Hset.
  - (* rem_s_64 *) destruct (Z.eqb_spec b 0) as [|Hbz]; [by apply Hset|].
    rewrite <-rem_s_64_value.
    destruct ((s64 a =? - 1 ≪ 63) && (s64 b =? -1)); [by apply Hset|].
    rewrite pvm_smod_rem by (rewrite <-Z8_s64; apply pvm_Z_nonzero; [done|lia]). by apply Hset.
  - (* cmov_iz *) destruct (b =? 0); [by apply Hset|done].
  - (* cmov_nz *) destruct (b =? 0); [done|by apply Hset].
  - (* rot_l_64 *) apply Hset. by rewrite Z.mod_mod, to_u64_id by (done || lia).
  - (* rot_r_64 *) apply Hset. by rewrite Z.mod_mod, to_u64_id by (done || lia).
  - (* and_inv *) apply Hset. by rewrite <-u64_to, and_inv_value.
  - (* or_inv *) apply Hset. by rewrite lnot_to_u64.
  - (* xnor *) apply Hset. by rewrite lnot_to_u64 by auto with u64.
Qed.

(** [shar_r_imm_alt_64] adds [2 ^ 64] to a negative result itself. *)
Lemma alu_imm_core o vm w_a b x r :
  at_inst vm -> is_reg r -> is_u64 b -> is_u64 x ->
  OpcodeScheme o = InstructionType.reg_reg_imm -> MemOps o = None ->
  _fetch_reg_reg_imm vm = (Ret (r, high_reg vm, w_a, b, x), vm) ->
  handler o vm = (Ret tt, write_result r (alu_imm o b x) vm).
Proof.
  intros Hi Hr Hb Hx Ho Hm Hf.
  assert (forall v w, v = w -> set_reg r v vm = (Ret tt, write_result r (Some w) vm)) as Hset.
  { intros v w ->. by apply set_reg_write. }
  destruct o; try discriminate Ho; try discriminate Hm; cbn [handler];
    match goal with |- ?h _ = _ => unfold h end; rewrite eff_bind_run, Hf; cbn [alu_imm]; alu_value.
  all: try (apply Hset; first [done | by rewrite to_u64_id]).
  all: try (destruct (b =? 0); cbn [negb]; [by apply Hset|done]).
  all: try (destruct (b =? 0); cbn [negb]; [done|by apply Hset]).
  apply Hset, to_u64_id. rewrite <-shr64. apply shiftr_is_u64; [apply mod64_nonneg|done].
Qed.

(** *** Counting *)

Lemma mod_pow2_succ x n : 0 <= n ->
  x mod 2 ^ (n + 1) = x mod 2 ^ n + if Z.testbit x n then 2 ^ n else 0.
Proof.
  intros Hn. rewrite Z.pow_add_r by lia. change (2 ^ 1) with 2.
  rewrite Z.rem_mul_r by lia. rewrite <-Z.testbit_spec' by lia.
  destruct (Z.testbit x n); cbn [Z.b2z]; lia.
Qed.

Lemma leading_zeros_spec n x : leading_zeros n x = count_leading_zeroes x (Z.of_nat n).
Proof.
  rewrite count_leading_zeroes_spec by lia. cbv zeta. induction n as [|n IH].
  { cbn. rewrite Z.mod_1_r. done. }
  cbn [leading_zeros]. rewrite IH. rewrite Nat2Z.inj_succ, <-Z.add_1_r, mod_pow2_succ by lia.
  pose proof (Z.mod_pos_bound x (2 ^ Z.of_nat n) ltac:(lia)).
  destruct (Z.testbit x (Z.of_nat n)).
  - destruct (Z.eqb_spec (x mod 2 ^ Z.of_nat n + 2 ^ Z.of_nat n) 0); [lia|].
    rewrite (Z.log2_unique _ (Z.of_nat n)); [lia|lia|].
    rewrite Z.pow_succ_r by lia. lia.
  - rewrite Z.add_0_r. destruct (_ =? 0); lia.
Qed.

Lemma trailing_zeros_zero n : trailing_zeros n 0 = Z.of_nat n.
Proof.
  induction n as [|n IH]; [done|]. cbn [trailing_zeros]. change (0 / 2) with 0. rewrite IH.
  change (Z.odd 0) with false. lia.
Qed.

Lemma trailing_zeros_odd n : forall t k, 0 <= t -> 0 <= k ->
  trailing_zeros n (2 ^ t * (2 * k + 1)) = Z.min t (Z.of_nat n).
Proof.
  induction n as [|n IH]; intros t k Ht Hk; [cbn; lia|]. cbn [trailing_zeros].
  destruct (Z.eq_dec t 0) as [->|].
  - change (2 ^ 0) with 1. rewrite Z.mul_1_l, Z.add_comm, Z.odd_add_mul_2. cbn [Z.odd]. lia.
  - replace t with (Z.succ (t - 1)) by lia. rewrite Z.pow_succ_r, <-Z.mul_assoc by lia.
    rewrite Z.odd_mul. cbn [Z.odd andb].
    rewrite (Z.mul_comm 2 (2 ^ (t - 1) * _)), Z.div_mul by lia.
    rewrite IH by lia. lia.
Qed.

(** The code counts the zeros of the whole register. *)
Lemma trailing_zeros_spec (n : nat) x : is_u64 x -> (x = 0 \/ x mod 2 ^ Z.of_nat n <> 0) ->
  trailing_zeros n x = count_trailing_zeroes x (Z.of_nat n).
Proof.
  intros Hx Hlow. destruct (Z.eq_dec x 0) as [->|Hne]; [apply trailing_zeros_zero|].
  destruct Hlow as [|Hlow]; [done|].
  destruct (odd_part x) as (t & k & Ht & Hk & Hv); [unfold is_u64 in Hx; lia|].
  rewrite (count_trailing_zeroes_spec x _ t k) by done. rewrite Hv at 1.
  rewrite trailing_zeros_odd by done. enough (t < Z.of_nat n) by lia.
  destruct (Z_lt_le_dec t (Z.of_nat n)); [done|]. destruct Hlow. rewrite Hv.
  replace t with ((t - Z.of_nat n) + Z.of_nat n) by lia. rewrite Z.pow_add_r by lia.
  rewrite <-Z.mul_assoc, (Z.mul_comm (2 ^ Z.of_nat n)), Z.mul_assoc. apply Z.mod_mul. lia.
Qed.

Lemma alu2_core o vm a r :
  at_inst vm -> is_reg r -> is_u64 a -> OpcodeScheme o = InstructionType.reg_reg ->
  (o = Opcode.trailing_zero_bits_32 -> a = 0 \/ low32 a <> 0) ->
  _fetch_reg_reg vm = (Ret (r, high_reg vm, a), vm) ->
  handler o vm = (Ret tt, write_result r (alu2 o a) vm).
Proof.
  intros Hi Hr Ha Ho Htz Hf.
  assert (forall v w, v = w -> set_reg r v vm = (Ret tt, write_result r (Some w) vm)) as Hset.
  { intros v w ->. by apply set_reg_write. }
  assert (a .& 0xFFFFFFFFFFFFFFFF = a) as Hm64 by (apply u64_id; exact Ha).
  assert (a .& 0xFFFFFFFF = low32 a) as Hm32 by apply u32_low.
  destruct o; try discriminate Ho; cbn [handler];
    match goal with |- ?h _ = _ => unfold h end; rewrite eff_bind_run, Hf; cbn [alu2];
    rewrite ?Hm64, ?Hm32.
  - by apply Hset.
  - apply Hset. by apply (bit_count_popcount 64).
  - apply Hset. apply (bit_count_popcount 32), low32_range.
  - apply Hset. symmetry. apply (leading_zeros_spec 64).
  - apply Hset. symmetry. apply (leading_zeros_spec 32).
  - apply Hset. symmetry. apply (trailing_zeros_spec 64); [done|].
    rewrite Z.mod_small by exact Ha. destruct (Z.eq_dec a 0); [by left|by right].
  - apply Hset. symmetry. apply (trailing_zeros_spec 32); [done|]. by apply Htz.
  - apply Hset. rewrite Zinv_to, pvm_Z_signed, u8_mod by lia. by rewrite signed_of_mod.
  - apply Hset. rewrite Zinv_to, pvm_Z_signed, u16_mod by lia. by rewrite signed_of_mod.
  - apply Hset. apply u16_mod.
  - unfold reverse_bytes. unfold is_u64 in Ha.
    destruct (Z.leb_spec 0 a), (Z.ltb_spec a (2 ^ 64)); try lia. cbn [andb].
    rewrite eff_lift_ret_bind. by apply Hset.
Qed.

(** ** The theorems *)

(** The division the handler does not guard: the 64-bit divisor is not zero, its low half is. *)
Definition unguarded_division (o : Opcode.t) (b : Z) : bool :=
  match o with Opcode.div_u_32 => negb (b =? 0) && (low32 b =? 0) | _ => false end.

Lemma div_u_32_run vm : at_inst vm -> unguarded_division Opcode.div_u_32 (reg_val vm (high_reg vm)) = true ->
  handler Opcode.div_u_32 vm = (Raise PyException, vm).
Proof.
  unfold unguarded_division. set (b := reg_val vm (high_reg vm)). intros Hi [Hb%negb_true_iff Hlow%Z.eqb_eq]%andb_true_iff.
  cbn [handler]. unfold _op_div_u_32. rewrite eff_bind_run, fetch_rrr by done. fold b. rewrite Hb.
  unfold floor_div. by rewrite !u32_low, Hlow.
Qed.

(** C34: Every three-register instruction, on any registers: it writes [alu3] of the registers its
    operand bytes name into its destination and changes nothing else, except for the unsigned
    32-bit division by a register that is not zero and whose low half is, which raises Python's
    exception and leaves the machine as it was. *)
Theorem alu3_correct o vm :
  at_inst vm -> OpcodeScheme o = InstructionType.reg_reg_reg ->
  let a := reg_val vm (low_reg vm) in
  let b := reg_val vm (high_reg vm) in
  handler o vm =
    if unguarded_division o b then (Raise PyException, vm) else (Ret tt, write_result (third_reg vm) (alu3 o a b) vm).
Proof.
  intros Hi Ho a b. destruct (unguarded_division o b) eqn:Hd.
  - destruct o; try done. by apply div_u_32_run.
  - apply alu3_core; try done; [by apply third_reg_ok|by apply reg_val_u64..| |by apply fetch_rrr].
    intros ->. unfold unguarded_division in Hd. destruct (Z.eqb_spec b 0); [by left|right]. by apply Z.eqb_neq.
Qed.

(** Two-register instructions compute [alu2]. *)
Theorem alu2_correct o vm :
  at_inst vm -> OpcodeScheme o = InstructionType.reg_reg ->
  let a := reg_val vm (high_reg vm) in
  (o = Opcode.trailing_zero_bits_32 -> a = 0 \/ low32 a <> 0) ->
  handler o vm = (Ret tt, write_result (low_reg vm) (alu2 o a) vm).
Proof.
  intros Hi Ho a Hd. apply alu2_core; try done; [apply low_reg_ok|by apply reg_val_u64|].
  by apply fetch_rr.
Qed.

(** Immediate instructions compute [alu_imm] of the second register and the
    sign-extended immediate. *)
Theorem alu_imm_correct o vm :
  at_inst vm -> OpcodeScheme o = InstructionType.reg_reg_imm -> MemOps o = None ->
  handler o vm = (Ret tt, write_result (low_reg vm)
    (alu_imm o (reg_val vm (high_reg vm)) (rri_immediate vm)) vm).
Proof.
  intros Hi Ho Hm. eapply alu_imm_core; try done; [apply low_reg_ok|by apply reg_val_u64
    |apply immediate_u64|by apply fetch_rri].
Qed.

(** The division whose divisor is a non-zero multiple of [2 ^ 32] raises, where
    the specification writes all ones. *)
Theorem div_u_32_raises vm :
  at_inst vm ->
  let b := reg_val vm (high_reg vm) in
  b <> 0 -> low32 b = 0 ->
  handler Opcode.div_u_32 vm = (Raise PyException, vm) /\
  alu3 Opcode.div_u_32 (reg_val vm (low_reg vm)) b = Some all_ones.
Proof.
  intros Hi b Hb Hlow. split; [|cbn [alu3]; by rewrite Hlow]. apply div_u_32_run; [done|].
  unfold unguarded_division. fold b. rewrite Hlow. by apply Z.eqb_neq in Hb as ->.
Qed.

Lemma trailing_zeros_low n : forall x, x mod 2 ^ Z.of_nat n = 0 -> trailing_zeros n x = Z.of_nat n.
Proof.
  induction n as [|n IH]; intros x Hx; [done|]. rewrite Nat2Z.inj_succ, Z.pow_succ_r in Hx by lia.
  cbn [trailing_zeros]. rewrite Z.rem_mul_r in Hx by lia.
  pose proof (Z.mod_pos_bound x 2 ltac:(lia)).
  pose proof (Z.mod_pos_bound (x / 2) (2 ^ Z.of_nat n) ltac:(lia)).
  pose proof (Zmod_odd x). destruct (Z.odd x); [nia|]. rewrite IH by nia. lia.
Qed.

(** On a register whose low half is zero, [trailing_zero_bits_32] counts the
    zeros of the whole register; the specification counts 32. *)
Theorem trailing_zero_bits_32_wrong vm :
  at_inst vm ->
  let a := reg_val vm (high_reg vm) in
  low32 a = 0 -> a <> 0 ->
  handler Opcode.trailing_zero_bits_32 vm
    = (Ret tt, write_result (low_reg vm) (Some (trailing_zeros 64 a)) vm) /\
  alu2 Opcode.trailing_zero_bits_32 a = Some 32.
Proof.
  intros Hi a Hlow Ha. split.
  - cbn [handler]. unfold _op_trailing_zero_bits_32. rewrite eff_bind_run, fetch_rr by done. fold a.
    rewrite (trailing_zeros_spec 64); [|by apply reg_val_u64|right].
    + replace (count_trailing_zeroes a (Z.of_nat 64)) with (count_trailing_zeroes a 32).
      { by apply set_reg_write, low_reg_ok. }
      unfold count_trailing_zeroes. by destruct (Z.eqb_spec a 0).
    + by rewrite Z.mod_small by apply reg_val_u64, Hi.
  - cbn [alu2]. f_equal. apply (trailing_zeros_low 32). exact Hlow.
Qed.
