(* ===== verification/Control.v ===== *)
(** * Loads, stores, branches and jumps compute their specification

    The instructions that [Alu] leaves: those that access memory and those that
    move the counter.  [access] says how a guarded memory access may end;
    [load_spec], [store_spec], [branch_spec] and [djump_spec] give the address,
    value, condition and target of every such instruction from its operand
    bytes. *)

From Stdlib Require Import ZArith Lia Bool List.
From stdpp Require Import base numbers option list gmap.
From S2P Require Import Prelude Constants Defs MemorySection Memory BasicBlock Machine Ops Alu.
Import ListNotations.

#[local] Open Scope Z_scope.
#[local] Open Scope py_scope.

(** ** Operands *)

(** The signed offset in the [n] bytes from byte [k]. *)
Definition offset_at (vm : VM) (k n : Z) : Z :=
  if n =? 0 then 0 else signed (8 * n) (le_int (code_slice (code (vm_code vm)) (pc vm + k) n)).

(** The width of a last operand that follows [k] operand bytes. *)
Definition rest_width (vm : VM) (k : Z) : Z := Z.min 4 (Z.max 0 (operand_length vm - k)).

(** The width of a first operand, in a nibble of byte 1 or the low bits of a
    byte. *)
Definition high_width (vm : VM) : Z := Z.min 4 ((inst_byte vm 1 / 16) mod 8).
Definition low_width (vm : VM) (k : Z) : Z := Z.min 4 (inst_byte vm k mod 8).

(** ** Specification *)

(** Sign-extension of a value of [n] bytes, or the value. *)
Definition extend (signed_load : bool) (n v : Z) : Z :=
  if signed_load then to_u64 (signed (8 * n) v) else v.

(** Loads: sign extension, width, destination, address. *)
Definition load_spec (o : Opcode.t) (vm : VM) : option (bool * Z * Z * Z) :=
  let direct s n := Some (s, n, low_reg vm, rri_immediate vm) in
  let indirect s n := Some (s, n, low_reg vm, reg_val vm (high_reg vm) + rri_immediate vm) in
  match o with
  | Opcode.load_u8 => direct false 1 | Opcode.load_i8 => direct true 1
  | Opcode.load_u16 => direct false 2 | Opcode.load_i16 => direct true 2
  | Opcode.load_u32 => direct false 4 | Opcode.load_i32 => direct true 4
  | Opcode.load_u64 => direct false 8
  | Opcode.load_ind_u8 => indirect false 1 | Opcode.load_ind_i8 => indirect true 1
  | Opcode.load_ind_u16 => indirect false 2 | Opcode.load_ind_i16 => indirect true 2
  | Opcode.load_ind_u32 => indirect false 4 | Opcode.load_ind_i32 => indirect true 4
  | Opcode.load_ind_u64 => indirect false 8
  | _ => None
  end.

(** Stores: width, address, value. *)
Definition store_spec (o : Opcode.t) (vm : VM) : option (Z * Z * Z) :=
  let imm n :=
    let l := low_width vm 1 in
    Some (n, immediate vm 2 l, immediate vm (2 + l) (rest_width vm (l + 1))) in
  let direct n := Some (n, rri_immediate vm, reg_val vm (low_reg vm)) in
  let imm_ind n :=
    let l := high_width vm in
    Some (n, reg_val vm (low_reg vm) + immediate vm 2 l,
          immediate vm (2 + l) (rest_width vm (l + 1))) in
  let indirect n :=
    Some (n, reg_val vm (high_reg vm) + rri_immediate vm, reg_val vm (low_reg vm)) in
  match o with
  | Opcode.store_imm_u8 => imm 1 | Opcode.store_imm_u16 => imm 2
  | Opcode.store_imm_u32 => imm 4 | Opcode.store_imm_u64 => imm 8
  | Opcode.store_u8 => direct 1 | Opcode.store_u16 => direct 2
  | Opcode.store_u32 => direct 4 | Opcode.store_u64 => direct 8
  | Opcode.store_imm_ind_u8 => imm_ind 1 | Opcode.store_imm_ind_u16 => imm_ind 2
  | Opcode.store_imm_ind_u32 => imm_ind 4 | Opcode.store_imm_ind_u64 => imm_ind 8
  | Opcode.store_ind_u8 => indirect 1 | Opcode.store_ind_u16 => indirect 2
  | Opcode.store_ind_u32 => indirect 4 | Opcode.store_ind_u64 => indirect 8
  | _ => None
  end.

(** An access below the guard zone's end or past the address space. *)
Definition guarded (a n : Z) : bool := (a <? 2 ^ 16) || (2 ^ 32 <? a + n).

(** How an access of the [n] bytes at [a], allowed on the pages of [acc], may
    end: a panic in the guard zone, [ok], or a fault that records the lowest page
    that refuses and changes nothing else. *)
Inductive access (acc : gset Z) (vm : VM) (a n : Z) (ok : outcome exn unit * VM)
  : outcome exn unit * VM -> Prop :=
| access_guarded : guarded a n = true -> access acc vm a n ok (Raise PanicError, vm)
| access_ok : guarded a n = false -> accessible acc a n -> access acc vm a n ok ok
| access_fault pg : guarded a n = false -> lowest_refused acc a n pg ->
    access acc vm a n ok
      (Raise PVMMemoryError, set_memory (set_mem_addr (pg * 4096) (mem vm)) vm).

(** The bytes of memory. *)
Definition memory_int (m : PVMMemory) (a n : Z) : Z := le_int (map (mv_get (mv m)) (py_range a (a + n))).

(** Branches: condition and offset. *)
Definition branch_spec (o : Opcode.t) (vm : VM) : option (bool * Z) :=
  let a := reg_val vm (low_reg vm) in
  let b := reg_val vm (high_reg vm) in
  let x := immediate vm 2 (high_width vm) in
  let rr c := Some (c, offset_at vm 2 (rest_width vm 1)) in
  let ri c := Some (c, offset_at vm (2 + high_width vm) (rest_width vm (high_width vm + 1))) in
  match o with
  | Opcode.branch_eq => rr (a =? b) | Opcode.branch_ne => rr (negb (a =? b))
  | Opcode.branch_lt_u => rr (a <? b) | Opcode.branch_ge_u => rr (b <=? a)
  | Opcode.branch_lt_s => rr (s64 a <? s64 b) | Opcode.branch_ge_s => rr (s64 b <=? s64 a)
  | Opcode.branch_eq_imm => ri (a =? x) | Opcode.branch_ne_imm => ri (negb (a =? x))
  | Opcode.branch_lt_u_imm => ri (a <? x) | Opcode.branch_le_u_imm => ri (a <=? x)
  | Opcode.branch_ge_u_imm => ri (x <=? a) | Opcode.branch_gt_u_imm => ri (x <? a)
  | Opcode.branch_lt_s_imm => ri (s64 a <? s64 x) | Opcode.branch_le_s_imm => ri (s64 a <=? s64 x)
  | Opcode.branch_ge_s_imm => ri (s64 x <=? s64 a) | Opcode.branch_gt_s_imm => ri (s64 x <? s64 a)
  | _ => None
  end.

(** A jump to an address taken from a register: the halt address halts; an even
    address [2 (i + 1)] goes to entry [i] of the jump table if that is a block
    start; every other address panics. *)
Definition djump_spec (a : Z) (vm : VM) : outcome exn unit * VM :=
  if a =? 2 ^ 32 - 2 ^ 16 then (Ret tt, set_skip_len 0 (set_status ExitReason.halt vm))
  else
    match (if (0 <? a) && Z.even a then jump_table (vm_code vm) !! Z.to_nat (a / 2 - 1) else None) with
    | Some target =>
        if is_block_start vm target then (Ret tt, set_skip_len (target - pc vm) vm)
        else (Raise PanicError, vm)
    | None => (Raise PanicError, vm)
    end.

(** * Properties *)

(** ** Fetching *)

Lemma code_uint_operand vm k n : at_inst vm -> 0 <= k <= 16 -> 0 <= n <= 4 ->
  exists x, code_uint k n vm = (Ret x, vm) /\ pvm_X x n = immediate vm k n /\
    pvm_Z x n = offset_at vm k n.
Proof.
  intros Hi Hk Hn. destruct (code_uint_imm vm k n Hi Hk Hn) as (x & Hx & Himm).
  exists x. split; [done|]. split; [done|].
  pose proof Hi as [Hc Hpc _ _]. destruct (decoded_inst _ _ Hc Hpc) as (Hp & Hlen & _).
  unfold code_uint, lift in Hx. unfold offset_at. destruct (Z.eqb_spec n 0) as [->|Hn0]; [done|].
  assert (read_width n = true) as Hw.
  { assert (n = 1 \/ n = 2 \/ n = 3 \/ n = 4) as Hcases by lia.
    by destruct Hcases as [->|[->|[->| ->]]]. }
  rewrite read_uint_spec in Hx; [|apply Hc|done|lia|unfold blen in *; lia].
  injection Hx as <-. rewrite pvm_Z_signed by lia. rewrite take_drop_slice by lia.
  by rewrite (Z.mul_comm n 8).
Qed.

(** Evaluate the reads of a fetcher one by one. *)
Ltac operand :=
  rewrite eff_bind_run;
  first [ rewrite code_byte_val by (done || lia)
        | rewrite get_reg_val by (done || solve [apply low_reg_ok | by apply high_reg_ok])
        | match goal with H : arg_len ?vm = _ |- context [arg_len ?vm] => rewrite H end
        | match goal with |- context [code_uint ?k ?n ?vm] =>
            let x := fresh "x" in let Hx := fresh "Hx" in
            destruct (code_uint_operand vm k n) as (x & Hx & ? & ?);
            [done|lia|lia|rewrite Hx] end ];
  cbv zeta; repeat match goal with
  | |- context [Z.min 12 (inst_byte ?vm 1 mod 16)] => fold (low_reg vm)
  | |- context [Z.min 12 (inst_byte ?vm 1 / 16)] => fold (high_reg vm)
  | |- context [Z.min 4 (inst_byte ?vm ?k mod 8)] => fold (low_width vm k)
  | |- context [Z.min 4 ((inst_byte ?vm 1 / 16) mod 8)] => fold (high_width vm)
  end.

Section fetch.
Context (vm : VM) (Hi : at_inst vm).

Lemma length_val : arg_len vm = (Ret (operand_length vm), vm).
Proof using Hi. by apply arg_len_val. Qed.

Lemma low_width_range k : 0 <= low_width vm k <= 4.
Proof using. unfold low_width. pose proof (Z.mod_pos_bound (inst_byte vm k) 8). lia. Qed.
Lemma high_width_range : 0 <= high_width vm <= 4.
Proof using. unfold high_width. pose proof (Z.mod_pos_bound (inst_byte vm 1 / 16) 8). lia. Qed.

Lemma fetch_ri : _fetch_reg_imm vm = (Ret (low_reg vm, rri_immediate vm), vm).
Proof using Hi.
  pose proof length_val as Hl. unfold _fetch_reg_imm. do 3 operand.
  unfold mret, eff_ret, rri_immediate. congruence.
Qed.

Lemma fetch_ii : _fetch_imm_imm vm
  = (Ret (immediate vm 2 (low_width vm 1),
          immediate vm (2 + low_width vm 1) (rest_width vm (low_width vm 1 + 1))), vm).
Proof using Hi.
  pose proof length_val as Hl. pose proof (low_width_range 1) as Hr.
  unfold _fetch_imm_imm. do 2 operand. do 2 operand.
  unfold mret, eff_ret, rest_width. rewrite Z.sub_add_distr. congruence.
Qed.

Lemma fetch_offset : _fetch_offset vm = (Ret (offset_at vm 1 (Z.min 4 (operand_length vm))), vm).
Proof using Hi.
  destruct (arg_len_val vm Hi) as [Hl Hr]. unfold _fetch_offset. do 2 operand.
  unfold mret, eff_ret. congruence.
Qed.

Lemma fetch_rii : _fetch_reg_imm_imm vm
  = (Ret (low_reg vm, reg_val vm (low_reg vm), immediate vm 2 (high_width vm),
          immediate vm (2 + high_width vm) (rest_width vm (high_width vm + 1))), vm).
Proof using Hi.
  pose proof length_val as Hl. pose proof high_width_range as Hr.
  unfold _fetch_reg_imm_imm. operand. operand. do 3 operand.
  unfold mret, eff_ret, rest_width. rewrite Z.sub_add_distr. congruence.
Qed.

Lemma fetch_rio : _fetch_reg_imm_offset vm
  = (Ret (low_reg vm, reg_val vm (low_reg vm), immediate vm 2 (high_width vm),
          offset_at vm (2 + high_width vm) (rest_width vm (high_width vm + 1))), vm).
Proof using Hi.
  pose proof length_val as Hl. pose proof high_width_range as Hr.
  unfold _fetch_reg_imm_offset. operand. operand. do 3 operand.
  unfold mret, eff_ret, rest_width. rewrite Z.sub_add_distr. congruence.
Qed.

Lemma fetch_rro : _fetch_reg_reg_offset vm
  = (Ret (low_reg vm, high_reg vm, reg_val vm (low_reg vm), reg_val vm (high_reg vm),
          offset_at vm 2 (rest_width vm 1)), vm).
Proof using Hi.
  pose proof length_val as Hl. unfold _fetch_reg_reg_offset. do 2 operand. do 3 operand.
  unfold mret, eff_ret, rest_width. congruence.
Qed.

Lemma fetch_rrii : _fetch_reg_reg_imm_imm vm
  = (Ret (low_reg vm, high_reg vm, reg_val vm (high_reg vm), immediate vm 3 (low_width vm 2),
          immediate vm (3 + low_width vm 2) (rest_width vm (low_width vm 2 + 2))), vm).
Proof using Hi.
  pose proof length_val as Hl. pose proof (low_width_range 2) as Hr.
  unfold _fetch_reg_reg_imm_imm. do 2 operand. do 2 operand. do 2 operand.
  unfold mret, eff_ret, rest_width. rewrite Z.sub_add_distr. congruence.
Qed.
End fetch.

(** ** Memory *)

Lemma guarded_test a n : (a <? 65536) || (2 ^ 32 <? a + n) = guarded a n.
Proof. done. Qed.

Lemma guarded_false a n : 0 < n -> guarded a n = false -> 0 <= a < SIZE.
Proof.
  unfold guarded, SIZE. intros Hn [H1 H2]%orb_false_iff. lia.
Qed.

Lemma mem_read_access oo vm a r (f : Z -> Z) :
  at_inst vm -> is_reg r -> access_width oo ->
  let addr := u32 a in
  let n := mem_ops_bytes oo in
  access (pages_r (mem vm)) vm addr n
    (Ret tt, write_result r (Some (f (memory_int (mem vm) addr n)))
               (set_memory (set_mem_addr addr (mem vm)) vm))
    ((v ← mem_read oo a; set_reg r (f v)) vm).
Proof.
  intros Hi Hr Hw addr n. unfold mem_read, access_width in *. fold addr n. fold n in Hw.
  rewrite guarded_test. destruct (guarded addr n) eqn:Hg.
  { rewrite eff_raise_bind. by constructor. }
  pose proof (guarded_false addr n ltac:(lia) Hg) as Ha.
  rewrite eff_bind_run. unfold on_memory, read_int. destruct (Z.leb_spec n 0); [lia|].
  rewrite eff_bind_run.
  destruct (read_bytes_spec addr n None (mem vm) Ha ltac:(lia)) as [[Hacc ->]|(pg & Hpg & ->)].
  - autorewrite with eff. cbn [pad].
    assert (at_inst (set_memory (set_mem_addr addr (mem vm)) vm)) as Hi'.
    { destruct Hi as [Hc Hp Hreg Hm]. by split. }
    rewrite set_reg_write by done. by apply access_ok.
  - by apply access_fault.
Qed.

Lemma mem_write_access oo vm a v :
  at_inst vm -> access_width oo ->
  let addr := u32 a in
  let n := mem_ops_bytes oo in
  access (pages_w (mem vm)) vm addr n
    (Ret tt, set_memory (set_mv (set_mem_addr addr (mem vm))
               (mv_store (mv (mem vm)) addr (le_bytes (Z.to_nat n) v))) vm)
    (mem_write oo a v vm).
Proof.
  intros Hi Hw addr n. unfold mem_write, access_width in *. fold addr n. fold n in Hw.
  rewrite guarded_test. destruct (guarded addr n) eqn:Hg; [by constructor|].
  pose proof (guarded_false addr n ltac:(lia) Hg) as Ha.
  unfold on_memory, write_int. destruct (Z.leb_spec n 0); [lia|].
  assert (le_bytes (Z.to_nat n) (v .& (1 ≪ (n * 8) - 1)) = le_bytes (Z.to_nat n) v) as ->.
  { rewrite Z.shiftl_1_l, land_mask by lia.
    rewrite <-(le_bytes_mod (Z.to_nat n) v), Z2Nat.id by lia. change 256 with (2 ^ 8).
    by rewrite <-Z.pow_mul_r, (Z.mul_comm 8 n) by lia. }
  set (data := le_bytes (Z.to_nat n) v).
  assert (length data = Z.to_nat n) as Hlen by apply length_le_bytes.
  assert (data <> []) as Hne by (intros Hd; rewrite Hd in Hlen; cbn in Hlen; lia).
  pose proof (write_bytes_cases addr data (mem vm) Ha Hne) as Hc. cbn zeta in Hc.
  rewrite Hlen, Z2Nat.id in Hc by lia.
  destruct Hc as [[Hacc ->]|(pg & Hpg & ->)]; [by apply access_ok|by apply access_fault].
Qed.

(** Loads read the specified bytes, extend them and write the destination; a
    refused load changes no register and no memory. *)
Theorem load_correct o vm signed_load n r a :
  at_inst vm -> load_spec o vm = Some (signed_load, n, r, a) ->
  access (pages_r (mem vm)) vm (u32 a) n
    (Ret tt, write_result r (Some (extend signed_load n (memory_int (mem vm) (u32 a) n)))
               (set_memory (set_mem_addr (u32 a) (mem vm)) vm))
    (handler o vm).
Proof.
  intros Hi Ho. pose proof (low_reg_ok vm) as Hr.
  assert (forall b, u32 (u32 b) = u32 b) as Hu by (intros; rewrite !u32_mod; by rewrite Z.mod_mod by lia).
  destruct o; try discriminate Ho; cbn [load_spec] in Ho; injection Ho as <- <- <- <-; cbn [handler extend];
    match goal with |- access _ _ _ _ _ (?h _) => unfold h end;
    rewrite eff_bind_run; first [rewrite fetch_ri by done|rewrite fetch_rri by done]; cbn beta iota;
    match goal with
    | |- access _ _ _ _ _ ((v ← mem_read ?oo ?x; set_reg ?r (@?f v)) _) =>
        pose proof (mem_read_access oo vm x r f Hi Hr) as Hacc
    end; cbn beta zeta in Hacc; rewrite ?Hu in Hacc;
    rewrite ?pvm_Z_inv_8, ?pvm_X_signed, ?pvm_Z_signed in Hacc by lia;
    (apply Hacc; unfold access_width; vm_compute; split; congruence).
Qed.

(** The low bytes of a value. *)
Lemma le_bytes_low (n : nat) v w : v mod 256 ^ Z.of_nat n = w mod 256 ^ Z.of_nat n -> le_bytes n v = le_bytes n w.
Proof. intros H. by rewrite <-(le_bytes_mod n v), H, le_bytes_mod. Qed.

Lemma le_bytes_u8 v : le_bytes 1 (u8 v) = le_bytes 1 v.
Proof. apply le_bytes_low. rewrite u8_mod. change (256 ^ Z.of_nat 1) with (2 ^ 8). by rewrite Z.mod_mod by lia. Qed.
Lemma le_bytes_u16 v : le_bytes 2 (u16 v) = le_bytes 2 v.
Proof. apply le_bytes_low. rewrite u16_mod. change (256 ^ Z.of_nat 2) with (2 ^ 16). by rewrite Z.mod_mod by lia. Qed.
Lemma le_bytes_u32 v : le_bytes 4 (u32 v) = le_bytes 4 v.
Proof. apply le_bytes_low. rewrite u32_mod. change (256 ^ Z.of_nat 4) with (2 ^ 32). by rewrite Z.mod_mod by lia. Qed.

(** Stores write the low bytes of the specified value; a refused store changes no
    byte. *)
Theorem store_correct o vm n a v :
  at_inst vm -> store_spec o vm = Some (n, a, v) ->
  access (pages_w (mem vm)) vm (u32 a) n
    (Ret tt, set_memory (set_mv (set_mem_addr (u32 a) (mem vm))
               (mv_store (mv (mem vm)) (u32 a) (le_bytes (Z.to_nat n) v))) vm)
    (handler o vm).
Proof.
  intros Hi Ho.
  assert (forall b, u32 (u32 b) = u32 b) as Hu by (intros; rewrite !u32_mod; by rewrite Z.mod_mod by lia).
  destruct o; try discriminate Ho; cbn [store_spec] in Ho; injection Ho as <- <- <-; cbn [handler];
    match goal with |- access _ _ _ _ _ (?h _) => unfold h end;
    rewrite eff_bind_run;
    first [rewrite fetch_ii by done|rewrite fetch_ri by done|rewrite fetch_rii by done|rewrite fetch_rri by done];
    cbn beta iota; rewrite ?(eff_bind_run (get_reg _)), ?get_reg_val by (done || apply low_reg_ok); cbn beta iota zeta;
    rewrite <-?u8_mod, <-?u16_mod;
    match goal with
    | |- access _ _ _ _ _ (mem_write ?oo ?x ?y _) => pose proof (mem_write_access oo vm x y Hi) as Hacc
    end; cbn beta zeta in Hacc; rewrite ?Hu in Hacc;
    match type of Hacc with access_width ?oo -> _ =>
      let n := eval vm_compute in (mem_ops_bytes oo) in
      change (mem_ops_bytes oo) with n in Hacc;
      let k := eval vm_compute in (Z.to_nat n) in change (Z.to_nat n) with k in Hacc |- * end;
    rewrite ?le_bytes_u8, ?le_bytes_u16, ?le_bytes_u32 in Hacc;
    (apply Hacc; unfold access_width; vm_compute; split; congruence).
Qed.

(** ** Control flow *)

(** A branch panics unless its target and the instruction after it both start a
    block; otherwise it goes to its target if its condition holds and falls
    through if not. *)
Theorem branch_correct o vm cond offset :
  at_inst vm -> branch_spec o vm = Some (cond, offset) ->
  handler o vm =
    if is_block_start vm (pc vm + offset) && is_block_start vm (pc vm + skip_len vm)
    then (Ret tt, if cond then set_skip_len offset vm else vm)
    else (Raise PanicError, vm).
Proof.
  intros Hi Ho.
  assert (forall b C, branch b C vm =
    if is_block_start vm (pc vm + b) && is_block_start vm (pc vm + skip_len vm)
    then (Ret tt, if C then set_skip_len b vm else vm) else (Raise PanicError, vm)) as Hb.
  { intros b C. unfold branch. destruct (is_block_start vm (pc vm + b)), (is_block_start vm (pc vm + skip_len vm));
      cbn [negb orb andb]; by destruct C. }
  destruct o; try discriminate Ho; cbn [branch_spec] in Ho; injection Ho as <- <-; cbn [handler];
    match goal with |- ?h _ = _ => unfold h end;
    rewrite eff_bind_run; first [rewrite fetch_rio by done|rewrite fetch_rro by done]; cbn beta iota;
    rewrite Hb, ?Z8_s64; done.
Qed.

Lemma djump_run a vm : 0 <= a ->
  (skip ← djump a; modify (set_skip_len skip)) vm = djump_spec a vm.
Proof.
  intros Ha. rewrite eff_bind_run. unfold djump, djump_spec. destruct (a =? 2 ^ 32 - 2 ^ 16); [done|].
  change PVM_DYNAMIC_ALIGNMENT_FACTOR with 2.
  assert (Z.even a = (a mod 2 =? 0)) as ->.
  { apply eq_true_iff_eq. rewrite Z.even_spec, Z.eqb_eq. split.
    - intros [k ->]. rewrite Z.mul_comm. by apply Z.mod_mul.
    - intros He. exists (a / 2). pose proof (Z.div_mod a 2 ltac:(lia)). lia. }
  destruct (Z.eqb_spec a 0) as [->|Hne]; cbn [orb]; [done|].
  destruct (Z.ltb_spec 0 a); [|lia]. destruct (Z.eqb_spec (a mod 2) 0) as [He|He]; cbn [negb andb]; [|done].
  set (i := a / 2 - 1).
  assert (0 <= i) as Hi.
  { unfold i. pose proof (Z.div_mod a 2 ltac:(lia)). lia. }
  destruct (Z.ltb_spec i 0); [lia|]. cbn [orb].
  destruct (Z.leb_spec (Z.of_nat (length (jump_table (vm_code vm)))) i).
  - rewrite lookup_ge_None_2 by lia. done.
  - rewrite py_index_nonneg by lia.
    destruct (lookup_lt_is_Some_2 (jump_table (vm_code vm)) (Z.to_nat i)) as [t Ht]; [lia|]. rewrite Ht.
    by destruct (is_block_start vm t).
Qed.

(** The four jumps: static jumps panic unless their target starts a block;
    indirect ones follow [djump_spec]; the combined forms first load their
    immediate, after reading the register they jump through. *)
Theorem jump_correct vm :
  at_inst vm ->
  let static offset vm :=
    if is_block_start vm (pc vm + offset) then (Ret tt, set_skip_len offset vm)
    else (Raise PanicError, vm) in
  handler Opcode.jump vm = static (offset_at vm 1 (Z.min 4 (operand_length vm))) vm /\
  handler Opcode.jump_ind vm = djump_spec (u32 (reg_val vm (low_reg vm) + rri_immediate vm)) vm /\
  handler Opcode.load_imm_jump vm =
    static (offset_at vm (2 + high_width vm) (rest_width vm (high_width vm + 1)))
      (write_result (low_reg vm) (Some (immediate vm 2 (high_width vm))) vm) /\
  handler Opcode.load_imm_jump_ind vm =
    djump_spec (u32 (reg_val vm (high_reg vm)
                     + immediate vm (3 + low_width vm 2) (rest_width vm (low_width vm 2 + 2))))
      (write_result (low_reg vm) (Some (immediate vm 3 (low_width vm 2))) vm).
Proof.
  intros Hi static.
  assert (forall b vm, sjump b vm = static b vm) as Hs.
  { intros b vm'. unfold sjump, static. by destruct (is_block_start vm' _). }
  assert (forall x, 0 <= u32 x) as H0 by (intros; pose proof (u32_is_u64 x) as [? _]; done).
  cbn [handler]. split_and!.
  - unfold _op_jump. rewrite eff_bind_run, fetch_offset by done. apply Hs.
  - unfold _op_jump_ind. rewrite eff_bind_run, fetch_ri by done. cbn beta iota.
    rewrite (eff_bind_run (get_reg _)), get_reg_val by (done || apply low_reg_ok). by apply djump_run.
  - unfold _op_load_imm_jump. rewrite eff_bind_run, fetch_rio by done. cbn beta iota.
    rewrite eff_bind_run, set_reg_write by (done || apply low_reg_ok). apply Hs.
  - unfold _op_load_imm_jump_ind. rewrite eff_bind_run, fetch_rrii by done. cbn beta iota.
    rewrite eff_bind_run, set_reg_write by (done || apply low_reg_ok). by apply djump_run.
Qed.
