(* ===== verification/Interp.v ===== *)
(** * The interpreter

    [pvm/interpreters/cpython/interpreter_cpython.py]: [reset] builds the
    instruction tables and the gas of every basic block; [invoke] is the main
    loop; [next_instruction], [get_exit_condition] and [gas_paid] are what the
    host calls use.

    The loop of [invoke] works on local copies of the counter, the gas, the
    status, the skip distance, the instruction count and the current block; they
    are the record [Locals].  Every turn writes them to the machine before the
    handler runs and reads them back after it, as the code does. *)

From Stdlib Require Import ZArith Lia Bool List.
From stdpp Require Import base numbers option sorting list gmap.
From S2P Require Import Prelude Constants Defs MemorySection Memory BasicBlock GasModel Machine Ops OpsSafety.
Import ListNotations.

#[local] Open Scope Z_scope.
#[local] Open Scope py_scope.

(** ** Programs *)

(** [PVMCode] and [PVMProgram]: what [reset] reads of them. *)
Record PVMProgram : Type := mkProgram {
  pg_code : bytes;
  pg_jump_table : list Z;
  pg_opcode_bitmask : list bool;
  pg_registers : list Z;
  pg_memory : PVMMemory
}.

(** ** [reset] *)

(** [_calculate_basic_block_gas]: the loop over the sorted starts.  [None] is a
    simulation that does not end, which [calculate_block_gas_terminates]
    excludes. *)
Fixpoint block_gas_loop (g : GasModel) (starts : list Z) (acc : gmap Z Z)
  : outcome exn (gmap Z Z) :=
  match starts with
  | [] => Ret acc
  | start :: starts =>
      match compute_block_gas_cost g start false with
      | Some (Ret cost) => block_gas_loop g starts (<[start := cost]> acc)
      | Some (Raise e) => Raise e
      | None => Raise PyException
      end
  end.

(** [create_instruction_lookup] and [_calculate_basic_block_gas]: the tables of
    the code. *)
Definition build_code (p : PVMProgram) : outcome exn Code :=
  let code_length := blen (pg_code p) in
  let code := pg_code p ++ replicate 25 0 in
  let '(positions, lengths, valid) :=
    decode_instructions (take (Z.to_nat code_length) code) (pg_opcode_bitmask p) in
  starts ← if valid then detect_basic_blocks code code_length positions lengths else Ret ∅;
  gas ← block_gas_loop (mkGasModel code positions lengths) (sorted starts) ∅;
  Ret (mkCode code code_length (u64 code_length) valid (pg_jump_table p) (pg_opcode_bitmask p)
         positions lengths gas starts (sorted starts)).

(** [for idx, val in enumerate(program.registers): self.reg[idx] = u64(val)] *)
Fixpoint load_registers (idx : Z) (values reg : list Z) : outcome exn (list Z) :=
  match values with
  | [] => Ret reg
  | v :: values =>
      match py_set reg idx (u64 v) with
      | Some reg => load_registers (idx + 1) values reg
      | None => Raise PyException
      end
  end.

(** The constructor: [reset] on a fresh object. *)
Definition new_interpreter (p : PVMProgram) : outcome exn VM :=
  reg ← load_registers 0 (pg_registers p) (replicate 13 0);
  c ← build_code p;
  Ret (mkVM c reg 0 0 0 0 0 (pg_memory p) ExitReason.resume None (-1) None).

(** ** [invoke] *)

Record Locals : Type := mkLocals {
  l_vm : VM;
  pc_local : Z;
  gas_local : Z;
  l_status : ExitReason.t;
  l_skip_len : Z;
  l_inst_nr : Z;
  l_block : option Z
}.

(** [self.opcode = opcode; ...; self.status = status] *)
Definition sync_to_vm (vm : VM) (opcode skip_len pc inst_nr gas : Z) (status : ExitReason.t) : VM :=
  mkVM (vm_code vm) (reg vm) pc opcode skip_len gas inst_nr (mem vm) status
    (exit_value vm) (_mem_addr vm) (current_block_start vm).

(** Leaving the loop before the handler: [self.exit_value = None; break]. *)
Definition stop (s : Locals) (vm : VM) (status : ExitReason.t) : Locals :=
  mkLocals (set_exit_value None vm) (pc_local s) (gas_local s) status (l_skip_len s)
    (l_inst_nr s) (l_block s).

(** Charging the block: [None] when the gas does not cover it, [Some] of the
    gas left and the block entered. *)
Definition charge (vm : VM) (s : Locals) : outcome exn (option (Z * option Z)) :=
  match basic_block_starts_sorted (vm_code vm) with
  | [] => Ret (Some (gas_local s, l_block s))
  | starts =>
      let block_start := get_block_start starts (pc_local s) in
      match l_block s with
      | None =>
          match basic_block_gas (vm_code vm) !! block_start with
          | None => Raise PyException
          | Some block_cost =>
              if gas_local s <? block_cost then Ret None
              else Ret (Some (gas_local s - block_cost, Some block_start))
          end
      | Some _ => Ret (Some (gas_local s, Some block_start))
      end
  end.

(** The [except] clauses: the status and exit value after a handler raised. *)
Definition on_exception (e : exn) (vm : VM) : ExitReason.t * option Z :=
  match e with
  | PVMMemoryError =>
      let fault_addr := _mem_addr vm in
      if 0 <=? fault_addr then
        if (0 <=? fault_addr) && (fault_addr <? 2 ^ 16) then (ExitReason.panic, None)
        else (ExitReason.page_fault, Some (fault_addr - fault_addr mod PVM_PAGE_SIZE))
      else (ExitReason.page_fault, Some fault_addr)
  | PanicError => (ExitReason.panic, exit_value vm)
  | _ => (ExitReason.panic, None)
  end.

(** One turn of the loop; [inr] leaves it, with the exception that leaves [invoke]
    if there is one. *)
Definition invoke_body (s : Locals) : Locals + outcome exn unit * Locals :=
  let vm := l_vm s in
  match l_status s with
  | ExitReason.resume =>
      if code_size (vm_code vm) <=? pc_local s then inr (Ret tt, stop s vm ExitReason.panic)
      else
        match inst_pos (vm_code vm) !! pc_local s with
        | None => inr (Ret tt, stop s vm ExitReason.panic)
        | Some inst_index =>
            match charge vm s with
            | Raise e => inr (Raise e, s)
            | Ret None => inr (Ret tt, stop s vm ExitReason.out_of_gas)
            | Ret (Some (gas_left, block)) =>
                match mem_index (code (vm_code vm)) (pc_local s),
                      arg_len_at (inst_arg_len (vm_code vm)) inst_index with
                | Ret opcode, Ret arg_len =>
                    let skip := arg_len + 1 in
                    let inst_nr' := l_inst_nr s + 1 in
                    let vm := sync_to_vm vm opcode skip (pc_local s) inst_nr' gas_left
                                (l_status s) in
                    match _opcode_lut opcode vm with
                    | (Raise e, vm') =>
                        let '(status, value) := on_exception e vm' in
                        inr (Ret tt, mkLocals (set_exit_value value vm') (pc vm') (gas vm') status
                                       (skip_len vm') (inst_nr vm') block)
                    | (Ret _, vm') =>
                        let s' := mkLocals vm' (pc vm') (gas vm') (status vm') (skip_len vm')
                                    (inst_nr vm') block in
                        match status vm' with
                        | ExitReason.resume =>
                            inl (mkLocals vm' (u32 (pc vm' + skip_len vm')) (gas vm') (status vm')
                                   (skip_len vm') (inst_nr vm')
                                   (if is_termination opcode then None else block))
                        | _ => inl s'
                        end
                    end
                | Raise e, _ => inr (Raise e, s)
                | _, Raise e => inr (Raise e, s)
                end
            end
        end
  | _ => inr (Ret tt, s)
  end.

(** [_sync_memory] *)
Definition _sync_memory (vm : VM) : VM :=
  mkVM (vm_code vm) (reg vm) (pc vm) (opcode vm) (skip_len vm) (gas vm) (inst_nr vm)
    (set_mem_addr (_mem_addr vm) (mem vm)) (status vm) (exit_value vm) (_mem_addr vm)
    (current_block_start vm).

(** The assignments after the loop. *)
Definition sync_from_locals (s : Locals) : VM :=
  let vm := l_vm s in
  _sync_memory
    (mkVM (vm_code vm) (reg vm) (pc_local s) (opcode vm) (l_skip_len s) (gas_local s)
       (l_inst_nr s) (mem vm) (l_status s) (exit_value vm) (_mem_addr vm) (l_block s)).

(** The turns are bounded: every turn is paid for, block by block
    ([invoke_total]). *)
Definition invoke_fuel (c : Code) (gas : Z) : positive :=
  Z.to_pos ((gas + 1) * (code_length c + 1) + 2).

(** [invoke]; [None] would be running out of turns.  An exception of
    [validate_pvm_gas] leaves the machine unchanged. *)
Definition invoke (pc_arg gas_arg : Z) (vm : VM) : option (outcome exn unit * VM) :=
  match validate_pvm_gas gas_arg with
  | Raise e => Some (Raise e, vm)
  | Ret checked_gas =>
      let vm := set_status ExitReason.resume (set_gas checked_gas (set_pc (u32 pc_arg) vm)) in
      if negb (code_valid (vm_code vm)) || negb (bool_decide (is_Some (inst_pos (vm_code vm) !! pc_arg)))
      then Some (Ret tt, set_exit_value None (set_status ExitReason.panic vm))
      else
        match ploop (invoke_fuel (vm_code vm) checked_gas) invoke_body
                (mkLocals vm (pc vm) (gas vm) (status vm) (skip_len vm) (inst_nr vm)
                   (current_block_start vm)) with
        | inr (Ret _, s) => Some (Ret tt, sync_from_locals s)
        | inr (Raise e, s) => Some (Raise e, l_vm s)
        | inl _ => None
        end
  end.

(** ** Between invocations *)

Definition gas_paid (vm : VM) : bool :=
  match current_block_start vm with Some _ => true | None => false end.
Definition set_gas_paid (value : bool) (vm : VM) : VM :=
  set_current_block (if value then Some 0 else None) vm.

Definition next_instruction : M unit :=
  l ← arg_len;
  modify (set_skip_len (l + 1)) ≫= fun _ =>
  modify (fun vm => set_pc (u32 (pc vm + skip_len vm)) vm).

(** The value of an [ExitCondition]: an integer, the bytes of the result, or
    nothing. *)
Inductive exit_data : Type := EInt (v : Z) | EBytes (bs : bytes) | ENone.

Record ExitCondition : Type := mkExit { ec_reason : ExitReason.t; ec_value : exit_data }.

Definition get_exit_condition : M ExitCondition := fun vm =>
  match status vm with
  | ExitReason.host_halt | ExitReason.page_fault =>
      match exit_value vm with
      | Some v => (Ret (mkExit (status vm) (EInt v)), vm)
      | None => (Raise PyException, vm)
      end
  | ExitReason.halt =>
      match get_reg 7 vm, get_reg 8 vm with
      | (Ret w7, _), (Ret w8, _) =>
          let '(r, m) := read_bytes w7 w8 None (mem vm) in
          let vm' := put_mem m vm in
          match r with
          | Ret bs => (Ret (mkExit ExitReason.halt (EBytes bs)), vm')
          | Raise PVMMemoryError | Raise PanicError => (Ret (mkExit ExitReason.halt (EBytes [])), vm')
          | Raise e => (Raise e, vm')
          end
      | _, _ => (Raise PyException, vm)
      end
  | ExitReason.panic => (Ret (mkExit ExitReason.panic ENone), vm)
  | r => (Ret (mkExit r (EBytes [])), vm)
  end.

(** * Properties *)

(** ** The tables of a program *)

Lemma block_gas_loop_total g starts : forall acc,
  (forall s, s ∈ starts -> exists cost, compute_block_gas_cost g s false = Some (Ret cost) /\ 1 <= cost) ->
  exists gas, block_gas_loop g starts acc = Ret gas /\
    (forall s, s ∈ starts -> exists cost, gas !! s = Some cost /\ 1 <= cost) /\
    (forall s, s ∉ starts -> gas !! s = acc !! s).
Proof.
  induction starts as [|start starts IH]; intros acc Hc; cbn [block_gas_loop].
  { exists acc. split; [done|]. split; [intros s []%not_elem_of_nil|done]. }
  destruct (Hc start) as (cost & -> & Hpos); [left|].
  destruct (IH (<[start := cost]> acc)) as (gas & -> & Hin & Hout); [intros; apply Hc; by right|].
  exists gas. split; [done|]. split.
  - intros s [->|Hs]%elem_of_cons; [|by apply Hin].
    destruct (decide (start ∈ starts)) as [Hd|Hd]; [by apply Hin|].
    rewrite Hout by done. rewrite lookup_insert_eq. by eexists.
  - intros s [Hne Hs]%not_elem_of_cons. rewrite Hout by done. by rewrite lookup_insert_ne.
Qed.

(** What [reset] needs of a program: a code blob of bytes, of at most [2 ^ 32]
    bytes. *)
Record program_ok (p : PVMProgram) : Prop := {
  po_bytes : List.Forall is_byte (pg_code p);
  po_size : blen (pg_code p) <= 2 ^ 32;
  po_registers : length (pg_registers p) = 13%nat;
  po_memory : mem_wf (pg_memory p)
}.

Lemma code_at_padded orig pad i :
  0 <= i < blen orig -> code_at (orig ++ pad) i = code_at orig i.
Proof.
  unfold blen. intros Hi. unfold code_at. rewrite !py_index_nonneg by lia.
  by rewrite lookup_app_l by lia.
Qed.

(** Block detection reads only the bytes at decoded positions. *)
Lemma detect_loop_ext code code' n positions lengths items : forall starts,
  (forall item, item ∈ items -> code_at code item.1 = code_at code' item.1) ->
  detect_loop code n positions lengths items starts
  = detect_loop code' n positions lengths items starts.
Proof.
  induction items as [|[pc i] items IH]; intros starts Hc; [done|]. cbn [detect_loop].
  assert (detect_step code n positions lengths (pc, i) starts
          = detect_step code' n positions lengths (pc, i) starts) as ->.
  { unfold detect_step. pose proof (Hc (pc, i) ltac:(left)) as H. cbn in H. by rewrite H. }
  destruct (detect_step _ _ _ _ _ _); [|done]. cbn. apply IH. intros. apply Hc. by right.
Qed.

Lemma detect_padded orig pad positions lengths bitmask :
  valid_tables orig bitmask positions lengths ->
  detect_basic_blocks (orig ++ pad) (blen orig) positions lengths
  = detect_basic_blocks orig (blen orig) positions lengths.
Proof.
  intros [_ Hi _]. unfold detect_basic_blocks. apply detect_loop_ext.
  intros [pc i] Hin%elem_of_map_to_list. cbn. apply code_at_padded. by apply (Hi pc i).
Qed.

Lemma elem_of_sorted s x : x ∈ sorted s <-> x ∈ s.
Proof. unfold sorted. rewrite merge_sort_Permutation. apply elem_of_elements. Qed.

(** What [reset] builds: rejected code gets no blocks; accepted code satisfies
    the invariant the interpreter runs under. *)
Lemma build_code_spec p :
  program_ok p ->
  exists c, build_code p = Ret c /\ (code_valid c = true -> code_ok c) /\
    code c = pg_code p ++ replicate 25 0 /\
    code_valid c = snd (decode_instructions (pg_code p) (pg_opcode_bitmask p)) /\
    code_length c = blen (pg_code p) /\
    (code_valid c = false -> basic_block_starts_set c = ∅).
Proof.
  intros [Hb Hsz _ _]. unfold build_code.
  replace (take (Z.to_nat (blen (pg_code p))) (pg_code p ++ replicate 25 0)) with (pg_code p)
    by (unfold blen; rewrite Nat2Z.id, take_app_length; done).
  destruct (decode_instructions (pg_code p) (pg_opcode_bitmask p)) as [[positions lengths] valid] eqn:Hdec.
  destruct valid.
  - pose proof (decode_valid_instructions _ _ _ _ Hdec) as Hvt.
    destruct (detect_spec _ _ _ _ Hdec) as (starts & Hst & H0 & Hspec).
    rewrite (detect_padded _ _ _ _ _ Hvt), Hst. cbn [mbind outcome_bind].
    assert (forall s, s ∈ starts -> is_Some (positions !! s)) as Hpos.
    { intros s [->|(pc & l & Hl & [i Hpc] & Ht & -> & Hlt)]%Hspec; [apply Hvt|].
      rewrite Hpc in Hl. cbn in Hl. destruct (vt_inst _ _ _ _ Hvt pc i Hpc) as (_ & _ & l' & Hl' & _ & _ & _ & Hn & _).
      assert (l' = l) as -> by congruence. by apply Hn. }
    destruct (block_gas_loop_total
      (mkGasModel (pg_code p ++ replicate 25 0) positions lengths) (sorted starts) ∅) as (gas & -> & Hg & _).
    { intros s Hs%elem_of_sorted. destruct (Hpos s Hs) as [i Hi].
      destruct (calculate_block_gas_total (pg_code p ++ replicate 25 0) positions lengths s false)
        as (g & Hg & Hr); [by eapply valid_tables_sim|by eexists|by apply (vt_inst _ _ _ _ Hvt s i)|].
      exists g. split; [exact Hg|lia]. }
    eexists. split; [done|]. cbn. split; [intros _|done]. split; cbn.
    + by exists (pg_code p).
    + apply Forall_app. split; [done|]. by apply (Forall_replicate is_byte 25 0).
    + rewrite u64_mod, Z.mod_small; [done|]. unfold blen in *. lia.
    + done.
    + done.
    + done.
    + done.
    + intros s Hs. apply Hg. by apply elem_of_sorted.
  - cbn. eexists. split; [done|]. cbn. done.
Qed.

Lemma load_registers_spec values : forall pre rest,
  length values = length rest ->
  load_registers (Z.of_nat (length pre)) values (pre ++ rest) = Ret (pre ++ map u64 values).
Proof.
  induction values as [|v values IH]; intros pre [|r rest] Hl; try done; cbn [load_registers map].
  rewrite (py_set_nonneg (pre ++ r :: rest)) by (rewrite length_app; cbn; lia).
  rewrite Nat2Z.id, insert_app_r_alt, Nat.sub_diag by lia. cbn [insert list_insert].
  specialize (IH (pre ++ [u64 v]) rest ltac:(cbn in Hl; lia)).
  rewrite length_app, Nat2Z.inj_add, <-!app_assoc in IH. cbn in IH.
  exact IH.
Qed.

(** A machine between invocations. *)
Record ready (vm : VM) : Prop := {
  rd_code : code_valid (vm_code vm) = true -> code_ok (vm_code vm);
  rd_regs : regs_ok vm;
  rd_mem : mem_wf (mem vm)
}.

Lemma new_interpreter_spec p :
  program_ok p ->
  exists vm, new_interpreter p = Ret vm /\ ready vm /\
    reg vm = map u64 (pg_registers p) /\ mem vm = pg_memory p /\
    code (vm_code vm) = pg_code p ++ replicate 25 0 /\
    code_valid (vm_code vm) = snd (decode_instructions (pg_code p) (pg_opcode_bitmask p)) /\
    code_length (vm_code vm) = blen (pg_code p).
Proof.
  intros Hp. pose proof Hp as [_ _ Hlen Hm]. unfold new_interpreter.
  pose proof (load_registers_spec (pg_registers p) [] (replicate 13 0) Hlen) as Hr.
  change (Z.of_nat (length [])) with 0 in Hr. cbn [app] in Hr. rewrite Hr. cbn [mbind outcome_bind].
  destruct (build_code_spec p Hp) as (c & Hc & Hok & Hcode & Hv & Hlc & _). rewrite Hc. cbn.
  eexists. split; [done|]. cbn. split; [|done]. split; cbn; [done| |done].
  split; cbn; [by rewrite length_map|]. apply List.Forall_map, List.Forall_forall. intros. apply u64_is_u64.
Qed.

(** ** One turn of the loop *)

Section turns.
Context (vm0 : VM) (gas0 : Z).
Let c := vm_code vm0.
Context (Hcode : code_ok c).

(** The machine and the locals between two turns, and when the loop is left. *)
Record turn_inv (s : Locals) : Prop := {
  ti_code : vm_code (l_vm s) = c;
  ti_regs : regs_ok (l_vm s);
  ti_mem : mem_wf (mem (l_vm s));
  ti_readable : pages_r (mem (l_vm s)) = pages_r (mem vm0);
  ti_writable : pages_w (mem (l_vm s)) = pages_w (mem vm0);
  ti_bounds : bounds (mem (l_vm s)) = bounds (mem vm0);
  ti_pc : is_Some (inst_pos c !! pc_local s);
  ti_gas : 0 <= gas_local s <= gas0
}.

(** What each status promises to the caller of [invoke]. *)
Definition stopped (s : Locals) : Prop :=
  match l_status s with
  | ExitReason.resume => False
  | ExitReason.halt | ExitReason.panic => True
  | ExitReason.host_halt =>
      (exists v, exit_value (l_vm s) = Some v /\ is_u64 v) /\ is_Some (l_block s) /\
      code_at (code c) (pc_local s) = Opcode.value Opcode.ecalli /\
      0 < l_skip_len s /\ is_Some (inst_pos c !! (pc_local s + l_skip_len s))
  | ExitReason.page_fault =>
      exists pg, exit_value (l_vm s) = Some (pg * 4096) /\ 16 <= pg <= 1048575 /\
        pg ∉ pages_w (mem vm0)
  | ExitReason.out_of_gas =>
      l_block s = None /\
      exists cost, basic_block_gas c !! get_block_start (basic_block_starts_sorted c) (pc_local s)
                   = Some cost /\ gas_local s < cost
  end.

(** Between two turns: [resume], or a status a handler sets. *)
Definition handled (s : Locals) : Prop :=
  match l_status s with
  | ExitReason.resume | ExitReason.halt => True
  | ExitReason.host_halt => stopped s
  | _ => False
  end.

(** The turns the gas pays for: every block entered costs at least one unit, and
    the counter advances inside a block. *)
Definition potential (gas : Z) (block : option Z) (pc : Z) : Z :=
  gas * (code_length c + 1) + match block with Some _ => code_length c - pc | None => 0 end.

Definition turns_left (s : Locals) : Z :=
  match l_status s with
  | ExitReason.resume => potential (gas_local s) (l_block s) (pc_local s) + 1
  | _ => 0
  end.

Lemma starts_sorted_cons : exists b bs, basic_block_starts_sorted c = b :: bs.
Proof using Hcode.
  rewrite (ck_sorted _ Hcode). destruct (sorted (basic_block_starts_set c)) as [|b bs] eqn:Hs.
  - pose proof (ck_zero _ Hcode) as H0. apply elem_of_sorted in H0. rewrite Hs in H0.
    by apply not_elem_of_nil in H0.
  - by exists b, bs.
Qed.

Lemma block_start_in p :
  is_Some (inst_pos c !! p) ->
  get_block_start (basic_block_starts_sorted c) p ∈ basic_block_starts_set c.
Proof using Hcode.
  intros Hp. rewrite (ck_sorted _ Hcode). apply get_block_start_spec; [apply Hcode| |].
  - by apply (decoded_inst c p Hcode Hp).
  - intros s Hs. by apply (decoded_inst c s Hcode (ck_starts _ Hcode s Hs)).
Qed.

(** Entering a block costs its gas; inside a block nothing is charged. *)
Lemma charge_spec s :
  turn_inv s ->
  exists cost, basic_block_gas c !! get_block_start (basic_block_starts_sorted c) (pc_local s)
               = Some cost /\ 1 <= cost /\
  charge (l_vm s) s = Ret
    (match l_block s with
     | Some _ => Some (gas_local s, Some (get_block_start (basic_block_starts_sorted c) (pc_local s)))
     | None => if gas_local s <? cost then None
               else Some (gas_local s - cost,
                          Some (get_block_start (basic_block_starts_sorted c) (pc_local s)))
     end).
Proof using Hcode.
  intros [Hc _ _ _ _ _ Hp _]. unfold charge. rewrite Hc.
  destruct (ck_gas _ Hcode _ (block_start_in _ Hp)) as (cost & Hcost & Hpos).
  exists cost. split; [done|]. split; [done|].
  destruct starts_sorted_cons as (b & bs & Hbs). rewrite Hbs in *.
  destruct (l_block s); [done|]. rewrite Hcost. by destruct (gas_local s <? cost).
Qed.

(** The machine an instruction starts from, and what the turn makes of its
    outcome. *)
Definition inst_machine (s : Locals) (o : Opcode.t) (l gas_left : Z) : VM :=
  sync_to_vm (l_vm s) (Opcode.value o) (l + 1) (pc_local s) (l_inst_nr s + 1) gas_left
    (l_status s).

Definition after_handler (o : Opcode.t) (block : option Z) (res : outcome exn unit * VM)
  : Locals + outcome exn unit * Locals :=
  match res with
  | (Raise e, vm') =>
      let '(st, value) := on_exception e vm' in
      inr (Ret tt, mkLocals (set_exit_value value vm') (pc vm') (gas vm') st
                     (skip_len vm') (inst_nr vm') block)
  | (Ret _, vm') =>
      match status vm' with
      | ExitReason.resume =>
          inl (mkLocals vm' (u32 (pc vm' + skip_len vm')) (gas vm') (status vm')
                 (skip_len vm') (inst_nr vm')
                 (if is_termination (Opcode.value o) then None else block))
      | _ => inl (mkLocals vm' (pc vm') (gas vm') (status vm') (skip_len vm') (inst_nr vm') block)
      end
  end.

Lemma invoke_body_inst s gas_left block :
  turn_inv s -> l_status s = ExitReason.resume ->
  charge (l_vm s) s = Ret (Some (gas_left, block)) ->
  exists o l, code_at (code c) (pc_local s) = Opcode.value o /\ 0 <= l <= 24 /\
    (is_termination (Opcode.value o) = false -> is_Some (inst_pos c !! (pc_local s + l + 1))) /\
    invoke_body s = after_handler o block (handler o (inst_machine s o l gas_left)).
Proof using Hcode.
  intros [Hc _ _ _ _ _ Hp _] Hs Hch.
  destruct (decoded_inst c _ Hcode Hp) as (Hr & Hlen & Hv & i & l & Hi & Hl & H24 & Hn).
  unfold is_valid_opcode in Hv. destruct (Opcode.of_Z (code_at (code c) (pc_local s))) as [o|] eqn:Ho; [|done].
  pose proof (opcode_value_of_Z _ _ Ho) as Hval. exists o, l.
  split; [done|]. split; [done|]. split; [by rewrite Hval|].
  unfold invoke_body. rewrite Hs, Hc, (ck_size _ Hcode), Hi, Hch.
  destruct (Z.leb_spec (code_length c) (pc_local s)); [lia|].
  destruct (py_index_Some (code c) (pc_local s)) as [b Hb]; [unfold blen in Hlen; lia|].
  unfold mem_index. rewrite Hb. unfold code_at in Ho, Hval. rewrite Hb in Ho, Hval. cbn in Ho, Hval.
  unfold arg_len_at. rewrite Hl. cbv zeta.
  unfold _opcode_lut. rewrite Ho. subst b. unfold inst_machine. rewrite Hs. unfold after_handler.
  by destruct (handler o _) as [[u|e] vm'].
Qed.

Lemma inst_machine_ready s o l gas_left :
  turn_inv s -> at_inst (inst_machine s o l gas_left).
Proof using Hcode.
  intros [Hc Hr Hm _ _ _ Hp _]. split; unfold inst_machine; cbn; [by rewrite Hc|by rewrite Hc|done|done].
Qed.

(** The turn after the handler. *)
Lemma after_handler_spec s o l gas_left b :
  turn_inv s -> l_status s = ExitReason.resume -> 0 <= gas_left <= gas0 ->
  code_at (code c) (pc_local s) = Opcode.value o -> 0 <= l <= 24 ->
  (is_termination (Opcode.value o) = false -> is_Some (inst_pos c !! (pc_local s + l + 1))) ->
  match after_handler o (Some b) (handler o (inst_machine s o l gas_left)) with
  | inl s' => turn_inv s' /\ handled s' /\ gas_local s' = gas_left /\
      match l_status s' with
      | ExitReason.resume =>
          if is_termination (Opcode.value o) then l_block s' = None
          else l_block s' = Some b /\ pc_local s < pc_local s'
      | _ => l_block s' = Some b /\ pc_local s' = pc_local s
      end
  | inr (r, s') => r = Ret tt /\ turn_inv s' /\ stopped s' /\ gas_local s' = gas_left /\
      l_block s' = Some b /\ pc_local s' = pc_local s
  end.
Proof using Hcode.
  intros Hs Hst Hg Ho Hl Hn. set (vm := inst_machine s o l gas_left).
  pose proof (handler_safe o vm (inst_machine_ready s o l gas_left Hs) Hst) as (Hf & Hr & Hm & Hres).
  pose proof Hs as [Hc _ _ HR HW HB Hp _].
  destruct (handler o vm) as [[u|e] vm']; cbn [fst snd] in *; destruct Hf as [Hc' Hpc _ Hgas _ _ HR' HW' HB'];
    unfold vm, inst_machine, sync_to_vm in Hc', Hpc, Hgas, HR', HW', HB', Hres; cbn in Hc', Hpc, Hgas, HR', HW', HB', Hres;
    unfold after_handler.
  - assert (forall p' st' sk nr bl, is_Some (inst_pos c !! p') ->
      turn_inv (mkLocals vm' p' (gas vm') st' sk nr bl)) as Hinv.
    { intros. split; cbn; try congruence; done. }
    assert (forall q, is_Some (inst_pos c !! q) -> u32 q = q) as Hu32.
    { intros q Hq. destruct (decoded_inst c q Hcode Hq) as [Hq' _].
      pose proof (ck_length _ Hcode). rewrite u32_mod, Z.mod_small; lia. }
    destruct (status vm') eqn:Hst'; try done.
    + destruct (is_termination (Opcode.value o)) eqn:Ht.
      * rewrite Hc', Hc in Hres. pose proof (ck_starts _ Hcode _ Hres) as Hd. rewrite (Hu32 _ Hd).
        split; [by apply Hinv|]. split; [done|]. split; [done|]. done.
      * rewrite Hres, Hpc, Z.add_assoc. pose proof (Hn eq_refl) as Hd. rewrite (Hu32 _ Hd).
        split; [by apply Hinv|]. split; [done|]. split; [done|]. split; [done|]. cbn. lia.
    + split; [apply Hinv; by rewrite Hpc|]. done.
    + split; [apply Hinv; by rewrite Hpc|]. destruct Hres as (-> & Hv & Hk).
      split; [|done]. unfold handled, stopped. cbn. rewrite Hpc, Ho, Hk, Z.add_assoc.
      split_and!; try done; [lia|by apply Hn].
  - destruct Hres as [_ Hres].
    assert (forall v st', turn_inv (mkLocals (set_exit_value v vm') (pc vm') (gas vm') st'
              (skip_len vm') (inst_nr vm') (Some b))) as Hinv.
    { intros. split; cbn; try congruence; done. }
    destruct (on_exception e vm') as [st' value] eqn:He. split; [done|]. split; [apply Hinv|].
    split; [|done]. unfold stopped. cbn [l_status l_vm]. unfold on_exception in He.
    destruct Hres as [->|[[-> (pg & Ha & Hpg & Hw)]|[-> _]]]; [by injection He as <- <-| |by injection He as <- <-].
    rewrite Ha in He. destruct (Z.leb_spec 0 (pg * 4096)); [|lia].
    destruct (Z.ltb_spec (pg * 4096) (2 ^ 16)); [lia|]. cbn [andb] in He.
    injection He as <- <-. unfold PVM_PAGE_SIZE. rewrite Z.mod_mul, Z.sub_0_r by lia. cbn.
    exists pg. split; [done|]. split; [done|]. by rewrite <-HW, <-HW'.
Qed.

Definition spent (s s' : Locals) : Prop :=
  potential (gas_local s') (l_block s') (pc_local s') <= potential (gas_local s) (l_block s) (pc_local s).

(** A turn keeps the invariant and gets closer to the end, or leaves the loop
    without an exception and with a status the caller understands. *)
Lemma turn_spec s :
  turn_inv s -> handled s ->
  match invoke_body s with
  | inl s' => (turn_inv s' /\ handled s') /\ turns_left s' < turns_left s /\ spent s s'
  | inr (r, s') => r = Ret tt /\ turn_inv s' /\ stopped s' /\ spent s s'
  end.
Proof using Hcode.
  intros Hs Hh. pose proof Hs as [Hc _ _ _ _ _ Hp Hg].
  pose proof (decoded_inst c _ Hcode Hp) as [Hr _].
  destruct (l_status s) eqn:Hst;
    try (unfold invoke_body; rewrite Hst; split; [done|]; split; [done|]; split; [|unfold spent; lia];
         unfold handled, stopped in *; rewrite Hst in *; done).
  destruct (charge_spec s Hs) as (cost & Hcost & Hpos & Hch).
  assert (forall gas_left b, charge (l_vm s) s = Ret (Some (gas_left, Some b)) ->
    0 <= gas_left <= gas_local s -> (gas_left < gas_local s \/ l_block s <> None) ->
    match invoke_body s with
    | inl s' => (turn_inv s' /\ handled s') /\ turns_left s' < turns_left s /\ spent s s'
    | inr (r, s') => r = Ret tt /\ turn_inv s' /\ stopped s' /\ spent s s'
    end) as Hgo.
  { intros gas_left b Hch' Hgl Hless.
    destruct (invoke_body_inst s gas_left (Some b) Hs Hst Hch') as (o & l & Ho & Hl & Hn & ->).
    pose proof (after_handler_spec s o l gas_left b Hs Hst ltac:(lia) Ho Hl Hn) as Ha.
    unfold spent, turns_left. rewrite Hst.
    destruct (after_handler _ _ _) as [s'|[r s']].
    - destruct Ha as (Hi & Hh' & Hg' & Hblk). split; [done|].
      pose proof Hi as [_ _ _ _ _ _ Hp' _]. pose proof (decoded_inst c _ Hcode Hp') as [Hr' _].
      rewrite Hg'. unfold potential. destruct (l_status s') eqn:Hst'.
      { destruct (is_termination _); [rewrite Hblk|destruct Hblk as [-> Hadv]];
          destruct (l_block s); destruct Hless; try done; nia. }
      all: destruct Hblk as [-> ->]; destruct (l_block s); destruct Hless; try done; nia.
    - destruct Ha as (-> & Hi & Hst' & Hg' & Hbl & Hpc). do 3 (split; [done|]).
      rewrite Hg', Hbl, Hpc. unfold potential. destruct (l_block s); destruct Hless; try done; nia. }
  destruct (l_block s) eqn:Hb.
  - apply (Hgo _ _ Hch); [lia|by right].
  - destruct (Z.ltb_spec (gas_local s) cost); [|apply (Hgo _ _ Hch); [lia|left; lia]].
    unfold invoke_body. rewrite Hst. destruct Hp as [i Hi]. rewrite Hc, (ck_size _ Hcode), Hi, Hch.
    destruct (Z.leb_spec (code_length c) (pc_local s)); [lia|].
    split; [done|]. split; [by destruct Hs; split|]. split; [unfold stopped, stop; cbn; by eauto|].
    unfold spent, stop. cbn. rewrite Hb. lia.
Qed.
End turns.

(** ** Gas accounting

    The specification follows the control flow: a block is entered at the first
    turn, unless it is already paid for, and at the turn after a terminator.  It
    does not look at the block the loop remembers. *)

Definition block_cost (c : Code) (b : Z) : Z := default 0 (basic_block_gas c !! b).
Definition total_cost (c : Code) (bs : list Z) : Z := foldr (fun b acc => block_cost c b + acc) 0 bs.

(** The block a turn enters, if the gas covers it. *)
Definition entered (c : Code) (fresh : bool) (s : Locals) : list Z :=
  match l_status s with
  | ExitReason.resume =>
      if fresh then
        let b := get_block_start (basic_block_starts_sorted c) (pc_local s) in
        if gas_local s <? block_cost c b then [] else [b]
      else []
  | _ => []
  end.

(** The blocks entered by the first [n] turns. *)
Fixpoint blocks_entered (c : Code) (n : nat) (fresh : bool) (s : Locals) : list Z :=
  match n with
  | O => []
  | S n =>
      entered c fresh s ++
      match invoke_body s with
      | inl s' => blocks_entered c n (is_termination (code_at (code c) (pc_local s))) s'
      | inr _ => []
      end
  end.

Lemma total_cost_app c bs bs' : total_cost c (bs ++ bs') = total_cost c bs + total_cost c bs'.
Proof. unfold total_cost. induction bs as [|b bs IH]; cbn [foldr app]; [lia|]. rewrite IH. lia. Qed.

Section accounting.
Context (vm0 : VM) (gas0 : Z).
Let c := vm_code vm0.
Context (Hcode : code_ok c).

(** The loop remembers a block exactly when the next turn does not enter one. *)
Definition unpaid (s : Locals) : bool := match l_block s with None => true | Some _ => false end.

(** A turn spends exactly the cost of the block it enters, and forgets the block
    exactly after a terminator. *)
Lemma turn_gas s :
  turn_inv vm0 gas0 s -> handled vm0 s ->
  match invoke_body s with
  | inl s' =>
      gas_local s = total_cost c (entered c (unpaid s) s) + gas_local s' /\
      (l_status s' = ExitReason.resume ->
       unpaid s' = is_termination (code_at (code c) (pc_local s)))
  | inr (_, s') => gas_local s = total_cost c (entered c (unpaid s) s) + gas_local s'
  end.
Proof using Hcode.
  intros Hs Hh. pose proof Hs as [Hc _ _ _ _ _ Hp Hg].
  unfold entered. destruct (l_status s) eqn:Hst;
    try (unfold invoke_body; rewrite Hst; cbn; lia).
  destruct (charge_spec vm0 gas0 Hcode s Hs) as (cost & Hcost & Hpos & Hch).
  assert (block_cost c (get_block_start (basic_block_starts_sorted c) (pc_local s)) = cost) as Hbc.
  { unfold block_cost, c. by rewrite Hcost. }
  assert (forall gas_left b, charge (l_vm s) s = Ret (Some (gas_left, Some b)) -> 0 <= gas_left <= gas0 ->
    match invoke_body s with
    | inl s' => gas_local s' = gas_left /\
        (l_status s' = ExitReason.resume -> unpaid s' = is_termination (code_at (code c) (pc_local s)))
    | inr (_, s') => gas_local s' = gas_left
    end) as Hgo.
  { intros gas_left b Hch' Hgl.
    destruct (invoke_body_inst vm0 gas0 Hcode s gas_left (Some b) Hs Hst Hch') as (o & l & Ho & Hl & Hn & ->).
    pose proof (after_handler_spec vm0 gas0 Hcode s o l gas_left b Hs Hst Hgl Ho Hl Hn) as Ha.
    destruct (after_handler _ _ _) as [s'|[r s']]; [|by destruct Ha as (_ & _ & _ & ? & _)].
    destruct Ha as (_ & _ & ? & Hblk). split; [done|]. intros Hr. rewrite Hr in Hblk.
    unfold c. rewrite Ho. unfold unpaid. destruct (is_termination _); [by rewrite Hblk|].
    by destruct Hblk as [-> _]. }
  unfold unpaid at 1 3. destruct (l_block s) eqn:Hb.
  - pose proof (Hgo _ _ Hch Hg) as Hr.
    destruct (invoke_body s) as [s'|[r s']]; [destruct Hr; split; [cbn; lia|done]|cbn; lia].
  - rewrite Hbc. destruct (Z.ltb_spec (gas_local s) cost).
    + unfold invoke_body. fold c in Hc, Hp. rewrite Hst. destruct Hp as [i Hi].
      rewrite Hc, (ck_size _ Hcode), Hi, Hch. destruct (_ <=? _); unfold stop; cbn; lia.
    + pose proof (Hgo _ _ Hch ltac:(lia)) as Hr. unfold total_cost, foldr. rewrite Hbc.
      destruct (invoke_body s) as [s'|[r s']]; [destruct Hr; split; [lia|done]|lia].
Qed.

Lemma entered_start s b fresh :
  turn_inv vm0 gas0 s -> b ∈ entered c fresh s -> b ∈ basic_block_starts_set c.
Proof using Hcode.
  intros Hs. unfold entered. destruct (l_status s); try by intros ?%not_elem_of_nil.
  destruct fresh; [|by intros ?%not_elem_of_nil].
  destruct (_ <? _); [by intros ?%not_elem_of_nil|]. intros ->%list_elem_of_singleton.
  apply block_start_in; [done|apply Hs].
Qed.

(** A run that is over enters nothing more. *)
Lemma blocks_entered_over n s fresh :
  l_status s <> ExitReason.resume -> blocks_entered c n fresh s = [].
Proof using.
  intros Hs. destruct n as [|n]; [done|]. cbn [blocks_entered]. unfold entered, invoke_body.
  by destruct (l_status s).
Qed.

Lemma run_gas n : forall s r s',
  turn_inv vm0 gas0 s -> handled vm0 s -> nloop n invoke_body s = inr (r, s') ->
  gas_local s = total_cost c (blocks_entered c n (unpaid s) s) + gas_local s' /\
  forall b, b ∈ blocks_entered c n (unpaid s) s -> b ∈ basic_block_starts_set c.
Proof using Hcode.
  induction n as [|n IH]; intros s r s' Hs Hh Hrun; [done|].
  cbn [nloop blocks_entered] in *. pose proof (turn_gas s Hs Hh) as Hg.
  pose proof (turn_spec vm0 gas0 Hcode s Hs Hh) as Ht.
  rewrite total_cost_app.
  destruct (invoke_body s) as [s1|[r1 s1]].
  - destruct Ht as [[Hs1 Hh1] _]. destruct Hg as [Hg Hf].
    destruct (IH s1 r s' Hs1 Hh1 Hrun) as [Hg1 Hb1].
    assert (blocks_entered c n (is_termination (code_at (code c) (pc_local s))) s1
            = blocks_entered c n (unpaid s1) s1) as ->.
    { destruct (ExitReason.eq_dec (l_status s1) ExitReason.resume) as [Hr|Hr]; [by rewrite Hf|].
      by rewrite !blocks_entered_over. }
    split; [lia|]. intros b [Hb|Hb]%elem_of_app; [by eapply (entered_start s)|by apply Hb1].
  - injection Hrun as -> ->. cbn [total_cost foldr]. split; [lia|].
    intros b Hb. rewrite app_nil_r in Hb. by eapply (entered_start s).
Qed.
End accounting.

(** ** The whole invocation *)

(** What the status left by [invoke] tells its caller. *)
Definition exit_ok (vm : VM) : Prop :=
  match status vm with
  | ExitReason.resume => False
  | ExitReason.halt | ExitReason.panic => True
  | ExitReason.host_halt =>
      (exists v, exit_value vm = Some v /\ is_u64 v) /\ gas_paid vm = true /\
      code_at (code (vm_code vm)) (pc vm) = Opcode.value Opcode.ecalli /\
      0 < skip_len vm /\ is_Some (inst_pos (vm_code vm) !! (pc vm + skip_len vm))
  | ExitReason.page_fault =>
      exists pg, exit_value vm = Some (pg * 4096) /\ 16 <= pg <= 1048575 /\ pg ∉ pages_w (mem vm)
  | ExitReason.out_of_gas =>
      current_block_start vm = None /\
      exists cost, basic_block_gas (vm_code vm)
                     !! get_block_start (basic_block_starts_sorted (vm_code vm)) (pc vm) = Some cost /\
        gas vm < cost
  end.

Section invocation.
Context (vm : VM) (pc0 gas0 : Z).
Context (Hvm : ready vm) (Hvalid : code_valid (vm_code vm) = true).
Context (Hpc : is_Some (inst_pos (vm_code vm) !! pc0)) (Hgas : 0 <= gas0 < 2 ^ 64).

Definition started : VM := set_status ExitReason.resume (set_gas gas0 (set_pc (u32 pc0) vm)).
Definition entry : Locals :=
  mkLocals started (pc started) (Machine.gas started) (status started) (skip_len started)
    (inst_nr started) (current_block_start started).

Lemma entry_inv : turn_inv vm gas0 entry /\ handled vm entry.
Proof using Hvm Hvalid Hpc Hgas.
  pose proof Hvm as [Hc Hr Hm]. pose proof (Hc Hvalid) as Hcode.
  destruct (decoded_inst _ _ Hcode Hpc) as [Hp _]. pose proof (ck_length _ Hcode).
  split; [|done]. split; cbn; try done; [|lia]. rewrite u32_mod, Z.mod_small by lia. done.
Qed.

Lemma invoke_run :
  exists s, ploop (invoke_fuel (vm_code vm) gas0) invoke_body entry = inr (Ret tt, s) /\
    turn_inv vm gas0 s /\ stopped vm s /\
    potential vm (gas_local s) (l_block s) (pc_local s) <= potential vm gas0 (current_block_start vm) pc0 /\
    invoke pc0 gas0 vm = Some (Ret tt, sync_from_locals s).
Proof using Hvm Hvalid Hpc Hgas.
  pose proof Hvm as [Hc Hr Hm]. pose proof (Hc Hvalid) as Hcode.
  destruct entry_inv as [Hinv Hh].
  destruct (ploop_total (fun s => (turn_inv vm gas0 s /\ handled vm s) /\ spent vm entry s)
    (fun r => r.1 = Ret tt /\ turn_inv vm gas0 r.2 /\ stopped vm r.2 /\ spent vm entry r.2)
    (turns_left vm) invoke_body) with (p := invoke_fuel (vm_code vm) gas0) (s := entry)
    as ([r s] & Hrun & Hr1 & Hi & Hst & Hspent).
  - intros s [[[_ _ _ _ _ _ Hp Hg] _] _]. destruct (decoded_inst _ _ Hcode Hp) as [Hp' _].
    unfold turns_left, potential. destruct (l_status s); try lia. destruct (l_block s); nia.
  - intros s [[Hs Hs'] Hsp]. pose proof (turn_spec vm gas0 Hcode s Hs Hs') as Ht.
    unfold spent in *. destruct (invoke_body s) as [s'|[r s']].
    + destruct Ht as ([? ?] & ? & ?). split; [|done]. split; [done|lia].
    + destruct Ht as (? & ? & ? & ?). do 3 (split; [done|]). cbn [fst snd]. lia.
  - split; [done|]. unfold spent. lia.
  - pose proof Hinv as [_ _ _ _ _ _ Hp Hg]. destruct (decoded_inst _ _ Hcode Hp) as [Hp' _].
    unfold turns_left, potential, invoke_fuel. cbn [l_status entry status started set_status].
    cbn [gas_local l_block entry] in *.
    rewrite Z2Pos.id by nia. destruct (current_block_start _); cbn in *; nia.
  - cbn [fst snd] in Hr1, Hi, Hst, Hspent. subst r. exists s. do 3 (split; [done|]). split.
    { unfold spent in Hspent. replace pc0 with (pc_local entry); [exact Hspent|].
      destruct (decoded_inst _ _ Hcode Hpc) as [Hp _]. pose proof (ck_length _ Hcode).
      cbn. rewrite u32_mod, Z.mod_small by lia. done. }
    unfold invoke, validate_pvm_gas. change (1 ≪ 64) with (2 ^ 64).
    destruct (Z.leb_spec 0 gas0), (Z.ltb_spec gas0 (2 ^ 64)); try lia. cbn [andb negb].
    cbn [vm_code set_status set_gas set_pc]. rewrite Hvalid, bool_decide_eq_true_2 by done. cbn [negb orb].
    unfold entry, started in Hrun. cbn in Hrun |- *. by rewrite Hrun.
Qed.
End invocation.

(** What the callers of [invoke] rely on. *)
Lemma invoke_spec vm pc0 gas0 :
  ready vm -> code_valid (vm_code vm) = true -> is_Some (inst_pos (vm_code vm) !! pc0) ->
  0 <= gas0 < 2 ^ 64 ->
  exists vm', invoke pc0 gas0 vm = Some (Ret tt, vm') /\ ready vm' /\ exit_ok vm' /\
    vm_code vm' = vm_code vm /\ is_Some (inst_pos (vm_code vm) !! pc vm') /\
    0 <= gas vm' <= gas0 /\
    pages_r (mem vm') = pages_r (mem vm) /\ pages_w (mem vm') = pages_w (mem vm) /\
    bounds (mem vm') = bounds (mem vm) /\
    potential vm (gas vm') (current_block_start vm') (pc vm')
      <= potential vm gas0 (current_block_start vm) pc0.
Proof.
  intros Hvm Hv Hpc Hgas. destruct (invoke_run vm pc0 gas0 Hvm Hv Hpc Hgas) as (s & _ & Hi & Hs & Hpot & ->).
  destruct Hi as [Hc Hr Hm HR HW HB Hp Hg]. eexists. split; [done|].
  split. { split; cbn; [by rewrite Hc; apply Hvm|done|done]. }
  split; [|by cbn; rewrite Hc].
  unfold stopped in Hs. unfold exit_ok, gas_paid. cbn. rewrite ?Hc. destruct (l_status s); try done.
  - destruct Hs as (pg & ? & ? & ?). exists pg. by rewrite HW.
  - destruct Hs as (? & [b ->] & ?). done.
Qed.

(** C1: [invoke] ends, raises nothing, and leaves the machine ready with an exit
    status its caller can act on. *)
Theorem invoke_total vm pc0 gas0 :
  ready vm -> code_valid (vm_code vm) = true -> is_Some (inst_pos (vm_code vm) !! pc0) ->
  0 <= gas0 < 2 ^ 64 ->
  exists vm', invoke pc0 gas0 vm = Some (Ret tt, vm') /\ ready vm' /\ exit_ok vm' /\
    vm_code vm' = vm_code vm /\ is_Some (inst_pos (vm_code vm) !! pc vm') /\
    0 <= gas vm' <= gas0 /\
    pages_r (mem vm') = pages_r (mem vm) /\ pages_w (mem vm') = pages_w (mem vm).
Proof.
  intros Hvm Hv Hpc Hgas. destruct (invoke_spec vm pc0 gas0 Hvm Hv Hpc Hgas) 
    as (vm' & ? & ? & ? & ? & ? & ? & ? & ? & _ & _).
  exists vm'. by repeat (split; [done|]).
Qed.

(** C2: Gas: the gas spent is the total cost of the blocks the run entered. *)
Theorem invoke_gas_accounting vm pc0 gas0 :
  ready vm -> code_valid (vm_code vm) = true -> is_Some (inst_pos (vm_code vm) !! pc0) ->
  0 <= gas0 < 2 ^ 64 ->
  let trace := blocks_entered (vm_code vm) (Pos.to_nat (invoke_fuel (vm_code vm) gas0))
                 (negb (gas_paid vm)) (entry vm pc0 gas0) in
  exists vm', invoke pc0 gas0 vm = Some (Ret tt, vm') /\
    gas0 = gas vm' + total_cost (vm_code vm) trace /\
    forall b, b ∈ trace -> b ∈ basic_block_starts_set (vm_code vm) /\ 1 <= block_cost (vm_code vm) b.
Proof.
  intros Hvm Hv Hpc Hgas trace. destruct (invoke_run vm pc0 gas0 Hvm Hv Hpc Hgas) as (s & Hrun & _ & _ & _ & ->).
  pose proof (rd_code _ Hvm Hv) as Hcode. destruct (entry_inv vm pc0 gas0 Hvm Hv Hpc Hgas) as [Hinv Hh].
  rewrite ploop_nloop in Hrun.
  destruct (run_gas vm gas0 Hcode _ _ _ _ Hinv Hh Hrun) as [Hg Hb].
  change (gas_local (entry vm pc0 gas0)) with gas0 in Hg.
  assert (unpaid (entry vm pc0 gas0) = negb (gas_paid vm)) as Hu.
  { unfold unpaid, gas_paid. cbn. by destruct (current_block_start vm). }
  rewrite Hu in Hg, Hb.
  eexists. split; [done|]. change (gas (sync_from_locals s)) with (gas_local s).
  split; [subst trace; lia|].
  intros b Hin. split; [by apply Hb|]. unfold block_cost.
  destruct (ck_gas _ Hcode b (Hb b Hin)) as (g & -> & Hpos). done.
Qed.

Lemma invoke_refused_run vm pc0 gas0 :
  0 <= gas0 < 2 ^ 64 -> code_valid (vm_code vm) = false \/ inst_pos (vm_code vm) !! pc0 = None ->
  exists vm', invoke pc0 gas0 vm = Some (Ret tt, vm') /\ status vm' = ExitReason.panic /\
    exit_value vm' = None /\ gas vm' = gas0 /\ reg vm' = reg vm /\ mem vm' = mem vm.
Proof.
  unfold invoke, validate_pvm_gas. change (1 ≪ 64) with (2 ^ 64).
  intros Hg Hbad. destruct (Z.leb_spec 0 gas0), (Z.ltb_spec gas0 (2 ^ 64)); try lia.
  cbn [andb negb vm_code set_status set_gas set_pc].
  assert (negb (code_valid (vm_code vm)) || negb (bool_decide (is_Some (inst_pos (vm_code vm) !! pc0))) = true) as ->.
  { destruct Hbad as [->|Hn]; [done|]. rewrite Hn. by rewrite orb_true_r. }
  by eexists.
Qed.

(** The refusals: gas outside 64 bits raises and changes nothing; rejected code
    or a counter that is no instruction panics without spending gas. *)
Theorem invoke_refused vm pc0 gas0 :
  (~ (0 <= gas0 < 2 ^ 64) -> invoke pc0 gas0 vm = Some (Raise PVMGasError, vm)) /\
  (0 <= gas0 < 2 ^ 64 -> code_valid (vm_code vm) = false \/ inst_pos (vm_code vm) !! pc0 = None ->
   exists vm', invoke pc0 gas0 vm = Some (Ret tt, vm') /\ status vm' = ExitReason.panic /\
     exit_value vm' = None /\ gas vm' = gas0 /\ reg vm' = reg vm /\ mem vm' = mem vm).
Proof.
  split; [|by apply invoke_refused_run]. unfold invoke, validate_pvm_gas. change (1 ≪ 64) with (2 ^ 64).
  intros Hg. destruct (Z.leb_spec 0 gas0), (Z.ltb_spec gas0 (2 ^ 64)); try done. lia.
Qed.

Lemma next_instruction_spec vm :
  code_ok (vm_code vm) -> is_Some (inst_pos (vm_code vm) !! pc vm) ->
  code_at (code (vm_code vm)) (pc vm) = Opcode.value Opcode.ecalli ->
  exists vm', next_instruction vm = (Ret tt, vm') /\ pc vm < pc vm' /\
    is_Some (inst_pos (vm_code vm) !! pc vm') /\
    (vm_code vm' = vm_code vm /\ reg vm' = reg vm /\ mem vm' = mem vm /\
     current_block_start vm' = current_block_start vm) /\
    (forall p, pc vm < p < pc vm' -> inst_pos (vm_code vm) !! p = None).
Proof.
  intros Hcode Hpc Hop. destruct (decoded_inst _ _ Hcode Hpc) as (Hp & _ & _ & i & l & Hi & Hl & H24 & Hn).
  rewrite Hop in Hn. specialize (Hn eq_refl). destruct (decoded_inst _ _ Hcode Hn) as [Hp' _].
  pose proof (ck_length _ Hcode).
  unfold next_instruction. rewrite eff_bind_run. unfold arg_len. rewrite Hi.
  unfold lift, arg_len_at. rewrite Hl. autorewrite with eff. eexists. split; [done|]. cbn.
  replace (pc vm + (l + 1)) with (pc vm + l + 1) by lia.
  rewrite u32_mod, Z.mod_small by lia. split; [lia|]. split; [done|]. split; [done|].
  intros p Hpp. destruct Hcode as [(orig & Hco & Hlen & [_ Hvi Hvf]) _ _ _ _ _ _ _].
  destruct (inst_pos (vm_code vm) !! p) as [j|] eqn:Hj; [|done]. exfalso.
  destruct (Hvi _ _ Hi) as (_ & _ & l' & Hl' & _ & Hskip & _).
  assert (l = skip_length orig (inst_bitmask (vm_code vm)) (pc vm)) as Hl0 by congruence.
  pose proof (skip_length_spec orig (inst_bitmask (vm_code vm)) (pc vm)) as (_ & Hf & _).
  rewrite <-Hl0 in Hf. destruct (Hf (p - pc vm - 1)) as [Hfree Hlt]; [lia|].
  replace (pc vm + (p - pc vm - 1) + 1) with p in * by lia.
  assert (bit_at (inst_bitmask (vm_code vm)) p = true) as Hb by (apply Hvf; [lia|by exists j]).
  congruence.
Qed.

(** A host call is resumed after its instruction: the counter moves on to the next
    instruction, in the same block. *)
Theorem next_instruction_after_ecalli vm :
  code_ok (vm_code vm) -> is_Some (inst_pos (vm_code vm) !! pc vm) ->
  code_at (code (vm_code vm)) (pc vm) = Opcode.value Opcode.ecalli ->
  exists vm', next_instruction vm = (Ret tt, vm') /\ pc vm < pc vm' /\
    is_Some (inst_pos (vm_code vm) !! pc vm') /\
    (vm_code vm' = vm_code vm /\ reg vm' = reg vm /\ mem vm' = mem vm /\
     current_block_start vm' = current_block_start vm) /\
    (forall p, pc vm < p < pc vm' -> inst_pos (vm_code vm) !! p = None).
Proof. apply next_instruction_spec. Qed.

(** The output of a halted program. *)
Definition halt_output (m : PVMMemory) (w7 w8 : Z) (out : bytes) : Prop :=
  (w7 < SIZE /\ 0 < w8 /\ accessible (pages_r m) w7 w8 /\
   out = map (mv_get (mv m)) (py_range w7 (w7 + w8))) \/
  (~ (w7 < SIZE /\ 0 < w8 /\ accessible (pages_r m) w7 w8) /\ out = []).

Lemma exit_condition_spec vm :
  regs_ok vm -> exit_ok vm ->
  exists value a,
    get_exit_condition vm = (Ret (mkExit (status vm) value), put_mem (set_mem_addr a (mem vm)) vm) /\
    match status vm with
    | ExitReason.host_halt | ExitReason.page_fault =>
        exists v, exit_value vm = Some v /\ value = EInt v /\ is_u64 v
    | ExitReason.halt =>
        exists w7 w8 out, reg vm !! 7%nat = Some w7 /\ reg vm !! 8%nat = Some w8 /\
          value = EBytes out /\ halt_output (mem vm) w7 w8 out
    | ExitReason.panic => value = ENone
    | _ => value = EBytes []
    end.
Proof.
  intros [Hlen Hok] Hex. unfold exit_ok in Hex. unfold get_exit_condition.
  assert (vm = put_mem (set_mem_addr (mem_addr (mem vm)) (mem vm)) vm) as Hsame.
  { destruct vm as [? ? ? ? ? ? ? m0 ? ? ? ?]. by destruct m0. }
  destruct (status vm) eqn:Hst; try done.
  - destruct (lookup_lt_is_Some_2 (reg vm) 7) as [w7 H7]; [lia|].
    destruct (lookup_lt_is_Some_2 (reg vm) 8) as [w8 H8]; [lia|].
    pose proof (Forall_lookup_1 _ _ _ _ Hok H7) as [Hw7 _].
    unfold get_reg. rewrite !py_index_nonneg by lia.
    change (Z.to_nat 7) with 7%nat. change (Z.to_nat 8) with 8%nat. rewrite H7, H8. cbn [of_option].
    unfold mret, eff_ret.
    assert (exists out a, read_bytes w7 w8 None (mem vm) = (Ret out, set_mem_addr a (mem vm)) /\
              halt_output (mem vm) w7 w8 out \/
            read_bytes w7 w8 None (mem vm) = (Raise PVMMemoryError, set_mem_addr a (mem vm)) /\
              halt_output (mem vm) w7 w8 []) as (out & a & Hrd).
    { destruct (Z_lt_le_dec w7 SIZE) as [Hs|Hs].
      - destruct (Z_lt_le_dec 0 w8) as [H0|H0].
        + destruct (read_bytes_spec w7 w8 None (mem vm) ltac:(lia) H0) as [[Ha ->]|(pg & Hpg & ->)].
          * eexists _, _. left. split; [done|]. by left.
          * eexists [], _. right. split; [done|]. right. split; [|done].
            intros (_ & _ & Ha). by apply (lowest_refused_not _ _ _ _ Hpg).
        + exists [], w7. left. split; [|right; split; [lia|done]].
          unfold read_bytes. destruct (Z.ltb_spec w7 0), (Z.leb_spec SIZE w7), (Z.leb_spec w8 0); try lia.
          reflexivity.
      - exists [], w7. right. split; [|right; split; [lia|done]].
        unfold read_bytes. destruct (Z.leb_spec SIZE w7); [|lia]. by rewrite orb_true_r. }
    destruct Hrd as [[-> Ho]|[-> Ho]]; eexists _, _; (split; [reflexivity|]); eauto 12.
  - exists ENone, (mem_addr (mem vm)). by rewrite <-Hsame.
  - exists (EBytes []), (mem_addr (mem vm)). by rewrite <-Hsame.
  - destruct Hex as (pg & Hv & Hpg & _). rewrite Hv. eexists _, (mem_addr (mem vm)). rewrite <-Hsame. split; [reflexivity|].
    eexists. split; [done|]. split; [done|]. unfold is_u64. lia.
  - destruct Hex as [(v & Hv & Hu) _]. rewrite Hv. eexists _, (mem_addr (mem vm)). rewrite <-Hsame.
    split; [reflexivity|]. by eexists.
Qed.

(** What a caller reads after an invocation: the host call number or the page of
    the fault, the output of a halted program (the bytes its registers 7 and 8
    delimit, or nothing when they are not readable), or nothing.  It never
    raises. *)
Theorem get_exit_condition_total vm :
  regs_ok vm -> exit_ok vm ->
  exists value a,
    get_exit_condition vm = (Ret (mkExit (status vm) value), put_mem (set_mem_addr a (mem vm)) vm) /\
    match status vm with
    | ExitReason.host_halt | ExitReason.page_fault =>
        exists v, exit_value vm = Some v /\ value = EInt v /\ is_u64 v
    | ExitReason.halt =>
        exists w7 w8 out, reg vm !! 7%nat = Some w7 /\ reg vm !! 8%nat = Some w8 /\
          value = EBytes out /\ halt_output (mem vm) w7 w8 out
    | ExitReason.panic => value = ENone
    | _ => value = EBytes []
    end.
Proof. apply exit_condition_spec. Qed.

(** The constructor cannot fail: it builds a machine ready to run, with the
    program's registers reduced to 64 bits, its memory and its code; the flag
    [code_valid] is the decoder's verdict. *)
Theorem new_interpreter_ready p :
  program_ok p ->
  exists vm, new_interpreter p = Ret vm /\ ready vm /\
    reg vm = map u64 (pg_registers p) /\ mem vm = pg_memory p /\
    code (vm_code vm) = pg_code p ++ replicate 25 0 /\
    code_valid (vm_code vm) = snd (decode_instructions (pg_code p) (pg_opcode_bitmask p)) /\
    code_length (vm_code vm) = blen (pg_code p).
Proof. apply new_interpreter_spec. Qed.
