(* ===== verification/Program.v ===== *)
(** * Programs: decoding, initial memory and registers

    [pvm/types.py]: the code blob [PVMCode] with [from_jam_bytes] and [is_valid],
    and the standard program initialisation of [PVMProgram]: [init_memory],
    [init_registers] and [from_serialized_bytes].

    The byte cursor [JamBytes] and its decoders come from the package jamcodec,
    which is not part of the repository: they are the operations of the class
    [JamCodec], and [JamCodecLaws] states what the code relies on (a read returns at
    most the bytes asked for, an array has the length asked for, values are bytes).
    An operation answers [None] when it raises one of the exceptions
    [from_serialized_bytes] catches ([RemainingScaleBytesNotEmptyException],
    [ValueError], [IndexError]).

    [init_memory_layout] gives the initial memory byte by byte and page by page;
    [from_serialized_bytes_total] shows that loading raises nothing and yields either
    no program or one the interpreter accepts. *)

From Stdlib Require Import ZArith Lia Bool List.
From stdpp Require Import base numbers option list gmap.
From S2P Require Import Prelude Constants Defs MemorySection Memory BasicBlock Machine Interp.
Import ListNotations.

#[local] Open Scope Z_scope.
#[local] Open Scope py_scope.

(** ** The codec *)

Class JamCodec (J : Type) : Type := {
  JamBytes : bytes -> J;
  get_next_bytes : Z -> J -> option (bytes * J);
  get_remaining_length : J -> Z;
  VarInt64_decode : J -> option (Z * J);
  JU8_decode : J -> option (Z * J);
  (** [Array(UnsignedInteger(bits), n)], [Array(JU8, n)], [BitArray(n, strict)] *)
  uint_array_decode : Z -> Z -> J -> option (list Z * J);
  byte_array_decode : Z -> J -> option (bytes * J);
  bit_array_decode : Z -> bool -> J -> option (list bool * J)
}.

Class JamCodecLaws (J : Type) `{JamCodec J} : Type := {
  jam_ok : J -> Prop;
  JamBytes_ok : forall bs, List.Forall is_byte bs -> jam_ok (JamBytes bs);
  get_next_bytes_ok : forall n j bs j', jam_ok j -> get_next_bytes n j = Some (bs, j') ->
    jam_ok j' /\ List.Forall is_byte bs /\ blen bs <= Z.max 0 n;
  VarInt64_decode_ok : forall j n j', jam_ok j -> VarInt64_decode j = Some (n, j') -> jam_ok j' /\ 0 <= n;
  JU8_decode_ok : forall j n j', jam_ok j -> JU8_decode j = Some (n, j') -> jam_ok j' /\ is_byte n;
  uint_array_decode_ok : forall w n j l j', jam_ok j -> uint_array_decode w n j = Some (l, j') -> jam_ok j';
  byte_array_decode_ok : forall n j bs j', jam_ok j -> 0 <= n -> byte_array_decode n j = Some (bs, j') ->
    jam_ok j' /\ List.Forall is_byte bs /\ blen bs = n
}.

(** ** [PVMCode] *)

Record PVMCode : Type := mkPVMCode {
  pvc_jump_table_entry_count : Z;
  pvc_jump_table_entry_size : Z;
  pvc_code_length : Z;
  pvc_jump_table : list Z;
  pvc_code : bytes;
  pvc_opcode_bitmask : list bool
}.

Section codec.
Context {J : Type} `{JamCodec J}.

(** [PVMCode.from_jam_bytes]; [None] is an exception. *)
Definition from_jam_bytes (scale_bytes : J) (strict_decoding : bool) : option PVMCode :=
  '(jump_table_entry_count, j) ← VarInt64_decode scale_bytes;
  '(jump_table_entry_size, j) ← JU8_decode j;
  '(code_length, j) ← VarInt64_decode j;
  if PVM_MAX_CODE_SIZE <? code_length then None
  else if PVM_MAX_JUMP_TABLE_ENTRIES <? jump_table_entry_count then None
  else
    '(jump_table, j) ← uint_array_decode (jump_table_entry_size * 8) jump_table_entry_count j;
    '(code, j) ← byte_array_decode code_length j;
    '(opcode_bitmask, j) ← bit_array_decode code_length strict_decoding j;
    if strict_decoding && truthy (get_remaining_length j) then None
    else Some (mkPVMCode jump_table_entry_count jump_table_entry_size code_length jump_table code
                 opcode_bitmask).

(** [from_bytes_cached]: the cache returns what decoding the same bytes gave. *)
Definition from_bytes_cached (data : bytes) : option PVMCode := from_jam_bytes (JamBytes data) true.
End codec.

(** [PVMCode.is_valid] *)
Definition is_valid (c : PVMCode) (pc : Z) : bool :=
  let '(positions, _, valid) := decode_instructions (pvc_code c) (pvc_opcode_bitmask c) in
  valid && bool_decide (is_Some (positions !! pc)).

(** ** [PVMProgram] *)

Definition pvm_program (c : PVMCode) (registers : list Z) (memory : PVMMemory) : PVMProgram :=
  mkProgram (pvc_code c) (pvc_jump_table c) (pvc_opcode_bitmask c) registers memory.

Definition init_memory (rom_contents heap_contents argument_contents : bytes)
  (heap_mem_pages stack_mem_size : Z) : outcome exn PVMMemory :=
  let rom_start := PVM_INIT_ZONE_SIZE in
  let rom_size := page_size (blen rom_contents) in
  let heap_mem_size := page_size (blen heap_contents) + heap_mem_pages * PVM_PAGE_SIZE in
  let heap_start := 2 * PVM_INIT_ZONE_SIZE + zone_size (blen rom_contents) in
  let stack_size := page_size stack_mem_size in
  let stack_start := 2 ^ 32 - 2 * PVM_INIT_ZONE_SIZE - PVM_INPUT_DATA_SIZE - stack_size in
  let args_start := 2 ^ 32 - PVM_INIT_ZONE_SIZE - PVM_INPUT_DATA_SIZE in
  let args_size := page_size (blen argument_contents) in
  memory ← alloc_memory rom_start rom_size rom_contents heap_start heap_mem_size heap_contents
             stack_start stack_size args_start args_size argument_contents;
  Ret (set_bounds memory (Some heap_start) (Some stack_start) (heap_start + heap_mem_size)).

Definition init_registers (arguments : bytes) : list Z :=
  <[8%nat := blen arguments]>
    (<[7%nat := 2 ^ 32 - PVM_INIT_ZONE_SIZE - PVM_INPUT_DATA_SIZE]>
      (<[1%nat := 2 ^ 32 - 2 * PVM_INIT_ZONE_SIZE - PVM_INPUT_DATA_SIZE]>
        (<[0%nat := 2 ^ 32 - 2 ^ 16]> (replicate 13 0)))).

(** [PVMProgram.from_serialized_bytes], with [settings.DEBUG] off as the repository
    has it.  [Ret None] is Python's [None]: a blob the code refuses, or whose
    decoding raised an exception it catches; [Raise] would be an exception it lets
    through. *)
Section serialized.
Context {J : Type} `{JamCodec J}.

(** The fields of the blob: read-only data, heap data, heap pages, stack size, code.
    [None] is a refusal or a caught exception. *)
Definition split_blob (serialized_program : bytes) : option (bytes * bytes * Z * Z * bytes * (Z * Z)) :=
  let jam_bytes := JamBytes serialized_program in
  '(b, j) ← get_next_bytes 3 jam_bytes; let pvm_rom_size := le_int b in
  '(b, j) ← get_next_bytes 3 j; let pvm_heap_size := le_int b in
  '(b, j) ← get_next_bytes 2 j; let heap_mem_pages := le_int b in
  '(b, j) ← get_next_bytes 3 j; let stack_mem_size := le_int b in
  '(pvm_rom_contents, j) ← get_next_bytes pvm_rom_size j;
  '(pvm_heap_contents, j) ← get_next_bytes pvm_heap_size j;
  '(b, j) ← get_next_bytes 4 j; let pvm_code_size := le_int b in
  '(pvm_code, j) ← get_next_bytes pvm_code_size j;
  if truthy (get_remaining_length j) then None
  else Some (pvm_rom_contents, pvm_heap_contents, heap_mem_pages, stack_mem_size, pvm_code,
             (pvm_rom_size, pvm_heap_size)).

(** The zones the program needs fit the address space. *)
Definition zones_fit (pvm_rom_size pvm_heap_size heap_mem_pages stack_mem_size : Z) : bool :=
  5 * PVM_INIT_ZONE_SIZE + zone_size pvm_rom_size +
  zone_size (pvm_heap_size + heap_mem_pages * PVM_PAGE_SIZE) +
  zone_size stack_mem_size + PVM_INPUT_DATA_SIZE <=? 2 ^ 32.

Definition from_serialized_bytes (serialized_program argument_contents : bytes)
  : outcome exn (option PVMProgram) :=
  if PVM_INPUT_DATA_SIZE <? blen argument_contents then Ret None
  else
    match split_blob serialized_program with
    | None => Ret None
    | Some (rom_contents, heap_contents, heap_mem_pages, stack_mem_size, pvm_code,
            (pvm_rom_size, pvm_heap_size)) =>
        if zones_fit pvm_rom_size pvm_heap_size heap_mem_pages stack_mem_size then
          match from_bytes_cached pvm_code with
          | None => Ret None
          | Some c =>
              memory ← init_memory rom_contents heap_contents argument_contents
                         heap_mem_pages stack_mem_size;
              Ret (Some (pvm_program c (init_registers argument_contents) memory))
          end
        else Ret None
    end.
End serialized.

(** * Properties *)

(** ** The layout of allocated memory *)

(** A region handed to [alloc_memory]: page-aligned, its contents no longer than
    the region, readable, and writable or not. *)
Record region : Type := mkRegion { rg_start : Z; rg_size : Z; rg_contents : bytes; rg_writable : bool }.

Definition rg_acl (g : region) : Z := if rg_writable g then MEM_W else MEM_R.

Definition region_fits (g : region) : Prop :=
  region_ok (rg_start g) (rg_size g) (rg_contents g) /\ rg_start g mod 4096 = 0 /\
  page_size (blen (rg_contents g)) <= page_size (rg_size g).

(** The pages of a region, and the bytes its contents occupy. *)
Definition in_region (g : region) (pg : Z) : Prop :=
  rg_start g / 4096 <= pg < (rg_start g + page_size (rg_size g)) / 4096.
Definition in_contents (g : region) (a : Z) : bool :=
  (rg_start g <=? a) && (a <? rg_start g + page_size (blen (rg_contents g))).

(** What loading a region does: its pages become accessible, its bytes the
    contents padded with zeros. *)
Definition loaded (g : region) (m m' : PVMMemory) : Prop :=
  (forall pg, pg ∈ pages_r m' <-> in_region g pg \/ pg ∈ pages_r m) /\
  (forall pg, pg ∈ pages_w m' <-> (rg_writable g = true /\ in_region g pg) \/ pg ∈ pages_w m) /\
  (forall a, mv_get (mv m') a =
     if in_contents g a then nth (Z.to_nat (a - rg_start g)) (rg_contents g) 0 else mv_get (mv m) a).

Lemma merge_acl_page q acl m :
  acl <> MEM_I ->
  (forall pg, pg ∈ pages_r (merge_acl q (Some acl) m) <-> pg = q \/ pg ∈ pages_r m) /\
  (forall pg, pg ∈ pages_w (merge_acl q (Some acl) m) <->
     ((acl = MEM_W \/ acl = MEM_RW) /\ pg = q) \/ pg ∈ pages_w m).
Proof.
  intros Hacl. unfold merge_acl. cbn. destruct (Z.eqb_spec acl MEM_I); [done|]. cbn.
  split; intros pg; [set_solver|].
  destruct (Z.eqb_spec acl MEM_W), (Z.eqb_spec acl MEM_RW); cbn; set_solver.
Qed.

Lemma merge_acl_pages base acl pages : forall m,
  acl <> MEM_I ->
  let m' := fold_left (fun m p => merge_acl (base + p) (Some acl) m) pages m in
  mv m' = mv m /\
  (forall pg, pg ∈ pages_r m' <-> (exists p, p ∈ pages /\ pg = base + p) \/ pg ∈ pages_r m) /\
  (forall pg, pg ∈ pages_w m' <->
     ((acl = MEM_W \/ acl = MEM_RW) /\ exists p, p ∈ pages /\ pg = base + p) \/ pg ∈ pages_w m).
Proof.
  induction pages as [|p pages IH]; intros m Hacl m'; subst m'; cbn [fold_left].
  { split; [done|]. split; intros pg; set_solver. }
  destruct (IH (merge_acl (base + p) (Some acl) m) Hacl) as (-> & Hr & Hw).
  destruct (merge_acl_page (base + p) acl m Hacl) as [Hr1 Hw1].
  split; [done|]. split; intros pg; [rewrite Hr, Hr1|rewrite Hw, Hw1];
    setoid_rewrite elem_of_cons; naive_solver.
Qed.

Lemma length_alloc_contents n c :
  blen c <= n -> length (alloc_contents n c) = Z.to_nat n.
Proof.
  intros H. unfold alloc_contents, blen in *.
  rewrite length_app, length_drop, length_replicate. lia.
Qed.

Lemma nth_alloc_contents n c k i :
  (length c <= k)%nat -> nth i (take k (alloc_contents n c)) 0 = nth i c 0.
Proof.
  intros Hk. unfold alloc_contents. rewrite take_app_ge by done.
  destruct (lt_dec i (length c)) as [Hi|Hi]; [by rewrite app_nth1|].
  rewrite app_nth2, (nth_overflow c) by lia.
  destruct (nth_in_or_default (i - length c) (take (k - length c) (drop (length c) (replicate (Z.to_nat n) 0))) 0)
    as [Hin|]; [|done].
  apply list_elem_of_In in Hin. apply elem_of_take in Hin as (j & Hj & _).
  rewrite lookup_drop in Hj. by apply lookup_replicate in Hj as [-> _].
Qed.

(** The pages of a region, counted from its first page. *)
Lemma region_pages g pg :
  region_fits g ->
  (exists p, p ∈ py_range 0 (ceil_div (page_size (rg_size g)) PAGE_SIZE) /\
     pg = rg_start g ≫ _PAGE_SHIFT + p) <-> in_region g pg.
Proof.
  intros ((H0 & Hs & _) & Hal & _). unfold in_region. rewrite page_shift.
  setoid_rewrite elem_of_py_range.
  pose proof (ceil_pages (page_size (rg_size g)) (page_size_idem _)) as Hc.
  assert ((rg_start g + page_size (rg_size g)) / 4096
          = rg_start g / 4096 + ceil_div (page_size (rg_size g)) PAGE_SIZE) as ->.
  { rewrite <-Hc at 1. rewrite Z.div_add by lia. done. }
  split; [intros (p & ? & ->); lia|]. intros. exists (pg - rg_start g / 4096). lia.
Qed.

Lemma load_region g m :
  region_fits g ->
  exists s s' m', new_section (rg_start g) (rg_size g) (rg_contents g) (Some (rg_acl g)) = Ret s /\
    ms_address s = rg_start g /\ ms_size s = page_size (rg_size g) /\
    load_section s m = (Ret s', m') /\ loaded g m m'.
Proof.
  intros Hg. pose proof Hg as ((H0 & Hs & Hp & He & Hce & Hb) & Hal & Hfit).
  pose proof (page_size_spec (rg_size g)) as Hps. pose proof (page_size_spec (blen (rg_contents g))) as Hpc.
  destruct (new_section_total (rg_start g) (rg_size g) (rg_contents g) (Some (rg_acl g)) ltac:(lia))
    as (s & Hn & Ha & Hz & Hc & Ht).
  assert (ms_acl s = Some (rg_acl g)) as Hacl.
  { revert Hn. unfold new_section. destruct (_ <? _); [done|]. destruct (alloc_acl _ _ _); [|done].
    cbn. by intros [= <-]. }
  exists s. unfold load_section.
  rewrite Ha, Hz, Hc, Hacl, Ht. unfold blen in *. cbv zeta. cbn [default from_option id].
  set (ps := page_size (rg_size g)) in *. set (pc := page_size (Z.of_nat _)) in *.
  assert (exists m1, (if truthy ps then
      modify (fun m => fold_left (fun m p => merge_acl (rg_start g ≫ _PAGE_SHIFT + p) (Some (rg_acl g)) m)
                         (py_range 0 (ceil_div ps PAGE_SIZE)) m)
      else mret tt) m = (@Ret exn unit tt, m1) /\ mv m1 = mv m /\
      (forall pg, pg ∈ pages_r m1 <-> in_region g pg \/ pg ∈ pages_r m) /\
      (forall pg, pg ∈ pages_w m1 <-> (rg_writable g = true /\ in_region g pg) \/ pg ∈ pages_w m))
    as (m1 & Hm1 & Hmv & Hr & Hw).
  { unfold truthy. destruct (Z.eqb_spec ps 0) as [Hps0|Hps0]; cbn [negb].
    - exists m. split; [done|]. split; [done|]. unfold in_region. fold ps. rewrite Hps0, Z.add_0_r.
      split; intros pg; split; try tauto; intros [?|?]; try done; lia.
    - destruct (merge_acl_pages (rg_start g ≫ _PAGE_SHIFT) (rg_acl g) (py_range 0 (ceil_div ps PAGE_SIZE)) m)
        as (Hmv & Hr & Hw); [by unfold rg_acl; destruct (rg_writable g)|].
      eexists. split; [reflexivity|]. split; [done|].
      pose proof (fun pg => region_pages g pg Hg) as Hpg. fold ps in Hpg.
      split; intros pg; [rewrite Hr|rewrite Hw]; rewrite Hpg; [done|].
      unfold rg_acl. destruct (rg_writable g); intuition (try discriminate). }
  rewrite eff_bind_run. rewrite Hm1. autorewrite with eff. cbn [storage_bytes].
  replace (rg_start g + pc - rg_start g) with pc by lia.
  rewrite length_alloc_contents by (unfold blen; lia).
  replace (Z.max 0 (Z.min (Z.of_nat (Z.to_nat ps)) pc)) with pc by lia.
  assert (blen (take (Z.to_nat pc) (alloc_contents ps (rg_contents g))) = pc) as Hlen.
  { unfold blen. rewrite length_take, length_alloc_contents by (unfold blen; lia). lia. }
  assert (exists m2, (if 0 <? pc then
      lift (mv_assign (mv m1) (rg_start g) (rg_start g + pc)
              (take (Z.to_nat pc) (alloc_contents ps (rg_contents g))))
        ≫= (fun v => modify (fun m => set_mv m v))
      else mret tt) m1 = (@Ret exn unit tt, m2) /\ pages_r m2 = pages_r m1 /\ pages_w m2 = pages_w m1 /\
      mv m2 = mv_store (mv m1) (rg_start g) (take (Z.to_nat pc) (alloc_contents ps (rg_contents g))))
    as (m2 & Hm2 & Hr2 & Hw2 & Hmv2).
  { unfold blen in Hlen. destruct (Z.ltb_spec 0 pc).
    - pose proof (mv_assign_range (mv m1) (rg_start g) (take (Z.to_nat pc) (alloc_contents ps (rg_contents g)))) as Hass.
      rewrite Hlen in Hass. rewrite Hass by lia. eexists. by split.
    - exists m1. split; [done|]. split; [done|]. split; [done|].
      destruct (take _ _); [done|]. cbn in Hlen. lia. }
  rewrite eff_bind_run, Hm2. unfold view. destruct (Z.ltb_spec ps 0); [lia|].
  rewrite addr_mask. pose proof (Z.mod_le (rg_start g) SIZE ltac:(done) ltac:(done)).
  destruct (Z.ltb_spec SIZE (rg_start g mod SIZE + ps)); [lia|].
  autorewrite with eff. eexists _, m2. split; [done|]. split; [done|]. split; [done|]. split; [reflexivity|].
  unfold loaded. rewrite Hr2, Hw2, Hmv2. split; [done|]. split; [done|]. intros a.
  rewrite mv_store_get, Hmv. unfold blen in Hlen. rewrite Hlen. unfold in_contents. fold pc.
  unfold blen. fold pc. destruct (_ && _); [|done]. apply nth_alloc_contents. lia.
Qed.

(** Four regions loaded one after the other. *)
Lemma alloc_memory_layout ro he st ar :
  region_fits ro -> region_fits he -> region_fits st -> region_fits ar ->
  rg_writable ro = false -> rg_writable he = true -> rg_writable st = true -> rg_writable ar = false ->
  rg_contents st = replicate (Z.to_nat (rg_size st)) 0 ->
  exists m m1 m2 m3,
    alloc_memory (rg_start ro) (rg_size ro) (rg_contents ro) (rg_start he) (rg_size he) (rg_contents he)
      (rg_start st) (rg_size st) (rg_start ar) (rg_size ar) (rg_contents ar) = Ret m /\
    loaded ro empty_memory m1 /\ loaded he m1 m2 /\ loaded st m2 m3 /\ loaded ar m3 m /\
    memory_ok m /\ mem_wf m.
Proof.
  intros Hro Hhe Hst Har Wro Whe Wst War Cst.
  destruct (alloc_memory_ok (rg_start ro) (rg_size ro) (rg_contents ro) (rg_start he) (rg_size he)
    (rg_contents he) (rg_start st) (rg_size st) (rg_start ar) (rg_size ar) (rg_contents ar))
    as (m & Hm & Hmok & Hwf & _); [apply Hro|apply Hhe|rewrite <-Cst; apply Hst|apply Har|].
  destruct (load_region ro empty_memory Hro) as (s1 & s1' & m1 & N1 & A1 & Z1 & L1 & D1).
  destruct (load_region he m1 Hhe) as (s2 & s2' & m2 & N2 & A2 & Z2 & L2 & D2).
  destruct (load_region st m2 Hst) as (s3 & s3' & m3 & N3 & A3 & Z3 & L3 & D3).
  destruct (load_region ar m3 Har) as (s4 & s4' & m4 & N4 & A4 & Z4 & L4 & D4).
  exists m, m1, m2, m3. do 4 (split; [done|]).
  enough (loaded ar m3 m) by by split_and!.
  revert Hm. unfold rg_acl in *. rewrite Wro in N1. rewrite Whe in N2. rewrite Wst in N3. rewrite War in N4.
  unfold alloc_memory. rewrite <-Cst, N1, N2. cbn [mbind outcome_bind].
  rewrite N3. cbn [mbind outcome_bind]. rewrite N4. cbn [mbind outcome_bind].
  unfold new_memory. cbn [load_optional]. rewrite !eff_bind_run, L1. cbn.
  rewrite !eff_bind_run, L2. cbn. rewrite !eff_bind_run, L3. cbn. rewrite !eff_bind_run, L4. cbn.
  intros [= <-]. exact D4.
Qed.

(** The regions of a program. *)
Definition rom_region (rom : bytes) : region :=
  mkRegion PVM_INIT_ZONE_SIZE (page_size (blen rom)) rom false.
Definition heap_region (rom heap : bytes) (heap_mem_pages : Z) : region :=
  mkRegion (2 * PVM_INIT_ZONE_SIZE + zone_size (blen rom))
    (page_size (blen heap) + heap_mem_pages * PVM_PAGE_SIZE) heap true.
Definition stack_region (stack_mem_size : Z) : region :=
  let size := page_size stack_mem_size in
  mkRegion (2 ^ 32 - 2 * PVM_INIT_ZONE_SIZE - PVM_INPUT_DATA_SIZE - size) size
    (replicate (Z.to_nat size) 0) true.
Definition args_region (arguments : bytes) : region :=
  mkRegion (2 ^ 32 - PVM_INIT_ZONE_SIZE - PVM_INPUT_DATA_SIZE) (page_size (blen arguments)) arguments false.

(** The sizes the blob format can express. *)
Record sizes_ok (rom heap arguments : bytes) (heap_mem_pages stack_mem_size : Z) : Prop := {
  so_rom : List.Forall is_byte rom /\ blen rom < 2 ^ 24;
  so_heap : List.Forall is_byte heap /\ blen heap < 2 ^ 24;
  so_args : List.Forall is_byte arguments /\ blen arguments <= PVM_INPUT_DATA_SIZE;
  so_pages : 0 <= heap_mem_pages < 2 ^ 16;
  so_stack : 0 <= stack_mem_size < 2 ^ 24;
  so_zones : zones_fit (blen rom) (blen heap) heap_mem_pages stack_mem_size = true
}.

Lemma zone_size_spec n : n <= zone_size n < n + 65536 /\ (65536 | zone_size n).
Proof.
  unfold zone_size. change PVM_INIT_ZONE_SIZE with 65536.
  pose proof (ceil_div_spec n 65536 ltac:(lia)). split; [lia|]. by exists (ceil_div n 65536); lia.
Qed.

Lemma page_size_divide n : (4096 | page_size n).
Proof. exists (ceil_div n PVM_PAGE_SIZE). unfold page_size. change PVM_PAGE_SIZE with 4096. lia. Qed.

Lemma blen_nonneg {A} (l : list A) : 0 <= Z.of_nat (length l).
Proof. lia. Qed.

Lemma region_fits_intro g :
  0 <= rg_start g -> rg_start g mod 4096 = 0 -> 0 <= rg_size g ->
  page_size (rg_size g) <= PVM_MAX_HEAP_SIZE -> rg_start g + page_size (rg_size g) <= SIZE ->
  List.Forall is_byte (rg_contents g) -> blen (rg_contents g) <= page_size (rg_size g) ->
  region_fits g.
Proof.
  intros H0 Hm Hs Hp He Hb Hl.
  assert (page_size (blen (rg_contents g)) <= page_size (rg_size g)) as Hle.
  { pose proof (page_size_spec (blen (rg_contents g))).
    destruct (page_size_divide (blen (rg_contents g))) as [i Hi].
    destruct (page_size_divide (rg_size g)) as [j Hj]. lia. }
  unfold blen in *. split; [|done]. unfold region_ok. split_and!; try done. lia.
Qed.

Section initial.
Context (rom_bytes heap_bytes arg_bytes : bytes) (pages stack_sz : Z).
Context (Hsz : sizes_ok rom_bytes heap_bytes arg_bytes pages stack_sz).
Let RO := rom_region rom_bytes.
Let HE := heap_region rom_bytes heap_bytes pages.
Let ST := stack_region stack_sz.
Let AR := args_region arg_bytes.

(** The regions follow one another, each starting on a page. *)
Lemma regions_ordered :
  65536 = rg_start RO /\ rg_start RO + page_size (rg_size RO) + 65536 <= rg_start HE /\
  rg_start HE + page_size (rg_size HE) + 65536 <= rg_start ST /\
  rg_start ST + page_size (rg_size ST) + 65536 <= rg_start AR /\
  rg_start AR + page_size (rg_size AR) + 65536 <= SIZE.
Proof using Hsz.
  destruct Hsz as [[_ Hr] [_ Hh] [_ Ha] Hp Hs Hz]. unfold zones_fit in Hz. apply Z.leb_le in Hz.
  unfold RO, HE, ST, AR. cbn [rom_region heap_region stack_region args_region rg_start rg_size].
  change PVM_INIT_ZONE_SIZE with 65536 in *. change PVM_INPUT_DATA_SIZE with 16777216 in *.
  change PVM_PAGE_SIZE with 4096 in *. change SIZE with 4294967296.
  rewrite !page_size_idem. change (2 ^ 32) with 4294967296 in *.
  destruct (zone_size_spec (blen rom_bytes)) as [Z1 [k1 E1]].
  destruct (zone_size_spec (blen heap_bytes + pages * 4096)) as [Z2 [k2 E2]].
  destruct (zone_size_spec stack_sz) as [Z3 [k3 E3]].
  pose proof (page_size_spec (blen rom_bytes)) as P1. destruct (page_size_divide (blen rom_bytes)) as [j1 F1].
  pose proof (page_size_spec (blen heap_bytes)) as P2. destruct (page_size_divide (blen heap_bytes)) as [j2 F2].
  pose proof (page_size_spec (blen arg_bytes)) as P3. destruct (page_size_divide (blen arg_bytes)) as [j3 F3].
  pose proof (page_size_spec stack_sz) as P4. destruct (page_size_divide stack_sz) as [j4 F4].
  destruct (page_size_divide (page_size (blen heap_bytes) + pages * 4096)) as [j5 F5].
  pose proof (page_size_spec (page_size (blen heap_bytes) + pages * 4096)) as P5.
  lia.
Qed.

Lemma regions_fit : region_fits RO /\ region_fits HE /\ region_fits ST /\ region_fits AR.
Proof using Hsz.
  pose proof regions_ordered as (O1 & O2 & O3 & O4 & O5).
  pose proof Hsz as [[Br Hr] [Bh Hh] [Ba Ha] Hp Hs _].
  pose proof (page_size_spec (blen rom_bytes)). pose proof (page_size_spec (blen heap_bytes)).
  pose proof (page_size_spec (blen arg_bytes)). pose proof (page_size_spec stack_sz).
  pose proof (blen_nonneg rom_bytes) as N1. pose proof (blen_nonneg heap_bytes) as N2.
  pose proof (blen_nonneg arg_bytes) as N3. fold (blen rom_bytes) in N1.
  fold (blen heap_bytes) in N2. fold (blen arg_bytes) in N3.
  change PVM_INPUT_DATA_SIZE with 16777216 in *.
  assert (rg_size HE = page_size (blen heap_bytes) + pages * 4096) as EH by done.
  pose proof (page_size_spec (rg_size HE)).
  destruct (zone_size_spec (blen rom_bytes)) as [_ [k Hk]].
  destruct (page_size_divide stack_sz) as [j Hj].
  split; [|split; [|split]]; apply region_fits_intro; try done; unfold PVM_MAX_HEAP_SIZE.
  all: unfold RO, HE, ST, AR in *;
    cbn [rom_region heap_region stack_region args_region rg_start rg_size rg_contents] in *;
    rewrite ?page_size_idem in *; change PVM_INIT_ZONE_SIZE with 65536 in *;
    change PVM_INPUT_DATA_SIZE with 16777216 in *; try lia.
  - rewrite Hk. apply Z.mod_divide; [done|]. by exists (32 + k * 16); lia.
  - rewrite Hj. apply Z.mod_divide; [done|]. by exists (2 ^ 20 - 32 - 4096 - j); lia.
  - by apply Forall_replicate.
  - unfold blen. rewrite length_replicate. lia.
Qed.

(** The byte of a region at an address. *)
Definition in_bytes (g : region) (a : Z) : bool :=
  (rg_start g <=? a) && (a <? rg_start g + blen (rg_contents g)).
Definition region_byte (g : region) (a : Z) : Z := nth (Z.to_nat (a - rg_start g)) (rg_contents g) 0.

(** The initial memory, byte by byte. *)
Definition initial_byte (a : Z) : Z :=
  if in_bytes RO a then region_byte RO a
  else if in_bytes HE a then region_byte HE a
  else if in_bytes AR a then region_byte AR a
  else 0.

Lemma region_byte_padded g a :
  in_contents g a = true -> in_bytes g a = false -> region_byte g a = 0.
Proof using.
  unfold in_contents, in_bytes, region_byte, blen. intros Hc Hb. apply nth_overflow. lia.
Qed.

Lemma region_fits_end g a :
  region_fits g -> in_contents g a = true -> rg_start g <= a < rg_start g + page_size (rg_size g).
Proof using. intros (_ & _ & Hle). unfold in_contents. lia. Qed.

Lemma region_size_nonneg g : region_fits g -> 0 <= page_size (rg_size g).
Proof using. intros ((_ & ? & _) & _). pose proof (page_size_spec (rg_size g)). lia. Qed.

Lemma in_bytes_contents g a : in_bytes g a = true -> in_contents g a = true.
Proof using.
  unfold in_bytes, in_contents. pose proof (page_size_spec (blen (rg_contents g))). lia.
Qed.

Lemma stack_byte a : region_byte ST a = 0.
Proof using.
  unfold region_byte. cbn [ST stack_region rg_contents].
  destruct (nth_in_or_default (Z.to_nat (a - rg_start ST)) (replicate (Z.to_nat (page_size stack_sz)) 0) 0)
    as [Hin|]; [|done].
  by apply list_elem_of_In, elem_of_replicate in Hin as [? _].
Qed.

Lemma init_memory_run :
  exists m, init_memory rom_bytes heap_bytes arg_bytes pages stack_sz = Ret m /\
    memory_ok m /\ mem_wf m /\
    (forall pg, pg ∈ pages_r m <-> in_region RO pg \/ in_region HE pg \/ in_region ST pg \/ in_region AR pg) /\
    (forall pg, pg ∈ pages_w m <-> in_region HE pg \/ in_region ST pg) /\
    (forall a, mv_get (mv m) a = initial_byte a) /\
    heap_base m = Some (rg_start HE) /\ stack_base m = Some (rg_start ST) /\
    heap_ptr m = rg_start HE + rg_size HE.
Proof using Hsz.
  destruct regions_fit as (FR & FH & FS & FA).
  pose proof regions_ordered as (O1 & O2 & O3 & O4 & O5).
  destruct (alloc_memory_layout RO HE ST AR) as (m & m1 & m2 & m3 & Hm & D1 & D2 & D3 & D4 & Hok & Hwf);
    try done.
  unfold init_memory. unfold RO, HE, ST, AR in Hm.
  cbn [rom_region heap_region stack_region args_region rg_start rg_size rg_contents] in Hm.
  rewrite Hm. cbn [mbind outcome_bind]. eexists. split; [reflexivity|].
  destruct D1 as (R1 & W1 & V1), D2 as (R2 & W2 & V2), D3 as (R3 & W3 & V3), D4 as (R4 & W4 & V4).
  split; [exact Hok|]. split; [exact Hwf|]. cbn [pages_r pages_w mv heap_base stack_base heap_ptr set_bounds].
  split; [|split; [|split; [|done]]].
  - intros pg. rewrite R4, R3, R2, R1. cbn. set_solver.
  - intros pg. rewrite W4, W3, W2, W1. cbn. set_solver.
  - intros a. rewrite V4, V3, V2, V1.
    change (nth (Z.to_nat (a - rg_start AR)) (rg_contents AR) 0) with (region_byte AR a).
    change (nth (Z.to_nat (a - rg_start ST)) (rg_contents ST) 0) with (region_byte ST a).
    change (nth (Z.to_nat (a - rg_start HE)) (rg_contents HE) 0) with (region_byte HE a).
    change (nth (Z.to_nat (a - rg_start RO)) (rg_contents RO) 0) with (region_byte RO a).
    change (mv_get (mv empty_memory) a) with 0. rewrite stack_byte. unfold initial_byte.
    pose proof (region_fits_end RO a FR). pose proof (region_fits_end HE a FH).
    pose proof (region_fits_end ST a FS). pose proof (region_fits_end AR a FA).
    pose proof (in_bytes_contents RO a). pose proof (in_bytes_contents HE a).
    pose proof (in_bytes_contents AR a).
    pose proof (region_byte_padded RO a). pose proof (region_byte_padded HE a).
    pose proof (region_byte_padded AR a).
    pose proof (region_size_nonneg _ FH). pose proof (region_size_nonneg _ FS).
    pose proof (region_size_nonneg _ FR). pose proof (region_size_nonneg _ FA).
    destruct (in_contents AR a), (in_contents ST a), (in_contents HE a), (in_contents RO a),
      (in_bytes AR a), (in_bytes HE a), (in_bytes RO a);
      repeat match goal with H : ?x = ?x -> _ |- _ => specialize (H eq_refl) end;
      solve [done|lia].
Qed.
End initial.

(** ** Loading a serialised program *)

Section loading.
Context {J : Type} `{JamCodec J} `{!JamCodecLaws J}.

Lemma next_bytes_int n j bs j' :
  jam_ok j -> 0 <= n -> get_next_bytes n j = Some (bs, j') ->
  jam_ok j' /\ List.Forall is_byte bs /\ blen bs <= n /\ 0 <= le_int bs < 256 ^ n.
Proof using JamCodecLaws0.
  intros Hj Hn Hg. destruct (get_next_bytes_ok _ _ _ _ Hj Hg) as (? & Hb & Hl).
  pose proof (le_int_range bs Hb) as Hr. unfold blen in *.
  do 2 (split; [done|]). split; [lia|]. split; [lia|].
  eapply Z.lt_le_trans; [apply Hr|]. apply Z.pow_le_mono_r; lia.
Qed.

Lemma split_blob_spec serialized rom heap pages ss code rs hs :
  List.Forall is_byte serialized ->
  split_blob serialized = Some (rom, heap, pages, ss, code, (rs, hs)) ->
  (List.Forall is_byte rom /\ blen rom <= rs < 2 ^ 24) /\
  (List.Forall is_byte heap /\ blen heap <= hs < 2 ^ 24) /\
  0 <= pages < 2 ^ 16 /\ 0 <= ss < 2 ^ 24 /\ List.Forall is_byte code.
Proof using JamCodecLaws0.
  intros Hs. pose proof (JamBytes_ok _ Hs) as Hj0. unfold split_blob.
  destruct (get_next_bytes 3 (JamBytes serialized)) as [[b1 j1]|] eqn:E1; [|done].
  apply next_bytes_int in E1 as (Hj1 & _ & _ & R1); [|done|lia]. cbn.
  destruct (get_next_bytes 3 j1) as [[b2 j2]|] eqn:E2; [|done].
  apply next_bytes_int in E2 as (Hj2 & _ & _ & R2); [|done|lia]. cbn.
  destruct (get_next_bytes 2 j2) as [[b3 j3]|] eqn:E3; [|done].
  apply next_bytes_int in E3 as (Hj3 & _ & _ & R3); [|done|lia]. cbn.
  destruct (get_next_bytes 3 j3) as [[b4 j4]|] eqn:E4; [|done].
  apply next_bytes_int in E4 as (Hj4 & _ & _ & R4); [|done|lia]. cbn.
  destruct (get_next_bytes (le_int b1) j4) as [[r j5]|] eqn:E5; [|done].
  apply next_bytes_int in E5 as (Hj5 & B5 & L5 & _); [|done|lia]. cbn.
  destruct (get_next_bytes (le_int b2) j5) as [[h j6]|] eqn:E6; [|done].
  apply next_bytes_int in E6 as (Hj6 & B6 & L6 & _); [|done|lia]. cbn.
  destruct (get_next_bytes 4 j6) as [[b7 j7]|] eqn:E7; [|done].
  apply next_bytes_int in E7 as (Hj7 & _ & _ & R7); [|done|lia]. cbn.
  destruct (get_next_bytes (le_int b7) j7) as [[c j8]|] eqn:E8; [|done].
  apply next_bytes_int in E8 as (_ & B8 & _); [|done|lia]. cbn.
  destruct (truthy _); [done|]. intros [= <- <- <- <- <- <- <-].
  split_and!; try done; lia.
Qed.

Lemma from_jam_bytes_spec j strict c :
  jam_ok j -> from_jam_bytes j strict = Some c ->
  List.Forall is_byte (pvc_code c) /\ blen (pvc_code c) = pvc_code_length c /\
  pvc_code_length c <= PVM_MAX_CODE_SIZE /\ pvc_jump_table_entry_count c <= PVM_MAX_JUMP_TABLE_ENTRIES.
Proof using JamCodecLaws0.
  intros Hj. unfold from_jam_bytes.
  destruct (VarInt64_decode j) as [[n1 j1]|] eqn:E1; [|done]. cbn.
  apply VarInt64_decode_ok in E1 as [Hj1 _]; [|done].
  destruct (JU8_decode j1) as [[n2 j2]|] eqn:E2; [|done]. cbn.
  apply JU8_decode_ok in E2 as [Hj2 _]; [|done].
  destruct (VarInt64_decode j2) as [[n3 j3]|] eqn:E3; [|done]. cbn.
  apply VarInt64_decode_ok in E3 as [Hj3 H3]; [|done].
  destruct (Z.ltb_spec PVM_MAX_CODE_SIZE n3); [done|].
  destruct (Z.ltb_spec PVM_MAX_JUMP_TABLE_ENTRIES n1); [done|].
  destruct (uint_array_decode (n2 * 8) n1 j3) as [[jt j4]|] eqn:E4; [|done]. cbn.
  apply uint_array_decode_ok in E4; [|done].
  destruct (byte_array_decode n3 j4) as [[cs j5]|] eqn:E5; [|done]. cbn.
  apply byte_array_decode_ok in E5 as (_ & Hb & Hl); [|done|lia].
  destruct (bit_array_decode n3 strict j5) as [[bm j6]|]; [|done]. cbn.
  destruct (_ && _); [done|]. by intros [= <-].
Qed.

Lemma zone_size_mono a b : a <= b -> zone_size a <= zone_size b.
Proof using.
  intros Hab. destruct (zone_size_spec a) as [? [i Hi]], (zone_size_spec b) as [? [j Hj]]. lia.
Qed.

Lemma split_sizes serialized args rom heap pages ss code rs hs :
  List.Forall is_byte serialized -> List.Forall is_byte args -> blen args <= PVM_INPUT_DATA_SIZE ->
  split_blob serialized = Some (rom, heap, pages, ss, code, (rs, hs)) ->
  zones_fit rs hs pages ss = true -> sizes_ok rom heap args pages ss.
Proof using JamCodecLaws0.
  intros Hs Ha Hal Hsp Hz. destruct (split_blob_spec _ _ _ _ _ _ _ _ Hs Hsp) as ([? ?] & [? ?] & ? & ? & _).
  split; try done; try (split; [done|lia]). unfold zones_fit in *. apply Z.leb_le in Hz. apply Z.leb_le.
  change PVM_PAGE_SIZE with 4096 in *.
  pose proof (zone_size_mono (blen rom) rs ltac:(lia)).
  pose proof (zone_size_mono (blen heap + pages * 4096) (hs + pages * 4096) ltac:(lia)). lia.
Qed.

Lemma load_program_spec serialized args :
  List.Forall is_byte serialized -> List.Forall is_byte args ->
  from_serialized_bytes serialized args = Ret None \/
  exists rom heap pages ss code sizes c m,
    split_blob serialized = Some (rom, heap, pages, ss, code, sizes) /\
    from_bytes_cached code = Some c /\ sizes_ok rom heap args pages ss /\
    init_memory rom heap args pages ss = Ret m /\
    from_serialized_bytes serialized args = Ret (Some (pvm_program c (init_registers args) m)) /\
    program_ok (pvm_program c (init_registers args) m).
Proof using JamCodecLaws0.
  intros Hs Ha. unfold from_serialized_bytes.
  destruct (Z.ltb_spec PVM_INPUT_DATA_SIZE (blen args)) as [|Hal]; [by left|].
  destruct (split_blob serialized) as [[[[[[rom heap] pages] ss] code] [rs hs]]|] eqn:Hsp; [|by left].
  destruct (zones_fit rs hs pages ss) eqn:Hz; [|by left].
  destruct (from_bytes_cached code) as [c|] eqn:Hc; [|by left]. right.
  pose proof (split_sizes _ _ _ _ _ _ _ _ _ Hs Ha Hal Hsp Hz) as Hsz.
  destruct (init_memory_run _ _ _ _ _ Hsz) as (m & Hm & _ & Hwf & _).
  exists rom, heap, pages, ss, code, (rs, hs), c, m. do 4 (split; [done|]).
  rewrite Hm. cbn. split; [done|].
  destruct (split_blob_spec _ _ _ _ _ _ _ _ Hs Hsp) as (_ & _ & _ & _ & Hcb).
  destruct (from_jam_bytes_spec _ _ _ (JamBytes_ok _ Hcb) Hc) as (? & Hl & Hmax & _).
  split; cbn; [done| |done|done]. rewrite Hl. etransitivity; [exact Hmax|]. done.
Qed.
End loading.

(** ** The properties *)

(** The initial memory of a program, page by page and byte by byte: the pages of
    the read-only data, the heap, the stack and the arguments are readable, those of
    the heap and the stack writable, and no others; every byte of the contents is in
    its place and all the rest is zero.  It cannot fail on sizes the blob format
    can express and whose zones fit. *)
Theorem init_memory_layout rom heap args pages ss :
  sizes_ok rom heap args pages ss ->
  let RO := rom_region rom in let HE := heap_region rom heap pages in
  let ST := stack_region ss in let AR := args_region args in
  exists m, init_memory rom heap args pages ss = Ret m /\ memory_ok m /\ mem_wf m /\
    (forall pg, pg ∈ pages_r m <-> in_region RO pg \/ in_region HE pg \/ in_region ST pg \/ in_region AR pg) /\
    (forall pg, pg ∈ pages_w m <-> in_region HE pg \/ in_region ST pg) /\
    (forall a, mv_get (mv m) a =
       if in_bytes RO a then region_byte RO a
       else if in_bytes HE a then region_byte HE a
       else if in_bytes AR a then region_byte AR a else 0) /\
    heap_base m = Some (rg_start HE) /\ stack_base m = Some (rg_start ST) /\
    heap_ptr m = rg_start HE + rg_size HE.
Proof. apply init_memory_run. Qed.

(** Loading raises nothing: the blob is refused, or it is a program the interpreter
    accepts ([program_ok]) made of the decoded code, the initial registers and the
    initial memory of its parts, whose zones fit. *)
Theorem from_serialized_bytes_total {J} `{JamCodec J} `{!JamCodecLaws J} serialized args :
  List.Forall is_byte serialized -> List.Forall is_byte args ->
  from_serialized_bytes serialized args = Ret None \/
  exists rom heap pages ss code sizes c m,
    split_blob serialized = Some (rom, heap, pages, ss, code, sizes) /\
    from_bytes_cached code = Some c /\ sizes_ok rom heap args pages ss /\
    init_memory rom heap args pages ss = Ret m /\
    from_serialized_bytes serialized args = Ret (Some (pvm_program c (init_registers args) m)) /\
    program_ok (pvm_program c (init_registers args) m).
Proof. apply load_program_spec. Qed.
