(* ===== verification/Invocation.v ===== *)
(** * The host-call loop

    [pvm/invocation.py]: [pvm_invoke_host_call] alternates the machine and the
    host: it runs [invoke] until the program asks for a host call, hands the call
    to the mutator, and continues after the instruction, until the program or the
    host ends the invocation.  [pvm_invoke_marshalling] wraps it for a serialised
    program.

    The mutator is the interface [InvocationMutator]: the accumulation, refinement
    and authorisation invocations implement it.  [MutatorLaws] states what the
    loop relies on.  Under these laws the loop ends, and the only exceptions
    that leave it are those the mutator's [may_raise] admits
    ([pvm_invoke_host_call_total]): every call comes from a block that is paid for
    and the counter advances past it, so the potential of [Interp] bounds the
    number of calls as well. *)

From Stdlib Require Import ZArith Lia Bool List.
From stdpp Require Import base numbers option list gmap.
From S2P Require Import Prelude Constants Defs MemorySection Memory BasicBlock Machine Interp Program.
Import ListNotations.

#[local] Open Scope Z_scope.
#[local] Open Scope py_scope.

(** ** Interface *)

(** [InvocationMutationOutput] *)
Record InvocationMutationOutput : Type := mkMutation {
  mo_exit_condition : ExitCondition;
  mo_gas_limit : Z;
  mo_registers : list Z;
  mo_memory : PVMMemory
}.

(** [InvocationMutator.execute]: from the call number, the gas, the registers, the
    context and the machine, which it may change.  The memory argument is the
    machine's own memory object. *)
Class InvocationMutator (X : Type) : Type :=
  execute : Z -> Z -> list Z -> X -> VM -> outcome exn InvocationMutationOutput * (X * VM).

(** The bounds of the heap and stack of a loaded program. *)
Definition bounds_ok (b : option Z * option Z * Z) : Prop :=
  exists hb sb hp, b = (Some hb, Some sb, hp) /\ 0 <= hb <= SIZE /\ sb <= SIZE.

(** Who halts leaves bytes. *)
Definition halt_data (e : ExitCondition) : Prop :=
  ec_reason e = ExitReason.halt -> exists bs, ec_value e = EBytes bs /\ List.Forall is_byte bs.

(** What the loop relies on.  From a context satisfying [ctx_ok] (which may speak of
    the bounds of the machine's heap and stack) and a ready machine,
    a host call keeps the machine's code, counter and current block, keeps the
    machine ready and the context valid, and either raises one of the exceptions
    [may_raise] admits or answers: never with another host call, never with more gas
    than it got, asking to resume only with gas that is not negative, and with bytes if it halts.
    What the context has [committed] grows by no more than the gas the call has used. *)
Class MutatorLaws (X : Type) `{InvocationMutator X} : Type := {
  ctx_ok : X -> option Z * option Z * Z -> Prop;
  may_raise : exn -> Prop;
  committed : X -> Z;
  execute_ok : forall nr x vm,
    ctx_ok x (bounds (mem vm)) -> ready vm -> 0 <= gas vm < 2 ^ 64 ->
    exists r x' vm', execute nr (gas vm) (reg vm) x vm = (r, (x', vm')) /\
      ctx_ok x' (bounds (mem vm')) /\ ready vm' /\ vm_code vm' = vm_code vm /\ pc vm' = pc vm /\
      current_block_start vm' = current_block_start vm /\ gas vm' <= gas vm /\
      match r with
      | Raise e => may_raise e
      | Ret out =>
          (ec_reason (mo_exit_condition out) <> ExitReason.host_halt /\ ec_reason (mo_exit_condition out) <> ExitReason.page_fault) /\
          (mo_gas_limit out <= gas vm /\ committed x' + Z.max 0 (mo_gas_limit out) <= committed x + gas vm) /\
          (ec_reason (mo_exit_condition out) = ExitReason.resume -> 0 <= mo_gas_limit out) /\
          halt_data (mo_exit_condition out)
      end
}.

(** [PvMHostCallOutput] *)
Record PvMHostCallOutput (X : Type) : Type := mkHostCallOutput {
  hc_exit_condition : ExitCondition;
  hc_instruction_counter : Z;
  hc_gas_limit : Z;
  hc_registers : list Z;
  hc_memory : PVMMemory;
  hc_context : X
}.
Arguments mkHostCallOutput {X}.
Arguments hc_exit_condition {X}.
Arguments hc_instruction_counter {X}.
Arguments hc_gas_limit {X}.
Arguments hc_registers {X}.
Arguments hc_memory {X}.
Arguments hc_context {X}.

(** ** [pvm_invoke_host_call] *)

Section host_call.
Context {X : Type} `{InvocationMutator X}.

Definition get_registers (vm : VM) : list Z := reg vm.

(** [0 if reason in (halt, panic) else int(self.pvm.pc)] *)
Definition final_counter (reason : ExitReason.t) (vm : VM) : Z :=
  match reason with ExitReason.halt | ExitReason.panic => 0 | _ => pc vm end.

(** The counter and gas of the next [invoke], the context and the machine. *)
Definition host_state : Type := Z * Z * X * VM.
(** [None] is an [invoke] that does not return ([invoke_total] excludes it). *)
Definition host_result : Type := option (outcome exn (PvMHostCallOutput X) * (X * VM)).

(** After the mutator has answered. *)
Definition after_host_call (out : InvocationMutationOutput) (x : X) (vm : VM)
  : host_state + host_result :=
  let gas_limit := mo_gas_limit out in
  let reason := ec_reason (mo_exit_condition out) in
  match reason with
  | ExitReason.page_fault =>
      inr (Some (Ret (mkHostCallOutput (mo_exit_condition out) (pc vm) (gas vm)
                        (get_registers vm) (mem vm) x), (x, vm)))
  | ExitReason.resume =>
      let vm := set_status ExitReason.resume vm in
      match next_instruction vm with
      | (Ret _, vm) => inl (pc vm, gas_limit, x, vm)
      | (Raise e, vm) => inr (Some (Raise e, (x, vm)))
      end
  | ExitReason.halt | ExitReason.panic | ExitReason.out_of_gas =>
      inr (Some (Ret (mkHostCallOutput (mo_exit_condition out) (final_counter reason vm) gas_limit
                        (mo_registers out) (mo_memory out) x), (x, vm)))
  | ExitReason.host_halt => inr (Some (Raise PyException, (x, vm)))
  end.

(** One turn of the loop. *)
Definition host_call_body (s : host_state) : host_state + host_result :=
  let '(instruction_counter, gas_limit, x, vm) := s in
  match invoke instruction_counter gas_limit vm with
  | None => inr None
  | Some (Raise e, vm) => inr (Some (Raise e, (x, vm)))
  | Some (Ret _, vm) =>
      match get_exit_condition vm with
      | (Raise e, vm) => inr (Some (Raise e, (x, vm)))
      | (Ret exit_condition, vm) =>
          match ec_reason exit_condition, ec_value exit_condition with
          | ExitReason.host_halt, EInt nr =>
              match execute nr (gas vm) (get_registers vm) x vm with
              | (Raise e, (x, vm)) => inr (Some (Raise e, (x, vm)))
              | (Ret out, (x, vm)) => after_host_call out x vm
              end
          | ExitReason.host_halt, _ => inr (Some (Raise PyException, (x, vm)))
          | ExitReason.resume, _ => inl (instruction_counter, gas_limit, x, vm)
          | reason, _ =>
              inr (Some (Ret (mkHostCallOutput exit_condition (final_counter reason vm) (gas vm)
                                (get_registers vm) (mem vm) x), (x, vm)))
          end
      end
  end.

(** The number of calls is bounded by the gas ([pvm_invoke_host_call_total]). *)
Definition pvm_invoke_host_call (instruction_counter gas_limit : Z) (x : X) (vm : VM) : host_result :=
  match ploop (invoke_fuel (vm_code vm) gas_limit) host_call_body
          (instruction_counter, gas_limit, x, vm) with
  | inr r => r
  | inl _ => None
  end.
End host_call.

(** ** [pvm_invoke_marshalling] *)

(** [PvmMarshallingOutput] *)
Record PvmMarshallingOutput (X : Type) : Type := mkMarshalling {
  pm_gas_used : Z;
  pm_exit_condition : ExitCondition;
  pm_context : X
}.
Arguments mkMarshalling {X}.
Arguments pm_gas_used {X}.
Arguments pm_exit_condition {X}.
Arguments pm_context {X}.

Definition pvm_invoke_marshalling {J} `{JamCodec J} {X} `{InvocationMutator X}
  (serialized_program : bytes) (start_offset gas_limit : Z) (argument_data : bytes) (x : X)
  : option (outcome exn (PvmMarshallingOutput X)) :=
  match from_serialized_bytes serialized_program argument_data with
  | Raise e => Some (Raise e)
  | Ret None => Some (Ret (mkMarshalling 0 (mkExit ExitReason.panic ENone) x))
  | Ret (Some p) =>
      match new_interpreter p with
      | Raise e => Some (Raise e)
      | Ret vm =>
          match pvm_invoke_host_call start_offset gas_limit x vm with
          | None => None
          | Some (Raise e, _) => Some (Raise e)
          | Some (Ret output, _) =>
              let exit_condition :=
                match ec_reason (hc_exit_condition output) with
                | ExitReason.halt | ExitReason.out_of_gas => hc_exit_condition output
                | _ => mkExit ExitReason.panic ENone
                end in
              Some (Ret (mkMarshalling (gas_limit - Z.max (hc_gas_limit output) 0) exit_condition
                           (hc_context output)))
          end
      end
  end.

(** * Properties *)

Lemma halt_output_bytes m w7 w8 out : mem_wf m -> halt_output m w7 w8 out -> List.Forall is_byte out.
Proof.
  intros [Hm _] [(_ & _ & _ & ->)|[_ ->]]; [|done]. apply List.Forall_map, List.Forall_forall. intros a _. apply Hm.
Qed.

Section laws.
Context {X : Type} `{InvocationMutator X} `{!MutatorLaws X}.
Context (c : Code) (Hvalid : code_valid c = true).
(** What may be committed and spent together. *)
Context (budget : Z).

(** Between two calls. *)
Record host_inv (g0 : Z) (s : host_state (X := X)) : Prop := {
  hi_ctx : ctx_ok s.1.2 (bounds (mem s.2));
  hi_code : vm_code s.2 = c;
  hi_ready : ready s.2;
  hi_pc : is_Some (inst_pos c !! s.1.1.1);
  hi_gas : 0 <= s.1.1.2 <= g0;
  hi_paid : committed s.1.2 + s.1.1.2 <= budget
}.

Definition host_potential (s : host_state (X := X)) : Z :=
  potential s.2 s.1.1.2 (current_block_start s.2) s.1.1.1.

(** How the loop ends: the status of the machine or of the mutator, never a
    request to go on; or an exception of the mutator. *)
Definition host_done (g0 : Z) (r : host_result (X := X)) : Prop :=
  exists o x vm', r = Some (o, (x, vm')) /\ ctx_ok x (bounds (mem vm')) /\ vm_code vm' = c /\ ready vm' /\
    match o with
    | Raise e => may_raise e
    | Ret out =>
        hc_context out = x /\
        (hc_gas_limit out <= g0 /\ committed x + Z.max 0 (hc_gas_limit out) <= budget) /\ halt_data (hc_exit_condition out) /\
        match ec_reason (hc_exit_condition out) with
        | ExitReason.resume | ExitReason.host_halt => False
        | ExitReason.halt | ExitReason.panic => True
        | _ => is_Some (inst_pos c !! hc_instruction_counter out)
        end
    end.

Lemma ready_set_status vm st : ready vm -> ready (set_status st vm).
Proof using. intros [Hc Hr Hm]. by split. Qed.

Lemma host_call_turn g0 s :
  g0 < 2 ^ 64 -> host_inv g0 s ->
  match host_call_body s with
  | inl s' => host_inv g0 s' /\ host_potential s' < host_potential s
  | inr r => host_done g0 r
  end.
Proof using MutatorLaws0 Hvalid.
  destruct s as [[[counter g] x] vm]. intros Hg0 [Hx Hc Hr Hp Hg Hpay]. cbn in Hx, Hc, Hr, Hp, Hg, Hpay.
  unfold host_call_body.
  destruct (invoke_spec vm counter g Hr) as (vm1 & -> & Hr1 & Hex & Hc1 & Hp1 & Hg1 & _ & _ & Hb1 & Hpot);
    [by rewrite Hc|by rewrite Hc|lia|].
  pose proof (rd_regs _ Hr1) as Hregs.
  destruct (exit_condition_spec vm1 Hregs Hex) as (value & a & -> & Hval).
  set (vm2 := put_mem _ _).
  assert (vm_code vm2 = c) as Hc2 by (cbn; by rewrite Hc1).
  assert (ready vm2) as Hr2 by (destruct Hr1 as [? ? []]; by split).
  assert (ctx_ok x (bounds (mem vm2))) as Hx2.
  { change (bounds (mem vm2)) with (bounds (mem vm1)). by rewrite Hb1. }
  rewrite Hc in Hc1, Hp1.
  assert (pc vm2 = pc vm1 /\ gas vm2 = gas vm1 /\ current_block_start vm2 = current_block_start vm1)
    as (Hpc2 & Hgas2 & Hb2) by done. clearbody vm2.
  cbn [ec_reason ec_value].
  destruct (status vm1) eqn:Hst; unfold exit_ok in Hex; rewrite Hst in Hex;
    try done;
    try (eexists _, x, vm2; split; [reflexivity|]; do 3 (split; [done|]); cbn;
         rewrite ?Hpc2, ?Hgas2; split; [done|]; split; [lia|]; split; [|done];
         intros Hhalt; try done; destruct Hval as (? & ? & bs & _ & _ & -> & Hout); exists bs;
         exact (conj eq_refl (halt_output_bytes _ _ _ _ (rd_mem _ Hr1) Hout))).
  (* a host call *)
  destruct Hval as (nr & Hv & -> & _). destruct Hex as (_ & Hpaid & Hop & _).
  unfold get_registers.
  destruct (execute_ok nr x vm2 Hx2 Hr2) as (r & x' & vm3 & -> & Hx3 & Hr3 & Hc3 & Hpc3 & Hb3 & Hgas3 & Hres);
    [rewrite Hgas2; lia|]. rewrite Hgas2 in Hres. rewrite Hc2 in Hc3.
  destruct r as [out|e]; [|by exists (Raise e), x', vm3].
  destruct Hres as ((Hnh & Hnf) & (Hle & Hcom) & Hres & Hdata). unfold after_host_call.
  destruct (ec_reason (mo_exit_condition out)) eqn:Hreason; try done;
    try (eexists _, x', vm3; split; [reflexivity|]; do 3 (split; [done|]);
         cbn; rewrite Hreason; cbn; rewrite ?Hpc3, ?Hpc2; split; [done|]; split; [lia|]; by split).
  pose proof (Hres eq_refl) as Hgo.
  pose proof (rd_code _ Hr1) as Hcode. rewrite Hc1 in Hcode. specialize (Hcode Hvalid).
  destruct (next_instruction_spec (set_status ExitReason.resume vm3)) as (vm4 & -> & Hlt & Hp4 & Hkeep4 & _);
    cbn [vm_code set_status pc]; rewrite ?Hc3, ?Hpc3, ?Hpc2; try done; [by rewrite <-Hc1|].
  cbn [vm_code set_status pc] in Hlt, Hp4, Hkeep4. rewrite Hc3 in Hp4.
  destruct Hkeep4 as (Hc4 & Hr4 & Hm4 & Hb4). cbn in Hc4, Hr4, Hm4, Hb4.
  split.
  - split; cbn; [by rewrite Hm4|congruence| |by rewrite <-Hc3, Hc3|lia|lia].
    destruct Hr3 as [Hcc Hreg3 Hm3]. split; [by rewrite Hc4|by unfold regs_ok in *; rewrite Hr4|by rewrite Hm4].
  - unfold host_potential. cbn. unfold potential in *. rewrite Hc in Hpot.
    rewrite Hc4, Hc3, Hc, Hb4, Hb3, Hb2.
    unfold gas_paid in Hpaid. destruct (current_block_start vm1) as [b|]; [|done].
    destruct (decoded_inst c (pc vm4) Hcode Hp4) as [Hr4' _].
    rewrite Hpc3, Hpc2 in Hlt. nia.
Qed.

Lemma invoke_host_call_run pc0 g0 x vm :
  ctx_ok x (bounds (mem vm)) -> vm_code vm = c -> ready vm -> is_Some (inst_pos c !! pc0) -> 0 <= g0 < 2 ^ 64 ->
  committed x + g0 <= budget ->
  host_done g0 (pvm_invoke_host_call pc0 g0 x vm).
Proof using MutatorLaws0 Hvalid.
  intros Hx Hc Hr Hp Hg Hpay. unfold pvm_invoke_host_call.
  pose proof (rd_code _ Hr) as Hcode. rewrite Hc in Hcode. specialize (Hcode Hvalid).
  destruct (ploop_total (host_inv g0) (host_done g0) host_potential host_call_body)
    with (p := invoke_fuel (vm_code vm) g0) (s := (pc0, g0, x, vm)) as (r & -> & Hd).
  - intros s [_ Hcs _ Hps Hgs _]. unfold host_potential, potential. rewrite Hcs.
    destruct (decoded_inst _ _ Hcode Hps) as [Hp' _]. destruct (current_block_start _); nia.
  - intros s Hs. apply host_call_turn; [lia|done].
  - split; cbn; [done|done|done|done|lia|done].
  - unfold host_potential, potential, invoke_fuel. cbn. rewrite Hc.
    destruct (decoded_inst _ _ Hcode Hp) as [Hp' _].
    rewrite Z2Pos.id by nia. destruct (current_block_start vm); nia.
  - exact Hd.
Qed.
End laws.

(** A counter that is no instruction, or rejected code, ends the invocation with a
    panic at the first turn. *)
Lemma invoke_host_call_refused {X} `{InvocationMutator X} pc0 g0 (x : X) vm :
  0 <= g0 < 2 ^ 64 -> code_valid (vm_code vm) = false \/ inst_pos (vm_code vm) !! pc0 = None ->
  0 <= code_length (vm_code vm) ->
  exists out vm', pvm_invoke_host_call pc0 g0 x vm = Some (Ret out, (x, vm')) /\
    ec_reason (hc_exit_condition out) = ExitReason.panic /\ hc_gas_limit out = g0 /\
    hc_context out = x.
Proof.
  intros Hg Hbad Hl. unfold pvm_invoke_host_call.
  assert (exists n, Pos.to_nat (invoke_fuel (vm_code vm) g0) = S n) as [n Hn].
  { exists (pred (Pos.to_nat (invoke_fuel (vm_code vm) g0))). lia. }
  rewrite ploop_nloop, Hn. cbn [nloop host_call_body].
  destruct (invoke_refused_run vm pc0 g0) as (vm' & -> & Hst & Hv & Hgas & _); [done|done|].
  unfold get_exit_condition. rewrite Hst. cbn. eexists _, vm'. split; [reflexivity|]. by cbn.
Qed.

Lemma invoke_marshalling_run {J} `{JamCodec J} `{!JamCodecLaws J} {X} `{InvocationMutator X}
  `{!MutatorLaws X} serialized pc0 g0 args x :
  (forall b, bounds_ok b -> ctx_ok x b) -> List.Forall is_byte serialized -> List.Forall is_byte args -> 0 <= g0 < 2 ^ 64 ->
  (exists out, pvm_invoke_marshalling serialized pc0 g0 args x = Some (Ret out) /\
    ec_reason (pm_exit_condition out) ∈ [ExitReason.halt; ExitReason.panic; ExitReason.out_of_gas] /\
    0 <= pm_gas_used out <= g0 /\ halt_data (pm_exit_condition out) /\
    (exists b, ctx_ok (pm_context out) b) /\ committed (pm_context out) <= committed x + pm_gas_used out) \/
  (exists e, pvm_invoke_marshalling serialized pc0 g0 args x = Some (Raise e) /\ may_raise e).
Proof.
  intros Hx Hs Ha Hg. unfold pvm_invoke_marshalling.
  destruct (load_program_spec serialized args Hs Ha)
    as [->|(rom & heap & pages & ss & code & sizes & c & m & _ & _ & Hsz & Hm & -> & Hok)].
  { left. eexists; split; [reflexivity|]; cbn; split; [set_solver|split; [lia|split; [done|]]].
    split; [|lia]. exists (Some 0, Some 0, 0). apply Hx. exists 0, 0, 0. split; [done|]. by unfold SIZE. }
  destruct (init_memory_run _ _ _ _ _ Hsz) as (m' & Hm' & _ & _ & _ & _ & _ & Hhb & Hsb & _).
  assert (m' = m) as -> by congruence.
  set (p := pvm_program _ _ _) in *.
  destruct (new_interpreter_spec p Hok) as (vm & -> & Hr & _ & Hmem & Hcode & _ & Hlen).
  assert (ctx_ok x (bounds (mem vm))) as Hx0.
  { rewrite Hmem. cbn. unfold bounds. rewrite Hhb, Hsb. apply Hx. eexists _, _, _. split; [done|].
    pose proof (regions_ordered _ _ _ _ _ Hsz) as (O1 & O2 & O3 & O4 & O5).
    destruct (regions_fit _ _ _ _ _ Hsz) as (F1 & F2 & F3 & F4). apply region_size_nonneg in F1, F2, F3, F4.
    lia. }
  assert (exists o x' vm', pvm_invoke_host_call pc0 g0 x vm = Some (o, (x', vm')) /\ (exists b, ctx_ok x' b) /\
            match o with Ret out => hc_context out = x' /\ (hc_gas_limit out <= g0 /\
                committed x' + Z.max 0 (hc_gas_limit out) <= committed x + g0) /\ halt_data (hc_exit_condition out)
            | Raise e => may_raise e end)
    as (o & x' & vm' & -> & Hx' & Ho).
  { assert (code_valid (vm_code vm) = true /\ is_Some (inst_pos (vm_code vm) !! pc0) \/
            (code_valid (vm_code vm) = false \/ inst_pos (vm_code vm) !! pc0 = None)) as [[Hv Hp]|Hbad].
    { destruct (code_valid (vm_code vm)); [|by right; left].
      destruct (inst_pos (vm_code vm) !! pc0); [by left; split; [|eexists]|by right; right]. }
    - destruct (invoke_host_call_run (vm_code vm) Hv (committed x + g0) pc0 g0 x vm Hx0 eq_refl Hr Hp Hg (Z.le_refl _))
        as (o & x' & vm' & ? & ? & ? & ? & Ho).
      exists o, x', vm'. split; [done|]. split; [by eexists|]. destruct o; [|done]. by destruct Ho as (? & ? & ? & _).
    - destruct (invoke_host_call_refused pc0 g0 x vm Hg Hbad) as (out & vm' & ? & Hpanic & ? & ?);
        [rewrite Hlen; unfold blen; lia|]. exists (Ret out), x, vm'. split; [done|]. split; [by eexists|].
      split; [done|]. split; [lia|]. intros Hhalt. congruence. }
  destruct o as [out|e]; [left|right; by exists e]. destruct Ho as (Hcx & (Hle & Hpay) & Hdata).
  eexists. split; [reflexivity|]. cbn. split; [|split; [lia|split; [|rewrite Hcx; split; [done|lia]]]].
  - destruct (ec_reason (hc_exit_condition out)) eqn:Hre; cbn; rewrite ?Hre; set_solver.
  - by destruct (ec_reason (hc_exit_condition out)).
Qed.

(** ** The properties *)

(** C4: The host-call loop ends, for every mutator that keeps the laws: with the status
    the program or the mutator gave, never a request to go on, and never more gas
    than it started with.  What the context has committed grows by no more than the gas
    used.  The only exceptions that leave it are the mutator's. *)
Theorem pvm_invoke_host_call_total X `{InvocationMutator X} `{!MutatorLaws X} pc0 g0 x vm :
  ctx_ok x (bounds (mem vm)) -> ready vm -> code_valid (vm_code vm) = true ->
  is_Some (inst_pos (vm_code vm) !! pc0) -> 0 <= g0 < 2 ^ 64 ->
  exists o x' vm', pvm_invoke_host_call pc0 g0 x vm = Some (o, (x', vm')) /\
    ctx_ok x' (bounds (mem vm')) /\ ready vm' /\ vm_code vm' = vm_code vm /\
    match o with
    | Raise e => may_raise e
    | Ret out =>
        hc_context out = x' /\
        (hc_gas_limit out <= g0 /\ committed x' + Z.max 0 (hc_gas_limit out) <= committed x + g0) /\
        halt_data (hc_exit_condition out) /\
        match ec_reason (hc_exit_condition out) with
        | ExitReason.resume | ExitReason.host_halt => False
        | ExitReason.halt | ExitReason.panic => True
        | _ => is_Some (inst_pos (vm_code vm) !! hc_instruction_counter out)
        end
    end.
Proof.
  intros Hx Hr Hv Hp Hg.
  destruct (invoke_host_call_run (vm_code vm) Hv (committed x + g0) pc0 g0 x vm Hx eq_refl Hr Hp Hg (Z.le_refl _))
    as (o & x' & vm' & ? & ? & ? & ? & ?). by exists o, x', vm'.
Qed.

(** Marshalling, for any program of bytes, any start and any gas: a halt, a panic
    or out of gas, with gas used between nothing and the limit and a valid context.
    A program that could not be loaded panics for free.  The only exceptions that
    leave it are the mutator's. *)
Theorem pvm_invoke_marshalling_total {J} `{JamCodec J} `{!JamCodecLaws J} {X} `{InvocationMutator X}
  `{!MutatorLaws X} serialized pc0 g0 args x :
  (forall b, bounds_ok b -> ctx_ok x b) -> List.Forall is_byte serialized -> List.Forall is_byte args -> 0 <= g0 < 2 ^ 64 ->
  (exists out, pvm_invoke_marshalling serialized pc0 g0 args x = Some (Ret out) /\
    ec_reason (pm_exit_condition out) ∈ [ExitReason.halt; ExitReason.panic; ExitReason.out_of_gas] /\
    0 <= pm_gas_used out <= g0 /\ halt_data (pm_exit_condition out) /\
    (exists b, ctx_ok (pm_context out) b) /\ committed (pm_context out) <= committed x + pm_gas_used out) \/
  (exists e, pvm_invoke_marshalling serialized pc0 g0 args x = Some (Raise e) /\ may_raise e).
Proof. apply invoke_marshalling_run. Qed.
