(* ===== verification/HostCalls.v ===== *)
(** * Host calls: the general ones and their gas

    [hostcalls/__init__.py] (the decorator [hostcall]), [hostcalls/gas.py],
    [hostcalls/constants.py], [hostcalls/debug.py] and, of [hostcalls/general.py],
    [hc_grow_heap], [hc_gas], [hc_fetch] and [hc_not_found].

    A host call is a computation of [HC X]: its state [Call X] holds the machine (the
    registers and memory of [InvocationMutationOutput] are the machine's own lists and
    memory object, so writing them is writing the machine), the exit condition and gas
    of the output, and the context of the invocation.  [regs] is the copy of the
    registers the mutator passes ([get_registers]).  Loggers are off
    ([settings.PVM_DEBUGGER] is [None]), so logging has no effect. *)

From Stdlib Require Import ZArith Lia Bool List.
From stdpp Require Import base numbers option list gmap.
From S2P Require Import Prelude Constants Defs MemorySection Memory BasicBlock Machine Interp Program Invocation Graypaper.
Import ListNotations.

#[local] Open Scope Z_scope.
#[local] Open Scope py_scope.

(** ** Result constants *)

Module HostCallResult.
Definition NONE : Z := 2 ^ 64 - 1.
Definition WHAT : Z := 2 ^ 64 - 2.
Definition OOB : Z := 2 ^ 64 - 3.
Definition WHO : Z := 2 ^ 64 - 4.
Definition FULL : Z := 2 ^ 64 - 5.
Definition CORE : Z := 2 ^ 64 - 6.
Definition CASH : Z := 2 ^ 64 - 7.
Definition LOW : Z := 2 ^ 64 - 8.
Definition HUH : Z := 2 ^ 64 - 9.
Definition OK : Z := 0.
End HostCallResult.

Module InnerPVMResult.
Definition HALT : Z := 0.
Definition PANIC : Z := 1.
Definition FAULT : Z := 2.
Definition HOST : Z := 3.
Definition OOG : Z := 4.
End InnerPVMResult.

Definition U32_MAX : Z := 2 ^ 32.
Definition U64_MAX : Z := 2 ^ 64.

(** ** The state of a host call *)

Record Call (X : Type) : Type := mkCall {
  ca_vm : VM;
  ca_exit : ExitCondition;
  ca_gas : Z;
  ca_ctx : X
}.
Arguments mkCall {X}.
Arguments ca_vm {X}.
Arguments ca_exit {X}.
Arguments ca_gas {X}.
Arguments ca_ctx {X}.

Abbreviation HC X := (eff (Call X) exn).

Section calls.
Context {X : Type}.
Implicit Types (s : Call X).

Definition set_vm (vm : VM) s : Call X := mkCall vm (ca_exit s) (ca_gas s) (ca_ctx s).
Definition set_out_gas (g : Z) s : Call X := mkCall (ca_vm s) (ca_exit s) g (ca_ctx s).
Definition set_ctx (x : X) s : Call X := mkCall (ca_vm s) (ca_exit s) (ca_gas s) x.

(** [invocation_output.exit_condition = ExitCondition(reason=r)] *)
Definition exit_with (r : ExitReason.t) : HC X unit :=
  modify (fun s => mkCall (ca_vm s) (mkExit r ENone) (ca_gas s) (ca_ctx s)).

(** [registers[i]] of the copy *)
Definition register (regs : list Z) (i : Z) : HC X Z :=
  match py_index regs i with Some v => mret v | None => raise PyException end.

(** [invocation_output.registers[i] = v] *)
Definition put_register (i v : Z) : HC X unit := fun s =>
  match py_set (reg (ca_vm s)) i v with
  | Some l => (Ret tt, set_vm (set_reg_list l (ca_vm s)) s)
  | None => (Raise PyException, s)
  end.

(** An operation of the machine's memory. *)
Definition on_mem {A} (op : eff PVMMemory exn A) : HC X A := fun s =>
  let '(r, m) := op (mem (ca_vm s)) in (r, set_vm (put_mem m (ca_vm s)) s).

(** [memory.is_accessible(a, n, mode)] *)
Definition accessible_mem (a n mode : Z) : HC X bool :=
  on_mem (fun m => (is_accessible a n mode m, m)).

(** ** Gas: [hostcalls/gas.py] *)

Definition gas_cost_for_octets (rate octets : Z) : Z := (rate * octets + 1023) / 1024.

(** [base + sum(...)] over the terms. *)
Fixpoint sum_terms (regs : list Z) (terms : list (Z * Z)) : HC X Z :=
  match terms with
  | [] => mret 0
  | (rate, r) :: terms =>
      octets ← register regs r;
      rest ← sum_terms regs terms;
      mret (gas_cost_for_octets rate octets + rest)
  end.

Definition gas_cost_by_size (base : Z) (terms : list (Z * Z)) (regs : list Z) : HC X Z :=
  total ← sum_terms regs terms; mret (base + total).

Definition gas_cost_by_item_count (base rate count_register : Z) (regs : list Z) : HC X Z :=
  n ← register regs count_register; mret (base + rate * n).

Definition FETCH_COSTS : list (Z * Z) :=
  [(390, 0); (103, 0); (80, 96); (85, 96); (85, 96); (171, 0); (171, 0); (85, 96); (84, 0); (88, 0);
   (111, 0); (317, 0); (250, 0); (95, 96); (287, 400); (355, 344)].

Definition fetch_cost (regs : list Z) : HC X Z :=
  selector ← register regs 10;
  '(base, rate) ← (if (0 <=? selector) && (selector <? 16)
                   then match py_index FETCH_COSTS selector with
                        | Some c => mret c
                        | None => raise PyException
                        end
                   else mret (80, 0) : HC X (Z * Z));
  octets ← register regs 9;
  mret (base + gas_cost_for_octets rate octets).

Definition pages_cost (regs : list Z) : HC X Z :=
  count ← register regs 9;
  mode ← register regs 10;
  mret (if mode =? 0 then 212 + 118 * count
        else if (mode =? 1) || (mode =? 2) then 275 + 121 * count
        else if (mode =? 3) || (mode =? 4) then 130 + 29 * count
        else 80).

Definition invoke_cost (regs : list Z) : HC X Z :=
  offset ← register regs 8;
  ok ← accessible_mem offset 112 MEM_W;
  requested ← (if ok : bool then bs ← on_mem (read_bytes offset 8 None); mret (le_int bs)
               else mret 0 : HC X Z);
  mret (968 + requested).

(** The decorator: charge, then run unless the gas is exhausted. *)
Definition hostcall (cost_method : list Z -> HC X Z) (func : list Z -> HC X unit) (regs : list Z)
  : HC X unit :=
  gas_cost ← cost_method regs;
  modify (fun s => set_out_gas (ca_gas s - gas_cost) s) ≫= fun _ =>
  g ← gets ca_gas;
  if g <? 0 then exit_with ExitReason.out_of_gas else func regs.

(** [@hostcall(n)] *)
Definition fixed_cost (n : Z) (_ : list Z) : HC X Z := mret n.

(** ** General host calls *)

Definition GAS_QUERY_COST : Z := 48.

Definition hc_gas : list Z -> HC X unit :=
  hostcall (fixed_cost GAS_QUERY_COST) (fun _ =>
    g ← gets ca_gas;
    put_register 7 g ≫= fun _ =>
    exit_with ExitReason.resume).

(** [hc_not_found]: charges without the decorator, and answers even when the gas is
    exhausted. *)
Definition hc_not_found : HC X unit :=
  modify (fun s => set_out_gas (ca_gas s - 1000) s) ≫= fun _ =>
  g ← gets ca_gas;
  exit_with (if g <? 0 then ExitReason.out_of_gas else ExitReason.resume) ≫= fun _ =>
  put_register 7 HostCallResult.WHAT.

(** [settings.GP_VERSION == "0.8.0"] with [GP080_GROW_HEAP_OOG_COMPAT] and
    [GP080_GROW_HEAP_STACK_COMPAT]: both are on in the repository. *)
Definition GP080_GROW_HEAP_OOG_COMPAT : bool := true.
Definition GP080_GROW_HEAP_STACK_COMPAT : bool := true.

Definition of_some {A} (o : option A) : HC X A :=
  match o with Some a => mret a | None => raise PyException end.

(** The bounds, in pages, between which the heap may grow. *)
Definition heap_limits (m : PVMMemory) : HC X (Z * Z) :=
  hb ← of_some (heap_base m);
  sb ← of_some (stack_base m);
  let a := hb / PVM_PAGE_SIZE in
  let sb := if GP080_GROW_HEAP_STACK_COMPAT then sb / PVM_INIT_ZONE_SIZE * PVM_INIT_ZONE_SIZE else sb in
  mret (a, (sb - PVM_INIT_ZONE_SIZE) / PVM_PAGE_SIZE).

(** [a + sum(a <= page < b for page in memory.pages_w)] *)
Definition heap_end (a b : Z) (m : PVMMemory) : Z :=
  a + Z.of_nat (size (filter (fun page => a <= page < b) (pages_w m))).

Definition hc_grow_heap (regs : list Z) : HC X unit :=
  m ← gets (fun s => mem (ca_vm s));
  '(a, b) ← heap_limits m;
  let h := heap_end a b m in
  requested_size ← register regs 7;
  gas ← gets ca_gas;
  let query := (requested_size <=? h) || (b <? requested_size) in
  let end_ := if query then h else requested_size in
  let cost := if GP080_GROW_HEAP_OOG_COMPAT then 275 + (end_ - h) * 121
              else 275 + (requested_size - h) * 121 in
  modify (fun s => set_out_gas
    (if GP080_GROW_HEAP_OOG_COMPAT then Z.max 0 (gas - cost)
     else if query then gas - 275 else if gas <? cost then gas else gas - cost) s) ≫= fun _ =>
  if gas <? cost then exit_with ExitReason.out_of_gas
  else
    put_register 7 end_ ≫= fun _ =>
    exit_with ExitReason.resume ≫= fun _ =>
    if query then mret tt
    else on_mem (modify (fun m =>
           set_bounds (change_acl a (end_ - a) (Some MEM_W) m) (heap_base m) (stack_base m)
             (end_ * PVM_PAGE_SIZE))).

(** ** [hc_log] *)

(** Swallow [PVMMemoryError]; decoding errors are caught as well, and the text only
    reaches the logger. *)
Definition try_memory {A} (op : HC X A) (k : HC X unit) : HC X unit := fun s =>
  match op s with
  | (Raise PVMMemoryError, s') => k s'
  | (Raise e, s') => (Raise e, s')
  | (Ret _, s') => k s'
  end.

Definition hc_log : list Z -> HC X unit :=
  hostcall (fixed_cost 1000) (fun regs =>
    _ ← register regs 7;
    r8 ← register regs 8;
    r9 ← register regs 9;
    r10 ← register regs 10;
    r11 ← register regs 11;
    (if (r8 =? 0) || (r9 =? 0) then mret tt
     else try_memory (on_mem (read_bytes r8 r9 None)) (mret tt)) ≫= fun _ =>
    try_memory (on_mem (read_bytes r10 r11 None)) (mret tt) ≫= fun _ =>
    exit_with ExitReason.resume ≫= fun _ =>
    put_register 7 HostCallResult.WHAT).

(** ** Delivering data

    The end shared by [hc_fetch], [hc_lookup] and [hc_historical_lookup]: [v] is the
    data or [None], [inaccessible] that the key could not be read, [f0] and [l0] the
    requested offset and length, [o] the destination. *)
Definition blob_len (v : option bytes) : Z := match v with Some v => blen v | None => 0 end.

Definition deliver (inaccessible : bool) (v : option bytes) (o f0 l0 : Z) : HC X unit :=
  let f := Z.min f0 (blob_len v) in
  let l := Z.min l0 (blob_len v - f) in
  writable ← accessible_mem o l MEM_W;
  if inaccessible || negb writable then exit_with ExitReason.panic
  else
    match v with
    | None => exit_with ExitReason.resume ≫= fun _ => put_register 7 HostCallResult.NONE
    | Some v =>
        exit_with ExitReason.resume ≫= fun _ =>
        put_register 7 (blen v) ≫= fun _ =>
        on_mem (write_bytes o (take (Z.to_nat l) (drop (Z.to_nat f) v)))
    end.
End calls.

(** ** [hc_fetch] *)

(** [x.to_bytes(length=n, byteorder='little')]: [OverflowError] outside the range. *)
Definition to_bytes (n : nat) (x : Z) : outcome exn bytes :=
  if (0 <=? x) && (x <? 256 ^ Z.of_nat n) then Ret (le_bytes n x) else Raise PyException.

Record WorkItem : Type := mkWorkItem {
  wi_service : Z;
  wi_code_hash : bytes;
  wi_refine_gas_limit : Z;
  wi_accumulate_gas_limit : Z;
  wi_export_count : Z;
  wi_payload : bytes;
  wi_import_segments : list (bytes * Z);
  wi_extrinsic : list (bytes * Z)
}.

(** [RC] is the type of refinement contexts. *)
Record WorkPackage (RC : Type) : Type := mkWorkPackage {
  wp_auth_code_host : Z;
  wp_auth_code_hash : bytes;
  wp_context : RC;
  wp_authorization : bytes;
  wp_authorizer_config : bytes;
  wp_items : list WorkItem
}.
Arguments wp_auth_code_host {RC}.
Arguments wp_auth_code_hash {RC}.
Arguments wp_context {RC}.
Arguments wp_authorization {RC}.
Arguments wp_authorizer_config {RC}.
Arguments wp_items {RC}.

(** The encoders of jamcodec that [hc_fetch] calls. *)
Class FetchCodec (RC AI : Type) : Type := {
  U16_encode : Z -> bytes;
  U32_encode : Z -> bytes;
  U64_encode : Z -> bytes;
  VarInt64_encode : Z -> bytes;
  WorkPackage_to_jam_bytes : WorkPackage RC -> bytes;
  context_to_jam_bytes : RC -> bytes;
  AccumulationInput_to_jam_bytes : AI -> bytes;
  (** [Vec(AccumulationInput.to_codec_def()).encode] *)
  AccumulationInputs_encode : list AI -> bytes
}.

Section fetch.
Context {RC AI : Type} `{FetchCodec RC AI} {X : Type}.

Definition serialize_work_item (w : WorkItem) : outcome exn bytes :=
  service ← to_bytes 4 (wi_service w);
  refine_gas ← to_bytes 8 (wi_refine_gas_limit w);
  accumulate_gas ← to_bytes 8 (wi_accumulate_gas_limit w);
  exports ← to_bytes 2 (wi_export_count w);
  imports ← to_bytes 2 (Z.of_nat (length (wi_import_segments w)));
  extrinsics ← to_bytes 2 (Z.of_nat (length (wi_extrinsic w)));
  payload ← to_bytes 4 (blen (wi_payload w));
  Ret (service ++ wi_code_hash w ++ refine_gas ++ accumulate_gas ++ exports ++ imports ++ extrinsics ++ payload).

Fixpoint serialize_work_items (ws : list WorkItem) : outcome exn bytes :=
  match ws with
  | [] => Ret []
  | w :: ws => b ← serialize_work_item w; bs ← serialize_work_items ws; Ret (b ++ bs)
  end.

Definition const_bytes (g : GpConstants) : bytes :=
  U64_encode (MINIMUM_BALANCE_ITEM g) ++ U64_encode (MINIMUM_BALANCE_OCTET g) ++
  U64_encode (MINIMUM_BALANCE_SERVICE g) ++ U16_encode (CORE_COUNT g) ++
  U32_encode (PREIMAGE_EXPUNGE_TIMESLOTS g) ++ U32_encode (EPOCH_TIMESLOTS g) ++
  U64_encode (GAS_ACCUMULATION g) ++ U64_encode (GAS_INVOKE g) ++ U64_encode (GAS_REFINE g) ++
  U64_encode (GAS_TOTAL g) ++ U16_encode (HISTORY g) ++ U16_encode (MAXIMUM_WORK_ITEMS g) ++
  U16_encode (MAXIMUM_DEPENDENCIES_WORK_REPORT g) ++ U16_encode (MAXIMUM_EXTRINSIC_TICKETS g) ++
  U32_encode (MAXIMUM_AGE_LOOKUP_ANCHOR g) ++ U16_encode (MAXIMIM_AUTHORIZATION_POOL_ITEMS g) ++
  U16_encode (SLOT_PERIOD g) ++ U16_encode (MAXIMUM_AUTHORIZATION_QUEUE_ITEMS g) ++
  U16_encode (ROTATION_PERIOD_CORE g) ++ U16_encode (MAXIMUM_NUMBER_EXTRINSICS_WORK_PACKAGE g) ++
  U16_encode (UNAVAILABLE_WORK_REPLACEMENT_PERIOD g) ++ U32_encode (MAXIMUM_SIZE_IS_AUTH_CODE g) ++
  U32_encode (MAXIMUM_SIZE_WORK_PACKAGE g) ++ U32_encode (MAXIMUM_SIZE_SERVICE_CODE g) ++
  U32_encode (MAXIMUM_NUMBER_IMPORTS_WORK_PACKAGE g) ++
  U32_encode (MAXIMUM_SIZE_ENCODED_WORK_REPORT g) ++ U32_encode (SIZE_TRANSFER_MEMO g) ++
  U32_encode (MAXIMUM_NUMBER_EXPORTS_WORK_PACKAGE g) ++ U32_encode (TICKET_SUBMISSION_END_SLOT g).

(** The arguments of [hc_fetch] other than the registers. *)
Record FetchData : Type := mkFetch {
  fd_constants : GpConstants;
  fd_work_package : option (WorkPackage RC);
  fd_entropy : option bytes;
  fd_authorizer_output : option bytes;
  fd_work_item_index : option Z;
  fd_work_item_segs : option (list (list bytes));
  fd_extrinsics : option (list (list bytes));
  fd_accumulation_inputs : option (list AI)
}.

(** [l[i]] where the code has checked [i < len(l)]; Python's [IndexError] otherwise. *)
Definition item {A} (l : list A) (i : Z) : outcome exn A :=
  match py_index l i with Some a => Ret a | None => Raise PyException end.
Definition nth_blob (l : list bytes) (i : Z) : outcome exn (option bytes) :=
  if i <? Z.of_nat (length l) then b ← item l i; Ret (Some b) else Ret None.

(** The chain of [elif]s, by the selector [w10]; a selector whose other conditions
    fail matches no later branch. *)
Definition fetch_data (d : FetchData) (w10 w11 w12 : Z) : outcome exn (option bytes) :=
  match w10 with
  | 0 => Ret (Some (const_bytes (fd_constants d)))
  | 1 => Ret (fd_entropy d)
  | 2 => Ret (fd_authorizer_output d)
  | 3 => match fd_extrinsics d with
         | Some ex => if w11 <? Z.of_nat (length ex) then l ← item ex w11; nth_blob l w12 else Ret None
         | None => Ret None
         end
  | 4 => match fd_extrinsics d, fd_work_item_index d with
         | Some ex, Some i => l ← item ex i; nth_blob l w11
         | _, _ => Ret None
         end
  | 5 => match fd_work_item_segs d with
         | Some segs => if w11 <? Z.of_nat (length segs) then l ← item segs w11; nth_blob l w12 else Ret None
         | None => Ret None
         end
  | 6 => match fd_work_item_segs d, fd_work_item_index d with
         | Some segs, Some i =>
             if i <? Z.of_nat (length segs) then l ← item segs i; nth_blob l w11 else Ret None
         | _, _ => Ret None
         end
  | 7 => Ret (WorkPackage_to_jam_bytes <$> fd_work_package d)
  | 8 => Ret (wp_authorizer_config <$> fd_work_package d)
  | 9 => Ret (wp_authorization <$> fd_work_package d)
  | 10 => Ret ((fun p => context_to_jam_bytes (wp_context p)) <$> fd_work_package d)
  | 11 => match fd_work_package d with
          | Some p => bs ← serialize_work_items (wp_items p);
                      Ret (Some (VarInt64_encode (Z.of_nat (length (wp_items p))) ++ bs))
          | None => Ret None
          end
  | 12 => match fd_work_package d with
          | Some p => if w11 <? Z.of_nat (length (wp_items p))
                      then w ← item (wp_items p) w11; b ← serialize_work_item w; Ret (Some b) else Ret None
          | None => Ret None
          end
  | 13 => match fd_work_package d with
          | Some p => if w11 <? Z.of_nat (length (wp_items p))
                      then w ← item (wp_items p) w11; Ret (Some (wi_payload w)) else Ret None
          | None => Ret None
          end
  | 14 => Ret (AccumulationInputs_encode <$> fd_accumulation_inputs d)
  | 15 => match fd_accumulation_inputs d with
          | Some l => if w11 <? Z.of_nat (length l)
                      then a ← item l w11; Ret (Some (AccumulationInput_to_jam_bytes a)) else Ret None
          | None => Ret None
          end
  | _ => Ret None
  end.

Definition hc_fetch (d : FetchData) : list Z -> HC X unit :=
  hostcall fetch_cost (fun regs =>
    w7 ← register regs 7;
    w8 ← register regs 8;
    w9 ← register regs 9;
    w10 ← register regs 10;
    w11 ← register regs 11;
    w12 ← register regs 12;
    bold_v ← lift (fetch_data d w10 w11 w12);
    deliver false bold_v w7 w8 w9).
End fetch.

(** * Properties *)

(** ** Memory accesses that were checked *)

Lemma set_mem_addr_same m : set_mv (set_mem_addr (mem_addr m) m) (mv m) = m.
Proof. by destruct m. Qed.

Lemma is_accessible_total a n mode m :
  mode = MEM_R \/ mode = MEM_W -> exists b, is_accessible a n mode m = Ret b.
Proof.
  intros Hm. unfold is_accessible. destruct (n =? 0); [by eexists|]. destruct (_ || _); [by eexists|].
  destruct Hm as [->| ->]; cbn; by eexists.
Qed.

Lemma accessible_iff a n mode m :
  0 <= a -> 0 < n -> mode = MEM_R \/ mode = MEM_W ->
  is_accessible a n mode m = Ret true ->
  a + n <= SIZE /\ accessible (if mode =? MEM_W then pages_w m else pages_r m) a n.
Proof.
  intros Ha Hn Hmode. unfold is_accessible. destruct (Z.eqb_spec n 0); [lia|].
  destruct (Z.ltb_spec a 0), (Z.ltb_spec n 0), (Z.ltb_spec SIZE (a + n)); try lia; cbn [orb]; [done|].
  destruct Hmode as [->| ->]; cbn -[_PAGE_SHIFT];
    (intros [= H']; split; [lia|]; by apply is_accessible_accessible).
Qed.

(** A checked write succeeds; so does a checked read of some bytes. *)
Lemma accessible_write a content m :
  0 <= a -> is_accessible a (blen content) MEM_W m = Ret true ->
  exists a', write_bytes a content m = (Ret tt, set_mv (set_mem_addr a' m) (mv_store (mv m) a content)).
Proof.
  intros Ha Hw. destruct content as [|b content]; [exists (mem_addr m); cbn; by rewrite set_mem_addr_same|].
  destruct (accessible_iff a (blen (b :: content)) MEM_W m Ha ltac:(done) ltac:(by right) Hw) as [He Hacc].
  cbn [Z.eqb MEM_W Pos.eqb] in Hacc. unfold blen in *. cbn in He.
  destruct (write_bytes_cases a (b :: content) m) as [[_ ->]|(pg & Hpg & _)]; [lia|done|by exists a|].
  by apply lowest_refused_not in Hpg.
Qed.

Lemma accessible_read a n padding m :
  0 <= a -> 0 < n -> is_accessible a n MEM_R m = Ret true ->
  read_bytes a n padding m = (Ret (pad padding (map (mv_get (mv m)) (py_range a (a + n)))), set_mem_addr a m).
Proof.
  intros Ha Hn Hr. destruct (accessible_iff a n MEM_R m Ha Hn) as [He Hacc]; [by left|done|].
  destruct (read_bytes_spec a n padding m) as [[_ ->]|(pg & Hpg & _)]; [lia|lia|done|].
  by apply lowest_refused_not in Hpg.
Qed.

(** Any read, checked or not: it only records an address, and raises nothing but
    [PVMMemoryError]. *)
Lemma read_bytes_any a n padding m :
  exists r a', read_bytes a n padding m = (r, set_mem_addr a' m) /\
    match r with
    | Ret bs => mem_wf m -> List.Forall is_byte bs
    | Raise e => e = PVMMemoryError
    end.
Proof.
  destruct (decide (0 <= a < SIZE)) as [Ha|Ha].
  - destruct (Z_lt_le_dec 0 n) as [Hn|Hn].
    + destruct (read_bytes_spec a n padding m Ha Hn) as [[_ ->]|(pg & _ & ->)]; eexists _, _; (split; [reflexivity|]); [|done].
      intros [Hm _]. unfold pad. assert (List.Forall is_byte (map (mv_get (mv m)) (py_range a (a + n)))) as Hb.
      { apply List.Forall_map, List.Forall_forall. intros x _. apply Hm. }
      destruct padding as [p|]; [|done]. destruct (_ && _); [|done].
      apply Forall_app. split; [done|]. by apply Forall_replicate.
    + exists (Ret (pad padding [])), a. split.
      * unfold read_bytes. destruct (Z.ltb_spec a 0), (Z.leb_spec SIZE a), (Z.leb_spec n 0); try lia. done.
      * intros _. unfold pad. destruct padding; [|constructor]. destruct (_ && _); [|constructor].
        by apply Forall_replicate.
  - exists (Raise PVMMemoryError), a. split; [|done].
    unfold read_bytes. destruct (Z.ltb_spec a 0), (Z.leb_spec SIZE a); try lia; done.
Qed.

(** ** What a host call keeps *)

(** A register of the copy holds a 64-bit value. *)
Definition registers_ok (regs : list Z) : Prop := length regs = 13%nat /\ List.Forall is_u64 regs.

Section invariant.
Context {X : Type} (C : X -> option Z * option Z * Z -> Prop) (may : exn -> Prop).
Context (vm0 : VM) (g0 : Z).
Implicit Types (s : Call X).

(** The machine's code, counter, block and gas are those of the start, the machine is
    ready and the context valid. *)
Record call_frame s : Prop := {
  cf_code : vm_code (ca_vm s) = vm_code vm0;
  cf_pc : pc (ca_vm s) = pc vm0;
  cf_block : current_block_start (ca_vm s) = current_block_start vm0;
  cf_gas : gas (ca_vm s) = gas vm0;
  cf_ready : ready (ca_vm s);
  cf_ctx : C (ca_ctx s) (bounds (mem (ca_vm s)))
}.

(** While a call runs, its gas is not negative; when it is served, it is not negative
    if the program goes on. *)
Definition call_inv s : Prop :=
  call_frame s /\ 0 <= ca_gas s <= g0 /\
  (ec_reason (ca_exit s) = ExitReason.panic \/ ec_reason (ca_exit s) = ExitReason.resume).

Definition served s : Prop :=
  call_frame s /\ ca_gas s <= g0 /\
  (ec_reason (ca_exit s) = ExitReason.panic \/ ec_reason (ca_exit s) = ExitReason.out_of_gas \/
   (ec_reason (ca_exit s) = ExitReason.resume /\ 0 <= ca_gas s)).

Lemma inv_served s : call_inv s -> served s.
Proof using. intros (? & ? & [?|?]); split; [done|split; [lia|by left]|done|split; [lia|]]. right. right. split; [done|lia]. Qed.

(** [safe m Φ]: [m] keeps the invariant and returns a value satisfying [Φ], or raises
    an admitted exception. *)
Definition safe {A} (m : HC X A) (Φ : A -> Prop) : Prop := forall s,
  call_inv s -> wp m (fun a s' => call_inv s' /\ Φ a) (fun e s' => may e /\ call_inv s') s.

Lemma safe_bind {A B} (m : HC X A) (k : A -> HC X B) Φ Ψ :
  safe m Φ -> (forall a, Φ a -> safe (k a) Ψ) -> safe (m ≫= k) Ψ.
Proof using.
  intros Hm Hk s Hs. apply wp_bind. eapply wp_mono; [by apply Hm| |done].
  intros a s' [Hs' Ha]. by apply Hk.
Qed.

Lemma safe_ret {A} (a : A) (Φ : A -> Prop) : Φ a -> safe (mret a) Φ.
Proof using. by intros Ha s Hs. Qed.

Lemma safe_weaken {A} (m : HC X A) (Φ Ψ : A -> Prop) : safe m Φ -> (forall a, Φ a -> Ψ a) -> safe m Ψ.
Proof using. intros Hm H s Hs. eapply wp_mono; [by apply Hm| |done]. intros a s' []. eauto. Qed.

Lemma safe_lift {A} (o : outcome exn A) (Φ : A -> Prop) :
  match o with Ret a => Φ a | Raise e => may e end -> safe (lift o) Φ.
Proof using. intros Ho s Hs. unfold wp, lift. by destruct o. Qed.

Lemma safe_gets {A} (f : Call X -> A) (Φ : A -> Prop) : (forall s, call_inv s -> Φ (f s)) -> safe (gets f) Φ.
Proof using. intros H s Hs. unfold wp, gets. eauto. Qed.

Lemma safe_exit r (Φ : unit -> Prop) :
  r = ExitReason.panic \/ r = ExitReason.resume -> Φ tt -> safe (exit_with r) Φ.
Proof using.
  intros Hr HΦ s (Hf & Hg & _). unfold wp, exit_with, modify. split; [|done].
  destruct Hf. split; [by split|]. split; [done|]. by destruct Hr as [->| ->]; [left|right].
Qed.

Lemma safe_register regs i (Φ : Z -> Prop) :
  registers_ok regs -> 0 <= i <= 12 ->
  (forall v, is_u64 v -> Φ v) -> safe (register regs i) Φ.
Proof using.
  intros [Hl Hr] Hi HΦ s Hs. unfold register.
  destruct (py_index_Some regs i) as [v Hv]; [lia|]. rewrite Hv. split; [done|]. apply HΦ.
  rewrite py_index_nonneg in Hv by lia. by eapply Forall_lookup_1 in Hr.
Qed.

Lemma put_register_run i v s :
  ready (ca_vm s) -> 0 <= i <= 12 -> is_u64 v ->
  exists l, put_register i v s = (Ret tt, set_vm (set_reg_list l (ca_vm s)) s) /\
    l = <[Z.to_nat i := v]> (reg (ca_vm s)) /\ ready (set_reg_list l (ca_vm s)).
Proof using.
  intros [Hc [Hl Hr] Hm] Hi Hv. unfold put_register. rewrite py_set_nonneg by lia.
  eexists. split; [done|]. split; [done|]. split; [done| |done].
  split; cbn; [by rewrite length_insert|]. by apply Forall_insert.
Qed.

Lemma safe_put_register i v (Φ : unit -> Prop) :
  0 <= i <= 12 -> is_u64 v -> Φ tt -> safe (put_register i v) Φ.
Proof using.
  intros Hi Hv HΦ s (Hf & Hg & He). pose proof Hf as [Hc Hp Hb Hga Hr Hx].
  destruct (put_register_run i v s Hr Hi Hv) as (l & Hrun & _ & Hr'). unfold wp. rewrite Hrun.
  split; [|done]. split; [by split|]. done.
Qed.

(** An operation of the memory that keeps it well formed and its bounds. *)
Lemma safe_on_mem {A} (op : eff PVMMemory exn A) (Φ : A -> Prop) :
  (forall m, mem_wf m -> mem_wf (op m).2 /\ bounds (op m).2 = bounds m /\
     match (op m).1 with Ret a => Φ a | Raise e => may e end) ->
  safe (on_mem op) Φ.
Proof using.
  intros Hop s (Hf & Hg & He). pose proof Hf as [Hc Hp Hb Hga Hr Hx]. pose proof Hr as [Hcc Hrr Hm].
  destruct (Hop _ Hm) as (Hm' & Hb' & Hres). unfold wp, on_mem.
  destruct (op (mem (ca_vm s))) as [r m']. cbn [fst snd] in *.
  assert (call_inv (set_vm (put_mem m' (ca_vm s)) s)).
  { split; [|done]. split; try done. cbn. by rewrite Hb'. }
  by destruct r.
Qed.

Lemma accessible_mem_run a n mode s :
  mode = MEM_R \/ mode = MEM_W ->
  exists b, accessible_mem a n mode s = (Ret b, s) /\ is_accessible a n mode (mem (ca_vm s)) = Ret b.
Proof using.
  intros Hm. destruct (is_accessible_total a n mode (mem (ca_vm s)) Hm) as [b Hb].
  exists b. split; [|done]. unfold accessible_mem, on_mem. rewrite Hb. by destruct s as [[]].
Qed.

Lemma safe_accessible a n mode : mode = MEM_R \/ mode = MEM_W -> safe (accessible_mem a n mode) (fun _ => True).
Proof using.
  intros Hm s Hs. destruct (accessible_mem_run a n mode s Hm) as (b & Hrun & _). unfold wp. by rewrite Hrun.
Qed.

Lemma safe_read a n padding :
  may PVMMemoryError -> safe (on_mem (read_bytes a n padding)) (List.Forall is_byte).
Proof using.
  intros Hmay. apply safe_on_mem. intros m Hm.
  destruct (read_bytes_any a n padding m) as (r & a' & -> & Hr). split; [done|]. split; [done|].
  destruct r; [by apply Hr|by rewrite Hr].
Qed.
End invariant.

(** Data a program can be given: bytes, of a length a register can hold. *)
Definition blob_ok (v : bytes) : Prop := List.Forall is_byte v /\ blen v < 2 ^ 64.
Definition opt_blob_ok (o : option bytes) : Prop := match o with Some v => blob_ok v | None => True end.


(** The slice [deliver] writes. *)
Lemma deliver_slice v f0 l0 :
  0 <= f0 -> 0 <= l0 ->
  let f := Z.min f0 (blen v) in let l := Z.min l0 (blen v - f) in
  blen (take (Z.to_nat l) (drop (Z.to_nat f) v)) = l.
Proof. intros. unfold blen in *. rewrite length_take, length_drop. lia. Qed.

Section served.
Context {X : Type} (C : X -> option Z * option Z * Z -> Prop) (may : exn -> Prop).
Context (vm0 : VM) (g0 : Z).
Implicit Types (s : Call X).
Abbreviation call_inv := (call_inv C vm0 g0).
Abbreviation safe := (safe C may vm0 g0).
Abbreviation served := (served C vm0 g0).

(** [op] is served: it keeps what the host-call loop relies on. *)
Definition serves (op : HC X unit) : Prop := forall s,
  call_inv s -> wp op (fun _ s' => served s') (fun e s' => may e /\ served s') s.

Lemma safe_serves (op : HC X unit) Φ : safe op Φ -> serves op.
Proof using.
  intros Hop s Hs. eapply wp_mono; [by apply Hop| |].
  - intros a s' [Hs' _]. by apply inv_served.
  - intros e s' [? Hs']. split; [done|]. by apply inv_served.
Qed.

Lemma deliver_safe inaccessible v o f0 l0 :
  opt_blob_ok v -> 0 <= o -> 0 <= f0 -> 0 <= l0 -> safe (deliver inaccessible v o f0 l0) (fun _ => True).
Proof using.
  intros Hv Ho Hf Hl s Hs. unfold deliver. apply wp_bind.
  set (f := Z.min f0 _). set (l := Z.min l0 _).
  destruct (accessible_mem_run o l MEM_W s) as (w & Hrun & Hw); [by right|].
  apply (wp_run _ _ _ _ _ _ Hrun). destruct (inaccessible || negb w) eqn:Hno.
  { apply safe_exit; [by left|done|done]. }
  apply orb_false_iff in Hno as [_ Hw'%negb_false_iff]. subst w. destruct v as [v|].
  2: { revert s Hs Hrun Hw. intros s Hs _ _. apply (safe_bind _ _ _ _ _ _ (fun _ => True)); [|intros _ _|done].
       - apply safe_exit; [by right|done].
       - apply safe_put_register; [lia|split; done|done]. }
  cbn [blob_len] in *. destruct Hv as [Hb Hlen]. set (slice := take (Z.to_nat l) (drop (Z.to_nat f) v)).
  assert (blen slice = l) as Hsl by by apply deliver_slice.
  (* the register and the exit condition do not touch memory *)
  destruct Hs as (Hfr & Hg & He). pose proof Hfr as [Hc Hp Hbk Hga Hr Hx].
  apply wp_bind. unfold exit_with. eapply wp_run; [done|].
  set (s1 := mkCall _ _ _ _).
  destruct (put_register_run 7 (blen v) s1 Hr) as (r & Hrun1 & _ & Hr1); [lia|unfold is_u64, blen in *; lia|].
  apply wp_bind. eapply wp_run; [exact Hrun1|].
  unfold wp, on_mem. cbn [mem ca_vm set_vm set_reg_list].
  rewrite <-Hsl in Hw. destruct (accessible_write o slice (mem (ca_vm s)) Ho Hw) as (a' & Hwr).
  subst s1. cbn [ca_vm]. rewrite Hwr. split; [|done].
  assert (List.Forall is_byte slice) as Hbs by by apply Forall_take, Forall_drop.
  pose proof (write_bytes_wf o slice (mem (ca_vm s)) Hbs) as Hwf. rewrite Hwr in Hwf. cbn [snd] in Hwf.
  split; [|split; [done|by right]]. destruct Hr1 as [Hcc Hrr Hm]. split; cbn in *; try done.
  split; cbn; [done|done|]. by apply Hwf.
Qed.

(** The decorator. *)
Lemma hostcall_serves cost func regs :
  safe (cost regs) (fun c => 0 <= c) -> serves (func regs) -> serves (hostcall cost func regs).
Proof using.
  intros Hc Hf s Hs. unfold hostcall. apply wp_bind.
  eapply wp_mono; [by apply Hc| |intros e s' [? Hs']; split; [done|by apply inv_served]].
  intros c s' [(Hfr & Hg & He) Hpos]. apply wp_bind. eapply wp_run; [done|].
  apply wp_bind. eapply wp_run; [done|]. cbn [ca_gas set_out_gas].
  assert (call_frame C vm0 (set_out_gas (ca_gas s' - c) s')) as Hfr' by (destruct Hfr; by split).
  destruct (Z.ltb_spec (ca_gas s' - c) 0).
  - unfold wp, exit_with, modify. split; [destruct Hfr'; by split|]. split; [cbn; lia|]. right. by left.
  - apply Hf. split; [done|]. split; [cbn; lia|done].
Qed.

Lemma fixed_cost_safe n regs : 0 <= n -> safe (fixed_cost n regs) (fun c => 0 <= c).
Proof using. intros Hn. by apply safe_ret. Qed.

Lemma gas_cost_for_octets_nonneg rate octets : 0 <= rate -> 0 <= octets -> 0 <= gas_cost_for_octets rate octets.
Proof using. intros. unfold gas_cost_for_octets. apply Z.div_pos; nia. Qed.

Lemma sum_terms_safe regs terms :
  registers_ok regs -> List.Forall (fun t => 0 <= t.1 /\ 0 <= t.2 <= 12) terms ->
  safe (sum_terms regs terms) (fun c => 0 <= c).
Proof using.
  intros Hr Ht. induction Ht as [|[rate r] terms [Hrate Hreg] _ IH]; [by apply safe_ret|].
  cbn [sum_terms]. apply (safe_bind _ _ _ _ _ _ is_u64).
  { apply safe_register; [done|done|by intros]. }
  intros o Ho. apply (safe_bind _ _ _ _ _ _ _ _ IH). intros rest Hrest.
  apply safe_ret. pose proof (gas_cost_for_octets_nonneg rate o). unfold is_u64 in Ho. cbn in *. lia.
Qed.

Lemma by_size_safe base terms regs :
  registers_ok regs -> 0 <= base -> List.Forall (fun t => 0 <= t.1 /\ 0 <= t.2 <= 12) terms ->
  safe (gas_cost_by_size base terms regs) (fun c => 0 <= c).
Proof using.
  intros Hr Hb Ht. eapply safe_bind; [by apply sum_terms_safe|]. intros c Hc. cbn in Hc. apply safe_ret. lia.
Qed.

Lemma pages_cost_safe regs : registers_ok regs -> safe (pages_cost regs) (fun c => 0 <= c).
Proof using.
  intros Hr. unfold pages_cost. apply (safe_bind _ _ _ _ _ _ is_u64).
  { apply safe_register; [done|lia|by intros]. }
  intros n Hn. apply (safe_bind _ _ _ _ _ _ is_u64); [apply safe_register; [done|lia|by intros]|].
  intros m _. apply safe_ret. unfold is_u64 in Hn.
  destruct (m =? 0); [lia|]. destruct (_ || _); [lia|]. destruct (_ || _); lia.
Qed.

Lemma fetch_cost_safe regs : registers_ok regs -> safe (fetch_cost regs) (fun c => 0 <= c).
Proof using.
  intros Hr. unfold fetch_cost. apply (safe_bind _ _ _ _ _ _ is_u64).
  { apply safe_register; [done|lia|by intros]. }
  intros sel Hsel. apply (safe_bind _ _ _ _ _ _ (fun br : Z * Z => 0 <= br.1 /\ 0 <= br.2)).
  - destruct (Z.leb_spec 0 sel), (Z.ltb_spec sel 16); cbn [andb]; try by apply safe_ret.
    destruct (py_index FETCH_COSTS sel) as [c|] eqn:Hc.
    + apply safe_ret. rewrite py_index_nonneg in Hc by done.
      assert (List.Forall (fun br : Z * Z => 0 <= br.1 /\ 0 <= br.2) FETCH_COSTS) as Hall
        by (repeat constructor; cbn; lia).
      by eapply Forall_lookup_1 in Hall.
    + destruct (py_index_Some FETCH_COSTS sel) as [c Hc']; [cbn; lia|]. congruence.
  - intros [base rate] [Hb Hra]. apply (safe_bind _ _ _ _ _ _ is_u64).
    { apply safe_register; [done|lia|by intros]. }
    intros o Ho. apply safe_ret. pose proof (gas_cost_for_octets_nonneg rate o). unfold is_u64 in Ho. cbn in *. lia.
Qed.
End served.

(** ** The general host calls are served *)

(** What the general calls ask of the context: the bounds of the memory are those of
    a loaded program, and growing the heap keeps it valid. *)
Definition ctx_bounds {X} (C : X -> option Z * option Z * Z -> Prop) : Prop :=
  (forall x b, C x b -> bounds_ok b) /\
  (forall x hb sb hp hp', C x (hb, sb, hp) -> C x (hb, sb, hp')).

Section general.
Context {X : Type} (C : X -> option Z * option Z * Z -> Prop) (may : exn -> Prop) (Hbnd : ctx_bounds C).
Context (vm0 : VM) (g0 : Z) (regs : list Z) (Hregs : registers_ok regs).
Implicit Types (s : Call X).
Abbreviation call_inv := (call_inv C vm0 g0).
Abbreviation safe := (safe C may vm0 g0).
Abbreviation served := (served C vm0 g0).
Abbreviation serves := (serves C may vm0 g0).

Lemma safe_reg {A} i (k : Z -> HC X A) Φ :
  0 <= i <= 12 -> (forall v, is_u64 v -> safe (k v) Φ) -> safe (register regs i ≫= k) Φ.
Proof using Hregs.
  intros Hi Hk. apply (safe_bind _ _ _ _ _ _ is_u64); [|done]. by apply safe_register.
Qed.

Lemma safe_seq {A} (m : HC X unit) (k : unit -> HC X A) Φ :
  safe m (fun _ => True) -> safe (k tt) Φ -> safe (m ≫= k) Φ.
Proof using. intros Hm Hk. by apply (safe_bind _ _ _ _ _ _ _ _ Hm); intros []. Qed.

Lemma safe_answer r i v :
  r = ExitReason.panic \/ r = ExitReason.resume -> 0 <= i <= 12 -> is_u64 v ->
  safe (exit_with r ≫= fun _ => put_register i v) (fun _ => True).
Proof using. intros. apply safe_seq; [by apply safe_exit|by apply safe_put_register]. Qed.

(** Inside the budget of a register, when the gas given is one. *)
Lemma hc_gas_serves : g0 < 2 ^ 64 -> serves (hc_gas regs).
Proof using.
  intros Hg0. apply hostcall_serves; [by apply fixed_cost_safe|].
  apply (safe_serves _ _ _ _ _ (fun _ => True)).
  apply (safe_bind _ _ _ _ _ _ is_u64).
  { apply safe_gets. intros s (_ & Hg & _). unfold is_u64. lia. }
  intros g Hg. apply safe_seq; [by apply safe_put_register|].
  apply safe_exit; [by right|done].
Qed.

Lemma hc_not_found_serves : serves hc_not_found.
Proof using.
  intros s (Hfr & Hg & He). pose proof Hfr as [Hc Hp Hb Hga Hr Hx]. unfold hc_not_found.
  apply wp_bind. eapply wp_run; [done|]. apply wp_bind. eapply wp_run; [done|].
  apply wp_bind. unfold exit_with. eapply wp_run; [done|]. set (s1 := mkCall _ _ _ _).
  destruct (put_register_run 7 HostCallResult.WHAT s1 Hr) as (l & Hrun & _ & Hr'); [lia|done|].
  eapply wp_run; [exact Hrun|]. split; [by split|]. split; [cbn; lia|]. cbn.
  destruct (Z.ltb_spec (ca_gas s - 1000) 0); cbn; [right; by left|right; right]. split; [done|lia].
Qed.

Lemma try_read_safe a n (k : HC X unit) Φ :
  safe k Φ -> safe (try_memory (on_mem (read_bytes a n None)) k) Φ.
Proof using.
  intros Hk s Hs. unfold wp, try_memory, on_mem.
  destruct (read_bytes_any a n None (mem (ca_vm s))) as (r & a' & -> & Hr).
  assert (call_inv (set_vm (put_mem (set_mem_addr a' (mem (ca_vm s))) (ca_vm s)) s)) as Hs'.
  { destruct Hs as ([Hc Hp Hb Hga Hrd Hx] & Hg & He). destruct Hrd. split; [by split|done]. }
  destruct r as [bs|e]; [|subst e]; by apply Hk.
Qed.

Lemma hc_log_serves : serves (hc_log regs).
Proof using Hregs.
  apply hostcall_serves; [by apply fixed_cost_safe|].
  apply (safe_serves _ _ _ _ _ (fun _ => True)).
  do 5 (apply safe_reg; [lia|intros ? ?]).
  apply safe_seq.
  { destruct (_ || _); [by apply safe_ret|]. by apply try_read_safe, safe_ret. }
  apply safe_seq; [by apply try_read_safe, safe_ret|].
  apply safe_answer; [by right|lia|done].
Qed.

(** The number of pages the heap has lies between the limits. *)
Lemma heap_end_range a b m : a <= heap_end a b m <= Z.max a b.
Proof using.
  unfold heap_end. pose proof (size_between (filter (fun page => a <= page < b) (pages_w m)) a b) as Hs.
  split; [lia|].
  assert (Z.of_nat (size (filter (fun page => a <= page < b) (pages_w m))) <= Z.max 0 (b - a)); [|lia].
  apply Hs. intros x [Hx _]%elem_of_filter. done.
Qed.

(** The outcome of [hc_grow_heap], from the bounds [a], [b] and the end [h] of the
    heap in pages, the request and the gas. *)
Definition grow_result (a b req : Z) s s' : Prop :=
  let m := mem (ca_vm s) in
  let h := heap_end a b m in
  let grows := (h <? req) && (req <=? b) in
  let end_ := if grows then req else h in
  let cost := 275 + (end_ - h) * 121 in
  if ca_gas s <? cost then
    s' = mkCall (ca_vm s) (mkExit ExitReason.out_of_gas ENone) 0 (ca_ctx s)
  else
    s' = mkCall (put_mem
                   (if grows then set_bounds (change_acl a (end_ - a) (Some MEM_W) m) (heap_base m)
                                    (stack_base m) (end_ * PVM_PAGE_SIZE) else m)
                   (set_reg_list (<[7%nat := end_]> (reg (ca_vm s))) (ca_vm s)))
           (mkExit ExitReason.resume ENone) (ca_gas s - cost) (ca_ctx s).

Lemma limit_range hb sb :
  0 <= hb <= SIZE -> sb <= SIZE ->
  (sb / 65536 * 65536 - 65536) / 4096 <= 1048576 /\ 0 <= hb / 4096 <= 1048576.
Proof using.
  change SIZE with (1048576 * 4096). intros Hhb Hsb. pose proof (Z.mul_div_le sb 65536 ltac:(lia)).
  split; [apply Z.div_le_upper_bound; lia|].
  split; [apply Z.div_pos; lia|apply Z.div_le_upper_bound; lia].
Qed.

Lemma put_mem_same vm : put_mem (mem vm) vm = vm.
Proof using. by destruct vm. Qed.

Lemma grow_heap_run hb sb hp req s :
  ready (ca_vm s) -> bounds (mem (ca_vm s)) = (Some hb, Some sb, hp) ->
  0 <= hb <= SIZE -> sb <= SIZE -> 0 <= ca_gas s -> regs !! 7%nat = Some req -> is_u64 req ->
  exists s', hc_grow_heap regs s = (Ret tt, s') /\
    grow_result (hb / 4096) ((sb / 65536 * 65536 - 65536) / 4096) req s s'.
Proof using Hregs.
  intros Hr Hb Hhb Hsb Hg Hreq Hu. set (a := hb / 4096). set (b := (_ - 65536) / 4096).
  unfold bounds in Hb. injection Hb as Hhb' Hsb' _.
  unfold hc_grow_heap, register. rewrite py_index_nonneg by lia. change (Z.to_nat 7) with 7%nat. rewrite Hreq.
  rewrite eff_bind_run. unfold gets at 1. cbn beta iota. rewrite eff_bind_run.
  unfold heap_limits, of_some. rewrite Hhb', Hsb'. autorewrite with eff.
  unfold GP080_GROW_HEAP_STACK_COMPAT, GP080_GROW_HEAP_OOG_COMPAT.
  change PVM_INIT_ZONE_SIZE with 65536. change (hb / PVM_PAGE_SIZE) with a.
  change ((sb / 65536 * 65536 - 65536) / PVM_PAGE_SIZE) with b. cbv beta iota zeta.
  unfold grow_result. set (h := heap_end a b (mem (ca_vm s))).
  assert (a <= h <= Z.max a b) as Hh by apply heap_end_range.
  assert (b <= 1048576 /\ 0 <= a <= 1048576) as [Hbb Haa].
  { subst a b. by apply limit_range. }
  assert (((req <=? h) || (b <? req)) = negb ((h <? req) && (req <=? b))) as ->.
  { destruct (Z.leb_spec req h), (Z.ltb_spec b req), (Z.ltb_spec h req), (Z.leb_spec req b); cbn; try done; lia. }
  set (grows := _ && _). assert (forall x y : Z, (if negb grows then x else y) = (if grows then y else x)) as Hneg
    by by destruct grows.
  rewrite Hneg. set (end_ := if grows then req else h).
  assert (h <= end_ <= Z.max a b) as He.
  { subst end_ grows. destruct (Z.ltb_spec h req), (Z.leb_spec req b); cbn [andb]; lia. }
  autorewrite with eff. cbn [ca_gas set_out_gas].
  destruct (Z.ltb_spec (ca_gas s) (275 + (end_ - h) * 121)) as [Hlt|Hge].
  { eexists. split; [reflexivity|]. cbn. by rewrite Z.max_l by lia. }
  destruct (put_register_run 7 end_ (set_out_gas (Z.max 0 (ca_gas s - (275 + (end_ - h) * 121))) s) Hr)
    as (l & Hrun & -> & Hr'); [lia|unfold is_u64; lia|].
  rewrite eff_bind_run, Hrun. unfold exit_with. autorewrite with eff.
  rewrite Z.max_r by lia. change (Z.to_nat 7) with 7%nat.
  destruct grows; cbn [negb]; eexists; (split; [reflexivity|]); cbn; [done|].
  by rewrite <-put_mem_same at 1.
Qed.

Lemma set_acl_range_bounds lo hi acl m : bounds (set_acl_range lo hi acl m) = bounds m.
Proof using.
  unfold set_acl_range. revert m. induction (py_range lo hi) as [|pg l IH]; intros m; [done|].
  cbn [fold_left]. rewrite IH. unfold set_acl. by destruct (_ =? MEM_I).
Qed.

Lemma hc_grow_heap_serves : serves (hc_grow_heap regs).
Proof using Hregs Hbnd.
  intros s Hs. pose proof Hs as (Hfr & Hg & He). pose proof Hfr as [Hc Hp Hb Hga Hr Hx].
  destruct (proj1 Hbnd _ _ Hx) as (hb & sb & hp & Hbs & Hhb & Hsb).
  destruct Hregs as [Hl Hall]. destruct (lookup_lt_is_Some_2 regs 7) as [req Hreq]; [lia|].
  pose proof (Forall_lookup_1 _ _ _ _ Hall Hreq) as Hu.
  destruct (grow_heap_run hb sb hp req s Hr Hbs Hhb Hsb (proj1 Hg) Hreq Hu) as (s' & Hrun & Hres).
  unfold wp. rewrite Hrun. clear Hrun. revert Hres. unfold grow_result.
  set (h := heap_end _ _ _). set (grows := _ && _). set (end_ := if grows then req else h).
  assert (h <= end_) as Hle.
  { subst end_ grows. destruct (Z.ltb_spec h req), (_ <=? _); cbn [andb]; lia. }
  destruct (Z.ltb_spec (ca_gas s) (275 + (end_ - h) * 121)) as [Hlt|Hge]; intros ->.
  { split; [by split|]. split; [cbn; lia|]. right. by left. }
  assert (is_u64 end_) as Hue.
  { pose proof (heap_end_range (hb / 4096) ((sb / 65536 * 65536 - 65536) / 4096) (mem (ca_vm s))) as Hh.
    fold h in Hh. subst end_. destruct grows; [done|]. unfold is_u64.
    destruct (limit_range hb sb Hhb Hsb). lia. }
  assert (ready (set_reg_list (<[7%nat := end_]> (reg (ca_vm s))) (ca_vm s))) as [Hcc Hrr Hm].
  { destruct (put_register_run 7 end_ s Hr) as (l & _ & -> & ?); [lia|done|done]. }
  split; [|split; [cbn; lia|right; right; split; [done|cbn; lia]]].
  destruct grows.
  - split; cbn; try done.
    + split; cbn; [done|done|]. unfold change_acl. destruct (_ <=? 0); [done|].
      destruct (set_acl_range_wf (hb / 4096) (hb / 4096 + (end_ - hb / 4096)) (Some MEM_W) _ Hm). by split.
    + unfold bounds. cbn. unfold bounds in Hbs. injection Hbs as E1 E2 E3.
      unfold bounds in Hx. rewrite E1, E2, E3 in Hx. rewrite E1, E2. by apply (proj2 Hbnd _ _ _ hp).
  - split; cbn; try done.
Qed.
End general.

(** ** [hc_fetch] is served *)

(** The encoders return bytes, the fixed ones of their width, the others of a length
    a register can hold. *)
Class FetchCodecLaws (RC AI : Type) `{FetchCodec RC AI} : Prop := {
  U16_encode_ok : forall x, List.Forall is_byte (U16_encode x) /\ blen (U16_encode x) = 2;
  U32_encode_ok : forall x, List.Forall is_byte (U32_encode x) /\ blen (U32_encode x) = 4;
  U64_encode_ok : forall x, List.Forall is_byte (U64_encode x) /\ blen (U64_encode x) = 8;
  VarInt64_encode_ok : forall x, List.Forall is_byte (VarInt64_encode x) /\ blen (VarInt64_encode x) <= 9;
  WorkPackage_to_jam_bytes_ok : forall p, blob_ok (WorkPackage_to_jam_bytes p);
  context_to_jam_bytes_ok : forall c, blob_ok (context_to_jam_bytes c);
  AccumulationInput_to_jam_bytes_ok : forall a, blob_ok (AccumulationInput_to_jam_bytes a);
  AccumulationInputs_encode_ok : forall l, blob_ok (AccumulationInputs_encode l)
}.

(** A work item whose fields fit their encodings. *)
Record work_item_ok (w : WorkItem) : Prop := {
  wo_service : 0 <= wi_service w < 2 ^ 32;
  wo_code_hash : List.Forall is_byte (wi_code_hash w) /\ blen (wi_code_hash w) = 32;
  wo_refine : is_u64 (wi_refine_gas_limit w);
  wo_accumulate : is_u64 (wi_accumulate_gas_limit w);
  wo_exports : 0 <= wi_export_count w < 2 ^ 16;
  wo_imports : Z.of_nat (length (wi_import_segments w)) < 2 ^ 16;
  wo_extrinsic : Z.of_nat (length (wi_extrinsic w)) < 2 ^ 16;
  wo_payload : List.Forall is_byte (wi_payload w) /\ blen (wi_payload w) < 2 ^ 32
}.

Definition opt_ok {A} (P : A -> Prop) (o : option A) : Prop := match o with Some a => P a | None => True end.

Record fetch_ok {RC AI} (d : FetchData (RC := RC) (AI := AI)) : Prop := {
  fo_package : opt_ok (fun p : WorkPackage RC =>
    List.Forall work_item_ok (wp_items p) /\ Z.of_nat (length (wp_items p)) <= 2 ^ 16 /\
    blob_ok (wp_authorization p) /\ blob_ok (wp_authorizer_config p)) (fd_work_package d);
  fo_entropy : opt_ok blob_ok (fd_entropy d);
  fo_output : opt_ok blob_ok (fd_authorizer_output d);
  fo_segs : opt_ok (List.Forall (List.Forall blob_ok)) (fd_work_item_segs d);
  fo_extrinsics : opt_ok (List.Forall (List.Forall blob_ok)) (fd_extrinsics d);
  fo_index : opt_ok (fun i => 0 <= i /\
    opt_ok (fun ex : list (list bytes) => i < Z.of_nat (length ex)) (fd_extrinsics d)) (fd_work_item_index d)
}.

Section fetch_laws.
Context {RC AI : Type} `{FetchCodec RC AI} `{!FetchCodecLaws RC AI}.

(** The value of a fetch: [None] or data a program can be given, never an exception. *)
Definition fetched_ok (r : outcome exn (option bytes)) : Prop :=
  exists v, r = Ret v /\ opt_blob_ok v.

Lemma to_bytes_run n x : 0 <= x < 256 ^ Z.of_nat n -> to_bytes n x = Ret (le_bytes n x).
Proof using. intros Hx. unfold to_bytes. by replace (_ && _) with true by (zcmp; cbn; lia). Qed.

Lemma work_item_run w : work_item_ok w ->
  exists b, serialize_work_item w = Ret b /\ List.Forall is_byte b /\ blen b = 62.
Proof using.
  intros [H1 [H2 L2] H3 H4 H5 H6 H7 [H8 L8]]. unfold is_u64, serialize_work_item in *.
  unfold blen in *. rewrite !to_bytes_run by lia. cbn [mbind outcome_bind]. eexists. split; [reflexivity|].
  split.
  - repeat (apply Forall_app_2; [first [apply le_bytes_bytes|done]|]). apply le_bytes_bytes.
  - rewrite !length_app, !length_le_bytes. lia.
Qed.

Lemma work_items_run ws : List.Forall work_item_ok ws ->
  exists b, serialize_work_items ws = Ret b /\ List.Forall is_byte b /\
    blen b = 62 * Z.of_nat (length ws).
Proof using.
  induction 1 as [|w ws Hw _ (bs & Hbs & Hb & Hl)]; [by exists []|].
  destruct (work_item_run w Hw) as (b & Hr & Hb' & Hl'). cbn [serialize_work_items].
  rewrite Hr. cbn [mbind outcome_bind]. rewrite Hbs. cbn. eexists. split; [reflexivity|].
  split; [by apply Forall_app|]. unfold blen in *. rewrite length_app. cbn [length]. lia.
Qed.

Lemma const_bytes_ok g : blob_ok (const_bytes g).
Proof using FetchCodecLaws0.
  unfold const_bytes. split.
  - repeat (apply Forall_app_2; [first [apply U64_encode_ok|apply U32_encode_ok|apply U16_encode_ok]|]).
    apply U32_encode_ok.
  - unfold blen. rewrite !length_app, !Nat2Z.inj_add.
    repeat match goal with
    | |- context [Z.of_nat (length (U64_encode ?x))] =>
        change (Z.of_nat (length (U64_encode x))) with (blen (U64_encode x)); rewrite (proj2 (U64_encode_ok x))
    | |- context [Z.of_nat (length (U32_encode ?x))] =>
        change (Z.of_nat (length (U32_encode x))) with (blen (U32_encode x)); rewrite (proj2 (U32_encode_ok x))
    | |- context [Z.of_nat (length (U16_encode ?x))] =>
        change (Z.of_nat (length (U16_encode x))) with (blen (U16_encode x)); rewrite (proj2 (U16_encode_ok x))
    end. lia.
Qed.

Lemma item_run {A} (l : list A) i (P : A -> Prop) :
  List.Forall P l -> 0 <= i < Z.of_nat (length l) -> exists a, item l i = Ret a /\ P a.
Proof using.
  intros Hl Hi. unfold item. destruct (py_index_Some l i Hi) as [a Ha]. rewrite Ha.
  exists a. split; [done|]. rewrite py_index_nonneg in Ha by lia. by eapply Forall_lookup_1 in Hl.
Qed.

Lemma nth_blob_ok l i : List.Forall blob_ok l -> 0 <= i -> fetched_ok (nth_blob l i).
Proof using.
  intros Hl Hi. unfold nth_blob. destruct (Z.ltb_spec i (Z.of_nat (length l))); [|by exists None].
  destruct (item_run l i _ Hl) as (b & -> & Hb); [lia|]. by exists (Some b).
Qed.

(** The guarded double look-up of the extrinsics and segments. *)
Lemma nested_ok l i (f : list bytes -> outcome exn (option bytes)) :
  List.Forall (List.Forall blob_ok) l -> 0 <= i < Z.of_nat (length l) ->
  (forall bs, List.Forall blob_ok bs -> fetched_ok (f bs)) -> fetched_ok (item l i ≫= f).
Proof using. intros Hl Hi Hf. destruct (item_run l i _ Hl Hi) as (bs & -> & Hbs). by apply Hf. Qed.

Lemma fetch_data_ok d w10 w11 w12 :
  fetch_ok d -> 0 <= w10 -> 0 <= w11 -> 0 <= w12 -> fetched_ok (fetch_data d w10 w11 w12).
Proof using FetchCodecLaws0.
  intros [Hp He Ho Hs Hx Hi] H10 H11 H12.
  assert (fetched_ok (Ret None)) as Hnone by by exists None.
  assert (forall o, opt_blob_ok o -> fetched_ok (Ret o)) as Hret by (intros o ?; by exists o).
  unfold fetch_data.
  destruct (decide (w10 < 16)) as [Hlt|Hge].
  2: { destruct w10 as [|q|]; try lia. do 4 (destruct q as [q|q|]; try lia; try done). }
  assert (w10 ∈ py_range 0 16) as Hin by (apply elem_of_py_range; lia).
  repeat (apply elem_of_cons in Hin as [->|Hin]; [|]); try by apply elem_of_nil in Hin.
  all: try (by apply Hret).
  - apply Hret, const_bytes_ok.
  - destruct (fd_extrinsics d) as [ex|]; [|done].
    destruct (Z.ltb_spec w11 (Z.of_nat (length ex))); [|done].
    apply nested_ok; [done|lia|]. intros bs Hbs. by apply nth_blob_ok.
  - destruct (fd_extrinsics d) as [ex|]; [|done]. destruct (fd_work_item_index d) as [i|]; [|done].
    cbn in Hi. apply nested_ok; [done|lia|]. intros bs Hbs. by apply nth_blob_ok.
  - destruct (fd_work_item_segs d) as [segs|]; [|done].
    destruct (Z.ltb_spec w11 (Z.of_nat (length segs))); [|done].
    apply nested_ok; [done|lia|]. intros bs Hbs. by apply nth_blob_ok.
  - destruct (fd_work_item_segs d) as [segs|]; [|done]. destruct (fd_work_item_index d) as [i|]; [|done].
    cbn in Hi. destruct (Z.ltb_spec i (Z.of_nat (length segs))); [|done].
    apply nested_ok; [done|lia|]. intros bs Hbs. by apply nth_blob_ok.
  - destruct (fd_work_package d); [|done]. apply Hret, WorkPackage_to_jam_bytes_ok.
  - destruct (fd_work_package d); [|done]. apply Hret. apply Hp.
  - destruct (fd_work_package d); [|done]. apply Hret. apply Hp.
  - destruct (fd_work_package d); [|done]. apply Hret, context_to_jam_bytes_ok.
  - destruct (fd_work_package d) as [p|]; [|done]. destruct Hp as (Hw & Hn & _).
    destruct (work_items_run _ Hw) as (b & -> & Hb & Hl). cbn. apply Hret.
    pose proof (VarInt64_encode_ok (Z.of_nat (length (wp_items p)))) as [Hv Hvl].
    split; [by apply Forall_app|]. unfold blen in *. rewrite length_app. lia.
  - destruct (fd_work_package d) as [p|]; [|done]. destruct Hp as (Hw & _).
    destruct (Z.ltb_spec w11 (Z.of_nat (length (wp_items p)))); [|done].
    destruct (item_run _ w11 _ Hw) as (w & -> & Hok); [lia|]. cbn.
    destruct (work_item_run w Hok) as (b & -> & Hb & Hl). apply Hret. split; [done|lia].
  - destruct (fd_work_package d) as [p|]; [|done]. destruct Hp as (Hw & _).
    destruct (Z.ltb_spec w11 (Z.of_nat (length (wp_items p)))); [|done].
    destruct (item_run _ w11 _ Hw) as (w & -> & Hok); [lia|]. apply Hret.
    destruct Hok as [_ _ _ _ _ _ _ [? ?]]. split; [done|lia].
  - destruct (fd_accumulation_inputs d); [|done]. apply Hret, AccumulationInputs_encode_ok.
  - destruct (fd_accumulation_inputs d) as [l|]; [|done].
    destruct (Z.ltb_spec w11 (Z.of_nat (length l))); [|done].
    destruct (item_run l w11 (fun _ => True)) as (a & -> & _); [by apply Forall_true|lia|].
    apply Hret, AccumulationInput_to_jam_bytes_ok.
Qed.

Lemma hc_fetch_serves {X} (C : X -> option Z * option Z * Z -> Prop) may vm0 g0 regs d :
  registers_ok regs -> fetch_ok d -> serves C may vm0 g0 (hc_fetch d regs).
Proof using FetchCodecLaws0.
  intros Hregs Hd. apply hostcall_serves; [by apply fetch_cost_safe|].
  apply (safe_serves _ _ _ _ _ (fun _ => True)).
  do 6 (apply safe_reg; [done|lia|intros ? ?]). unfold is_u64 in *.
  apply (safe_bind _ _ _ _ _ _ opt_blob_ok).
  - apply safe_lift. destruct (fetch_data_ok d v2 v3 v4 Hd) as (o & -> & Ho); [lia..|done].
  - intros o Ho. apply deliver_safe; [done|lia..].
Qed.
End fetch_laws.

(** ** The properties *)

(** The memory [m'] is [m] with [data] at [a]: other bytes and the permissions kept. *)
Definition stored (m m' : PVMMemory) (a : Z) (data : bytes) : Prop :=
  pages_r m' = pages_r m /\ pages_w m' = pages_w m /\ bounds m' = bounds m /\
  forall x, mv_get (mv m') x =
    if (a <=? x) && (x <? a + blen data) then nth (Z.to_nat (x - a)) data 0 else mv_get (mv m) x.

(** What delivering the data [v] does, from the window [f0], [l0] the program asks for
    and its destination [o]. *)
Definition delivered {X} (inaccessible : bool) (v : option bytes) (o f0 l0 : Z) (s s' : Call X) : Prop :=
  let f := Z.min f0 (blob_len v) in
  let l := Z.min l0 (blob_len v - f) in
  exists writable, is_accessible o l MEM_W (mem (ca_vm s)) = Ret writable /\
  if inaccessible || negb writable then
    ec_reason (ca_exit s') = ExitReason.panic /\ ca_vm s' = ca_vm s
  else
    ec_reason (ca_exit s') = ExitReason.resume /\
    match v with
    | None => ca_vm s' = set_reg_list (<[7%nat := HostCallResult.NONE]> (reg (ca_vm s))) (ca_vm s)
    | Some v =>
        reg (ca_vm s') = <[7%nat := blen v]> (reg (ca_vm s)) /\
        stored (mem (ca_vm s)) (mem (ca_vm s')) o (take (Z.to_nat l) (drop (Z.to_nat f) v))
    end.

Lemma deliver_run {X} inaccessible v o f0 l0 (s : Call X) :
  ready (ca_vm s) -> opt_blob_ok v -> 0 <= o -> 0 <= f0 -> 0 <= l0 ->
  exists s', deliver inaccessible v o f0 l0 s = (Ret tt, s') /\
    ca_gas s' = ca_gas s /\ ca_ctx s' = ca_ctx s /\ delivered inaccessible v o f0 l0 s s'.
Proof.
  intros Hrd Hv Ho Hf Hl. unfold deliver, delivered. rewrite eff_bind_run.
  set (f := Z.min f0 _). set (l := Z.min l0 _).
  destruct (accessible_mem_run o l MEM_W s) as (w & -> & Hw); [by right|].
  destruct (inaccessible || negb w) eqn:Hno.
  { eexists. split; [reflexivity|]. do 2 (split; [done|]). exists w. split; [done|]. by rewrite Hno. }
  pose proof Hno as [_ Hw'%negb_false_iff]%orb_false_iff. subst w.
  assert (forall y, is_u64 y -> exists s1,
    (exit_with ExitReason.resume ≫= fun _ => put_register 7 y) s = (Ret tt, s1) /\
    s1 = mkCall (set_reg_list (<[7%nat := y]> (reg (ca_vm s))) (ca_vm s)) (mkExit ExitReason.resume ENone)
           (ca_gas s) (ca_ctx s)) as Hput.
  { intros y Hy. unfold exit_with. autorewrite with eff. set (s1 := mkCall _ _ _ _).
    destruct (put_register_run 7 y s1 Hrd) as (r & -> & -> & _); [lia|done|]. by eexists. }
  destruct v as [v|].
  - destruct Hv as [Hb Hlen]. set (slice := take (Z.to_nat l) (drop (Z.to_nat f) v)).
    assert (blen slice = l) as Hsl by by apply deliver_slice.
    destruct (Hput (blen v)) as (s1 & Hrun & Hs1); [unfold is_u64, blen in *; lia|].
    rewrite eff_bind_run in Hrun |- *. destruct (exit_with ExitReason.resume s) as [[[]|e] s0]; [|done].
    rewrite eff_bind_run, Hrun, Hs1. rewrite <-Hsl in Hw.
    destruct (accessible_write o slice (mem (ca_vm s)) Ho Hw) as (a' & Hwr).
    unfold on_mem. cbn [ca_vm mem set_reg_list]. rewrite Hwr. eexists. split; [reflexivity|].
    do 2 (split; [done|]). exists true. split; [by rewrite <-Hsl|]. rewrite Hno. split; [done|]. split; [done|].
    split; [done|]. split; [done|]. split; [done|]. intros x. cbn. rewrite mv_store_get. unfold blen. by destruct (_ && _).
  - destruct (Hput HostCallResult.NONE) as (s1 & Hrun & ->); [done|]. rewrite Hrun.
    eexists. split; [reflexivity|]. do 2 (split; [done|]). exists true. split; [done|]. by rewrite Hno.
Qed.

(** Data asked for by a program ([hc_fetch], [hc_historical_lookup]) is delivered on
    every branch: an unreadable source or an unwritable destination panics and changes
    nothing; missing data answers [NONE]; otherwise register 7 holds the length of the
    whole data and exactly the window asked for is written, clipped to the data. *)
Theorem deliver_correct X inaccessible v o f0 l0 (s : Call X) :
  ready (ca_vm s) -> opt_blob_ok v -> 0 <= o -> 0 <= f0 -> 0 <= l0 ->
  exists s', deliver inaccessible v o f0 l0 s = (Ret tt, s') /\
    ca_gas s' = ca_gas s /\ ca_ctx s' = ca_ctx s /\ delivered inaccessible v o f0 l0 s s'.
Proof. apply deliver_run. Qed.

Lemma set_acl_range_writable lo hi m pg :
  pg ∈ pages_w (set_acl_range lo hi (Some MEM_W) m) <-> lo <= pg < hi \/ pg ∈ pages_w m.
Proof.
  rewrite <-elem_of_py_range. unfold set_acl_range. revert m.
  induction (py_range lo hi) as [|x l IH]; intros m; cbn [fold_left].
  - split; [by right|]. by intros [Hn%elem_of_nil|].
  - rewrite IH, elem_of_cons. unfold set_acl. cbn. set_solver.
Qed.

(** The writable pages of the heap reach from [a] to [h]. *)
Definition heap_extent (a b h : Z) (m : PVMMemory) : Prop :=
  a <= h /\ forall pg, a <= pg < b -> pg ∈ pages_w m <-> pg < h.

Lemma heap_extent_end a b h m : heap_extent a b h m -> h <= Z.max a b -> heap_end a b m = h.
Proof.
  intros [Hah Hw] Hb. unfold heap_end.
  assert (filter (fun page => a <= page < b) (pages_w m) = list_to_set (py_range a h)) as ->.
  { apply set_eq. intros x. rewrite elem_of_filter, elem_of_list_to_set, elem_of_py_range.
    split; [intros [Hx Hin]; apply Hw in Hin; [lia|done]|]. intros Hx. split; [lia|]. apply Hw; lia. }
  rewrite size_list_to_set by apply NoDup_py_range. rewrite length_py_range. lia.
Qed.

(** Growing the heap.  Let [a] be the first page of the heap, [b] the page it may grow
    to, and its writable pages reach to [h].  The call grows it exactly when the requested
    end lies above [h] and within [b]; it charges 275 and 121 for each page added and
    answers the end; afterwards the writable pages reach to that end, so a query answers
    it again.  Without the gas for it nothing is grown and no gas is left. *)
Theorem hc_grow_heap_correct X (regs : list Z) hb sb hp req h (s : Call X) :
  registers_ok regs -> ready (ca_vm s) -> bounds (mem (ca_vm s)) = (Some hb, Some sb, hp) ->
  0 <= hb <= SIZE -> sb <= SIZE -> 0 <= ca_gas s -> regs !! 7%nat = Some req -> is_u64 req ->
  let a := hb / 4096 in
  let b := (sb / 65536 * 65536 - 65536) / 4096 in
  h <= Z.max a b -> heap_extent a b h (mem (ca_vm s)) ->
  let end_ := if (h <? req) && (req <=? b) then req else h in
  exists s', hc_grow_heap regs s = (Ret tt, s') /\
    if ca_gas s <? 275 + (end_ - h) * 121 then
      ec_reason (ca_exit s') = ExitReason.out_of_gas /\ ca_gas s' = 0 /\ ca_vm s' = ca_vm s
    else
      ec_reason (ca_exit s') = ExitReason.resume /\ ca_gas s' = ca_gas s - (275 + (end_ - h) * 121) /\
      reg (ca_vm s') = <[7%nat := end_]> (reg (ca_vm s)) /\
      mv (mem (ca_vm s')) = mv (mem (ca_vm s)) /\
      heap_extent a b end_ (mem (ca_vm s')) /\ heap_end a b (mem (ca_vm s')) = end_.
Proof.
  intros Hregs Hr Hb Hhb Hsb Hg Hq Hu a b Hh Hext end_.
  destruct (grow_heap_run regs Hregs hb sb hp req s Hr Hb Hhb Hsb Hg Hq Hu) as (s' & -> & Hres).
  exists s'. split; [done|]. unfold grow_result in Hres. fold a b in Hres.
  rewrite (heap_extent_end a b h) in Hres by done. fold end_ in Hres.
  destruct (ca_gas s <? 275 + (end_ - h) * 121); rewrite Hres; [done|].
  do 3 (split; [done|]). assert (end_ <= Z.max a b) as Hend.
  { unfold end_. destruct (Z.ltb_spec h req), (Z.leb_spec req b); cbn [andb]; lia. }
  assert (heap_extent a b end_ (mem (ca_vm s'))) as Hext'.
  { rewrite Hres. cbn. revert Hend. unfold end_. destruct (Z.ltb_spec h req), (Z.leb_spec req b); cbn [andb]; try done.
    intros _. destruct Hext as [Hah Hw]. split; [lia|]. intros pg Hpg. unfold change_acl.
    destruct (Z.leb_spec (req - a) 0); [lia|]. cbn. rewrite set_acl_range_writable, (Hw pg Hpg). lia. }
  rewrite Hres in Hext'. split; [|split; [done|by apply heap_extent_end]].
  cbn. destruct (_ && _); [|done]. cbn. unfold change_acl. destruct (_ <=? 0); [done|].
  unfold set_acl_range. generalize (py_range a (a + (end_ - a))), (mem (ca_vm s)).
  induction l as [|x l IH]; intros m; [done|]. cbn [fold_left]. by rewrite IH.
Qed.

(** The data of a fetch: for any selectors a program can put into its registers, and
    any well-formed invocation data, [hc_fetch] finds data a program can be given, or
    none; no index, key or overflow error is raised. *)
Theorem fetch_data_total RC AI `{FetchCodec RC AI} `{!FetchCodecLaws RC AI} d w10 w11 w12 :
  fetch_ok d -> 0 <= w10 -> 0 <= w11 -> 0 <= w12 ->
  exists v, fetch_data d w10 w11 w12 = Ret v /\ opt_blob_ok v.
Proof. apply fetch_data_ok. Qed.
