(* ===== verification/Refine.v ===== *)
(** * Refinement: inner machines and the refine mutator

    [hostcalls/refine.py] and the mutators [RefineInvocationMutator] and
    [IsAuthorizedInvocationMutator] of [hostcalls/invocation.py].

    A refinement can build machines of its own: the context holds a dictionary of
    inner machines ([IntegratedPVM]: code, memory, counter, and whether the current
    block is paid for) and the exported segments.  [hc_machine] builds one, [hc_peek],
    [hc_poke] and [hc_pages] reach its memory, [hc_invoke] runs it, [hc_expunge]
    removes it.  The memory of an inner machine is an object of its own: [hc_machine]
    makes a fresh one, and nothing shares it with the outer machine.

    The decoder of code blobs is the codec of [Program]; the look-up of preimages is
    the interface [ServicesState]. *)

From Stdlib Require Import ZArith Lia Bool List.
From stdpp Require Import base numbers option list gmap.
From S2P Require Import Prelude Constants Defs MemorySection Memory BasicBlock Machine Interp Program Invocation Graypaper HostCalls.
Import ListNotations.

#[local] Open Scope Z_scope.
#[local] Open Scope py_scope.

(** [graypaper_constants.EC_SEGMENT_SIZE], the same for every test suite, and the
    limit of exports. *)
Definition EC_SEGMENT_SIZE : Z := 4104.

(** ** The context *)

Record IntegratedPVM : Type := mkInner {
  ip_code : PVMCode;
  ip_memory : PVMMemory;
  ip_program_counter : Z;
  ip_gas_paid : bool
}.

Record RefineInvocationContext : Type := mkRefine {
  inner_pvm_lookup : gmap Z IntegratedPVM;
  export_segments : list bytes
}.

(** What the host calls ask of the services: [None] is [StateKeyNoResult]; another exception, as
    of a codec that refuses what is stored, leaves the call. *)
Class ServicesState (S : Type) : Type := {
  ServiceAccount : Type;
  retrieve_service_account : S -> Z -> outcome exn (option ServiceAccount);
  historical_preimage_lookup : S -> Z -> Z -> bytes -> outcome exn (option bytes)
}.

Section refine.
Context {J : Type} `{JamCodec J} {S : Type} `{ServicesState S}.

Abbreviation R := (HC RefineInvocationContext).

Definition inner (n : Z) : R (option IntegratedPVM) :=
  gets (fun s => inner_pvm_lookup (ca_ctx s) !! n).

Definition put_inner (n : Z) (i : IntegratedPVM) : R unit :=
  modify (fun s => set_ctx (mkRefine (<[n := i]> (inner_pvm_lookup (ca_ctx s)))
                              (export_segments (ca_ctx s))) s).

(** An operation of the memory of inner machine [n], whose object it changes. *)
Definition on_inner {A} (n : Z) (i : IntegratedPVM) (op : eff PVMMemory exn A) : R A := fun s =>
  let '(r, m) := op (ip_memory i) in
  (r, (put_inner n (mkInner (ip_code i) m (ip_program_counter i) (ip_gas_paid i)) s).2).

(** ** [hc_historical_lookup], [hc_export] *)

Definition hc_historical_lookup (services : S) (service_id timeslot : Z) : list Z -> R unit :=
  hostcall (gas_cost_by_size 1125 [(264, 11)]) (fun regs =>
    own ← lift (retrieve_service_account services service_id);
    reg7 ← register regs 7;
    '(service_account_id, service_account) ←
      (if (reg7 =? U64_MAX - 1) && bool_decide (is_Some own) then mret (service_id, own)
       else other ← lift (retrieve_service_account services (reg7 mod U32_MAX)); mret (reg7 mod U32_MAX, other)
       : R (Z * option ServiceAccount));
    h ← register regs 8;
    o ← register regs 9;
    readable ← (match service_account with
                | Some _ => accessible_mem h 32 MEM_R
                | None => mret false
                end : R bool);
    '(preimage, mem_inaccessible) ←
      (match service_account with
       | Some _ =>
           if readable : bool then fun s =>
             match on_mem (read_bytes h 32 None) s with
             | (Ret preimage_hash, s') =>
                 (preimage ← historical_preimage_lookup services service_account_id timeslot preimage_hash; Ret (preimage, false), s')
             | (Raise PVMMemoryError, s') => (Ret (None, true), s')
             | (Raise e, s') => (Raise e, s')
             end
           else mret (None, true)
       | None => mret (None, false)
       end : R (option bytes * bool));
    r10 ← register regs 10;
    r11 ← register regs 11;
    deliver mem_inaccessible preimage o r10 r11).

Definition hc_export (export_segment_offset : Z) : list Z -> R unit :=
  hostcall (fixed_cost 3521) (fun regs =>
    p ← register regs 7;
    r8 ← register regs 8;
    let z := Z.min r8 EC_SEGMENT_SIZE in
    ok ← accessible_mem p z MEM_R;
    if negb ok then exit_with ExitReason.panic
    else
      data_segment ← on_mem (read_bytes p z (Some EC_SEGMENT_SIZE));
      x ← gets ca_ctx;
      let index := export_segment_offset + Z.of_nat (length (export_segments x)) in
      exit_with ExitReason.resume ≫= fun _ =>
      if MAXIMUM_NUMBER_EXPORTS_WORK_PACKAGE gp_full <=? index then put_register 7 HostCallResult.FULL
      else
        put_register 7 index ≫= fun _ =>
        modify (fun s => set_ctx (mkRefine (inner_pvm_lookup (ca_ctx s))
                                    (export_segments (ca_ctx s) ++ [data_segment])) s)).

(** ** [hc_machine] *)

(** [next((key for key in range(63) if key not in lookup), 63)] *)
Definition free_key (lookup : gmap Z IntegratedPVM) : Z :=
  match filter (fun key => lookup !! key = None) (py_range 0 63) with
  | key :: _ => key
  | [] => 63
  end.

Definition hc_machine : list Z -> R unit :=
  hostcall (gas_cost_by_size 1862 [(112, 8)]) (fun regs =>
    p_o ← register regs 7;
    p_z ← register regs 8;
    i ← register regs 9;
    ok ← accessible_mem p_o p_z MEM_R;
    program_blob ← (if ok : bool then bs ← on_mem (read_bytes p_o p_z None); mret (Some bs)
                    else mret None : R (option bytes));
    let pvm_code := b ← program_blob; from_jam_bytes (JamBytes b) true in
    x ← gets ca_ctx;
    let n := free_key (inner_pvm_lookup x) in
    if 63 <=? Z.of_nat (size (inner_pvm_lookup x)) then
      exit_with ExitReason.resume ≫= fun _ => put_register 7 HostCallResult.FULL
    else
      match program_blob, pvm_code with
      | None, _ => exit_with ExitReason.panic
      | Some _, Some c =>
          exit_with ExitReason.resume ≫= fun _ =>
          if negb (is_valid c i) then put_register 7 HostCallResult.HUH
          else put_register 7 n ≫= fun _ => put_inner n (mkInner c empty_memory i false)
      | Some _, None => exit_with ExitReason.resume ≫= fun _ => put_register 7 HostCallResult.HUH
      end).

(** ** [hc_peek], [hc_poke] *)

Definition hc_peek : list Z -> R unit :=
  hostcall (gas_cost_by_size 377 [(336, 10)]) (fun regs =>
    n ← register regs 7;
    o ← register regs 8;
    s ← register regs 9;
    z ← register regs 10;
    writable ← accessible_mem o z MEM_W;
    if negb writable then exit_with ExitReason.panic
    else
      i ← inner n;
      match i with
      | None => exit_with ExitReason.resume ≫= fun _ => put_register 7 HostCallResult.WHO
      | Some i =>
          readable ← lift (is_accessible s z MEM_R (ip_memory i));
          if negb readable then exit_with ExitReason.resume ≫= fun _ => put_register 7 HostCallResult.OOB
          else
            data ← on_inner n i (read_bytes s z None);
            on_mem (write_bytes o data) ≫= fun _ =>
            exit_with ExitReason.resume ≫= fun _ =>
            put_register 7 HostCallResult.OK
      end).

Definition hc_poke : list Z -> R unit :=
  hostcall (gas_cost_by_size 297 [(224, 10)]) (fun regs =>
    n ← register regs 7;
    s ← register regs 8;
    o ← register regs 9;
    z ← register regs 10;
    readable ← accessible_mem s z MEM_R;
    if negb readable then exit_with ExitReason.panic
    else
      i ← inner n;
      match i with
      | None => exit_with ExitReason.resume ≫= fun _ => put_register 7 HostCallResult.WHO
      | Some i =>
          writable ← lift (is_accessible o z MEM_W (ip_memory i));
          if negb writable then exit_with ExitReason.resume ≫= fun _ => put_register 7 HostCallResult.OOB
          else
            data ← on_mem (read_bytes s z None);
            on_inner n i (write_bytes o data) ≫= fun _ =>
            exit_with ExitReason.resume ≫= fun _ =>
            put_register 7 HostCallResult.OK
      end).

(** ** [hc_pages] *)

Definition pages_acl (r : Z) : Z :=
  if r =? 0 then MEM_I else if (r =? 1) || (r =? 3) then MEM_R else MEM_W.

Definition set_inner_pages (p c r : Z) : eff PVMMemory exn unit :=
  (if r <? 3 then zero p c (Some (pages_acl r)) else mret tt) ≫= fun _ =>
  modify (change_acl p c (Some (pages_acl r))).

(** [except PVMMemoryError]: the exit condition becomes a panic. *)
Definition or_panic (op : R unit) : R unit := fun s =>
  match op s with
  | (Raise PVMMemoryError, s') => exit_with ExitReason.panic s'
  | rs => rs
  end.

Definition hc_pages : list Z -> R unit :=
  hostcall pages_cost (fun regs =>
    n ← register regs 7;
    p ← register regs 8;
    c ← register regs 9;
    r ← register regs 10;
    i ← inner n;
    exit_with ExitReason.resume ≫= fun _ =>
    match i with
    | None => put_register 7 HostCallResult.WHO
    | Some i =>
        if (4 <? r) || (p <? 16) || (2 ^ 32 / PVM_PAGE_SIZE <=? p + c) then
          put_register 7 HostCallResult.HUH
        else
          readable ← (if 2 <? r then lift (is_accessible (p * PVM_PAGE_SIZE) (c * PVM_PAGE_SIZE) MEM_R (ip_memory i))
                      else mret true : R bool);
          if negb readable then put_register 7 HostCallResult.HUH
          else
            put_register 7 HostCallResult.OK ≫= fun _ =>
            or_panic (on_inner n i (set_inner_pages p c r))
    end).

(** ** [hc_invoke] *)

(** [int.from_bytes(frame[i:i + 8], 'little')] *)
Definition frame_int (frame : bytes) (i : nat) : Z := le_int (take 8 (drop i frame)).

(** The registers of the frame: [range(8, 112, 8)]. *)
Definition frame_registers (frame : bytes) : list Z :=
  map (fun k => frame_int frame (8 * Datatypes.S k)) (seq 0 13).

Fixpoint encode_registers (regs : list Z) : outcome exn bytes :=
  match regs with
  | [] => Ret []
  | r :: regs => b ← to_bytes 8 r; bs ← encode_registers regs; Ret (b ++ bs)
  end.

(** [outcomes[result.reason]]: [resume] is not a key. *)
Definition inner_outcome (r : ExitReason.t) : outcome exn Z :=
  match r with
  | ExitReason.host_halt => Ret InnerPVMResult.HOST
  | ExitReason.page_fault => Ret InnerPVMResult.FAULT
  | ExitReason.out_of_gas => Ret InnerPVMResult.OOG
  | ExitReason.panic => Ret InnerPVMResult.PANIC
  | ExitReason.halt => Ret InnerPVMResult.HALT
  | ExitReason.resume => Raise PyException
  end.

(** The inner run: the machine after [invoke] and [get_exit_condition].  An [invoke]
    that would not return is an exception here; [run_inner_spec] excludes both. *)
Definition run_inner (i : IntegratedPVM) (gas : Z) (regs : list Z) : outcome exn (ExitCondition * VM) :=
  vm ← new_interpreter (pvm_program (ip_code i) regs (ip_memory i));
  match invoke (ip_program_counter i) gas (set_gas_paid (ip_gas_paid i) vm) with
  | Some (Ret _, vm) =>
      match get_exit_condition vm with
      | (Ret result, vm) => Ret (result, vm)
      | (Raise e, _) => Raise e
      end
  | Some (Raise e, _) => Raise e
  | None => Raise PyException
  end.

(** The counter the inner machine resumes at. *)
Definition resume_counter (r : ExitReason.t) (vm : VM) : Z :=
  match r with
  | ExitReason.host_halt => pc vm + skip_len vm
  | ExitReason.halt | ExitReason.panic => 0
  | _ => pc vm
  end.

(** After the inner run: the gas left is given back, the frame rewritten, the machine
    put back, the outcome delivered. *)
Definition store_inner (n o : Z) (i : IntegratedPVM) (result : ExitCondition) (pvm : VM) : R unit :=
  modify (fun s => set_out_gas (ca_gas s + gas pvm) s) ≫= fun _ =>
  gas_bytes ← lift (to_bytes 8 (gas pvm));
  reg_bytes ← lift (encode_registers (reg pvm));
  on_mem (write_bytes o (gas_bytes ++ reg_bytes)) ≫= fun _ =>
  let reason := ec_reason result in
  put_inner n (mkInner (ip_code i) (mem pvm) (resume_counter reason pvm) (gas_paid pvm)) ≫= fun _ =>
  v ← lift (inner_outcome reason);
  put_register 7 v ≫= fun _ =>
  match reason, ec_value result with
  | ExitReason.host_halt, EInt value | ExitReason.page_fault, EInt value => put_register 8 value
  | ExitReason.host_halt, _ | ExitReason.page_fault, _ => raise PyException
  | _, _ => mret tt
  end.

Definition hc_invoke : list Z -> R unit :=
  hostcall invoke_cost (fun regs =>
    n ← register regs 7;
    o ← register regs 8;
    writable ← accessible_mem o 112 MEM_W;
    if negb writable then exit_with ExitReason.panic
    else
      exit_with ExitReason.resume ≫= fun _ =>
      i ← inner n;
      match i with
      | None => put_register 7 HostCallResult.WHO
      | Some i =>
          frame ← on_mem (read_bytes o 112 None);
          '(result, pvm) ← lift (run_inner i (frame_int frame 0) (frame_registers frame));
          store_inner n o i result pvm
      end).

(** ** [hc_expunge] *)

Definition hc_expunge : list Z -> R unit :=
  hostcall (fixed_cost 335) (fun regs =>
    exit_with ExitReason.resume ≫= fun _ =>
    n ← register regs 7;
    i ← inner n;
    match i with
    | None => put_register 7 HostCallResult.WHO
    | Some i =>
        put_register 7 (ip_program_counter i) ≫= fun _ =>
        modify (fun s => set_ctx (mkRefine (delete n (inner_pvm_lookup (ca_ctx s)))
                                    (export_segments (ca_ctx s))) s)
    end).

(** ** [RefineInvocationMutator.execute] *)

(** The fields of the mutator, and the constants of the test suite. *)
Record RefineMutator (RC : Type) : Type := mkRefineMutator {
  rm_authorizer_output : bytes;
  rm_work_items_import_segments : list (list bytes);
  rm_export_segment_offset : Z;
  rm_services : S;
  rm_service_account_id : Z;
  rm_timeslot : Z;
  rm_work_item_index : Z;
  rm_work_package : WorkPackage RC;
  rm_extrinsics : list (list bytes);
  rm_constants : GpConstants
}.
Arguments rm_authorizer_output {RC}.
Arguments rm_work_items_import_segments {RC}.
Arguments rm_export_segment_offset {RC}.
Arguments rm_services {RC}.
Arguments rm_service_account_id {RC}.
Arguments rm_timeslot {RC}.
Arguments rm_work_item_index {RC}.
Arguments rm_work_package {RC}.
Arguments rm_extrinsics {RC}.
Arguments rm_constants {RC}.

(** Serving a call: the output starts as a panic with the gas given; its registers and
    memory are the machine's. *)
Definition serve {X} (op : HC X unit) (gas_limit : Z) (x : X) (vm : VM)
  : outcome exn InvocationMutationOutput * (X * VM) :=
  match op (mkCall vm (mkExit ExitReason.panic ENone) gas_limit x) with
  | (Ret _, s) =>
      (Ret (mkMutation (ca_exit s) (ca_gas s) (reg (ca_vm s)) (mem (ca_vm s))), (ca_ctx s, ca_vm s))
  | (Raise e, s) => (Raise e, (ca_ctx s, ca_vm s))
  end.

Section mutators.
Context {RC AI : Type} `{FetchCodec RC AI}.

(** What [hc_fetch] is given: the entropy is 32 zero bytes, there are no accumulation
    inputs. *)
Definition refine_fetch (self : RefineMutator RC) : FetchData (RC := RC) (AI := AI) :=
  mkFetch (rm_constants self) (Some (rm_work_package self)) (Some (replicate 32 0))
    (Some (rm_authorizer_output self)) (Some (rm_work_item_index self))
    (Some (rm_work_items_import_segments self)) (Some (rm_extrinsics self)) None.

Definition refine_dispatch (self : RefineMutator RC) (nr : Z) (regs : list Z) : R unit :=
  match nr with
  | 100 => hc_log regs
  | 1 => hc_grow_heap regs
  | 0 => hc_gas regs
  | 7 => hc_historical_lookup (rm_services self) (rm_service_account_id self) (rm_timeslot self) regs
  | 2 => hc_fetch (refine_fetch self) regs
  | 8 => hc_export (rm_export_segment_offset self) regs
  | 9 => hc_machine regs
  | 10 => hc_peek regs
  | 11 => hc_poke regs
  | 12 => hc_pages regs
  | 13 => hc_invoke regs
  | 14 => hc_expunge regs
  | _ => hc_not_found
  end.

Definition refine_execute (self : RefineMutator RC) (nr gas_limit : Z) (regs : list Z)
  (x : RefineInvocationContext) (vm : VM)
  : outcome exn InvocationMutationOutput * (RefineInvocationContext * VM) :=
  serve (refine_dispatch self nr regs) gas_limit x vm.

(** ** [IsAuthorizedInvocationMutator.execute]: the context is [None]. *)

(** What [hc_fetch] is given: the constants and the work package. *)
Definition is_authorized_fetch (g : GpConstants) (work_package : WorkPackage RC) : FetchData (RC := RC) (AI := AI) :=
  mkFetch g (Some work_package) None None None None None None.

Definition is_authorized_dispatch (g : GpConstants) (work_package : WorkPackage RC) (nr : Z) (regs : list Z)
  : HC unit unit :=
  match nr with
  | 100 => hc_log regs
  | 1 => hc_grow_heap regs
  | 0 => hc_gas regs
  | 2 => hc_fetch (is_authorized_fetch g work_package) regs
  | _ => hc_not_found
  end.

Definition is_authorized_execute (g : GpConstants) (work_package : WorkPackage RC) (nr gas_limit : Z)
  (regs : list Z) (x : unit) (vm : VM) : outcome exn InvocationMutationOutput * (unit * VM) :=
  serve (is_authorized_dispatch g work_package nr regs) gas_limit x vm.
End mutators.
End refine.
Arguments rm_authorizer_output {S RC}.
Arguments rm_work_items_import_segments {S RC}.
Arguments rm_export_segment_offset {S RC}.
Arguments rm_services {S RC}.
Arguments rm_service_account_id {S RC}.
Arguments rm_timeslot {S RC}.
Arguments rm_work_item_index {S RC}.
Arguments rm_work_package {S RC}.
Arguments rm_extrinsics {S RC}.
Arguments rm_constants {S RC}.

(** * Properties *)

(** ** The context's invariant *)

(** The services of these theorems answer: what is stored decodes, and a preimage found is data a
    program can be given. *)
Class ServicesLaws (S : Type) `{ServicesState S} : Prop := {
  service_account_answers : forall s id, exists a, retrieve_service_account s id = Ret a;
  historical_preimage_ok : forall s id timeslot hash, exists v,
    historical_preimage_lookup s id timeslot hash = Ret v /\ opt_blob_ok v
}.

Record inner_ok (i : IntegratedPVM) : Prop := {
  io_code : List.Forall is_byte (pvc_code (ip_code i));
  io_size : blen (pvc_code (ip_code i)) <= 2 ^ 32;
  io_memory : mem_wf (ip_memory i);
  io_counter : is_u64 (ip_program_counter i)
}.

(** At most 63 inner machines, numbered from 0; segments of the full size, no more
    than a work package may export. *)
Record refine_ctx_ok (offset : Z) (x : RefineInvocationContext) (b : option Z * option Z * Z) : Prop := {
  rc_inner : map_Forall (fun n i => 0 <= n < 63 /\ inner_ok i) (inner_pvm_lookup x);
  rc_segments : List.Forall (fun s => List.Forall is_byte s /\ blen s = EC_SEGMENT_SIZE) (export_segments x);
  rc_count : export_segments x = [] \/
    offset + Z.of_nat (length (export_segments x)) <= MAXIMUM_NUMBER_EXPORTS_WORK_PACKAGE gp_full;
  rc_bounds : bounds_ok b
}.

Lemma refine_ctx_bounds offset : ctx_bounds (refine_ctx_ok offset).
Proof.
  split; [by intros x b []|]. intros x hb sb hp hp' [? ? ? (hb' & sb' & hp0 & [= -> -> ->] & ? & ?)].
  split; try done. by exists hb', sb', hp'.
Qed.

(** Only [PVMMemoryError] can leave a refine call. *)
Definition refine_may (e : exn) : Prop := e = PVMMemoryError.

Lemma write_bytes_any a content m :
  exists r a' v, write_bytes a content m = (r, set_mv (set_mem_addr a' m) v) /\
    match r with Ret _ => True | Raise e => e = PVMMemoryError end.
Proof.
  destruct content as [|b content].
  { exists (Ret tt), (mem_addr m), (mv m). split; [cbn; by rewrite set_mem_addr_same|done]. }
  assert (forall a', set_mem_addr a' m = set_mv (set_mem_addr a' m) (mv m)) as Hsame by done.
  destruct (decide (0 <= a < SIZE)) as [Ha|Ha].
  - destruct (write_bytes_cases a (b :: content) m Ha) as [[_ ->]|(pg & _ & ->)]; [done|by eexists _, _, _|].
    rewrite Hsame. by eexists _, _, _.
  - exists (Raise PVMMemoryError), a, (mv m). rewrite <-Hsame. split; [|done].
    unfold write_bytes. destruct (Z.ltb_spec a 0), (Z.leb_spec SIZE a); try lia; done.
Qed.

(** Zeroing pages of the address space succeeds. *)
Lemma zero_total p n acl m :
  0 <= p -> (p + n) * 4096 <= SIZE -> exists m', zero p n acl m = (Ret tt, m').
Proof.
  intros Hp He. unfold zero. destruct (Z.leb_spec n 0); [by eexists|].
  change PAGE_SIZE with 4096. destruct (Z.ltb_spec SIZE (p * 4096 + n * 4096)); [lia|].
  autorewrite with eff.
  pose proof (mv_assign_range (mv m) (p * 4096) (replicate (Z.to_nat (n * 4096)) 0)) as Ha.
  rewrite length_replicate, Z2Nat.id in Ha by lia. rewrite Ha by lia. autorewrite with eff. by eexists.
Qed.

(** [free_key] answers a number no machine has, when there are fewer than 63. *)
Lemma free_key_spec lookup :
  (forall n i, lookup !! n = Some i -> 0 <= n < 63) -> Z.of_nat (size lookup) < 63 ->
  0 <= free_key lookup < 63 /\ lookup !! free_key lookup = None.
Proof.
  intros Hk Hsz. unfold free_key.
  destruct (filter (fun key => lookup !! key = None) (py_range 0 63)) as [|key l] eqn:Hf.
  - exfalso. assert (forall n, 0 <= n < 63 -> is_Some (lookup !! n)) as Hall.
    { intros n Hn. destruct (lookup !! n) eqn:He; [by eexists|].
      assert (n ∈ filter (fun key => lookup !! key = None) (py_range 0 63)) as Hin.
      { apply list_elem_of_filter. split; [done|]. by apply elem_of_py_range. }
      rewrite Hf in Hin. by apply elem_of_nil in Hin. }
    assert (list_to_set (py_range 0 63) ⊆@{gset Z} dom lookup) as Hsub.
    { intros n Hn%elem_of_list_to_set%elem_of_py_range. apply elem_of_dom. by apply Hall. }
    apply subseteq_size in Hsub. rewrite size_list_to_set in Hsub by apply NoDup_py_range.
    rewrite length_py_range, size_dom in Hsub. lia.
  - assert (key ∈ filter (fun key => lookup !! key = None) (py_range 0 63)) as Hin by (rewrite Hf; left).
    apply list_elem_of_filter in Hin as [Hn Hr%elem_of_py_range]. done.
Qed.

(** ** The inner run *)

(** What the host call relies on after an inner run. *)
Record inner_result (g : Z) (result : ExitCondition) (vm : VM) : Prop := {
  ir_regs : regs_ok vm;
  ir_mem : mem_wf (mem vm);
  ir_gas : 0 <= gas vm <= g;
  ir_counter : is_u64 (resume_counter (ec_reason result) vm);
  ir_exit :
    match ec_reason result with
    | ExitReason.resume => False
    | ExitReason.host_halt | ExitReason.page_fault => exists v, ec_value result = EInt v /\ is_u64 v
    | _ => True
    end
}.

(** An inner machine, valid or not, can be run with any gas and registers: the run ends
    with an exit condition that is not to go on, and with no more gas than it got. *)
Lemma run_inner_spec i g rs :
  inner_ok i -> is_u64 g -> length rs = 13%nat ->
  exists result vm, run_inner i g rs = Ret (result, vm) /\ inner_result g result vm.
Proof.
  intros [Hc Hz Hm Hp] Hg Hl. unfold run_inner.
  destruct (new_interpreter_spec (pvm_program (ip_code i) rs (ip_memory i))) as (vm & -> & Hr & _ & Hmem & _ & _ & Hlen).
  { by split. }
  cbn in Hmem, Hlen. cbn [mbind outcome_bind].
  set (vm1 := set_gas_paid (ip_gas_paid i) vm).
  assert (ready vm1) as Hr1 by (destruct Hr; by split).
  assert (mem vm1 = ip_memory i) as Hmem1 by done.
  assert (code_length (vm_code vm1) <= 2 ^ 32) as Hlen1 by (cbn; lia). clearbody vm1. clear vm Hr Hmem Hlen.
  destruct (decide (code_valid (vm_code vm1) = true /\ is_Some (inst_pos (vm_code vm1) !! ip_program_counter i)))
    as [[Hv Hpc]|Hbad].
  - destruct (invoke_spec vm1 _ g Hr1 Hv Hpc Hg) as (vm2 & -> & Hr2 & Hex & Hc2 & Hpc2 & Hg2 & _).
    destruct (exit_condition_spec vm2 (rd_regs _ Hr2) Hex) as (value & a & -> & Hval).
    eexists _, _. split; [reflexivity|]. destruct Hr2 as [_ Hregs Hmem2].
    pose proof (rd_code _ Hr1 Hv) as Hcode.
    assert (forall p, is_Some (inst_pos (vm_code vm1) !! p) -> is_u64 p) as Hin.
    { intros p Hp'. destruct (decoded_inst _ _ Hcode Hp') as [Hb _]. unfold is_u64. lia. }
    split; cbn [ec_reason]; [done|by destruct Hmem2; split|done| |].
    + unfold resume_counter. cbn [pc skip_len put_mem]. unfold exit_ok in Hex.
      destruct (status vm2); try done; try by apply Hin.
      destruct Hex as (_ & _ & _ & _ & Hnext). rewrite Hc2 in Hnext. by apply Hin.
    + unfold exit_ok in Hex. destruct (status vm2); try done; destruct Hval as (v & _ & -> & Hu); by exists v.
  - assert (code_valid (vm_code vm1) = false \/ inst_pos (vm_code vm1) !! ip_program_counter i = None) as Hbad'.
    { destruct (code_valid (vm_code vm1)); [right|by left].
      destruct (inst_pos (vm_code vm1) !! ip_program_counter i) eqn:Hi; [|done]. by destruct Hbad. }
    destruct (invoke_refused_run vm1 _ g Hg Hbad') as (vm2 & -> & Hst & _ & Hgas & Hreg & Hmem2).
    unfold get_exit_condition. rewrite Hst. cbn. eexists _, _. split; [reflexivity|].
    split; cbn [ec_reason]; [| | | |done].
    + unfold regs_ok. rewrite Hreg. apply Hr1.
    + rewrite Hmem2. by apply Hr1.
    + rewrite Hgas. unfold is_u64 in Hg. lia.
    + done.
Qed.

Lemma encode_registers_run regs : List.Forall is_u64 regs ->
  exists bs, encode_registers regs = Ret bs /\ List.Forall is_byte bs /\ length bs = (8 * length regs)%nat.
Proof.
  induction 1 as [|r regs Hr _ (bs & Hrun & Hb & Hl)]; [by exists []|]. cbn [encode_registers].
  rewrite to_bytes_run by (unfold is_u64 in Hr; lia). cbn [mbind outcome_bind]. rewrite Hrun.
  eexists. split; [reflexivity|]. split; [by apply Forall_app_2; [apply le_bytes_bytes|]|].
  rewrite length_app, length_le_bytes. cbn [length]. lia.
Qed.

Lemma accessible_w_r a n m :
  mem_wf m -> 0 <= a -> 0 < n -> is_accessible a n MEM_W m = Ret true -> is_accessible a n MEM_R m = Ret true.
Proof.
  intros [_ Hsub] Ha Hn Hw. destruct (accessible_iff a n MEM_W m Ha Hn) as [He Hacc]; [by right|done|].
  cbn [Z.eqb MEM_W Pos.eqb] in Hacc.
  destruct (is_accessible_total a n MEM_R m) as [b Hb]; [by left|]. rewrite Hb. destruct b; [done|].
  exfalso. revert Hb. unfold is_accessible. destruct (Z.eqb_spec n 0); [lia|].
  destruct (Z.ltb_spec a 0), (Z.ltb_spec n 0), (Z.ltb_spec SIZE (a + n)); try lia; cbn [orb].
  cbn -[_PAGE_SHIFT]. intros [= Hb]. apply not_true_iff_false in Hb. apply Hb.
  apply is_accessible_accessible; [lia..|]. intros x Hx. destruct (Hacc x Hx). auto.
Qed.

(** The head of a readable range can be read. *)
Lemma accessible_prefix a n k m :
  0 <= a -> 0 < k <= n -> is_accessible a n MEM_R m = Ret true ->
  read_bytes a k None m = (Ret (map (mv_get (mv m)) (py_range a (a + k))), set_mem_addr a m).
Proof.
  intros Ha Hk Hr. destruct (accessible_iff a n MEM_R m Ha ltac:(lia) ltac:(by left) Hr) as [He Hacc].
  destruct (read_bytes_spec a k None m) as [[_ ->]|(pg & (Hpg & Hno & _) & _)]; [lia|lia|done|].
  exfalso. apply Hno, Hacc. unfold pages_of in *. rewrite elem_of_py_range in *.
  assert ((a + k - 1) / 4096 <= (a + n - 1) / 4096) by (apply Z.div_le_mono; lia). lia.
Qed.

Lemma frame_int_u64 frame k :
  List.Forall is_byte frame -> (k + 8 <= length frame)%nat -> is_u64 (frame_int frame k).
Proof.
  intros Hb Hl. unfold frame_int, is_u64.
  pose proof (le_int_range (take 8 (drop k frame)) ltac:(by apply Forall_take, Forall_drop)) as Hr.
  rewrite length_take, length_drop in Hr. by replace (Z.of_nat (8 `min` (length frame - k))) with 8 in Hr by lia.
Qed.

(** The gas requested is the head of the frame. *)
Lemma frame_int_head m o :
  frame_int (map (mv_get (mv m)) (py_range o (o + 112))) 0 = le_int (map (mv_get (mv m)) (py_range o (o + 8))).
Proof.
  unfold frame_int. rewrite drop_0, (py_range_app o (o + 8) (o + 112)), map_app by lia.
  rewrite take_app_length'; [done|]. rewrite length_map, length_py_range. lia.
Qed.

Section serving.
Context {J : Type} `{JamCodec J} `{!JamCodecLaws J} {S : Type} `{ServicesState S} `{!ServicesLaws S}.
Context (offset : Z) (Hoff : 0 <= offset) (vm0 : VM) (g0 : Z) (regs : list Z) (Hregs : registers_ok regs).
Abbreviation C := (refine_ctx_ok offset).
Abbreviation Rx := RefineInvocationContext.
Implicit Types (s : Call Rx).
Abbreviation call_inv := (call_inv C vm0 g0).
Abbreviation safe := (safe C refine_may vm0 g0).
Abbreviation serves := (serves C refine_may vm0 g0).

Lemma safe_write a data :
  List.Forall is_byte data -> safe (on_mem (X := Rx) (write_bytes a data)) (fun _ => True).
Proof using.
  intros Hd. apply safe_on_mem. intros m Hm. pose proof (write_bytes_wf a data m Hd Hm) as Hwf.
  destruct (write_bytes_any a data m) as (r & a' & v & Heq & Hr). rewrite Heq in Hwf |- *.
  split; [done|]. split; [done|]. by destruct r.
Qed.

(** An inner machine that is there is valid, and its number in range. *)
Definition found (n : Z) (o : option IntegratedPVM) : Prop :=
  match o with Some i => 0 <= n < 63 /\ inner_ok i | None => True end.

Lemma safe_inner n : safe (inner n) (found n).
Proof using.
  apply safe_gets. intros s ([_ _ _ _ _ [Hi _ _ _]] & _). unfold found.
  destruct (inner_pvm_lookup (ca_ctx s) !! n) as [i|] eqn:Hn; [by apply (Hi n)|done].
Qed.

(** Changing the context alone. *)
Lemma safe_ctx (f : Rx -> Rx) :
  (forall x b, C x b -> C (f x) b) -> safe (modify (fun s => set_ctx (f (ca_ctx s)) s)) (fun _ => True).
Proof using.
  intros Hf s ([Hc Hp Hb Hg Hr Hx] & Hga & He). split; [|done]. split; [|done]. split; try done. by apply Hf.
Qed.

Lemma safe_put_inner n i : 0 <= n < 63 -> inner_ok i -> safe (put_inner n i) (fun _ => True).
Proof using.
  intros Hn Hi. unfold put_inner.
  apply (safe_ctx (fun x => mkRefine (<[n := i]> (inner_pvm_lookup x)) (export_segments x))).
  intros x b [Hl Hs Hk Hb]. split; try done. by apply map_Forall_insert_2.
Qed.

Lemma safe_on_inner {A} n i (op : eff PVMMemory exn A) (Φ : A -> Prop) :
  0 <= n < 63 -> inner_ok i ->
  (mem_wf (ip_memory i) -> mem_wf (op (ip_memory i)).2 /\
     match (op (ip_memory i)).1 with Ret a => Φ a | Raise e => refine_may e end) ->
  safe (on_inner n i op) Φ.
Proof using.
  intros Hn Hi Hop s Hs. pose proof Hi as [Hc Hz Hm Hp]. destruct (Hop Hm) as [Hm' Hr].
  unfold wp, on_inner. destruct (op (ip_memory i)) as [r m]. cbn [fst snd] in *.
  set (i' := mkInner _ _ _ _). assert (inner_ok i') as Hi' by by split.
  destruct (safe_put_inner n i' Hn Hi' s Hs) as [Hs' _]. by destruct r.
Qed.

Lemma safe_lift_accessible a n mode m :
  mode = MEM_R \/ mode = MEM_W -> safe (lift (is_accessible a n mode m) : HC Rx bool) (fun _ => True).
Proof using.
  intros Hm. apply safe_lift. destruct (is_accessible_total a n mode m Hm) as [b ->]. done.
Qed.

Lemma safe_accessible_bind {A} a n mode (k : bool -> HC Rx A) Φ :
  mode = MEM_R \/ mode = MEM_W -> (forall b, safe (k b) Φ) -> safe (accessible_mem a n mode ≫= k) Φ.
Proof using. intros Hm Hk. apply (safe_bind _ _ _ _ _ _ (fun _ => True)); [by apply safe_accessible|auto]. Qed.

Lemma safe_inner_bind {A} n (k : option IntegratedPVM -> HC Rx A) Φ :
  safe (k None) Φ -> (forall i, 0 <= n < 63 -> inner_ok i -> safe (k (Some i)) Φ) -> safe (inner n ≫= k) Φ.
Proof using.
  intros HN HS. apply (safe_bind _ _ _ _ _ _ (found n)); [by apply safe_inner|].
  intros [i|] Hi; [by apply HS; apply Hi|done].
Qed.

(** ** Each call is served *)

Lemma two_terms rate r : 0 <= rate -> 0 <= r <= 12 ->
  List.Forall (fun t : Z * Z => 0 <= t.1 /\ 0 <= t.2 <= 12) [(rate, r)].
Proof using. intros. by apply List.Forall_cons. Qed.

Ltac serve_by_size :=
  apply hostcall_serves; [apply by_size_safe; [done|lia|apply two_terms; lia]|];
  apply (safe_serves _ _ _ _ _ (fun _ => True)).
Ltac answer := apply safe_answer; [by right|lia|done].

Lemma hc_peek_serves : serves (hc_peek regs).
Proof using Hregs.
  serve_by_size. do 4 (apply safe_reg; [done|lia|intros ? ?]).
  apply safe_accessible_bind; [by right|]. intros [|]; cbn [negb]; [|by apply safe_exit; [left|]].
  apply safe_inner_bind; [answer|]. intros i Hn Hi.
  apply (safe_bind _ _ _ _ _ _ (fun _ => True)); [by apply safe_lift_accessible; left|].
  intros [|] _; cbn [negb]; [|answer].
  apply (safe_bind _ _ _ _ _ _ (List.Forall is_byte)).
  - apply safe_on_inner; [done|done|]. intros Hm.
    destruct (read_bytes_any v1 v2 None (ip_memory i)) as (r & a' & -> & Hr). split; [done|].
    destruct r; [by apply Hr|done].
  - intros data Hd. apply safe_seq; [by apply safe_write|answer].
Qed.

Lemma hc_poke_serves : serves (hc_poke regs).
Proof using Hregs.
  serve_by_size. do 4 (apply safe_reg; [done|lia|intros ? ?]).
  apply safe_accessible_bind; [by left|]. intros [|]; cbn [negb]; [|by apply safe_exit; [left|]].
  apply safe_inner_bind; [answer|]. intros i Hn Hi.
  apply (safe_bind _ _ _ _ _ _ (fun _ => True)); [by apply safe_lift_accessible; right|].
  intros [|] _; cbn [negb]; [|answer].
  apply (safe_bind _ _ _ _ _ _ (List.Forall is_byte)); [by apply safe_read|].
  intros data Hd. apply safe_seq; [|answer].
  apply safe_on_inner; [done|done|]. intros Hm. pose proof (write_bytes_wf v1 data _ Hd Hm) as Hwf.
  destruct (write_bytes_any v1 data (ip_memory i)) as (r & a' & m' & Heq & Hr). rewrite Heq in Hwf |- *.
  split; [done|]. by destruct r.
Qed.

Lemma hc_expunge_serves : serves (hc_expunge regs).
Proof using Hregs.
  apply hostcall_serves; [by apply fixed_cost_safe|]. apply (safe_serves _ _ _ _ _ (fun _ => True)).
  apply safe_seq; [by apply safe_exit; [right|]|].
  apply safe_reg; [done|lia|intros n _]. apply safe_inner_bind; [by apply safe_put_register|].
  intros i Hn Hi. apply safe_seq; [apply safe_put_register; [lia|apply Hi|done]|].
  apply (safe_ctx (fun x => mkRefine (delete n (inner_pvm_lookup x)) (export_segments x))).
  intros x b [Hl Hs Hk Hb]. split; try done. by apply map_Forall_delete.
Qed.

Lemma or_panic_safe op : safe op (fun _ => True) -> safe (or_panic op) (fun _ => True).
Proof using.
  intros Hop s Hs. specialize (Hop s Hs). unfold or_panic, wp in *.
  destruct (op s) as [[[]|e] s']; [done|]. destruct Hop as [-> Hs'].
  by apply (safe_exit C refine_may vm0 g0 ExitReason.panic (fun _ => True)); [left| |].
Qed.

Lemma hc_pages_serves : serves (hc_pages regs).
Proof using Hregs.
  apply hostcall_serves; [by apply pages_cost_safe|]. apply (safe_serves _ _ _ _ _ (fun _ => True)).
  do 4 (apply safe_reg; [done|lia|intros ? ?]).
  apply safe_inner_bind; [answer|]. intros i Hn Hi.
  apply safe_seq; [by apply safe_exit; [right|]|].
  destruct (Z.ltb_spec 4 v2), (Z.ltb_spec v0 16), (Z.leb_spec (2 ^ 32 / PVM_PAGE_SIZE) (v0 + v1)); cbn [orb];
    try by apply safe_put_register.
  change (2 ^ 32 / PVM_PAGE_SIZE) with 1048576 in *.
  apply (safe_bind _ _ _ _ _ _ (fun _ => True)).
  { destruct (2 <? v2); [by apply safe_lift_accessible; left|by apply safe_ret]. }
  intros [|] _; cbn [negb]; [|by apply safe_put_register].
  apply safe_seq; [by apply safe_put_register|]. apply or_panic_safe.
  apply safe_on_inner; [done|done|]. intros Hm. unfold set_inner_pages.
  assert (exists m', (if v2 <? 3 then zero v0 v1 (Some (pages_acl v2)) else mret tt) (ip_memory i)
            = (Ret tt, m') /\ mem_wf m') as (m' & Heq & Hm').
  { destruct (v2 <? 3); [|by exists (ip_memory i)].
    destruct (zero_total v0 v1 (Some (pages_acl v2)) (ip_memory i)) as [m' Hz].
    { lia. } { change SIZE with (1048576 * 4096). lia. }
    exists m'. split; [done|]. pose proof (zero_wf v0 v1 (Some (pages_acl v2)) _ Hm) as Hwf. by rewrite Hz in Hwf. }
  rewrite eff_bind_run, Heq. cbn. split; [|done]. unfold change_acl. destruct (_ <=? 0); [done|].
  by apply set_acl_range_wf.
Qed.

Lemma hc_machine_serves : serves (hc_machine regs).
Proof using Hregs JamCodecLaws0.
  serve_by_size. do 3 (apply safe_reg; [done|lia|intros ? ?]).
  apply safe_accessible_bind; [by left|]. intros ok.
  apply (safe_bind _ _ _ _ _ _ (fun o => match o with Some bs => List.Forall is_byte bs | None => True end)).
  { destruct ok; [|by apply safe_ret].
    apply (safe_bind _ _ _ _ _ _ (List.Forall is_byte)); [by apply safe_read|]. intros bs Hbs. by apply safe_ret. }
  intros blob Hblob. set (code := _ ≫= _).
  apply (safe_bind _ _ _ _ _ _ (fun x => exists b, C x b)).
  { apply safe_gets. intros s ([_ _ _ _ _ Hx] & _). by eexists. }
  intros x [b [Hl _ _ _]]. destruct (Z.leb_spec 63 (Z.of_nat (size (inner_pvm_lookup x)))) as [Hf|Hf]; [answer|].
  destruct (free_key_spec (inner_pvm_lookup x)) as [Hk _]; [by intros n i Hn; apply (Hl n i Hn)|done|].
  destruct blob as [blob|]; [|by apply safe_exit; [left|]]. subst code. cbn [mbind option_bind].
  destruct (from_jam_bytes (JamBytes blob) true) as [c|] eqn:Hc; [|answer].
  destruct (from_jam_bytes_spec _ _ _ (JamBytes_ok _ Hblob) Hc) as (Hb & Hlen & Hmax & _).
  apply safe_seq; [by apply safe_exit; [right|]|].
  destruct (is_valid c v1); cbn [negb]; [|by apply safe_put_register].
  apply safe_seq; [apply safe_put_register; [lia|unfold is_u64; lia|done]|].
  apply safe_put_inner; [done|]. split; cbn; [done| |apply empty_memory_wf|done].
  rewrite Hlen. by etransitivity.
Qed.

(** A look-up that answers changes nothing. *)
Lemma safe_service_answers {A B} (o : outcome exn A) (k : A -> HC RefineInvocationContext B) Φ : (exists a, o = Ret a) -> (forall a, safe (k a) Φ) -> safe (lift o ≫= k) Φ.
Proof using. intros [a ->] Hk st Hs. apply wp_bind. eapply wp_run; [done|]. by apply Hk. Qed.

Lemma hc_historical_lookup_serves services id timeslot :
  serves (hc_historical_lookup services id timeslot regs).
Proof using Hregs ServicesLaws0.
  serve_by_size. apply safe_service_answers; [apply service_account_answers|intros own]. apply safe_reg; [done|lia|intros r7 _].
  apply (safe_bind _ _ _ _ _ _ (fun _ => True)).
  { destruct (_ && _); [by apply safe_ret|]. apply safe_service_answers; [apply service_account_answers|intros other]. by apply safe_ret. }
  intros [aid account] _. apply safe_reg; [done|lia|intros h Hh]. apply safe_reg; [done|lia|intros o Ho].
  apply (safe_bind _ _ _ _ _ _ (fun _ => True)).
  { destruct account; [by apply safe_accessible; left|by apply safe_ret]. }
  intros readable _.
  apply (safe_bind _ _ _ _ _ _ (fun pb : option bytes * bool => opt_blob_ok pb.1)).
  - destruct account; [|by apply safe_ret]. destruct readable; [|by apply safe_ret].
    intros st Hs. pose proof (safe_read C refine_may vm0 g0 h 32 None eq_refl st Hs) as Hread.
    unfold wp in *. destruct (on_mem (read_bytes h 32 None) st) as [[hash|e] s'].
    + destruct (historical_preimage_ok services aid timeslot hash) as (v & -> & Hv). by split; [apply Hread|].
    + destruct Hread as [-> Hs']. by split.
  - intros [v bad] Hv. apply safe_reg; [done|lia|intros r10 H10]. apply safe_reg; [done|lia|intros r11 H11].
    unfold is_u64 in *. by apply deliver_safe; try lia.
Qed.

Lemma read_bytes_empty p z padding m :
  0 <= p < SIZE -> z <= 0 -> exists m', read_bytes p z padding m = (Ret (pad padding []), m').
Proof using.
  intros Hp Hz. unfold read_bytes. destruct (Z.ltb_spec p 0), (Z.leb_spec SIZE p), (Z.leb_spec z 0); try lia.
  by eexists.
Qed.

(** Reading and padding a segment gives one of the full size. *)
Lemma segment_ok p z m bs a :
  0 <= z <= EC_SEGMENT_SIZE -> mem_wf m ->
  read_bytes p z (Some EC_SEGMENT_SIZE) m = (Ret bs, a) -> List.Forall is_byte bs /\ blen bs = EC_SEGMENT_SIZE.
Proof using.
  intros Hz Hm Hr. split.
  { destruct (read_bytes_any p z (Some EC_SEGMENT_SIZE) m) as (r & a' & Heq & Hb). rewrite Heq in Hr.
    injection Hr as -> _. by apply Hb. }
  assert (forall l, blen l <= EC_SEGMENT_SIZE -> blen (pad (Some EC_SEGMENT_SIZE) l) = EC_SEGMENT_SIZE) as Hpad.
  { intros l Hl. unfold pad, blen in *. cbn [truthy]. change (truthy EC_SEGMENT_SIZE) with true. cbn [andb].
    destruct (Z.ltb_spec (Z.of_nat (length l)) EC_SEGMENT_SIZE); [|lia].
    rewrite length_app, length_replicate. unfold EC_SEGMENT_SIZE in *. lia. }
  destruct (decide (0 <= p < SIZE)) as [Hp|Hp].
  2: { unfold read_bytes in Hr. destruct (Z.ltb_spec p 0), (Z.leb_spec SIZE p); try lia; done. }
  destruct (Z_lt_le_dec 0 z) as [Hpos|Hneg].
  - destruct (read_bytes_spec p z (Some EC_SEGMENT_SIZE) m Hp Hpos) as [[_ Heq]|(pg & _ & Heq)];
      rewrite Heq in Hr; [|done]. injection Hr as <- _. apply Hpad.
    unfold blen. rewrite length_map, length_py_range. lia.
  - destruct (read_bytes_empty p z (Some EC_SEGMENT_SIZE) m Hp Hneg) as [m' Heq]. rewrite Heq in Hr.
    assert (bs = pad (Some EC_SEGMENT_SIZE) []) as -> by congruence. by apply Hpad.
Qed.

Lemma hc_export_serves : serves (hc_export offset regs).
Proof using Hregs Hoff.
  apply hostcall_serves; [by apply fixed_cost_safe|]. apply (safe_serves _ _ _ _ _ (fun _ => True)).
  apply safe_reg; [done|lia|intros p Hp]. apply safe_reg; [done|lia|intros z Hz].
  apply safe_accessible_bind; [by left|]. intros [|]; cbn [negb]; [|by apply safe_exit; [left|]].
  apply (safe_bind _ _ _ _ _ _ (fun bs => List.Forall is_byte bs /\ blen bs = EC_SEGMENT_SIZE)).
  { apply safe_on_mem. intros m Hm.
    destruct (read_bytes_any p (Z.min z EC_SEGMENT_SIZE) (Some EC_SEGMENT_SIZE) m) as (r & a' & Heq & Hr).
    rewrite Heq. split; [done|]. split; [done|]. destruct r as [bs|e]; [|done]. cbn.
    eapply segment_ok; [|exact Hm|exact Heq]. unfold is_u64, EC_SEGMENT_SIZE in *. lia. }
  intros seg Hseg s Hs. apply wp_bind. eapply wp_run; [done|].
  pose proof Hs as ([Hc Hpc Hb Hga Hr [Hl Hsg Hct Hbo]] & Hg & He).
  set (index := offset + _).
  apply wp_bind. unfold exit_with. eapply wp_run; [done|]. set (s1 := mkCall _ _ _ _).
  assert (call_inv s1) as Hs1.
  { split; [by split|]. split; [done|by right]. }
  destruct (Z.leb_spec (MAXIMUM_NUMBER_EXPORTS_WORK_PACKAGE gp_full) index) as [Hfull|Hroom].
  { by apply safe_put_register. }
  change (MAXIMUM_NUMBER_EXPORTS_WORK_PACKAGE gp_full) with 3072 in *.
  destruct (put_register_run 7 index s1 Hr) as (r & Hrun & _ & Hr'); [lia|unfold is_u64; lia|].
  apply wp_bind. eapply wp_run; [exact Hrun|]. split; [|done]. cbn.
  split; [|split; [done|by right]]. split; cbn; try done. split; cbn; try done.
  - apply Forall_app. split; [done|]. by constructor.
  - right. rewrite length_app. cbn. change (MAXIMUM_NUMBER_EXPORTS_WORK_PACKAGE gp_full) with 3072. lia.
Qed.
Lemma store_inner_serves n o i g result pvm s :
  0 <= n < 63 -> inner_ok i -> is_u64 g -> inner_result g result pvm ->
  call_inv s -> ca_gas s + g <= g0 ->
  wp (store_inner n o i result pvm) (fun _ s' => served C vm0 g0 s')
    (fun e s' => refine_may e /\ served C vm0 g0 s') s.
Proof using.
  intros Hn [Hc Hz _ _] Hg [Hr Hm Hga Hct Hex] (Hf & Hgs & He) Hle.
  unfold store_inner. apply wp_bind. eapply wp_run; [done|]. set (s1 := set_out_gas _ s).
  assert (call_inv s1) as Hs1.
  { split; [destruct Hf; by split|]. split; [cbn; lia|done]. }
  generalize dependent s1. intros s1 Hs1. revert s1 Hs1.
  apply (safe_serves C refine_may vm0 g0 _ (fun _ => True)).
  unfold is_u64 in Hg. rewrite to_bytes_run by (cbn; lia).
  destruct (encode_registers_run (reg pvm)) as (bs & -> & Hbs & _); [apply Hr|].
  apply (safe_bind _ _ _ _ _ _ (List.Forall is_byte)); [apply safe_lift, le_bytes_bytes|]. intros gb Hgb.
  apply (safe_bind _ _ _ _ _ _ (List.Forall is_byte)); [by apply safe_lift|]. intros rb Hrb.
  apply safe_seq; [by apply safe_write, Forall_app_2|].
  apply safe_seq; [by apply safe_put_inner|].
  apply (safe_bind _ _ _ _ _ _ is_u64).
  { apply safe_lift. by destruct (ec_reason result). }
  intros v Hv. apply safe_seq; [by apply safe_put_register|].
  destruct (ec_reason result); try done; try by apply safe_ret.
  all: destruct Hex as (w & -> & Hw); by apply safe_put_register.
Qed.

Lemma register_run i v s : 0 <= i -> regs !! Z.to_nat i = Some v -> register (X := Rx) regs i s = (Ret v, s).
Proof using. intros Hi Hv. unfold register. rewrite py_index_nonneg by done. by rewrite Hv. Qed.

(** What the call requests of the frame of machine memory [m]. *)
Definition requested_gas (o : Z) (m : PVMMemory) (req : Z) : Prop :=
  (req = 0 /\ is_accessible o 112 MEM_W m = Ret false) \/
  (is_accessible o 112 MEM_W m = Ret true /\
   req = le_int (map (mv_get (mv m)) (py_range o (o + 8)))).

Lemma invoke_cost_run o s :
  call_inv s -> regs !! 8%nat = Some o -> is_u64 o ->
  exists req s', invoke_cost (X := Rx) regs s = (Ret (968 + req), s') /\ 0 <= req /\ call_inv s' /\
    requested_gas o (mem (ca_vm s')) req.
Proof using.
  intros Hs Ho Huo. unfold invoke_cost, is_u64 in *.
  rewrite eff_bind_run, (register_run 8 o) by done. rewrite eff_bind_run.
  destruct (accessible_mem_run o 112 MEM_W s) as (b & Hrun & Hacc); [by right|]. rewrite Hrun, eff_bind_run.
  destruct b; [|exists 0, s; by repeat (split; [done|]); left].
  pose proof Hs as ([Hc Hp Hb Hga [Hcc Hrr Hm] Hx] & Hg & He).
  rewrite eff_bind_run. unfold on_mem. rewrite (accessible_prefix o 112 8) by (try done; try lia; apply accessible_w_r; lia || done).
  cbn [pad]. eexists _, _. split; [reflexivity|].
  split; [apply le_int_range, List.Forall_map, List.Forall_forall; intros; by apply Hm|].
  split; [|by right]. split; [by split|done].
Qed.

Lemma hc_invoke_serves : serves (hc_invoke regs).
Proof using Hregs.
  intros s Hs. unfold hc_invoke, hostcall. pose proof Hregs as [Hl Hall].
  destruct (lookup_lt_is_Some_2 regs 8) as [o Ho]; [lia|].
  destruct (lookup_lt_is_Some_2 regs 7) as [n Hn]; [lia|].
  pose proof (Forall_lookup_1 _ _ _ _ Hall Ho) as Huo.
  destruct (invoke_cost_run o s Hs Ho Huo) as (req & s1 & Hrun & Hreq & Hs1 & Hfr).
  apply wp_bind. eapply wp_run; [exact Hrun|]. apply wp_bind. eapply wp_run; [done|].
  apply wp_bind. eapply wp_run; [done|]. cbn [ca_gas set_out_gas].
  pose proof Hs1 as (Hf1 & Hg1 & He1).
  assert (call_frame C vm0 (set_out_gas (ca_gas s1 - (968 + req)) s1)) as Hf2 by (destruct Hf1; by split).
  destruct (Z.ltb_spec (ca_gas s1 - (968 + req)) 0) as [Hlt|Hge].
  { unfold wp, exit_with, modify. split; [destruct Hf2; by split|]. split; [cbn; lia|]. right. by left. }
  set (s2 := set_out_gas _ s1). assert (call_inv s2) as Hs2 by (split; [done|]; split; [cbn; lia|done]).
  apply wp_bind. eapply wp_run; [by apply (register_run 7 n)|].
  apply wp_bind. eapply wp_run; [by apply (register_run 8 o)|].
  apply wp_bind. destruct (accessible_mem_run o 112 MEM_W s2) as (b & Hacc & Hb); [by right|].
  eapply wp_run; [exact Hacc|]. destruct b; cbn [negb].
  2: { revert s2 Hs2 Hacc Hb. intros s2 Hs2 _ _. revert s2 Hs2.
       by apply (safe_serves C refine_may vm0 g0 _ (fun _ => True)), safe_exit; [left|]. }
  destruct Hfr as [[_ Hfr]|[Hw Hreq']]; [change (mem (ca_vm s2)) with (mem (ca_vm s1)) in Hb; congruence|].
  apply wp_bind. unfold exit_with. eapply wp_run; [done|]. apply wp_bind. eapply wp_run; [done|].
  cbn [ca_ctx]. set (s3 := mkCall _ _ _ _).
  assert (call_inv s3) as Hs3.
  { destruct Hf2. split; [by split|]. split; [cbn; lia|by right]. }
  pose proof Hs1 as ([_ _ _ _ [_ _ Hm] [Hi _ _ _]] & _).
  destruct (inner_pvm_lookup (ca_ctx s2) !! n) as [i|] eqn:Hni.
  2: { by apply (safe_serves C refine_may vm0 g0 _ (fun _ => True)); [apply safe_put_register|]. }
  destruct (Hi n i Hni) as [Hn63 Hio]. unfold is_u64 in Huo.
  assert (is_accessible o 112 MEM_R (mem (ca_vm s1)) = Ret true) as Hr by (apply accessible_w_r; done || lia).
  apply wp_bind. eapply wp_run.
  { unfold on_mem. cbn [ca_vm s3]. rewrite (accessible_prefix o 112 112) by (done || lia). reflexivity. }
  cbn [pad]. set (frame := map _ _). set (s4 := set_vm _ s3).
  assert (List.Forall is_byte frame) as Hfb by (apply List.Forall_map, List.Forall_forall; intros; by apply Hm).
  assert (length frame = 112%nat) as Hfl by (unfold frame; rewrite length_map, length_py_range; lia).
  assert (call_inv s4) as Hs4.
  { destruct Hs3 as ([? ? ? ? [? ? []] ?] & ? & ?). split; [by split|done]. }
  destruct (run_inner_spec i (frame_int frame 0) (frame_registers frame)) as (result & pvm & Hinner & Hres).
  { done. } { apply frame_int_u64; [done|lia]. } { unfold frame_registers. by rewrite length_map, length_seq. }
  apply wp_bind. eapply wp_run; [unfold lift; by rewrite Hinner|].
  eapply store_inner_serves; [done|done|apply (frame_int_u64 frame 0); [done|lia]|done|done|].
  assert (frame_int frame 0 = req) as -> by (rewrite Hreq'; apply (frame_int_head (mem (ca_vm s1)))).
  cbn. lia.
Qed.
End serving.

(** ** The mutators keep the laws of the host-call loop *)

(** What the context has committed grows by no more than the gas used. *)
Definition pays {X} (com : X -> Z) (C : X -> option Z * option Z * Z -> Prop) vm (op : HC X unit) (x : X) : Prop :=
  forall s, call_inv C vm (gas vm) s -> ca_ctx s = x ->
    wp op (fun _ s' => com (ca_ctx s') + Z.max 0 (ca_gas s') <= com x + gas vm) (fun _ _ => True) s.

Lemma serves_pays {X} (C : X -> option Z * option Z * Z -> Prop) may vm (op : HC X unit) x : 0 <= gas vm ->
  serves C may vm (gas vm) op -> pays (fun _ => 0) C vm op x.
Proof.
  intros Hg Hop s Hs _. eapply wp_mono; [by apply Hop| |done]. intros [] s' (_ & Hle & _). lia.
Qed.

Lemma serve_ok {X} (com : X -> Z) (C : X -> option Z * option Z * Z -> Prop) may (op : HC X unit) x vm :
  serves C may vm (gas vm) op -> pays com C vm op x -> C x (bounds (mem vm)) -> ready vm -> 0 <= gas vm ->
  exists r x' vm', serve op (gas vm) x vm = (r, (x', vm')) /\
    C x' (bounds (mem vm')) /\ ready vm' /\ vm_code vm' = vm_code vm /\ pc vm' = pc vm /\
    current_block_start vm' = current_block_start vm /\ gas vm' <= gas vm /\
    match r with
    | Raise e => may e
    | Ret out =>
        (ec_reason (mo_exit_condition out) <> ExitReason.host_halt /\ ec_reason (mo_exit_condition out) <> ExitReason.page_fault) /\
        (mo_gas_limit out <= gas vm /\ com x' + Z.max 0 (mo_gas_limit out) <= com x + gas vm) /\
        (ec_reason (mo_exit_condition out) = ExitReason.resume -> 0 <= mo_gas_limit out) /\
        halt_data (mo_exit_condition out)
    end.
Proof.
  intros Hop Hpay Hx Hr Hg. unfold serve. set (s := mkCall _ _ _ _).
  assert (call_inv C vm (gas vm) s) as Hs by (split; [by split|]; split; [cbn; lia|by left]).
  specialize (Hop s Hs). specialize (Hpay s Hs eq_refl). unfold wp in Hop, Hpay. destruct (op s) as [[[]|e] s'].
  - destruct Hop as ([Hc Hp Hb Hga Hrd Hx'] & Hle & Hres).
    eexists _, _, _. split; [reflexivity|]. do 5 (split; [done|]). split; [lia|]. cbn.
    unfold halt_data. destruct Hres as [->|[->|[-> ?]]]; split_and!; try done; lia.
  - destruct Hop as (He & [Hc Hp Hb Hga Hrd Hx'] & Hle & Hres).
    eexists _, _, _. split; [reflexivity|]. do 5 (split; [done|]). split; [lia|done].
Qed.

(** A context that commits nothing. *)
Lemma serves_ok {X} (C : X -> option Z * option Z * Z -> Prop) may (op : HC X unit) x vm :
  serves C may vm (gas vm) op -> C x (bounds (mem vm)) -> ready vm -> 0 <= gas vm ->
  exists r x' vm', serve op (gas vm) x vm = (r, (x', vm')) /\
    C x' (bounds (mem vm')) /\ ready vm' /\ vm_code vm' = vm_code vm /\ pc vm' = pc vm /\
    current_block_start vm' = current_block_start vm /\ gas vm' <= gas vm /\
    match r with
    | Raise e => may e
    | Ret out =>
        (ec_reason (mo_exit_condition out) <> ExitReason.host_halt /\ ec_reason (mo_exit_condition out) <> ExitReason.page_fault) /\
        (mo_gas_limit out <= gas vm /\ 0 + Z.max 0 (mo_gas_limit out) <= 0 + gas vm) /\
        (ec_reason (mo_exit_condition out) = ExitReason.resume -> 0 <= mo_gas_limit out) /\
        halt_data (mo_exit_condition out)
    end.
Proof. intros Hop Hx Hr Hg. apply (serve_ok (fun _ => 0)); try done. by eapply serves_pays. Qed.

Section mutator_laws.
Context {J : Type} `{JamCodec J} `{!JamCodecLaws J} {S : Type} `{ServicesState S} `{!ServicesLaws S}.
Context {RC AI : Type} `{FetchCodec RC AI} `{!FetchCodecLaws RC AI}.

Record refine_mutator_ok (self : RefineMutator (S := S) RC) : Prop := {
  rmo_offset : 0 <= rm_export_segment_offset self;
  rmo_fetch : fetch_ok (refine_fetch (AI := AI) self)
}.

Lemma refine_dispatch_serves self nr regs vm0 g0 :
  refine_mutator_ok self -> registers_ok regs -> g0 < 2 ^ 64 ->
  serves (refine_ctx_ok (rm_export_segment_offset self)) refine_may vm0 g0 (refine_dispatch self nr regs).
Proof using FetchCodecLaws0 JamCodecLaws0 ServicesLaws0.
  intros [Ho Hf] Hr Hg. unfold refine_dispatch.
  assert (serves (refine_ctx_ok (rm_export_segment_offset self)) refine_may vm0 g0 hc_not_found) as Hnf
    by apply hc_not_found_serves.
  destruct (decide (nr ∈ [0; 1; 2; 7; 8; 9; 10; 11; 12; 13; 14; 100])) as [Hin|Hout].
  - repeat (apply elem_of_cons in Hin as [->|Hin]; [|]); try by apply elem_of_nil in Hin.
    + by apply hc_gas_serves.
    + by apply hc_grow_heap_serves; [apply refine_ctx_bounds|].
    + by apply hc_fetch_serves.
    + by apply hc_historical_lookup_serves.
    + by apply hc_export_serves.
    + by apply hc_machine_serves.
    + by apply hc_peek_serves.
    + by apply hc_poke_serves.
    + by apply hc_pages_serves.
    + by apply hc_invoke_serves.
    + by apply hc_expunge_serves.
    + by apply hc_log_serves.
  - destruct nr as [|q|q]; [|repeat (destruct q as [q|q|]; try done)|done].
    all: by destruct Hout; repeat constructor.
Qed.

Lemma is_authorized_dispatch_serves g p nr regs vm0 g0 :
  fetch_ok (is_authorized_fetch (AI := AI) g p) -> registers_ok regs -> g0 < 2 ^ 64 ->
  serves (fun _ : unit => bounds_ok) (fun _ => False) vm0 g0 (is_authorized_dispatch g p nr regs).
Proof using FetchCodecLaws0.
  intros Hf Hr Hg. unfold is_authorized_dispatch.
  assert (serves (fun _ : unit => bounds_ok) (fun _ => False) vm0 g0 hc_not_found) as Hnf
    by apply hc_not_found_serves.
  destruct (decide (nr ∈ [0; 1; 2; 100])) as [Hin|Hout].
  - repeat (apply elem_of_cons in Hin as [->|Hin]; [|]); try by apply elem_of_nil in Hin.
    + by apply hc_gas_serves.
    + apply hc_grow_heap_serves; [|done]. split; [by intros|].
      intros _ hb sb hp hp' (hb' & sb' & hp0 & [= -> -> ->] & ? & ?). by exists hb', sb', hp'.
    + by apply hc_fetch_serves.
    + by apply hc_log_serves.
  - destruct nr as [|q|q]; [|repeat (destruct q as [q|q|]; try done)|done].
    all: by destruct Hout; repeat constructor.
Qed.
End mutator_laws.

(** ** The properties *)

Definition refine_mutator {J} `{JamCodec J} {S} `{ServicesState S} {RC AI} `{FetchCodec RC AI}
  (self : RefineMutator (S := S) RC) : InvocationMutator RefineInvocationContext := refine_execute self.

Definition is_authorized_mutator {RC AI} `{FetchCodec RC AI} (g : GpConstants) (p : WorkPackage RC)
  : InvocationMutator unit := is_authorized_execute g p.

(** The interface of the host-call loop, implemented by the two mutators. *)
Program Definition refine_mutator_laws {J} `{JamCodec J} `{!JamCodecLaws J} {S} `{ServicesState S} `{!ServicesLaws S}
  {RC AI} `{FetchCodec RC AI} `{!FetchCodecLaws RC AI} (self : RefineMutator (S := S) RC)
  (Hok : refine_mutator_ok (AI := AI) self) : @MutatorLaws _ (refine_mutator self) :=
  @Build_MutatorLaws _ (refine_mutator self) (refine_ctx_ok (rm_export_segment_offset self)) refine_may (fun _ => 0) _.
Next Obligation.
  intros. apply (serves_ok (refine_ctx_ok (rm_export_segment_offset self))); [|done..|lia].
  apply refine_dispatch_serves; [done| |lia]. by apply rd_regs.
Qed.

Program Definition is_authorized_mutator_laws {RC AI} `{FetchCodec RC AI} `{!FetchCodecLaws RC AI}
  (g : GpConstants) (p : WorkPackage RC) (Hok : fetch_ok (is_authorized_fetch (AI := AI) g p)) : @MutatorLaws _ (is_authorized_mutator g p) :=
  @Build_MutatorLaws _ (is_authorized_mutator g p) (fun _ => bounds_ok) (fun _ => False) (fun _ => 0) _.
Next Obligation.
  intros. apply (serves_ok (fun _ => bounds_ok)); [|done..|lia].
  apply is_authorized_dispatch_serves; [done| |lia]. by apply rd_regs.
Qed.

(** C5: Every call a refinement makes keeps its context valid: at most 63 inner machines,
    each with code of bytes, a well-formed memory and a 64-bit counter; exported
    segments of the full size, within the limit of the work package.  It keeps the
    machine ready at its instruction, never answers with more gas than it got nor with
    another host call, and raises nothing but [PVMMemoryError]. *)
Theorem refine_execute_ok J `{JamCodec J} `{!JamCodecLaws J} S `{ServicesState S} `{!ServicesLaws S}
  RC AI `{FetchCodec RC AI} `{!FetchCodecLaws RC AI} (self : RefineMutator (S := S) RC) nr x vm :
  refine_mutator_ok (AI := AI) self -> refine_ctx_ok (rm_export_segment_offset self) x (bounds (mem vm)) ->
  ready vm -> 0 <= gas vm < 2 ^ 64 ->
  exists r x' vm', refine_execute self nr (gas vm) (reg vm) x vm = (r, (x', vm')) /\
    refine_ctx_ok (rm_export_segment_offset self) x' (bounds (mem vm')) /\ ready vm' /\
    vm_code vm' = vm_code vm /\ pc vm' = pc vm /\
    match r with
    | Raise e => e = PVMMemoryError
    | Ret out =>
        ec_reason (mo_exit_condition out) <> ExitReason.host_halt /\
        mo_gas_limit out <= gas vm /\
        (ec_reason (mo_exit_condition out) = ExitReason.resume -> 0 <= mo_gas_limit out)
    end.
Proof.
  intros Hok Hx Hr Hg.
  destruct (execute_ok (MutatorLaws := refine_mutator_laws self Hok) nr x vm Hx Hr Hg)
    as (r & x' & vm' & ? & ? & ? & ? & ? & _ & _ & Hres).
  exists r, x', vm'. do 5 (split; [done|]). destruct r; [|done]. by destruct Hres as ((? & _) & (? & _) & ? & _).
Qed.

(** An inner machine, whatever its code and counter, can be run with any gas and any
    registers: the run ends and raises nothing, leaves no more gas than it was given,
    well-formed registers and memory, and a counter it can be resumed at; a host call or
    a page fault carries its number or address. *)
Theorem run_inner_total (i : IntegratedPVM) g rs :
  inner_ok i -> is_u64 g -> length rs = 13%nat ->
  exists result vm, run_inner i g rs = Ret (result, vm) /\ inner_result g result vm.
Proof. apply run_inner_spec. Qed.

(** An authorisation, for any program of bytes, any start and any gas: it ends in a
    halt, a panic or out of gas, and raises nothing. *)
Theorem is_authorized_invocation_total J `{JamCodec J} `{!JamCodecLaws J} RC AI `{FetchCodec RC AI}
  `{!FetchCodecLaws RC AI} (g : GpConstants) (p : WorkPackage RC) serialized pc0 g0 args :
  fetch_ok (is_authorized_fetch (AI := AI) g p) -> List.Forall is_byte serialized -> List.Forall is_byte args -> 0 <= g0 < 2 ^ 64 ->
  exists out, @pvm_invoke_marshalling J _ unit (is_authorized_mutator g p) serialized pc0 g0 args tt = Some (Ret out) /\
    ec_reason (pm_exit_condition out) ∈ [ExitReason.halt; ExitReason.panic; ExitReason.out_of_gas] /\
    0 <= pm_gas_used out <= g0.
Proof.
  intros Hd Hs Ha Hg.
  destruct (@invoke_marshalling_run J _ _ unit (is_authorized_mutator g p) (is_authorized_mutator_laws g p Hd)
              serialized pc0 g0 args tt) as [(out & ? & ? & ? & _)|(e & _ & [])]; [done..|].
  by exists out.
Qed.

(** A finding: an access of no bytes is always allowed, but reading no bytes outside
    the address space raises.  Exporting an empty segment from an address of [2^32] or
    above passes the check of [hc_export], and the exception leaves the mutator. *)
Theorem export_empty_raises J `{JamCodec J} S `{ServicesState S} RC AI `{FetchCodec RC AI}
  (self : RefineMutator (S := S) RC) p regs g x vm :
  regs !! 7%nat = Some p -> regs !! 8%nat = Some 0 -> SIZE <= p -> 3521 <= g ->
  is_accessible p 0 MEM_R (mem vm) = Ret true /\
  (refine_execute self 8 g regs x vm).1 = Raise PVMMemoryError.
Proof.
  intros H7 H8 Hp Hg. split; [done|]. unfold refine_execute, serve, refine_dispatch, hc_export, hostcall, fixed_cost.
  autorewrite with eff. cbn [ca_gas set_out_gas]. destruct (Z.ltb_spec (g - 3521) 0); [lia|].
  unfold register. rewrite !py_index_nonneg by lia. change (Z.to_nat 7) with 7%nat. change (Z.to_nat 8) with 8%nat.
  rewrite H7, H8. autorewrite with eff. change (Z.min 0 EC_SEGMENT_SIZE) with 0.
  rewrite eff_bind_run. set (s := set_out_gas _ _).
  destruct (accessible_mem_run p 0 MEM_R s) as (b & -> & [= <-]); [by left|].
  cbn [negb]. rewrite eff_bind_run. unfold on_mem, read_bytes.
  destruct (Z.leb_spec SIZE p); [|lia]. rewrite orb_true_r. reflexivity.
Qed.
