(* ===== verification/Merkle.v ===== *)
(** * Merkle structures

    [merkle.py]: the binary trees of the data lake ([BinaryMerkleTree],
    [ConstantDepthMerkleTree] with its proofs, [WellBalancedMerkleTree]), the mountain
    range [MerkleMountainRange] of the recent history, and the state trie
    [PatriciaMerkleTrie].

    The hash functions come from hashlib and pycryptodome: they are an argument of the
    definitions, of which the theorems use that a hash has 32 bytes.  What the
    structures promise is stated up to a collision: either the property holds, or two
    inputs with the same hash, or an input whose hash is zero, exist, where the theorem
    says among which strings when the hash has 32 bytes ([broken_among]). *)

From Stdlib Require Import ZArith Lia Bool List Permutation.
From stdpp Require Import base numbers option list.
From S2P Require Import Prelude.
Import ListNotations.

#[local] Open Scope Z_scope.
#[local] Open Scope py_scope.

(** ** Hash functions *)

Class HashLaws (hash : bytes -> bytes) : Prop := {
  hash_length : forall x, length (hash x) = 32%nat;
  hash_bytes : forall x, List.Forall is_byte (hash x)
}.

Definition collision (hash : bytes -> bytes) : Prop := exists x y, x <> y /\ hash x = hash y.

(** [bytes(32)], [b'\0' * 32] *)
Definition zero_hash : bytes := replicate 32 0.
Definition hashes_to_zero (hash : bytes -> bytes) : Prop := exists x, hash x = zero_hash.

(** The same of finitely many strings, those that were hashed: some hash of 32 bytes avoids
    both on any of them, as none does on all strings. *)
Definition collision_among (hash : bytes -> bytes) (strings : list bytes) : Prop :=
  exists x y, x ∈ strings /\ y ∈ strings /\ x <> y /\ hash x = hash y.

Definition broken_among (hash : bytes -> bytes) (strings : list bytes) : Prop :=
  collision_among hash strings \/ exists x, x ∈ strings /\ hash x = zero_hash.

(** The prefixes [b'node'], [b'leaf'], [b'peak']. *)
Definition b_node : bytes := [110; 111; 100; 101].
Definition b_leaf : bytes := [108; 101; 97; 102].
Definition b_peak : bytes := [112; 101; 97; 107].

(** ** [BinaryMerkleTree] *)

Section binary.
Context (hash_function : bytes -> bytes).

(** [node] on a list whose halves are shorter: [fuel] bounds its length. *)
Fixpoint node_rec (fuel : nat) (nodes : list bytes) : bytes :=
  match nodes, fuel with
  | [], _ => zero_hash
  | [x], _ => x
  | _, O => zero_hash
  | _, S fuel =>
      let node_limit := Z.to_nat (ceil_div (Z.of_nat (length nodes)) 2) in
      hash_function (b_node ++ node_rec fuel (take node_limit nodes) ++ node_rec fuel (drop node_limit nodes))
  end.

Definition node (nodes : list bytes) : bytes := node_rec (length nodes) nodes.

(** [WellBalancedMerkleTree.root] *)
Definition well_balanced_root (data : list bytes) : bytes :=
  match data with
  | [x] => hash_function x
  | _ => node data
  end.

(** ** [ConstantDepthMerkleTree] *)

(** [2 ** ceil(math.log(max(1, len(data)), 2))]; the logarithm is a float, exact on the
    powers of two up to [2^28], far above the number of segments. *)
Definition padded_size (n : nat) : nat := 2 ^ Nat.log2_up (Nat.max 1 n).

Definition constancy_preprocessor (data : list bytes) : list bytes :=
  map (fun v => hash_function (b_leaf ++ v)) data ++
  replicate (padded_size (length data) - length data) zero_hash.

Definition constant_depth_root (data : list bytes) : bytes := node (constancy_preprocessor data).

(** The [while len(nodes) > 1] loop, which halves the nodes. *)
Fixpoint trace_loop (fuel : nat) (nodes : list bytes) (index : Z) : list bytes :=
  match fuel with
  | O => []
  | S fuel =>
      if (length nodes <=? 1)%nat then []
      else
        let split := Nat.div (length nodes) 2 in
        if index <? Z.of_nat split
        then node (drop split nodes) :: trace_loop fuel (take split nodes) index
        else node (take split nodes) :: trace_loop fuel (drop split nodes) (index - Z.of_nat split)
  end.

(** [IndexError] outside the data. *)
Definition trace (data : list bytes) (index : Z) : option (list bytes) :=
  if (0 <=? index) && (index <? Z.of_nat (length data)) then
    let nodes := constancy_preprocessor data in
    Some (trace_loop (length nodes) nodes index)
  else None.

(** One step of the loop of [verify]. *)
Definition verify_step (s : bytes * Z) (sibling : bytes) : bytes * Z :=
  let '(value, index) := s in
  let pair := if index .& 1 =? 0 then value ++ sibling else sibling ++ value in
  (hash_function (b_node ++ pair), index ≫ 1).

Definition verify (segment : bytes) (index : Z) (proof : list bytes) (root : bytes) : bool :=
  if negb ((0 <=? index) && (index <? 1 ≪ Z.of_nat (length proof)))
     || existsb (fun h => negb (Nat.eqb (length h) 32)) proof
  then false
  else
    let '(value, _) := fold_left verify_step (rev proof) (hash_function (b_leaf ++ segment), index) in
    bool_decide (value = root).
End binary.

(** * Properties *)

Section binary_laws.
Context (hash : bytes -> bytes) `{!HashLaws hash}.
Abbreviation node := (node hash).

Lemma half_bounds n : (2 <= n)%nat ->
  let h := Z.to_nat (ceil_div (Z.of_nat n) 2) in (0 < h < n)%nat.
Proof using. intros Hn h. unfold h. pose proof (ceil_div_spec (Z.of_nat n) 2 ltac:(lia)). lia. Qed.

(** More fuel changes nothing. *)
Lemma node_rec_enough n : forall m nodes,
  (length nodes <= n)%nat -> (length nodes <= m)%nat -> node_rec hash n nodes = node_rec hash m nodes.
Proof using.
  induction n as [|n IH]; intros m nodes Hn Hm.
  { destruct nodes; [by destruct m|cbn in Hn; lia]. }
  destruct nodes as [|x [|y nodes]]; [by destruct m|by destruct m|].
  destruct m as [|m]; [cbn in Hm; lia|]. cbn [node_rec]. set (l := x :: y :: nodes) in *.
  pose proof (half_bounds (length l) ltac:(cbn; lia)) as Hh. cbv zeta in Hh.
  f_equal. f_equal. f_equal; apply IH; rewrite ?length_take, ?length_drop; lia.
Qed.

Lemma node_rec_step fuel nodes : (2 <= length nodes)%nat ->
  let h := Z.to_nat (ceil_div (Z.of_nat (length nodes)) 2) in
  node_rec hash (S fuel) nodes =
  hash (b_node ++ node_rec hash fuel (take h nodes) ++ node_rec hash fuel (drop h nodes)).
Proof using. intros Hl h. destruct nodes as [|x [|y nodes]]; [cbn in Hl; lia|cbn in Hl; lia|done]. Qed.

Lemma node_split nodes : (2 <= length nodes)%nat ->
  let h := Z.to_nat (ceil_div (Z.of_nat (length nodes)) 2) in
  node nodes = hash (b_node ++ node (take h nodes) ++ node (drop h nodes)).
Proof using.
  intros Hl h. pose proof (half_bounds _ Hl) as Hh. fold h in Hh.
  cbv zeta in Hh. assert (exists n, length nodes = S n) as [n Hn] by (exists (pred (length nodes)); lia).
  unfold Merkle.node. rewrite Hn at 1. rewrite node_rec_step by lia. fold h. f_equal. f_equal.
  f_equal; apply node_rec_enough; rewrite ?length_take, ?length_drop; lia.
Qed.

(** On a list of twice [n] nodes, [node] splits in the middle. *)
Lemma node_app l r : length l = length r -> l <> [] ->
  node (l ++ r) = hash (b_node ++ node l ++ node r).
Proof using.
  intros Hl Hne. assert (0 < length l)%nat by (destruct l; [done|cbn; lia]).
  rewrite node_split by (rewrite length_app; lia). cbv zeta.
  assert (Z.to_nat (ceil_div (Z.of_nat (length (l ++ r))) 2) = length l) as ->.
  { rewrite length_app. pose proof (ceil_div_spec (Z.of_nat (length l + length r)) 2 ltac:(lia)). lia. }
  by rewrite take_app_length, drop_app_length.
Qed.

Lemma length_node nodes :
  List.Forall (fun x => length x = 32%nat) nodes -> length (node nodes) = 32%nat.
Proof using HashLaws0.
  intros Hn. destruct (decide (2 <= length nodes)%nat) as [Hl|Hl].
  - rewrite node_split by done. apply hash_length.
  - destruct nodes as [|x [|y nodes]]; [done| |cbn in Hl; lia]. by inversion Hn.
Qed.

(** ** Proofs, from the root *)

(** The hash at the top of a proof given root-first, for the leaf hash [value]: the
    sibling is on the left when the bit of its level is set. *)
Fixpoint climb (value : bytes) (index : Z) (proof : list bytes) : bytes :=
  match proof with
  | [] => value
  | sibling :: proof =>
      let v := climb value index proof in
      hash (b_node ++ (if Z.testbit index (Z.of_nat (length proof)) then sibling ++ v else v ++ sibling))
  end.

(** The strings hashed on the way. *)
Fixpoint climb_inputs (value : bytes) (index : Z) (proof : list bytes) : list bytes :=
  match proof with
  | [] => []
  | sibling :: proof =>
      let v := climb value index proof in
      (b_node ++ (if Z.testbit index (Z.of_nat (length proof)) then sibling ++ v else v ++ sibling)) :: climb_inputs value index proof
  end.

(** What [verify] hashes, of a segment and its proof. *)
Definition proof_inputs (segment : bytes) (index : Z) (proof : list bytes) : list bytes :=
  (b_leaf ++ segment) :: climb_inputs (hash (b_leaf ++ segment)) index proof.

(** What [node] hashes, and what is hashed for the root of the data. *)
Fixpoint node_inputs (fuel : nat) (nodes : list bytes) : list bytes :=
  match nodes, fuel with
  | [], _ | [_], _ | _, O => []
  | _, S fuel =>
      let node_limit := Z.to_nat (ceil_div (Z.of_nat (length nodes)) 2) in
      let left := take node_limit nodes in
      let right := drop node_limit nodes in
      (b_node ++ node_rec hash fuel left ++ node_rec hash fuel right) :: node_inputs fuel left ++ node_inputs fuel right
  end.

Definition tree_inputs (data : list bytes) : list bytes :=
  map (app b_leaf) data ++ node_inputs (padded_size (length data)) (constancy_preprocessor hash data).

Lemma verify_fold value index proof :
  fold_left (verify_step hash) (rev proof) (value, index)
  = (climb value index proof, index ≫ Z.of_nat (length proof)).
Proof using.
  induction proof as [|sib proof IH]; [cbn; by rewrite Z.shiftr_0_r|].
  cbn [rev]. rewrite fold_left_app, IH. cbn [fold_left verify_step climb length].
  assert (((index ≫ Z.of_nat (length proof)) .& 1 =? 0) = negb (Z.testbit index (Z.of_nat (length proof)))) as ->.
  { change 1 with (2 ^ 1 - 1). rewrite land_mask by lia. change (2 ^ 1) with 2.
    rewrite <-Z.bit0_mod, Z.shiftr_spec, Z.add_0_l by lia. by destruct (Z.testbit _ _). }
  rewrite Z.shiftr_shiftr by lia. f_equal; [|f_equal; lia].
  by destruct (Z.testbit _ _).
Qed.

(** Only the bits below the length of the proof matter. *)
Lemma climb_mod value index proof k :
  (length proof <= k)%nat -> climb value (index mod 2 ^ Z.of_nat k) proof = climb value index proof.
Proof using.
  induction proof as [|sib proof IH]; [done|]. cbn [length climb]. intros Hk.
  rewrite IH by lia. by rewrite Z.mod_pow2_bits_low by lia.
Qed.

Lemma climb_inputs_mod value index proof k :
  (length proof <= k)%nat -> climb_inputs value (index mod 2 ^ Z.of_nat k) proof = climb_inputs value index proof.
Proof using.
  induction proof as [|sib proof IH]; [done|]. cbn [length climb_inputs]. intros Hk.
  rewrite IH, climb_mod by lia. by rewrite Z.mod_pow2_bits_low by lia.
Qed.

Lemma length_climb value index proof :
  length value = 32%nat -> length (climb value index proof) = 32%nat.
Proof using HashLaws0. destruct proof; [done|]. intros _. cbn [climb]. by apply hash_length. Qed.

(** The upper half of a range of indices. *)
Lemma upper_half d i : 2 ^ Z.of_nat d <= i < 2 ^ Z.of_nat (S d) ->
  Z.testbit i (Z.of_nat d) = true /\ i mod 2 ^ Z.of_nat d = i - 2 ^ Z.of_nat d /\
  0 <= i - 2 ^ Z.of_nat d < 2 ^ Z.of_nat d.
Proof using.
  rewrite Nat2Z.inj_succ, Z.pow_succ_r by lia. intros Hi. split.
  - rewrite testbit_top; [apply Z.leb_le; lia|lia|]. rewrite Z.pow_add_r by lia. lia.
  - split; [|lia]. symmetry. apply (Z.mod_unique_pos _ _ 1); lia.
Qed.

Lemma lower_half d i : 0 <= i < 2 ^ Z.of_nat d -> Z.testbit i (Z.of_nat d) = false.
Proof using. intros Hi. apply (range_bits i (Z.of_nat d)); lia. Qed.

(** A perfect list splits in halves. *)
Lemma perfect_split {A} d (l : list A) : length l = (2 ^ S d)%nat ->
  exists a b, l = a ++ b /\ length a = (2 ^ d)%nat /\ length b = (2 ^ d)%nat.
Proof using.
  intros Hl. exists (take (2 ^ d) l), (drop (2 ^ d) l). split; [by rewrite take_drop|].
  rewrite length_take, length_drop, Hl. cbn [Nat.pow]. lia.
Qed.

Lemma pow2_pos d : (0 < 2 ^ d)%nat.
Proof using. induction d; cbn; lia. Qed.

Lemma nonempty_perfect {A} d (l : list A) : length l = (2 ^ d)%nat -> l <> [].
Proof using. pose proof (pow2_pos d). intros Hl ->. cbn in Hl. lia. Qed.

(** The proof of a node of a perfect list climbs to its root. *)
Lemma trace_climb d : forall fuel nodes index x,
  length nodes = (2 ^ d)%nat -> (length nodes <= fuel)%nat ->
  0 <= index -> nodes !! Z.to_nat index = Some x ->
  let proof := trace_loop hash fuel nodes index in
  length proof = d /\ climb x index proof = node nodes.
Proof using.
  induction d as [|d IH]; intros fuel nodes index x Hl Hf Hi Hx proof.
  { destruct nodes as [|y [|z nodes]]; [done| |done]. assert (x = y) as ->.
    { apply lookup_lt_Some in Hx as Hlt. cbn in Hlt. replace (Z.to_nat index) with O in Hx by lia. by injection Hx. }
    subst proof. destruct fuel; [done|]. by cbn. }
  destruct (perfect_split d nodes Hl) as (l & r & -> & Hll & Hlr). pose proof (pow2_pos d) as Hpos.
  destruct fuel as [|fuel]; [rewrite length_app in Hf; lia|]. subst proof. cbn [trace_loop].
  rewrite length_app, Hll, Hlr. replace (2 ^ d + 2 ^ d)%nat with (2 ^ d * 2)%nat by lia.
  rewrite Nat.div_mul by lia. destruct (Nat.leb_spec (2 ^ d * 2) 1); [lia|].
  rewrite take_app_length', drop_app_length' by done.
  rewrite node_app by (lia || by eapply nonempty_perfect). rewrite length_app in Hf.
  assert (Z.of_nat (2 ^ d) = 2 ^ Z.of_nat d) as Hp by apply Nat2Z.inj_pow.
  destruct (Z.ltb_spec index (Z.of_nat (2 ^ d))) as [Hlt|Hge]; cbv zeta.
  - rewrite lookup_app_l in Hx by lia.
    destruct (IH fuel l index x Hll ltac:(lia) Hi Hx) as [Hd Hc]. cbn [length climb].
    split; [by rewrite Hd|]. rewrite Hd, lower_half by lia. by rewrite Hc.
  - apply lookup_lt_Some in Hx as Hlt. rewrite length_app in Hlt.
    rewrite lookup_app_r in Hx by lia. rewrite Hll in Hx.
    replace (Z.to_nat index - 2 ^ d)%nat with (Z.to_nat (index - Z.of_nat (2 ^ d))) in Hx by lia.
    destruct (IH fuel r (index - Z.of_nat (2 ^ d)) x Hlr ltac:(lia) ltac:(lia) Hx) as [Hd Hc]. cbn [length climb].
    split; [by rewrite Hd|]. rewrite Hd. rewrite Hp in *.
    destruct (upper_half d index) as (Hb & Hm & Hr); [rewrite Nat2Z.inj_succ, Z.pow_succ_r by lia; lia|].
    rewrite Hb, <-Hc. rewrite <-Hm at 2. by rewrite climb_mod by lia.
Qed.

Lemma padded_size_le n : (n <= padded_size n)%nat.
Proof using. unfold padded_size. pose proof (Nat.log2_up_spec (Nat.max 1 n)) as Hs.
  destruct (decide (n <= 1)%nat); [pose proof (pow2_pos (Nat.log2_up (Nat.max 1 n))); lia|].
  rewrite Nat.max_r in * by lia. lia.
Qed.

Lemma length_preprocessed data : length (constancy_preprocessor hash data) = padded_size (length data).
Proof using.
  unfold constancy_preprocessor. rewrite length_app, length_map, length_replicate.
  pose proof (padded_size_le (length data)). lia.
Qed.

Lemma preprocessed_lengths data :
  List.Forall (fun x => length x = 32%nat) (constancy_preprocessor hash data).
Proof using HashLaws0.
  unfold constancy_preprocessor. apply Forall_app. split; [|by apply Forall_replicate].
  apply List.Forall_map, List.Forall_forall. intros x _. apply hash_length.
Qed.

(** The nodes of a proof are hashes. *)
Lemma trace_lengths fuel : forall nodes index,
  List.Forall (fun x => length x = 32%nat) nodes ->
  List.Forall (fun x => length x = 32%nat) (trace_loop hash fuel nodes index).
Proof using HashLaws0.
  induction fuel as [|fuel IH]; intros nodes index Hn; cbn [trace_loop]; [done|].
  destruct (_ <=? _)%nat; [done|].
  destruct (_ <? _); (constructor; [apply length_node|apply IH]); by apply Forall_take || by apply Forall_drop.
Qed.
(** ** What a proof proves *)

Lemma app_inj_length {A} (a b c e : list A) : length a = length c -> a ++ b = c ++ e -> a = c /\ b = e.
Proof using. apply app_inj_1. Qed.

(** What is hashed for a list of twice [n] nodes: the top string, and what is hashed for the
    halves. *)
Lemma node_inputs_app fuel l r : length l = length r -> l <> [] -> (length (l ++ r) <= fuel)%nat ->
  node_inputs fuel (l ++ r) =
  (b_node ++ node l ++ node r) :: node_inputs (pred fuel) l ++ node_inputs (pred fuel) r.
Proof using.
  intros Hl Hne Hf. assert (0 < length l)%nat as Hpos by (destruct l; [done|cbn; lia]).
  assert (2 <= length (l ++ r))%nat as H2 by (rewrite length_app; lia).
  assert (Z.to_nat (ceil_div (Z.of_nat (length (l ++ r))) 2) = length l) as Hh.
  { rewrite length_app. pose proof (ceil_div_spec (Z.of_nat (length l + length r)) 2 ltac:(lia)). lia. }
  rewrite length_app in Hf. unfold Merkle.node.
  rewrite (node_rec_enough (length l) (pred fuel) l), (node_rec_enough (length r) (pred fuel) r) by lia.
  destruct fuel as [|fuel]; [lia|]. cbn [pred].
  transitivity ((b_node ++ node_rec hash fuel (take (length l) (l ++ r)) ++ node_rec hash fuel (drop (length l) (l ++ r)))
    :: node_inputs fuel (take (length l) (l ++ r)) ++ node_inputs fuel (drop (length l) (l ++ r))).
  - rewrite <-Hh. destruct (l ++ r) as [|x [|y t]]; [cbn in H2; lia|cbn in H2; lia|done].
  - by rewrite take_app_length, drop_app_length.
Qed.

(** In what follows [L] are the strings hashed. *)
Section strings.
Context (L : list bytes).
Abbreviation broken := (broken_among hash L).

Lemma hash_inj x y : x ∈ L -> y ∈ L -> hash x = hash y -> x = y \/ broken.
Proof using. intros Hx Hy Hxy. destruct (decide (x = y)); [by left|right; left; by exists x, y]. Qed.

Definition is_leaf (x : bytes) : Prop := (exists v, b_leaf ++ v ∈ L /\ x = hash (b_leaf ++ v)) \/ x = zero_hash.

(** A leaf is no branch. *)
Lemma leaf_no_branch x y : is_leaf x -> b_node ++ y ∈ L -> x = hash (b_node ++ y) -> broken.
Proof using.
  intros [(v & Hv & ->)| ->] Hy He; [|right; by exists (b_node ++ y)].
  destruct (hash_inj _ _ Hv Hy He) as [Heq|]; [|done]. by apply app_inj_length in Heq as [? _].
Qed.

Lemma leaf_length x : is_leaf x -> length x = 32%nat.
Proof using HashLaws0. intros [(v & _ & ->)| ->]; [apply hash_length|done]. Qed.

Lemma climb_sound d : forall fuel nodes index seg proof,
  length nodes = (2 ^ d)%nat -> (length nodes <= fuel)%nat -> List.Forall is_leaf nodes ->
  List.Forall (fun x => length x = 32%nat) proof -> 0 <= index < 2 ^ Z.of_nat (length proof) ->
  node_inputs fuel nodes ⊆ L -> proof_inputs seg index proof ⊆ L ->
  climb (hash (b_leaf ++ seg)) index proof = node nodes ->
  broken \/ length proof = d /\ nodes !! Z.to_nat index = Some (hash (b_leaf ++ seg)).
Proof using HashLaws0.
  induction d as [|d IH]; intros fuel nodes index seg proof Hl Hf Hn Hp Hi Ht Hq Hc.
  - destruct nodes as [|x [|y nodes]]; [done| |done]. inversion Hn as [|?? Hx _]; subst.
    change (node [x]) with x in Hc. destruct proof as [|sib proof]; [right|left].
    + cbn in Hi, Hc. replace (Z.to_nat index) with O by lia. by rewrite <-Hc.
    + cbn [climb] in Hc. eapply leaf_no_branch; [exact Hx| |by symmetry]. apply Hq. right. by left.
  - destruct (perfect_split d nodes Hl) as (l & r & -> & Hll & Hlr).
    apply Forall_app in Hn as [Hnl Hnr]. pose proof (nonempty_perfect _ _ Hll) as Hne.
    rewrite node_app in Hc by (done || lia). rewrite node_inputs_app in Ht by (done || lia).
    assert (b_node ++ node l ++ node r ∈ L) as Htop by (apply Ht; by left).
    assert (node_inputs (pred fuel) l ⊆ L /\ node_inputs (pred fuel) r ⊆ L) as [Htl Htr].
    { split; intros z Hz; apply Ht; right; apply elem_of_app; [by left|by right]. }
    assert (length l <= pred fuel /\ length r <= pred fuel)%nat as [Hfl Hfr].
    { rewrite length_app in Hf. pose proof (pow2_pos d). lia. }
    assert (b_leaf ++ seg ∈ L) as Hseg by (apply Hq; by left).
    destruct proof as [|sib proof].
    { left. eapply (leaf_no_branch (hash (b_leaf ++ seg))); [left; by exists seg|exact Htop|exact Hc]. }
    inversion Hp as [|?? Hs Hp']; subst. cbn [climb] in Hc.
    assert (proof_inputs seg index proof ⊆ L) as Hq'.
    { intros z [->|Hz]%elem_of_cons; [done|]. apply Hq. do 2 right. exact Hz. }
    destruct (hash_inj _ _ ltac:(apply Hq; right; by left) Htop Hc) as [Heq|]; [|by left]. apply app_inv_head in Heq.
    set (v := climb _ _ _) in Heq. assert (length v = 32%nat) as Hv by apply length_climb, hash_length.
    assert (length (node l) = 32%nat) as Hnl32.
    { apply length_node. eapply List.Forall_impl; [apply leaf_length|exact Hnl]. }
    cbn [length] in Hi. destruct (Z.ltb_spec index (2 ^ Z.of_nat (length proof))) as [Hlo|Hhi].
    + rewrite lower_half in Heq by lia. apply app_inj_length in Heq as [Hvl _]; [|lia].
      destruct (IH (pred fuel) l index seg proof Hll Hfl Hnl Hp' ltac:(lia) Htl Hq' Hvl) as [|[Hd Hx]]; [by left|right].
      cbn [length]. split; [by rewrite Hd|]. by apply lookup_app_l_Some.
    + destruct (upper_half (length proof) index) as (Hb & Hm & Hr); [lia|]. rewrite Hb in Heq.
      apply app_inj_length in Heq as [_ Hvr]; [|lia]. unfold v in Hvr.
      rewrite <-(climb_mod _ index proof (length proof)), Hm in Hvr by lia.
      assert (proof_inputs seg (index - 2 ^ Z.of_nat (length proof)) proof ⊆ L) as Hq''.
      { rewrite <-Hm. unfold proof_inputs. by rewrite climb_inputs_mod. }
      destruct (IH (pred fuel) r _ seg proof Hlr Hfr Hnr Hp' Hr Htr Hq'' Hvr) as [|[Hd Hx]]; [by left|right].
      cbn [length]. split; [by rewrite Hd|].
      assert (Z.of_nat (2 ^ d) = 2 ^ Z.of_nat d) as Hpd by apply Nat2Z.inj_pow.
      rewrite lookup_app_r by (rewrite Hd in Hhi; lia). rewrite Hll, <-Hx. f_equal. rewrite Hd. lia.
Qed.

Lemma preprocessed_leaves data : map (app b_leaf) data ⊆ L -> List.Forall is_leaf (constancy_preprocessor hash data).
Proof using.
  intros Hd. unfold constancy_preprocessor. apply Forall_app. split; [|by apply Forall_replicate; right].
  apply List.Forall_map, List.Forall_forall. intros x Hx%list_elem_of_In. left. exists x. split; [|done].
  apply Hd. by apply list_elem_of_fmap_2.
Qed.
End strings.

Lemma verify_true segment index proof root :
  verify hash segment index proof root = true <->
  0 <= index < 2 ^ Z.of_nat (length proof) /\ List.Forall (fun x => length x = 32%nat) proof /\
  climb (hash (b_leaf ++ segment)) index proof = root.
Proof using.
  unfold verify. rewrite verify_fold, Z.shiftl_1_l.
  assert (existsb (fun h => negb (length h =? 32)%nat) proof = false <->
          List.Forall (fun x => length x = 32%nat) proof) as He.
  { rewrite List.Forall_forall, <-not_true_iff_false, existsb_exists. split.
    - intros Hno x Hx. destruct (Nat.eqb_spec (length x) 32); [done|]. destruct Hno. exists x. split; [done|].
      by apply negb_true_iff, Nat.eqb_neq.
    - intros Hall (x & Hx & Hn). by rewrite (Hall x Hx) in Hn. }
  destruct (Z.leb_spec 0 index), (Z.ltb_spec index (2 ^ Z.of_nat (length proof))); cbn [andb negb orb];
    [|split; [done|lia]..].
  destruct (existsb _ _) eqn:Hex.
  - split; [done|]. intros (_ & Hf & _). apply He in Hf. done.
  - rewrite bool_decide_eq_true. split; [intros Hr|by intros (_ & _ & ?)]. split; [lia|]. split; [by apply He|done].
Qed.

Lemma padded_pow n : exists d, padded_size n = (2 ^ d)%nat.
Proof using. by eexists. Qed.

Lemma trace_verify_run data index segment :
  data !! Z.to_nat index = Some segment -> 0 <= index ->
  exists proof, trace hash data index = Some proof /\
    verify hash segment index proof (constant_depth_root hash data) = true.
Proof using HashLaws0.
  intros Hx Hi. apply lookup_lt_Some in Hx as Hlt. unfold trace.
  destruct (Z.leb_spec 0 index), (Z.ltb_spec index (Z.of_nat (length data))); try lia. cbn [andb].
  eexists. split; [reflexivity|]. set (nodes := constancy_preprocessor hash data).
  destruct (padded_pow (length data)) as [d Hd].
  assert (length nodes = (2 ^ d)%nat) as Hl by (rewrite <-Hd; apply length_preprocessed).
  assert (nodes !! Z.to_nat index = Some (hash (b_leaf ++ segment))) as Hn.
  { unfold nodes, constancy_preprocessor. rewrite lookup_app_l by (rewrite length_map; lia).
    by rewrite lookup_map, Hx. }
  destruct (trace_climb d (length nodes) nodes index _ Hl ltac:(lia) Hi Hn) as [Hlen Hc].
  apply verify_true. split; [|split; [apply trace_lengths, preprocessed_lengths|exact Hc]].
  rewrite Hlen. apply lookup_lt_Some in Hn. rewrite Hl in Hn. split; [done|].
  assert (Z.of_nat (2 ^ d) = 2 ^ Z.of_nat d) as Hp by apply Nat2Z.inj_pow. lia.
Qed.
End binary_laws.

(** ** The properties *)

(** Completeness: the proof [trace] gives for a segment is accepted by [verify] against
    the root of the data, at the segment's index. *)
Theorem trace_verify hash `{!HashLaws hash} data index segment :
  data !! Z.to_nat index = Some segment -> 0 <= index ->
  exists proof, trace hash data index = Some proof /\
    verify hash segment index proof (constant_depth_root hash data) = true.
Proof. by apply trace_verify_run. Qed.

(** Soundness: whatever proof of whatever length [verify] accepts for a segment, at an
    index, against the root of the data, that segment is the one the data has there, or
    the hash collides, or is zero, on the strings hashed for the root and the proof. *)
Theorem verify_sound hash `{!HashLaws hash} data index segment proof :
  verify hash segment index proof (constant_depth_root hash data) = true ->
  data !! Z.to_nat index = Some segment \/ broken_among hash (tree_inputs hash data ++ proof_inputs hash segment index proof).
Proof.
  intros (Hi & Hp & Hc)%verify_true. destruct (padded_pow (length data)) as [d Hd]. set (L := tree_inputs _ _ ++ _).
  assert (map (app b_leaf) data ⊆ L) as Hleaves by (intros z Hz; by do 2 (apply elem_of_app; left)).
  destruct (climb_sound hash L d (padded_size (length data)) (constancy_preprocessor hash data) index segment proof) as [|[Hlen Hx]];
    [by rewrite length_preprocessed|by rewrite length_preprocessed|by apply preprocessed_leaves|done|done| | |exact Hc|by right|].
  { intros z Hz. apply elem_of_app. left. apply elem_of_app. by right. }
  { intros z Hz. apply elem_of_app. by right. }
  assert (b_leaf ++ segment ∈ L) as Hseg by (apply elem_of_app; right; by left).
  unfold constancy_preprocessor in Hx. apply lookup_app_Some in Hx as [Hx|[_ Hx]].
  - rewrite lookup_map in Hx. destruct (data !! _) as [v|] eqn:Hv; [|done]. injection Hx as Heq.
    destruct (hash_inj hash L (b_leaf ++ v) (b_leaf ++ segment)) as [Happ|]; [|done|done| |by right]; [|injection Happ as ->; by left].
    apply Hleaves. apply list_elem_of_fmap_2. by eapply list_elem_of_lookup_2.
  - apply lookup_replicate in Hx as [Hz _]. right. right. by eexists.
Qed.
