(* ===== verification/Mmr.v ===== *)
(** * The Merkle mountain range

    [MerkleMountainRange] of [merkle.py], the accumulator of the recent history.  Its
    state is the list of peaks: the peak at position [i], if any, is the root of a
    perfect tree of [2^i] values.

    [insert] works with the number of values and two special cases before a loop of
    merges; [append] is the binary counter it implements.  [insert_appends] shows that
    they agree, [mmr_refines_values] that after any sequence of insertions the peaks are
    the roots over the values inserted, and [super_peak_binding] that the super peak
    commits to the values up to a collision. *)

From Stdlib Require Import ZArith Lia Bool List.
From stdpp Require Import base numbers option list.
From S2P Require Import Prelude Merkle.
Import ListNotations.

#[local] Open Scope Z_scope.
#[local] Open Scope py_scope.

Abbreviation peaks_t := (list (option bytes)).

Section mmr.
Context (keccak_256_hash : bytes -> bytes).

(** [sum(int(v is not None) << i for i, v in enumerate(self.peaks))] *)
Fixpoint count_from (i : Z) (peaks : peaks_t) : Z :=
  match peaks with
  | [] => 0
  | v :: peaks => (if v is Some _ then 1 else 0) ≪ i + count_from (i + 1) peaks
  end.
Definition get_item_count (peaks : peaks_t) : Z := count_from 0 peaks.

Definition bit_length (n : Z) : Z := if n =? 0 then 0 else Z.log2 n + 1.

Definition merge_peaks (right left : bytes) : bytes := keccak_256_hash (right ++ left).

(** One turn of the loop of merge attempts; [idx + 1] is a position of the list. *)
Definition merge_step (item_count : Z) (peaks : peaks_t) (idx : nat) : peaks_t :=
  let should_merge := item_count mod 2 ^ (Z.of_nat idx + 1) =? 0 in
  match peaks !! idx with
  | Some (Some p) =>
      if should_merge then
        match peaks !! S idx with
        | Some (Some q) => <[idx := None]> (<[S idx := Some (merge_peaks q p)]> peaks)
        | Some None => <[idx := None]> (<[S idx := Some p]> peaks)
        | None => peaks
        end
      else peaks
  | _ => peaks
  end.

(** [insert]; [None] is an [IndexError]. *)
Definition insert (value : bytes) (peaks : peaks_t) : option peaks_t :=
  let item_count := get_item_count peaks in
  let peaks := if bit_length item_count <? bit_length (item_count + 1) then None :: peaks else peaks in
  if (item_count + 1) mod 2 =? 1 then py_set peaks 0 (Some value)
  else
    peak0 ← py_index peaks 0;
    peaks ←
      match peak0 with
      | None => py_set peaks 0 (Some value)
      | Some p0 =>
          peak1 ← py_index peaks 1;
          peaks ←
            match peak1 with
            | Some p1 =>
                let p0 := merge_peaks p0 value in
                peaks ← py_set peaks 0 (Some p0);
                py_set peaks 1 (Some (merge_peaks p1 p0))
            | None => py_set peaks 1 (Some (merge_peaks p0 value))
            end;
          py_set peaks 0 None
      end;
    Some (fold_left (merge_step (item_count + 1)) (seq 0 (length peaks - 1)) peaks).

(** [super_peak], on the peaks in reverse: [peaks[-1]] first. *)
Fixpoint super_peak_rev (peaks : list bytes) : bytes :=
  match peaks with
  | [] => zero_hash
  | [p] => p
  | p :: peaks => keccak_256_hash (b_peak ++ super_peak_rev peaks ++ p)
  end.

Definition super_peak (peaks : peaks_t) : bytes := super_peak_rev (rev (omap id peaks)).

(** Several values in order. *)
Fixpoint insert_all (values : list bytes) (peaks : peaks_t) : option peaks_t :=
  match values with
  | [] => Some peaks
  | v :: values => peaks ← insert v peaks; insert_all values peaks
  end.
End mmr.

(** * Specification *)

Section spec.
Context (keccak : bytes -> bytes).
Abbreviation insert := (insert keccak).

(** The binary counter. *)
Fixpoint append (peaks : peaks_t) (v : bytes) : peaks_t :=
  match peaks with
  | [] => [Some v]
  | None :: peaks => Some v :: peaks
  | Some p :: peaks => None :: append peaks (keccak (p ++ v))
  end.

(** The last peak, if there are any, is there. *)
Definition canonical (peaks : peaks_t) : Prop := last peaks <> Some None.

(** The root of the perfect tree over [2^h] values. *)
Fixpoint tree (h : nat) (values : list bytes) : bytes :=
  match h with
  | O => hd [] values
  | S h => keccak (tree h (take (2 ^ h) values) ++ tree h (drop (2 ^ h) values))
  end.

(** The strings hashed for such a root, for all peaks over their values, and for the super peak. *)
Fixpoint block_inputs (h : nat) (values : list bytes) : list bytes :=
  match h with
  | O => []
  | S h =>
      let left := take (2 ^ h) values in
      let right := drop (2 ^ h) values in
      (tree h left ++ tree h right) :: block_inputs h left ++ block_inputs h right
  end.

Fixpoint range_inputs (h : nat) (peaks : peaks_t) (values : list bytes) : list bytes :=
  match peaks with
  | [] => []
  | None :: peaks => range_inputs (S h) peaks values
  | Some _ :: peaks =>
      let older := (length values - 2 ^ h)%nat in
      block_inputs h (drop older values) ++ range_inputs (S h) peaks (take older values)
  end.

Fixpoint super_peak_inputs (peaks : list bytes) : list bytes :=
  match peaks with
  | p :: ((_ :: _) as rest) => (b_peak ++ super_peak_rev keccak rest ++ p) :: super_peak_inputs rest
  | _ => []
  end.

(** All the strings hashed from the values to the super peak. *)
Definition mmr_inputs (peaks : peaks_t) (values : list bytes) : list bytes :=
  range_inputs 0 peaks values ++ super_peak_inputs (rev (omap id peaks)).

(** The peaks from position [h] on stand for the values, older ones higher. *)
Inductive stands_for : nat -> peaks_t -> list bytes -> Prop :=
| stands_nil h : stands_for h [] []
| stands_none h peaks values : stands_for (S h) peaks values -> stands_for h (None :: peaks) values
| stands_some h peaks values block :
    stands_for (S h) peaks values -> length block = (2 ^ h)%nat ->
    stands_for h (Some (tree h block) :: peaks) (values ++ block).

(** ** Counting *)

Lemma count_from_shift i peaks : 0 <= i -> count_from i peaks = 2 ^ i * get_item_count peaks.
Proof using.
  unfold get_item_count. revert i. induction peaks as [|v peaks IH]; intros i Hi; cbn [count_from]; [lia|].
  rewrite IH, (IH (0 + 1)) by lia. rewrite !Z.shiftl_mul_pow2, Z.pow_add_r by lia.
  change (2 ^ 0) with 1. change (2 ^ (0 + 1)) with 2. change (2 ^ 1) with 2. lia.
Qed.

Lemma count_cons v peaks :
  get_item_count (v :: peaks) = (if v is Some _ then 1 else 0) + 2 * get_item_count peaks.
Proof using.
  unfold get_item_count at 1. cbn [count_from]. rewrite count_from_shift, Z.shiftl_0_r by lia. by change (2 ^ (0 + 1)) with 2.
Qed.

Lemma count_nonneg peaks : 0 <= get_item_count peaks.
Proof using. induction peaks as [|v peaks IH]; [done|]. rewrite count_cons. destruct v; lia. Qed.

Lemma count_ones xs rest :
  get_item_count (map Some xs ++ rest)
  = 2 ^ Z.of_nat (length xs) * (1 + get_item_count rest) - 1.
Proof using.
  induction xs as [|x xs IH]; [cbn [map app length]; lia|]. cbn [map app length].
  rewrite count_cons, IH, Nat2Z.inj_succ, Z.pow_succ_r by lia. lia.
Qed.

Lemma canonical_tail v w peaks : canonical (v :: w :: peaks) -> canonical (w :: peaks).
Proof using. done. Qed.

Lemma canonical_pos peaks : canonical peaks -> peaks <> [] -> 1 <= get_item_count peaks.
Proof using.
  induction peaks as [|v [|w peaks] IH]; [done| |].
  - intros Hc _. destruct v; [done|]. by destruct Hc.
  - intros Hc _. rewrite count_cons. specialize (IH (canonical_tail _ _ _ Hc) ltac:(done)). destruct v; lia.
Qed.

(** Peaks: a run of present ones, then the end or an absent one. *)
Lemma run_of_peaks (peaks : peaks_t) : exists xs rest, peaks = map Some xs ++ rest /\
  (rest = [] \/ exists rest', rest = None :: rest').
Proof using.
  induction peaks as [|[x|] peaks (xs & rest & -> & Hr)].
  - exists [], []. split; [done|by left].
  - by exists (x :: xs), rest.
  - exists [], (None :: map Some xs ++ rest). split; [done|]. right. by eexists.
Qed.

(** The carry through a run. *)
Fixpoint carry (xs : list bytes) (v : bytes) : bytes :=
  match xs with [] => v | x :: xs => carry xs (keccak (x ++ v)) end.

Lemma append_run xs v rest :
  append (map Some xs ++ rest) v = replicate (length xs) None ++ append rest (carry xs v).
Proof using. revert v. induction xs as [|x xs IH]; intros v; [done|]. cbn. by rewrite IH. Qed.

(** ** The loop *)

Abbreviation merge_step := (merge_step keccak).

Lemma merge_step_skip n peaks idx :
  n mod 2 ^ (Z.of_nat idx + 1) <> 0 \/ peaks !! idx = Some None -> merge_step n peaks idx = peaks.
Proof using.
  unfold Mmr.merge_step. intros [Hn| ->]; [|done]. apply Z.eqb_neq in Hn. rewrite Hn.
  by destruct (peaks !! idx) as [[]|].
Qed.

Lemma fold_skip n l peaks :
  List.Forall (fun idx => n mod 2 ^ (Z.of_nat idx + 1) <> 0) l -> fold_left (merge_step n) l peaks = peaks.
Proof using. induction 1 as [|idx l Hi _ IH]; [done|]. cbn [fold_left]. rewrite merge_step_skip by by left. done. Qed.

Lemma lookup_at {A} j (x y : A) l : (replicate j x ++ y :: l) !! j = Some y.
Proof using. rewrite lookup_app_r by (rewrite length_replicate; lia). by rewrite length_replicate, Nat.sub_diag. Qed.

Lemma lookup_next {A} j (x y z : A) l : (replicate j x ++ y :: z :: l) !! S j = Some z.
Proof using.
  rewrite lookup_app_r by (rewrite length_replicate; lia). rewrite length_replicate.
  by replace (S j - j)%nat with 1%nat by lia.
Qed.

Lemma insert_pair {A} j (x y z y' z' : A) l :
  <[j := y']> (<[S j := z']> (replicate j x ++ y :: z :: l)) = replicate j x ++ y' :: z' :: l.
Proof using. induction j as [|j IH]; [done|]. exact (f_equal (cons x) IH). Qed.

(** A carry moves one position up, merging with the peak there. *)
Lemma merge_step_carry n j p q rest :
  n mod 2 ^ (Z.of_nat j + 1) = 0 ->
  merge_step n (replicate j None ++ Some p :: q :: rest) j
  = replicate (S j) None ++ Some (if q is Some q then keccak (q ++ p) else p) :: rest.
Proof using.
  intros Hn. unfold Mmr.merge_step. rewrite lookup_at, lookup_next, Hn. cbn [Z.eqb].
  rewrite replicate_S_end, <-app_assoc. cbn [app]. destruct q; by rewrite insert_pair.
Qed.

Lemma fold_carry n xs : forall j p rest,
  (forall idx, (j <= idx < j + length xs)%nat -> n mod 2 ^ (Z.of_nat idx + 1) = 0) ->
  fold_left (merge_step n) (seq j (length xs)) (replicate j None ++ Some p :: map Some xs ++ rest)
  = replicate (j + length xs) None ++ Some (carry xs p) :: rest.
Proof using.
  induction xs as [|x xs IH]; intros j p rest Hn; [by rewrite Nat.add_0_r|]. cbn [length seq fold_left map app carry].
  rewrite merge_step_carry by (apply Hn; cbn; lia). rewrite IH by (intros; apply Hn; cbn; lia).
  by replace (j + S (length xs))%nat with (S j + length xs)%nat by lia.
Qed.

Lemma pow_mod_small k j c : (j < k)%nat ->
  (2 ^ Z.of_nat k * c) mod 2 ^ (Z.of_nat j + 1) = 0.
Proof using.
  intros Hj. replace (Z.of_nat k) with ((Z.of_nat k - Z.of_nat j - 1) + (Z.of_nat j + 1)) by lia.
  rewrite Z.pow_add_r by lia. rewrite <-Z.mul_assoc, (Z.mul_comm _ c), Z.mul_assoc. apply Z.mod_mul.
  apply Z.pow_nonzero; lia.
Qed.

Lemma pow_mod_odd k j c : (k <= j)%nat ->
  (2 ^ Z.of_nat k * (1 + 2 * c)) mod 2 ^ (Z.of_nat j + 1) <> 0.
Proof using.
  intros Hj Hm. apply Z.mod_divide in Hm as [m Hm]; [|apply Z.pow_nonzero; lia].
  replace (Z.of_nat j + 1) with (Z.of_nat k + (Z.of_nat j - Z.of_nat k + 1)) in Hm by lia.
  rewrite (Z.pow_add_r 2 (Z.of_nat k)), (Z.pow_add_r 2 (_ - _)) in Hm by lia.
  pose proof (Z.pow_pos_nonneg 2 (Z.of_nat k) ltac:(lia) ltac:(lia)).
  assert (1 + 2 * c = m * (2 ^ (Z.of_nat j - Z.of_nat k) * 2)) by nia. lia.
Qed.

Lemma bit_length_pow k : bit_length (2 ^ Z.of_nat k - 1) < bit_length (2 ^ Z.of_nat k).
Proof using.
  unfold bit_length. pose proof (Z.pow_pos_nonneg 2 (Z.of_nat k) ltac:(lia) ltac:(lia)) as Hp.
  destruct (Z.eqb_spec (2 ^ Z.of_nat k) 0); [lia|]. rewrite Z.log2_pow2 by lia.
  destruct (Z.eqb_spec (2 ^ Z.of_nat k - 1) 0); [lia|].
  assert (Z.log2 (2 ^ Z.of_nat k - 1) < Z.of_nat k); [|lia]. apply Z.log2_lt_pow2; lia.
Qed.

Lemma bit_length_same k c : 1 <= c ->
  bit_length (2 ^ Z.of_nat k * (1 + 2 * c) - 1) = bit_length (2 ^ Z.of_nat k * (1 + 2 * c)).
Proof using.
  intros Hc. unfold bit_length. pose proof (Z.pow_pos_nonneg 2 (Z.of_nat k) ltac:(lia) ltac:(lia)) as Hp.
  set (n := 2 ^ Z.of_nat k * (1 + 2 * c)). assert (3 <= n) by (unfold n; nia).
  destruct (Z.eqb_spec n 0), (Z.eqb_spec (n - 1) 0); try lia. f_equal.
  apply Z.log2_unique; [apply Z.log2_nonneg|]. pose proof (Z.log2_spec n ltac:(lia)) as [Hlo Hhi].
  split; [|lia]. destruct (decide (2 ^ Z.log2 n = n)) as [He|]; [|lia]. exfalso.
  assert (Z.of_nat k < Z.log2 n) as Hk.
  { apply (Z.pow_lt_mono_r_iff 2); [lia|apply Z.log2_nonneg|]. unfold n in *. nia. }
  replace (Z.log2 n) with (Z.of_nat k + 1 + (Z.log2 n - Z.of_nat k - 1)) in He by lia.
  rewrite !Z.pow_add_r in He by lia. change (2 ^ 1) with 2 in He. unfold n in He at 2.
  set (y := 2 ^ (Z.log2 n - Z.of_nat k - 1)) in *. assert (2 * y = 1 + 2 * c) by nia. lia.
Qed.

(** ** [insert] is the binary counter *)

Lemma parity k c : 0 <= c -> ((2 ^ Z.of_nat (S k) * c) mod 2 =? 1) = false.
Proof using.
  intros Hc. rewrite Nat2Z.inj_succ, Z.pow_succ_r, <-Z.mul_assoc, Z.mul_comm by lia. by rewrite Z.mod_mul.
Qed.

Lemma py_index_0 {A} (x : A) l : py_index (x :: l) 0 = Some x.
Proof using. by rewrite py_index_nonneg. Qed.
Lemma py_index_1 {A} (x y : A) l : py_index (x :: y :: l) 1 = Some y.
Proof using. by rewrite py_index_nonneg. Qed.
Lemma py_set_0 {A} (x z : A) l : py_set (x :: l) 0 z = Some (z :: l).
Proof using. rewrite py_set_nonneg; [done|cbn [length]; lia]. Qed.
Lemma py_set_1 {A} (x y z : A) l : py_set (x :: y :: l) 1 z = Some (x :: z :: l).
Proof using. rewrite py_set_nonneg; [done|cbn [length]; lia]. Qed.

Lemma insert_full xs v :
  insert v (map Some xs) = Some (append (map Some xs) v).
Proof using.
  pose proof (append_run xs v []) as Ha. pose proof (count_ones xs []) as Hc. rewrite app_nil_r in Ha, Hc.
  change (get_item_count []) with 0 in Hc. rewrite Z.add_0_r, Z.mul_1_r in Hc.
  rewrite Ha. unfold Mmr.insert. rewrite Hc, Z.sub_add.
  pose proof (bit_length_pow (length xs)) as Hb. apply Z.ltb_lt in Hb. rewrite Hb.
  destruct xs as [|x xs]; [done|]. cbn [length] in *.
  pose proof (parity (length xs) 1 ltac:(lia)) as Hp. rewrite Z.mul_1_r in Hp. rewrite Hp.
  cbn [map]. rewrite py_index_0. cbn [mbind option_bind]. rewrite py_set_0.
  cbn [mbind option_bind length]. rewrite length_map. cbn [Nat.sub].
  pose proof (fold_carry (2 ^ Z.of_nat (S (length xs))) (x :: xs) 0 v []) as Hf.
  cbn [replicate app map length] in Hf. rewrite app_nil_r in Hf. rewrite Hf; [done|].
  intros idx Hi. pose proof (pow_mod_small (S (length xs)) idx 1 ltac:(lia)) as Hm. by rewrite Z.mul_1_r in Hm.
Qed.

(** The carry of a run lands on an absent peak, and the rest is left alone. *)
Lemma fold_land xs p rest c :
  let k := S (length xs) in
  fold_left (merge_step (2 ^ Z.of_nat (S k) * (1 + 2 * c))) (seq 1 (k + length rest))
    (None :: Some p :: map Some xs ++ None :: rest)
  = replicate (S k) None ++ Some (carry xs p) :: rest.
Proof using.
  intros k. replace (k + length rest)%nat with (length xs + (1 + length rest))%nat by (unfold k; lia).
  rewrite seq_app, fold_left_app.
  pose proof (fold_carry (2 ^ Z.of_nat (S k) * (1 + 2 * c)) xs 1 p (None :: rest)) as Hf.
  cbn [replicate app] in Hf. rewrite Hf by (intros; apply pow_mod_small; unfold k; lia).
  rewrite seq_app, fold_left_app. cbn [seq fold_left].
  rewrite merge_step_carry by (apply pow_mod_small; unfold k; lia). cbn [is_Some].
  apply fold_skip, List.Forall_forall. intros idx Hi%in_seq. apply pow_mod_odd. unfold k. lia.
Qed.

Lemma insert_gap xs rest v :
  canonical (None :: rest) -> rest <> [] ->
  insert v (map Some xs ++ None :: rest) = Some (append (map Some xs ++ None :: rest) v).
Proof using.
  intros Hcan Hne. rewrite append_run. cbn [append]. unfold Mmr.insert.
  assert (1 <= get_item_count rest) as Hc.
  { apply canonical_pos; [|done]. destruct rest; [done|]. by eapply canonical_tail. }
  rewrite count_ones, Z.sub_add, count_cons, Z.add_0_l.
  rewrite bit_length_same, Z.ltb_irrefl by done.
  destruct xs as [|x xs].
  { cbn [length]. change (2 ^ Z.of_nat 0) with 1. rewrite Z.mul_1_l.
    rewrite (Z.mul_comm 2), Z.mod_add by lia. done. }
  cbn [length]. rewrite parity by lia. cbn [map app].
  rewrite py_index_0. cbn [mbind option_bind].
  destruct xs as [|y xs].
  - cbn [map app]. rewrite py_index_1. cbn [mbind option_bind]. rewrite py_set_1. cbn [mbind option_bind].
    rewrite py_set_0. cbn [mbind option_bind].
    cbn [length Nat.sub seq fold_left]. rewrite merge_step_skip by by right.
    rewrite fold_skip; [done|]. apply List.Forall_forall. intros idx Hi%in_seq. apply pow_mod_odd. cbn. lia.
  - cbn [map app]. rewrite py_index_1. cbn [mbind option_bind]. rewrite py_set_0. cbn [mbind option_bind].
    rewrite py_set_1. cbn [mbind option_bind]. rewrite py_set_0. cbn [mbind option_bind].
    rewrite !length_cons, length_app, length_map. cbn [length Nat.sub].
    replace (S (length xs + S (length rest)))%nat with (S (S (length xs) + length rest)) by lia.
    cbn [seq fold_left]. rewrite merge_step_skip by by right.
    pose proof (fold_land xs (merge_peaks keccak y (merge_peaks keccak x v)) rest (get_item_count rest)) as Hf.
    cbv zeta in Hf. cbn [length] in Hf |- *. by rewrite Hf.
Qed.

Lemma insert_append_run peaks v : canonical peaks -> insert v peaks = Some (append peaks v).
Proof using.
  intros Hc. destruct (run_of_peaks peaks) as (xs & rest & -> & [->|[rest' ->]]).
  - rewrite app_nil_r. apply insert_full.
  - assert (canonical (None :: rest')) as Hc'.
    { unfold canonical in *. by rewrite last_app_cons in Hc. }
    apply insert_gap; [done|]. intros ->. by destruct Hc'.
Qed.

Lemma append_canonical peaks v : canonical peaks -> canonical (append peaks v).
Proof using.
  revert v. induction peaks as [|[p|] peaks IH]; intros v Hc; [done| |].
  - cbn [append]. assert (canonical peaks) as Hc' by (by destruct peaks).
    specialize (IH (keccak (p ++ v)) Hc'). unfold canonical in *.
    destruct (append peaks _) as [|w l] eqn:He; [|done]. by destruct peaks as [|[] ?].
  - cbn [append]. by destruct peaks.
Qed.

Lemma append_count peaks v : get_item_count (append peaks v) = get_item_count peaks + 1.
Proof using.
  revert v. induction peaks as [|[p|] peaks IH]; intros v; cbn [append]; rewrite ?count_cons; [done| |lia].
  rewrite IH. lia.
Qed.

(** ** The peaks stand for the values *)

Lemma tree_join h a b : length a = (2 ^ h)%nat -> length b = (2 ^ h)%nat ->
  tree (S h) (a ++ b) = keccak (tree h a ++ tree h b).
Proof using. intros Ha Hb. cbn [tree]. by rewrite take_app_length', drop_app_length' by done. Qed.

Lemma append_stands h peaks values block :
  stands_for h peaks values -> length block = (2 ^ h)%nat ->
  stands_for h (append peaks (tree h block)) (values ++ block).
Proof using.
  intros Hs. revert block. induction Hs as [h|h peaks values Hs IH|h peaks values block0 Hs IH Hl0]; intros block Hl.
  - cbn. by apply (stands_some h [] []); [constructor|].
  - cbn [append]. by constructor.
  - cbn [append]. constructor. rewrite <-tree_join, <-app_assoc by done. apply IH.
    rewrite length_app. cbn [Nat.pow]. lia.
Qed.

Lemma insert_all_run values : forall peaks old,
  canonical peaks -> stands_for 0 peaks old ->
  exists peaks', insert_all keccak values peaks = Some peaks' /\ canonical peaks' /\
    stands_for 0 peaks' (old ++ values) /\
    get_item_count peaks' = get_item_count peaks + Z.of_nat (length values).
Proof using.
  induction values as [|v values IH]; intros peaks old Hc Hs.
  - exists peaks. split; [done|]. split; [done|]. rewrite app_nil_r. split; [done|cbn; lia].
  - cbn [insert_all]. rewrite insert_append_run by done. cbn [mbind option_bind].
    destruct (IH (append peaks v) (old ++ [v])) as (peaks' & Hrun & Hc' & Hs' & Hn).
    { by apply append_canonical. } { by apply (append_stands 0 peaks old [v]). }
    exists peaks'. split; [done|]. split; [done|]. rewrite <-app_assoc in Hs'. split; [done|].
    rewrite Hn, append_count. cbn [length]. lia.
Qed.

(** ** The super peak commits to the values *)

Context `{!HashLaws keccak}.
Abbreviation hash_sized := (List.Forall (fun v : bytes => length v = 32%nat)).

Lemma super_peak_rev_length l : hash_sized l -> length (super_peak_rev keccak l) = 32%nat.
Proof using HashLaws0. intros Hl. destruct l as [|x [|y l]]; [done|by inversion Hl|]. cbn [super_peak_rev]. by apply hash_length. Qed.

(** In what follows [L] are the strings hashed. *)
Context (L : list bytes).

Lemma hashed_inj x y : x ∈ L -> y ∈ L -> keccak x = keccak y -> x = y \/ collision_among keccak L.
Proof using. intros Hx Hy He. destruct (decide (x = y)); [by left|right; by exists x, y]. Qed.

Lemma subset_cons (x : bytes) l : x :: l ⊆ L -> x ∈ L /\ l ⊆ L.
Proof using. intros H. split; [apply H; by left|]. intros y Hy. apply H. by right. Qed.
Lemma subset_app (l l' : list bytes) : l ++ l' ⊆ L -> l ⊆ L /\ l' ⊆ L.
Proof using. intros H. split; intros y Hy; apply H, elem_of_app; [by left|by right]. Qed.

Lemma super_peak_rev_inj l l' :
  hash_sized l -> hash_sized l' -> length l = length l' -> super_peak_inputs l ⊆ L -> super_peak_inputs l' ⊆ L ->
  super_peak_rev keccak l = super_peak_rev keccak l' -> l = l' \/ collision_among keccak L.
Proof using HashLaws0.
  revert l'. induction l as [|x l IH]; intros [|x' l'] Hl Hl' Hlen Hi Hi' He; try done; [by left|].
  inversion Hl as [|?? Hx Hl1]; inversion Hl' as [|?? Hx' Hl1']; subst. injection Hlen as Hlen.
  destruct l as [|y l], l' as [|y' l']; try done.
  { cbn in He. subst. by left. }
  apply subset_cons in Hi as [Hx0 Hi], Hi' as [Hx0' Hi'].
  destruct (hashed_inj _ _ Hx0 Hx0' He) as [Heq|]; [|by right].
  apply app_inv_head in Heq. apply app_inj_1 in Heq as [Heq ->]; [|by rewrite !super_peak_rev_length].
  destruct (IH (y' :: l') Hl1 Hl1' Hlen Hi Hi' Heq) as [->|]; [by left|by right].
Qed.

Lemma tree_length h l : hash_sized l -> length l = (2 ^ h)%nat -> length (tree h l) = 32%nat.
Proof using HashLaws0.
  destruct h; [|intros; cbn [tree]; by apply hash_length]. intros Hl H1. destruct l as [|x l]; [done|]. by inversion Hl.
Qed.

Lemma block_inputs_join h a b : length a = (2 ^ h)%nat -> length b = (2 ^ h)%nat ->
  block_inputs (S h) (a ++ b) = (tree h a ++ tree h b) :: block_inputs h a ++ block_inputs h b.
Proof using. intros Ha Hb. cbn [block_inputs]. by rewrite take_app_length', drop_app_length' by done. Qed.

Lemma tree_inj h : forall l l', hash_sized l -> hash_sized l' ->
  length l = (2 ^ h)%nat -> length l' = (2 ^ h)%nat -> block_inputs h l ⊆ L -> block_inputs h l' ⊆ L ->
  tree h l = tree h l' -> l = l' \/ collision_among keccak L.
Proof using HashLaws0.
  induction h as [|h IH]; intros l l' Hl Hl' Hn Hn' Hi Hi' He.
  { destruct l as [|x [|? l]], l' as [|x' [|? l']]; try done. cbn in He. subst. by left. }
  destruct (perfect_split h l Hn) as (a & b & -> & Ha & Hb), (perfect_split h l' Hn') as (a' & b' & -> & Ha' & Hb').
  apply Forall_app in Hl as [Hla Hlb], Hl' as [Hla' Hlb']. rewrite !tree_join in He by done.
  rewrite block_inputs_join in Hi, Hi' by done. apply subset_cons in Hi as [Hx Hi], Hi' as [Hx' Hi'].
  apply subset_app in Hi as [Hia Hib], Hi' as [Hia' Hib'].
  destruct (hashed_inj _ _ Hx Hx' He) as [Heq|]; [|by right].
  apply app_inj_1 in Heq as [H1 H2]; [|by rewrite !tree_length].
  destruct (IH a a') as [->|]; [done..| |by right]. destruct (IH b b') as [->|]; [done..|by left|by right].
Qed.

Lemma stands_divides h peaks values : stands_for h peaks values -> (2 ^ h | length values)%nat.
Proof using.
  induction 1 as [h|h peaks values _ [c Hc]|h peaks values block _ [c Hc] Hb].
  - by exists O.
  - exists (c * 2)%nat. rewrite Hc. cbn [Nat.pow]. lia.
  - exists (c * 2 + 1)%nat. rewrite length_app, Hc, Hb. cbn [Nat.pow]. lia.
Qed.

Lemma stands_length h peaks values :
  stands_for h peaks values -> Z.of_nat (length values) = 2 ^ Z.of_nat h * get_item_count peaks.
Proof using.
  induction 1 as [h|h peaks values _ IH|h peaks values block _ IH Hb].
  - change (get_item_count []) with 0. cbn. lia.
  - rewrite IH, count_cons, Nat2Z.inj_succ, Z.pow_succ_r by lia. lia.
  - assert (Z.of_nat (2 ^ h) = 2 ^ Z.of_nat h) as Hp by apply Nat2Z.inj_pow.
    rewrite length_app, Nat2Z.inj_add, IH, Hb, Hp, count_cons, Nat2Z.inj_succ, Z.pow_succ_r by lia. lia.
Qed.

(** Peaks with the same count are present at the same positions; equal present peaks
    then stand for equal values. *)
Lemma stands_inj h peaks values : stands_for h peaks values -> forall peaks' values',
  stands_for h peaks' values' -> canonical peaks -> canonical peaks' ->
  get_item_count peaks = get_item_count peaks' -> hash_sized values -> hash_sized values' ->
  length (omap id peaks) = length (omap id peaks') /\ hash_sized (omap id peaks) /\ hash_sized (omap id peaks') /\
  (range_inputs h peaks values ⊆ L -> range_inputs h peaks' values' ⊆ L ->
   omap id peaks = omap id peaks' -> values = values' \/ collision_among keccak L).
Proof using HashLaws0.
  induction 1 as [h|h peaks values Hs IH|h peaks values block Hs IH Hb];
    intros peaks' values' Hs' Hc Hc' Hn Hv Hv'.
  - destruct peaks' as [|w peaks']; [inversion Hs'; subst; cbn; by split_and!; [| | |left]|].
    exfalso. pose proof (canonical_pos _ Hc' ltac:(done)) as Hp. change (get_item_count []) with 0 in Hn. lia.
  - destruct peaks' as [|w peaks'].
    { exfalso. pose proof (canonical_pos _ Hc ltac:(done)) as Hp. change (get_item_count []) with 0 in Hn. lia. }
    rewrite !count_cons in Hn. destruct w as [w|]; [lia|].
    assert (canonical peaks /\ canonical peaks') as [Hc1 Hc1'] by (split; [by destruct peaks|by destruct peaks']).
    inversion Hs'; subst. apply (IH peaks' values'); try done. lia.
  - destruct peaks' as [|w peaks'].
    { exfalso. pose proof (canonical_pos _ Hc ltac:(done)) as Hp. change (get_item_count []) with 0 in Hn. lia. }
    rewrite !count_cons in Hn. destruct w as [w|]; [|lia].
    assert (canonical peaks /\ canonical peaks') as [Hc1 Hc1'] by (split; [by destruct peaks|by destruct peaks']).
    inversion Hs' as [| |h' p' values1 block' Hs1 Hb']; subst.
    apply Forall_app in Hv as [Hv Hvb], Hv' as [Hv' Hvb'].
    destruct (IH peaks' values1 Hs1 Hc1 Hc1' ltac:(lia) Hv Hv') as (Hl & Hp & Hp' & He).
    assert (forall x (l : peaks_t), omap id (Some x :: l) = x :: omap id l) as Ho by done. rewrite !Ho.
    split; [by cbn; rewrite Hl|]. split; [constructor; [by apply tree_length|done]|].
    split; [constructor; [by apply tree_length|done]|]. intros Hi Hi' Heq. injection Heq as Ht Heq. cbn [range_inputs] in Hi, Hi'.
    rewrite !length_app, Hb, Nat.add_sub, drop_app_length, take_app_length in Hi.
    rewrite !length_app, Hb', Nat.add_sub, drop_app_length, take_app_length in Hi'.
    apply subset_app in Hi as [Hib Hi], Hi' as [Hib' Hi'].
    destruct (tree_inj h block block') as [->|]; [done..| |by right].
    destruct (He Hi Hi' Heq) as [->|]; [by left|by right].
Qed.
End spec.

(** ** The properties *)

(** [insert] agrees with the binary counter on every list of peaks a range can have
    (no absent peak at the end): the special cases and the loop of merges carry the new
    value through the lowest run of peaks, no index is out of range, the count goes up
    by one and the list stays of that form. *)
Theorem insert_appends keccak peaks v :
  canonical peaks ->
  insert keccak v peaks = Some (append keccak peaks v) /\ canonical (append keccak peaks v) /\
  get_item_count (append keccak peaks v) = get_item_count peaks + 1.
Proof.
  intros Hc. split; [by apply insert_append_run|]. split; [by apply append_canonical|apply append_count].
Qed.

(** Refinement: inserting any values in order, from the empty range, succeeds; the
    range then counts them, and each peak is the root of the perfect tree over its block
    of values, later blocks lower. *)
Theorem mmr_refines_values keccak values :
  exists peaks, insert_all keccak values [] = Some peaks /\ canonical peaks /\
    get_item_count peaks = Z.of_nat (length values) /\ stands_for keccak 0 peaks values.
Proof.
  destruct (insert_all_run keccak values [] []) as (peaks & ? & ? & ? & ?); [done|constructor|].
  by exists peaks.
Qed.

(** The super peak is a commitment: two histories of the same number of hashes with the
    same super peak are the same history, or the hash function collides on the strings hashed
    from the two to the super peaks. *)
Theorem super_peak_binding keccak `{!HashLaws keccak} values values' peaks peaks' :
  List.Forall (fun v : bytes => length v = 32%nat) values ->
  List.Forall (fun v : bytes => length v = 32%nat) values' -> length values = length values' ->
  insert_all keccak values [] = Some peaks -> insert_all keccak values' [] = Some peaks' ->
  super_peak keccak peaks = super_peak keccak peaks' ->
  values = values' \/ collision_among keccak (mmr_inputs keccak peaks values ++ mmr_inputs keccak peaks' values').
Proof.
  intros Hv Hv' Hl Hrun Hrun' He.
  destruct (insert_all_run keccak values [] []) as (q & Hq & Hc & Hs & Hn); [done|constructor|].
  destruct (insert_all_run keccak values' [] []) as (q' & Hq' & Hc' & Hs' & Hn'); [done|constructor|].
  rewrite Hrun in Hq. injection Hq as <-. rewrite Hrun' in Hq'. injection Hq' as <-. cbn [app] in Hs, Hs'.
  set (L := mmr_inputs _ _ _ ++ _).
  assert (range_inputs keccak 0 peaks values ⊆ L /\ super_peak_inputs keccak (rev (omap id peaks)) ⊆ L) as [Hr Hi].
  { apply subset_app. intros x Hx. apply elem_of_app. by left. }
  assert (range_inputs keccak 0 peaks' values' ⊆ L /\ super_peak_inputs keccak (rev (omap id peaks')) ⊆ L) as [Hr' Hi'].
  { apply subset_app. intros x Hx. apply elem_of_app. by right. }
  destruct (stands_inj keccak L 0 peaks values Hs peaks' values' Hs') as (Hlen & Hp & Hp' & Hinj); [done|done|lia|done|done|].
  unfold super_peak in He.
  destruct (super_peak_rev_inj keccak L (rev (omap id peaks)) (rev (omap id peaks'))) as [Heq|]; [| | |exact Hi|exact Hi'|done| |by right].
  - by apply Forall_rev.
  - by apply Forall_rev.
  - by rewrite !length_rev.
  - apply (f_equal (@rev bytes)) in Heq. rewrite !rev_involutive in Heq. by apply Hinj.
Qed.
