(* ===== verification/Trie.v ===== *)
(** * The state trie

    [PatriciaMerkleTrie] of [merkle.py]: the root of a set of key-value pairs, which
    commits to the state of the chain.  The recursion follows the bits of the keys; it
    is unbounded in the code and ends because two different keys differ in some bit
    ([trie_root_total]).  The caches only remember results.

    The root does not depend on the order of the pairs ([trie_root_permutation]) and
    commits to them ([trie_root_binding]).  A branch drops the first bit of its left
    hash, so the commitment is up to hashes that agree in the other 255 bits. *)

From Stdlib Require Import ZArith Lia Bool List Permutation.
From stdpp Require Import base numbers option list.
From S2P Require Import Prelude Constants Merkle.
Import ListNotations.

#[local] Open Scope Z_scope.
#[local] Open Scope py_scope.

Section trie.
Context (blake2b_256_hash : bytes -> bytes).

(** [assert] raises when a hash has not 32 bytes. *)
Definition _branch (left right : bytes) : outcome exn bytes :=
  if (length left =? 32)%nat && (length right =? 32)%nat then
    match left with
    | b :: rest => Ret ((b .& 127) :: rest ++ right)
    | [] => Raise PyException
    end
  else Raise PyException.

Definition ljust32 (value : bytes) : bytes := value ++ replicate (32 - length value) 0.

Definition _leaf (key value : bytes) : bytes :=
  if (length value <=? 32)%nat then (128 .| Z.of_nat (length value)) :: key ++ ljust32 value
  else 192 :: key ++ blake2b_256_hash value.

(** [IndexError] beyond the key. *)
Definition _bit (key : bytes) (index : Z) : outcome exn bool :=
  match py_index key (index ≫ 3) with
  | Some b => Ret (negb (b .& (1 ≪ ((7 - index) .& 7)) =? 0))
  | None => Raise PyException
  end.

(** The loop that distributes the pairs: those without the bit, those with it. *)
Fixpoint split_bit (data : list (bytes * bytes)) (index : Z)
  : outcome exn (list (bytes * bytes) * list (bytes * bytes)) :=
  match data with
  | [] => Ret ([], [])
  | (key, value) :: data =>
      b ← _bit key index;
      '(l, r) ← split_bit data index;
      Ret (if b : bool then (l, (key, value) :: r) else ((key, value) :: l, r))
  end.

(** [None]: out of fuel. *)
Fixpoint merkle (fuel : nat) (data : list (bytes * bytes)) (index : Z) : option (outcome exn bytes) :=
  match data with
  | [] => Some (Ret zero_hash)
  | [(key, value)] => Some (Ret (blake2b_256_hash (_leaf key value)))
  | _ =>
      match fuel with
      | O => None
      | S fuel =>
          match split_bit data index with
          | Raise e => Some (Raise e)
          | Ret (l, r) =>
              match merkle fuel l (index + 1) with
              | Some (Ret left_hash) =>
                  match merkle fuel r (index + 1) with
                  | Some (Ret right_hash) =>
                      Some (encoded ← _branch left_hash right_hash; Ret (blake2b_256_hash encoded))
                  | res => res
                  end
              | res => res
              end
          end
      end
  end.

(** The length of the longest key bounds the recursion. *)
Definition trie_fuel (data : list (bytes * bytes)) : nat :=
  S (8 * fold_right (fun kv n => Nat.max (length kv.1) n) O data).
Definition root (data : list (bytes * bytes)) : option (outcome exn bytes) := merkle (trie_fuel data) data 0.
End trie.

(** * Properties *)

(** ** Bits of keys *)

(** The bit, when there is one. *)
Definition key_bit (key : bytes) (index : Z) : bool :=
  Z.testbit (nth (Z.to_nat (index / 8)) key 0) (7 - index mod 8).

Lemma bit_position index : (7 - index) .& 7 = 7 - index mod 8.
Proof.
  change 7 with (2 ^ 3 - 1) at 2. rewrite land_mask by lia. change (2 ^ 3) with 8.
  symmetry. apply (Z.mod_unique_pos _ _ (- (index / 8))); [pose proof (Z.mod_pos_bound index 8); lia|].
  pose proof (Z.div_mod index 8). lia.
Qed.

Lemma bit_run key index :
  0 <= index < 8 * Z.of_nat (length key) -> _bit key index = Ret (key_bit key index).
Proof.
  intros Hi. unfold _bit, key_bit. rewrite Z.shiftr_div_pow2 by lia. change (2 ^ 3) with 8.
  assert (0 <= index / 8 < Z.of_nat (length key)) as Hd by (split; [apply Z.div_pos|apply Z.div_lt_upper_bound]; lia).
  destruct (py_index_Some key (index / 8) Hd) as [b Hb]. rewrite Hb.
  rewrite py_index_nonneg in Hb by lia. apply nth_lookup_Some with (d := 0) in Hb. rewrite Hb.
  rewrite bit_position. pose proof (Z.mod_pos_bound index 8).
  rewrite Z.shiftl_1_l, land_pow2 by lia. destruct (Z.testbit _ _); [|done].
  pose proof (Z.pow_pos_nonneg 2 (7 - index mod 8)). by destruct (Z.eqb_spec (2 ^ (7 - index mod 8)) 0); [lia|].
Qed.

Lemma bit_out key index :
  8 * Z.of_nat (length key) <= index -> _bit key index = Raise PyException.
Proof.
  intros Hi. unfold _bit. rewrite Z.shiftr_div_pow2 by lia. change (2 ^ 3) with 8.
  assert (Z.of_nat (length key) <= index / 8) by (apply Z.div_le_lower_bound; lia).
  unfold py_index. destruct (Z.ltb_spec (index / 8) (Z.of_nat (length key))); [lia|]. rewrite andb_false_r.
  destruct (Z.ltb_spec (index / 8) 0); [lia|]. by rewrite andb_false_r.
Qed.

(** Keys of the same length with the same bits are the same. *)
Lemma byte_bits a b : is_byte a -> is_byte b ->
  (forall i, 0 <= i < 8 -> Z.testbit a i = Z.testbit b i) -> a = b.
Proof.
  intros Ha Hb Hi. apply Z.bits_inj'. intros i Hn. destruct (Z_lt_le_dec i 8); [apply Hi; lia|].
  unfold is_byte in *. by rewrite !(range_bits _ 8) by lia.
Qed.

Lemma key_bits_inj k k' :
  List.Forall is_byte k -> List.Forall is_byte k' -> length k = length k' ->
  (forall i, 0 <= i < 8 * Z.of_nat (length k) -> key_bit k i = key_bit k' i) -> k = k'.
Proof.
  intros Hk Hk' Hl Hi. apply (nth_ext _ _ 0 0); [done|]. intros j Hj.
  assert (is_byte (nth j k 0) /\ is_byte (nth j k' 0)) as [Hb Hb'].
  { rewrite List.Forall_forall in Hk, Hk'. split; [apply Hk|apply Hk']; apply nth_In; lia. }
  apply byte_bits; [done..|]. intros i Hi8. specialize (Hi (8 * Z.of_nat j + (7 - i)) ltac:(lia)).
  set (x := 8 * Z.of_nat j + (7 - i)) in Hi.
  assert (Z.of_nat j = x / 8) as Hq by (apply (Z.div_unique_pos _ _ _ (7 - i)); unfold x; lia).
  assert (7 - i = x mod 8) as Hr by (apply (Z.mod_unique_pos _ _ (Z.of_nat j)); unfold x; lia).
  unfold key_bit in Hi. rewrite <-Hq, <-Hr, Nat2Z.id in Hi. by replace (7 - (7 - i)) with i in Hi by lia.
Qed.

(** ** Splitting by a bit *)

Definition same_length (n : nat) (data : list (bytes * bytes)) : Prop :=
  List.Forall (fun kv => length kv.1 = n /\ List.Forall is_byte kv.1) data.

Definition side (b : bool) (index : Z) (data : list (bytes * bytes)) : list (bytes * bytes) :=
  filter (fun kv => key_bit kv.1 index = b) data.

Lemma split_run n data index :
  same_length n data -> 0 <= index < 8 * Z.of_nat n ->
  split_bit data index = Ret (side false index data, side true index data).
Proof.
  intros Hd Hi. induction Hd as [|[k v] data [Hk _] _ IH]; [done|]. cbn [split_bit].
  cbn in Hk. rewrite bit_run by lia. cbn [mbind outcome_bind]. rewrite IH. cbn [mbind outcome_bind].
  unfold side. rewrite !filter_cons. cbn. by destruct (key_bit k index).
Qed.

Lemma split_out n data index :
  same_length n data -> data <> [] -> 8 * Z.of_nat n <= index -> split_bit data index = Raise PyException.
Proof.
  intros Hd Hne Hi. destruct Hd as [|[k v] data [Hk _] _]; [done|]. cbn in Hk. cbn [split_bit].
  by rewrite bit_out by lia.
Qed.

Lemma side_permutation index data : Permutation data (side false index data ++ side true index data).
Proof.
  unfold side. induction data as [|[k v] data IH]; [done|]. rewrite !filter_cons. cbn [fst].
  destruct (key_bit k index); repeat case_decide; try done.
  - rewrite <-Permutation_middle. by constructor.
  - cbn [app]. by constructor.
Qed.

Lemma side_same_length n b index data : same_length n data -> same_length n (side b index data).
Proof.
  unfold same_length. rewrite !List.Forall_forall. intros Hd kv Hin. apply Hd.
  unfold side in Hin. apply list_elem_of_In, list_elem_of_filter in Hin as [_ Hin]. by apply list_elem_of_In.
Qed.

(** The keys have their first [index] bits in common. *)
Definition agree (index : Z) (data : list (bytes * bytes)) : Prop :=
  forall kv kv' i, kv ∈ data -> kv' ∈ data -> 0 <= i < index -> key_bit kv.1 i = key_bit kv'.1 i.

Lemma side_agree b index data : agree index data -> agree (index + 1) (side b index data).
Proof.
  intros Ha kv kv' i [Hb Hin]%list_elem_of_filter [Hb' Hin']%list_elem_of_filter Hi.
  destruct (decide (i = index)) as [->|]; [congruence|]. apply Ha; [done|done|lia].
Qed.

Lemma side_nodup b index data : NoDup data.*1 -> NoDup (side b index data).*1.
Proof.
  intros Hd. eapply sublist_NoDup; [exact Hd|]. apply fmap_sublist, sublist_filter.
Qed.

(** Two different keys differ below the length. *)
Lemma agree_below n index data :
  same_length n data -> NoDup data.*1 -> agree index data -> (2 <= length data)%nat -> index < 8 * Z.of_nat n.
Proof.
  intros Hd Hn Ha Hl. destruct (Z_lt_le_dec index (8 * Z.of_nat n)) as [|Hge]; [done|]. exfalso.
  destruct data as [|[k v] [|[k' v'] data]]; [cbn in Hl; lia|cbn in Hl; lia|].
  inversion Hd as [|?? [Hk Hb] Hd1]; subst. inversion Hd1 as [|?? [Hk' Hb'] _]; subst. cbn in *.
  apply NoDup_cons in Hn as [Hn _]. apply Hn. assert (k = k') as ->; [|left]. apply key_bits_inj; [done..|].
  intros i Hi. apply (Ha (k, v) (k', v') i); [left|right; left|cbn; lia].
Qed.

(** ** The recursion ends *)

Section laws.
Context (hash : bytes -> bytes) `{!HashLaws hash}.
Abbreviation merkle := (merkle hash).

Lemma merkle_step fuel data index : (2 <= length data)%nat ->
  merkle (S fuel) data index =
  match split_bit data index with
  | Raise e => Some (Raise e)
  | Ret (l, r) =>
      match merkle fuel l (index + 1) with
      | Some (Ret left_hash) =>
          match merkle fuel r (index + 1) with
          | Some (Ret right_hash) => Some (encoded ← _branch left_hash right_hash; Ret (hash encoded))
          | res => res
          end
      | res => res
      end
  end.
Proof using. intros Hl. by destruct data as [|[k v] [|[k' v'] data]]; [cbn in Hl; lia|cbn in Hl; lia|]. Qed.

Lemma branch_run l r : length l = 32%nat -> length r = 32%nat ->
  exists b rest, l = b :: rest /\ _branch l r = Ret ((b .& 127) :: rest ++ r).
Proof using.
  intros Hl Hr. unfold _branch. rewrite Hl, Hr. destruct l as [|b rest]; [done|]. by exists b, rest.
Qed.

(** Few entries: one or none. *)
Lemma few {A} (l : list A) : (length l < 2)%nat -> l = [] \/ exists x, l = [x].
Proof using. destruct l as [|x [|y l]]; [by left|right; by exists x|cbn; lia]. Qed.

Lemma merkle_few fuel data index : (length data < 2)%nat ->
  exists h, merkle fuel data index = Some (Ret h) /\ length h = 32%nat.
Proof using HashLaws0.
  intros [->|[[k v] ->]]%few; [exists zero_hash; by destruct fuel|].
  exists (hash (_leaf hash k v)). split; [by destruct fuel|apply hash_length].
Qed.

(** With as much fuel as bits left, the root of distinct keys is a hash. *)
Lemma merkle_total n fuel : forall data index,
  same_length n data -> NoDup data.*1 -> agree index data -> 0 <= index ->
  8 * Z.of_nat n <= index + Z.of_nat fuel ->
  exists h, merkle fuel data index = Some (Ret h) /\ length h = 32%nat.
Proof using HashLaws0.
  induction fuel as [|fuel IH]; intros data index Hd Hn Ha Hi Hf.
  - apply merkle_few. destruct (decide (2 <= length data)%nat) as [Hl|]; [|lia].
    pose proof (agree_below n index data Hd Hn Ha Hl). lia.
  - destruct (decide (2 <= length data)%nat) as [Hl|]; [|apply merkle_few; lia].
    pose proof (agree_below n index data Hd Hn Ha Hl) as Hlt.
    rewrite merkle_step, (split_run n) by (done || lia).
    assert (forall b, exists h, merkle fuel (side b index data) (index + 1) = Some (Ret h) /\ length h = 32%nat) as Hside.
    { intros b. apply IH; [by apply side_same_length|by apply side_nodup|by apply side_agree|lia|lia]. }
    destruct (Hside false) as (hl & -> & Hll), (Hside true) as (hr & -> & Hlr).
    destruct (branch_run hl hr Hll Hlr) as (b & rest & _ & ->). eexists. split; [reflexivity|apply hash_length].
Qed.

Lemma sides_nodup index data :
  NoDup (side false index data).*1 -> NoDup (side true index data).*1 -> NoDup data.*1.
Proof using.
  intros Hf Ht. rewrite (side_permutation index data), fmap_app. apply NoDup_app. split; [done|]. split; [|done].
  intros k (kv & -> & [Hb _]%list_elem_of_filter)%list_elem_of_fmap
    (kv' & Hk & [Hb' _]%list_elem_of_filter)%list_elem_of_fmap. congruence.
Qed.

(** A key that occurs twice is never separated: the recursion runs off the keys. *)
Lemma merkle_duplicate n fuel : forall data index,
  same_length n data -> ~ NoDup data.*1 -> agree index data -> 0 <= index <= 8 * Z.of_nat n ->
  8 * Z.of_nat n < index + Z.of_nat fuel ->
  merkle fuel data index = Some (Raise PyException).
Proof using HashLaws0.
  induction fuel as [|fuel IH]; intros data index Hd Hn Ha Hi Hf; [lia|].
  assert (2 <= length data)%nat as Hl.
  { destruct data as [|x [|y data]]; cbn; try lia; destruct Hn; [apply NoDup_nil_2|apply NoDup_singleton]. }
  rewrite merkle_step by done. destruct (decide (index = 8 * Z.of_nat n)) as [->|Hne].
  { rewrite (split_out n); [done|done|intros ->; cbn in Hl; lia|lia]. }
  rewrite (split_run n) by (done || lia).
  assert (forall b, same_length n (side b index data) /\ agree (index + 1) (side b index data)) as Hside
    by (intros b; split; [by apply side_same_length|by apply side_agree]).
  destruct (Hside false) as [Hdl Hal], (Hside true) as [Hdr Har].
  destruct (decide (NoDup (side false index data).*1)) as [Hnl|Hnl].
  - destruct (merkle_total n fuel _ (index + 1) Hdl Hnl Hal) as (h & -> & _); [lia..|].
    rewrite IH; [done|done| |done|lia..]. intros Hnr. apply Hn. by eapply sides_nodup.
  - by rewrite IH by (done || lia).
Qed.

(** ** The order of the pairs *)

Lemma merkle_permutation n fuel : forall data data' index,
  Permutation data data' -> same_length n data -> NoDup data.*1 -> agree index data -> 0 <= index ->
  merkle fuel data index = merkle fuel data' index.
Proof using HashLaws0.
  induction fuel as [|fuel IH]; intros data data' index Hp Hd Hn Ha Hi;
    (destruct (decide (2 <= length data)%nat) as [Hl|Hl];
     [|destruct (few data) as [->|[x ->]]; [lia|by apply Permutation_nil in Hp as ->|
       by apply Permutation_length_1_inv in Hp as ->]]).
  - pose proof Hl as Hl'. rewrite Hp in Hl'. destruct data as [|[k v] [|[k1 v1] data]], data' as [|[k' v'] [|[k1' v1'] data']];
      try (cbn in *; lia); done.
  - assert (same_length n data') as Hd' by (unfold same_length in *; by rewrite <-Hp).
    rewrite !merkle_step by (rewrite <-?Hp; lia).
    pose proof (agree_below n index data Hd Hn Ha Hl). rewrite !(split_run n) by (done || lia).
    assert (forall b, merkle fuel (side b index data) (index + 1) = merkle fuel (side b index data') (index + 1)) as Hs.
    { intros b. apply IH; [by apply filter_Permutation|by apply side_same_length|by apply side_nodup|by apply side_agree|lia]. }
    by rewrite (Hs false), (Hs true).
Qed.

(** ** The root commits to the pairs *)

(** A hash without its first bit, as a branch keeps its left one. *)
Definition masked (h : bytes) : bytes := match h with b :: rest => (b .& 127) :: rest | [] => [] end.

(** Two inputs whose hashes agree but for the first bit, or one whose hash is zero but
    for the first bit. *)
Definition nearly_broken : Prop :=
  (exists x y, x <> y /\ masked (hash x) = masked (hash y)) \/ (exists x, masked (hash x) = zero_hash).

Lemma masked_inj x y : masked (hash x) = masked (hash y) -> x = y \/ nearly_broken.
Proof using. intros Hxy. destruct (decide (x = y)); [by left|right; left; by exists x, y]. Qed.

Lemma leaf_head k v : exists b rest, _leaf hash k v = b :: rest /\ 128 <= b /\
  (b = 192 <-> (32 < length v)%nat).
Proof using.
  unfold _leaf. destruct (Nat.leb_spec (length v) 32) as [Hl|Hl]; (eexists _, _; split; [reflexivity|]); [|lia].
  rewrite Z.lor_comm, (lor_low_high _ 128 7) by (done || lia). lia.
Qed.

Lemma leaf_inj k v k' v' : length k = length k' ->
  _leaf hash k v = _leaf hash k' v' -> (k = k' /\ v = v') \/ nearly_broken.
Proof using.
  intros Hk He. unfold _leaf in He.
  assert (forall m, (m <= 32)%nat -> 128 .| Z.of_nat m = Z.of_nat m + 128) as Hor
    by (intros m Hm; rewrite Z.lor_comm, (lor_low_high _ 128 7) by (done || lia); lia).
  destruct (Nat.leb_spec (length v) 32) as [Hl|Hl], (Nat.leb_spec (length v') 32) as [Hl'|Hl'];
    rewrite ?Hor in He by lia.
  - injection He as Hb He. apply app_inj_1 in He as [-> He]; [|done]. left. split; [done|]. unfold ljust32 in He.
    apply app_inj_1 in He as [-> _]; [done|lia].
  - injection He as Hb _. lia.
  - injection He as Hb _. lia.
  - injection He as He. apply app_inj_1 in He as [-> He]; [|done].
    destruct (masked_inj v v') as [->|]; [by rewrite He|by left|by right].
Qed.

(** A leaf is no branch. *)
Lemma leaf_branch k v b rest : _leaf hash k v = (b .& 127) :: rest -> False.
Proof using.
  destruct (leaf_head k v) as (b' & rest' & -> & Hb & _). intros [= -> _].
  change 127 with (2 ^ 7 - 1) in Hb. rewrite land_mask in Hb by lia. pose proof (Z.mod_pos_bound b (2 ^ 7)). lia.
Qed.

(** What a root is the hash of. *)
Lemma merkle_shape n fuel data index h :
  same_length n data -> NoDup data.*1 -> agree index data -> 0 <= index ->
  merkle fuel data index = Some (Ret h) ->
  (data = [] /\ h = zero_hash) \/
  (exists k v, data = [(k, v)] /\ h = hash (_leaf hash k v)) \/
  (exists fuel1 b rest hr, fuel = S fuel1 /\
     merkle fuel1 (side false index data) (index + 1) = Some (Ret (b :: rest)) /\
     merkle fuel1 (side true index data) (index + 1) = Some (Ret hr) /\
     length (b :: rest) = 32%nat /\ h = hash ((b .& 127) :: rest ++ hr)).
Proof using.
  intros Hd Hn Ha Hi Hm. destruct (decide (2 <= length data)%nat) as [Hl|Hl].
  - right. right. pose proof (agree_below n index data Hd Hn Ha Hl).
    destruct fuel as [|fuel].
    { destruct data as [|[k v] [|[k1 v1] data]]; try (cbn in Hl; lia). done. }
    rewrite merkle_step, (split_run n) in Hm by (done || lia).
    destruct (merkle fuel (side false index data) (index + 1)) as [[hl|]|] eqn:Hml; try done.
    destruct (merkle fuel (side true index data) (index + 1)) as [[hr|]|] eqn:Hmr; try done.
    unfold _branch in Hm. destruct ((length hl =? 32) && (length hr =? 32))%nat eqn:H32; [|done].
    apply andb_true_iff in H32 as [Hl32 _]. apply Nat.eqb_eq in Hl32.
    destruct hl as [|b rest]; [done|]. injection Hm as <-. by exists fuel, b, rest, hr.
  - destruct (few data) as [->|[[k v] ->]]; [lia| |].
    + left. destruct fuel; by injection Hm.
    + right. left. exists k, v. split; [done|]. destruct fuel; by injection Hm.
Qed.

Lemma sides_permutation index data data' :
  Permutation (side false index data) (side false index data') ->
  Permutation (side true index data) (side true index data') -> Permutation data data'.
Proof using. intros Hf Ht. by rewrite (side_permutation index data), (side_permutation index data'), Hf, Ht. Qed.

Lemma merkle_binding n fuel : forall fuel' data data' index h h',
  same_length n data -> NoDup data.*1 -> agree index data ->
  same_length n data' -> NoDup data'.*1 -> agree index data' -> 0 <= index ->
  merkle fuel data index = Some (Ret h) -> merkle fuel' data' index = Some (Ret h') ->
  masked h = masked h' -> Permutation data data' \/ nearly_broken.
Proof using.
  induction fuel as [|fuel IH]; intros fuel' data data' index h h' Hd Hn Ha Hd' Hn' Ha' Hi Hm Hm' He;
    destruct (merkle_shape n _ _ _ _ Hd Hn Ha Hi Hm)
      as [[-> ->]|[(k & v & -> & ->)|(f1 & b & rest & hr & Hf & Hml & Hmr & Hl & ->)]]; try done;
    destruct (merkle_shape n _ _ _ _ Hd' Hn' Ha' Hi Hm')
      as [[-> ->]|[(k' & v' & -> & ->)|(f1' & b' & rest' & hr' & -> & Hml' & Hmr' & Hl' & ->)]];
    try (by left); try (right; right; by eexists);
    try (destruct (masked_inj _ _ He) as [Heq|]; [exfalso; by eapply leaf_branch|by right]);
    try (symmetry in He; destruct (masked_inj _ _ He) as [Heq|]; [exfalso; by eapply leaf_branch|by right]).
  - destruct (masked_inj _ _ He) as [Heq|]; [|by right]. inversion Hd as [|?? [Hk _] _]; inversion Hd' as [|?? [Hk' _] _]; subst.
    destruct (leaf_inj k v k' v') as [[-> ->]|]; [done|done|by left|by right].
  - destruct (masked_inj _ _ He) as [Heq|]; [|by right]. inversion Hd as [|?? [Hk _] _]; inversion Hd' as [|?? [Hk' _] _]; subst.
    destruct (leaf_inj k v k' v') as [[-> ->]|]; [done|done|by left|by right].
  - injection Hf as <-. destruct (masked_inj _ _ He) as [Heq|]; [|by right]. injection Heq as Hb Heq.
    apply app_inj_1 in Heq as [-> ->]; [|cbn in Hl, Hl'; lia].
    destruct (IH f1' _ _ (index + 1) _ _ (side_same_length n false index data Hd) (side_nodup false index data Hn)
                (side_agree false index data Ha) (side_same_length n false index data' Hd')
                (side_nodup false index data' Hn') (side_agree false index data' Ha') ltac:(lia) Hml Hml')
      as [Hpl|]; [cbn; by rewrite Hb| |by right].
    destruct (IH f1' _ _ (index + 1) _ _ (side_same_length n true index data Hd) (side_nodup true index data Hn)
                (side_agree true index data Ha) (side_same_length n true index data' Hd')
                (side_nodup true index data' Hn') (side_agree true index data' Ha') ltac:(lia) Hmr Hmr' eq_refl)
      as [Hpr|]; [|by right].
    left. by eapply sides_permutation.
Qed.
End laws.

(** ** The properties *)

Lemma fuel_enough n data : same_length n data -> data <> [] -> trie_fuel data = Datatypes.S (8 * n).
Proof.
  intros Hd Hne. unfold trie_fuel. f_equal. f_equal. induction Hd as [|[k v] data [Hk _] Hd IH]; [done|].
  cbn in *. destruct data as [|kv data]; [cbn; lia|]. rewrite IH by done. lia.
Qed.

Lemma agree_0 data : agree 0 data.
Proof. intros ????? Hi. lia. Qed.

(** The recursion ends: on keys of one length, the root is a hash exactly when the keys
    are distinct, and raises when one occurs twice. *)
Theorem trie_root_total hash `{!HashLaws hash} n data :
  same_length n data ->
  (NoDup data.*1 -> exists h, root hash data = Some (Ret h) /\ length h = 32%nat) /\
  (~ NoDup data.*1 -> root hash data = Some (Raise PyException)).
Proof.
  intros Hd. destruct data as [|kv data]; [split; [intros; exists zero_hash; by split|intros []; constructor]|].
  set (l := kv :: data) in *. pose proof (fuel_enough n l Hd ltac:(done)) as Hf. split; intros Hn; unfold root.
  - apply (merkle_total hash n); [done|done|apply agree_0|lia|lia].
  - apply (merkle_duplicate hash n); [done|done|apply agree_0|lia|lia].
Qed.

(** The root does not depend on the order in which the pairs are listed. *)
Theorem trie_root_permutation hash `{!HashLaws hash} n data data' :
  same_length n data -> NoDup data.*1 -> Permutation data data' -> root hash data = root hash data'.
Proof.
  intros Hd Hn Hp. destruct data as [|kv data]; [by apply Permutation_nil in Hp as ->|].
  assert (same_length n data') as Hd' by (unfold same_length in *; by rewrite <-Hp).
  unfold root. rewrite (fuel_enough n data') by (done || (intros ->; by apply Permutation_nil_r in Hp)).
  rewrite (fuel_enough n (kv :: data)) by done. apply (merkle_permutation hash n); [done..|apply agree_0|lia].
Qed.

(** C37: The root commits to the pairs: two sets of pairs with distinct keys of one length
    and the same root are the same set, or the hash function has two different inputs
    whose hashes agree but for the first bit, or one whose hash is zero but for it. *)
Theorem trie_root_binding hash n data data' h :
  same_length n data -> NoDup data.*1 -> same_length n data' -> NoDup data'.*1 ->
  root hash data = Some (Ret h) -> root hash data' = Some (Ret h) ->
  Permutation data data' \/ nearly_broken hash.
Proof.
  intros Hd Hn Hd' Hn' Hm Hm'.
  by apply (merkle_binding hash n (trie_fuel data) (trie_fuel data') data data' 0 h h); try apply agree_0.
Qed.
