(* ===== verification/StateBase.v ===== *)
(** * What the state components share

    [exceptions.py] and the error codes of [models/stf_output.py]: the exceptions a state
    transition or a validation raises.  [models/common.py]: the validator record.  Loops over
    a Python list that may raise ([for_each], [every]) with the rules that carry an invariant
    through them. *)

From Stdlib Require Import ZArith Lia Bool List.
From stdpp Require Import base numbers option list sets.
From S2P Require Import Prelude Graypaper.
Import ListNotations.

#[local] Open Scope Z_scope.

(** ** Error codes and exceptions *)

Module DisputesErrorCode.
Inductive t : Set :=
| already_judged | bad_vote_split | verdicts_not_sorted_unique | judgements_not_sorted_unique
| culprits_not_sorted_unique | faults_not_sorted_unique | not_enough_faults
| culprits_verdict_not_bad | fault_verdict_wrong | offender_already_reported
| bad_judgement_age | bad_validator_index | bad_signature | bad_guarantor_key
| bad_auditor_key | bad_votes_count.
#[global] Instance eq_dec : EqDecision t.
Proof. solve_decision. Defined.
End DisputesErrorCode.

Module SafroleErrorCode.
Inductive t : Set :=
| bad_slot | unexpected_ticket | bad_ticket_order | bad_ticket_proof | bad_ticket_attempt
| reserved | duplicate_ticket | too_many_tickets | ticket_not_retained.
#[global] Instance eq_dec : EqDecision t.
Proof. solve_decision. Defined.
End SafroleErrorCode.

Module GuaranteeErrorCode.
Inductive t : Set :=
| bad_core_index | future_report_slot | report_epoch_before_last | insufficient_guarantees
| out_of_order_guarantee | not_sorted_or_unique_guarantors | wrong_assignment | core_engaged
| anchor_not_recent | bad_service_id | bad_code_hash | dependency_missing | duplicate_package
| bad_state_root | bad_beefy_mmr_root | core_unauthorized | bad_validator_index
| work_report_gas_too_high | service_item_gas_too_low | too_many_dependencies
| segment_root_lookup_invalid | bad_signature | work_report_too_big | banned_validator
| lookup_anchor_not_recent | missing_work_results | bad_anchor_slot | bad_erasure_shards
| authorizer_gas_too_high | refine_load_too_high | bundle_length_too_high
| exports_count_mismatch.
#[global] Instance eq_dec : EqDecision t.
Proof. solve_decision. Defined.
End GuaranteeErrorCode.

Module AssurancesErrorCode.
Inductive t : Set :=
| report_timeout | bad_attestation_parent | bad_validator_index | core_not_engaged
| bad_signature | not_sorted_or_unique_assurers.
#[global] Instance eq_dec : EqDecision t.
Proof. solve_decision. Defined.
End AssurancesErrorCode.

Module BlockValidationErrorCode.
Inductive t : Set :=
| extrinsic_hash_mismatch | invalid_author_key | invalid_seal_key | bad_slot
| bad_ticket_marker_data | bad_epoch_marker_data | bad_offender_marker_data
| no_valid_ancestor | state_root_mismatch | historical_state_not_found.
#[global] Instance eq_dec : EqDecision t.
Proof. solve_decision. Defined.
End BlockValidationErrorCode.

Module ServicesErrorCode.
Inductive t : Set := preimage_unneeded | preimages_not_sorted_unique.
#[global] Instance eq_dec : EqDecision t.
Proof. solve_decision. Defined.
End ServicesErrorCode.

(** The [custom_error_code] of a [PyjamazAppError]; some places pass a message. *)
Inductive error_code : Set :=
| DisputesCode (c : DisputesErrorCode.t)
| SafroleCode (c : SafroleErrorCode.t)
| GuaranteeCode (c : GuaranteeErrorCode.t)
| AssurancesCode (c : AssurancesErrorCode.t)
| BlockCode (c : BlockValidationErrorCode.t)
| ServicesCode (c : ServicesErrorCode.t)
| Message.

(** The two application errors, and the built-in exceptions that no handler turns into one. *)
Inductive state_exn : Set :=
| StateTransitionError (c : error_code)
| BlockValidationError (c : error_code)
| ValueError
| IndexError
| KeyError
| StateKeyNoResult
| StateComponentNotFound
| ZeroDivisionError
| OverflowError
| RecursionDepth.

#[export] Instance error_code_eq_dec : EqDecision error_code.
Proof. solve_decision. Defined.
#[export] Instance state_exn_eq_dec : EqDecision state_exn.
Proof. solve_decision. Defined.

(** ** Python helpers *)

(** [l[i]] *)
Definition get_item {A} (l : list A) (i : Z) : outcome state_exn A :=
  match py_index l i with Some x => Ret x | None => Raise IndexError end.

(** [l[i] = x] *)
Definition set_item {A} (l : list A) (i : Z) (x : A) : outcome state_exn (list A) :=
  match py_set l i x with Some l => Ret l | None => Raise IndexError end.

(** [if c: raise e] *)
Definition raise_if {E} (c : bool) (e : E) : outcome E unit := if c then Raise e else Ret tt.

(** [for x in l: body(x)] on a state. *)
Fixpoint for_each {S E A} (l : list A) (body : A -> eff S E unit) : eff S E unit :=
  match l with
  | [] => mret tt
  | x :: l => body x ≫= fun _ => for_each l body
  end.

(** [for x in l: ...] when the body only raises. *)
Fixpoint every {E A} (l : list A) (body : A -> outcome E unit) : outcome E unit :=
  match l with
  | [] => Ret tt
  | x :: l => match body x with Ret _ => every l body | Raise e => Raise e end
  end.

(** The loops that remember what they have seen and stop at the first repetition. *)
Fixpoint seen_twice {A K} `{EqDecision K} (key : A -> K) (seen : list K) (l : list A) : bool :=
  match l with
  | [] => false
  | x :: l => if bool_decide (key x ∈ seen) then true else seen_twice key (seen ++ [key x]) l
  end.

(** [len(l) != len(set(l))] *)
Definition has_duplicates {A} `{EqDecision A} (l : list A) : bool :=
  negb (Nat.eqb (length l) (length (remove_dups l))).

(** ** [ValidatorData] *)

Record ValidatorData : Type := mkValidatorData {
  bandersnatch : bytes;
  ed25519 : bytes;
  bls : bytes;
  metadata : bytes
}.

(** The null keys that replace an offender's. *)
Definition null_validator : ValidatorData :=
  mkValidatorData (replicate 32 0) (replicate 32 0) (replicate 144 0) (replicate 128 0).

#[export] Instance ValidatorData_eq_dec : EqDecision ValidatorData.
Proof. solve_decision. Defined.

(** [ticket_entries]: two epochs of tickets spread over the validators, rounded up. *)
Definition ticket_entries (gp : GpConstants) (validator_count : Z) : outcome state_exn Z :=
  if valid_validator_count validator_count (CORE_COUNT gp)
  then Ret ((2 * EPOCH_TIMESLOTS gp + validator_count - 1) / validator_count)
  else Raise ValueError.

(** ** Rules for the loops *)

(** The invariant speaks of the part of the list already processed. *)
Lemma for_each_wp {S E A} (body : A -> eff S E unit) (I : list A -> S -> Prop) (R : E -> S -> Prop) l s :
  I [] s ->
  (forall seen x rest s, l = seen ++ x :: rest -> I seen s ->
     wp (body x) (fun _ s' => I (seen ++ [x]) s') R s) ->
  wp (for_each l body) (fun _ s' => I l s') R s.
Proof.
  intros H0 Hstep.
  assert (forall rest seen s, l = seen ++ rest -> I seen s -> wp (for_each rest body) (fun _ s' => I l s') R s) as Hgen.
  { induction rest as [|x rest IH]; intros seen s0 Hl HI; simpl.
    - rewrite app_nil_r in Hl. by subst.
    - apply wp_bind. eapply wp_mono; [by eapply Hstep| |done].
      intros u s' HI'. eapply IH; [|exact HI']. by rewrite <- app_assoc. }
  by apply (Hgen l []).
Qed.

Lemma every_ret {E A} (l : list A) (body : A -> outcome E unit) :
  every l body = Ret tt <-> forall x, x ∈ l -> body x = Ret tt.
Proof.
  induction l as [|x l IH]; simpl; [set_solver|]. destruct (body x) as [[]|e] eqn:E1.
  - rewrite IH. set_solver.
  - split; [done|]. intros H. specialize (H x). rewrite E1 in H. set_solver.
Qed.

Lemma every_raise {E A} (l : list A) (body : A -> outcome E unit) e :
  every l body = Raise e -> exists x, x ∈ l /\ body x = Raise e.
Proof.
  induction l as [|x l IH]; simpl; [done|]. destruct (body x) eqn:E1; [|naive_solver set_solver].
  intros (y & Hy & ?)%IH. exists y. set_solver.
Qed.

Lemma length_remove_dups_le {A} `{EqDecision A} (l : list A) : (length (remove_dups l) <= length l)%nat.
Proof. induction l as [|x l IH]; simpl; [done|]. case_decide; simpl; lia. Qed.

Lemma has_duplicates_false {A} `{EqDecision A} (l : list A) : has_duplicates l = false <-> NoDup l.
Proof.
  unfold has_duplicates. rewrite negb_false_iff, Nat.eqb_eq. induction l as [|x l IH]; simpl; [by split; [constructor|]|].
  rewrite NoDup_cons, <- IH. pose proof (length_remove_dups_le l). case_decide; simpl; [split; [lia|tauto]|].
  split; [intros [= ?]; by split|intros [_ ->]; done].
Qed.

Lemma get_item_total {A} (l : list A) i : 0 <= i < Z.of_nat (length l) ->
  exists x, get_item l i = Ret x /\ l !! Z.to_nat i = Some x.
Proof.
  intros Hi. unfold get_item. rewrite py_index_nonneg by lia.
  destruct (lookup_lt_is_Some_2 l (Z.to_nat i)) as [x ->]; [lia|]. by exists x.
Qed.

Lemma raise_if_ret {E} c (e : E) : raise_if c e = Ret tt <-> c = false.
Proof. by destruct c. Qed.

(** The conditions under which a computation returns. *)
Lemma bind_ret {E A B} (m : outcome E A) (k : A -> outcome E B) y :
  (x ← m; k x) = Ret y <-> exists x, m = Ret x /\ k x = Ret y.
Proof. destruct m as [x|e]; split; [by exists x|by intros (? & [= ->] & ?)|done|by intros (? & ? & ?)]. Qed.

Lemma bind_ret_unit {E B} (m : outcome E unit) (k : unit -> outcome E B) y :
  (x ← m; k x) = Ret y <-> m = Ret tt /\ k tt = Ret y.
Proof. rewrite bind_ret. split; [by intros ([] & ? & ?)|intros [? ?]; by exists tt]. Qed.

Lemma guard_ret {E B} (c : bool) (e : E) (k : outcome E B) y :
  (if c then Raise e else k) = Ret y <-> c = false /\ k = Ret y.
Proof. destruct c; naive_solver. Qed.

(** What it raises. *)
Lemma bind_raise {E A B} (m : outcome E A) (k : A -> outcome E B) e :
  (x ← m; k x) = Raise e <-> m = Raise e \/ exists x, m = Ret x /\ k x = Raise e.
Proof. destruct m as [x|e']; simpl; naive_solver. Qed.

Lemma guard_raise {E B} (c : bool) (e e' : E) (k : outcome E B) :
  (if c then Raise e else k) = Raise e' -> e' = e \/ k = Raise e'.
Proof. destruct c; naive_solver. Qed.

Lemma raise_if_raise {E} (c : bool) (e e' : E) : raise_if c e = Raise e' -> e' = e.
Proof. destruct c; simpl; congruence. Qed.

Lemma get_item_ret {A} (l : list A) i x : 0 <= i -> get_item l i = Ret x <-> l !! Z.to_nat i = Some x.
Proof. intros Hi. unfold get_item. rewrite py_index_nonneg by done. destruct (l !! Z.to_nat i); split; congruence. Qed.

(** What [ticket_entries] promises: the attempts of all the validators cover two epochs,
    and one attempt fewer each would not. *)
Lemma ticket_entries_spec gp n :
  gp_ok gp -> valid_validator_count n (CORE_COUNT gp) = true ->
  exists k, ticket_entries gp n = Ret k /\ 2 * EPOCH_TIMESLOTS gp <= n * k /\ n * (k - 1) < 2 * EPOCH_TIMESLOTS gp.
Proof.
  intros Hgp Hn. unfold ticket_entries. rewrite Hn. eexists. split; [done|].
  unfold valid_validator_count in Hn. apply andb_prop in Hn as [[H6 _]%andb_prop _].
  apply Z.leb_le in H6.
  pose proof (Z.div_mod (2 * EPOCH_TIMESLOTS gp + n - 1) n ltac:(lia)).
  pose proof (Z.mod_pos_bound (2 * EPOCH_TIMESLOTS gp + n - 1) n ltac:(lia)). nia.
Qed.

Lemma seen_twice_from {A K} `{EqDecision K} (key : A -> K) seen l :
  seen_twice key seen l = false <-> NoDup (map key l) /\ forall k, k ∈ map key l -> k ∉ seen.
Proof.
  revert seen. induction l as [|x l IH]; intros seen; simpl.
  { split; [intros _; split; [constructor|set_solver]|done]. }
  case_bool_decide as Hx; [split; [done|set_solver]|]. rewrite IH, NoDup_cons. set_solver.
Qed.

Lemma seen_twice_nil {A K} `{EqDecision K} (key : A -> K) l :
  seen_twice key [] l = false <-> NoDup (map key l).
Proof. rewrite seen_twice_from. set_solver. Qed.
