(* ===== verification/Sums.v ===== *)
(** * Sums over lists

    [sum(f(x) for x in l)] of Python, and how a sum splits over the values of a key. *)

From Stdlib Require Import ZArith Lia Bool List.
From stdpp Require Import base numbers option list sets gmap.
Import ListNotations.

#[local] Open Scope Z_scope.

Fixpoint sum_of {A} (f : A -> Z) (l : list A) : Z := match l with [] => 0 | i :: l => f i + sum_of f l end.

Lemma sum_of_app {A} (f : A -> Z) l l' : sum_of f (l ++ l') = sum_of f l + sum_of f l'.
Proof. induction l as [|i l IH]; [done|]. cbn in *. lia. Qed.

Lemma sum_of_ext {A} (f f' : A -> Z) l : (forall i, i ∈ l -> f i = f' i) -> sum_of f l = sum_of f' l.
Proof.
  induction l as [|i l IH]; intros He; [done|]. cbn in *. rewrite (He i) by set_solver. rewrite IH; [done|]. set_solver.
Qed.

Lemma sum_of_update {A} `{EqDecision A} (f f' : A -> Z) l j : NoDup l -> j ∈ l -> (forall i, i <> j -> f' i = f i) ->
  sum_of f' l = sum_of f l + f' j - f j.
Proof.
  intros Hnd Hj Hsame. induction Hnd as [|i l Hi Hnd IH]; [set_solver|]. cbn in *. destruct (decide (i = j)) as [->|Hne].
  - rewrite (sum_of_ext f' f l); [lia|]. intros i' Hi'. apply Hsame. congruence.
  - rewrite IH by set_solver. rewrite (Hsame i) by done. lia.
Qed.

Lemma sum_of_perm {A} (f : A -> Z) l l' : l ≡ₚ l' -> sum_of f l = sum_of f l'.
Proof. induction 1; cbn in *; lia. Qed.

Lemma sum_of_nonneg {A} (f : A -> Z) l : Forall (fun x => 0 <= f x) l -> 0 <= sum_of f l.
Proof. induction 1; cbn; lia. Qed.

Lemma sum_of_le {A} (f g : A -> Z) l : Forall (fun x => f x <= g x) l -> sum_of f l <= sum_of g l.
Proof. induction 1; cbn; lia. Qed.

Lemma sum_of_map {A B} (f : B -> Z) (h : A -> B) l : sum_of f (map h l) = sum_of (fun x => f (h x)) l.
Proof. induction l as [|x l IH]; cbn; [done|]. by rewrite IH. Qed.

Lemma sum_of_concat {A B} (f : B -> Z) (h : A -> list B) l : sum_of f (concat (map h l)) = sum_of (fun x => sum_of f (h x)) l.
Proof. induction l as [|x l IH]; cbn; [done|]. by rewrite sum_of_app, IH. Qed.

Lemma sum_of_plus {A} (f g : A -> Z) l : sum_of (fun x => f x + g x) l = sum_of f l + sum_of g l.
Proof. induction l as [|x l IH]; cbn; [done|]. rewrite IH. lia. Qed.

Lemma sum_of_zero {A} (l : list A) : sum_of (fun _ => 0) l = 0.
Proof. induction l; cbn; lia. Qed.

Lemma Forall_filter {A} (P Q : A -> Prop) `{forall x, Decision (Q x)} l : Forall P l -> Forall P (filter Q l).
Proof. rewrite !Forall_forall. intros Hl x [_ Hx]%list_elem_of_filter. by apply Hl. Qed.

(** A sum over the items with one of several keys, key by key. *)
Lemma sum_of_key {A} (key : A -> Z) (f : A -> Z) x ids : NoDup ids -> key x ∈ ids ->
  sum_of (fun id => sum_of f (filter (fun y => key y = id) [x])) ids = f x.
Proof.
  intros Hnd Hin. rewrite (sum_of_update (fun _ => 0) _ ids (key x)); [|done|done|].
  - rewrite sum_of_zero, filter_cons_True by done. cbn. lia.
  - intros id Hne. by rewrite filter_cons_False by done.
Qed.

Lemma sum_of_partition {A} (key : A -> Z) (f : A -> Z) l ids : NoDup ids -> (forall x, x ∈ l -> key x ∈ ids) ->
  sum_of (fun id => sum_of f (filter (fun x => key x = id) l)) ids = sum_of f l.
Proof.
  intros Hnd. induction l as [|x l IH]; intros Hin; [apply sum_of_zero|]. cbn [sum_of].
  rewrite <- IH by set_solver. rewrite <- (sum_of_key key f x ids) by set_solver. rewrite <- sum_of_plus.
  apply sum_of_ext. intros id _. by rewrite <- sum_of_app, <- filter_app.
Qed.

(** The same for items in groups. *)
Lemma sum_of_partition_groups {A B} (group : A -> list B) (key : B -> Z) (f : B -> Z) l ids : NoDup ids ->
  (forall x y, x ∈ l -> y ∈ group x -> key y ∈ ids) ->
  sum_of (fun id => sum_of (fun x => sum_of f (filter (fun y => key y = id) (group x))) l) ids = sum_of (fun x => sum_of f (group x)) l.
Proof.
  intros Hnd. induction l as [|x l IH]; intros Hin; cbn [sum_of]; [apply sum_of_zero|].
  rewrite sum_of_plus, IH by (intros; eapply Hin; [by right|done]). f_equal. apply sum_of_partition; [done|].
  intros y Hy. eapply Hin; [by left|done].
Qed.

(** Lengths are sums. *)
Lemma length_sum {A} (l : list A) : Z.of_nat (length l) = sum_of (fun _ => 1) l.
Proof. induction l; cbn [length sum_of]; lia. Qed.

Lemma length_concat_sum {A B} (f : A -> list B) l : Z.of_nat (length (concat (map f l))) = sum_of (fun x => Z.of_nat (length (f x))) l.
Proof. induction l as [|x l IH]; [done|]. cbn [map concat sum_of]. rewrite length_app. lia. Qed.

(** [sum(d.values())] *)
Definition sum_values (d : gmap Z Z) : Z := sum_of snd (map_to_list d).

Lemma sum_values_empty : sum_values ∅ = 0.
Proof. done. Qed.

Lemma sum_values_insert k v d : d !! k = None -> sum_values (<[k := v]> d) = v + sum_values d.
Proof. intros Hk. unfold sum_values. by rewrite (sum_of_perm _ _ _ (map_to_list_insert d k v Hk)). Qed.

(** The values at all keys, looked up. *)
Lemma sum_values_lookup (d : gmap Z Z) ids : NoDup ids -> (forall k, k ∈ dom d -> k ∈ ids) ->
  sum_of (fun k => default 0 (d !! k)) ids = sum_values d.
Proof.
  intros Hnd. induction d as [|k v d Hk IH] using map_ind; intros Hin.
  - rewrite sum_values_empty. rewrite (sum_of_ext _ (fun _ => 0)); [apply sum_of_zero|]. intros k _. by rewrite lookup_empty.
  - rewrite sum_values_insert by done. rewrite <- IH by (intros; apply Hin; set_solver).
    rewrite (sum_of_update (fun k => default 0 (d !! k)) _ ids k); [|done|apply Hin; set_solver|].
    + rewrite lookup_insert_eq, Hk. cbn. lia.
    + intros j Hj. by rewrite lookup_insert_ne by done.
Qed.

(** [sum_dict_values] of [utils.py] *)
Definition sum_dict_values (d1 d2 : gmap Z Z) : gmap Z Z := union_with (fun x y => Some (x + y)) d1 d2.

Lemma lookup_sum_dict_values d1 d2 k : default 0 (sum_dict_values d1 d2 !! k) = default 0 (d1 !! k) + default 0 (d2 !! k).
Proof. unfold sum_dict_values. rewrite lookup_union_with. destruct (d1 !! k), (d2 !! k); cbn; lia. Qed.

Lemma sum_values_dict d1 d2 : sum_values (sum_dict_values d1 d2) = sum_values d1 + sum_values d2.
Proof.
  set (ids := elements (dom d1 ∪ dom d2)). assert (NoDup ids) as Hnd by apply NoDup_elements.
  rewrite <- (sum_values_lookup d1 ids), <- (sum_values_lookup d2 ids), <- (sum_values_lookup (sum_dict_values d1 d2) ids); try done.
  - rewrite <- sum_of_plus. apply sum_of_ext. intros k _. apply lookup_sum_dict_values.
  - intros k [v Hk]%elem_of_dom. apply elem_of_elements, elem_of_union. unfold sum_dict_values in Hk. rewrite lookup_union_with in Hk.
    destruct (d1 !! k) eqn:E1; [left; by eapply elem_of_dom_2|]. destruct (d2 !! k) eqn:E2; [right; by eapply elem_of_dom_2|done].
  - intros k Hk. apply elem_of_elements. set_solver.
  - intros k Hk. apply elem_of_elements. set_solver.
Qed.

(** The sum over a dictionary built from a list of pairs with distinct keys. *)
Lemma sum_values_list_to_map (l : list (Z * Z)) : NoDup l.*1 -> sum_values (list_to_map l) = sum_of snd l.
Proof. intros Hnd. unfold sum_values. by apply sum_of_perm, map_to_list_to_map. Qed.
