(* ===== verification/Reports.v ===== *)
(** * Work reports, guarantees and assurances

    The data of [models/common.py] and [models/block.py] that the extrinsics of a block carry
    about work packages: reports with their digests, guarantees with their credentials,
    assurances, and the entry of a core whose report is pending. *)

From Stdlib Require Import ZArith Lia Bool List.
From stdpp Require Import base numbers option list.
From S2P Require Import Prelude.
Import ListNotations.

#[local] Open Scope Z_scope.

(** ** Work reports *)

Record RefinementContext : Type := mkRefinementContext {
  rc_anchor : bytes;
  rc_anchor_slot : Z;
  rc_state_root : bytes;
  rc_beefy_root : bytes;
  rc_lookup_anchor : bytes;
  rc_lookup_anchor_slot : Z;
  rc_lookup_anchor_state_root : bytes;
  rc_prerequisites : list bytes
}.

(** One of the fields of the class is set. *)
Inductive WorkExecResult : Type :=
| ok (data : bytes) | out_of_gas | panic | bad_exports | digest_oversize | bad_code | code_oversize.

Record RefineLoad : Type := mkRefineLoad {
  rl_gas_used : Z;
  rl_imports : Z;
  rl_extrinsic_count : Z;
  rl_extrinsic_size : Z;
  rl_exports : Z
}.

Record WorkDigest : Type := mkWorkDigest {
  wd_service_id : Z;
  wd_code_hash : bytes;
  wd_payload_hash : bytes;
  wd_accumulate_gas : Z;
  wd_result : WorkExecResult;
  wd_refine_load : RefineLoad
}.

Record WorkPackageSpec : Type := mkPackageSpec {
  ps_hash : bytes;
  ps_length : Z;
  ps_erasure_root : bytes;
  ps_erasure_shards : Z;
  ps_exports_root : bytes;
  ps_exports_count : Z
}.

(** The dictionary [segment_root_lookup] is the list of its items, in insertion order. *)
Record WorkReport : Type := mkWorkReport {
  wr_package_spec : WorkPackageSpec;
  wr_context : RefinementContext;
  wr_core_index : Z;
  wr_authorizer_hash : bytes;
  wr_auth_gas_used : Z;
  wr_auth_output : bytes;
  wr_segment_root_lookup : list (bytes * bytes);
  wr_results : list WorkDigest
}.

Definition wr_package_hash (w : WorkReport) : bytes := ps_hash (wr_package_spec w).
Definition wr_prerequisites (w : WorkReport) : list bytes := rc_prerequisites (wr_context w).

Definition dependency_count (w : WorkReport) : Z :=
  Z.of_nat (length (wr_segment_root_lookup w)) + Z.of_nat (length (wr_prerequisites w)).

(** ** Guarantees *)

Record Credential : Type := mkCredential { cr_validator_index : Z; cr_signature : bytes }.

Record Guarantee : Type := mkGuarantee {
  g_report : WorkReport;
  g_slot : Z;
  g_signatures : list Credential
}.

Definition g_core_index (g : Guarantee) : Z := wr_core_index (g_report g).
Definition g_authorizer_hash (g : Guarantee) : bytes := wr_authorizer_hash (g_report g).
Definition g_package_hash (g : Guarantee) : bytes := wr_package_hash (g_report g).
Definition g_exports_root (g : Guarantee) : bytes := ps_exports_root (wr_package_spec (g_report g)).

(** The entry of a core in the state, [Assurance] of [models/common.py]. *)
Record AssuranceStateItem : Type := mkPending {
  pe_guarantee : Guarantee;
  pe_registered_slot : Z
}.

Definition pe_report (p : AssuranceStateItem) : WorkReport := g_report (pe_guarantee p).
Definition pe_timeout (p : AssuranceStateItem) : Z := pe_registered_slot p.
Definition pe_package_hash (p : AssuranceStateItem) : bytes := wr_package_hash (pe_report p).

(** ** Assurances *)

(** An item of the extrinsic, [Assurance] of [models/block.py]. *)
Record Assurance : Type := mkAssurance {
  as_anchor : bytes;
  as_bitfield : list bool;
  as_validator_index : Z;
  as_signature : bytes
}.

(** [[c for c, e in enumerate(bitfield) if e == True]] *)
Definition cores_engaged (a : Assurance) : list Z :=
  map fst (filter (fun p => p.2 = true) (imap (fun c e => (Z.of_nat c, e)) (as_bitfield a))).

Lemma elem_of_cores_engaged c a : 0 <= c -> c ∈ cores_engaged a <-> as_bitfield a !! Z.to_nat c = Some true.
Proof.
  intros Hc. unfold cores_engaged. rewrite list_elem_of_fmap. setoid_rewrite list_elem_of_filter.
  setoid_rewrite elem_of_lookup_imap. split.
  - intros ([c' e] & -> & He & i & e' & Heq & Hi). injection Heq as -> ->. simpl in *. subst e'. by rewrite Nat2Z.id.
  - intros H. exists (c, true). split_and!; [done..|]. exists (Z.to_nat c), true. by rewrite Z2Nat.id.
Qed.

Lemma cores_engaged_range c a : c ∈ cores_engaged a -> 0 <= c < Z.of_nat (length (as_bitfield a)).
Proof.
  unfold cores_engaged. intros ([c' e] & -> & He)%list_elem_of_fmap. apply list_elem_of_filter in He as [_ He].
  apply elem_of_lookup_imap in He as (i & e' & Heq & Hi). injection Heq as -> ->. simpl.
  apply lookup_lt_Some in Hi. lia.
Qed.

Lemma NoDup_indices {A} (l : list A) (f : nat -> Z) : (forall i j, f i = f j -> i = j) ->
  NoDup (imap (fun i _ => f i) l).
Proof.
  revert f. induction l as [|x l IH]; intros f Hf; simpl; constructor.
  - intros (i & y & Hi & _)%elem_of_lookup_imap. apply Hf in Hi. lia.
  - apply (IH (fun i => f (S i))). intros i j Hij%Hf. lia.
Qed.

Lemma NoDup_cores_engaged a : NoDup (cores_engaged a).
Proof.
  unfold cores_engaged. eapply (sublist_NoDup _ (fst <$> imap (fun c e => (Z.of_nat c, e)) (as_bitfield a))).
  - rewrite fmap_imap. apply (NoDup_indices (as_bitfield a) Z.of_nat). lia.
  - by apply (fmap_sublist fst), sublist_filter.
Qed.
