(* ===== verification/Disputes.v ===== *)
(** * Disputes

    The dispute models of [models/block.py] and the [Disputes] component of
    [state/components.py]: verdicts move work-report hashes into the sorted good, bad and
    wonky sets, culprits and faults punish validator keys, and everything is checked against
    the rules of the protocol before the block is accepted.

    The Ed25519 verification comes from a library: it is an argument of the definitions. *)

From Stdlib Require Import ZArith Lia Bool List String Sorted.
From stdpp Require Import base numbers option list gmap sorting.
From S2P Require Import Prelude ByteOrder Graypaper StateBase.
Import ListNotations.

#[local] Open Scope Z_scope.

(** ** The extrinsic *)

Record Judgement : Type := mkJudgement {
  j_vote : bool;
  j_index : Z;
  j_signature : bytes
}.

Record Verdict : Type := mkVerdict {
  v_target : bytes;
  v_age : Z;
  v_votes : list Judgement
}.

Record Culprit : Type := mkCulprit {
  c_target : bytes;
  c_key : bytes;
  c_signature : bytes
}.

Record Fault : Type := mkFault {
  f_target : bytes;
  f_vote : bool;
  f_key : bytes;
  f_signature : bytes
}.

Record ExtrinsicDisputes : Type := mkExtrinsicDisputes {
  verdicts : list Verdict;
  culprits : list Culprit;
  faults : list Fault
}.

(** [Judgement.get_signing_context], shared by [Fault.has_valid_signature]. *)
Definition get_signing_context (vote : bool) : bytes :=
  if vote then bytes_of_string "jam_valid" else bytes_of_string "jam_invalid".

Definition total_positive_votes (v : Verdict) : Z :=
  foldr Z.add 0 (map (fun j => Z.b2z (j_vote j)) (v_votes v)).

Definition is_good (v : Verdict) : bool := total_positive_votes v =? Z.of_nat (length (v_votes v)).
Definition is_bad (v : Verdict) : bool := total_positive_votes v =? 0.
Definition is_wonky (v : Verdict) : bool :=
  total_positive_votes v =? (Z.of_nat (length (v_votes v)) - 1) / 2.

(** ** The state *)

Record DisputesState : Type := mkDisputesState {
  good_set : list bytes;
  bad_set : list bytes;
  wonky_set : list bytes;
  offenders : list bytes
}.

Record DisputesOutput : Type := mkDisputesOutput {
  post_state : DisputesState;
  offenders_mark : list bytes
}.

(** The component object during a transition: [self.output] and [self._prior_offenders]. *)
Record Disputes : Type := mkDisputes {
  output : DisputesOutput;
  prior_offenders : gset bytes
}.

Definition upd_post (f : DisputesState -> DisputesState) (d : Disputes) : Disputes :=
  mkDisputes (mkDisputesOutput (f (post_state (output d))) (offenders_mark (output d))) (prior_offenders d).

Definition insort_good (x : bytes) (s : DisputesState) : DisputesState :=
  mkDisputesState (insort (good_set s) x) (bad_set s) (wonky_set s) (offenders s).
Definition insort_bad (x : bytes) (s : DisputesState) : DisputesState :=
  mkDisputesState (good_set s) (insort (bad_set s) x) (wonky_set s) (offenders s).
Definition insort_wonky (x : bytes) (s : DisputesState) : DisputesState :=
  mkDisputesState (good_set s) (bad_set s) (insort (wonky_set s) x) (offenders s).
Definition insort_offender (x : bytes) (s : DisputesState) : DisputesState :=
  mkDisputesState (good_set s) (bad_set s) (wonky_set s) (insort (offenders s) x).

(** [x in l] *)
Definition mem (x : bytes) (l : list bytes) : bool := bool_decide (x ∈ l).

(** ** Checks *)

Definition are_judgements_sorted (votes : list Judgement) : bool :=
  adjacent (fun a b => j_index a <=? j_index b) votes.

Definition has_duplicate_judgements (votes : list Judgement) : bool := seen_twice j_index [] votes.

Definition are_verdicts_sorted (vs : list Verdict) : bool :=
  adjacent (fun a b => bytes_leb (v_target a) (v_target b)) vs.

Definition has_duplicate_report_hashes (vs : list Verdict) : bool := seen_twice v_target [] vs.

Definition are_culprits_sorted (cs : list Culprit) : bool :=
  adjacent (fun a b => bytes_ltb (c_key a) (c_key b)) cs.

Definition are_faults_sorted (fs : list Fault) : bool :=
  adjacent (fun a b => bytes_ltb (f_key a) (f_key b)) fs.

(** Nothing calls this check. *)
Definition are_faults_verdict_correct (fs : list Fault) : bool := negb (existsb f_vote fs).

Definition is_already_judged (s : DisputesState) (v : Verdict) : bool :=
  mem (v_target v) (good_set s) || mem (v_target v) (bad_set s) || mem (v_target v) (wonky_set s).

Definition STE (c : DisputesErrorCode.t) : state_exn := StateTransitionError (DisputesCode c).

Definition check_valid_faults_count (fs : list Fault) (report_hash : bytes) : outcome state_exn unit :=
  raise_if (length (filter (fun f => f_target f = report_hash) fs) =? 0)%nat (STE DisputesErrorCode.not_enough_faults).

(** ** Operations *)

Definition DM (A : Type) : Type := eff Disputes state_exn A.

Definition add_offender (offender_key : bytes) : DM unit := fun d =>
  if bool_decide (offender_key ∈ prior_offenders d)
  then (Raise (STE DisputesErrorCode.offender_already_reported), d)
  else
    let d := mkDisputes (mkDisputesOutput (post_state (output d)) (offenders_mark (output d) ++ [offender_key])) (prior_offenders d) in
    (Ret tt, if mem offender_key (offenders (post_state (output d))) then d
             else upd_post (insort_offender offender_key) d).

Definition add_culprit (c : Culprit) : DM unit := fun d =>
  if mem (c_target c) (bad_set (post_state (output d))) then add_offender (c_key c) d
  else (Raise (STE DisputesErrorCode.culprits_verdict_not_bad), d).

Definition add_fault (f : Fault) : DM unit := fun d =>
  let contradicts_good := mem (f_target f) (good_set (post_state (output d))) && negb (f_vote f) in
  let contradicts_bad := mem (f_target f) (bad_set (post_state (output d))) && f_vote f in
  if contradicts_good || contradicts_bad then add_offender (f_key f) d
  else (Raise (STE DisputesErrorCode.fault_verdict_wrong), d).

(** One round of the loop over the verdicts. *)
Definition process_verdict (fs : list Fault) (v : Verdict) : DM unit :=
  d ← get_state;
  lift (raise_if (is_already_judged (post_state (output d)) v) (STE DisputesErrorCode.already_judged)) ≫= fun _ =>
  lift (raise_if (negb (are_judgements_sorted (v_votes v)) || has_duplicate_judgements (v_votes v))
          (STE DisputesErrorCode.judgements_not_sorted_unique)) ≫= fun _ =>
  if is_good v then
    lift (check_valid_faults_count fs (v_target v)) ≫= fun _ => modify (upd_post (insort_good (v_target v)))
  else if is_bad v then modify (upd_post (insort_bad (v_target v)))
  else if is_wonky v then modify (upd_post (insort_wonky (v_target v)))
  else raise (STE DisputesErrorCode.bad_vote_split).

Section component.
Context (ed_verify : bytes -> bytes -> bytes -> bool).

(** [Ed25519Keypair.from_public_key(key).verify(data, signature)] *)
Definition verify (key data signature : bytes) : bool := ed_verify signature data key.

Definition culprit_has_valid_signature (c : Culprit) : bool :=
  verify (c_key c) (bytes_of_string "jam_guarantee" ++ c_target c) (c_signature c).

Definition fault_has_valid_signature (f : Fault) : bool :=
  verify (f_key f) (get_signing_context (f_vote f) ++ f_target f) (f_signature f).

Definition transition_body (ed : ExtrinsicDisputes) : DM unit :=
  lift (raise_if (negb (forallb culprit_has_valid_signature (culprits ed))) (STE DisputesErrorCode.bad_signature)) ≫= fun _ =>
  lift (raise_if (negb (forallb fault_has_valid_signature (faults ed))) (STE DisputesErrorCode.bad_signature)) ≫= fun _ =>
  lift (raise_if (negb (are_verdicts_sorted (verdicts ed))) (STE DisputesErrorCode.verdicts_not_sorted_unique)) ≫= fun _ =>
  lift (raise_if (has_duplicate_report_hashes (verdicts ed)) (STE DisputesErrorCode.verdicts_not_sorted_unique)) ≫= fun _ =>
  for_each (verdicts ed) (process_verdict (faults ed)) ≫= fun _ =>
  lift (raise_if (negb (are_culprits_sorted (culprits ed))) (STE DisputesErrorCode.culprits_not_sorted_unique)) ≫= fun _ =>
  for_each (culprits ed) add_culprit ≫= fun _ =>
  lift (raise_if (negb (are_faults_sorted (faults ed))) (STE DisputesErrorCode.faults_not_sorted_unique)) ≫= fun _ =>
  for_each (faults ed) add_fault.

(** [state_transition] works on a deep copy of the prior state. *)
Definition state_transition (ed : ExtrinsicDisputes) (pre : DisputesState) : outcome state_exn DisputesOutput :=
  match transition_body ed (mkDisputes (mkDisputesOutput pre []) (list_to_set (offenders pre))) with
  | (Ret _, d) => Ret (output d)
  | (Raise e, _) => Raise e
  end.

(** ** Validation of the extrinsic *)

Definition BVE (c : DisputesErrorCode.t) : state_exn := BlockValidationError (DisputesCode c).

(** The loop returns [False] at the first judgement whose signature does not verify, and
    raises at the first index outside the validator set. *)
Fixpoint judgement_signatures (target : bytes) (votes : list Judgement) (validators : list ValidatorData)
    : outcome state_exn bool :=
  match votes with
  | [] => Ret true
  | j :: votes =>
      if (j_index j <? 0) || (Z.of_nat (length validators) <=? j_index j)
      then Raise (BVE DisputesErrorCode.bad_validator_index)
      else
        v ← get_item validators (j_index j);
        if verify (ed25519 v) (get_signing_context (j_vote j) ++ target) (j_signature j)
        then judgement_signatures target votes validators
        else Ret false
  end.

Definition has_valid_judgement_signatures (v : Verdict) (validators : list ValidatorData) : outcome state_exn bool :=
  judgement_signatures (v_target v) (v_votes v) validators.

Section validate.
Context (gp : GpConstants) (timeslot : Z) (pool archive : list ValidatorData).

(** The validator set of a verdict's age: the active one, or the one of the last epoch. *)
Definition verdict_validators (age : Z) : option (list ValidatorData) :=
  let current_epoch := timeslot / EPOCH_TIMESLOTS gp in
  if current_epoch - age =? 0 then Some pool
  else if current_epoch - age =? 1 then Some archive
  else None.

Definition validate_verdict (v : Verdict) : outcome state_exn unit :=
  match verdict_validators (v_age v) with
  | None => Raise (BVE DisputesErrorCode.bad_judgement_age)
  | Some validators =>
      if negb (Z.of_nat (length (v_votes v)) =? 2 * Z.of_nat (length validators) / 3 + 1)
      then Raise (BVE DisputesErrorCode.bad_votes_count)
      else
        ok ← has_valid_judgement_signatures v validators;
        raise_if (negb ok) (BVE DisputesErrorCode.bad_signature)
  end.

Definition validator_keys : gset bytes := list_to_set (map ed25519 (pool ++ archive)).

Definition validate_extrinsic_disputes (ed : ExtrinsicDisputes) : outcome state_exn unit :=
  every (verdicts ed) validate_verdict ≫= fun _ =>
  every (culprits ed) (fun c => raise_if (bool_decide (c_key c ∉ validator_keys)) (BVE DisputesErrorCode.bad_guarantor_key)) ≫= fun _ =>
  every (faults ed) (fun f => raise_if (bool_decide (f_key f ∉ validator_keys)) (BVE DisputesErrorCode.bad_auditor_key)).
End validate.
End component.

(** ** Specification

    What the protocol asks of an extrinsic, as one condition per error code, and what the
    posterior state is. *)

Inductive verdict_class : Set := Good | Bad | Wonky.

(** The branch a verdict takes. *)
Definition classify (v : Verdict) : option verdict_class :=
  if is_good v then Some Good else if is_bad v then Some Bad else if is_wonky v then Some Wonky else None.

Section specification.
Context (ed_verify : bytes -> bytes -> bytes -> bool) (ed : ExtrinsicDisputes) (pre : DisputesState).

(** Reports judged by a list of verdicts. *)
Definition judged (vs : list Verdict) (c : verdict_class) (x : bytes) : Prop :=
  exists v, v ∈ vs /\ classify v = Some c /\ v_target v = x.

Definition now_good (x : bytes) : Prop := x ∈ good_set pre \/ judged (verdicts ed) Good x.
Definition now_bad (x : bytes) : Prop := x ∈ bad_set pre \/ judged (verdicts ed) Bad x.
Definition known (x : bytes) : Prop := x ∈ good_set pre \/ x ∈ bad_set pre \/ x ∈ wonky_set pre.
Definition evidence_keys : list bytes := map c_key (culprits ed) ++ map f_key (faults ed).

Definition violates (c : DisputesErrorCode.t) : Prop :=
  match c with
  | DisputesErrorCode.bad_signature =>
      (exists c, c ∈ culprits ed /\ culprit_has_valid_signature ed_verify c = false) \/
      (exists f, f ∈ faults ed /\ fault_has_valid_signature ed_verify f = false)
  | DisputesErrorCode.verdicts_not_sorted_unique => ~ strictly_sorted (map v_target (verdicts ed))
  | DisputesErrorCode.already_judged => exists v, v ∈ verdicts ed /\ known (v_target v)
  | DisputesErrorCode.judgements_not_sorted_unique =>
      exists v, v ∈ verdicts ed /\ ~ StronglySorted Z.lt (map j_index (v_votes v))
  | DisputesErrorCode.not_enough_faults =>
      exists v, v ∈ verdicts ed /\ classify v = Some Good /\ ~ exists f, f ∈ faults ed /\ f_target f = v_target v
  | DisputesErrorCode.bad_vote_split => exists v, v ∈ verdicts ed /\ classify v = None
  | DisputesErrorCode.culprits_not_sorted_unique => ~ strictly_sorted (map c_key (culprits ed))
  | DisputesErrorCode.culprits_verdict_not_bad => exists c, c ∈ culprits ed /\ ~ now_bad (c_target c)
  | DisputesErrorCode.faults_not_sorted_unique => ~ strictly_sorted (map f_key (faults ed))
  | DisputesErrorCode.fault_verdict_wrong => exists f, f ∈ faults ed /\
      ~ (now_good (f_target f) /\ f_vote f = false \/ now_bad (f_target f) /\ f_vote f = true)
  | DisputesErrorCode.offender_already_reported => exists k, k ∈ evidence_keys /\ k ∈ offenders pre
  | _ => False
  end.

Record posterior (out : DisputesOutput) : Prop := mkPosterior {
  posterior_good : forall x, x ∈ good_set (post_state out) <-> now_good x;
  posterior_bad : forall x, x ∈ bad_set (post_state out) <-> now_bad x;
  posterior_wonky : forall x, x ∈ wonky_set (post_state out) <-> x ∈ wonky_set pre \/ judged (verdicts ed) Wonky x;
  posterior_offenders : forall k, k ∈ offenders (post_state out) <-> k ∈ offenders pre \/ k ∈ evidence_keys;
  posterior_mark : offenders_mark out = evidence_keys
}.
End specification.

(** The invariant of the state: four strictly sorted lists, no report in two sets. *)
Record disputes_inv (s : DisputesState) : Prop := mkDisputesInv {
  inv_good : strictly_sorted (good_set s);
  inv_bad : strictly_sorted (bad_set s);
  inv_wonky : strictly_sorted (wonky_set s);
  inv_offenders : strictly_sorted (offenders s);
  inv_good_bad : forall x, x ∈ good_set s -> x ∉ bad_set s;
  inv_good_wonky : forall x, x ∈ good_set s -> x ∉ wonky_set s;
  inv_bad_wonky : forall x, x ∈ bad_set s -> x ∉ wonky_set s
}.

(** ** The checks decide their specifications *)

Lemma mem_spec x l : mem x l = true <-> x ∈ l.
Proof. apply bool_decide_eq_true. Qed.

Lemma mem_false x l : mem x l = false <-> x ∉ l.
Proof. apply bool_decide_eq_false. Qed.

Lemma bytes_le_strict l : StronglySorted bytes_le l /\ NoDup l <-> strictly_sorted l.
Proof. apply sorted_NoDup_strict; [apply _|apply bytes_le_lt_eq]. Qed.

Lemma verdicts_check vs :
  are_verdicts_sorted vs = true /\ has_duplicate_report_hashes vs = false <-> strictly_sorted (map v_target vs).
Proof.
  unfold are_verdicts_sorted, has_duplicate_report_hashes.
  rewrite adjacent_map, seen_twice_nil, (adjacent_sorted bytes_le); [apply bytes_le_strict|done].
Qed.

Lemma judgements_check votes :
  negb (are_judgements_sorted votes) || has_duplicate_judgements votes = false <->
  StronglySorted Z.lt (map j_index votes).
Proof.
  unfold are_judgements_sorted, has_duplicate_judgements. rewrite orb_false_iff, negb_false_iff, seen_twice_nil.
  apply indices_check.
Qed.

Lemma keys_check {A} (key : A -> bytes) l :
  adjacent (fun a b => bytes_ltb (key a) (key b)) l = true <-> strictly_sorted (map key l).
Proof. rewrite (adjacent_map key bytes_ltb). by apply adjacent_sorted; [apply _|]. Qed.

Lemma faults_count_check fs x :
  check_valid_faults_count fs x = Ret tt /\ (exists f, f ∈ fs /\ f_target f = x) \/
  check_valid_faults_count fs x = Raise (STE DisputesErrorCode.not_enough_faults) /\ ~ exists f, f ∈ fs /\ f_target f = x.
Proof.
  unfold check_valid_faults_count.
  destruct (filter (fun f => f_target f = x) fs) as [|f l] eqn:E; simpl; [right|left]; (split; [done|]).
  - intros (f & Hf & Hx). assert (f ∈ filter (fun f => f_target f = x) fs) as H by by apply list_elem_of_filter.
    rewrite E in H. set_solver.
  - exists f. assert (f ∈ filter (fun f => f_target f = x) fs) as H by (rewrite E; set_solver).
    apply list_elem_of_filter in H. naive_solver.
Qed.

Lemma forallb_false {A} (p : A -> bool) l : forallb p l = false -> exists x, x ∈ l /\ p x = false.
Proof.
  induction l as [|x l IH]; simpl; [done|]. intros [H|H]%andb_false_iff; [exists x|destruct (IH H) as (y & ? & ?); exists y]; set_solver.
Qed.

Lemma judged_app vs vs' c x : judged (vs ++ vs') c x <-> judged vs c x \/ judged vs' c x.
Proof. unfold judged. set_solver. Qed.

Lemma judged_one v c x : judged [v] c x <-> classify v = Some c /\ v_target v = x.
Proof. unfold judged. set_solver. Qed.

(** ** The loops *)

Section loops.
Context (ed_verify : bytes -> bytes -> bytes -> bool) (ed : ExtrinsicDisputes) (pre : DisputesState).

(** An exception names a condition the extrinsic violates. *)
Definition justified (e : state_exn) (_ : Disputes) : Prop :=
  exists c, e = STE c /\ violates ed_verify ed pre c.

(** After some verdicts. *)
Record after_verdicts (vs : list Verdict) (d : Disputes) : Prop := mkAfterVerdicts {
  av_good x : x ∈ good_set (post_state (output d)) <-> x ∈ good_set pre \/ judged vs Good x;
  av_bad x : x ∈ bad_set (post_state (output d)) <-> x ∈ bad_set pre \/ judged vs Bad x;
  av_wonky x : x ∈ wonky_set (post_state (output d)) <-> x ∈ wonky_set pre \/ judged vs Wonky x;
  av_offenders : offenders (post_state (output d)) = offenders pre;
  av_mark : offenders_mark (output d) = [];
  av_prior : prior_offenders d = list_to_set (offenders pre);
  av_inv : disputes_inv pre -> disputes_inv (post_state (output d));
  av_checked v : v ∈ vs -> ~ known pre (v_target v) /\ StronglySorted Z.lt (map j_index (v_votes v)) /\
    classify v <> None /\ (classify v = Some Good -> exists f, f ∈ faults ed /\ f_target f = v_target v)
}.

Lemma already_judged_spec vs d v :
  after_verdicts vs d ->
  is_already_judged (post_state (output d)) v = true <->
  known pre (v_target v) \/ exists c, judged vs c (v_target v).
Proof.
  intros H. unfold is_already_judged, known. rewrite !orb_true_iff, !mem_spec, (av_good _ _ H), (av_bad _ _ H), (av_wonky _ _ H).
  split; [naive_solver|]. intros [?|[[] ?]]; naive_solver.
Qed.

(** Each accepting branch of the round. *)
Lemma after_verdicts_step vs d v f c :
  after_verdicts vs d ->
  is_already_judged (post_state (output d)) v = false -> ~ known pre (v_target v) ->
  StronglySorted Z.lt (map j_index (v_votes v)) -> classify v = Some c ->
  (c = Good -> exists f, f ∈ faults ed /\ f_target f = v_target v) ->
  f = match c with Good => insort_good | Bad => insort_bad | Wonky => insort_wonky end ->
  after_verdicts (vs ++ [v]) (upd_post (f (v_target v)) d).
Proof.
  intros [Hg Hb Hw Ho Hm Hp Hi Hc] Hnj Hk Hj Hcl Hf ->.
  unfold is_already_judged in Hnj. apply orb_false_iff in Hnj as [[Hn1 Hn2]%orb_false_iff Hn3].
  apply mem_false in Hn1, Hn2, Hn3.
  split; try (destruct c; done);
    try (intros x; destruct c; simpl; rewrite ?elem_of_insort, judged_app, judged_one, ?Hg, ?Hb, ?Hw; naive_solver).
  - intros Hpre. destruct (Hi Hpre) as [i1 i2 i3 i4 i5 i6 i7].
    destruct c; split; simpl; auto using insort_sorted; intros x; rewrite ?elem_of_insort; naive_solver.
  - intros v'. rewrite elem_of_app. intros [Hv'|Hv']; [by apply Hc|]. apply list_elem_of_singleton in Hv' as ->.
    rewrite Hcl. split_and!; try done. intros [= ->]. by apply Hf.
Qed.

Lemma process_verdict_wp vs v rest d :
  verdicts ed = vs ++ v :: rest -> strictly_sorted (map v_target (verdicts ed)) ->
  after_verdicts vs d ->
  wp (process_verdict (faults ed) v) (fun _ d' => after_verdicts (vs ++ [v]) d') justified d.
Proof.
  intros Hvs Hs Hd. unfold process_verdict, wp.
  assert (v ∈ verdicts ed) as Hv by (rewrite Hvs; set_solver).
  rewrite eff_get_bind. destruct (is_already_judged _ v) eqn:Haj; simpl.
  { exists DisputesErrorCode.already_judged. split; [done|]. exists v. split; [done|].
    apply (already_judged_spec vs) in Haj as [?|(c & v' & Hv' & _ & Ht)]; [done| |done].
    exfalso. rewrite Hvs, map_app in Hs. apply StronglySorted_app in Hs as (Hs & _).
    apply (bytes_lt_ne (v_target v') (v_target v)); [|done].
    apply Hs; [by apply list_elem_of_fmap_2|simpl; set_solver]. }
  assert (~ known pre (v_target v)) as Hk.
  { intros Hk. assert (is_already_judged (post_state (output d)) v = true) by (eapply already_judged_spec; eauto). congruence. }
  rewrite eff_lift_ret_bind.
  destruct (negb (are_judgements_sorted (v_votes v)) || has_duplicate_judgements (v_votes v)) eqn:Hj; simpl.
  { exists DisputesErrorCode.judgements_not_sorted_unique. split; [done|]. exists v. split; [done|].
    rewrite <- judgements_check, Hj. done. }
  apply judgements_check in Hj. rewrite eff_lift_ret_bind.
  pose proof (fun f c => after_verdicts_step vs d v f c Hd Haj Hk Hj) as Hstep. unfold classify in Hstep.
  destruct (is_good v) eqn:Hg.
  { destruct (faults_count_check (faults ed) (v_target v)) as [[-> Hf]|[-> Hf]]; simpl; [by apply (Hstep _ Good)|].
    exists DisputesErrorCode.not_enough_faults. split; [done|]. exists v. unfold classify. by rewrite Hg. }
  destruct (is_bad v) eqn:Hb; [by apply (Hstep _ Bad)|].
  destruct (is_wonky v) eqn:Hw; [by apply (Hstep _ Wonky)|]. simpl.
  exists DisputesErrorCode.bad_vote_split. split; [done|]. exists v. unfold classify. by rewrite Hg, Hb, Hw.
Qed.
End loops.

Section evidence.
Context (ed_verify : bytes -> bytes -> bytes -> bool) (ed : ExtrinsicDisputes) (pre : DisputesState).

(** After all the verdicts and some of the evidence. *)
Record after_evidence (keys : list bytes) (d : Disputes) : Prop := mkAfterEvidence {
  ae_good x : x ∈ good_set (post_state (output d)) <-> now_good ed pre x;
  ae_bad x : x ∈ bad_set (post_state (output d)) <-> now_bad ed pre x;
  ae_wonky x : x ∈ wonky_set (post_state (output d)) <-> x ∈ wonky_set pre \/ judged (verdicts ed) Wonky x;
  ae_offenders k : k ∈ offenders (post_state (output d)) <-> k ∈ offenders pre \/ k ∈ keys;
  ae_mark : offenders_mark (output d) = keys;
  ae_prior : prior_offenders d = list_to_set (offenders pre);
  ae_inv : disputes_inv pre -> disputes_inv (post_state (output d));
  ae_fresh k : k ∈ keys -> k ∉ offenders pre
}.

Lemma after_verdicts_evidence d : after_verdicts ed pre (verdicts ed) d -> after_evidence [] d.
Proof. intros [Hg Hb Hw Ho Hm Hp Hi Hc]. split; try done; [|set_solver]. intros k. rewrite Ho. set_solver. Qed.

Lemma add_offender_wp keys k d :
  after_evidence keys d -> k ∈ evidence_keys ed ->
  wp (add_offender k) (fun _ d' => after_evidence (keys ++ [k]) d') (justified ed_verify ed pre) d.
Proof.
  intros [Hg Hb Hw Ho Hm Hp Hi Hf] Hk. unfold add_offender, wp. rewrite Hp. case_bool_decide as Hpr.
  { exists DisputesErrorCode.offender_already_reported. split; [done|]. exists k. set_solver. }
  assert (forall k', k' ∈ keys ++ [k] -> k' ∉ offenders pre) as Hf' by set_solver.
  cbn -[mem]. destruct (mem k (offenders (post_state (output d)))) eqn:Hmem.
  - apply mem_spec, Ho in Hmem. split; cbn; try done; [|by rewrite Hm]. intros k'. rewrite Ho. set_solver.
  - apply mem_false in Hmem. split; cbn; try done; [|by rewrite Hm|].
    + intros k'. rewrite elem_of_insort, Ho. set_solver.
    + intros Hpre. destruct (Hi Hpre). split; cbn; auto using insort_sorted.
Qed.

(** A loop over evidence: each item is admissible and punished, or raises a code that the
    extrinsic violates. *)
Definition admits {A} (key : A -> bytes) (ok : A -> Prop) (add : A -> DM unit) (x : A) : Prop :=
  forall keys d, after_evidence keys d ->
    (add x d = add_offender (key x) d /\ ok x) \/
    (exists e, add x d = (Raise e, d) /\ justified ed_verify ed pre e d).

Lemma evidence_loop {A} (key : A -> bytes) (ok : A -> Prop) (add : A -> DM unit) before l d :
  after_evidence before d ->
  (forall x, x ∈ l -> key x ∈ evidence_keys ed /\ admits key ok add x) ->
  wp (for_each l add) (fun _ d' => after_evidence (before ++ map key l) d' /\ forall x, x ∈ l -> ok x)
    (justified ed_verify ed pre) d.
Proof.
  intros Hd Hadd.
  apply (for_each_wp _ (fun seen d => after_evidence (before ++ map key seen) d /\ forall x, x ∈ seen -> ok x)).
  { rewrite app_nil_r. split; [done|set_solver]. }
  intros seen x rest d' Hl [Hd' Hok]. destruct (Hadd x) as [Hkey Hx]; [rewrite Hl; set_solver|].
  unfold wp. destruct (Hx _ _ Hd') as [[-> Hokx]|(e & -> & He)]; [|done].
  rewrite map_app, app_assoc. eapply wp_mono; [by apply add_offender_wp| |done].
  simpl. intros _ d'' Hd''. split; [done|set_solver].
Qed.

Definition culprit_ok (c : Culprit) : Prop := now_bad ed pre (c_target c).
Definition fault_ok (f : Fault) : Prop :=
  now_good ed pre (f_target f) /\ f_vote f = false \/ now_bad ed pre (f_target f) /\ f_vote f = true.

Lemma add_culprit_admits c : c ∈ culprits ed -> admits c_key culprit_ok add_culprit c.
Proof.
  intros Hc keys d Hd. unfold add_culprit. destruct (mem _ _) eqn:E; [left|right].
  - split; [done|]. by apply (ae_bad _ _ Hd), mem_spec.
  - eexists; split; [done|]. exists DisputesErrorCode.culprits_verdict_not_bad. split; [done|].
    exists c. split; [done|]. by rewrite <- (ae_bad _ _ Hd), <- mem_false.
Qed.

Lemma add_fault_admits f : f ∈ faults ed -> admits f_key fault_ok add_fault f.
Proof.
  intros Hf keys d Hd. unfold add_fault, fault_ok.
  assert (~ fault_ok f -> exists e, (Raise (STE DisputesErrorCode.fault_verdict_wrong) : outcome state_exn unit, d) = (Raise e, d) /\
    justified ed_verify ed pre e d) as Hno.
  { intros Hn. eexists; split; [done|]. exists DisputesErrorCode.fault_verdict_wrong. split; [done|]. by exists f. }
  unfold fault_ok in Hno. rewrite <- (ae_good _ _ Hd), <- (ae_bad _ _ Hd), <- !mem_spec in *.
  destruct (mem (f_target f) (good_set _)), (mem (f_target f) (bad_set _)), (f_vote f); simpl; naive_solver.
Qed.
End evidence.

(** ** The transition *)

Lemma wp_raise_if {S E A} b (e : E) (k : unit -> eff S E A) Q R s :
  (b = true -> R e s) -> (b = false -> wp (k tt) Q R s) -> wp (lift (raise_if b e) ≫= k) Q R s.
Proof. destruct b; intros Hr Hq; [by apply Hr|by apply Hq]. Qed.

Lemma after_verdicts_nil ed pre :
  after_verdicts ed pre [] (mkDisputes (mkDisputesOutput pre []) (list_to_set (offenders pre))).
Proof. split; try done; simpl; [..|set_solver]; intros x; unfold judged; set_solver. Qed.

(** The checks passed by an accepted extrinsic leave no condition violated. *)
Lemma no_violation ed_verify ed pre d d' :
  forallb (culprit_has_valid_signature ed_verify) (culprits ed) = true ->
  forallb (fault_has_valid_signature ed_verify) (faults ed) = true ->
  strictly_sorted (map v_target (verdicts ed)) ->
  after_verdicts ed pre (verdicts ed) d ->
  strictly_sorted (map c_key (culprits ed)) -> strictly_sorted (map f_key (faults ed)) ->
  (forall c, c ∈ culprits ed -> culprit_ok ed pre c) -> (forall f, f ∈ faults ed -> fault_ok ed pre f) ->
  after_evidence ed pre (evidence_keys ed) d' ->
  forall c, ~ violates ed_verify ed pre c.
Proof.
  intros Hcs Hfs Hv Hd Hck Hfk Hcok Hfok Hd'.
  rewrite forallb_forall in Hcs, Hfs. setoid_rewrite <- list_elem_of_In in Hcs. setoid_rewrite <- list_elem_of_In in Hfs.
  pose proof (av_checked _ _ _ _ Hd) as Hc. pose proof (ae_fresh _ _ _ _ Hd') as Hf.
  intros c Hviol. destruct c; simpl in Hviol; try done;
    first [destruct Hviol as (v & Hin & Hn); first [destruct (Hc v Hin) as (H1 & H2 & H3 & H4); tauto | idtac] | idtac].
  - by apply Hn, Hcok.
  - by apply Hn, Hfok.
  - by apply (Hf v).
  - destruct Hviol as [(c & Hin & Hn)|(f & Hin & Hn)]; [specialize (Hcs c Hin)|specialize (Hfs f Hin)]; congruence.
Qed.

Lemma transition_wp ed_verify ed pre :
  wp (transition_body ed_verify ed)
    (fun _ d => after_evidence ed pre (evidence_keys ed) d /\ forall c, ~ violates ed_verify ed pre c)
    (justified ed_verify ed pre)
    (mkDisputes (mkDisputesOutput pre []) (list_to_set (offenders pre))).
Proof.
  apply wp_raise_if; [intros (c & ? & ?)%negb_true_iff%forallb_false|intros Hcs%negb_false_iff].
  { exists DisputesErrorCode.bad_signature. split; [done|]. left. by exists c. }
  apply wp_raise_if; [intros (f & ? & ?)%negb_true_iff%forallb_false|intros Hfs%negb_false_iff].
  { exists DisputesErrorCode.bad_signature. split; [done|]. right. by exists f. }
  apply wp_raise_if; [intros Hv%negb_true_iff|intros Hv%negb_false_iff].
  { exists DisputesErrorCode.verdicts_not_sorted_unique. split; [done|]. simpl. rewrite <- verdicts_check, Hv. naive_solver. }
  apply wp_raise_if; intros Hdup.
  { exists DisputesErrorCode.verdicts_not_sorted_unique. split; [done|]. simpl. rewrite <- verdicts_check, Hdup. naive_solver. }
  pose proof (proj1 (verdicts_check (verdicts ed)) (conj Hv Hdup)) as Hs.
  apply wp_bind. eapply wp_mono; [apply (for_each_wp _ (after_verdicts ed pre))| |done].
  { by apply after_verdicts_nil. }
  { intros seen v rest d Hl Hd. by eapply process_verdict_wp. }
  intros [] d Hd. simpl.
  apply wp_raise_if; [intros Hk%negb_true_iff|intros Hk%negb_false_iff].
  { exists DisputesErrorCode.culprits_not_sorted_unique. split; [done|]. simpl.
    rewrite <- (keys_check c_key). unfold are_culprits_sorted in Hk. by rewrite Hk. }
  apply wp_bind. eapply wp_mono; [apply (evidence_loop ed_verify ed pre c_key (culprit_ok ed pre) _ []); [by apply after_verdicts_evidence|]| |done].
  { intros c Hc. split; [apply elem_of_app; left; by apply list_elem_of_fmap_2|by apply add_culprit_admits]. }
  intros [] d' [Hd' Hcok]. simpl.
  apply wp_raise_if; [intros Hk'%negb_true_iff|intros Hk'%negb_false_iff].
  { exists DisputesErrorCode.faults_not_sorted_unique. split; [done|]. simpl.
    rewrite <- (keys_check f_key). unfold are_faults_sorted in Hk'. by rewrite Hk'. }
  eapply wp_mono; [apply (evidence_loop ed_verify ed pre f_key (fault_ok ed pre) _ _ _ _ Hd')| |done].
  { intros f Hf. split; [apply elem_of_app; right; by apply list_elem_of_fmap_2|by apply add_fault_admits]. }
  intros [] d'' [Hd'' Hfok]. simpl. split; [done|].
  apply (keys_check c_key) in Hk. apply (keys_check f_key) in Hk'. exact (no_violation _ _ _ _ _ Hcs Hfs Hs Hd Hk Hk' Hcok Hfok Hd'').
Qed.

(** ** Votes and validation *)

Lemma votes_bounds v : 0 <= total_positive_votes v <= Z.of_nat (length (v_votes v)).
Proof. unfold total_positive_votes. induction (v_votes v) as [|j l IH]; simpl; [lia|]. destruct (j_vote j); simpl; lia. Qed.

Lemma is_good_all v : is_good v = true <-> forall j, j ∈ v_votes v -> j_vote j = true.
Proof.
  unfold is_good. rewrite Z.eqb_eq, <- Forall_forall. unfold total_positive_votes.
  induction (v_votes v) as [|j l IH]; simpl; [by split|].
  pose proof (votes_bounds (mkVerdict [] 0 l)) as Hb. unfold total_positive_votes in Hb. simpl in Hb.
  rewrite Forall_cons, <- IH. destruct (j_vote j); simpl; lia.
Qed.

Lemma is_bad_all v : is_bad v = true <-> forall j, j ∈ v_votes v -> j_vote j = false.
Proof.
  unfold is_bad. rewrite Z.eqb_eq, <- Forall_forall. unfold total_positive_votes.
  induction (v_votes v) as [|j l IH]; simpl; [by split|].
  pose proof (votes_bounds (mkVerdict [] 0 l)) as Hb. unfold total_positive_votes in Hb. simpl in Hb.
  rewrite Forall_cons, <- IH. destruct (j_vote j); simpl; lia.
Qed.

Section validation.
Context (ed_verify : bytes -> bytes -> bytes -> bool).

(** A judgement signed by a validator of the list. *)
Definition signed (target : bytes) (validators : list ValidatorData) (j : Judgement) : Prop :=
  0 <= j_index j /\ exists v, validators !! Z.to_nat (j_index j) = Some v /\
  verify ed_verify (ed25519 v) (get_signing_context (j_vote j) ++ target) (j_signature j) = true.

Definition refusal (c : DisputesErrorCode.t) : Prop :=
  c ∈ [DisputesErrorCode.bad_judgement_age; DisputesErrorCode.bad_votes_count; DisputesErrorCode.bad_validator_index;
       DisputesErrorCode.bad_signature; DisputesErrorCode.bad_guarantor_key; DisputesErrorCode.bad_auditor_key].

Lemma judgement_signatures_spec target votes validators :
  match judgement_signatures ed_verify target votes validators with
  | Ret true => forall j, j ∈ votes -> signed target validators j
  | Ret false => ~ forall j, j ∈ votes -> signed target validators j
  | Raise e => e = BVE DisputesErrorCode.bad_validator_index /\ ~ forall j, j ∈ votes -> signed target validators j
  end.
Proof.
  induction votes as [|j votes IH]; simpl; [set_solver|].
  destruct ((j_index j <? 0) || (Z.of_nat (length validators) <=? j_index j)) eqn:E.
  { split; [done|]. intros H. destruct (H j) as (Hp & v & Hv%lookup_lt_Some & _); [set_solver|].
    apply orb_true_iff in E as [E%Z.ltb_lt|E%Z.leb_le]; lia. }
  apply orb_false_iff in E as [E1%Z.ltb_ge E2%Z.leb_gt].
  destruct (get_item_total validators (j_index j)) as (v & -> & Hv); [lia|]. cbn [mbind outcome_bind].
  destruct (verify _ (ed25519 v) _ _) eqn:Es.
  - assert (signed target validators j) as Hj by (split; [done|]; by exists v).
    destruct (judgement_signatures _ _ _ _) as [[]|e]; [set_solver|set_solver|].
    destruct IH as [-> IH]. split; [done|set_solver].
  - intros H. destruct (H j) as (_ & v' & Hv' & Hs); [set_solver|]. congruence.
Qed.

Section sets.
Context (gp : GpConstants) (timeslot : Z) (pool archive : list ValidatorData).

Definition verdict_valid (v : Verdict) : Prop :=
  exists validators, verdict_validators gp timeslot pool archive (v_age v) = Some validators /\
  Z.of_nat (length (v_votes v)) = 2 * Z.of_nat (length validators) / 3 + 1 /\
  forall j, j ∈ v_votes v -> signed (v_target v) validators j.

Lemma validate_verdict_spec v :
  match validate_verdict ed_verify gp timeslot pool archive v with
  | Ret _ => verdict_valid v
  | Raise e => ~ verdict_valid v /\ exists c, e = BVE c /\ refusal c
  end.
Proof.
  unfold validate_verdict, verdict_valid, refusal.
  destruct (verdict_validators _ _ _ _ _) as [validators|]; cycle 1.
  { split; [naive_solver|]. eexists; split; [done|set_solver]. }
  destruct (Z.eqb_spec (Z.of_nat (length (v_votes v))) (2 * Z.of_nat (length validators) / 3 + 1)) as [Hn|Hn]; simpl; cycle 1.
  { split; [naive_solver|]. eexists; split; [done|set_solver]. }
  unfold has_valid_judgement_signatures. pose proof (judgement_signatures_spec (v_target v) (v_votes v) validators) as H.
  destruct (judgement_signatures _ _ _ _) as [[]|e]; simpl.
  - by exists validators.
  - split; [naive_solver|]. eexists; split; [done|set_solver].
  - destruct H as [-> H]. split; [naive_solver|]. eexists; split; [done|set_solver].
Qed.

Definition extrinsic_valid (ed : ExtrinsicDisputes) : Prop :=
  (forall v, v ∈ verdicts ed -> verdict_valid v) /\
  forall k, k ∈ evidence_keys ed -> k ∈ map ed25519 (pool ++ archive).

Lemma keys_valid {A} (key : A -> bytes) code (l : list A) : refusal code ->
  match every l (fun x => raise_if (bool_decide (key x ∉ validator_keys pool archive)) (BVE code)) with
  | Ret _ => forall k, k ∈ map key l -> k ∈ map ed25519 (pool ++ archive)
  | Raise e => e = BVE code /\ ~ forall k, k ∈ map key l -> k ∈ map ed25519 (pool ++ archive)
  end.
Proof.
  intros Hc. destruct (every _ _) as [[]|e] eqn:E.
  - rewrite every_ret in E. intros k (x & -> & Hx)%list_elem_of_fmap_1. specialize (E x Hx).
    apply raise_if_ret, bool_decide_eq_false in E. unfold validator_keys in E. rewrite elem_of_list_to_set in E.
    by destruct (decide (key x ∈ map ed25519 (pool ++ archive))).
  - apply every_raise in E as (x & Hx & E). case_bool_decide as Hk; simpl in E; [|done]. injection E as <-.
    split; [done|]. intros H. apply Hk. unfold validator_keys. rewrite elem_of_list_to_set. by apply H, list_elem_of_fmap_2.
Qed.
End sets.
End validation.

(** ** Theorems *)

Lemma disputes_transition_ret ed_verify ed pre out :
  state_transition ed_verify ed pre = Ret out ->
  posterior ed pre out /\ (forall c, ~ violates ed_verify ed pre c) /\ (disputes_inv pre -> disputes_inv (post_state out)).
Proof.
  unfold state_transition. pose proof (transition_wp ed_verify ed pre) as W. unfold wp in W.
  destruct (transition_body _ _ _) as [[u|e] d]; [|done]. intros [= <-].
  destruct W as [[Hg Hb Hw Ho Hm _ Hi _] Hv]. by split_and!; [split| |].
Qed.

Lemma disputes_transition_raise ed_verify ed pre e :
  state_transition ed_verify ed pre = Raise e -> exists c, e = STE c /\ violates ed_verify ed pre c.
Proof.
  unfold state_transition. pose proof (transition_wp ed_verify ed pre) as W. unfold wp in W.
  destruct (transition_body _ _ _) as [[u|e'] d]; [done|]. by intros [= <-].
Qed.

Lemma validate_run ed_verify gp timeslot pool archive ed :
  match validate_extrinsic_disputes ed_verify gp timeslot pool archive ed with
  | Ret _ => extrinsic_valid ed_verify gp timeslot pool archive ed
  | Raise e => ~ extrinsic_valid ed_verify gp timeslot pool archive ed /\ exists c, e = BVE c /\ refusal c
  end.
Proof.
  unfold validate_extrinsic_disputes, extrinsic_valid, evidence_keys.
  destruct (every (verdicts ed) _) as [[]|e] eqn:Ev; cbn [mbind outcome_bind].
  2: { apply every_raise in Ev as (v & Hv & E).
       pose proof (validate_verdict_spec ed_verify gp timeslot pool archive v) as W. rewrite E in W. naive_solver. }
  rewrite every_ret in Ev.
  pose proof (keys_valid pool archive c_key DisputesErrorCode.bad_guarantor_key (culprits ed) ltac:(unfold refusal; set_solver)) as Hc.
  destruct (every (culprits ed) _) as [[]|e]; cbn [mbind outcome_bind].
  2: { destruct Hc as [-> Hc]. split; [set_solver|]. eexists; split; [done|unfold refusal; set_solver]. }
  pose proof (keys_valid pool archive f_key DisputesErrorCode.bad_auditor_key (faults ed) ltac:(unfold refusal; set_solver)) as Hf.
  destruct (every (faults ed) _) as [[]|e].
  2: { destruct Hf as [-> Hf]. split; [set_solver|]. eexists; split; [done|unfold refusal; set_solver]. }
  split; [|intros k; rewrite elem_of_app; naive_solver].
  intros v Hv. pose proof (validate_verdict_spec ed_verify gp timeslot pool archive v) as W. by rewrite (Ev v Hv) in W.
Qed.

(** C33: The transition of the disputes refines the protocol's rules: it accepts an extrinsic
    exactly when none of the conditions is violated, then the three sets hold the old
    reports and those of the verdicts of their class, the offenders are the old ones and the
    keys of the evidence, and the mark lists the evidence in order; otherwise it raises the
    code of a condition that is violated. *)
Theorem state_transition_refines ed_verify ed pre :
  match state_transition ed_verify ed pre with
  | Ret out => (forall c, ~ violates ed_verify ed pre c) /\ posterior ed pre out
  | Raise e => exists c, e = STE c /\ violates ed_verify ed pre c
  end.
Proof.
  destruct (state_transition _ _ _) eqn:E; [|by eapply disputes_transition_raise].
  by apply disputes_transition_ret in E as (? & ? & _).
Qed.

(** A transition keeps the invariant of the state: the three verdict sets and the offenders
    stay strictly sorted, hence without repetitions, and no report is in two sets. *)
Theorem disputes_invariant ed_verify ed pre out :
  disputes_inv pre -> state_transition ed_verify ed pre = Ret out -> disputes_inv (post_state out).
Proof. intros Hpre (_ & _ & H)%disputes_transition_ret. by apply H. Qed.

(** Validation is total: it accepts an extrinsic exactly when every verdict carries the
    supermajority of signatures of its epoch's validators and every punished key belongs to
    a validator; otherwise it raises a validation error with one of its six codes. *)
Theorem validate_total ed_verify gp timeslot pool archive ed :
  match validate_extrinsic_disputes ed_verify gp timeslot pool archive ed with
  | Ret _ => extrinsic_valid ed_verify gp timeslot pool archive ed
  | Raise e => ~ extrinsic_valid ed_verify gp timeslot pool archive ed /\ exists c, e = BVE c /\ refusal c
  end.
Proof. apply validate_run. Qed.

(** C25: Validation and transition together: a report enters the good (or bad) set only with
    valid signatures of that vote by two thirds plus one distinct validators of the current
    or the previous epoch. *)
Theorem verdict_supermajority ed_verify gp timeslot pool archive ed pre out vote x :
  validate_extrinsic_disputes ed_verify gp timeslot pool archive ed = Ret tt ->
  state_transition ed_verify ed pre = Ret out ->
  x ∈ (if vote : bool then good_set (post_state out) else bad_set (post_state out)) ->
  x ∈ (if vote then good_set pre else bad_set pre) \/
  exists validators indices, validators ∈ [pool; archive] /\ NoDup indices /\
    Z.of_nat (length indices) = 2 * Z.of_nat (length validators) / 3 + 1 /\
    forall i, i ∈ indices -> exists v signature, 0 <= i /\ validators !! Z.to_nat i = Some v /\
      verify ed_verify (ed25519 v) (get_signing_context vote ++ x) signature = true.
Proof.
  intros Hval Hrun Hx. pose proof (validate_run ed_verify gp timeslot pool archive ed) as W. rewrite Hval in W.
  apply disputes_transition_ret in Hrun as ([Hg Hb _ _ _] & Hno & _).
  assert (x ∈ (if vote then good_set pre else bad_set pre) \/ judged (verdicts ed) (if vote then Good else Bad) x) as [?|Hj].
  { destruct vote; [by apply Hg in Hx|by apply Hb in Hx]. }
  { by left. }
  right. destruct Hj as (v & Hv & Hc & <-). destruct (proj1 W v Hv) as (validators & Hvs & Hn & Hsig).
  exists validators, (map j_index (v_votes v)). split_and!.
  - unfold verdict_validators in Hvs. repeat case_match; naive_solver set_solver.
  - destruct (decide (StronglySorted Z.lt (map j_index (v_votes v)))) as [Hs|Hs].
    + by apply Z_lt_NoDup.
    + exfalso. apply (Hno DisputesErrorCode.judgements_not_sorted_unique). by exists v.
  - by rewrite length_map.
  - intros i (j & -> & Hj)%list_elem_of_fmap_1. destruct (Hsig j Hj) as (Hp & w & Hw & Hs).
    exists w, (j_signature j). split_and!; [done|done|].
    assert (j_vote j = vote) as <-; [|done].
    unfold classify in Hc. destruct vote.
    + apply (is_good_all v); [|done]. by destruct (is_good v), (is_bad v), (is_wonky v).
    + apply (is_bad_all v); [|done]. by destruct (is_good v), (is_bad v), (is_wonky v).
Qed.
