(* ===== verification/Shuffle.v ===== *)
(** * Shuffling, guarantor assignment and other helpers

    [utils.py]: the Fisher-Yates shuffle driven by a sequence derived from entropy, the
    assignment of validators to cores it gives, the outside-in order of the ticket contest,
    the peer identifiers of the network and small list and dictionary helpers.  The hash
    function is an argument. *)

From Stdlib Require Import ZArith Lia Bool List Ascii String.
From stdpp Require Import base numbers option list gmap.
From S2P Require Import Prelude ByteOrder Graypaper StateBase.
Import ListNotations.

#[local] Open Scope Z_scope.

(** ** Lists *)

(** [[item for pair in zip(items[:n//2], reversed(items[n//2:])) for item in pair]] *)
Definition reorder_list_outside_in {A} (items : list A) : list A :=
  let half := (length items / 2)%nat in
  flat_map (fun p => [p.1; p.2]) (combine (take half items) (rev (drop half items))).

(** [any(lst.count(item) > 1 for item in lst)] *)
Definition count {A} `{EqDecision A} (lst : list A) (item : A) : nat := length (filter (fun x => x = item) lst).
Definition list_has_duplicates {A} `{EqDecision A} (lst : list A) : bool :=
  existsb (fun item => Nat.ltb 1 (count lst item)) lst.

Definition flatten_list {A} (nested_list : list (list A)) : list A := concat nested_list.

Fixpoint substitute_if_nothing {A} (args : list (option A)) : option A :=
  match args with
  | [] => None
  | Some arg :: _ => Some arg
  | None :: args => substitute_if_nothing args
  end.

(** [{k: d1.get(k, 0) + d2.get(k, 0) for k in set(d1) | set(d2)}] *)
Definition sum_dict_values (d1 d2 : gmap Z Z) : gmap Z Z :=
  set_to_map (fun k => (k, default 0 (d1 !! k) + default 0 (d2 !! k))) (dom d1 ∪ dom d2).

(** ** Shuffle *)

Section shuffle.
Context (blake2b_256_hash : bytes -> bytes).

(** [int.to_bytes(i // 8, 4)] holds the block number of any list of fewer than [2^35]
    items. *)
Definition numeric_sequence_from_entropy (entropy : bytes) (lemgth : Z) : list Z :=
  map (fun i =>
    let preimage := entropy ++ le_bytes 4 (i / 8) in
    let offset := Z.to_nat ((4 * i) mod 32) in
    le_int (take 4 (drop offset (blake2b_256_hash preimage)))) (py_range 0 lemgth).

(** The loop over [sequence]; [length] counts the items still to be drawn. *)
Fixpoint fisher_yates_loop {A} (sequence : list Z) (data : list A) (length : Z) (shuffled_data : list A)
    : outcome state_exn (list A) :=
  match sequence with
  | [] => Ret shuffled_data
  | item :: sequence =>
      if length =? 0 then Ret shuffled_data
      else
        let index := item mod length in
        x ← get_item data index;
        y ← get_item data (length - 1);
        match py_set data index y with
        | Some data => fisher_yates_loop sequence data (length - 1) (shuffled_data ++ [x])
        | None => Raise IndexError
        end
  end.

Definition fisher_yates_shuffle {A} (data : list A) (sequence : list Z) : outcome state_exn (list A) :=
  if (length data =? 0)%nat then Ret []
  else fisher_yates_loop sequence data (Z.of_nat (length data)) [].

Definition entropy_shuffle {A} (data : list A) (entropy : bytes) : outcome state_exn (list A) :=
  fisher_yates_shuffle data (numeric_sequence_from_entropy entropy (Z.of_nat (length data))).

Definition guarantor_rotation (core_indices : list Z) (rotation_offset : Z) : outcome state_exn (list Z) :=
  let active_cores := Z.of_nat (length core_indices) / 3 in
  if (active_cores =? 0) || negb (Z.of_nat (length core_indices) mod 3 =? 0) then Raise ValueError
  else Ret (map (fun x => (x + rotation_offset) mod active_cores) core_indices).

Definition guarantor_permute (gp : GpConstants) (entropy : bytes) (timeslot validator_count : Z) : outcome state_exn (list Z) :=
  core_indices ← entropy_shuffle (map (fun i => i / 3) (py_range 0 validator_count)) entropy;
  guarantor_rotation core_indices ((timeslot mod EPOCH_TIMESLOTS gp) / ROTATION_PERIOD_CORE gp).
End shuffle.

(** ** Signature contexts *)

(** [int(ticket_attempt).to_bytes(1, "little")] raises outside a byte. *)
Definition vrf_input_ticket_seal (entropy : bytes) (ticket_attempt : Z) : outcome state_exn bytes :=
  if (0 <=? ticket_attempt) && (ticket_attempt <? 256)
  then Ret (bytes_of_string "jam_ticket_seal" ++ entropy ++ [ticket_attempt])
  else Raise OverflowError.

Definition vrf_input_fallback_seal (entropy : bytes) : bytes := bytes_of_string "jam_fallback_seal" ++ entropy.

(** ** Peer identifiers *)

Definition alphabet : list ascii := list_ascii_of_string "abcdefghijklmnopqrstuvwxyz234567".

Fixpoint quic_digits (rounds : nat) (n : Z) : list ascii :=
  match rounds with
  | O => []
  | S rounds => nth (Z.to_nat (n mod 32)) alphabet "a"%char :: quic_digits rounds (n / 32)
  end.

Definition quic_peer_id (ed25519_public_key : bytes) : list ascii :=
  "e"%char :: quic_digits 52 (le_int ed25519_public_key).

(** [char_to_value]: the position of a character in the alphabet. *)
Fixpoint char_to_value_from (i : Z) (l : list ascii) (c : ascii) : option Z :=
  match l with
  | [] => None
  | a :: l => if Ascii.eqb a c then Some i else char_to_value_from (i + 1) l c
  end.
Definition char_to_value : ascii -> option Z := char_to_value_from 0 alphabet.

(** [for c in reversed(peer_id[1:])]: the digits are read from the last one. *)
Fixpoint peer_id_value (rev_digits : list ascii) (n : Z) : outcome state_exn Z :=
  match rev_digits with
  | [] => Ret n
  | c :: rev_digits =>
      match char_to_value c with
      | None => Raise ValueError
      | Some v => peer_id_value rev_digits (n * 32 + v)
      end
  end.

Definition ed25519_pubkey_from_peer_id (peer_id : list ascii) : outcome state_exn bytes :=
  match peer_id with
  | "e"%char :: digits =>
      if negb (length peer_id =? 53)%nat then Raise ValueError
      else
        n ← peer_id_value (rev digits) 0;
        if n <? 256 ^ 32 then Ret (le_bytes 32 n) else Raise OverflowError
  | _ => Raise ValueError
  end.

(** ** The shuffle permutes *)

(** One draw: the drawn item and the shortened prefix are the old prefix. *)
Lemma draw_perm {A} (data : list A) i n x y :
  (i <= n)%nat -> data !! i = Some x -> data !! n = Some y ->
  x :: take n (<[i := y]> data) ≡ₚ take (S n) data.
Proof.
  intros Hi Hx Hy. rewrite (take_S_r _ _ _ Hy).
  destruct (decide (i = n)) as [->|Hne].
  - rewrite take_insert_ge by lia. rewrite Hx in Hy. injection Hy as ->. by rewrite Permutation_app_comm.
  - rewrite take_insert_lt by lia.
    assert (take n data !! i = Some x) as Hx' by by rewrite lookup_take_lt by lia.
    rewrite <- (take_drop_middle _ _ _ Hx') at 2.
    rewrite insert_take_drop by (apply lookup_lt_Some in Hx'; lia).
    rewrite (Permutation_app_comm _ [y]). simpl. rewrite <- !Permutation_middle. apply perm_swap.
Qed.

Lemma fisher_yates_loop_run {A} sequence : forall (data : list A) n out,
  (n <= length data)%nat ->
  exists drawn rest, fisher_yates_loop sequence data (Z.of_nat n) out = Ret (out ++ drawn) /\
    drawn ++ rest ≡ₚ take n data /\ length drawn = Nat.min n (length sequence).
Proof.
  induction sequence as [|item sequence IH]; intros data n out Hn; simpl.
  { exists [], (take n data). rewrite app_nil_r. split_and!; [done|done|simpl; lia]. }
  destruct n as [|n]; simpl.
  { exists [], []. rewrite app_nil_r. by split_and!. }
  pose proof (Z.mod_pos_bound item (Z.of_nat (S n)) ltac:(lia)) as Hmod.
  change (Z.pos (Pos.of_succ_nat n)) with (Z.of_nat (S n)).
  destruct (get_item_total data (item mod Z.of_nat (S n))) as (x & -> & Hx); [lia|].
  destruct (get_item_total data (Z.of_nat (S n) - 1)) as (y & -> & Hy); [lia|]. cbn [mbind outcome_bind].
  rewrite py_set_nonneg by lia.
  replace (Z.of_nat (S n) - 1) with (Z.of_nat n) in * by lia. rewrite Nat2Z.id in Hy.
  destruct (IH (<[Z.to_nat (item mod Z.of_nat (S n)) := y]> data) n (out ++ [x])) as (drawn & rest & -> & Hp & Hl).
  { rewrite length_insert. lia. }
  exists (x :: drawn), rest. split_and!; [by rewrite <- app_assoc| |simpl; lia].
  simpl. rewrite Hp. apply draw_perm; [lia|done|done].
Qed.

Lemma fisher_yates_run {A} (data : list A) sequence :
  exists drawn rest, fisher_yates_shuffle data sequence = Ret drawn /\
    drawn ++ rest ≡ₚ data /\ length drawn = Nat.min (length data) (length sequence).
Proof.
  unfold fisher_yates_shuffle. destruct (Nat.eqb_spec (length data) 0) as [H|H].
  - apply nil_length_inv in H as ->. by exists [], [].
  - destruct (fisher_yates_loop_run sequence data (length data) []) as (drawn & rest & -> & Hp & Hl); [done|].
    rewrite firstn_all in Hp. by exists drawn, rest.
Qed.

Lemma entropy_shuffle_run {A} hash (data : list A) entropy :
  exists shuffled, entropy_shuffle hash data entropy = Ret shuffled /\ shuffled ≡ₚ data.
Proof.
  unfold entropy_shuffle. destruct (fisher_yates_run data (numeric_sequence_from_entropy hash entropy (Z.of_nat (length data))))
    as (drawn & rest & -> & Hp & Hl).
  exists drawn. split; [done|]. unfold numeric_sequence_from_entropy in Hl. rewrite length_map, length_py_range in Hl.
  pose proof (Permutation_length Hp) as Hlen. rewrite length_app in Hlen.
  assert (rest = []) as -> by (apply nil_length_inv; lia). by rewrite app_nil_r in Hp.
Qed.

(** ** Guarantor assignment *)

(** [n] cores with three places each. *)
Definition three_each (cores : list Z) : list Z := flat_map (fun c => [c; c; c]) cores.

Lemma thirds k : map (fun i => i / 3) (py_range 0 (3 * Z.of_nat k)) = three_each (py_range 0 (Z.of_nat k)).
Proof.
  induction k as [|k IH]; [done|].
  rewrite (py_range_app 0 (3 * Z.of_nat k)) by lia. rewrite (py_range_app 0 (Z.of_nat k) (Z.of_nat (S k))) by lia.
  unfold three_each in *. rewrite map_app, flat_map_app, IH. f_equal.
  rewrite (py_range_cons (Z.of_nat k)), (py_range_nil (Z.of_nat k + 1)) by lia.
  rewrite !py_range_cons by lia. rewrite (py_range_nil (_ + 1 + 1 + 1)) by lia. simpl. repeat f_equal; symmetry; Z.div_mod_to_equations; lia.
Qed.

Lemma three_each_map f cores : map f (three_each cores) = three_each (map f cores).
Proof. unfold three_each. induction cores as [|c cores IH]; simpl; [done|]. by rewrite IH. Qed.

#[export] Instance three_each_perm : Proper ((≡ₚ) ==> (≡ₚ)) three_each.
Proof. intros l l' H. unfold three_each. by apply Permutation_flat_map. Qed.

(** Rotating the cores permutes them. *)
Lemma rotate_perm k offset : 0 < k ->
  map (fun x => (x + offset) mod k) (py_range 0 k) ≡ₚ py_range 0 k.
Proof.
  intros Hk. symmetry. apply submseteq_length_Permutation.
  - apply NoDup_submseteq; [apply NoDup_py_range|]. intros x Hx. apply elem_of_py_range in Hx.
    apply list_elem_of_fmap. exists ((x - offset) mod k). split.
    + rewrite Zplus_mod_idemp_l. replace (x - offset + offset) with x by lia. by rewrite Z.mod_small.
    + apply elem_of_py_range. apply Z.mod_pos_bound. lia.
  - by rewrite length_map.
Qed.

Lemma guarantor_permute_run hash gp entropy timeslot k : (0 < k)%nat ->
  exists cores, guarantor_permute hash gp entropy timeslot (3 * Z.of_nat k) = Ret cores /\
    cores ≡ₚ three_each (py_range 0 (Z.of_nat k)).
Proof.
  intros Hk. unfold guarantor_permute.
  destruct (entropy_shuffle_run hash (map (fun i => i / 3) (py_range 0 (3 * Z.of_nat k))) entropy) as (l & -> & Hl).
  cbn [mbind outcome_bind]. rewrite thirds in Hl.
  assert (Z.of_nat (length l) = 3 * Z.of_nat k) as Hlen.
  { rewrite (Permutation_length Hl), <- thirds, length_map, length_py_range. lia. }
  unfold guarantor_rotation. rewrite Hlen.
  replace (3 * Z.of_nat k / 3) with (Z.of_nat k) by (symmetry; rewrite Z.mul_comm; apply Z.div_mul; lia).
  replace (3 * Z.of_nat k mod 3) with 0 by (symmetry; rewrite Z.mul_comm; apply Z.mod_mul; lia).
  destruct (Z.eqb_spec (Z.of_nat k) 0) as [|_]; [lia|]. eexists. split; [done|].
  by rewrite Hl, three_each_map, rotate_perm by lia.
Qed.

Lemma three_each_count k c : length (filter (fun x => x = c) (three_each (py_range 0 k))) =
  if decide (0 <= c < k) then 3%nat else 0%nat.
Proof.
  enough (forall l, NoDup l -> length (filter (fun x => x = c) (three_each l)) = if decide (c ∈ l) then 3%nat else 0%nat) as H.
  { rewrite H by apply NoDup_py_range. apply decide_ext, elem_of_py_range. }
  induction 1 as [|x l Hx Hl IH]; [done|]. simpl. rewrite !filter_cons.
  destruct (decide (x = c)) as [->|Hne]; simpl; rewrite IH.
  - rewrite !decide_False by done. by rewrite decide_True by set_solver.
  - apply decide_ext. set_solver.
Qed.

(** ** Outside-in order *)

Lemma pairs_perm {A} (a b : list A) : length a = length b ->
  flat_map (fun p => [p.1; p.2]) (combine a b) ≡ₚ a ++ b.
Proof.
  revert b. induction a as [|x a IH]; intros [|y b] H; simpl in *; try done.
  rewrite IH by lia. rewrite <- Permutation_middle. done.
Qed.

Lemma reorder_perm {A} (items : list A) : Nat.Even (length items) -> reorder_list_outside_in items ≡ₚ items.
Proof.
  intros [n Hn]. unfold reorder_list_outside_in.
  replace (length items / 2)%nat with n by (rewrite Hn, Nat.mul_comm; symmetry; by apply Nat.div_mul).
  rewrite pairs_perm by (rewrite length_rev, length_take, length_drop; lia).
  by rewrite <- Permutation_rev, take_drop.
Qed.

(** ** Duplicates *)

Lemma count_cons_eq {A} `{EqDecision A} (x : A) l : count (x :: l) x = S (count l x).
Proof. unfold count. by rewrite filter_cons_True by done. Qed.

Lemma count_pos {A} `{EqDecision A} (x : A) l : (0 < count l x)%nat <-> x ∈ l.
Proof.
  unfold count. split.
  - intros H. destruct (filter (fun y => y = x) l) as [|y l'] eqn:E; [simpl in H; lia|].
    assert (y ∈ filter (fun y => y = x) l) as Hy by (rewrite E; set_solver).
    apply list_elem_of_filter in Hy as [-> ?]. done.
  - intros H. assert (x ∈ filter (fun y => y = x) l) as Hx by by apply list_elem_of_filter.
    destruct (filter _ l); [set_solver|simpl; lia].
Qed.

Lemma count_cons_le {A} `{EqDecision A} (x y : A) l : (count l y <= count (x :: l) y)%nat.
Proof. unfold count. rewrite filter_cons. case_decide; simpl; lia. Qed.

Lemma list_has_duplicates_spec {A} `{EqDecision A} (l : list A) : list_has_duplicates l = false <-> NoDup l.
Proof.
  unfold list_has_duplicates. rewrite <- not_true_iff_false, existsb_exists.
  assert ((exists x, In x l /\ Nat.ltb 1 (count l x) = true) <-> exists x, (1 < count l x)%nat) as ->.
  { setoid_rewrite Nat.ltb_lt. split; [naive_solver|]. intros (x & Hx). exists x. split; [|done].
    apply list_elem_of_In, count_pos. lia. }
  induction l as [|x l IH].
  { split; [constructor|]. intros _ (x & Hx). unfold count in Hx. simpl in Hx. lia. }
  rewrite NoDup_cons, <- IH. split.
  - intros H. split.
    + intros Hx. apply H. exists x. rewrite count_cons_eq. apply count_pos in Hx. lia.
    + intros (y & Hy). apply H. exists y. pose proof (count_cons_le x y l). lia.
  - intros [Hx Hl] (y & Hy). destruct (decide (y = x)) as [->|Hne].
    + rewrite count_cons_eq in Hy. apply Hx, count_pos. lia.
    + apply Hl. exists y. unfold count in *. by rewrite filter_cons_False in Hy by done.
Qed.

(** ** Peer identifiers *)

Lemma char_to_value_nth d : 0 <= d < 32 -> char_to_value (nth (Z.to_nat d) alphabet "a"%char) = Some d.
Proof.
  intros Hd. assert (forallb (fun n => match char_to_value (nth n alphabet "a"%char) with
    | Some v => v =? Z.of_nat n | None => false end) (seq 0 32) = true) as H by by vm_compute.
  rewrite forallb_forall in H. specialize (H (Z.to_nat d)).
  destruct (char_to_value _) as [v|].
  - rewrite Z.eqb_eq, in_seq in H. rewrite H by lia. f_equal. lia.
  - discriminate H. apply in_seq. lia.
Qed.

Lemma peer_id_value_app l1 l2 n :
  peer_id_value (l1 ++ l2) n = m ← peer_id_value l1 n; peer_id_value l2 m.
Proof. revert n. induction l1 as [|c l1 IH]; intros n; simpl; [done|]. by destruct (char_to_value c). Qed.

Lemma quic_digits_value rounds n : 0 <= n ->
  peer_id_value (rev (quic_digits rounds n)) 0 = Ret (n mod 32 ^ Z.of_nat rounds).
Proof.
  revert n. induction rounds as [|rounds IH]; intros n Hn.
  { simpl. by rewrite Z.mod_1_r. }
  cbn [quic_digits rev]. rewrite peer_id_value_app, IH by (apply Z.div_pos; lia). cbn [mbind outcome_bind peer_id_value].
  rewrite char_to_value_nth by (apply Z.mod_pos_bound; lia). f_equal.
  rewrite Nat2Z.inj_succ, Z.pow_succ_r by lia. rewrite Z.rem_mul_r by (try lia; apply Z.pow_nonneg; lia). lia.
Qed.

Lemma length_quic_digits rounds n : length (quic_digits rounds n) = rounds.
Proof. revert n. induction rounds; simpl; auto. Qed.

(** ** Theorems *)

(** The shuffle driven by entropy never raises and permutes its list. *)
Theorem entropy_shuffle_permutes {A} hash (data : list A) entropy :
  exists shuffled, entropy_shuffle hash data entropy = Ret shuffled /\ shuffled ≡ₚ data.
Proof. apply entropy_shuffle_run. Qed.

(** Guarantor assignment: whatever the entropy and the slot, each of the [3 * k]
    validators is assigned a core and each of the [k] cores gets exactly three of them. *)
Theorem guarantor_permute_assigns hash gp entropy timeslot k : (0 < k)%nat ->
  exists cores, guarantor_permute hash gp entropy timeslot (3 * Z.of_nat k) = Ret cores /\
    length cores = (3 * k)%nat /\
    forall c, length (filter (fun x => x = c) cores) = if decide (0 <= c < Z.of_nat k) then 3%nat else 0%nat.
Proof.
  intros Hk. destruct (guarantor_permute_run hash gp entropy timeslot k Hk) as (cores & -> & Hp).
  exists cores. split_and!; [done| |].
  - rewrite (Permutation_length Hp), <- thirds, length_map, length_py_range. lia.
  - intros c. rewrite Hp. apply three_each_count.
Qed.

(** A peer identifier determines the 32-byte public key it was made from. *)
Theorem peer_id_roundtrip key : length key = 32%nat -> Forall is_byte key ->
  ed25519_pubkey_from_peer_id (quic_peer_id key) = Ret key.
Proof.
  intros Hl Hb. unfold quic_peer_id, ed25519_pubkey_from_peer_id.
  cbn [length]. rewrite length_quic_digits. cbn [Nat.eqb negb].
  pose proof (le_int_range key Hb) as Hr. rewrite Hl in Hr.
  rewrite quic_digits_value by lia. cbn [mbind outcome_bind].
  rewrite Z.mod_small by (split; [lia|]; eapply Z.lt_le_trans; [apply Hr|]; by vm_compute).
  change (Z.of_nat 32) with 32 in Hr. destruct (Z.ltb_spec (le_int key) (256 ^ 32)); [|lia].
  f_equal. rewrite <- Hl. by apply le_bytes_le_int.
Qed.
