(* ===== verification/Safrole.v ===== *)
(** * Time, entropy, validator sets and the ticket contest

    The [Timeslot], [Entropy], [ValidatorPool], [ValidatorArchive] and [Safrole] components
    of [state/components.py], and [jam_ring_context] of [signing.py].

    The hash and the two VRF verifications come from libraries: they are arguments of the
    definitions ([None] where the library raises [ValueError]).  The tickets of a block are
    checked one after the other, or on a thread pool that reports its results in any
    order: the order is an argument. *)

From Stdlib Require Import ZArith Lia Bool List String Sorted.
From stdpp Require Import base numbers option list sets sorting.
From S2P Require Import Prelude ByteOrder Graypaper StateBase Shuffle.
Import ListNotations.

#[local] Open Scope Z_scope.

(** ** Data *)

(** The fields of [Header] these components read. *)
Record Header : Type := mkHeader {
  parent : bytes;
  timeslot : Z;
  parent_state_root : bytes;
  entropy_source : bytes;
  author_bandersnatch_key : option bytes;
  header_hash : bytes
}.

Record TicketBody : Type := mkTicketBody { tb_id : bytes; tb_attempt : Z }.
Record TicketEnvelope : Type := mkTicketEnvelope { te_attempt : Z; te_signature : bytes }.

#[export] Instance TicketBody_eq_dec : EqDecision TicketBody.
Proof. solve_decision. Defined.
#[export] Instance TicketEnvelope_eq_dec : EqDecision TicketEnvelope.
Proof. solve_decision. Defined.

Inductive SlotSealerSeries : Type :=
| SealTickets (tickets : list TicketBody)
| SealKeys (keys : list bytes).

Record SafroleState : Type := mkSafroleState {
  validators : list ValidatorData;
  ring_commitment : bytes;
  slot_sealer_series : SlotSealerSeries;
  ticket_accumulator : list TicketBody
}.

Record EpochMark : Type := mkEpochMark {
  em_entropy : bytes;
  em_tickets_entropy : bytes;
  em_validators : list (bytes * bytes)
}.

Record SafroleOutput : Type := mkSafroleOutput {
  post_state : SafroleState;
  epoch_mark : option EpochMark;
  tickets_mark : option (list TicketBody)
}.

#[export] Instance EpochMark_eq_dec : EqDecision EpochMark.
Proof. solve_decision. Defined.

(** ** [Timeslot], [ValidatorPool], [ValidatorArchive] *)

Definition timeslot_transition (header : Header) : Z := timeslot header.

Definition validator_pool_transition (gp : GpConstants) (header : Header) (pre_slot : Z)
    (pre_pool pre_safrole_validators : list ValidatorData) : list ValidatorData :=
  if is_epoch_change gp pre_slot (timeslot header) then pre_safrole_validators else pre_pool.

Definition validator_archive_transition (gp : GpConstants) (header : Header) (pre_slot : Z)
    (pre_archive pre_pool : list ValidatorData) : list ValidatorData :=
  if is_epoch_change gp pre_slot (timeslot header) then pre_pool else pre_archive.

(** ** [Entropy] *)

Section entropy.
Context (blake2b_256_hash : bytes -> bytes).
Context (ietf_vrf_verify : bytes -> bytes -> bytes -> bytes -> option bytes).
Context (gp : GpConstants) (seal_vrf_output : bytes).

Definition entropy_output (header : Header) : outcome state_exn bytes :=
  if (length (entropy_source header) =? 32)%nat then Ret (entropy_source header)
  else
    match author_bandersnatch_key header with
    | None => Ret (replicate 32 0)
    | Some key =>
        if bool_decide (seal_vrf_output = replicate 96 0) then Ret (replicate 32 0)
        else
          match ietf_vrf_verify key (bytes_of_string "jam_entropy" ++ seal_vrf_output) [] (entropy_source header) with
          | Some output => Ret output
          | None => Raise (BlockValidationError Message)
          end
    end.

Definition entropy_transition (header : Header) (pre_slot : Z) (pre_entropy : list bytes) : outcome state_exn (list bytes) :=
  e0 ← get_item pre_entropy 0;
  output ← entropy_output header;
  let eta_0 := blake2b_256_hash (e0 ++ output) in
  if is_epoch_change gp pre_slot (timeslot header) then Ret (eta_0 :: take 3 pre_entropy)
  else Ret (eta_0 :: drop 1 pre_entropy).
End entropy.

(** ** [Safrole] *)

Definition SafE (c : SafroleErrorCode.t) : state_exn := StateTransitionError (SafroleCode c).

Section safrole.
Context (blake2b_256_hash : bytes -> bytes).
(** [bandersnatch_vrfs.RingContext], its [commitment] and its [ring_vrf_verify]. *)
Context {RingContext : Type}.
Context (new_ring_context : bytes -> list bytes -> Z -> option RingContext).
Context (commitment : RingContext -> bytes).
Context (ring_vrf_verify : RingContext -> bytes -> bytes -> bytes -> option bytes).
Context (gp : GpConstants) (ring_data : bytes).
(** [settings.SOLO_MODE] and [settings.USE_THREAD_POOL_SAFROLE], with the order in which the
    pool's tasks complete. *)
Context (SOLO_MODE USE_THREAD_POOL_SAFROLE : bool) (completed : list nat).

Definition jam_ring_context (public_keys : list bytes) : outcome state_exn RingContext :=
  if negb (valid_validator_count (Z.of_nat (length public_keys)) (CORE_COUNT gp)) ||
     existsb (fun key => negb (length key =? 32)%nat) public_keys
  then Raise ValueError
  else match new_ring_context ring_data public_keys (VALIDATOR_COUNT gp) with
       | Some c => Ret c
       | None => Raise ValueError
       end.

Definition check_offenders (vs : list ValidatorData) (offenders : list bytes) : list ValidatorData :=
  map (fun v => if bool_decide (ed25519 v ∈ offenders) then null_validator else v) vs.

Definition create_ticket_body (state : SafroleState) (ticket_data : TicketEnvelope) (ring_context : RingContext)
    (entropy : bytes) : outcome state_exn TicketBody :=
  entries ← ticket_entries gp (Z.of_nat (length (validators state)));
  if entries <=? te_attempt ticket_data then Raise (SafE SafroleErrorCode.bad_ticket_attempt)
  else
    vrf_input_data ← vrf_input_ticket_seal entropy (te_attempt ticket_data);
    match ring_vrf_verify ring_context vrf_input_data [] (te_signature ticket_data) with
    | Some ring_vrf_output => Ret (mkTicketBody ring_vrf_output (te_attempt ticket_data))
    | None => Raise (SafE SafroleErrorCode.bad_ticket_proof)
    end.

(** One round of the loop: the body of ticket [idx], checked against the accumulator. *)
Definition input_ticket (state : SafroleState) (ring_context : RingContext) (entropy : bytes)
    (ticket_data : TicketEnvelope) : outcome state_exn TicketBody :=
  ticket ← create_ticket_body state ticket_data ring_context entropy;
  if existsb (fun existing => bool_decide (tb_id existing = tb_id ticket)) (ticket_accumulator state)
  then Raise (SafE SafroleErrorCode.duplicate_ticket)
  else Ret ticket.

(** The results are stored at their index as they come. *)
Fixpoint collect_tickets (body : TicketEnvelope -> outcome state_exn TicketBody) (envelopes : list TicketEnvelope)
    (order : list nat) (input_tickets : list (option TicketBody)) : outcome state_exn (list (option TicketBody)) :=
  match order with
  | [] => Ret input_tickets
  | idx :: order =>
      match envelopes !! idx with
      | None => Raise IndexError
      | Some ticket_data =>
          ticket ← body ticket_data;
          collect_tickets body envelopes order (<[idx := Some ticket]> input_tickets)
      end
  end.

Definition tickets_in_order (tickets : list TicketBody) : bool :=
  adjacent (fun x y => bytes_leb (tb_id x) (tb_id y)) tickets.

Definition enact_fallback_method (state : SafroleState) (pre_time_slot post_time_slot : Z) : bool :=
  negb (Z.of_nat (length (ticket_accumulator state)) =? EPOCH_TIMESLOTS gp)
  || (slot_phase_index gp pre_time_slot <? TICKET_SUBMISSION_END_SLOT gp)
  || (1 <? epoch_number gp post_time_slot - epoch_number gp pre_time_slot).

(** The fallback keys: a validator of the pool per slot, drawn from the entropy. *)
Definition fallback_key (pool : list ValidatorData) (entropy : bytes) (n : Z) : outcome state_exn bytes :=
  let blake_hash := blake2b_256_hash (entropy ++ le_bytes 4 n) in
  if (length pool =? 0)%nat then Raise ZeroDivisionError
  else
    let validator_idx := le_int (take 4 blake_hash) mod Z.of_nat (length pool) in
    let validator_idx := if SOLO_MODE then 0 else validator_idx in
    v ← get_item pool validator_idx;
    Ret (bandersnatch v).

Fixpoint fallback_keys (pool : list ValidatorData) (entropy : bytes) (slots : list Z) : outcome state_exn (list bytes) :=
  match slots with
  | [] => Ret []
  | n :: slots =>
      key ← fallback_key pool entropy n;
      keys ← fallback_keys pool entropy slots;
      Ret (key :: keys)
  end.

(** The branch taken on an epoch change. *)
Definition new_epoch (state : SafroleState) (pre_slot post_slot : Z) (queue : list ValidatorData)
    (entropy : list bytes) (pool : list ValidatorData) (offenders : list bytes) : outcome state_exn (SafroleState * EpochMark) :=
  let vs := check_offenders queue offenders in
  e1 ← get_item entropy 1;
  e2 ← get_item entropy 2;
  let mark := mkEpochMark e1 e2 (map (fun v => (bandersnatch v, ed25519 v)) vs) in
  series ←
    (if enact_fallback_method state pre_slot post_slot then
       keys ← fallback_keys pool e2 (py_range 0 (EPOCH_TIMESLOTS gp));
       Ret (SealKeys keys)
     else Ret (SealTickets (reorder_list_outside_in (ticket_accumulator state))));
  ring_context ← jam_ring_context (map bandersnatch vs);
  Ret (mkSafroleState vs (commitment ring_context) series (ticket_accumulator state), mark).

(** The tickets of the extrinsic, checked: an empty list when there are none. *)
Definition checked_tickets (state : SafroleState) (epoch_change : bool) (extrinsic_tickets : list TicketEnvelope)
    (queue : list ValidatorData) (entropy : list bytes) (offenders : list bytes) : outcome state_exn (list TicketBody) :=
  match extrinsic_tickets with
  | [] => Ret []
  | _ =>
      if list_has_duplicates extrinsic_tickets then Raise (SafE SafroleErrorCode.duplicate_ticket)
      else
        let ticket_validators := if epoch_change then check_offenders queue offenders else validators state in
        ring_context ← jam_ring_context (map bandersnatch ticket_validators);
        e2 ← get_item entropy 2;
        let order := if USE_THREAD_POOL_SAFROLE then completed else seq 0 (length extrinsic_tickets) in
        input_tickets ← collect_tickets (input_ticket state ring_context e2) extrinsic_tickets order
          (replicate (length extrinsic_tickets) None);
        let tickets := omap id input_tickets in
        if tickets_in_order tickets then Ret tickets else Raise (SafE SafroleErrorCode.bad_ticket_order)
  end.

Definition state_transition (header : Header) (extrinsic_tickets : list TicketEnvelope) (pre_slot : Z)
    (pre : SafroleState) (queue : list ValidatorData) (entropy : list bytes) (pool : list ValidatorData)
    (offenders : list bytes) : outcome state_exn SafroleOutput :=
  if timeslot header <=? pre_slot then Raise (SafE SafroleErrorCode.bad_slot)
  else
    let epoch_change := is_epoch_change gp pre_slot (timeslot header) in
    let tickets_mark :=
      if negb epoch_change && ((slot_phase_index gp pre_slot <? TICKET_SUBMISSION_END_SLOT gp)
           && (TICKET_SUBMISSION_END_SLOT gp <=? slot_phase_index gp (timeslot header)))
         && (Z.of_nat (length (ticket_accumulator pre)) =? EPOCH_TIMESLOTS gp)
      then Some (reorder_list_outside_in (ticket_accumulator pre)) else None in
    '(state, epoch_mark) ←
      (if epoch_change then
         '(state, mark) ← new_epoch pre pre_slot (timeslot header) queue entropy pool offenders;
         Ret (state, Some mark)
       else Ret (pre, None));
    _ ← (if slot_phase_index gp (timeslot header) <? TICKET_SUBMISSION_END_SLOT gp
         then raise_if (MAXIMUM_EXTRINSIC_TICKETS gp <? Z.of_nat (length extrinsic_tickets)) (SafE SafroleErrorCode.too_many_tickets)
         else raise_if (0 <? Z.of_nat (length extrinsic_tickets)) (SafE SafroleErrorCode.unexpected_ticket));
    input_tickets ← checked_tickets state epoch_change extrinsic_tickets queue entropy offenders;
    let accumulator := if epoch_change then input_tickets else input_tickets ++ ticket_accumulator pre in
    let accumulator := take (Z.to_nat (EPOCH_TIMESLOTS gp)) (sorted_by tb_id accumulator) in
    if existsb (fun ticket => bool_decide (ticket ∉ accumulator)) input_tickets
    then Raise (SafE SafroleErrorCode.ticket_not_retained)
    else Ret (mkSafroleOutput
                (mkSafroleState (validators state) (ring_commitment state) (slot_sealer_series state) accumulator)
                epoch_mark tickets_mark).
End safrole.

(** ** Agreement of two outcomes

    The same value, or an exception on both sides. *)

Definition agree {E A} (m m' : outcome E A) : Prop :=
  match m, m' with
  | Ret a, Ret a' => a = a'
  | Raise _, Raise _ => True
  | _, _ => False
  end.

Lemma agree_refl {E A} (m : outcome E A) : agree m m.
Proof. by destruct m. Qed.

Lemma agree_bind {E A B} (m m' : outcome E A) (k k' : A -> outcome E B) :
  agree m m' -> (forall a, agree (k a) (k' a)) -> agree (m ≫= k) (m' ≫= k').
Proof. destruct m, m'; simpl; intros H Hk; subst; auto; done. Qed.

(** The exceptions of a computation satisfy [P]. *)
Definition raises {E A} (P : E -> Prop) (m : outcome E A) : Prop :=
  match m with Ret _ => True | Raise e => P e end.

Lemma raises_bind {E A B} (P : E -> Prop) (m : outcome E A) (k : A -> outcome E B) :
  raises P m -> (forall a, raises P (k a)) -> raises P (m ≫= k).
Proof. destruct m; simpl; auto. Qed.

(** ** Collecting the tickets *)

Section collect.
Context (body : TicketEnvelope -> outcome state_exn TicketBody) (envelopes : list TicketEnvelope).

(** In whatever order the indices come, the results end up in the order of the envelopes;
    an exception is that of one of the envelopes. *)
Lemma collect_run order : forall acc,
  (forall i, i ∈ order -> (i < length envelopes)%nat) -> length acc = length envelopes ->
  match collect_tickets body envelopes order acc with
  | Ret r => length r = length envelopes /\
      (forall i, i ∈ order -> exists e t, envelopes !! i = Some e /\ body e = Ret t /\ r !! i = Some (Some t)) /\
      (forall i, i ∉ order -> r !! i = acc !! i)
  | Raise x => exists e, e ∈ envelopes /\ body e = Raise x
  end.
Proof.
  induction order as [|i order IH]; intros acc Hb Hl; simpl; [split_and!; set_solver|].
  destruct (lookup_lt_is_Some_2 envelopes i) as [e He]; [apply Hb; set_solver|]. rewrite He.
  destruct (body e) as [t|x] eqn:Et; cbn [mbind outcome_bind].
  2: { exists e. split; [by eapply list_elem_of_lookup_2|done]. }
  specialize (IH (<[i := Some t]> acc)). destruct (collect_tickets _ _ _ _) as [r|x].
  - destruct IH as (Hr & Hin & Hout); [set_solver|by rewrite length_insert|]. split_and!; [done| |].
    + intros j Hj. destruct (decide (j ∈ order)) as [Hjo|Hjo]; [by apply Hin|].
      assert (j = i) as -> by set_solver. exists e, t. split_and!; [done|done|].
      rewrite Hout by done. rewrite list_lookup_insert_eq; [done|]. rewrite Hl. apply Hb. set_solver.
    + intros j Hj. rewrite Hout by set_solver. apply list_lookup_insert_ne. set_solver.
  - apply IH; [set_solver|by rewrite length_insert].
Qed.

Lemma collect_full order :
  order ≡ₚ seq 0 (length envelopes) ->
  match collect_tickets body envelopes order (replicate (length envelopes) None) with
  | Ret r => exists ts, r = map Some ts /\ Forall2 (fun e t => body e = Ret t) envelopes ts
  | Raise x => exists e, e ∈ envelopes /\ body e = Raise x
  end.
Proof.
  intros Ho. assert (forall i, i ∈ order <-> (i < length envelopes)%nat) as Hi.
  { intros i. rewrite Ho, elem_of_seq. lia. }
  pose proof (collect_run order (replicate (length envelopes) None)) as H.
  destruct (collect_tickets _ _ _ _) as [r|x].
  - destruct H as (Hr & Hin & _); [by intros i ?%Hi|by rewrite length_replicate|].
    assert (forall i e, envelopes !! i = Some e -> exists t, body e = Ret t /\ r !! i = Some (Some t)) as Hall.
    { intros i e He. destruct (Hin i) as (e' & t & He' & ? & ?); [apply Hi; by eapply lookup_lt_Some|].
      exists t. split; [|done]. congruence. }
    clear -Hr Hall. revert r Hr Hall. induction envelopes as [|e es IH]; intros [|o r] Hr Hall; simpl in *; try done.
    { by exists []. }
    destruct (Hall 0%nat e) as (t & Ht & [= ->]); [done|].
    destruct (IH r) as (ts & -> & Hts); [lia| |].
    { intros i e' He'. by apply (Hall (S i)). }
    exists (t :: ts). split; [done|by constructor].
  - apply H; [by intros i ?%Hi|by rewrite length_replicate].
Qed.

Lemma collect_agree order order' :
  order ≡ₚ seq 0 (length envelopes) -> order' ≡ₚ seq 0 (length envelopes) ->
  agree (collect_tickets body envelopes order (replicate (length envelopes) None))
        (collect_tickets body envelopes order' (replicate (length envelopes) None)).
Proof.
  intros Ho Ho'. pose proof (collect_full order Ho) as H. pose proof (collect_full order' Ho') as H'.
  destruct (collect_tickets _ _ order _) as [r|x], (collect_tickets _ _ order' _) as [r'|x']; simpl; [|..|done].
  - destruct H as (ts & -> & Hts), H' as (ts' & -> & Hts'). f_equal.
    clear -Hts Hts'. revert ts' Hts'. induction Hts as [|e t es ts Ht Hts IH]; intros ts' Hts'; inversion Hts'; subst; [done|].
    f_equal; [congruence|auto].
  - destruct H as (ts & _ & Hts), H' as (e & He & Hx). apply list_elem_of_lookup_1 in He as [i He].
    destruct (Forall2_lookup_l _ _ _ _ _ Hts He) as (t & _ & ?). congruence.
  - destruct H' as (ts & _ & Hts), H as (e & He & Hx). apply list_elem_of_lookup_1 in He as [i He].
    destruct (Forall2_lookup_l _ _ _ _ _ Hts He) as (t & _ & ?). congruence.
Qed.
End collect.

Lemma omap_map_Some {A} (l : list A) : omap id (map Some l) = l.
Proof. induction l as [|x l IH]; [done|]. change (omap id (map Some (x :: l))) with (x :: omap id (map Some l)). by rewrite IH. Qed.

(** A list as long as an epoch is even: reordering it loses nothing. *)
Lemma epoch_even gp n : gp_ok gp -> Z.of_nat n = EPOCH_TIMESLOTS gp -> Nat.Even n.
Proof.
  intros Hgp Hn. pose proof (gp_epoch_even _ Hgp) as H. exists (n / 2)%nat.
  assert (Z.of_nat (n mod 2) = 0) as Hm by (rewrite Nat2Z.inj_mod, Hn; exact H).
  pose proof (Nat.div_mod_eq n 2). lia.
Qed.

(** ** What an accepted transition establishes *)

Section specification.
Context (blake2b_256_hash : bytes -> bytes) {RingContext : Type}.
Context (new_ring_context : bytes -> list bytes -> Z -> option RingContext).
Context (commitment : RingContext -> bytes).
Context (ring_vrf_verify : RingContext -> bytes -> bytes -> bytes -> option bytes).
Context (gp : GpConstants) (ring_data : bytes) (SOLO_MODE : bool).

Abbreviation ring := (jam_ring_context new_ring_context gp ring_data).
Abbreviation transition pooled completed :=
  (state_transition blake2b_256_hash new_ring_context commitment ring_vrf_verify gp ring_data SOLO_MODE pooled completed).

(** A ticket proved by an envelope: its proof verifies against the ring of the validators
    and its attempt is among the allowed ones. *)
Definition proved (vs : list ValidatorData) (entropy : bytes) (e : TicketEnvelope) (t : TicketBody) : Prop :=
  exists ctx entries input, ring (map bandersnatch vs) = Ret ctx /\
    ticket_entries gp (Z.of_nat (length vs)) = Ret entries /\ te_attempt e < entries /\
    vrf_input_ticket_seal entropy (te_attempt e) = Ret input /\
    ring_vrf_verify ctx input [] (te_signature e) = Some (tb_id t) /\ tb_attempt t = te_attempt e.

Lemma input_ticket_proved state ctx entropy e t :
  ring (map bandersnatch (validators state)) = Ret ctx ->
  input_ticket ring_vrf_verify gp state ctx entropy e = Ret t ->
  proved (validators state) entropy e t /\ forall t', t' ∈ ticket_accumulator state -> tb_id t' <> tb_id t.
Proof.
  intros Hctx. unfold input_ticket, create_ticket_body. intros (b & Hb & Ht)%bind_ret.
  apply bind_ret in Hb as (entries & Hen & Hb). destruct (Z.leb_spec entries (te_attempt e)); [done|].
  apply bind_ret in Hb as (input & Hin & Hb). destruct (ring_vrf_verify _ _ _ _) as [o|] eqn:Ho; [|done].
  injection Hb as <-. destruct (existsb _ _) eqn:Hex; [done|]. injection Ht as <-. split.
  - exists ctx, entries, input. by split_and!.
  - intros t' Ht' Heq. apply not_true_iff_false in Hex. apply Hex, existsb_exists. exists t'.
    split; [by apply list_elem_of_In|by apply bool_decide_eq_true].
Qed.

(** The tickets an extrinsic submits. *)
Definition submitted (state : SafroleState) (entropy : list bytes) (envelopes : list TicketEnvelope) (ts : list TicketBody) : Prop :=
  NoDup envelopes /\ StronglySorted (key_le tb_id) ts /\
  Forall2 (fun e t => exists e2, py_index entropy 2 = Some e2 /\ proved (validators state) e2 e t) envelopes ts /\
  forall t t', t ∈ ts -> t' ∈ ticket_accumulator state -> tb_id t' <> tb_id t.

Lemma in_order_spec ts : tickets_in_order ts = true <-> StronglySorted (key_le tb_id) ts.
Proof. unfold tickets_in_order. apply adjacent_sorted; [apply _|done]. Qed.

Lemma checked_tickets_ret pooled completed state ec envelopes queue entropy offenders ts :
  completed ≡ₚ seq 0 (length envelopes) ->
  (ec = true -> validators state = check_offenders queue offenders) ->
  checked_tickets new_ring_context ring_vrf_verify gp ring_data pooled completed state ec envelopes queue entropy offenders = Ret ts ->
  submitted state entropy envelopes ts.
Proof.
  intros Hc Hec. unfold checked_tickets. destruct envelopes as [|e0 es] eqn:Ees.
  { intros [= <-]. split_and!; try constructor. set_solver. }
  rewrite <- Ees in *. destruct (list_has_duplicates envelopes) eqn:Hd; [done|]. apply list_has_duplicates_spec in Hd.
  intros (ctx & Hctx & H)%bind_ret. apply bind_ret in H as (e2 & He2 & H). apply bind_ret in H as (r & Hr & H).
  assert (ring (map bandersnatch (validators state)) = Ret ctx) as Hctx'.
  { destruct ec; [|done]. rewrite Hec by done. done. }
  pose proof (collect_full (input_ticket ring_vrf_verify gp state ctx e2) envelopes
    (if pooled then completed else seq 0 (length envelopes))) as Hcol.
  rewrite Hr in Hcol. destruct Hcol as (ts' & -> & Hts); [by destruct pooled|].
  rewrite omap_map_Some in H. destruct (tickets_in_order ts') eqn:Ho; [|done]. injection H as <-.
  apply in_order_spec in Ho. split_and!; [done|done| |].
  - eapply Forall2_impl; [exact Hts|]. intros e t Ht. exists e2. split.
    + unfold get_item in He2. destruct (py_index entropy 2); congruence.
    + by eapply input_ticket_proved in Ht as [? _].
  - intros t t' Ht. apply list_elem_of_lookup in Ht as [i Ht].
    destruct (Forall2_lookup_r _ _ _ _ _ Hts Ht) as (e & _ & He). by apply (input_ticket_proved _ _ _ _ _ Hctx') in He as [_ He]; auto.
Qed.

Lemma checked_tickets_agree pooled completed pooled' completed' state ec envelopes queue entropy offenders :
  completed ≡ₚ seq 0 (length envelopes) -> completed' ≡ₚ seq 0 (length envelopes) ->
  agree (checked_tickets new_ring_context ring_vrf_verify gp ring_data pooled completed state ec envelopes queue entropy offenders)
        (checked_tickets new_ring_context ring_vrf_verify gp ring_data pooled' completed' state ec envelopes queue entropy offenders).
Proof.
  intros Hc Hc'. unfold checked_tickets. destruct envelopes as [|e0 es] eqn:Ees; [done|]. rewrite <- Ees in *.
  destruct (list_has_duplicates envelopes); [done|].
  apply agree_bind; [apply agree_refl|intros ctx]. apply agree_bind; [apply agree_refl|intros e2].
  apply agree_bind; [|intros r; apply agree_refl].
  by apply collect_agree; [destruct pooled|destruct pooled'].
Qed.

(** The series sealing an epoch: one entry per slot. *)
Definition series_ok (s : SlotSealerSeries) : Prop :=
  match s with
  | SealTickets ts => Z.of_nat (length ts) = EPOCH_TIMESLOTS gp
  | SealKeys ks => Z.of_nat (length ks) = EPOCH_TIMESLOTS gp
  end.

(** Where the series of a new epoch comes from. *)
Definition series_from (acc : list TicketBody) (pool : list ValidatorData) (s : SlotSealerSeries) : Prop :=
  match s with
  | SealTickets ts => ts ≡ₚ acc
  | SealKeys ks => forall k, k ∈ ks -> k ∈ map bandersnatch pool
  end.

Record safrole_spec (header : Header) (envelopes : list TicketEnvelope) (pre_slot : Z) (pre : SafroleState)
    (queue : list ValidatorData) (entropy : list bytes) (pool : list ValidatorData) (offenders : list bytes)
    (out : SafroleOutput) : Prop := mkSafroleSpec {
  sp_later : pre_slot < timeslot header;
  sp_validators : validators (post_state out) =
    if is_epoch_change gp pre_slot (timeslot header) then check_offenders queue offenders else validators pre;
  sp_series : if is_epoch_change gp pre_slot (timeslot header)
    then series_ok (slot_sealer_series (post_state out)) /\
         series_from (ticket_accumulator pre) pool (slot_sealer_series (post_state out))
    else slot_sealer_series (post_state out) = slot_sealer_series pre;
  sp_epoch_mark : forall m, epoch_mark out = Some m ->
    is_epoch_change gp pre_slot (timeslot header) = true /\
    em_validators m = map (fun v => (bandersnatch v, ed25519 v)) (validators (post_state out));
  sp_tickets_mark : forall l, tickets_mark out = Some l ->
    is_epoch_change gp pre_slot (timeslot header) = false /\ epoch_mark out = None /\
    l ≡ₚ ticket_accumulator pre /\ Z.of_nat (length l) = EPOCH_TIMESLOTS gp;
  sp_tail : TICKET_SUBMISSION_END_SLOT gp <= slot_phase_index gp (timeslot header) -> envelopes = [];
  sp_tickets : exists ts, submitted (mkSafroleState (validators (post_state out)) [] (SealKeys []) (ticket_accumulator pre)) entropy envelopes ts /\
    ticket_accumulator (post_state out) = take (Z.to_nat (EPOCH_TIMESLOTS gp)) (sorted_by tb_id
      (ts ++ if is_epoch_change gp pre_slot (timeslot header) then [] else ticket_accumulator pre)) /\
    forall t, t ∈ ts -> t ∈ ticket_accumulator (post_state out)
}.

Lemma fallback_keys_run pool entropy slots keys :
  fallback_keys blake2b_256_hash SOLO_MODE pool entropy slots = Ret keys ->
  length keys = length slots /\ forall k, k ∈ keys -> k ∈ map bandersnatch pool.
Proof.
  revert keys. induction slots as [|n slots IH]; intros keys; simpl; [intros [= <-]; split; [done|set_solver]|].
  intros (k & Hk & H)%bind_ret. apply bind_ret in H as (ks & Hks & [= <-]). destruct (IH ks Hks) as [Hl Hin].
  split; [simpl; lia|]. intros k' [->|Hk']%elem_of_cons; [|by apply Hin].
  unfold fallback_key in Hk. destruct (length pool =? 0)%nat; [done|].
  apply bind_ret in Hk as (v & Hv & [= <-]). apply list_elem_of_fmap_2.
  unfold get_item, py_index in Hv. repeat case_match; simplify_eq; by eapply list_elem_of_lookup_2.
Qed.

Lemma new_epoch_ret pre pre_slot post_slot queue entropy pool offenders state mark :
  gp_ok gp ->
  new_epoch blake2b_256_hash new_ring_context commitment gp ring_data SOLO_MODE pre pre_slot post_slot queue entropy pool offenders = Ret (state, mark) ->
  validators state = check_offenders queue offenders /\ ticket_accumulator state = ticket_accumulator pre /\
  em_validators mark = map (fun v => (bandersnatch v, ed25519 v)) (validators state) /\
  series_ok (slot_sealer_series state) /\ series_from (ticket_accumulator pre) pool (slot_sealer_series state).
Proof.
  intros Hgp. unfold new_epoch. intros (e1 & _ & H)%bind_ret. apply bind_ret in H as (e2 & _ & H).
  apply bind_ret in H as (series & Hs & H). apply bind_ret in H as (ctx & _ & H). injection H as <- <-. simpl.
  split_and!; try done.
  - destruct (enact_fallback_method gp pre pre_slot post_slot) eqn:Hf.
    + apply bind_ret in Hs as (ks & Hks & [= <-]). apply fallback_keys_run in Hks as [Hl _]. simpl.
      rewrite Hl, length_py_range. pose proof (gp_epoch _ Hgp). lia.
    + injection Hs as <-. simpl. unfold enact_fallback_method in Hf.
      apply orb_false_iff in Hf as [[Hf%negb_false_iff%Z.eqb_eq _]%orb_false_iff _].
      rewrite (Permutation_length (reorder_perm _ (epoch_even gp _ Hgp Hf))). done.
  - destruct (enact_fallback_method gp pre pre_slot post_slot) eqn:Hf.
    + apply bind_ret in Hs as (ks & Hks & [= <-]). by apply fallback_keys_run in Hks as [_ ?].
    + injection Hs as <-. simpl. unfold enact_fallback_method in Hf.
      apply orb_false_iff in Hf as [[Hf%negb_false_iff%Z.eqb_eq _]%orb_false_iff _].
      by apply reorder_perm, (epoch_even gp).
Qed.

Lemma safrole_transition_ret pooled completed header envelopes pre_slot pre queue entropy pool offenders out :
  gp_ok gp -> completed ≡ₚ seq 0 (length envelopes) ->
  transition pooled completed header envelopes pre_slot pre queue entropy pool offenders = Ret out ->
  safrole_spec header envelopes pre_slot pre queue entropy pool offenders out.
Proof.
  intros Hgp Hc. unfold state_transition. destruct (Z.leb_spec (timeslot header) pre_slot); [done|].
  remember (is_epoch_change gp pre_slot (timeslot header)) as ec eqn:Hec. set (mark := if negb ec && _ && _ then _ else _).
  intros ([state em] & Hstate & H')%bind_ret.
  apply bind_ret in H' as ([] & Hn & H'). apply bind_ret in H' as (ts & Hts & H').
  destruct (existsb _ ts) eqn:Hex; [done|]. injection H' as <-.
  assert (validators state = (if ec then check_offenders queue offenders else validators pre) /\
    ticket_accumulator state = ticket_accumulator pre /\
    (if ec then series_ok (slot_sealer_series state) /\ series_from (ticket_accumulator pre) pool (slot_sealer_series state)
     else slot_sealer_series state = slot_sealer_series pre) /\
    (forall m, em = Some m -> ec = true /\ em_validators m = map (fun v => (bandersnatch v, ed25519 v)) (validators state)) /\
    (ec = false -> em = None)) as (Hvs & Hacc & Hser & Hem & Hno).
  { destruct ec; [|injection Hstate as <- <-; by split_and!].
    apply bind_ret in Hstate as ([st m] & Hst & [= <- <-]). apply new_epoch_ret in Hst as (?&?&?&?&?); [|done].
    split_and!; try done. intros m' [= <-]. done. }
  pose proof (checked_tickets_ret pooled completed state ec envelopes queue entropy offenders ts Hc) as Hsub.
  destruct Hsub as (Hnd & Hso & Hpr & Hfr); [by intros ->|done|]. rewrite Hacc in Hfr.
  split; rewrite <- ?Hec; try done.
  - intros l. subst mark. destruct ec; simpl; [done|]. intros Hl.
    destruct ((_ && _) && _) eqn:E; [|done]. injection Hl as <-. apply andb_true_iff in E as [_ E%Z.eqb_eq].
    pose proof (reorder_perm _ (epoch_even gp _ Hgp E)) as Hp. split_and!; [done|by apply Hno|done|].
    by rewrite (Permutation_length Hp).
  - intros Hy. destruct (Z.ltb_spec (slot_phase_index gp (timeslot header)) (TICKET_SUBMISSION_END_SLOT gp)); [lia|].
    apply raise_if_ret, Z.ltb_ge in Hn. destruct envelopes; [done|simpl in Hn; lia].
  - exists ts. cbn -[submitted]. split_and!; [by split_and!|by destruct ec; [rewrite app_nil_r|]|].
    intros t Ht. apply not_true_iff_false in Hex. destruct (decide (t ∈ take (Z.to_nat (EPOCH_TIMESLOTS gp))
      (sorted_by tb_id (if ec then ts else ts ++ ticket_accumulator pre)))) as [|Hnot]; [done|].
    exfalso. apply Hex, existsb_exists. exists t. split; [by apply list_elem_of_In|by apply bool_decide_eq_true].
Qed.

Lemma transition_agree pooled completed pooled' completed' header envelopes pre_slot pre queue entropy pool offenders :
  completed ≡ₚ seq 0 (length envelopes) -> completed' ≡ₚ seq 0 (length envelopes) ->
  agree (transition pooled completed header envelopes pre_slot pre queue entropy pool offenders)
        (transition pooled' completed' header envelopes pre_slot pre queue entropy pool offenders).
Proof.
  intros Hc Hc'. unfold state_transition. destruct (timeslot header <=? pre_slot); [apply agree_refl|].
  apply agree_bind; [apply agree_refl|intros [state em]]. apply agree_bind; [apply agree_refl|intros []].
  apply agree_bind; [by apply checked_tickets_agree|intros ts; apply agree_refl].
Qed.

(** The invariant: the accumulator is sorted by ticket and holds at most an epoch of
    tickets, the series has an entry per slot, and the validator set has an admitted size. *)
Record safrole_inv (s : SafroleState) : Prop := mkSafroleInv {
  si_sorted : StronglySorted (key_le tb_id) (ticket_accumulator s);
  si_length : Z.of_nat (length (ticket_accumulator s)) <= EPOCH_TIMESLOTS gp;
  si_series : series_ok (slot_sealer_series s);
  si_validators : valid_validator_count (Z.of_nat (length (validators s))) (CORE_COUNT gp) = true
}.

Lemma safrole_inv_run header envelopes pre_slot pre queue entropy pool offenders out :
  gp_ok gp -> safrole_spec header envelopes pre_slot pre queue entropy pool offenders out ->
  safrole_inv pre -> valid_validator_count (Z.of_nat (length queue)) (CORE_COUNT gp) = true ->
  safrole_inv (post_state out).
Proof.
  intros Hgp [_ Hvs Hser _ _ _ (ts & _ & Hacc & _)] [i1 i2 i3 i4] Hq. split.
  - rewrite Hacc. eapply StronglySorted_app_1_l. rewrite take_drop. apply sorted_by_sorted.
  - rewrite Hacc, length_take. pose proof (gp_epoch _ Hgp). lia.
  - destruct (is_epoch_change _ _ _); [by destruct Hser|by rewrite Hser].
  - rewrite Hvs. destruct (is_epoch_change _ _ _); [|done]. unfold check_offenders. by rewrite length_map.
Qed.

(** ** Exceptions *)

(** The transition's own error codes, or the ring library refusing the keys. *)
Definition expected (e : state_exn) : Prop :=
  (exists c, e = SafE c) \/
  (e = ValueError /\ exists keys, new_ring_context ring_data keys (VALIDATOR_COUNT gp) = None).

Definition ring_keys_ok (vs : list ValidatorData) : Prop :=
  valid_validator_count (Z.of_nat (length vs)) (CORE_COUNT gp) = true /\
  forall v, v ∈ vs -> length (bandersnatch v) = 32%nat.

Lemma check_offenders_ok vs offenders : ring_keys_ok vs -> ring_keys_ok (check_offenders vs offenders).
Proof.
  intros [Hn Hk]. unfold check_offenders. split; [by rewrite length_map|].
  intros v (w & -> & Hw)%list_elem_of_fmap_1. case_bool_decide; [done|by apply Hk].
Qed.

Lemma ring_raises vs : ring_keys_ok vs -> raises expected (ring (map bandersnatch vs)).
Proof.
  intros [Hn Hk]. unfold jam_ring_context. rewrite length_map, Hn. simpl.
  destruct (existsb _ _) eqn:E.
  - apply existsb_exists in E as (k & Hin & Hlen). apply list_elem_of_In in Hin.
    apply list_elem_of_fmap_1 in Hin as (v & -> & Hv). by rewrite Hk in Hlen.
  - destruct (new_ring_context _ _ _) eqn:Ec; simpl; [done|]. right. split; [done|by eexists].
Qed.

Lemma input_ticket_raises state ctx entropy e :
  ring_keys_ok (validators state) -> 0 <= te_attempt e < 256 ->
  raises expected (input_ticket ring_vrf_verify gp state ctx entropy e).
Proof.
  intros [Hn _] Ha. unfold input_ticket, create_ticket_body, ticket_entries. rewrite Hn.
  unfold vrf_input_ticket_seal. replace ((0 <=? te_attempt e) && (te_attempt e <? 256)) with true by (zcmp; simpl; lia).
  cbn [mbind outcome_bind]. destruct (_ <=? te_attempt e); [left; by eexists|].
  destruct (ring_vrf_verify _ _ _ _); cbn [mbind outcome_bind]; [|left; by eexists].
  destruct (existsb _ _); [left; by eexists|done].
Qed.

Lemma checked_tickets_raises pooled completed state ec envelopes queue entropy offenders :
  completed ≡ₚ seq 0 (length envelopes) -> length entropy = 4%nat ->
  (forall e, e ∈ envelopes -> 0 <= te_attempt e < 256) ->
  ring_keys_ok (validators state) -> ring_keys_ok queue ->
  raises expected (checked_tickets new_ring_context ring_vrf_verify gp ring_data pooled completed state ec envelopes queue entropy offenders).
Proof.
  intros Hc He Ha Hv Hq. unfold checked_tickets. destruct envelopes as [|e0 es] eqn:Ees; [done|]. rewrite <- Ees in *.
  destruct (list_has_duplicates envelopes); [left; by eexists|].
  apply raises_bind; [destruct ec; apply ring_raises; [by apply check_offenders_ok|done]|intros ctx].
  destruct (get_item_total entropy 2) as (e2 & -> & _); [lia|]. cbn [mbind outcome_bind].
  apply raises_bind.
  - pose proof (collect_full (input_ticket ring_vrf_verify gp state ctx e2) envelopes
      (if pooled then completed else seq 0 (length envelopes)) ltac:(by destruct pooled)) as H.
    destruct (collect_tickets _ _ _ _) as [r|x]; [done|]. destruct H as (e & Hin & Hx).
    pose proof (input_ticket_raises state ctx e2 e Hv (Ha e Hin)) as R. by rewrite Hx in R.
  - intros r. destruct (tickets_in_order _); [done|left; by eexists].
Qed.

Lemma fallback_keys_raises pool entropy slots : pool <> [] ->
  raises expected (fallback_keys blake2b_256_hash SOLO_MODE pool entropy slots).
Proof.
  intros Hp. induction slots as [|n slots IH]; simpl; [done|]. apply raises_bind.
  - unfold fallback_key. destruct pool as [|v0 pool]; [done|]. cbn [length Nat.eqb].
    set (len := Z.of_nat (S (length pool))).
    pose proof (Z.mod_pos_bound (le_int (take 4 (blake2b_256_hash (entropy ++ le_bytes 4 n)))) len ltac:(lia)).
    destruct (get_item_total (v0 :: pool) (if SOLO_MODE then 0 else le_int (take 4 (blake2b_256_hash (entropy ++ le_bytes 4 n))) mod len))
      as (v & -> & _); [change (Z.of_nat (length (v0 :: pool))) with len; clearbody len; destruct SOLO_MODE; lia|done].
  - intros k. apply raises_bind; [done|by intros ks].
Qed.

Lemma new_epoch_raises state pre_slot post_slot queue entropy pool offenders :
  length entropy = 4%nat -> pool <> [] -> ring_keys_ok queue ->
  raises expected (new_epoch blake2b_256_hash new_ring_context commitment gp ring_data SOLO_MODE state pre_slot post_slot queue entropy pool offenders).
Proof.
  intros He Hp Hq. unfold new_epoch.
  destruct (get_item_total entropy 1) as (e1 & -> & _); [lia|]. destruct (get_item_total entropy 2) as (e2 & -> & _); [lia|].
  cbn [mbind outcome_bind]. apply raises_bind.
  - destruct (enact_fallback_method _ _ _ _); [|done]. apply raises_bind; [by apply fallback_keys_raises|done].
  - intros series. apply raises_bind; [by apply ring_raises, check_offenders_ok|done].
Qed.

Lemma transition_raises pooled completed header envelopes pre_slot pre queue entropy pool offenders :
  gp_ok gp -> completed ≡ₚ seq 0 (length envelopes) -> length entropy = 4%nat -> pool <> [] ->
  (forall e, e ∈ envelopes -> 0 <= te_attempt e < 256) -> ring_keys_ok (validators pre) -> ring_keys_ok queue ->
  raises expected (transition pooled completed header envelopes pre_slot pre queue entropy pool offenders).
Proof.
  intros Hgp Hc He Hp Ha Hv Hq. unfold state_transition.
  destruct (timeslot header <=? pre_slot); [left; by eexists|].
  destruct (is_epoch_change gp pre_slot (timeslot header)).
  - pose proof (new_epoch_raises pre pre_slot (timeslot header) queue entropy pool offenders He Hp Hq) as R.
    destruct (new_epoch _ _ _ _ _ _ _ _ _ _ _ _ _) as [[state mark]|x] eqn:En; cbn [mbind outcome_bind]; [|done].
    apply new_epoch_ret in En as (Hvs & _); [|done].
    apply raises_bind; [destruct (_ <? _); unfold raise_if; destruct (_ <? _); try done; left; by eexists|intros _].
    apply raises_bind; [apply checked_tickets_raises; try done; rewrite Hvs; by apply check_offenders_ok|intros ts].
    destruct (existsb _ _); [left; by eexists|done].
  - cbn [mbind outcome_bind].
    apply raises_bind; [destruct (_ <? _); unfold raise_if; destruct (_ <? _); try done; left; by eexists|intros _].
    apply raises_bind; [by apply checked_tickets_raises|intros ts].
    destruct (existsb _ _); [left; by eexists|done].
Qed.
End specification.

(** ** Theorems *)

(** C35: What an accepted block does to the ticket contest: the slot advances; on an epoch change
    the validators are the queued ones with offenders nulled and the new series has one
    entry per slot, the contest's tickets reordered or keys of active validators; otherwise
    both are kept; the tickets mark is a full contest reordered; no ticket is accepted in
    the tail of an epoch; every submitted ticket is proved for the new validators with an
    admitted attempt, is new, and survives in the accumulator, which keeps the smallest. *)
Theorem safrole_transition_spec hash {RingContext} (new_ring : bytes -> list bytes -> Z -> option RingContext) commitment
    verify gp ring_data solo pooled completed header envelopes pre_slot pre queue entropy pool offenders out :
  gp_ok gp -> completed ≡ₚ seq 0 (length envelopes) ->
  state_transition hash new_ring commitment verify gp ring_data solo pooled completed
    header envelopes pre_slot pre queue entropy pool offenders = Ret out ->
  safrole_spec new_ring verify gp ring_data header envelopes pre_slot pre queue entropy pool offenders out.
Proof. intros Hgp Hc Hr. by eapply safrole_transition_ret. Qed.

(** The transition keeps the invariant of the contest: the accumulator sorted and at most
    an epoch long, a series entry for every slot, an admitted number of validators. *)
Theorem safrole_invariant hash {RingContext} (new_ring : bytes -> list bytes -> Z -> option RingContext) commitment
    verify gp ring_data solo pooled completed header envelopes pre_slot pre queue entropy pool offenders out :
  gp_ok gp -> completed ≡ₚ seq 0 (length envelopes) ->
  safrole_inv gp pre -> valid_validator_count (Z.of_nat (length queue)) (CORE_COUNT gp) = true ->
  state_transition hash new_ring commitment verify gp ring_data solo pooled completed
    header envelopes pre_slot pre queue entropy pool offenders = Ret out ->
  safrole_inv gp (post_state out).
Proof. intros Hgp Hc Hi Hq Hr. eapply safrole_inv_run; [done| |done|done]. by eapply safrole_transition_ret. Qed.

(** The thread pool does not change the outcome: whatever the order in which the tickets'
    proofs finish, the block is accepted with the same output or refused. *)
Theorem ticket_order_irrelevant hash {RingContext} (new_ring : bytes -> list bytes -> Z -> option RingContext) commitment
    verify gp ring_data solo completed header envelopes pre_slot pre queue entropy pool offenders :
  completed ≡ₚ seq 0 (length envelopes) ->
  agree (state_transition hash new_ring commitment verify gp ring_data solo true completed
           header envelopes pre_slot pre queue entropy pool offenders)
        (state_transition hash new_ring commitment verify gp ring_data solo false (seq 0 (length envelopes))
           header envelopes pre_slot pre queue entropy pool offenders).
Proof. intros Hc. by apply transition_agree. Qed.

(** On well-formed inputs the transition raises nothing but its own error codes, unless
    the ring library refuses the validators' keys: no index, division or encoding error. *)
Theorem safrole_errors hash {RingContext} (new_ring : bytes -> list bytes -> Z -> option RingContext) commitment
    verify gp ring_data solo pooled completed header envelopes pre_slot pre queue entropy pool offenders :
  gp_ok gp -> completed ≡ₚ seq 0 (length envelopes) -> length entropy = 4%nat -> pool <> [] ->
  (forall e, e ∈ envelopes -> 0 <= te_attempt e < 256) -> ring_keys_ok gp (validators pre) -> ring_keys_ok gp queue ->
  raises (expected new_ring gp ring_data) (state_transition hash new_ring commitment verify gp ring_data solo pooled completed
    header envelopes pre_slot pre queue entropy pool offenders).
Proof. intros. by apply transition_raises. Qed.

(** The entropy: the first entry accumulates the block's output, and the three epochs'
    entries are kept, or shift by one when the epoch changes; the only exception is the
    refusal of the entropy signature. *)
Theorem entropy_rotates hash verify gp seal header pre_slot e0 e1 e2 e3 :
  match entropy_transition hash verify gp seal header pre_slot [e0; e1; e2; e3] with
  | Ret post => exists output, entropy_output verify seal header = Ret output /\
      post = hash (e0 ++ output) ::
        if decide (epoch_number gp pre_slot = epoch_number gp (timeslot header)) then [e1; e2; e3] else [e0; e1; e2]
  | Raise e => e = BlockValidationError Message
  end.
Proof.
  unfold entropy_transition. cbn [get_item py_index mbind outcome_bind].
  destruct (entropy_output verify seal header) as [output|e] eqn:E; cbn [mbind outcome_bind].
  - pose proof (is_epoch_change_number gp pre_slot (timeslot header)) as H.
    destruct (is_epoch_change _ _ _); exists output; (split; [reflexivity|]);
      destruct (decide _) as [Hn|Hn]; try done; exfalso; naive_solver.
  - unfold entropy_output in E.
    destruct (length _ =? 32)%nat; [done|]. destruct (author_bandersnatch_key header); [|done].
    case_bool_decide; [done|]. destruct (verify _ _ _ _); [done|]. by injection E as <-.
Qed.

(** A finding: two envelopes that prove the same ticket with different proofs are both
    accepted, and the accumulator holds the ticket twice: the duplicate check compares the
    envelopes and the order check admits equal identifiers. *)
Theorem duplicate_tickets_accepted :
  exists out, state_transition (fun _ => []) (fun _ _ _ => Some tt) (fun _ => []) (fun _ _ _ _ => Some [7]) gp_tiny [] false false []
    (mkHeader [] 2 [] [] None []) [mkTicketEnvelope 0 [1]; mkTicketEnvelope 0 [2]] 1
    (mkSafroleState (replicate 6 null_validator) [] (SealKeys []) []) (replicate 6 null_validator) [[]; []; []; []] [] [] = Ret out /\
    ticket_accumulator (post_state out) = [mkTicketBody [7] 0; mkTicketBody [7] 0].
Proof. eexists. split; [by vm_compute|done]. Qed.
