(* ===== verification/History.v ===== *)
(** * Authorizer pools and recent history

    The [AuthorizerPools] and [RecentHistory] components of [state/components.py], with
    [AuthorizerPoolsState.is_authorized], [RecentHistoryState] and [BeefyCommitmentMap] of
    [models/state.py].  The history keeps the last blocks and the mountain range of the
    accumulation roots ([Mmr]); Keccak is an argument. *)

From Stdlib Require Import ZArith Lia Bool List Sorted.
From stdpp Require Import base numbers option list gmap sorting.
From S2P Require Import Prelude ByteOrder Graypaper StateBase Reports Merkle Mmr Safrole.
Import ListNotations.

#[local] Open Scope Z_scope.

(** ** [AuthorizerPools] *)

(** [list.remove]: the first occurrence, [None] for its [ValueError]. *)
Fixpoint list_remove (x : bytes) (l : list bytes) : option (list bytes) :=
  match l with
  | [] => None
  | y :: l => if bool_decide (y = x) then Some l else cons y <$> list_remove x l
  end.

(** [is_authorized] on the hash of the package's authorizer. *)
Definition is_authorized (pools : list (list bytes)) (authorizer_hash : bytes) (core_index : Z) : outcome state_exn bool :=
  if Z.of_nat (length pools) <? core_index then Ret false
  else
    pool ← get_item pools core_index;
    Ret (bool_decide (authorizer_hash ∈ pool)).

(** Remove the authorizations the guarantees used. *)
Fixpoint remove_used (guarantees : list Guarantee) (pools : list (list bytes)) : outcome state_exn (list (list bytes)) :=
  match guarantees with
  | [] => Ret pools
  | g :: guarantees =>
      pool ← get_item pools (g_core_index g);
      match list_remove (g_authorizer_hash g) pool with
      | None => Raise (StateTransitionError (GuaranteeCode GuaranteeErrorCode.core_unauthorized))
      | Some pool =>
          pools ← set_item pools (g_core_index g) pool;
          remove_used guarantees pools
      end
  end.

Section pools.
Context (gp : GpConstants).

(** The pool of one core with the entry of its queue added. *)
Definition extended (item : bytes) (pool : list bytes) : list bytes :=
  let pool := pool ++ [item] in
  if MAXIMIM_AUTHORIZATION_POOL_ITEMS gp <? Z.of_nat (length pool) then drop 1 pool else pool.

Fixpoint add_queued (timeslot : Z) (queues : list (list bytes)) (cores : list Z) (pools : list (list bytes))
    : outcome state_exn (list (list bytes)) :=
  match cores with
  | [] => Ret pools
  | core_index :: cores =>
      let offset := timeslot mod MAXIMUM_AUTHORIZATION_QUEUE_ITEMS gp in
      pool ← get_item pools core_index;
      queue ← get_item queues core_index;
      item ← get_item queue offset;
      pools ← set_item pools core_index (extended item pool);
      add_queued timeslot queues cores pools
  end.

Definition authorizer_pools_transition (header : Header) (guarantees : list Guarantee)
    (queues pre_pools : list (list bytes)) : outcome state_exn (list (list bytes)) :=
  pools ← remove_used guarantees pre_pools;
  add_queued (timeslot header) queues (py_range 0 (CORE_COUNT gp)) pools.
End pools.

(** ** [RecentHistory] *)

Record ReportedWorkPackage : Type := mkReported { rp_hash : bytes; rp_exports_root : bytes }.

Record RecentBlock : Type := mkRecentBlock {
  rb_header_hash : bytes;
  rb_beefy_root : bytes;
  rb_state_root : bytes;
  rb_slot : Z;
  rb_reported : list ReportedWorkPackage
}.

Record RecentHistoryState : Type := mkRecentHistory {
  recent_blocks : list RecentBlock;
  accumulation_output_log : peaks_t
}.

(** A set of pairs of a service and the root of its accumulation output. *)
Definition BeefyCommitmentMap : Type := gset (Z * bytes).

Definition add_accumulation_output (service_index : Z) (accumulation_output : bytes) (m : BeefyCommitmentMap) : BeefyCommitmentMap :=
  {[ (service_index, accumulation_output) ]} ∪ m.

(** [sorted] on pairs compares the service, then the output. *)
Definition get_accumulation_outputs (m : BeefyCommitmentMap) : list (Z * bytes) :=
  sorted_by (fun p => p.1 :: p.2) (elements m).

Section history.
Context (keccak_256_hash : bytes -> bytes) (gp : GpConstants).

Fixpoint commitment_leaves (items : list (Z * bytes)) : outcome state_exn (list bytes) :=
  match items with
  | [] => Ret []
  | (k, v) :: items =>
      if (0 <=? k) && (k <? 2 ^ 32) then
        data ← commitment_leaves items;
        Ret ((le_bytes 4 k ++ v) :: data)
      else Raise OverflowError
  end.

Definition get_accumulate_root (m : BeefyCommitmentMap) : outcome state_exn bytes :=
  data ← commitment_leaves (get_accumulation_outputs m);
  Ret (well_balanced_root keccak_256_hash data).

(** The argument [beefy_commitment_map]: the map, or its root. *)
Inductive beefy_argument : Type :=
| CommitmentMap (m : BeefyCommitmentMap)
| CommitmentRoot (root : bytes).

Definition accumulate_root (b : beefy_argument) : outcome state_exn bytes :=
  match b with CommitmentMap m => get_accumulate_root m | CommitmentRoot root => Ret root end.

Definition set_state_root (root : bytes) (b : RecentBlock) : RecentBlock :=
  mkRecentBlock (rb_header_hash b) (rb_beefy_root b) root (rb_slot b) (rb_reported b).

(** [recent_blocks[-1].state_root = header.parent_state_root], on a copy. *)
Fixpoint set_last_state_root (root : bytes) (blocks : list RecentBlock) : list RecentBlock :=
  match blocks with
  | [] => []
  | [b] => [set_state_root root b]
  | b :: blocks => b :: set_last_state_root root blocks
  end.

Definition state_transition_intermediate (header : Header) (pre : RecentHistoryState) : RecentHistoryState :=
  mkRecentHistory (set_last_state_root (parent_state_root header) (recent_blocks pre)) (accumulation_output_log pre).

Definition history_transition (header : Header) (guarantees : list Guarantee) (inter : RecentHistoryState)
    (b : beefy_argument) : outcome state_exn RecentHistoryState :=
  let reported := sorted_by rp_hash (map (fun g => mkReported (g_package_hash g) (g_exports_root g)) guarantees) in
  if CORE_COUNT gp <? Z.of_nat (length reported) then Raise (StateTransitionError Message)
  else
    let mmr_peaks := match recent_blocks inter with [] => [] | _ => accumulation_output_log inter end in
    root ← accumulate_root b;
    match insert keccak_256_hash root mmr_peaks with
    | None => Raise IndexError
    | Some peaks =>
        let block := mkRecentBlock (header_hash header) (super_peak keccak_256_hash peaks) (replicate 32 0) (timeslot header) reported in
        let blocks := recent_blocks inter ++ [block] in
        Ret (mkRecentHistory (if HISTORY gp <? Z.of_nat (length blocks) then drop 1 blocks else blocks) peaks)
    end.

(** A block of the chain as the history sees it. *)
Definition history_block (pre : RecentHistoryState) (x : Header * list Guarantee * beefy_argument) : outcome state_exn RecentHistoryState :=
  let '(header, guarantees, b) := x in
  history_transition header guarantees (state_transition_intermediate header pre) b.

Fixpoint history_blocks (pre : RecentHistoryState) (xs : list (Header * list Guarantee * beefy_argument)) : outcome state_exn RecentHistoryState :=
  match xs with
  | [] => Ret pre
  | x :: xs => post ← history_block pre x; history_blocks post xs
  end.
End history.

(** [get_recent_block] *)
Definition get_recent_block (s : RecentHistoryState) (block_hash : bytes) : option RecentBlock :=
  List.find (fun b => bool_decide (rb_header_hash b = block_hash)) (recent_blocks s).

(** ** Lemmas on pools *)

Lemma list_remove_spec x l :
  match list_remove x l with Some l' => x :: l' ≡ₚ l | None => x ∉ l end.
Proof.
  induction l as [|y l IH]; simpl; [set_solver|]. case_bool_decide as Hy; [by subst|].
  destruct (list_remove x l) as [l'|]; simpl; [|set_solver]. by rewrite Permutation_swap, IH.
Qed.

Lemma set_item_total {A} (l : list A) i x : 0 <= i < Z.of_nat (length l) -> set_item l i x = Ret (<[Z.to_nat i := x]> l).
Proof. intros Hi. unfold set_item. by rewrite py_set_nonneg. Qed.

(** The authorizations that guarantees use on a core. *)
Definition used (c : nat) (gs : list Guarantee) : list bytes :=
  map g_authorizer_hash (filter (fun g => g_core_index g = Z.of_nat c) gs).

Lemma used_cons c g gs : used c (g :: gs) =
  if decide (g_core_index g = Z.of_nat c) then g_authorizer_hash g :: used c gs else used c gs.
Proof. unfold used. rewrite filter_cons. by destruct (decide _). Qed.

Definition unauthorized : state_exn := StateTransitionError (GuaranteeCode GuaranteeErrorCode.core_unauthorized).

Lemma remove_used_run gs : forall pools,
  (forall g, g ∈ gs -> 0 <= g_core_index g < Z.of_nat (length pools)) ->
  match remove_used gs pools with
  | Ret r => length r = length pools /\
      forall c pool, pools !! c = Some pool -> exists rest, r !! c = Some rest /\ used c gs ++ rest ≡ₚ pool
  | Raise e => e = unauthorized /\ exists c pool, pools !! c = Some pool /\ ~ used c gs ⊆+ pool
  end.
Proof.
  induction gs as [|g gs IH]; intros pools Hg; simpl.
  { split; [done|]. intros c pool Hp. by exists pool. }
  destruct (get_item_total pools (g_core_index g)) as (pool & -> & Hpool); [apply Hg; set_solver|]. cbn [mbind outcome_bind].
  pose proof (list_remove_spec (g_authorizer_hash g) pool) as Hrm.
  assert (Z.of_nat (Z.to_nat (g_core_index g)) = g_core_index g) as Hc by (apply Z2Nat.id, Hg; set_solver).
  destruct (list_remove _ pool) as [pool'|]; cycle 1.
  { split; [done|]. exists (Z.to_nat (g_core_index g)), pool. split; [done|]. rewrite used_cons, decide_True by done.
    intros Hs. apply Hrm. apply (elem_of_submseteq _ _ _ ltac:(apply list_elem_of_here) Hs). }
  rewrite set_item_total by (apply Hg; set_solver). cbn [mbind outcome_bind].
  specialize (IH (<[Z.to_nat (g_core_index g) := pool']> pools)). rewrite length_insert in IH.
  destruct (remove_used gs _) as [r|e].
  - destruct IH as [Hl IH]; [set_solver|]. split; [done|]. intros c p Hp. rewrite used_cons. destruct (decide _) as [He|He].
    + replace (Z.to_nat (g_core_index g)) with c in * by lia. rewrite Hp in Hpool. injection Hpool as <-.
      destruct (IH c pool') as (rest & Hr & Hperm); [apply list_lookup_insert_eq; by eapply lookup_lt_Some|].
      exists rest. split; [done|]. simpl. by rewrite Hperm.
    + apply IH. rewrite list_lookup_insert_ne; [done|lia].
  - destruct IH as (-> & c & p & Hp & Hn); [set_solver|]. split; [done|]. rewrite list_lookup_insert_Some in Hp.
    destruct Hp as [(<- & <- & _)|[Hne Hp]].
    + exists (Z.to_nat (g_core_index g)), pool. split; [done|]. rewrite used_cons, decide_True by done. rewrite <- Hrm.
      intros Hs. by apply (submseteq_app_inv_l _ _ [g_authorizer_hash g]) in Hs.
    + exists c, p. split; [done|]. rewrite used_cons, decide_False by lia. done.
Qed.

Section pools_facts.
Context (gp : GpConstants) (Hgp : gp_ok gp).

Definition queues_ok (queues : list (list bytes)) : Prop :=
  Z.of_nat (length queues) = CORE_COUNT gp /\
  forall q, q ∈ queues -> Z.of_nat (length q) = MAXIMUM_AUTHORIZATION_QUEUE_ITEMS gp.

Definition pools_ok (pools : list (list bytes)) : Prop :=
  Z.of_nat (length pools) = CORE_COUNT gp /\
  forall p, p ∈ pools -> Z.of_nat (length p) <= MAXIMIM_AUTHORIZATION_POOL_ITEMS gp.

(** The queue entry a slot selects for a core. *)
Definition queued (slot : Z) (queues : list (list bytes)) (c : nat) : option bytes :=
  queue ← queues !! c; queue !! Z.to_nat (slot mod MAXIMUM_AUTHORIZATION_QUEUE_ITEMS gp).

Lemma length_extended item pool :
  Z.of_nat (length pool) <= MAXIMIM_AUTHORIZATION_POOL_ITEMS gp ->
  Z.of_nat (length (extended gp item pool)) <= MAXIMIM_AUTHORIZATION_POOL_ITEMS gp.
Proof.
  intros H. unfold extended. destruct (Z.ltb_spec (MAXIMIM_AUTHORIZATION_POOL_ITEMS gp) (Z.of_nat (length (pool ++ [item])))); [|lia].
  rewrite length_drop, length_app in *. simpl in *. lia.
Qed.

Lemma add_queued_run slot queues cores : forall pools, queues_ok queues -> NoDup cores ->
  (forall c, c ∈ cores -> 0 <= c < Z.of_nat (length pools)) -> Z.of_nat (length pools) = CORE_COUNT gp ->
  exists r, add_queued gp slot queues cores pools = Ret r /\ length r = length pools /\
    forall c pool, pools !! c = Some pool -> exists item, queued slot queues c = Some item /\
      r !! c = Some (if decide (Z.of_nat c ∈ cores) then extended gp item pool else pool).
Proof.
  induction cores as [|c cores IH]; intros pools [Hq1 Hq2] Hnd Hb Hl; cbn [add_queued].
  - exists pools. split_and!; [done|done|]. intros c pool Hp. unfold queued.
    destruct (lookup_lt_is_Some_2 queues c) as [q Hq]; [apply lookup_lt_Some in Hp; lia|]. rewrite Hq. cbn [mbind option_bind].
    pose proof (gp_queue _ Hgp). pose proof (Z.mod_pos_bound slot (MAXIMUM_AUTHORIZATION_QUEUE_ITEMS gp) ltac:(done)).
    specialize (Hq2 q ltac:(by eapply list_elem_of_lookup_2)).
    destruct (lookup_lt_is_Some_2 q (Z.to_nat (slot mod MAXIMUM_AUTHORIZATION_QUEUE_ITEMS gp))) as [item ->]; [lia|].
    exists item. split; [done|]. rewrite decide_False by set_solver. done.
  - apply NoDup_cons in Hnd as [Hc Hnd]. assert (0 <= c < Z.of_nat (length pools)) as Hcb by (apply Hb; set_solver).
    destruct (get_item_total pools c) as (pool & -> & Hpool); [done|].
    destruct (get_item_total queues c) as (q & -> & Hq); [lia|]. cbn [mbind outcome_bind].
    pose proof (gp_queue _ Hgp). pose proof (Z.mod_pos_bound slot (MAXIMUM_AUTHORIZATION_QUEUE_ITEMS gp) ltac:(done)).
    pose proof (Hq2 q ltac:(by eapply list_elem_of_lookup_2)) as Hql.
    destruct (get_item_total q (slot mod MAXIMUM_AUTHORIZATION_QUEUE_ITEMS gp)) as (item & -> & Hitem); [lia|]. cbn [mbind outcome_bind].
    rewrite set_item_total by done. cbn [mbind outcome_bind].
    destruct (IH (<[Z.to_nat c := extended gp item pool]> pools)) as (r & -> & Hr & Hall);
      [done|done|rewrite length_insert; set_solver|by rewrite length_insert|].
    rewrite length_insert in Hr. exists r. split_and!; [done|done|]. intros c' p Hp.
    destruct (decide (c' = Z.to_nat c)) as [->|Hne].
    + rewrite Hpool in Hp. injection Hp as <-.
      destruct (Hall (Z.to_nat c) (extended gp item pool)) as (item' & Hi & Hrc);
        [apply list_lookup_insert_eq; by eapply lookup_lt_Some|].
      unfold queued in Hi |- *. rewrite Hq in Hi |- *. cbn [mbind option_bind] in Hi |- *. rewrite Hitem in Hi |- *. injection Hi as <-.
      exists item. split; [done|]. rewrite Z2Nat.id in * by lia. rewrite decide_False in Hrc by done.
      by rewrite decide_True by set_solver.
    + destruct (Hall c' p) as (item' & Hi & Hrc); [by rewrite list_lookup_insert_ne by done|].
      exists item'. split; [done|]. rewrite Hrc. f_equal. apply decide_ext. set_solver by lia.
Qed.
End pools_facts.

(** ** The history as the protocol states it

    All the blocks of the chain, none forgotten, and all the accumulation roots. *)

Section abstract.
Context (keccak : bytes -> bytes) (gp : GpConstants) (Hgp : gp_ok gp).

Record full_history : Type := mkFullHistory { all_blocks : list RecentBlock; all_roots : list bytes }.

Definition reported (guarantees : list Guarantee) : list ReportedWorkPackage :=
  sorted_by rp_hash (map (fun g => mkReported (g_package_hash g) (g_exports_root g)) guarantees).

(** A block learns its state root from its successor. *)
Definition full_step (a : full_history) (header : Header) (guarantees : list Guarantee) (root : bytes) : full_history :=
  let roots := all_roots a ++ [root] in
  let beefy := default [] (super_peak keccak <$> insert_all keccak roots []) in
  mkFullHistory
    (set_last_state_root (parent_state_root header) (all_blocks a) ++
       [mkRecentBlock (header_hash header) beefy (replicate 32 0) (timeslot header) (reported guarantees)])
    roots.

Inductive full_steps : full_history -> list (Header * list Guarantee * beefy_argument) -> full_history -> Prop :=
| full_nil a : full_steps a [] a
| full_cons a header gs b root xs a' :
    accumulate_root keccak b = Ret root -> Z.of_nat (length gs) <= CORE_COUNT gp ->
    full_steps (full_step a header gs root) xs a' -> full_steps a ((header, gs, b) :: xs) a'.

(** The last blocks the state keeps. *)
Definition kept {A} (l : list A) : list A := drop (length l - Z.to_nat (HISTORY gp)) l.

(** The state represents the chain: its last blocks, and the mountain range over all its roots. *)
Definition represents (s : RecentHistoryState) (a : full_history) : Prop :=
  recent_blocks s = kept (all_blocks a) /\ length (all_roots a) = length (all_blocks a) /\
  (all_roots a <> [] -> insert_all keccak (all_roots a) [] = Some (accumulation_output_log s)).

Lemma length_set_last root l : length (set_last_state_root root l) = length l.
Proof. induction l as [|x [|y l] IH]; simpl in *; auto. Qed.

Lemma drop_set_last root l k : (k < length l)%nat -> drop k (set_last_state_root root l) = set_last_state_root root (drop k l).
Proof.
  revert l. induction k as [|k IH]; intros l Hk; [done|]. destruct l as [|x [|y l]]; simpl in *; [lia|lia|].
  apply (IH (y :: l)). simpl. lia.
Qed.

Lemma kept_set_last root l : set_last_state_root root (kept l) = kept (set_last_state_root root l).
Proof.
  unfold kept. rewrite length_set_last. destruct l as [|x l]; [done|].
  rewrite drop_set_last; [done|]. pose proof (gp_history _ Hgp). simpl. lia.
Qed.

Lemma kept_snoc {A} (l : list A) x :
  (if HISTORY gp <? Z.of_nat (length (kept l ++ [x])) then drop 1 (kept l ++ [x]) else kept l ++ [x]) = kept (l ++ [x]).
Proof.
  pose proof (gp_history _ Hgp). unfold kept. rewrite !length_app, length_drop. simpl.
  destruct (Z.ltb_spec (HISTORY gp) (Z.of_nat (length l - (length l - Z.to_nat (HISTORY gp)) + 1))).
  - rewrite !drop_app_le, drop_drop by (rewrite ?length_drop; lia). do 2 f_equal. lia.
  - replace (length l - Z.to_nat (HISTORY gp))%nat with 0%nat by lia.
    replace (length l + 1 - Z.to_nat (HISTORY gp))%nat with 0%nat by lia. done.
Qed.

Lemma kept_nil {A} (l : list A) : kept l = [] -> l = [].
Proof.
  unfold kept. intros H%(f_equal length). rewrite length_drop in H. pose proof (gp_history _ Hgp).
  apply nil_length_inv. simpl in H. lia.
Qed.

Lemma insert_all_snoc values v : forall peaks,
  insert_all keccak (values ++ [v]) peaks = peaks' ← insert_all keccak values peaks; insert keccak v peaks'.
Proof.
  induction values as [|w values IH]; intros peaks; simpl.
  - by destruct (insert keccak v peaks).
  - destruct (insert keccak w peaks) as [q|]; [apply IH|done].
Qed.

(** One block: the transition succeeds exactly when there is a root and no more reports
    than cores, and the abstract step represents its result. *)
Lemma history_block_sim s a header gs b :
  represents s a ->
  match history_block keccak gp s (header, gs, b) with
  | Ret s' => exists root, accumulate_root keccak b = Ret root /\ Z.of_nat (length gs) <= CORE_COUNT gp /\
      represents s' (full_step a header gs root)
  | Raise e => CORE_COUNT gp < Z.of_nat (length gs) /\ e = StateTransitionError Message \/
      accumulate_root keccak b = Raise e
  end.
Proof.
  intros (Hb & Hl & Hr). unfold history_block, history_transition, state_transition_intermediate.
  cbn [recent_blocks accumulation_output_log]. rewrite length_sorted_by, length_map.
  destruct (Z.ltb_spec (CORE_COUNT gp) (Z.of_nat (length gs))) as [Hn|Hn]; [by left|].
  destruct (accumulate_root keccak b) as [root|e]; cbn [mbind outcome_bind]; [|by right].
  assert ((match set_last_state_root (parent_state_root header) (recent_blocks s) with
    | [] => [] | _ :: _ => accumulation_output_log s end) = match all_roots a with [] => [] | _ => accumulation_output_log s end) as ->.
  { rewrite Hb, kept_set_last. destruct (all_roots a) as [|r rs] eqn:Er.
    - destruct (all_blocks a); [done|simpl in Hl; lia].
    - destruct (kept (set_last_state_root _ _)) as [|y ys] eqn:Ek; [|reflexivity]. apply kept_nil, (f_equal length) in Ek. rewrite length_set_last in Ek. simpl in *. lia. }
  assert (insert_all keccak (all_roots a) [] = Some (match all_roots a with [] => [] | _ => accumulation_output_log s end)) as Hlog.
  { destruct (all_roots a); [done|by apply Hr]. }
  destruct (insert_all_run keccak (all_roots a ++ [root]) [] []) as (peaks & Hp & _); [done|constructor|].
  pose proof Hp as Hins. rewrite insert_all_snoc, Hlog in Hins. cbn [mbind option_bind] in Hins. rewrite Hins.
  exists root. split_and!; [done|done|]. unfold represents, full_step. rewrite Hp.
  cbn [recent_blocks all_blocks all_roots accumulation_output_log default fmap option_fmap option_map]. split_and!; [|rewrite !length_app, length_set_last; simpl; lia|done].
  rewrite Hb, kept_set_last, kept_snoc. done.
Qed.

Lemma history_blocks_sim xs : forall s a, represents s a ->
  match history_blocks keccak gp s xs with
  | Ret s' => exists a', full_steps a xs a' /\ represents s' a'
  | Raise e => e = StateTransitionError Message \/ exists x, x ∈ xs /\ accumulate_root keccak x.2 = Raise e
  end.
Proof.
  induction xs as [|[[header gs] b] xs IH]; intros s a Hs; cbn [history_blocks]; [exists a; by split; [constructor|]|].
  pose proof (history_block_sim s a header gs b Hs) as Hsim.
  destruct (history_block keccak gp s (header, gs, b)) as [s'|e]; cbn [mbind outcome_bind].
  - destruct Hsim as (root & Hr & Hn & Hs'). specialize (IH s' _ Hs').
    destruct (history_blocks _ _ _ _) as [s''|e].
    + destruct IH as (a' & Ha & ?). exists a'. split; [by econstructor|done].
    + destruct IH as [?|(x & ? & ?)]; [by left|right; exists x; set_solver].
  - destruct Hsim as [[_ ->]|Hr]; [by left|right]. exists (header, gs, b). set_solver.
Qed.

Lemma represents_genesis log : represents (mkRecentHistory [] log) (mkFullHistory [] []).
Proof. by split_and!. Qed.
End abstract.

(** ** Theorems *)

(** The pools of a block: every guarantee's authorization is taken from its core's pool,
    then every core gets the entry its queue has for the slot and forgets its oldest one
    when over the limit; the transition fails exactly when some core's guarantees use an
    authorization more often than its pool holds it. *)
Theorem authorizer_pools_spec gp header gs queues pre :
  gp_ok gp -> pools_ok gp pre -> queues_ok gp queues ->
  (forall g, g ∈ gs -> 0 <= g_core_index g < CORE_COUNT gp) ->
  match authorizer_pools_transition gp header gs queues pre with
  | Ret post => pools_ok gp post /\ forall c pool, pre !! c = Some pool ->
      exists rest item, used c gs ++ rest ≡ₚ pool /\ queued gp (timeslot header) queues c = Some item /\
        post !! c = Some (extended gp item rest)
  | Raise e => e = unauthorized /\ exists c pool, pre !! c = Some pool /\ ~ used c gs ⊆+ pool
  end.
Proof.
  intros Hgp [Hp1 Hp2] Hq Hg. unfold authorizer_pools_transition.
  pose proof (remove_used_run gs pre ltac:(intros g ?%Hg; lia)) as Hrm.
  destruct (remove_used gs pre) as [r|e]; cbn [mbind outcome_bind]; [|done]. destruct Hrm as [Hl Hrm].
  destruct (add_queued_run gp Hgp (timeslot header) queues (py_range 0 (CORE_COUNT gp)) r) as (post & -> & Hpl & Hpost);
    [done|apply NoDup_py_range|intros c ?%elem_of_py_range; lia|lia|].
  assert (forall c pool, pre !! c = Some pool -> exists rest item, used c gs ++ rest ≡ₚ pool /\
    queued gp (timeslot header) queues c = Some item /\ post !! c = Some (extended gp item rest)) as Hall.
  { intros c pool Hpool. destruct (Hrm c pool Hpool) as (rest & Hr & Hperm).
    destruct (Hpost c rest Hr) as (item & Hi & Hc). exists rest, item. split_and!; [done|done|].
    rewrite decide_True in Hc; [done|]. apply elem_of_py_range. apply lookup_lt_Some in Hpool. lia. }
  split; [|done]. split; [lia|]. intros p Hp. apply list_elem_of_lookup in Hp as [c Hc].
  destruct (lookup_lt_is_Some_2 pre c) as [pool Hpool]; [apply lookup_lt_Some in Hc; lia|].
  destruct (Hall c pool Hpool) as (rest & item & Hperm & _ & Hc'). rewrite Hc in Hc'. injection Hc' as ->.
  apply length_extended. specialize (Hp2 pool ltac:(by eapply list_elem_of_lookup_2)).
  apply Permutation_length in Hperm. rewrite length_app in Hperm. lia.
Qed.

(** A finding: [is_authorized] lets the core index equal to the number of pools through its
    bounds check and raises an [IndexError] there; below it answers, above it refuses. *)
Theorem is_authorized_bound pools authorizer core : 0 <= core ->
  is_authorized pools authorizer core =
  match pools !! Z.to_nat core with
  | Some pool => Ret (bool_decide (authorizer ∈ pool))
  | None => if core =? Z.of_nat (length pools) then Raise IndexError else Ret false
  end.
Proof.
  intros Hc. unfold is_authorized, get_item. rewrite py_index_nonneg by done.
  destruct (Z.ltb_spec (Z.of_nat (length pools)) core) as [H|H].
  - rewrite lookup_ge_None_2 by lia. by destruct (Z.eqb_spec core (Z.of_nat (length pools))); [lia|].
  - destruct (pools !! Z.to_nat core) eqn:E; [done|]. apply lookup_ge_None in E.
    by destruct (Z.eqb_spec core (Z.of_nat (length pools))); [|lia].
Qed.

(** Refinement: from an empty history, the state after any blocks represents the whole
    chain: it keeps the last blocks, each with the super peak over all the accumulation
    roots up to it and the state root its successor declared, and the mountain range over
    all the roots; a block is refused only for more reports than cores, or when its
    accumulation root cannot be computed. *)
Theorem history_refines keccak gp log xs :
  gp_ok gp ->
  match history_blocks keccak gp (mkRecentHistory [] log) xs with
  | Ret s => exists a, full_steps keccak gp (mkFullHistory [] []) xs a /\ represents keccak gp s a
  | Raise e => e = StateTransitionError Message \/ exists x, x ∈ xs /\ accumulate_root keccak x.2 = Raise e
  end.
Proof. intros Hgp. apply history_blocks_sim; [done|]. apply represents_genesis. Qed.
