(* ===== verification/Consensus.v ===== *)
(** * The consensus part of a block import

    [validation.py] ([validate_header_after_safrole]) and the part of the block import of
    [app.py] that runs the disputes, validator, entropy and Safrole components, in its order
    and with the results passed on as it passes them.  The services, assurances, history and
    statistics steps of the import neither read nor write what these steps exchange and are
    left out.  The header's serialised payload comes from the codec: it is an argument. *)

From Stdlib Require Import ZArith Lia Bool List Sorted.
From stdpp Require Import base numbers option list sets gmap.
From S2P Require Import Prelude ByteOrder Graypaper StateBase Shuffle Disputes Safrole.
Import ListNotations.

#[local] Open Scope Z_scope.

Record BlockHeader : Type := mkBlockHeader {
  base : Header;
  author_index : Z;
  epoch_marker : option EpochMark;
  tickets_marker : option (list TicketBody);
  offenders_marker : list bytes;
  seal : bytes
}.

Record ConsensusState : Type := mkConsensusState {
  cs_timeslot : Z;
  cs_entropy : list bytes;
  cs_disputes : DisputesState;
  cs_pool : list ValidatorData;
  cs_archive : list ValidatorData;
  cs_safrole : SafroleState
}.

Definition BlockE (c : BlockValidationErrorCode.t) : state_exn := BlockValidationError (BlockCode c).

Section consensus.
Context (blake2b_256_hash : bytes -> bytes).
Context {RingContext : Type} (new_ring_context : bytes -> list bytes -> Z -> option RingContext).
Context (commitment : RingContext -> bytes).
Context (ring_vrf_verify : RingContext -> bytes -> bytes -> bytes -> option bytes).
Context (ietf_vrf_verify : bytes -> bytes -> bytes -> bytes -> option bytes).
Context (ed_verify : bytes -> bytes -> bytes -> bool).
Context (unsigned_payload : BlockHeader -> bytes).
Context (gp : GpConstants) (ring_data : bytes) (SOLO_MODE USE_THREAD_POOL_SAFROLE : bool) (completed : list nat).

(** [Header.set_author_bandersnatch_key] *)
Definition set_author_bandersnatch_key (header : BlockHeader) (pool : list ValidatorData) : outcome state_exn Header :=
  if Z.of_nat (length pool) <=? author_index header then Raise (BlockE BlockValidationErrorCode.invalid_author_key)
  else
    v ← get_item pool (author_index header);
    let h := base header in
    Ret (mkHeader (parent h) (timeslot h) (parent_state_root h) (entropy_source h) (Some (bandersnatch v)) (header_hash h)).

Definition validator_count_ok (m : option EpochMark) : bool :=
  match m with
  | None => true
  | Some m => (6 <=? Z.of_nat (length (em_validators m))) && (Z.of_nat (length (em_validators m)) mod 3 =? 0)
  end.

(** [None] of the library is the [ValueError] the two seal checks turn into an error. *)
Definition verify_ticket_seal (header : BlockHeader) (key : bytes) (ticket : TicketBody) (entropy : bytes) : outcome state_exn bytes :=
  input ← vrf_input_ticket_seal entropy (tb_attempt ticket);
  match ietf_vrf_verify key input (unsigned_payload header) (seal header) with
  | Some output => Ret output
  | None => Raise (BlockValidationError Message)
  end.

Definition verify_fallback_seal (header : BlockHeader) (key : bytes) (entropy : bytes) : outcome state_exn bytes :=
  match ietf_vrf_verify key (vrf_input_fallback_seal entropy) (unsigned_payload header) (seal header) with
  | Some output => Ret output
  | None => Raise (BlockValidationError Message)
  end.

(** Returns the output of the seal, which the block context keeps. *)
Definition validate_header_after_safrole (header : BlockHeader) (post_entropy : list bytes)
    (post_pool : list ValidatorData) (safrole : SafroleOutput) (disputes : DisputesOutput) : outcome state_exn bytes :=
  if negb (bool_decide (tickets_marker header = tickets_mark safrole)) then Raise (BlockE BlockValidationErrorCode.bad_ticket_marker_data)
  else if negb (validator_count_ok (epoch_marker header)) then Raise (BlockE BlockValidationErrorCode.bad_epoch_marker_data)
  else if negb (bool_decide (epoch_marker header = epoch_mark safrole)) then Raise (BlockE BlockValidationErrorCode.bad_epoch_marker_data)
  else if negb (bool_decide (offenders_marker header = offenders_mark disputes)) then Raise (BlockE BlockValidationErrorCode.bad_offender_marker_data)
  else
    entropy ← get_item post_entropy 3;
    author ← get_item post_pool (author_index header);
    let author_key := bandersnatch author in
    match slot_sealer_series (post_state safrole) with
    | SealTickets tickets =>
        ticket ← get_item tickets (timeslot (base header) mod EPOCH_TIMESLOTS gp);
        output ← verify_ticket_seal header author_key ticket entropy;
        if bool_decide (output = tb_id ticket) then Ret output else Raise (BlockValidationError Message)
    | SealKeys keys =>
        sealer_key ← get_item keys (timeslot (base header) mod EPOCH_TIMESLOTS gp);
        if bool_decide (author_key = sealer_key) then verify_fallback_seal header author_key entropy
        else Raise (BlockValidationError Message)
    end.

(** The import of a received block; the block context starts with [bytes(96)] as the seal's
    output. *)
Definition import_consensus (header : BlockHeader) (ed : ExtrinsicDisputes) (envelopes : list TicketEnvelope)
    (queue : list ValidatorData) (st : ConsensusState) : outcome state_exn ConsensusState :=
  _ ← validate_extrinsic_disputes ed_verify gp (cs_timeslot st) (cs_pool st) (cs_archive st) ed;
  let pool := validator_pool_transition gp (base header) (cs_timeslot st) (cs_pool st) (validators (cs_safrole st)) in
  h ← set_author_bandersnatch_key header pool;
  entropy ← entropy_transition blake2b_256_hash ietf_vrf_verify gp (replicate 96 0) h (cs_timeslot st) (cs_entropy st);
  disputes ← Disputes.state_transition ed_verify ed (cs_disputes st);
  let archive := validator_archive_transition gp h (cs_timeslot st) (cs_archive st) (cs_pool st) in
  safrole ← Safrole.state_transition blake2b_256_hash new_ring_context commitment ring_vrf_verify gp ring_data
    SOLO_MODE USE_THREAD_POOL_SAFROLE completed h envelopes (cs_timeslot st) (cs_safrole st) queue entropy pool
    (offenders (Disputes.post_state disputes));
  seal_vrf_output ← validate_header_after_safrole header entropy pool safrole disputes;
  entropy ← entropy_transition blake2b_256_hash ietf_vrf_verify gp seal_vrf_output h (cs_timeslot st) (cs_entropy st);
  Ret (mkConsensusState (timeslot_transition h) entropy (Disputes.post_state disputes) pool archive (Safrole.post_state safrole)).
End consensus.

(** ** Invariant *)

Section invariant.
Context (blake2b_256_hash : bytes -> bytes).
Context {RingContext : Type} (new_ring_context : bytes -> list bytes -> Z -> option RingContext).
Context (commitment : RingContext -> bytes).
Context (ring_vrf_verify : RingContext -> bytes -> bytes -> bytes -> option bytes).
Context (ietf_vrf_verify : bytes -> bytes -> bytes -> bytes -> option bytes).
Context (ed_verify : bytes -> bytes -> bytes -> bool).
Context (unsigned_payload : BlockHeader -> bytes).
Context (gp : GpConstants) (ring_data : bytes) (SOLO_MODE USE_THREAD_POOL_SAFROLE : bool) (completed : list nat).
Context (Hgp : gp_ok gp).

Abbreviation import := (import_consensus blake2b_256_hash new_ring_context commitment ring_vrf_verify ietf_vrf_verify
  ed_verify unsigned_payload gp ring_data SOLO_MODE USE_THREAD_POOL_SAFROLE completed).

Definition attempt_ok (t : TicketBody) : Prop := 0 <= tb_attempt t < 256.

Definition series_attempts_ok (s : SlotSealerSeries) : Prop :=
  match s with SealTickets ts => forall t, t ∈ ts -> attempt_ok t | SealKeys _ => True end.

Record consensus_inv (st : ConsensusState) : Prop := mkConsensusInv {
  ci_entropy : length (cs_entropy st) = 4%nat;
  ci_disputes : disputes_inv (cs_disputes st);
  ci_pool : ring_keys_ok gp (cs_pool st);
  ci_archive : ring_keys_ok gp (cs_archive st);
  ci_safrole : safrole_inv gp (cs_safrole st);
  ci_next : ring_keys_ok gp (validators (cs_safrole st));
  ci_accumulator : forall t, t ∈ ticket_accumulator (cs_safrole st) -> attempt_ok t;
  ci_series : series_attempts_ok (slot_sealer_series (cs_safrole st))
}.

Definition extrinsic_ok (envelopes : list TicketEnvelope) (queue : list ValidatorData) : Prop :=
  completed ≡ₚ seq 0 (length envelopes) /\ (forall e, e ∈ envelopes -> 0 <= te_attempt e < 256) /\ ring_keys_ok gp queue.

Lemma pool_transition_ok h st : consensus_inv st ->
  ring_keys_ok gp (validator_pool_transition gp h (cs_timeslot st) (cs_pool st) (validators (cs_safrole st))).
Proof. intros []. unfold validator_pool_transition. by destruct (is_epoch_change _ _ _). Qed.

Lemma archive_transition_ok h st : consensus_inv st ->
  ring_keys_ok gp (validator_archive_transition gp h (cs_timeslot st) (cs_archive st) (cs_pool st)).
Proof. intros []. unfold validator_archive_transition. by destruct (is_epoch_change _ _ _). Qed.

Lemma ring_keys_nonempty vs : ring_keys_ok gp vs -> vs <> [].
Proof. intros [H _] ->. by cbn in H. Qed.

Lemma entropy_transition_cases sv h pre_slot e : length e = 4%nat ->
  match entropy_transition blake2b_256_hash ietf_vrf_verify gp sv h pre_slot e with
  | Ret e' => length e' = 4%nat
  | Raise x => x = BlockValidationError Message
  end.
Proof.
  destruct e as [|e0 [|e1 [|e2 [|e3 [|]]]]]; try done. intros _. unfold entropy_transition. cbn [get_item py_index mbind outcome_bind].
  destruct (entropy_output ietf_vrf_verify sv h) as [o|x] eqn:E; cbn [mbind outcome_bind].
  - by destruct (is_epoch_change _ _ _).
  - unfold entropy_output in E. destruct (length _ =? 32)%nat; [done|]. destruct (author_bandersnatch_key h); [|done].
    case_bool_decide; [done|]. destruct (ietf_vrf_verify _ _ _ _); [done|]. by injection E as <-.
Qed.

Lemma set_author_cases header pool : 0 <= author_index header ->
  match set_author_bandersnatch_key header pool with
  | Ret h => timeslot h = timeslot (base header)
  | Raise x => x = BlockE BlockValidationErrorCode.invalid_author_key
  end.
Proof.
  intros Ha. unfold set_author_bandersnatch_key. destruct (Z.leb_spec (Z.of_nat (length pool)) (author_index header)); [done|].
  by destruct (get_item_total pool (author_index header)) as (v & -> & _); [lia|].
Qed.

Lemma set_author_ret header pool h : 0 <= author_index header ->
  set_author_bandersnatch_key header pool = Ret h -> timeslot h = timeslot (base header).
Proof. intros Ha Hset. pose proof (set_author_cases header pool Ha) as H. by rewrite Hset in H. Qed.

(** Attempts stay within a byte. *)
Lemma safrole_attempts h envelopes pre_slot pre queue entropy pool offenders out :
  safrole_spec new_ring_context ring_vrf_verify gp ring_data h envelopes pre_slot pre queue entropy pool offenders out ->
  (forall e, e ∈ envelopes -> 0 <= te_attempt e < 256) ->
  (forall t, t ∈ ticket_accumulator pre -> attempt_ok t) -> series_attempts_ok (slot_sealer_series pre) ->
  (forall t, t ∈ ticket_accumulator (post_state out) -> attempt_ok t) /\ series_attempts_ok (slot_sealer_series (post_state out)).
Proof.
  intros [_ _ Hser _ _ _ (ts & (_ & _ & Hf & _) & Hacc & _)] Henv Hpre Hs.
  assert (forall t, t ∈ ts -> attempt_ok t) as Hts.
  { intros t Ht. apply list_elem_of_lookup in Ht as [i Ht].
    destruct (Forall2_lookup_r _ _ _ _ _ Hf Ht) as (e & He & e2 & _ & ctx & entries & input & _ & _ & _ & _ & _ & Ha).
    unfold attempt_ok. rewrite Ha. apply Henv. by eapply list_elem_of_lookup_2. }
  split.
  - intros t Ht. rewrite Hacc in Ht. apply elem_of_take in Ht as (i & Ht & _).
    apply list_elem_of_lookup_2, elem_of_sorted_by, elem_of_app in Ht as [Ht|Ht]; [by apply Hts|].
    destruct (is_epoch_change _ _ _); [set_solver|by apply Hpre].
  - destruct (is_epoch_change _ _ _); [|by rewrite Hser]. destruct Hser as [_ Hfrom].
    destruct (slot_sealer_series (post_state out)); simpl in *; [|done]. intros t. rewrite Hfrom. apply Hpre.
Qed.

Lemma safrole_keys h envelopes pre_slot pre queue entropy pool offenders out :
  safrole_spec new_ring_context ring_vrf_verify gp ring_data h envelopes pre_slot pre queue entropy pool offenders out ->
  ring_keys_ok gp (validators pre) -> ring_keys_ok gp queue -> ring_keys_ok gp (validators (post_state out)).
Proof.
  intros [_ Hv _ _ _ _ _] Hpre Hq. rewrite Hv. destruct (is_epoch_change _ _ _); [by apply check_offenders_ok|done].
Qed.

(** What a successful import is made of. *)
Lemma import_ret header ed envelopes queue st st' :
  import header ed envelopes queue st = Ret st' ->
  exists h entropy disputes safrole seal_out entropy',
    let pool := validator_pool_transition gp (base header) (cs_timeslot st) (cs_pool st) (validators (cs_safrole st)) in
    validate_extrinsic_disputes ed_verify gp (cs_timeslot st) (cs_pool st) (cs_archive st) ed = Ret tt /\
    set_author_bandersnatch_key header pool = Ret h /\
    entropy_transition blake2b_256_hash ietf_vrf_verify gp (replicate 96 0) h (cs_timeslot st) (cs_entropy st) = Ret entropy /\
    Disputes.state_transition ed_verify ed (cs_disputes st) = Ret disputes /\
    Safrole.state_transition blake2b_256_hash new_ring_context commitment ring_vrf_verify gp ring_data
      SOLO_MODE USE_THREAD_POOL_SAFROLE completed h envelopes (cs_timeslot st) (cs_safrole st) queue entropy pool
      (offenders (Disputes.post_state disputes)) = Ret safrole /\
    validate_header_after_safrole ietf_vrf_verify unsigned_payload gp header entropy pool safrole disputes = Ret seal_out /\
    entropy_transition blake2b_256_hash ietf_vrf_verify gp seal_out h (cs_timeslot st) (cs_entropy st) = Ret entropy' /\
    st' = mkConsensusState (timeslot h) entropy' (Disputes.post_state disputes) pool
      (validator_archive_transition gp h (cs_timeslot st) (cs_archive st) (cs_pool st)) (post_state safrole).
Proof.
  unfold import_consensus. intros ([] & H1 & H)%bind_ret. apply bind_ret in H as (h & H2 & H).
  apply bind_ret in H as (entropy & H3 & H). apply bind_ret in H as (disputes & H4 & H).
  apply bind_ret in H as (safrole & H5 & H). apply bind_ret in H as (seal_out & H6 & H).
  apply bind_ret in H as (entropy' & H7 & H). injection H as <-.
  exists h, entropy, disputes, safrole, seal_out, entropy'. by split_and!.
Qed.

Lemma import_inv header ed envelopes queue st st' :
  consensus_inv st -> extrinsic_ok envelopes queue -> 0 <= author_index header ->
  import header ed envelopes queue st = Ret st' ->
  consensus_inv st' /\ cs_timeslot st < cs_timeslot st' /\ cs_timeslot st' = timeslot (base header).
Proof.
  intros Hi (Hc & He & Hq) Ha Himp. apply import_ret in Himp as (h & e & d & s & so & e' & _ & Hset & He1 & Hd & Hs & _ & He2 & ->).
  pose proof (Safrole.safrole_transition_ret _ _ _ _ _ _ _ _ _ _ _ _ _ _ _ _ _ _ Hgp Hc Hs) as Hspec.
  pose proof (set_author_ret _ _ _ Ha Hset) as Hh.
  pose proof (entropy_transition_cases so h (cs_timeslot st) _ (ci_entropy _ Hi)) as Hen. rewrite He2 in Hen.
  pose proof (Disputes.disputes_transition_ret _ _ _ _ Hd) as (_ & _ & Hdi).
  pose proof (safrole_attempts _ _ _ _ _ _ _ _ _ Hspec He (ci_accumulator _ Hi) (ci_series _ Hi)) as [Hat1 Hat2].
  split; [split; cbn|split; [|done]].
  - done.
  - apply Hdi, Hi.
  - by apply pool_transition_ok.
  - by apply archive_transition_ok.
  - eapply safrole_inv_run; [done|exact Hspec|apply Hi|apply Hq].
  - eapply safrole_keys; [exact Hspec|apply Hi|done].
  - done.
  - done.
  - apply Hspec.
Qed.

(** ** Exceptions *)

(** The application's errors, or the ring library refusing the validators' keys. *)
Definition app_error (e : state_exn) : Prop :=
  match e with
  | StateTransitionError _ | BlockValidationError _ => True
  | _ => expected new_ring_context gp ring_data e
  end.

Lemma get_item_in {A} (l : list A) i : 0 <= i < Z.of_nat (length l) -> exists x, get_item l i = Ret x /\ x ∈ l.
Proof. intros Hi. destruct (get_item_total l i Hi) as (x & -> & Hx). exists x. split; [done|]. by eapply list_elem_of_lookup_2. Qed.

Lemma validate_header_raises header e3 pool safrole disputes :
  length e3 = 4%nat -> 0 <= author_index header < Z.of_nat (length pool) ->
  series_ok gp (slot_sealer_series (post_state safrole)) -> series_attempts_ok (slot_sealer_series (post_state safrole)) ->
  raises app_error (validate_header_after_safrole ietf_vrf_verify unsigned_payload gp header e3 pool safrole disputes).
Proof.
  intros He Ha Hs Hat. unfold validate_header_after_safrole.
  repeat (match goal with |- raises _ (if ?c then Raise _ else _) => destruct c; [done|] end).
  destruct (get_item_in e3 3) as (e & -> & _); [lia|]. destruct (get_item_in pool _ Ha) as (v & -> & _). cbn [mbind outcome_bind].
  pose proof (gp_epoch _ Hgp) as HE. pose proof (Z.mod_pos_bound (timeslot (base header)) _ HE) as Hslot.
  destruct (slot_sealer_series _) as [ts|ks]; simpl in Hs, Hat.
  - destruct (get_item_in ts (timeslot (base header) mod EPOCH_TIMESLOTS gp)) as (t & -> & Ht); [lia|]. cbn [mbind outcome_bind].
    specialize (Hat t Ht). unfold verify_ticket_seal, vrf_input_ticket_seal.
    replace ((0 <=? tb_attempt t) && (tb_attempt t <? 256)) with true by (unfold attempt_ok in Hat; zcmp; simpl; lia).
    cbn [mbind outcome_bind]. destruct (ietf_vrf_verify _ _ _ _); cbn [mbind outcome_bind]; [by case_bool_decide|done].
  - destruct (get_item_in ks (timeslot (base header) mod EPOCH_TIMESLOTS gp)) as (k & -> & _); [lia|]. cbn [mbind outcome_bind].
    case_bool_decide; [|done]. unfold verify_fallback_seal. by destruct (ietf_vrf_verify _ _ _ _).
Qed.

Lemma raises_mono {E A} (P Q : E -> Prop) (m : outcome E A) : raises P m -> (forall e, P e -> Q e) -> raises Q m.
Proof. destruct m; simpl; auto. Qed.

Lemma raises_bind_ret {E A B} (P : E -> Prop) (m : outcome E A) (k : A -> outcome E B) :
  raises P m -> (forall a, m = Ret a -> raises P (k a)) -> raises P (m ≫= k).
Proof. destruct m; simpl; auto. Qed.

Lemma expected_app e : expected new_ring_context gp ring_data e -> app_error e.
Proof. intros [(c & ->)|(-> & H)]; [done|]. by right. Qed.

Lemma import_raises header ed envelopes queue st :
  consensus_inv st -> extrinsic_ok envelopes queue -> 0 <= author_index header ->
  raises app_error (import header ed envelopes queue st).
Proof.
  intros Hi (Hc & He & Hq) Ha. unfold import_consensus.
  set (pool := validator_pool_transition _ _ _ _ _).
  pose proof (pool_transition_ok (base header) st Hi : ring_keys_ok gp pool) as Hpool.
  apply raises_bind.
  { pose proof (validate_run ed_verify gp (cs_timeslot st) (cs_pool st) (cs_archive st) ed) as H.
    destruct (validate_extrinsic_disputes _ _ _ _ _ _); [done|]. by destruct H as (_ & c & -> & _). }
  intros _. apply raises_bind_ret.
  { pose proof (set_author_cases header pool Ha) as H. destruct (set_author_bandersnatch_key _ _); [done|]. by subst. }
  intros h Hset. apply raises_bind_ret.
  { pose proof (entropy_transition_cases (replicate 96 0) h (cs_timeslot st) _ (ci_entropy _ Hi)) as H.
    destruct (entropy_transition _ _ _ _ _ _ _); [done|]. by subst. }
  intros e Hen. pose proof (entropy_transition_cases (replicate 96 0) h (cs_timeslot st) _ (ci_entropy _ Hi)) as Hel. rewrite Hen in Hel.
  apply raises_bind.
  { destruct (Disputes.state_transition _ _ _) eqn:Ed; [done|]. by apply Disputes.disputes_transition_raise in Ed as (c & -> & _). }
  intros d. apply raises_bind_ret.
  { eapply raises_mono; [|apply expected_app]. apply transition_raises; try done; [by apply ring_keys_nonempty|apply Hi]. }
  intros s Hs. pose proof (Safrole.safrole_transition_ret _ _ _ _ _ _ _ _ _ _ _ _ _ _ _ _ _ _ Hgp Hc Hs) as Hspec.
  apply raises_bind.
  { apply validate_header_raises; [done| |eapply si_series, safrole_inv_run; [done|exact Hspec|apply Hi|apply Hq]|].
    - unfold set_author_bandersnatch_key in Hset. destruct (Z.leb_spec (Z.of_nat (length pool)) (author_index header)); [done|lia].
    - by eapply safrole_attempts in Hspec as [_ ?]; [|done|apply Hi|apply Hi]. }
  intros so. apply raises_bind; [|done].
  pose proof (entropy_transition_cases so h (cs_timeslot st) _ (ci_entropy _ Hi)) as H.
  revert H. destruct (entropy_transition _ _ _ so _ _ _) as [r|x]; [intros _; exact I|intros ->; exact I].
Qed.

(** ** The seal *)

(** The right to seal a slot: the ticket of the slot proved by the seal, or the slot's key. *)
Definition seals (header : BlockHeader) (key entropy : bytes) (s : SlotSealerSeries) : Prop :=
  let slot := Z.to_nat (timeslot (base header) mod EPOCH_TIMESLOTS gp) in
  match s with
  | SealTickets ts => exists t input, ts !! slot = Some t /\ vrf_input_ticket_seal entropy (tb_attempt t) = Ret input /\
      ietf_vrf_verify key input (unsigned_payload header) (seal header) = Some (tb_id t)
  | SealKeys ks => ks !! slot = Some key /\ exists output,
      ietf_vrf_verify key (vrf_input_fallback_seal entropy) (unsigned_payload header) (seal header) = Some output
  end.

Lemma get_item_lookup {A} (l : list A) i x : 0 <= i -> get_item l i = Ret x -> l !! Z.to_nat i = Some x.
Proof. intros Hi. unfold get_item. rewrite py_index_nonneg by done. destruct (l !! Z.to_nat i); congruence. Qed.

Lemma validate_header_ret header e3 pool safrole disputes so : 0 <= author_index header ->
  validate_header_after_safrole ietf_vrf_verify unsigned_payload gp header e3 pool safrole disputes = Ret so ->
  tickets_marker header = tickets_mark safrole /\ epoch_marker header = epoch_mark safrole /\
  offenders_marker header = offenders_mark disputes /\
  exists v e, pool !! Z.to_nat (author_index header) = Some v /\ e3 !! 3%nat = Some e /\
    seals header (bandersnatch v) e (slot_sealer_series (post_state safrole)).
Proof.
  intros Ha. unfold validate_header_after_safrole.
  case_bool_decide as H1; [|done]. destruct (validator_count_ok _); [|done].
  case_bool_decide as H2; [|done]. case_bool_decide as H3; [|done]. cbn [negb].
  intros (e & He & H)%bind_ret. apply bind_ret in H as (v & Hv & H).
  split_and!; [done..|]. exists v, e. split_and!; [by apply get_item_lookup|by apply (get_item_lookup e3 3) in He|].
  pose proof (Z.mod_pos_bound (timeslot (base header)) _ (gp_epoch _ Hgp)) as Hslot. unfold seals.
  destruct (slot_sealer_series _) as [ts|ks].
  - apply bind_ret in H as (t & Ht & H). apply get_item_lookup in Ht; [|lia].
    apply bind_ret in H as (o & Ho & H). case_bool_decide; [|done]. subst.
    unfold verify_ticket_seal in Ho. apply bind_ret in Ho as (input & Hin & Ho). exists t, input.
    destruct (ietf_vrf_verify _ _ _ _); [|done]. by simplify_eq.
  - apply bind_ret in H as (k & Hk & H). apply get_item_lookup in Hk; [|lia]. case_bool_decide; [|done]. subst.
    split; [done|]. unfold verify_fallback_seal in H. destruct (ietf_vrf_verify _ _ _ _) as [o|]; [|done]. by exists o.
Qed.

(** The entries after the first do not depend on the block's output. *)
Lemma entropy_tail sv sv' h pre_slot e r r' : length e = 4%nat ->
  entropy_transition blake2b_256_hash ietf_vrf_verify gp sv h pre_slot e = Ret r ->
  entropy_transition blake2b_256_hash ietf_vrf_verify gp sv' h pre_slot e = Ret r' -> r !! 3%nat = r' !! 3%nat.
Proof.
  destruct e as [|e0 [|e1 [|e2 [|e3 [|]]]]]; try done. intros _. unfold entropy_transition. cbn [get_item py_index mbind outcome_bind].
  destruct (entropy_output _ sv _), (entropy_output _ sv' _); cbn [mbind outcome_bind]; [|done..].
  by destruct (is_epoch_change _ _ _); intros [= <-] [= <-].
Qed.

Lemma import_seal header ed envelopes queue st st' :
  consensus_inv st -> extrinsic_ok envelopes queue -> 0 <= author_index header ->
  import header ed envelopes queue st = Ret st' ->
  exists v e, cs_pool st' !! Z.to_nat (author_index header) = Some v /\ cs_entropy st' !! 3%nat = Some e /\
    seals header (bandersnatch v) e (slot_sealer_series (cs_safrole st')).
Proof.
  intros Hi _ Ha Himp. apply import_ret in Himp as (h & e & d & s & so & e' & _ & _ & He1 & _ & _ & Hv & He2 & ->).
  apply validate_header_ret in Hv as (_ & _ & _ & v & e3 & Hpool & He3 & Hs); [|done].
  exists v, e3. cbn. split_and!; [done| |done]. by rewrite <- (entropy_tail _ _ _ _ _ _ _ (ci_entropy _ Hi) He1 He2).
Qed.
End invariant.

(** ** Theorems *)

Section theorems.
Context (blake2b_256_hash : bytes -> bytes).
Context {RingContext : Type} (new_ring_context : bytes -> list bytes -> Z -> option RingContext).
Context (commitment : RingContext -> bytes).
Context (ring_vrf_verify : RingContext -> bytes -> bytes -> bytes -> option bytes).
Context (ietf_vrf_verify : bytes -> bytes -> bytes -> bytes -> option bytes).
Context (ed_verify : bytes -> bytes -> bytes -> bool).
Context (unsigned_payload : BlockHeader -> bytes).
Context (gp : GpConstants) (ring_data : bytes) (SOLO_MODE USE_THREAD_POOL_SAFROLE : bool) (completed : list nat).

Abbreviation import := (import_consensus blake2b_256_hash new_ring_context commitment ring_vrf_verify ietf_vrf_verify
  ed_verify unsigned_payload gp ring_data SOLO_MODE USE_THREAD_POOL_SAFROLE completed).

(** Composition: importing a block keeps the invariant of the consensus state as a whole
    (four entropy entries, disjoint sorted dispute sets, validator sets of an admitted size
    with usable keys, a sorted contest, a seal for every slot), and the slot advances to
    the block's. *)
Theorem consensus_invariant header ed envelopes queue st st' :
  gp_ok gp -> consensus_inv gp st -> extrinsic_ok gp completed envelopes queue -> 0 <= author_index header ->
  import header ed envelopes queue st = Ret st' ->
  consensus_inv gp st' /\ cs_timeslot st < cs_timeslot st' /\ cs_timeslot st' = timeslot (base header).
Proof. intros Hgp Hi Hx Ha Himp. by eapply import_inv. Qed.

(** C24: Composition: from a state with the invariant, importing any block returns or raises one
    of the application's two errors (or reports that the ring library refused the
    validators' keys): no index, division or encoding error escapes. *)
Theorem consensus_errors header ed envelopes queue st :
  gp_ok gp -> consensus_inv gp st -> extrinsic_ok gp completed envelopes queue -> 0 <= author_index header ->
  raises (app_error new_ring_context gp ring_data) (import header ed envelopes queue st).
Proof. intros. by apply import_raises. Qed.

(** Only the holder of a slot authors its block: the seal of an imported block verifies
    under the author's key, over the entropy of two epochs ago, and proves the winning
    ticket of the slot or is made with the slot's fallback key. *)
Theorem consensus_seal header ed envelopes queue st st' :
  gp_ok gp -> consensus_inv gp st -> extrinsic_ok gp completed envelopes queue -> 0 <= author_index header ->
  import header ed envelopes queue st = Ret st' ->
  exists v e, cs_pool st' !! Z.to_nat (author_index header) = Some v /\ cs_entropy st' !! 3%nat = Some e /\
    seals ietf_vrf_verify unsigned_payload gp header (bandersnatch v) e (slot_sealer_series (cs_safrole st')).
Proof. intros Hgp Hi Hx Ha Himp. by eapply import_seal. Qed.
End theorems.
