(* ===== verification/Queue.v ===== *)
(** * The accumulation queue

    [accumulation.py]: the dependencies of work reports, the editing of a queue and the
    priority queue; the [AccumulationQueue] and [AccumulationHistory] components of
    [state/components.py]; and the parts of [BlockContext] ([models/context.py]) that choose
    the reports a block accumulates and their statistics.

    [priority_queue] recurses on the edited queue until no report is free of dependencies.
    [priority_queue_order] shows that it lists exactly the reports whose dependencies can be
    met, each after all it depends on; [queue_transition_spec] that the queue is a ring of one
    entry per slot of an epoch; [queue_block_correct] that queue and history together never let
    a report be accumulated twice; and [accumulation_order] that in every chain of blocks a
    report is accumulated after its dependencies. The number of reports the services accumulate
    in a block is left open. *)

From Stdlib Require Import ZArith Lia Bool List.
From stdpp Require Import base numbers option list sets gmap.
From S2P Require Import Prelude ByteOrder Graypaper StateBase Reports Shuffle.
Import ListNotations.

#[local] Open Scope Z_scope.

(** ** Data *)

Record AccumulationQueueWorkPackage : Type := mkQueueItem {
  qi_report : WorkReport;
  qi_dependencies : list bytes
}.

Definition qi_hash (i : AccumulationQueueWorkPackage) : bytes := wr_package_hash (qi_report i).

(** [sorted(l)] and [sorted(set(l))] on bytes. *)
Definition sorted_bytes (l : list bytes) : list bytes := sorted_by id l.
Definition sorted_set (l : list bytes) : list bytes := sorted_bytes (remove_dups l).

(** ** [accumulation.py] *)

Definition work_report_dependencies (w : WorkReport) : AccumulationQueueWorkPackage :=
  mkQueueItem w (sorted_bytes (wr_prerequisites w ++ map fst (wr_segment_root_lookup w))).

Definition edit_item (accumulated : list bytes) (i : AccumulationQueueWorkPackage) : AccumulationQueueWorkPackage :=
  mkQueueItem (qi_report i) (sorted_set (filter (fun d => d ∉ accumulated) (qi_dependencies i))).

Definition edit_queue (queue : list AccumulationQueueWorkPackage) (accumulated : list bytes) : list AccumulationQueueWorkPackage :=
  map (edit_item accumulated) (filter (fun i => qi_hash i ∉ accumulated) queue).

(** A set: only membership is used. *)
Definition work_report_mapping (reports : list WorkReport) : list bytes := map wr_package_hash reports.

(** The reports free of dependencies. *)
Definition free_reports (queue : list AccumulationQueueWorkPackage) : list WorkReport :=
  map qi_report (filter (fun i => qi_dependencies i = []) queue).

(** The recursion ends when no report is free; [None] is running out of fuel. *)
Fixpoint priority_queue_rec (fuel : nat) (queue : list AccumulationQueueWorkPackage) : option (list WorkReport) :=
  match free_reports queue with
  | [] => Some []
  | (_ :: _) as g =>
      match fuel with
      | O => None
      | S fuel =>
          rest ← priority_queue_rec fuel (edit_queue queue (work_report_mapping g));
          Some (g ++ rest)
      end
  end.

(** Every round removes the free reports, so the length of the queue bounds the rounds
    ([priority_queue_rec_total]).  A round is a frame of Python's stack: the definition holds for
    queues whose longest chain of dependencies fits into it; a longer one is a [RecursionError]. *)
Definition priority_queue (queue : list AccumulationQueueWorkPackage) : option (list WorkReport) :=
  priority_queue_rec (length queue) queue.

(** ** [BlockContext] *)

Definition no_dependencies (w : WorkReport) : bool :=
  (length (wr_prerequisites w) =? 0)%nat && (length (wr_segment_root_lookup w) =? 0)%nat.

Definition ready_work_reports (available : list WorkReport) : list WorkReport :=
  List.filter no_dependencies available.

Definition queued_work_reports (available : list WorkReport) (history : list (list bytes)) : list AccumulationQueueWorkPackage :=
  edit_queue (map work_report_dependencies (List.filter (fun w => negb (no_dependencies w)) available)) (flatten_list history).

Section block.
Context (gp : GpConstants).

(** [l[i:]] and [l[:i]] for [0 <= i]. *)
Definition accumulatable_work_reports (slot : Z) (queue : list (list AccumulationQueueWorkPackage))
    (ready : list WorkReport) (queued : list AccumulationQueueWorkPackage) : option (list WorkReport) :=
  let m := Z.to_nat (slot mod EPOCH_TIMESLOTS gp) in
  let q := edit_queue (flatten_list (drop m queue) ++ flatten_list (take m queue) ++ queued) (work_report_mapping ready) in
  rest ← priority_queue q;
  Some (ready ++ rest).

(** ** [AccumulationHistory] *)

(** [l[:n]]; a negative [n] would count from the end, and the number of results is not. *)
Definition history_transition (accumulatable : list WorkReport) (pre : list (list bytes)) (n : Z) : list (list bytes) :=
  drop 1 pre ++ [sorted_set (work_report_mapping (take (Z.to_nat n) accumulatable))].

(** ** [AccumulationQueue] *)

(** Round [i] of the loop writes the entry [m - i]. *)
Definition queue_round (queued : list AccumulationQueueWorkPackage) (pre : list (list AccumulationQueueWorkPackage))
    (last : list bytes) (pre_slot post_slot : Z) (i : Z) (acc : list (list AccumulationQueueWorkPackage))
    : outcome state_exn (list (list AccumulationQueueWorkPackage)) :=
  let m := post_slot mod EPOCH_TIMESLOTS gp in
  entry ←
    (if i =? 0 then Ret (edit_queue queued last)
     else if (1 <=? i) && (i <? post_slot - pre_slot) then Ret []
     else
       old ← get_item pre (m - i);
       Ret (edit_queue old last));
  match py_set acc (m - i) entry with Some acc => Ret acc | None => Raise IndexError end.

Fixpoint queue_rounds (queued : list AccumulationQueueWorkPackage) (pre : list (list AccumulationQueueWorkPackage))
    (last : list bytes) (pre_slot post_slot : Z) (rounds : list Z) (acc : list (list AccumulationQueueWorkPackage))
    : outcome state_exn (list (list AccumulationQueueWorkPackage)) :=
  match rounds with
  | [] => Ret acc
  | i :: rounds =>
      acc ← queue_round queued pre last pre_slot post_slot i acc;
      queue_rounds queued pre last pre_slot post_slot rounds acc
  end.

Definition queue_transition (queued : list AccumulationQueueWorkPackage) (pre : list (list AccumulationQueueWorkPackage))
    (history : list (list bytes)) (pre_slot post_slot : Z) : outcome state_exn (list (list AccumulationQueueWorkPackage)) :=
  last ← get_item history (EPOCH_TIMESLOTS gp - 1);
  queue_rounds queued pre last pre_slot post_slot (py_range 0 (EPOCH_TIMESLOTS gp))
    (replicate (Z.to_nat (EPOCH_TIMESLOTS gp)) []).
End block.

(** ** Statistics *)

Record AccumulationStatistic : Type := mkAccumulationStatistic {
  total_gas_utilized : Z;
  nr_work_reports_accumulated : Z;
  nr_transfers_accumulated : Z
}.

(** [d[k] = d.get(k, 0) + 1] *)
Definition bump (k : Z) (d : gmap Z Z) : gmap Z Z := <[k := default 0 (d !! k) + 1]> d.

Definition digests_per_service (reports : list WorkReport) : gmap Z Z :=
  fold_left (fun d w => fold_left (fun d r => bump (wd_service_id r) d) (wr_results w) d) reports ∅.

Definition transfers_per_service (receivers : list Z) : gmap Z Z := fold_left (fun d s => bump s d) receivers ∅.

(** The services with gas, digests or transfers; the gas dictionary is the one of the
    accumulation, [receivers] the destinations of the processed transfers. *)
Definition accumulation_statistics (gas : gmap Z Z) (accumulatable : list WorkReport) (n : Z) (receivers : list Z)
    : gmap Z AccumulationStatistic :=
  let digests := digests_per_service (take (Z.to_nat n) accumulatable) in
  let transfers := transfers_per_service receivers in
  fold_left (fun stats s =>
    let u := default 0 (gas !! s) in
    if 0 <? default 0 (digests !! s) + default 0 (transfers !! s) + u
    then <[s := mkAccumulationStatistic u (default 0 (digests !! s)) (default 0 (transfers !! s))]> stats
    else stats)
  (elements (dom gas ∪ dom digests ∪ dom transfers)) ∅.

(** ** A block's accumulation, without the services

    The steps of the block import that choose the reports and update queue and history; [n]
    is the number of reports the services accumulated. *)

Record QueueState : Type := mkQueueState {
  qs_queue : list (list AccumulationQueueWorkPackage);
  qs_history : list (list bytes)
}.

Definition queue_block (gp : GpConstants) (available : list WorkReport) (n pre_slot post_slot : Z) (s : QueueState)
    : outcome state_exn (list WorkReport * QueueState) :=
  let ready := ready_work_reports available in
  let queued := queued_work_reports available (qs_history s) in
  match accumulatable_work_reports gp post_slot (qs_queue s) ready queued with
  | None => Raise ValueError
  | Some accumulatable =>
      let history := history_transition accumulatable (qs_history s) n in
      (queue ← queue_transition gp queued (qs_queue s) history pre_slot post_slot;
       Ret (accumulatable, mkQueueState queue history))
  end.

(** ** Editing *)

Lemma elem_of_sorted_set x l : x ∈ sorted_set l <-> x ∈ l.
Proof. unfold sorted_set, sorted_bytes. by rewrite elem_of_sorted_by, elem_of_remove_dups. Qed.

Lemma elem_of_edit_queue i q acc :
  i ∈ edit_queue q acc <-> exists j, j ∈ q /\ (qi_hash j ∉ acc) /\ i = edit_item acc j.
Proof.
  unfold edit_queue. rewrite list_elem_of_fmap. setoid_rewrite list_elem_of_filter. naive_solver.
Qed.

Lemma edit_dependencies d acc i : d ∈ qi_dependencies (edit_item acc i) <-> d ∈ qi_dependencies i /\ (d ∉ acc).
Proof. unfold edit_item. simpl. rewrite elem_of_sorted_set, list_elem_of_filter. tauto. Qed.

Lemma edit_hashes q acc : map qi_hash (edit_queue q acc) = map qi_hash (filter (fun i => qi_hash i ∉ acc) q).
Proof. unfold edit_queue. rewrite map_map. apply map_ext. done. Qed.

Lemma length_edit_le q acc : (length (edit_queue q acc) <= length q)%nat.
Proof. unfold edit_queue. rewrite length_map. apply length_filter. Qed.

Lemma elem_of_free w q : w ∈ free_reports q <-> exists i, i ∈ q /\ qi_dependencies i = [] /\ qi_report i = w.
Proof. unfold free_reports. rewrite list_elem_of_fmap. setoid_rewrite list_elem_of_filter. naive_solver. Qed.

Lemma edit_free_shorter q : free_reports q <> [] ->
  (length (edit_queue q (work_report_mapping (free_reports q))) < length q)%nat.
Proof.
  intros Hg. destruct (free_reports q) as [|w g] eqn:E; [done|].
  assert (w ∈ free_reports q) as Hw by (rewrite E; set_solver). apply elem_of_free in Hw as (i & Hi & _ & Hr).
  unfold edit_queue. rewrite length_map. apply length_filter_lt with i; [done|].
  intros Hn. apply Hn. unfold work_report_mapping. simpl. rewrite <- Hr. set_solver.
Qed.

(** ** The priority queue *)

Lemma priority_queue_rec_eq fuel q : priority_queue_rec fuel q =
  match free_reports q with
  | [] => Some []
  | w :: g => match fuel with
              | O => None
              | S fuel =>
                  rest ← priority_queue_rec fuel (edit_queue q (work_report_mapping (w :: g)));
                  Some ((w :: g) ++ rest)
              end
  end.
Proof. by destruct fuel. Qed.

Lemma priority_queue_rec_total fuel : forall q, (length q <= fuel)%nat -> exists out, priority_queue_rec fuel q = Some out.
Proof.
  induction fuel as [|fuel IH]; intros q Hl; rewrite priority_queue_rec_eq.
  - apply Nat.le_0_r, nil_length_inv in Hl as ->. by exists [].
  - destruct (free_reports q) as [|w g] eqn:E; [by exists []|].
    destruct (IH (edit_queue q (work_report_mapping (w :: g)))) as (rest & ->); [|by eexists].
    pose proof (edit_free_shorter q) as Hs. rewrite E in Hs. specialize (Hs ltac:(done)). lia.
Qed.

(** What a list of reports promises of the queue it came from: distinct reports of the queue,
    each after all its dependencies, and none left that could follow. *)
Record scheduled (q : list AccumulationQueueWorkPackage) (out : list WorkReport) : Prop := mkScheduled {
  sch_distinct : NoDup (work_report_mapping out);
  sch_from : forall w, w ∈ out -> exists i, i ∈ q /\ qi_report i = w;
  sch_order : forall l1 w l2, out = l1 ++ w :: l2 -> forall i, i ∈ q -> qi_report i = w ->
    forall d, d ∈ qi_dependencies i -> d ∈ work_report_mapping l1;
  sch_maximal : forall i, i ∈ q -> (forall d, d ∈ qi_dependencies i -> d ∈ work_report_mapping out) -> qi_report i ∈ out
}.

Lemma same_hash_same_item q i j : NoDup (map qi_hash q) -> i ∈ q -> j ∈ q -> qi_hash i = qi_hash j -> i = j.
Proof.
  induction q as [|k q IH]; simpl; [set_solver|]. intros [Hk Hnd]%NoDup_cons Hi Hj Hh.
  apply elem_of_cons in Hi as [->|Hi], Hj as [->|Hj]; [done| | |by apply IH].
  - exfalso. apply Hk. rewrite Hh. by apply list_elem_of_fmap_2.
  - exfalso. apply Hk. rewrite <- Hh. by apply list_elem_of_fmap_2.
Qed.

Lemma NoDup_map_filter {A B} (f : A -> B) (P : A -> Prop) `{!forall x, Decision (P x)} l :
  NoDup (map f l) -> NoDup (map f (filter P l)).
Proof.
  induction l as [|x l IH]; simpl; [done|]. intros [Hx Hnd]%NoDup_cons. rewrite filter_cons. case_decide; [|by apply IH].
  simpl. apply NoDup_cons. split; [|by apply IH]. intros (y & Hy & Hin)%list_elem_of_fmap. apply Hx. rewrite Hy.
  apply list_elem_of_fmap_2. by apply list_elem_of_filter in Hin as [_ ?].
Qed.

(** One round: the free reports, then the schedule of the edited queue. *)
Lemma scheduled_round q rest :
  NoDup (map qi_hash q) ->
  scheduled (edit_queue q (work_report_mapping (free_reports q))) rest ->
  scheduled q (free_reports q ++ rest).
Proof.
  set (g := free_reports q). set (q' := edit_queue q (work_report_mapping g)). intros Hnd [h1 h2 h3 h4].
  assert (forall w, w ∈ rest -> wr_package_hash w ∉ work_report_mapping g) as Hdis.
  { intros w Hw. destruct (h2 w Hw) as (i' & Hi' & <-). apply elem_of_edit_queue in Hi' as (i & _ & Hn & ->). done. }
  assert (forall i, i ∈ q -> qi_hash i ∈ work_report_mapping g -> qi_dependencies i = [] /\ qi_report i ∈ g) as Hfree.
  { intros i Hi (w & Hw & Hin)%list_elem_of_fmap. apply elem_of_free in Hin as (j & Hj & Hd & <-).
    assert (i = j) as -> by by apply (same_hash_same_item q). split; [done|]. apply elem_of_free. by exists j. }
  split.
  - unfold work_report_mapping. rewrite map_app. apply NoDup_app. split_and!; [| |exact h1].
    + unfold g, free_reports. rewrite map_map. by apply NoDup_map_filter.
    + intros h Hh (w & -> & Hw)%list_elem_of_fmap. by apply (Hdis w Hw).
  - intros w [Hw|Hw]%elem_of_app; [apply elem_of_free in Hw; naive_solver|].
    destruct (h2 w Hw) as (i' & Hi' & <-). apply elem_of_edit_queue in Hi' as (i & ? & _ & ->). by exists i.
  - intros l1 w l2 Hout i Hi Hr d Hd.
    destruct (decide (qi_hash i ∈ work_report_mapping g)) as [Hw|Hw].
    { destruct (Hfree i Hi Hw) as [He _]. rewrite He in Hd. set_solver. }
    assert (exists l1', l1 = g ++ l1' /\ rest = l1' ++ w :: l2) as (l1' & -> & Hrest).
    { apply app_eq_app in Hout as (k & [[Hg Hk]|[Hl Hk]]); [|by exists k].
      destruct k as [|x k]; simplify_list_eq; [exists []; by rewrite app_nil_r|]. exfalso. apply Hw.
      change (qi_hash i) with (wr_package_hash (qi_report i)). apply list_elem_of_fmap_2. rewrite Hg. set_solver. }
    unfold work_report_mapping. rewrite map_app, elem_of_app.
    destruct (decide (d ∈ work_report_mapping g)) as [|Hdn]; [by left|right].
    apply (h3 l1' w l2 Hrest (edit_item (work_report_mapping g) i)).
    + apply elem_of_edit_queue. by exists i.
    + done.
    + by apply edit_dependencies.
  - intros i Hi Hdeps. apply elem_of_app. destruct (decide (qi_hash i ∈ work_report_mapping g)) as [Hg|Hg].
    { left. by apply Hfree. }
    right. apply (h4 (edit_item (work_report_mapping g) i)).
    + apply elem_of_edit_queue. by exists i.
    + intros d [Hd Hdn]%edit_dependencies. specialize (Hdeps d Hd). unfold work_report_mapping in Hdeps, Hdn.
      rewrite map_app, elem_of_app in Hdeps. naive_solver.
Qed.

Lemma priority_queue_rec_scheduled fuel : forall q out, NoDup (map qi_hash q) ->
  priority_queue_rec fuel q = Some out -> scheduled q out.
Proof.
  induction fuel as [|fuel IH]; intros q out Hnd; rewrite priority_queue_rec_eq; destruct (free_reports q) as [|w g] eqn:E; try done.
  1, 2: intros [= <-]; split; [constructor|set_solver|by intros []|];
    intros i Hi Hd; exfalso; assert (qi_report i ∈ free_reports q) as Hf; [|rewrite E in Hf; set_solver];
    apply elem_of_free; exists i; split_and!; [done| |done];
    destruct (qi_dependencies i) as [|d ds]; [done|]; specialize (Hd d); set_solver.
  destruct (priority_queue_rec fuel _) as [rest|] eqn:Er; simpl; [|done]. intros [= <-].
  rewrite app_comm_cons, <- E. apply scheduled_round; [done|]. rewrite E. apply IH; [|done].
  rewrite edit_hashes. by apply NoDup_map_filter.
Qed.

(** Without distinct hashes, the reports still come from the queue. *)
Lemma priority_queue_rec_from fuel : forall q out w, priority_queue_rec fuel q = Some out -> w ∈ out ->
  exists i, i ∈ q /\ qi_report i = w.
Proof.
  induction fuel as [|fuel IH]; intros q out w; rewrite priority_queue_rec_eq; destruct (free_reports q) as [|v g] eqn:E; try done.
  1, 2: intros [= <-]; set_solver.
  destruct (priority_queue_rec fuel _) as [rest|] eqn:Er; simpl; [|done]. intros [= <-] Hw.
  rewrite app_comm_cons, <- E in Hw. apply elem_of_app in Hw as [Hw|Hw]; [apply elem_of_free in Hw; naive_solver|].
  destruct (IH _ _ _ Er Hw) as (i' & Hi' & <-). apply elem_of_edit_queue in Hi' as (i & ? & _ & ->). by exists i.
Qed.

(** ** The queue as a ring

    Round [i] writes entry [m - i], for [i > m] an index from the end: the entries are a ring,
    and every one of them is written once. *)

(** The entry of the queue whose age, the number of slots since it was the current one, is
    the argument. *)
Definition aged_entry (queued old : list AccumulationQueueWorkPackage) (last : list bytes) (slots age : Z)
    : list AccumulationQueueWorkPackage :=
  if age =? 0 then edit_queue queued last
  else if age <? slots then []
  else edit_queue old last.

Section ring.
Context (gp : GpConstants) (Hgp : gp_ok gp).
#[local] Abbreviation E := (EPOCH_TIMESLOTS gp).

Lemma ring_index {A} (l : list A) m i : Z.of_nat (length l) = E -> 0 <= m < E -> 0 <= i < E ->
  py_index l (m - i) = l !! Z.to_nat ((m - i) mod E).
Proof.
  intros Hl Hm Hi. unfold py_index. rewrite Hl. destruct (Z.leb_spec 0 (m - i)); simpl.
  - rewrite (proj2 (Z.ltb_lt _ _)), Z.mod_small by lia. done.
  - rewrite (proj2 (Z.leb_le (- E) _)), (proj2 (Z.ltb_lt _ 0)) by lia. simpl. repeat f_equal.
    rewrite <- (Z_mod_plus_full _ 1), Z.mod_small by lia. lia.
Qed.

Lemma ring_set {A} (l : list A) m i x : Z.of_nat (length l) = E -> 0 <= m < E -> 0 <= i < E ->
  py_set l (m - i) x = Some (<[Z.to_nat ((m - i) mod E) := x]> l).
Proof.
  intros Hl Hm Hi. unfold py_set. rewrite Hl. destruct (Z.leb_spec 0 (m - i)); simpl.
  - rewrite (proj2 (Z.ltb_lt _ _)), Z.mod_small by lia. done.
  - rewrite (proj2 (Z.leb_le (- E) _)), (proj2 (Z.ltb_lt _ 0)) by lia. simpl. do 3 f_equal.
    rewrite <- (Z_mod_plus_full (m - i) 1), Z.mod_small by lia. lia.
Qed.

(** Position and age are the same distance. *)
Lemma age_position m i j : 0 <= i < E -> 0 <= j < E -> (m - i) mod E = j <-> (m - j) mod E = i.
Proof.
  intros Hi Hj. split; intros <-.
  - rewrite Zminus_mod_idemp_r, Z.sub_sub_distr, Z.sub_diag, Z.add_0_l. by apply Z.mod_small.
  - rewrite Zminus_mod_idemp_r, Z.sub_sub_distr, Z.sub_diag, Z.add_0_l. by apply Z.mod_small.
Qed.

Context (queued : list AccumulationQueueWorkPackage) (pre : list (list AccumulationQueueWorkPackage)).
Context (last : list bytes) (pre_slot post_slot : Z).
Context (Hpre : Z.of_nat (length pre) = E).
#[local] Abbreviation m := (post_slot mod E).

Lemma queue_round_run i acc : 0 <= i < E -> Z.of_nat (length acc) = E ->
  queue_round gp queued pre last pre_slot post_slot i acc =
  Ret (<[Z.to_nat ((m - i) mod E) :=
          aged_entry queued (default [] (pre !! Z.to_nat ((m - i) mod E))) last (post_slot - pre_slot) i]> acc).
Proof.
  intros Hi Hacc. pose proof (Z.mod_pos_bound post_slot E (gp_epoch _ Hgp)) as Hm.
  unfold queue_round, aged_entry. destruct (Z.eqb_spec i 0) as [Hz|Hz]; [simpl; by rewrite ring_set|].
  rewrite (proj2 (Z.leb_le 1 i)) by lia. simpl. destruct (i <? _); simpl; [by rewrite ring_set|].
  unfold get_item. rewrite ring_index by done.
  pose proof (Z.mod_pos_bound (m - i) E (gp_epoch _ Hgp)).
  destruct (lookup_lt_is_Some_2 pre (Z.to_nat ((m - i) mod E))) as (old & Ho); [lia|].
  rewrite Ho. simpl. by rewrite ring_set.
Qed.

Lemma queue_rounds_run n : forall k acc, 0 <= k -> k + Z.of_nat n = E -> Z.of_nat (length acc) = E ->
  exists post, queue_rounds gp queued pre last pre_slot post_slot (py_range k E) acc = Ret post /\
    Z.of_nat (length post) = E /\
    forall j, 0 <= j < E ->
      post !! Z.to_nat j = if (m - j) mod E <? k then acc !! Z.to_nat j
        else Some (aged_entry queued (default [] (pre !! Z.to_nat j)) last (post_slot - pre_slot) ((m - j) mod E)).
Proof.
  induction n as [|n IH]; intros k acc Hk Hn Hacc.
  - exists acc. rewrite py_range_nil by lia. split_and!; [done..|]. intros j Hj.
    pose proof (Z.mod_pos_bound (m - j) E (gp_epoch _ Hgp)). by rewrite (proj2 (Z.ltb_lt _ k)) by lia.
  - rewrite py_range_cons by lia. simpl. rewrite queue_round_run by (done || lia). simpl.
    destruct (IH (k + 1) (<[Z.to_nat ((m - k) mod E) :=
        aged_entry queued (default [] (pre !! Z.to_nat ((m - k) mod E))) last (post_slot - pre_slot) k]> acc))
      as (post & -> & Hlen & Hpost); [lia..| |].
    { by rewrite length_insert. }
    exists post. split_and!; [done..|]. intros j Hj. rewrite Hpost by done.
    pose proof (Z.mod_pos_bound (m - j) E (gp_epoch _ Hgp)) as Hb.
    pose proof (Z.mod_pos_bound (m - k) E (gp_epoch _ Hgp)) as Hbk.
    pose proof (age_position m k j ltac:(lia) Hj) as Hage.
    destruct (Z.ltb_spec ((m - j) mod E) k), (Z.ltb_spec ((m - j) mod E) (k + 1)); try lia.
    + rewrite list_lookup_insert_ne; [done|]. intros Hq. apply Z2Nat.inj in Hq; [|lia..]. apply Hage in Hq. lia.
    + assert ((m - j) mod E = k) as Hk' by lia. rewrite Hk'. apply Hage in Hk'. rewrite Hk'.
      by rewrite list_lookup_insert_eq by lia.
    + done.
Qed.
End ring.

(** The new queue: the entry of the current slot holds the queued reports, the entries of the
    slots without a block are empty, the others are kept, all without what was accumulated. *)
Lemma queue_transition_run gp queued pre history pre_slot post_slot :
  gp_ok gp -> Z.of_nat (length pre) = EPOCH_TIMESLOTS gp -> Z.of_nat (length history) = EPOCH_TIMESLOTS gp ->
  exists post last, queue_transition gp queued pre history pre_slot post_slot = Ret post /\
    list.last history = Some last /\
    Z.of_nat (length post) = EPOCH_TIMESLOTS gp /\
    forall j, 0 <= j < EPOCH_TIMESLOTS gp ->
      post !! Z.to_nat j = Some (aged_entry queued (default [] (pre !! Z.to_nat j)) last
                                   (post_slot - pre_slot) ((post_slot - j) mod EPOCH_TIMESLOTS gp)).
Proof.
  intros Hgp Hpre Hh. pose proof (gp_epoch _ Hgp) as HE. unfold queue_transition, get_item.
  destruct (py_index_Some history (EPOCH_TIMESLOTS gp - 1)) as (last & Hl); [lia|]. rewrite Hl. simpl.
  destruct (queue_rounds_run gp Hgp queued pre last pre_slot post_slot Hpre (Z.to_nat (EPOCH_TIMESLOTS gp)) 0
    (replicate (Z.to_nat (EPOCH_TIMESLOTS gp)) [])) as (post & -> & Hlen & Hpost); [lia..|rewrite length_replicate; lia|].
  exists post, last. split_and!; [done| |done|].
  - rewrite last_lookup. rewrite py_index_nonneg in Hl by lia. rewrite <- Hl. f_equal. lia.
  - intros j Hj. rewrite Hpost, Zminus_mod_idemp_l by done.
    pose proof (Z.mod_pos_bound (post_slot - j) (EPOCH_TIMESLOTS gp) HE). by rewrite (proj2 (Z.ltb_ge _ 0)) by lia.
Qed.

(** ** Runs of blocks *)

(** The hashes of the queued reports and those of the history. *)
Definition queued_hashes (s : QueueState) : list bytes := map qi_hash (concat (qs_queue s)).
Definition recent_hashes (s : QueueState) : list bytes := flatten_list (qs_history s).

(** What the guarantees of a block are checked for: new packages, none twice. *)
Record fresh_reports (available : list WorkReport) (s : QueueState) : Prop := mkFreshReports {
  fr_distinct : NoDup (work_report_mapping available);
  fr_new : forall h, h ∈ work_report_mapping available -> (h ∉ queued_hashes s) /\ (h ∉ recent_hashes s)
}.

Definition genesis (gp : GpConstants) : QueueState :=
  mkQueueState (replicate (Z.to_nat (EPOCH_TIMESLOTS gp)) []) (replicate (Z.to_nat (EPOCH_TIMESLOTS gp)) []).

(** The reports accumulated since genesis, the last slot and the state, after any number of
    blocks that skip slots, and accumulate as many of the reports, as they please. *)
Inductive queue_run (gp : GpConstants) : list WorkReport -> Z -> QueueState -> Prop :=
| qr_genesis slot : queue_run gp [] slot (genesis gp)
| qr_block log slot s available n slot' accumulatable s' :
    queue_run gp log slot s ->
    slot < slot' ->
    fresh_reports available s ->
    queue_block gp available n slot slot' s = Ret (accumulatable, s') ->
    queue_run gp (log ++ take (Z.to_nat n) accumulatable) slot' s'.

(** The state's invariant, with the hashes accumulated so far. *)
Record queue_ok (gp : GpConstants) (done : list bytes) (s : QueueState) : Prop := mkQueueOk {
  qo_queue : Z.of_nat (length (qs_queue s)) = EPOCH_TIMESLOTS gp;
  qo_history : Z.of_nat (length (qs_history s)) = EPOCH_TIMESLOTS gp;
  qo_distinct : NoDup (queued_hashes s);
  qo_fresh : forall h, h ∈ queued_hashes s -> h ∉ recent_hashes s;
  qo_recent : forall h, h ∈ recent_hashes s -> h ∈ done;
  qo_dependencies : forall i d, i ∈ concat (qs_queue s) -> d ∈ qi_dependencies (work_report_dependencies (qi_report i)) ->
    d ∈ qi_dependencies i \/ d ∈ done
}.

(** Every report after those it depends on. *)
Definition in_order (log : list WorkReport) : Prop :=
  forall l1 w l2, log = l1 ++ w :: l2 ->
  forall d, d ∈ qi_dependencies (work_report_dependencies w) -> d ∈ work_report_mapping l1.

Lemma in_order_app log l : in_order log ->
  (forall l1 w l2, l = l1 ++ w :: l2 -> forall d, d ∈ qi_dependencies (work_report_dependencies w) ->
    d ∈ work_report_mapping (log ++ l1)) ->
  in_order (log ++ l).
Proof.
  intros Hlog Hl l1 w l2 Heq. symmetry in Heq.
  apply app_eq_app in Heq as (k & [[-> Hk]|[-> Hk]]); [by apply (Hl k w l2)|].
  destruct k as [|x k]; simplify_list_eq; [|by eapply Hlog]. intros d Hd.
  specialize (Hl [] _ _ eq_refl d Hd). by rewrite app_nil_r in Hl.
Qed.

Lemma elem_of_mapping h l : h ∈ work_report_mapping l <-> exists w, w ∈ l /\ wr_package_hash w = h.
Proof. unfold work_report_mapping. rewrite list_elem_of_fmap. naive_solver. Qed.

Lemma mapping_app l k : work_report_mapping (l ++ k) = work_report_mapping l ++ work_report_mapping k.
Proof. apply map_app. Qed.

Lemma elem_of_queued_hash i q : i ∈ q -> qi_hash i ∈ map qi_hash q.
Proof. apply list_elem_of_fmap_2. Qed.

Lemma no_dependencies_spec w : no_dependencies w = true <-> qi_dependencies (work_report_dependencies w) = [].
Proof.
  unfold no_dependencies. rewrite andb_true_iff, !Nat.eqb_eq, !length_zero_iff_nil. split.
  - intros [H1 H2]. simpl. by rewrite H1, H2.
  - intros H. assert (forall d, d ∉ wr_prerequisites w ++ map fst (wr_segment_root_lookup w)) as Hn.
    { intros d Hd. apply (elem_of_sorted_by id) in Hd. unfold work_report_dependencies, sorted_bytes in H. simpl in H.
      rewrite H in Hd. set_solver. }
    split; [destruct (wr_prerequisites w) as [|d l]|destruct (wr_segment_root_lookup w) as [|[d ?] l]]; try done;
      exfalso; apply (Hn d); simpl; set_solver.
Qed.

(** Concatenating entries that only lost items. *)
Lemma sublist_concat {A} (l k : list (list A)) : Forall2 sublist l k -> concat l `sublist_of` concat k.
Proof. induction 1; simpl; [done|by apply sublist_app]. Qed.

Lemma sublist_edit q acc : map qi_hash (edit_queue q acc) `sublist_of` map qi_hash q.
Proof. rewrite edit_hashes. change (map qi_hash) with (fmap (M:=list) qi_hash). by apply (fmap_sublist qi_hash), sublist_filter. Qed.

Lemma elem_of_concat {A} (x : A) (l : list (list A)) : x ∈ concat l <-> exists i k, l !! i = Some k /\ x ∈ k.
Proof.
  rewrite list_elem_of_In, in_concat. split.
  - intros (k & Hk & Hx). apply list_elem_of_In, list_elem_of_lookup in Hk as (i & Hi).
    exists i, k. split; [done|by apply list_elem_of_In].
  - intros (i & k & Hi & Hx). exists k. split; apply list_elem_of_In; [by eapply list_elem_of_lookup_2|done].
Qed.

Section block_step.
Context (gp : GpConstants) (Hgp : gp_ok gp) (done : list bytes) (s : QueueState) (available : list WorkReport).
Context (Hok : queue_ok gp done s) (Hfresh : fresh_reports available s).
#[local] Abbreviation ready := (ready_work_reports available).
#[local] Abbreviation queued := (queued_work_reports available (qs_history s)).

(** What the priority queue reads: the queue from the current slot on, and the new reports. *)
#[local] Abbreviation candidates m := (flatten_list (drop m (qs_queue s)) ++ flatten_list (take m (qs_queue s)) ++ queued).

Lemma queued_item i : i ∈ queued -> exists w, w ∈ available /\ no_dependencies w = false /\ qi_report i = w /\
  (qi_hash i ∉ recent_hashes s) /\ i = edit_item (recent_hashes s) (work_report_dependencies w).
Proof.
  intros (j & Hj & Hn & ->)%elem_of_edit_queue. apply list_elem_of_fmap in Hj as (w & -> & Hw).
  apply list_elem_of_In, filter_In in Hw as [Hw Hd]. exists w.
  split_and!; [by apply list_elem_of_In|by apply negb_true_iff|done..].
Qed.

Lemma ready_report w : w ∈ ready <-> w ∈ available /\ no_dependencies w = true.
Proof. unfold ready_work_reports. by rewrite !list_elem_of_In, filter_In. Qed.

Lemma NoDup_map_list_filter {A B} (f : A -> B) p l : NoDup (map f l) -> NoDup (map f (List.filter p l)).
Proof.
  induction l as [|x l IH]; simpl; [done|]. intros [Hx Hnd]%NoDup_cons. destruct (p x); [|by apply IH].
  simpl. apply NoDup_cons. split; [|by apply IH]. intros (y & Hy & Hin)%list_elem_of_fmap. apply Hx. rewrite Hy.
  apply list_elem_of_fmap_2, list_elem_of_In. by apply list_elem_of_In, filter_In in Hin as [? _].
Qed.

Lemma queued_distinct : NoDup (map qi_hash queued).
Proof.
  unfold queued_work_reports. eapply sublist_NoDup; [|apply sublist_edit].
  rewrite map_map. apply (NoDup_map_list_filter wr_package_hash), Hfresh.
Qed.

Lemma queued_and_old_distinct : NoDup (map qi_hash queued ++ queued_hashes s).
Proof.
  apply NoDup_app. split_and!; [apply queued_distinct| |apply Hok].
  intros h (i & -> & Hi)%list_elem_of_fmap. destruct (queued_item i Hi) as (w & Hw & _ & Hr & _).
  apply (fr_new _ _ Hfresh). unfold qi_hash. rewrite Hr. by apply list_elem_of_fmap_2.
Qed.

Lemma candidates_permutation m : map qi_hash (candidates m) ≡ₚ map qi_hash queued ++ queued_hashes s.
Proof.
  unfold queued_hashes, flatten_list. rewrite <- (take_drop m (qs_queue s)) at 3. rewrite concat_app, !map_app.
  solve_Permutation.
Qed.

(** A dependency of a candidate is still listed with it, or has been accumulated. *)
Lemma candidate_dependencies m i d : i ∈ candidates m -> d ∈ qi_dependencies (work_report_dependencies (qi_report i)) ->
  d ∈ qi_dependencies i \/ d ∈ done.
Proof.
  rewrite !elem_of_app. intros Hi Hd.
  assert (i ∈ concat (qs_queue s) \/ i ∈ queued) as [Hin|Hin].
  { rewrite <- (take_drop m (qs_queue s)), concat_app, elem_of_app. unfold flatten_list in Hi. tauto. }
  - by apply (qo_dependencies _ _ _ Hok).
  - destruct (queued_item i Hin) as (w & Hw & _ & Hr & _ & Hi'). rewrite Hr in Hd.
    destruct (decide (d ∈ recent_hashes s)) as [Hrec|Hrec]; [right; by apply (qo_recent _ _ _ Hok)|left].
    rewrite Hi'. by apply edit_dependencies.
Qed.

Lemma candidate_new m i : i ∈ candidates m -> qi_hash i ∉ recent_hashes s.
Proof.
  intros Hi%elem_of_queued_hash. rewrite candidates_permutation in Hi. apply elem_of_app in Hi as [Hi|Hi].
  - apply list_elem_of_fmap in Hi as (j & -> & Hj). destruct (queued_item j Hj) as (w & _ & _ & _ & Hn & _). done.
  - by apply (qo_fresh _ _ _ Hok).
Qed.

(** The reports chosen: all the ready ones, then the schedule of the edited candidates. *)
Lemma accumulatable_run slot : exists rest,
  accumulatable_work_reports gp slot (qs_queue s) ready queued = Some (ready ++ rest) /\
  scheduled (edit_queue (candidates (Z.to_nat (slot mod EPOCH_TIMESLOTS gp))) (work_report_mapping ready)) rest.
Proof.
  unfold accumulatable_work_reports, priority_queue.
  destruct (priority_queue_rec_total _ (edit_queue (candidates (Z.to_nat (slot mod EPOCH_TIMESLOTS gp)))
    (work_report_mapping ready)) ltac:(done)) as (rest & Hrest).
  rewrite Hrest. exists rest. split; [done|]. eapply priority_queue_rec_scheduled; [|done].
  eapply sublist_NoDup; [|apply sublist_edit]. rewrite candidates_permutation. apply queued_and_old_distinct.
Qed.

Section chosen.
Context (rest : list WorkReport) (k : nat).
Context (Hrest : scheduled (edit_queue (candidates k) (work_report_mapping ready)) rest).

Lemma rest_item w : w ∈ rest -> exists i, i ∈ candidates k /\ (qi_hash i ∉ work_report_mapping ready) /\ qi_report i = w.
Proof.
  intros Hw. destruct (sch_from _ _ Hrest w Hw) as (i' & Hi' & <-).
  apply elem_of_edit_queue in Hi' as (i & Hi & Hn & ->). by exists i.
Qed.

Lemma chosen_distinct : NoDup (work_report_mapping (ready ++ rest)).
Proof.
  rewrite mapping_app. apply NoDup_app. split_and!; [apply (NoDup_map_list_filter wr_package_hash), Hfresh| |apply Hrest].
  intros h Hh (w & Hw & <-)%elem_of_mapping. destruct (rest_item w Hw) as (i & _ & Hn & <-). done.
Qed.

Lemma chosen_new h : h ∈ work_report_mapping (ready ++ rest) -> h ∉ recent_hashes s.
Proof.
  rewrite mapping_app, elem_of_app. intros [Hh|(w & Hw & <-)%elem_of_mapping].
  - apply (fr_new _ _ Hfresh). apply elem_of_mapping in Hh as (w & Hw & <-). apply ready_report in Hw as [Hw _].
    by apply list_elem_of_fmap_2.
  - destruct (rest_item w Hw) as (i & Hi & _ & <-). by apply (candidate_new k).
Qed.

Lemma chosen_in_order l1 w l2 : ready ++ rest = l1 ++ w :: l2 ->
  forall d, d ∈ qi_dependencies (work_report_dependencies w) -> d ∈ done \/ d ∈ work_report_mapping l1.
Proof.
  intros Heq d Hd. assert (w ∉ ready) as Hnr.
  { intros [_ Hw]%ready_report. apply no_dependencies_spec in Hw. rewrite Hw in Hd. set_solver. }
  assert (exists l1', l1 = ready ++ l1' /\ rest = l1' ++ w :: l2) as (l1' & -> & Hk).
  { symmetry in Heq. apply app_eq_app in Heq as (l1' & [[Hl Hk]|[Hr Hk]]); [by exists l1'|].
    destruct l1' as [|x l1']; [exists []; rewrite app_nil_r in *; by split|]. exfalso. apply Hnr. rewrite Hr.
    injection Hk as -> _. set_solver. }
  destruct (rest_item w) as (i & Hi & Hn & Hr); [rewrite Hk; set_solver|].
  destruct (candidate_dependencies k i d Hi) as [Hdi|]; [by rewrite Hr| |by left]. right.
  rewrite mapping_app, elem_of_app. destruct (decide (d ∈ work_report_mapping ready)) as [|Hdr]; [by left|right].
  apply (sch_order _ _ Hrest l1' w l2 Hk (edit_item (work_report_mapping ready) i)).
  - apply elem_of_edit_queue. by exists i.
  - done.
  - by apply edit_dependencies.
Qed.
End chosen.
End block_step.

(** The hashes of the new queue are, entry by entry, among those of the queued reports and the
    old queue. *)
Lemma concat_insert_perm {A} (l : list (list A)) i x : (i < length l)%nat -> concat (<[i := x]> l) ⊆+ x ++ concat l.
Proof.
  intros Hi. destruct (lookup_lt_is_Some_2 l i Hi) as (y & Hy).
  rewrite <- (take_drop_middle l i y Hy) at 2. rewrite insert_take_drop, !concat_app by done. simpl.
  rewrite (Permutation_app_swap_app (concat (take i l)) x). by apply submseteq_app, submseteq_app, submseteq_inserts_l.
Qed.

Lemma aged_entry_hashes queued old last slots age :
  map qi_hash (aged_entry queued old last slots age) `sublist_of` map qi_hash (if age =? 0 then queued else old).
Proof.
  unfold aged_entry. destruct (age =? 0); [apply sublist_edit|].
  destruct (age <? slots); [apply sublist_nil_l|apply sublist_edit].
Qed.

Lemma elem_of_aged_entry i queued old last slots age : i ∈ aged_entry queued old last slots age ->
  exists j, (j ∈ queued \/ j ∈ old) /\ (qi_hash j ∉ last) /\ i = edit_item last j.
Proof.
  unfold aged_entry. destruct (age =? 0); [intros (j & ?)%elem_of_edit_queue; naive_solver|].
  destruct (age <? slots); [set_solver|]. intros (j & ?)%elem_of_edit_queue; naive_solver.
Qed.

Section transition_step.
Context (gp : GpConstants) (Hgp : gp_ok gp) (done : list bytes) (s : QueueState) (available : list WorkReport).
Context (Hok : queue_ok gp done s) (Hfresh : fresh_reports available s).
Context (pre_slot post_slot n : Z) (chosen : list WorkReport).
#[local] Abbreviation queued := (queued_work_reports available (qs_history s)).
#[local] Abbreviation taken := (work_report_mapping (take (Z.to_nat n) chosen)).
#[local] Abbreviation history := (history_transition chosen (qs_history s) n).
#[local] Abbreviation E := (EPOCH_TIMESLOTS gp).

Lemma length_history : Z.of_nat (length history) = E.
Proof.
  unfold history_transition. rewrite length_app, length_drop. simpl.
  pose proof (qo_history _ _ _ Hok). pose proof (gp_epoch _ Hgp). lia.
Qed.

Lemma history_last : list.last history = Some (sorted_set taken).
Proof. unfold history_transition. by rewrite last_snoc. Qed.

Lemma elem_of_history h : h ∈ flatten_list history -> h ∈ recent_hashes s \/ h ∈ taken.
Proof.
  unfold history_transition, flatten_list, recent_hashes. rewrite concat_app, elem_of_app. simpl. rewrite app_nil_r.
  intros [H|H]; [left|right; by apply elem_of_sorted_set].
  apply elem_of_concat in H as (i & k & Hi & Hk). rewrite lookup_drop in Hi. apply elem_of_concat. by exists (1 + i)%nat, k.
Qed.

Section entries.
Context (post : list (list AccumulationQueueWorkPackage)) (Hlen : Z.of_nat (length post) = E).
Context (Hpost : forall j, 0 <= j < E ->
  post !! Z.to_nat j = Some (aged_entry queued (default [] (qs_queue s !! Z.to_nat j)) (sorted_set taken)
                               (post_slot - pre_slot) ((post_slot - j) mod E))).

Lemma post_item i : i ∈ concat post -> exists j, (j ∈ queued \/ j ∈ concat (qs_queue s)) /\ (qi_hash j ∉ taken) /\
  i = edit_item (sorted_set taken) j.
Proof.
  intros (p & e & Hp & Hi)%elem_of_concat. pose proof (lookup_lt_Some _ _ _ Hp).
  rewrite <- (Nat2Z.id p), Hpost in Hp by lia. injection Hp as <-.
  apply elem_of_aged_entry in Hi as (j & Hj & Hn & ->). rewrite elem_of_sorted_set in Hn. exists j. split_and!; [|done..].
  destruct Hj as [Hj|Hj]; [by left|right]. rewrite Nat2Z.id in Hj.
  destruct (qs_queue s !! p) as [old|] eqn:Eo; simpl in Hj; [|set_solver]. apply elem_of_concat. by exists p, old.
Qed.

Lemma post_hashes : map qi_hash (concat post) ⊆+ map qi_hash queued ++ queued_hashes s.
Proof.
  pose proof (gp_epoch _ Hgp) as HE. pose proof (Z.mod_pos_bound post_slot E HE) as Hm.
  pose proof (qo_queue _ _ _ Hok) as Hq.
  transitivity (concat (<[Z.to_nat (post_slot mod E) := map qi_hash queued]> (map (map qi_hash) (qs_queue s)))).
  - rewrite concat_map. apply sublist_submseteq, sublist_concat, Forall2_same_length_lookup_2.
    { rewrite length_insert, !length_map. lia. }
    intros p a b Ha Hb. rewrite lookup_map in Ha. destruct (post !! p) as [e|] eqn:Ee; [|done]. injection Ha as <-.
    pose proof (lookup_lt_Some _ _ _ Ee) as Hp. rewrite <- (Nat2Z.id p), Hpost in Ee by lia. injection Ee as <-.
    etransitivity; [apply aged_entry_hashes|].
    pose proof (age_position gp post_slot 0 (Z.of_nat p) ltac:(lia) ltac:(lia)) as Hage. rewrite Z.sub_0_r in Hage.
    destruct (Z.eqb_spec ((post_slot - Z.of_nat p) mod E) 0) as [Hz|Hz].
    + apply Hage in Hz. rewrite Hz, Nat2Z.id, list_lookup_insert_eq in Hb by (rewrite length_map; lia). by injection Hb as <-.
    + rewrite list_lookup_insert_ne, lookup_map in Hb by (intros <-; apply Hz, Hage; lia).
      rewrite Nat2Z.id. destruct (qs_queue s !! p); [|done]. by injection Hb as <-.
  - rewrite concat_insert_perm by (rewrite length_map; lia). unfold queued_hashes. by rewrite concat_map.
Qed.

Lemma queue_ok_step : queue_ok gp (done ++ taken) (mkQueueState post history).
Proof.
  split; simpl.
  - done.
  - apply length_history.
  - destruct (submseteq_Permutation _ _ post_hashes) as (k & Hk).
    pose proof (queued_and_old_distinct gp done s available Hok Hfresh) as Hnd. rewrite Hk in Hnd.
    by apply NoDup_app in Hnd as (? & _).
  - intros h Hh Hrec. apply list_elem_of_fmap in Hh as (i & -> & Hi).
    apply post_item in Hi as (j & Hj & Hn & ->). apply elem_of_history in Hrec as [Hrec|]; [|done].
    destruct Hj as [Hj|Hj].
    + destruct (queued_item s available j Hj) as (w & _ & _ & _ & Hf & _). done.
    + by apply (qo_fresh _ _ _ Hok (qi_hash j)); [apply elem_of_queued_hash|].
  - intros h [Hh|Hh]%elem_of_history; apply elem_of_app; [left|by right]. by apply (qo_recent _ _ _ Hok).
  - intros i d Hi Hd. apply post_item in Hi as (j & Hj & Hn & ->). rewrite edit_dependencies, elem_of_app, elem_of_sorted_set.
    destruct (candidate_dependencies gp done s available Hok 0 j d) as [H|H]; [|done| |by right; left].
    { rewrite !elem_of_app. unfold flatten_list. simpl. rewrite drop_0. tauto. }
    destruct (decide (d ∈ taken)); tauto.
Qed.
End entries.
End transition_step.

(** A block on a good state: it returns, and what it returns. *)
Lemma queue_block_run gp done s available n pre_slot post_slot :
  gp_ok gp -> queue_ok gp done s -> fresh_reports available s ->
  exists chosen s', queue_block gp available n pre_slot post_slot s = Ret (chosen, s') /\
    queue_ok gp (done ++ work_report_mapping (take (Z.to_nat n) chosen)) s' /\
    NoDup (work_report_mapping chosen) /\
    (forall h, h ∈ work_report_mapping chosen -> h ∉ recent_hashes s) /\
    (forall l1 w l2, chosen = l1 ++ w :: l2 -> forall d, d ∈ qi_dependencies (work_report_dependencies w) ->
      d ∈ done \/ d ∈ work_report_mapping l1) /\
    (forall w, w ∈ available -> no_dependencies w = true -> w ∈ chosen).
Proof.
  intros Hgp Hok Hfresh. destruct (accumulatable_run gp done s available Hok Hfresh post_slot) as (rest & Hacc & Hsch).
  unfold queue_block. rewrite Hacc.
  set (chosen := ready_work_reports available ++ rest).
  destruct (queue_transition_run gp (queued_work_reports available (qs_history s)) (qs_queue s)
    (history_transition chosen (qs_history s) n) pre_slot post_slot) as (post & last & -> & Hlast & Hlen & Hpost);
    [done|apply Hok|by apply (length_history gp Hgp done)|].
  rewrite history_last in Hlast. injection Hlast as <-. cbn [mbind outcome_bind].
  exists chosen, (mkQueueState post (history_transition chosen (qs_history s) n)). split_and!; [done|..].
  - by apply (queue_ok_step gp Hgp done s available Hok Hfresh pre_slot post_slot).
  - by eapply chosen_distinct.
  - intros h. by eapply chosen_new.
  - intros l1 w l2. by eapply chosen_in_order.
  - intros w Hw Hd. apply elem_of_app. left. by apply ready_report.
Qed.

(** No package comes from nowhere: those queued, in the history or chosen afterwards were
    queued, in the history or available before. *)
Lemma queue_block_hashes gp done s available n pre_slot post_slot chosen s' h :
  gp_ok gp -> queue_ok gp done s -> fresh_reports available s ->
  queue_block gp available n pre_slot post_slot s = Ret (chosen, s') ->
  h ∈ queued_hashes s' \/ h ∈ recent_hashes s' \/ h ∈ work_report_mapping chosen ->
  h ∈ queued_hashes s \/ h ∈ recent_hashes s \/ h ∈ work_report_mapping available.
Proof.
  intros Hgp Hok Hfresh. destruct (accumulatable_run gp done s available Hok Hfresh post_slot) as (rest & Hacc & Hsch).
  unfold queue_block. rewrite Hacc.
  destruct (queue_transition_run gp (queued_work_reports available (qs_history s)) (qs_queue s)
    (history_transition (ready_work_reports available ++ rest) (qs_history s) n) pre_slot post_slot) as (post & last & -> & Hlast & Hlen & Hpost);
    [done|apply Hok|by apply (length_history gp Hgp done)|].
  rewrite history_last in Hlast. injection Hlast as <-. cbn [mbind outcome_bind]. intros [= <- <-].
  assert (forall j, j ∈ queued_work_reports available (qs_history s) -> qi_hash j ∈ work_report_mapping available) as Hqueued.
  { intros j (w & Hw & _ & Hj & _)%queued_item. apply elem_of_mapping. exists w. split; [done|]. by rewrite <- Hj. }
  assert (h ∈ work_report_mapping (ready_work_reports available ++ rest) -> h ∈ queued_hashes s \/ h ∈ work_report_mapping available) as Hchosen.
  { intros (w & [Hw|Hw]%elem_of_app & <-)%elem_of_mapping.
    - right. apply ready_report in Hw as [Hw _]. apply elem_of_mapping. by exists w.
    - destruct (rest_item s available rest _ Hsch w Hw) as (i & Hi & _ & <-). apply elem_of_queued_hash in Hi.
      rewrite candidates_permutation in Hi. apply elem_of_app in Hi as [(j & Hj & Hin)%list_elem_of_fmap|Hi]; [right|by left].
      change (wr_package_hash (qi_report i)) with (qi_hash i). rewrite Hj. by apply Hqueued. }
  intros [Hh|[Hh|Hh]].
  - apply list_elem_of_fmap in Hh as (i & -> & Hi).
    destruct (post_item gp Hgp done s available Hok Hfresh pre_slot post_slot n (ready_work_reports available ++ rest) post Hlen Hpost i Hi)
      as (j & [Hj|Hj] & _ & ->).
    + right; right. exact (Hqueued _ Hj).
    + left. exact (elem_of_queued_hash _ _ Hj).
  - apply elem_of_history in Hh as [Hh|Hh]; [by right; left|]. destruct Hchosen as [?|?]; [|by left|by right; right].
    apply elem_of_mapping in Hh as (w & Hw & <-). apply elem_of_mapping. exists w. split; [|done]. by apply elem_of_take in Hw as (k & ? & _); eapply list_elem_of_lookup_2.
  - destruct (Hchosen Hh); tauto.
Qed.

(** Nor does a report. *)
Lemma queue_block_reports gp done s available n pre_slot post_slot chosen s' w :
  gp_ok gp -> queue_ok gp done s -> fresh_reports available s ->
  queue_block gp available n pre_slot post_slot s = Ret (chosen, s') ->
  w ∈ chosen \/ w ∈ map qi_report (concat (qs_queue s')) -> w ∈ available \/ w ∈ map qi_report (concat (qs_queue s)).
Proof.
  intros Hgp Hok Hfresh. destruct (accumulatable_run gp done s available Hok Hfresh post_slot) as (rest & Hacc & Hsch).
  unfold queue_block. rewrite Hacc.
  destruct (queue_transition_run gp (queued_work_reports available (qs_history s)) (qs_queue s)
    (history_transition (ready_work_reports available ++ rest) (qs_history s) n) pre_slot post_slot) as (post & last & -> & Hlast & Hlen & Hpost);
    [done|apply Hok|by apply (length_history gp Hgp done)|].
  rewrite history_last in Hlast. injection Hlast as <-. cbn [mbind outcome_bind]. intros [= <- <-].
  assert (forall j, j ∈ queued_work_reports available (qs_history s) -> qi_report j ∈ available) as Hqueued.
  { intros j (w' & Hw & _ & Hj & _)%queued_item. by rewrite Hj. }
  intros [[Hw|Hw]%elem_of_app|Hw].
  - left. by apply ready_report in Hw as [? _].
  - destruct (rest_item s available rest _ Hsch w Hw) as (i & Hi & _ & <-). unfold flatten_list in Hi. rewrite !elem_of_app in Hi.
    destruct Hi as [Hi|[Hi|Hi]]; [right|right|left; by apply Hqueued]; apply list_elem_of_fmap_2;
      rewrite <- (take_drop (Z.to_nat (post_slot mod EPOCH_TIMESLOTS gp)) (qs_queue s)), concat_app, elem_of_app; tauto.
  - apply list_elem_of_fmap in Hw as (i & -> & Hi).
    destruct (post_item gp Hgp done s available Hok Hfresh pre_slot post_slot n (ready_work_reports available ++ rest) post Hlen Hpost i Hi)
      as (j & [Hj|Hj] & _ & ->); [left; exact (Hqueued _ Hj)|right]. exact (list_elem_of_fmap_2 qi_report _ _ Hj).
Qed.

Lemma genesis_ok gp : gp_ok gp -> queue_ok gp [] (genesis gp).
Proof.
  intros Hgp. pose proof (gp_epoch _ Hgp). assert (forall A n, concat (replicate n ([] : list A)) = []) as Hc.
  { intros A n. by induction n. }
  split; unfold queued_hashes, recent_hashes, flatten_list; simpl; rewrite ?length_replicate, ?Hc; try lia;
    try set_solver. constructor.
Qed.

Lemma queue_run_ok gp log slot s : gp_ok gp -> queue_run gp log slot s ->
  queue_ok gp (work_report_mapping log) s /\ in_order log.
Proof.
  intros Hgp. induction 1 as [slot|log slot s available n slot' chosen s' _ [Hok Hlog] _ Hfresh Hrun].
  - split; [by apply genesis_ok|]. by intros [|? ?].
  - destruct (queue_block_run gp _ s available n slot slot' Hgp Hok Hfresh) as (chosen' & s'' & Heq & Hok' & _ & _ & Hord & _).
    rewrite Hrun in Heq. injection Heq as <- <-. split; [by rewrite mapping_app|]. apply in_order_app; [done|].
    intros l1 w l2 Ht d Hd. rewrite mapping_app, elem_of_app. apply (Hord l1 w (l2 ++ drop (Z.to_nat n) chosen)); [|done].
    rewrite <- (take_drop (Z.to_nat n) chosen) at 1. by rewrite Ht, <- app_assoc.
Qed.

(** ** The properties *)

(** the priority queue always ends, and what it returns are distinct reports of the
    queue, each after every report it depends on, with none left out whose dependencies are
    all among those returned. *)
Theorem priority_queue_order q : NoDup (map qi_hash q) ->
  exists out, priority_queue q = Some out /\ scheduled q out.
Proof.
  intros Hnd. destruct (priority_queue_rec_total (length q) q ltac:(done)) as (out & Hout).
  exists out. split; [done|]. by eapply priority_queue_rec_scheduled.
Qed.

(** the transition of the queue, as a ring of one entry per slot of an epoch: the current
    slot's entry holds the block's queued reports, the entries of the slots skipped since the
    last block are empty, every other entry is kept, all edited with the packages accumulated
    last; negative indices never leave the ring, and no index is out of range. *)
Theorem queue_transition_spec gp queued pre history pre_slot post_slot :
  gp_ok gp -> Z.of_nat (length pre) = EPOCH_TIMESLOTS gp -> Z.of_nat (length history) = EPOCH_TIMESLOTS gp ->
  exists post last, queue_transition gp queued pre history pre_slot post_slot = Ret post /\
    list.last history = Some last /\
    Z.of_nat (length post) = EPOCH_TIMESLOTS gp /\
    forall j, 0 <= j < EPOCH_TIMESLOTS gp ->
      post !! Z.to_nat j = Some (aged_entry queued (default [] (pre !! Z.to_nat j)) last
                                   (post_slot - pre_slot) ((post_slot - j) mod EPOCH_TIMESLOTS gp)).
Proof. apply queue_transition_run. Qed.

(** C28: a block whose reports are new keeps the invariant of queue and history, whatever
    number of reports is accumulated: the queued packages stay distinct and none of them is in
    the history. The block never fails; it chooses distinct reports, none of them accumulated
    within the history, all the reports without dependencies among them, and each one after
    all the reports it depends on. *)
Theorem queue_block_correct gp done s available n pre_slot post_slot :
  gp_ok gp -> queue_ok gp done s -> fresh_reports available s ->
  exists chosen s', queue_block gp available n pre_slot post_slot s = Ret (chosen, s') /\
    queue_ok gp (done ++ work_report_mapping (take (Z.to_nat n) chosen)) s' /\
    NoDup (work_report_mapping chosen) /\
    (forall h, h ∈ work_report_mapping chosen -> h ∉ recent_hashes s) /\
    (forall l1 w l2, chosen = l1 ++ w :: l2 -> forall d, d ∈ qi_dependencies (work_report_dependencies w) ->
      d ∈ done \/ d ∈ work_report_mapping l1) /\
    (forall w, w ∈ available -> no_dependencies w = true -> w ∈ chosen).
Proof. apply queue_block_run. Qed.

(** in a chain of blocks from genesis, whatever slots are skipped and however few of the
    chosen reports each block accumulates, every report is accumulated after the packages it
    names as prerequisites or in its segment root lookup. *)
Theorem accumulation_order gp log slot s : gp_ok gp -> queue_run gp log slot s -> in_order log.
Proof. intros Hgp Hrun. by apply (queue_run_ok gp log slot s). Qed.
