(* ===== verification/Assurances.v ===== *)
(** * Assurances

    The first two transitions of the [Assurances] component of [state/components.py] and the
    validation of the assurances extrinsic: verdicts cancel pending reports, validators assure
    that a report's data is available, and a report that enough validators assured leaves its
    core, as does one that waited too long.

    The hash, the signature check, the encoding of a report and of a bit field come from
    libraries: they are arguments. *)

From Stdlib Require Import ZArith Lia Bool List String Sorted.
From stdpp Require Import base numbers option list sets gmap.
From S2P Require Import Prelude ByteOrder Graypaper StateBase Reports Disputes Safrole.
Import ListNotations.

#[local] Open Scope Z_scope.

(** [AssurancesState]: an entry per core. *)
Abbreviation AssurancesState := (list (option AssuranceStateItem)).

Definition AssuranceE (c : AssurancesErrorCode.t) : state_exn := StateTransitionError (AssurancesCode c).

(** [AssurancesAfterAssurancesOutput] *)
Record AssurancesAfterAssurancesOutput : Type := mkAfterAssurances {
  aa_state : AssurancesState;
  aa_reported : list WorkReport
}.

(** ** Validation *)

Definition have_valid_validators (assurances : list Assurance) (validators : list ValidatorData) : bool :=
  forallb (fun a => (0 <=? as_validator_index a) && (as_validator_index a <? Z.of_nat (length validators))) assurances.

Definition are_assurances_sorted (assurances : list Assurance) : bool :=
  adjacent (fun a b => as_validator_index a <=? as_validator_index b) assurances.

Definition has_duplicated_validators (assurances : list Assurance) : bool :=
  has_duplicates (map as_validator_index assurances).

Section assurances.
Context (blake2b_256_hash : bytes -> bytes) (ed_verify : bytes -> bytes -> bytes -> bool).
Context (encode_report : WorkReport -> bytes) (encode_bitfield : list bool -> bytes).
Context (gp : GpConstants).

(** [WorkReport.hash] *)
Definition report_hash (w : WorkReport) : bytes := blake2b_256_hash (encode_report w).

Definition has_valid_signature (a : Assurance) (v : ValidatorData) : bool :=
  ed_verify (as_signature a)
    (bytes_of_string "jam_available" ++ blake2b_256_hash (as_anchor a ++ encode_bitfield (as_bitfield a)))
    (ed25519 v).

Definition check_assurance (header : Header) (validators : list ValidatorData) (a : Assurance) : outcome state_exn unit :=
  if negb (bool_decide (as_anchor a = parent header)) then Raise (AssuranceE AssurancesErrorCode.bad_attestation_parent)
  else
    v ← get_item validators (as_validator_index a);
    raise_if (negb (has_valid_signature a v)) (AssuranceE AssurancesErrorCode.bad_signature).

Definition validate_after_disputes (assurances : list Assurance) (pre_pool : list ValidatorData) (header : Header)
    : outcome state_exn unit :=
  if negb (have_valid_validators assurances pre_pool) then Raise (AssuranceE AssurancesErrorCode.bad_validator_index)
  else if negb (are_assurances_sorted assurances) then Raise (AssuranceE AssurancesErrorCode.not_sorted_or_unique_assurers)
  else if has_duplicated_validators assurances then Raise (AssuranceE AssurancesErrorCode.not_sorted_or_unique_assurers)
  else every assurances (check_assurance header pre_pool).

(** ** After the disputes *)

Definition rejected_reports (d : ExtrinsicDisputes) : list bytes :=
  map v_target (List.filter (fun v => negb (is_good v)) (verdicts d)).

Definition state_transition_after_disputes (d : ExtrinsicDisputes) (pre : AssurancesState) : AssurancesState :=
  map (fun pending =>
    match pending with
    | Some p => if bool_decide (report_hash (pe_report p) ∈ rejected_reports d) then None else Some p
    | None => None
    end) pre.

(** ** After the assurances *)

(** [{c: 0 for c in range(CORE_COUNT)}] *)
Definition no_assurances : gmap Z Z := list_to_map (map (fun c => (c, 0)) (py_range 0 (CORE_COUNT gp))).

(** [d[k] += 1] *)
Definition increment (k : Z) (d : gmap Z Z) : outcome state_exn (gmap Z Z) :=
  match d !! k with Some n => Ret (<[k := n + 1]> d) | None => Raise KeyError end.

Fixpoint count_cores (state : AssurancesState) (cores : list Z) (total : gmap Z Z) : outcome state_exn (gmap Z Z) :=
  match cores with
  | [] => Ret total
  | core :: cores =>
      entry ← get_item state core;
      match entry with
      | None => Raise (AssuranceE AssurancesErrorCode.core_not_engaged)
      | Some _ => total ← increment core total; count_cores state cores total
      end
  end.

Fixpoint count_assurances (state : AssurancesState) (assurances : list Assurance) (total : gmap Z Z)
    : outcome state_exn (gmap Z Z) :=
  match assurances with
  | [] => Ret total
  | a :: assurances =>
      total ← count_cores state (cores_engaged a) total;
      count_assurances state assurances total
  end.

(** The loop over the cores; the state it updates is the copy. *)
Fixpoint check_available (total : gmap Z Z) (availability_threshold : Z) (size_changed : bool) (slot : Z)
    (core_index : Z) (entries : AssurancesState) (post : AssurancesState) (reported : list WorkReport)
    : outcome state_exn AssurancesAfterAssurancesOutput :=
  match entries with
  | [] => Ret (mkAfterAssurances post reported)
  | None :: entries =>
      check_available total availability_threshold size_changed slot (core_index + 1) entries post reported
  | Some pending :: entries =>
      match total !! core_index with
      | None => Raise KeyError
      | Some n =>
          let available := availability_threshold <=? n in
          let reported := if available then reported ++ [pe_report pending] else reported in
          post ← (if available then set_item post core_index None else Ret post);
          post ← (if size_changed || (pe_timeout pending + UNAVAILABLE_WORK_REPLACEMENT_PERIOD gp <=? slot)
                  then set_item post core_index None else Ret post);
          check_available total availability_threshold size_changed slot (core_index + 1) entries post reported
      end
  end.

(** The pools are optional in the source; the block import passes both. *)
Definition state_transition_after_assurances (assurances : list Assurance) (state : AssurancesState) (header : Header)
    (pre_pool post_pool : option (list ValidatorData)) : outcome state_exn AssurancesAfterAssurancesOutput :=
  total ← count_assurances state assurances no_assurances;
  let validator_count := match pre_pool with Some vs => Z.of_nat (length vs) | None => VALIDATOR_COUNT gp end in
  let size_changed := match post_pool with Some vs => negb (Z.of_nat (length vs) =? validator_count) | None => false end in
  check_available total (validator_count * 2 / 3 + 1) size_changed (timeslot header) 0 state state [].
End assurances.

(** ** What a valid extrinsic promises *)

(** The assurance is of the block's parent and signed by the validator it names. *)
Definition assurance_signed (blake2b_256_hash : bytes -> bytes) (ed_verify : bytes -> bytes -> bytes -> bool)
    (encode_bitfield : list bool -> bytes) (header : Header) (validators : list ValidatorData) (a : Assurance) : Prop :=
  as_anchor a = parent header /\ exists v, 0 <= as_validator_index a /\
    validators !! Z.to_nat (as_validator_index a) = Some v /\
    has_valid_signature blake2b_256_hash ed_verify encode_bitfield a v = true.

Lemma have_valid_validators_spec assurances vs :
  have_valid_validators assurances vs = true <-> forall a, a ∈ assurances -> 0 <= as_validator_index a < Z.of_nat (length vs).
Proof.
  unfold have_valid_validators. rewrite forallb_forall. setoid_rewrite <- list_elem_of_In.
  setoid_rewrite andb_true_iff. by setoid_rewrite Z.leb_le; setoid_rewrite Z.ltb_lt.
Qed.

Section validation.
Context (blake2b_256_hash : bytes -> bytes) (ed_verify : bytes -> bytes -> bytes -> bool).
Context (encode_bitfield : list bool -> bytes).

Lemma check_assurance_ret header vs a : 0 <= as_validator_index a < Z.of_nat (length vs) ->
  check_assurance blake2b_256_hash ed_verify encode_bitfield header vs a = Ret tt <->
  assurance_signed blake2b_256_hash ed_verify encode_bitfield header vs a.
Proof.
  intros Hi. unfold check_assurance, assurance_signed. destruct (get_item_total vs (as_validator_index a) Hi) as (v & -> & Hv).
  rewrite Hv. case_bool_decide; simpl; [|naive_solver]. rewrite raise_if_ret, negb_false_iff. naive_solver lia.
Qed.

Lemma check_assurance_raise header vs a e : 0 <= as_validator_index a < Z.of_nat (length vs) ->
  check_assurance blake2b_256_hash ed_verify encode_bitfield header vs a = Raise e ->
  e = AssuranceE AssurancesErrorCode.bad_attestation_parent \/ e = AssuranceE AssurancesErrorCode.bad_signature.
Proof.
  intros Hi. unfold check_assurance. destruct (get_item_total vs (as_validator_index a) Hi) as (v & -> & Hv).
  case_bool_decide; simpl; [|naive_solver]. destruct (has_valid_signature _ _ _ _ _); simpl; naive_solver.
Qed.

Lemma validate_after_disputes_run assurances vs header :
  validate_after_disputes blake2b_256_hash ed_verify encode_bitfield assurances vs header = Ret tt <->
  StronglySorted Z.lt (map as_validator_index assurances) /\
  forall a, a ∈ assurances -> assurance_signed blake2b_256_hash ed_verify encode_bitfield header vs a.
Proof.
  unfold validate_after_disputes.
  pose proof (indices_check as_validator_index assurances) as Hsorted. fold (are_assurances_sorted assurances) in Hsorted.
  rewrite <- Hsorted, <- has_duplicates_false. fold (has_duplicated_validators assurances).
  destruct (have_valid_validators assurances vs) eqn:Ev; simpl.
  - pose proof (proj1 (have_valid_validators_spec _ _) Ev) as Hv.
    destruct (are_assurances_sorted assurances), (has_duplicated_validators assurances); simpl; try (split; [done|tauto]).
    + split; [done|]. by intros [[_ ?] _].
    + rewrite every_ret. split; [intros H; split; [done|]|intros [_ H]]; intros a Ha; apply (check_assurance_ret header); auto.
    + split; [done|]. by intros [[? _] _].
    + split; [done|]. by intros [[? _] _].
  - split; [done|]. intros [_ H]. apply not_true_iff_false in Ev as []. apply have_valid_validators_spec.
    intros a Ha. destruct (H a Ha) as (_ & v & Hi & Hv & _). apply lookup_lt_Some in Hv. lia.
Qed.
End validation.

(** ** The counts *)

(** The number of assurances for a core. *)
Definition assurers (assurances : list Assurance) (c : Z) : Z :=
  Z.of_nat (length (filter (fun a => c ∈ cores_engaged a) assurances)).

(** Every core an assurance engages has a pending report. *)
Definition engages_pending (state : AssurancesState) (a : Assurance) : Prop :=
  forall c, c ∈ cores_engaged a -> exists p, state !! Z.to_nat c = Some (Some p).

Section counts.
Context (gp : GpConstants) (state : AssurancesState) (Hstate : Z.of_nat (length state) = CORE_COUNT gp).
#[local] Abbreviation C := (CORE_COUNT gp).

Lemma count_cores_run cores : forall total, NoDup cores ->
  (forall c, c ∈ cores -> 0 <= c < C) -> (forall c, 0 <= c < C -> is_Some (total !! c)) ->
  match count_cores state cores total with
  | Ret total' =>
      (forall c, c ∈ cores -> exists p, state !! Z.to_nat c = Some (Some p)) /\
      forall c, total' !! c = (fun n => if decide (c ∈ cores) then n + 1 else n) <$> total !! c
  | Raise e => e = AssuranceE AssurancesErrorCode.core_not_engaged /\
      exists c, c ∈ cores /\ state !! Z.to_nat c = Some None
  end.
Proof.
  induction cores as [|core cores IH]; intros total Hnd Hc Ht; simpl.
  - split; [set_solver|]. intros c. by destruct (total !! c).
  - apply NoDup_cons in Hnd as [Hnew Hnd]. assert (0 <= core < C) as Hcore by (apply Hc; set_solver).
    destruct (get_item_total state core) as (e & He & Hl); [lia|]. rewrite He. simpl.
    destruct e as [p|]; [|split; [done|exists core; set_solver]].
    unfold increment. destruct (Ht core Hcore) as (n & Hn). rewrite Hn. simpl.
    specialize (IH (<[core := n + 1]> total) Hnd ltac:(set_solver)).
    destruct (count_cores state cores _) as [total'|e].
    + destruct IH as [H1 H2]; [intros c Hcr; destruct (decide (c = core)) as [->|];
        [rewrite lookup_insert_eq; by eexists|rewrite lookup_insert_ne by done; by apply Ht]|].
      split; [intros c [->|Hi]%elem_of_cons; [by exists p|by apply H1]|]. intros c. rewrite H2.
      destruct (decide (c = core)) as [->|Hne].
      * rewrite lookup_insert_eq, Hn. simpl. by rewrite decide_False, decide_True by set_solver.
      * rewrite lookup_insert_ne by done. destruct (total !! c); simpl; [|done]. f_equal.
        by apply decide_ext; set_solver.
    + destruct IH as [-> (c & Hi & Hs)]; [intros c Hcr; destruct (decide (c = core)) as [->|];
        [rewrite lookup_insert_eq; by eexists|rewrite lookup_insert_ne by done; by apply Ht]|].
      split; [done|]. exists c. set_solver.
Qed.

Lemma count_assurances_run assurances : forall total,
  (forall a, a ∈ assurances -> Z.of_nat (length (as_bitfield a)) = C) -> (forall c, 0 <= c < C -> is_Some (total !! c)) ->
  match count_assurances state assurances total with
  | Ret total' => (forall a, a ∈ assurances -> engages_pending state a) /\
      forall c, total' !! c = (fun n => n + assurers assurances c) <$> total !! c
  | Raise e => e = AssuranceE AssurancesErrorCode.core_not_engaged /\
      exists a c, a ∈ assurances /\ c ∈ cores_engaged a /\ state !! Z.to_nat c = Some None
  end.
Proof.
  induction assurances as [|a assurances IH]; intros total Hb Ht; simpl.
  - split; [set_solver|]. intros c. destruct (total !! c); simpl; [|done]. f_equal. unfold assurers. simpl. lia.
  - pose proof (count_cores_run (cores_engaged a) total (NoDup_cores_engaged a)) as Hcores.
    destruct (count_cores state (cores_engaged a) total) as [total'|e]; simpl.
    + destruct Hcores as [H1 H2]; [|done|].
      { intros c Hcr%cores_engaged_range. rewrite Hb in Hcr by set_solver. done. }
      specialize (IH total'). destruct (count_assurances state assurances total') as [t|e].
      * destruct IH as [H3 H4]; [set_solver| |].
        { intros c Hcr. rewrite H2. destruct (Ht c Hcr) as (n & ->). by eexists. }
        split; [intros b [->|Hi]%elem_of_cons; [done|by apply H3]|]. intros c. rewrite H4, H2.
        destruct (total !! c); simpl; [|done]. f_equal. unfold assurers. rewrite filter_cons.
        case_decide; simpl; lia.
      * destruct IH as [-> (b & c & ? & ? & ?)]; [set_solver| |].
        { intros c Hcr. rewrite H2. destruct (Ht c Hcr) as (n & ->). by eexists. }
        split; [done|]. exists b, c. set_solver.
    + destruct Hcores as [-> (c & Hi & Hs)]; [|done|].
      { intros c Hcr%cores_engaged_range. rewrite Hb in Hcr by set_solver. done. }
      split; [done|]. exists a, c. set_solver.
Qed.

Lemma no_assurances_lookup c : 0 <= c < C -> no_assurances gp !! c = Some 0.
Proof.
  intros Hc. unfold no_assurances. apply elem_of_list_to_map.
  - rewrite map_map. simpl. rewrite map_id. apply NoDup_py_range.
  - apply list_elem_of_fmap. exists c. split; [done|]. by apply elem_of_py_range.
Qed.
End counts.

(** ** The cores *)

Section cores.
Context (gp : GpConstants) (threshold : Z) (size_changed : bool) (slot : Z) (n : Z -> Z).

(** Whether the report of a core becomes available, and whether the core is freed. *)
Definition becomes_available (c : Z) : bool := threshold <=? n c.
Definition is_freed (c : Z) (p : AssuranceStateItem) : bool :=
  becomes_available c || (size_changed || (pe_timeout p + UNAVAILABLE_WORK_REPLACEMENT_PERIOD gp <=? slot)).

Definition freed_entry (c : nat) (e : option AssuranceStateItem) : option AssuranceStateItem :=
  match e with Some p => if is_freed (Z.of_nat c) p then None else Some p | None => None end.
Definition available_entry (c : nat) (e : option AssuranceStateItem) : list WorkReport :=
  match e with Some p => if becomes_available (Z.of_nat c) then [pe_report p] else [] | None => [] end.

(** One core: [l] are the entries already handled. *)
Lemma check_available_step total l e entries reported : total !! Z.of_nat (length l) = Some (n (Z.of_nat (length l))) ->
  check_available gp total threshold size_changed slot (Z.of_nat (length l)) (e :: entries) (l ++ e :: entries) reported =
  check_available gp total threshold size_changed slot (Z.of_nat (length l) + 1) entries
    (l ++ freed_entry (length l) e :: entries) (reported ++ available_entry (length l) e).
Proof.
  intros Ht. destruct e as [p|]; simpl; [|by rewrite app_nil_r]. rewrite Ht.
  assert (forall x, set_item (l ++ x :: entries) (Z.of_nat (length l)) (None : option AssuranceStateItem) = Ret (l ++ None :: entries)) as Hset.
  { intros x. unfold set_item. rewrite py_set_nonneg by (rewrite length_app; simpl; lia). rewrite Nat2Z.id.
    by rewrite insert_app_r_alt, Nat.sub_diag by lia. }
  unfold is_freed. fold (becomes_available (Z.of_nat (length l))).
  destruct (becomes_available (Z.of_nat (length l))); cbn [orb]; rewrite ?Hset; cbn [mbind outcome_bind].
  - by destruct (size_changed || _); rewrite ?Hset.
  - rewrite app_nil_r. by destruct (size_changed || _); rewrite ?Hset.
Qed.

Lemma check_available_run total entries : forall l reported,
  (forall c, 0 <= c < Z.of_nat (length l + length entries) -> total !! c = Some (n c)) ->
  check_available gp total threshold size_changed slot (Z.of_nat (length l)) entries (l ++ entries) reported =
  Ret (mkAfterAssurances
    (l ++ imap (fun c => freed_entry (length l + c)) entries)
    (reported ++ concat (imap (fun c => available_entry (length l + c)) entries))).
Proof.
  induction entries as [|e entries IH]; intros l reported Ht; [simpl; by rewrite !app_nil_r|].
  rewrite check_available_step by (apply Ht; simpl; lia).
  pose proof (IH (l ++ [freed_entry (length l) e]) (reported ++ available_entry (length l) e)) as H.
  rewrite length_app, <- app_assoc in H. simpl length in H. simpl app in H.
  replace (Z.of_nat (length l + 1)) with (Z.of_nat (length l) + 1) in H by lia.
  rewrite H by (intros c Hc; apply Ht; simpl; lia). rewrite <- !app_assoc. simpl. rewrite Nat.add_0_r.
  assert (forall B (f : nat -> option AssuranceStateItem -> B),
    imap (fun c => f (length l + 1 + c)%nat) entries = imap ((fun c => f (length l + c)%nat) ∘ S) entries) as Hs.
  { intros B f. apply imap_ext. intros i y _. simpl. f_equal. lia. }
  by rewrite (Hs _ freed_entry), (Hs _ available_entry).
Qed.
End cores.

(** ** The transition *)

(** The threshold, and whether the validator set changed its size, of the block import. *)
Definition availability_threshold (pre_pool : list ValidatorData) : Z := Z.of_nat (length pre_pool) * 2 / 3 + 1.
Definition pool_resized (pre_pool post_pool : list ValidatorData) : bool :=
  negb (Z.of_nat (length post_pool) =? Z.of_nat (length pre_pool)).

Section transition.
Context (gp : GpConstants) (state : AssurancesState) (assurances : list Assurance).
Context (header : Header) (pre_pool post_pool : list ValidatorData).

(** The state and the reports a block's assurances lead to. *)
Definition freed_state : AssurancesState :=
  imap (freed_entry gp (availability_threshold pre_pool) (pool_resized pre_pool post_pool) (timeslot header)
    (assurers assurances)) state.
Definition available_reports : list WorkReport :=
  concat (imap (available_entry (availability_threshold pre_pool) (assurers assurances)) state).

Lemma assurances_transition_run :
  Z.of_nat (length state) = CORE_COUNT gp ->
  (forall a, a ∈ assurances -> Z.of_nat (length (as_bitfield a)) = CORE_COUNT gp) ->
  match state_transition_after_assurances gp assurances state header (Some pre_pool) (Some post_pool) with
  | Ret out => (forall a, a ∈ assurances -> engages_pending state a) /\ out = mkAfterAssurances freed_state available_reports
  | Raise e => e = AssuranceE AssurancesErrorCode.core_not_engaged /\
      exists a c, a ∈ assurances /\ c ∈ cores_engaged a /\ state !! Z.to_nat c = Some None
  end.
Proof.
  intros Hstate Hbits. unfold state_transition_after_assurances.
  pose proof (count_assurances_run gp state Hstate assurances (no_assurances gp) Hbits) as H.
  assert (forall c, 0 <= c < CORE_COUNT gp -> is_Some (no_assurances gp !! c)) as H0.
  { intros c Hc. rewrite no_assurances_lookup by done. by eexists. }
  specialize (H H0). destruct (count_assurances state assurances (no_assurances gp)) as [total|e]; simpl; [|done].
  destruct H as [Hpend Ht].
  pose proof (check_available_run gp (availability_threshold pre_pool) (pool_resized pre_pool post_pool) (timeslot header)
    (assurers assurances) total state [] []) as Hrun.
  simpl in Hrun. change (Z.of_nat 0) with 0 in Hrun. fold (availability_threshold pre_pool). fold (pool_resized pre_pool post_pool).
  rewrite Hrun; [by split|]. intros c Hc. rewrite Ht, no_assurances_lookup by lia. done.
Qed.

Lemma lookup_freed c p : freed_state !! c = Some (Some p) <->
  state !! c = Some (Some p) /\ is_freed gp (availability_threshold pre_pool) (pool_resized pre_pool post_pool)
    (timeslot header) (assurers assurances) (Z.of_nat c) p = false.
Proof.
  unfold freed_state. rewrite list_lookup_imap. destruct (state !! c) as [[q|]|]; simpl; [|naive_solver..].
  destruct (is_freed _ _ _ _ _ _ q) eqn:E; naive_solver congruence.
Qed.

Lemma length_freed_state : length freed_state = length state.
Proof. apply length_imap. Qed.

Lemma elem_of_available w : w ∈ available_reports <-> exists c p, state !! c = Some (Some p) /\ pe_report p = w /\
  availability_threshold pre_pool <= assurers assurances (Z.of_nat c).
Proof.
  unfold available_reports. rewrite list_elem_of_In, in_concat. setoid_rewrite <- list_elem_of_In.
  setoid_rewrite elem_of_lookup_imap. split.
  - intros (l & (c & e & -> & Hc) & Hw). destruct e as [p|]; simpl in Hw; [|set_solver].
    unfold becomes_available in Hw. destruct (Z.leb_spec (availability_threshold pre_pool) (assurers assurances (Z.of_nat c))); [|set_solver].
    exists c, p. set_solver.
  - intros (c & p & Hc & <- & Hn). eexists. split; [exists c, (Some p); split; [done|exact Hc]|].
    simpl. unfold becomes_available. rewrite (proj2 (Z.leb_le _ _) Hn). set_solver.
Qed.

(** The validators behind the count of a core. *)
Lemma assurers_validators c : StronglySorted Z.lt (map as_validator_index assurances) ->
  exists vs, NoDup vs /\ Z.of_nat (length vs) = assurers assurances c /\
    forall v, v ∈ vs -> exists a, a ∈ assurances /\ as_validator_index a = v /\ c ∈ cores_engaged a.
Proof.
  intros Hs%Z_lt_NoDup. exists (map as_validator_index (filter (fun a => c ∈ cores_engaged a) assurances)). split_and!.
  - eapply sublist_NoDup; [exact Hs|]. by apply (fmap_sublist as_validator_index), sublist_filter.
  - unfold assurers. by rewrite length_map.
  - intros v (a & -> & Ha)%list_elem_of_fmap. apply list_elem_of_filter in Ha as [? ?]. by exists a.
Qed.
End transition.

Lemma threshold_two_thirds pre_pool n : availability_threshold pre_pool <= n -> 2 * Z.of_nat (length pre_pool) < 3 * n.
Proof. unfold availability_threshold. intros H. pose proof (Z.mul_succ_div_gt (Z.of_nat (length pre_pool) * 2) 3 ltac:(lia)). lia. Qed.

(** ** The properties *)

(** the transition on the assurances of a block either fails with [core_not_engaged],
    exactly because some assurance is for a core without a pending report, or frees a core when
    its report is assured by the threshold, has timed out or the validator set changed its
    size, leaves every other core as it is, and reports as available, in the order of the
    cores, the reports that reached the threshold. *)
Theorem assurances_transition_spec gp state assurances header pre_pool post_pool :
  Z.of_nat (length state) = CORE_COUNT gp ->
  (forall a, a ∈ assurances -> Z.of_nat (length (as_bitfield a)) = CORE_COUNT gp) ->
  match state_transition_after_assurances gp assurances state header (Some pre_pool) (Some post_pool) with
  | Ret out => (forall a, a ∈ assurances -> engages_pending state a) /\
      out = mkAfterAssurances (freed_state gp state assurances header pre_pool post_pool)
              (available_reports state assurances pre_pool)
  | Raise e => e = AssuranceE AssurancesErrorCode.core_not_engaged /\
      exists a c, a ∈ assurances /\ c ∈ cores_engaged a /\ state !! Z.to_nat c = Some None
  end.
Proof. apply assurances_transition_run. Qed.

(** C27: a report becomes available in a block only if it was pending on a core, no verdict of
    the block rejects it, its core is freed, and more than two thirds of the validators,
    distinct ones, signed an assurance for that core and the block's parent. *)
Theorem availability_supermajority blake2b_256_hash ed_verify encode_report encode_bitfield gp
    disputes pre assurances header pre_pool post_pool out w :
  Z.of_nat (length pre) = CORE_COUNT gp ->
  (forall a, a ∈ assurances -> Z.of_nat (length (as_bitfield a)) = CORE_COUNT gp) ->
  validate_after_disputes blake2b_256_hash ed_verify encode_bitfield assurances pre_pool header = Ret tt ->
  state_transition_after_assurances gp assurances
    (state_transition_after_disputes blake2b_256_hash encode_report disputes pre) header (Some pre_pool) (Some post_pool) = Ret out ->
  w ∈ aa_reported out ->
  exists c p vs, pre !! c = Some (Some p) /\ pe_report p = w /\ aa_state out !! c = Some None /\
    (report_hash blake2b_256_hash encode_report w ∉ rejected_reports disputes) /\
    NoDup vs /\ 2 * Z.of_nat (length pre_pool) < 3 * Z.of_nat (length vs) /\
    forall v, v ∈ vs -> exists a, a ∈ assurances /\ as_validator_index a = v /\ Z.of_nat c ∈ cores_engaged a /\
      assurance_signed blake2b_256_hash ed_verify encode_bitfield header pre_pool a.
Proof.
  intros Hpre Hbits [Hs Hsigned]%validate_after_disputes_run Hrun Hw.
  set (state := state_transition_after_disputes _ _ _ _) in *.
  assert (Z.of_nat (length state) = CORE_COUNT gp) as Hstate by (unfold state, state_transition_after_disputes; by rewrite length_map).
  pose proof (assurances_transition_run gp state assurances header pre_pool post_pool Hstate Hbits) as H.
  rewrite Hrun in H. destruct H as [_ ->]. simpl in *.
  apply elem_of_available in Hw as (c & p & Hc & Hp & Hn).
  destruct (assurers_validators assurances (Z.of_nat c) Hs) as (vs & Hnd & Hlen & Hvs).
  assert (pre !! c = Some (Some p) /\ report_hash blake2b_256_hash encode_report (pe_report p) ∉ rejected_reports disputes) as [Hprec Hrej].
  { unfold state, state_transition_after_disputes in Hc. rewrite lookup_map in Hc.
    destruct (pre !! c) as [[q|]|]; simpl in Hc; try done. case_bool_decide; [done|]. by injection Hc as ->. }
  exists c, p, vs. split_and!; [done|done| |by rewrite <- Hp|done|by rewrite Hlen; apply threshold_two_thirds|].
  - unfold freed_state. rewrite list_lookup_imap, Hc. simpl. unfold is_freed, becomes_available.
    by rewrite (proj2 (Z.leb_le _ _) Hn).
  - intros v Hv. destruct (Hvs v Hv) as (a & Ha & <- & Hcore). exists a. split_and!; [done..|by apply Hsigned].
Qed.
