(* ===== verification/Storage.v ===== *)
(** * The state of every block

    [StateStorage] of [state/storage.py] over [InMemoryStorageEngine] of [storage.py]: the
    engine holds the finalized state, a change set per retained block what that block wrote,
    and a block's state is the engine's under the change sets of its ancestors.  Reads walk
    the ancestry; finalizing a block moves its change sets into the engine and drops the forks
    it leaves behind.

    [state_of] is the state of a block as a map, without walks: [storage_get_view] and
    [storage_as_dict_view] show that the two ways of reading compute it,
    [commit_isolates_forks] that a block's transaction changes no other block's state, and
    [finalize_preserves_states] that finalization changes none at all. *)

From Stdlib Require Import ZArith Lia Bool List.
From stdpp Require Import base numbers option list sets gmap.
From S2P Require Import Prelude ByteOrder StateBase.
Import ListNotations.

#[local] Open Scope Z_scope.

(** ** Data *)

(** What the storage keeps of a header, or of the reference to one ([AncestorReference], which
    has no [parent_state_root]). *)
Record Ancestor : Type := mkAncestor {
  anc_hash : bytes;
  anc_parent : bytes;
  anc_timeslot : Z;
  anc_parent_state_root : option bytes
}.

(** Writes: a value, or [None] for [ItemStatus.deleted]. *)
Abbreviation ChangeSet := (gmap bytes (option bytes)).

(** A missing parent and the parent [None] read the same. *)
Record StateStorage : Type := mkStorage {
  storage_engine : gmap bytes bytes;
  finalized_block_hash : option bytes;
  block_hash : option bytes;
  change_sets : gmap bytes ChangeSet;
  transaction : ChangeSet;
  parents : gmap bytes (option bytes);
  ancestors : gmap bytes Ancestor
}.

#[local] Abbreviation hash0 := (replicate 32 0 : bytes).

(** [bytes] that are not empty are true. *)
Definition truthy (b : option bytes) : bool := match b with Some (_ :: _) => true | _ => false end.

(** [d.get(k)] of [parents]. *)
Definition parent_of (s : StateStorage) (b : bytes) : option bytes := mjoin (parents s !! b).

(** ** Headers *)

Definition default_header (hash : bytes) : Ancestor := mkAncestor hash hash0 0 (Some hash0).

Definition add_ancestor (header : Ancestor) (s : StateStorage) : StateStorage :=
  mkStorage (storage_engine s) (finalized_block_hash s) (block_hash s) (change_sets s) (transaction s)
    (<[anc_hash header := Some (anc_parent header)]> (parents s)) (<[anc_hash header := header]> (ancestors s)).

(** [default_hash] is the hash of [Header.default()]. *)
Definition get_parent (default_hash : bytes) (parent : bytes) (s : StateStorage) : option Ancestor :=
  if bool_decide (parent = hash0) then Some (default_header default_hash) else ancestors s !! parent.

Definition set_finalized_block_hash (b : bytes) (s : StateStorage) : StateStorage :=
  mkStorage (storage_engine s) (Some b) (block_hash s) (change_sets s) (transaction s) (parents s) (ancestors s).

Definition set_finalized_header (header : Ancestor) (s : StateStorage) : StateStorage :=
  add_ancestor header (set_finalized_block_hash (anc_hash header) s).

(** ** Selecting a block *)

Definition pending (s : StateStorage) : bool := negb (bool_decide (transaction s = ∅)).

Definition set_block_hash (b parent : bytes) (s : StateStorage) : outcome state_exn StateStorage :=
  if bool_decide (parents s !! parent = None) &&
     negb (bool_decide (Some parent = finalized_block_hash s) || bool_decide (parent = hash0))
  then Raise ValueError
  else if pending s then Raise ValueError
  else Ret (mkStorage (storage_engine s) (finalized_block_hash s) (Some b) (<[b := ∅]> (change_sets s)) (transaction s)
    (<[b := Some parent]> (parents s)) (ancestors s)).

Definition set_header (header : Ancestor) (s : StateStorage) : outcome state_exn StateStorage :=
  s ← set_block_hash (anc_hash header) (anc_parent header) s;
  Ret (mkStorage (storage_engine s) (finalized_block_hash s) (block_hash s) (change_sets s) (transaction s)
    (parents s) (<[anc_hash header := header]> (ancestors s))).

Definition set_temporary_block_hash (parent : bytes) : StateStorage -> outcome state_exn StateStorage :=
  set_block_hash hash0 parent.

Definition has_state_at (b : bytes) (s : StateStorage) : bool :=
  bool_decide (Some b = finalized_block_hash s) || bool_decide (is_Some (change_sets s !! b)).

Definition with_block_hash (b : option bytes) (s : StateStorage) : StateStorage :=
  mkStorage (storage_engine s) (finalized_block_hash s) b (change_sets s) (transaction s) (parents s) (ancestors s).

Definition select_block_hash (b : bytes) (s : StateStorage) : outcome state_exn StateStorage :=
  if pending s then Raise ValueError
  else if negb (has_state_at b s) then Raise KeyError
  else Ret (with_block_hash (Some b) s).

(** [d[b] = d.pop(bytes(32))], twice. *)
Definition update_temporary_block_hash (b : bytes) (s : StateStorage) : outcome state_exn StateStorage :=
  match parents s !! hash0, change_sets s !! hash0 with
  | Some p, Some c =>
      Ret (mkStorage (storage_engine s) (finalized_block_hash s) (Some b) (<[b := c]> (delete hash0 (change_sets s)))
        (transaction s) (<[b := p]> (delete hash0 (parents s))) (ancestors s))
  | _, _ => Raise KeyError
  end.

Definition clear_block_hash (s : StateStorage) : StateStorage := with_block_hash None s.

(** ** Reading *)

(** The walk through the change sets; [None] is running out of fuel, [Ret None] not finding
    the key. *)
Fixpoint get_walk (s : StateStorage) (key : bytes) (fuel : nat) (visited : list bytes) (cursor : option bytes)
    : option (outcome state_exn (option (option bytes))) :=
  match fuel with
  | O => None
  | S fuel =>
      match cursor with
      | None => Some (Ret None)
      | Some b =>
          if bool_decide (b ∈ visited) then Some (Raise ValueError)
          else match change_sets s !! b ≫= (fun c => c !! key) with
               | Some v => Some (Ret (Some v))
               | None => get_walk s key fuel (b :: visited) (parent_of s b)
               end
      end
  end.

(** A walk visits every key of [parents], the block it starts from and the end at most. *)
Definition walk_fuel (s : StateStorage) : nat := size (parents s) + 2.

Definition get (key : bytes) (changeset_only : bool) (s : StateStorage) : option (outcome state_exn (option bytes)) :=
  let base := if changeset_only then None else storage_engine s !! key in
  if truthy (block_hash s) then
    match transaction s !! key with
    | Some v => Some (Ret v)
    | None =>
        r ← get_walk s key (walk_fuel s) [] (block_hash s);
        Some (match r with
              | Raise e => Raise e
              | Ret (Some v) => Ret v
              | Ret None => Ret base
              end)
    end
  else Some (Ret base).

Definition get_finalized (key : bytes) (s : StateStorage) : option bytes := storage_engine s !! key.

(** Applying a change set to a state. *)
Definition overlay (c : ChangeSet) (m : gmap bytes bytes) : gmap bytes bytes :=
  merge (fun w v => match w with Some w => w | None => v end) c m.

(** The loop of [as_dict]: [items] and the keys already processed. *)
Definition process (c : ChangeSet) (st : gmap bytes bytes * gset bytes) : gmap bytes bytes * gset bytes :=
  (overlay (filter (fun p => p.1 ∉ st.2) c) st.1, st.2 ∪ dom c).

Fixpoint dict_walk (s : StateStorage) (fuel : nat) (visited : list bytes) (cursor : option bytes)
    (st : gmap bytes bytes * gset bytes) : option (outcome state_exn (gmap bytes bytes)) :=
  match fuel with
  | O => None
  | S fuel =>
      match cursor with
      | None => Some (Ret st.1)
      | Some b =>
          if bool_decide (b ∈ visited) then Some (Raise ValueError)
          else dict_walk s fuel (b :: visited) (parent_of s b)
                 (match change_sets s !! b with Some c => process c st | None => st end)
      end
  end.

Definition as_dict (s : StateStorage) : option (outcome state_exn (gmap bytes bytes)) :=
  if pending s then Some (Raise ValueError)
  else match block_hash s with
       | None => Some (Ret (storage_engine s))
       | b => dict_walk s (walk_fuel s) [] b (storage_engine s, ∅)
       end.

Fixpoint dict_walk_at (s : StateStorage) (fuel : nat) (visited : list bytes) (cursor : option bytes)
    (st : gmap bytes bytes * gset bytes) : option (outcome state_exn (gmap bytes bytes)) :=
  match fuel with
  | O => None
  | S fuel =>
      if bool_decide (cursor = finalized_block_hash s) then Some (Ret st.1)
      else match cursor with
           | None => Some (Raise KeyError)
           | Some b =>
               if bool_decide (b ∈ visited) then Some (Raise KeyError)
               else match change_sets s !! b with
                    | None => Some (Raise KeyError)
                    | Some c =>
                        match parents s !! b with
                        | None => Some (Raise KeyError)
                        | Some p => dict_walk_at s fuel (b :: visited) p (process c st)
                        end
                    end
           end
  end.

Definition as_dict_at (b : bytes) (s : StateStorage) : option (outcome state_exn (gmap bytes bytes)) :=
  if negb (Nat.eqb (length b) 32) || bool_decide (b = hash0) then Some (Raise KeyError)
  else if bool_decide (Some b = finalized_block_hash s) then Some (Ret (storage_engine s))
  else if bool_decide (change_sets s !! b = None) then Some (Raise KeyError)
  else dict_walk_at s (walk_fuel s) [] (Some b) (storage_engine s, ∅).

(** ** Writing *)

Definition with_transaction (t : ChangeSet) (s : StateStorage) : StateStorage :=
  mkStorage (storage_engine s) (finalized_block_hash s) (block_hash s) (change_sets s) t (parents s) (ancestors s).
Definition with_engine (e : gmap bytes bytes) (s : StateStorage) : StateStorage :=
  mkStorage e (finalized_block_hash s) (block_hash s) (change_sets s) (transaction s) (parents s) (ancestors s).

(** A value is never [None] here: [delete] below writes the mark. *)
Definition put (key value : bytes) (s : StateStorage) : StateStorage :=
  if truthy (block_hash s) then with_transaction (<[key := Some value]> (transaction s)) s
  else with_engine (<[key := value]> (storage_engine s)) s.

Definition delete_key (key : bytes) (s : StateStorage) : StateStorage :=
  if truthy (block_hash s) then with_transaction (<[key := None]> (transaction s)) s
  else with_engine (delete key (storage_engine s)) s.

Definition start_tx (s : StateStorage) : StateStorage := with_transaction ∅ s.

Definition commit (s : StateStorage) : outcome state_exn StateStorage :=
  match block_hash s with
  | None => Ret (with_transaction ∅ s)
  | Some b =>
      if bool_decide (b = hash0) then Raise ValueError
      else Ret (mkStorage (storage_engine s) (finalized_block_hash s) (block_hash s)
        (<[b := transaction s]> (change_sets s)) ∅ (parents s) (ancestors s))
  end.

Definition rollback (s : StateStorage) : StateStorage :=
  match block_hash s with
  | None => with_transaction ∅ s
  | Some b => mkStorage (storage_engine s) (finalized_block_hash s) (block_hash s) (delete b (change_sets s)) ∅
      (parents s) (ancestors s)
  end.

Definition discard_candidate (b : bytes) (restore : option bytes) (s : StateStorage) : outcome state_exn StateStorage :=
  if bool_decide (Some b = finalized_block_hash s) then Raise ValueError
  else if negb (bool_decide (block_hash s = Some b)) then Raise ValueError
  else if match restore with Some r => negb (has_state_at r s) | None => false end then Raise KeyError
  else Ret (mkStorage (storage_engine s) (finalized_block_hash s) restore (delete b (change_sets s)) ∅
    (delete b (parents s)) (delete b (ancestors s))).

(** ** Finalization *)

(** The path from a block to the finalized one, the block first. *)
Fixpoint path_walk (s : StateStorage) (fuel : nat) (visited : list bytes) (cursor : option bytes)
    : option (outcome state_exn (list bytes)) :=
  match fuel with
  | O => None
  | S fuel =>
      if bool_decide (cursor = finalized_block_hash s) then Some (Ret [])
      else match cursor with
           | None => Some (Raise ValueError)
           | Some b =>
               if bool_decide (b ∈ visited) || bool_decide (change_sets s !! b = None) then Some (Raise ValueError)
               else
                 r ← path_walk s fuel (b :: visited) (parent_of s b);
                 Some (match r with Ret path => Ret (b :: path) | Raise e => Raise e end)
           end
  end.

(** [descends_from_target]: [target] is among the blocks of the walk. *)
Fixpoint descends (s : StateStorage) (target : bytes) (fuel : nat) (seen : list bytes) (cursor : bytes) : option bool :=
  match fuel with
  | O => None
  | S fuel =>
      if bool_decide (cursor ∈ seen) then Some false
      else if bool_decide (cursor = target) then Some true
      else match parent_of s cursor with
           | None => Some false
           | Some p => descends s target fuel (cursor :: seen) p
           end
  end.

Definition retained (s : StateStorage) (target : bytes) (path : list bytes) (candidate : bytes) : bool :=
  bool_decide (is_Some (change_sets s !! candidate)) && negb (bool_decide (candidate ∈ path)) &&
  bool_decide (descends s target (walk_fuel s) [] candidate = Some true).

(** The transaction of the engine applies the change sets from the oldest to the newest. *)
Definition apply_path (s : StateStorage) (path : list bytes) : gmap bytes bytes :=
  fold_left (fun e b => overlay (default ∅ (change_sets s !! b)) e) (rev path) (storage_engine s).

Definition finalize (b : bytes) (s : StateStorage) : option (outcome state_exn StateStorage) :=
  if pending s then Some (Raise ValueError)
  else if bool_decide (Some b = finalized_block_hash s) then Some (Ret s)
  else
    r ← path_walk s (walk_fuel s) [] (Some b);
    match r with
    | Raise e => Some (Raise e)
    | Ret path =>
        let kept c := retained s b path c || bool_decide (c = b) in
        Some (Ret (mkStorage (apply_path s path) (Some b)
          (match block_hash s with Some c => if kept c then Some c else Some b | None => Some b end)
          (filter (fun p => retained s b path p.1 = true) (change_sets s)) (transaction s)
          (<[b := None]> (filter (fun p => kept p.1 = true) (parents s)))
          (filter (fun p => kept p.1 = true) (ancestors s))))
    end.

Definition clear (keep_ancestors : bool) (s : StateStorage) : StateStorage :=
  mkStorage (storage_engine s) None None ∅ ∅ ∅ (if keep_ancestors then ancestors s else ∅).

(** ** Chains of blocks *)

(** The ancestry of a block, the block first. *)
Inductive chain (s : StateStorage) : option bytes -> list bytes -> Prop :=
| chain_end : chain s None []
| chain_block b l : chain s (parent_of s b) l -> chain s (Some b) (b :: l).

Fixpoint walk (s : StateStorage) (fuel : nat) (cursor : option bytes) : list bytes :=
  match fuel, cursor with
  | S fuel, Some b => b :: walk s fuel (parent_of s b)
  | _, _ => []
  end.
Definition ancestry (s : StateStorage) (b : bytes) : list bytes := walk s (walk_fuel s) (Some b).

(** The change sets of a list of blocks, the first one newest, over a state. *)
Definition layers (s : StateStorage) (l : list bytes) (base : gmap bytes bytes) : gmap bytes bytes :=
  foldr (fun b m => overlay (default ∅ (change_sets s !! b)) m) base l.

(** The posterior state of a block. *)
Definition state_of (s : StateStorage) (b : bytes) : gmap bytes bytes := layers s (ancestry s b) (storage_engine s).

Section chains.
Context (s : StateStorage).

Lemma chain_unique c l l' : chain s c l -> chain s c l' -> l = l'.
Proof. intros H. revert l'. induction H as [|b l H IH]; intros l'; inversion 1; [done|]. f_equal. by apply IH. Qed.

(** The chain of a member is the rest of the list. *)
Lemma chain_suffix c l x : chain s c l -> x ∈ l -> exists l1 l2, l = l1 ++ x :: l2 /\ chain s (Some x) (x :: l2).
Proof.
  induction 1 as [|b l H IH]; [set_solver|]. intros [->|Hx]%elem_of_cons; [exists [], l; split; [done|by constructor]|].
  destruct (IH Hx) as (l1 & l2 & -> & Hc). by exists (b :: l1), l2.
Qed.

Lemma chain_NoDup c l : chain s c l -> NoDup l.
Proof.
  induction 1 as [|b l H IH]; constructor; [|done]. intros Hb.
  destruct (chain_suffix _ _ _ H Hb) as (l1 & l2 & -> & Hc).
  assert (b :: l1 ++ b :: l2 = b :: l2) as Heq by (eapply chain_unique; [|exact Hc]; by constructor).
  apply (f_equal length) in Heq. simpl in Heq. rewrite length_app in Heq. simpl in Heq. lia.
Qed.

(** All blocks of a chain but the last have an entry in [parents]. *)
Lemma chain_length c l : chain s c l -> (length l <= size (parents s) + 1)%nat.
Proof.
  intros Hc. pose proof (chain_NoDup _ _ Hc) as Hnd.
  assert (forall l1 x l2, l = l1 ++ x :: l2 -> l2 <> [] -> x ∈ dom (parents s)) as Hdom.
  { clear Hnd. induction Hc as [|b l Hc IH]; intros l1 x l2 Heq Hne; [by destruct l1|].
    destruct l1 as [|y l1]; simplify_list_eq; [|by eapply IH]. apply elem_of_dom. unfold parent_of in Hc.
    destruct (parents s !! x); [by eexists|]. simpl in Hc. inversion Hc. congruence. }
  destruct l as [|b l _] using rev_ind; [simpl; lia|]. rewrite length_app. simpl.
  apply NoDup_app in Hnd as (Hnd & _ & _).
  assert (list_to_set l ⊆ dom (parents s)) as Hsub.
  { intros x Hx%elem_of_list_to_set. apply list_elem_of_split in Hx as (l1 & l2 & ->).
    apply (Hdom l1 x (l2 ++ [b])); [by rewrite <- app_assoc|by destruct l2]. }
  apply subseteq_size in Hsub. rewrite size_list_to_set, size_dom in Hsub by done. lia.
Qed.

Lemma walk_chain c l fuel : chain s c l -> (length l <= fuel)%nat -> walk s fuel c = l.
Proof.
  intros Hc. revert fuel. induction Hc as [|b l Hc IH]; intros [|fuel] Hf; simpl in *; try done; [lia|].
  f_equal. apply IH. lia.
Qed.

Lemma ancestry_chain b l : chain s (Some b) l -> ancestry s b = l.
Proof. intros Hc. apply walk_chain; [done|]. pose proof (chain_length _ _ Hc). unfold walk_fuel. lia. Qed.

(** Looking a key up in the layers. *)
Fixpoint first_write (key : bytes) (l : list bytes) : option (option bytes) :=
  match l with
  | [] => None
  | b :: l => match change_sets s !! b ≫= (fun c => c !! key) with Some v => Some v | None => first_write key l end
  end.

Lemma lookup_overlay c m key : overlay c m !! key = match c !! key with Some v => v | None => m !! key end.
Proof. unfold overlay. rewrite lookup_merge. by destruct (c !! key), (m !! key). Qed.

Lemma lookup_layers l base key :
  layers s l base !! key = match first_write key l with Some v => v | None => base !! key end.
Proof.
  induction l as [|b l IH]; simpl; [done|]. rewrite lookup_overlay, IH.
  destruct (change_sets s !! b) as [c|]; simpl; [by destruct (c !! key)|]. by rewrite lookup_empty.
Qed.

Lemma get_walk_run key c l : chain s c l -> forall fuel visited, (length l < fuel)%nat -> (forall x, x ∈ l -> x ∉ visited) ->
  get_walk s key fuel visited c = Some (Ret (first_write key l)).
Proof.
  intros Hc. induction Hc as [|b l Hc IH]; intros [|fuel] visited Hf Hv; simpl in *; try lia; [done|].
  rewrite bool_decide_false by set_solver. destruct (change_sets s !! b ≫= _); [done|]. apply IH; [lia|].
  intros x Hx. pose proof (chain_NoDup _ _ (chain_block s b l Hc)) as [Hb _]%NoDup_cons. set_solver.
Qed.

Lemma lookup_process c st key :
  (process c st).1 !! key = if decide (key ∈ st.2) then st.1 !! key
    else match c !! key with Some v => v | None => st.1 !! key end.
Proof.
  unfold process. simpl. rewrite lookup_overlay, map_lookup_filter. destruct (c !! key) as [v|]; simpl; [|by case_decide].
  case_guard as Hg; simpl in *; case_decide; naive_solver.
Qed.

(** The walk of [as_dict]: keys already processed keep their value. *)
Lemma dict_walk_run c l : chain s c l -> forall fuel visited st, (length l < fuel)%nat -> (forall x, x ∈ l -> x ∉ visited) ->
  exists m, dict_walk s fuel visited c st = Some (Ret m) /\
    forall key, m !! key = if decide (key ∈ st.2) then st.1 !! key
      else match first_write key l with Some v => v | None => st.1 !! key end.
Proof.
  intros Hc. induction Hc as [|b l Hc IH]; intros [|fuel] visited st Hf Hv; simpl in *; try lia.
  - exists st.1. split; [done|]. intros key. by case_decide.
  - rewrite bool_decide_false by set_solver.
    destruct (IH fuel (b :: visited) (match change_sets s !! b with Some c => process c st | None => st end)) as (m & -> & Hm); [lia| |].
    { intros x Hx. pose proof (chain_NoDup _ _ (chain_block s b l Hc)) as [Hb _]%NoDup_cons. set_solver. }
    exists m. split; [done|]. intros key. rewrite Hm. destruct (change_sets s !! b) as [c|]; simpl; [|done].
    rewrite (lookup_process c st key : overlay _ _ !! key = _). destruct (decide (key ∈ st.2)); [by rewrite decide_True by set_solver|].
    destruct (c !! key) as [v|] eqn:Ec; [by rewrite decide_True by (apply elem_of_dom_2 in Ec; set_solver)|].
    rewrite decide_False; [done|]. apply not_elem_of_dom in Ec. set_solver.
Qed.
End chains.

(** Whatever the parents are, the walk of [get] ends: in a cycle it raises. *)
Lemma get_walk_total s key fuel : forall visited c, NoDup visited -> (forall x, x ∈ visited -> x ∈ dom (parents s)) ->
  (size (parents s) + 2 <= fuel + length visited)%nat -> (c = None -> 1 <= fuel)%nat ->
  exists r, get_walk s key fuel visited c = Some r.
Proof.
  assert (forall l, NoDup l -> (forall x, x ∈ l -> x ∈ dom (parents s)) -> (length l <= size (parents s))%nat) as Hle.
  { intros l Hnd Hl. rewrite <- (size_list_to_set (C := gset bytes)) by done. rewrite <- size_dom.
    apply subseteq_size. intros x Hx%elem_of_list_to_set. by apply Hl. }
  induction fuel as [|fuel IH]; intros visited c Hnd Hv Hf Hc.
  - specialize (Hle visited Hnd Hv). lia.
  - simpl. destruct c as [b|]; [|by eexists]. case_bool_decide as Hb; [by eexists|].
    destruct (change_sets s !! b ≫= _); [by eexists|]. specialize (Hle visited Hnd Hv).
    destruct (parent_of s b) as [p|] eqn:Hp; [|destruct fuel; [lia|by eexists]].
    apply IH; [by constructor| |simpl; lia|done]. intros x [->|Hx]%elem_of_cons; [|by apply Hv].
    unfold parent_of in Hp. apply elem_of_dom. destruct (parents s !! b); [by eexists|done].
Qed.

Lemma get_total key only s : exists r, get key only s = Some r.
Proof.
  unfold get. destruct (truthy (block_hash s)); [|by eexists]. destruct (transaction s !! key); [by eexists|].
  destruct (get_walk_total s key (walk_fuel s) [] (block_hash s)) as (r & ->); [constructor|set_solver|..];
    try (unfold walk_fuel; simpl; lia). simpl. by eexists.
Qed.

(** ** The invariant *)

(** Ancestries end; the finalized block and its ancestors have no change set left; every other
    block with a state was built on a block with a state. *)
Record storage_inv (s : StateStorage) (f : bytes) : Prop := mkStorageInv {
  si_finalized : finalized_block_hash s = Some f;
  si_acyclic : forall b, exists l, chain s (Some b) l;
  si_base : forall x, x ∈ ancestry s f -> change_sets s !! x = None;
  si_closed : forall b, is_Some (change_sets s !! b) -> exists p, parent_of s b = Some p /\ has_state_at p s = true
}.

Lemma has_state_at_spec b s : has_state_at b s = true <-> finalized_block_hash s = Some b \/ is_Some (change_sets s !! b).
Proof. unfold has_state_at. rewrite orb_true_iff, !bool_decide_eq_true. naive_solver. Qed.

Lemma layers_app s l1 l2 base : layers s (l1 ++ l2) base = layers s l1 (layers s l2 base).
Proof. unfold layers. by rewrite foldr_app. Qed.

Lemma overlay_empty m : overlay ∅ m = m.
Proof. apply map_eq. intros k. by rewrite lookup_overlay, lookup_empty. Qed.

Lemma layers_none s l base : (forall x, x ∈ l -> change_sets s !! x = None) -> layers s l base = base.
Proof.
  induction l as [|x l IH]; intros H; simpl; [done|]. rewrite IH by set_solver. rewrite H by set_solver. apply overlay_empty.
Qed.

(** Layers depend on the change sets of their blocks only. *)
Lemma layers_ext s s' l base : (forall x, x ∈ l -> change_sets s' !! x = change_sets s !! x) -> layers s' l base = layers s l base.
Proof. induction l as [|x l IH]; intros H; simpl; [done|]. rewrite IH by set_solver. by rewrite H by set_solver. Qed.

Section invariant.
Context (s : StateStorage) (f : bytes) (Hinv : storage_inv s f).

Lemma ancestry_spec b : chain s (Some b) (ancestry s b).
Proof. destruct (si_acyclic _ _ Hinv b) as (l & Hl). by rewrite (ancestry_chain _ _ _ Hl). Qed.

Lemma ancestry_head b : exists l, ancestry s b = b :: l /\ chain s (parent_of s b) l.
Proof. pose proof (ancestry_spec b) as H. inversion H; subst. by eexists. Qed.

Lemma ancestry_parent b p : parent_of s b = Some p -> ancestry s b = b :: ancestry s p.
Proof.
  intros Hp. destruct (ancestry_head b) as (l & -> & Hc). rewrite Hp in Hc. f_equal.
  eapply chain_unique; [exact Hc|apply ancestry_spec].
Qed.

Lemma descends_step x :
  (forall b, parent_of s x = Some b -> has_state_at b s = true -> exists l, ancestry s b = l ++ ancestry s f /\
    (forall y, y ∈ l -> is_Some (change_sets s !! y)) /\ (f ∉ l)) ->
  has_state_at x s = true -> exists l, ancestry s x = l ++ ancestry s f /\
    (forall y, y ∈ l -> is_Some (change_sets s !! y)) /\ (f ∉ l).
Proof.
  intros IH Hs. destruct (decide (x = f)) as [->|Hne]; [exists []; split_and!; set_solver|].
  apply has_state_at_spec in Hs as [Hs|Hs]; [rewrite (si_finalized _ _ Hinv) in Hs; congruence|].
  destruct (si_closed _ _ Hinv x Hs) as (p & Hp & Hps). destruct (IH p Hp Hps) as (l' & Hl' & Hcs & Hf).
  exists (x :: l'). rewrite (ancestry_parent x p Hp), Hl'.
  split_and!; [done| |set_solver]. intros y [->|Hy]%elem_of_cons; [done|by apply Hcs].
Qed.

(** A block with a state descends from the finalized one, through blocks with a change set. *)
Lemma state_descends b : has_state_at b s = true -> exists l, ancestry s b = l ++ ancestry s f /\
  (forall x, x ∈ l -> is_Some (change_sets s !! x)) /\ (f ∉ l).
Proof.
  assert (forall c l0, chain s c l0 -> forall b, c = Some b -> has_state_at b s = true -> exists l, ancestry s b = l ++ ancestry s f /\
    (forall x, x ∈ l -> is_Some (change_sets s !! x)) /\ (f ∉ l)) as H by (clear b; induction 1 as [|x l0 _ IH]; [done|];
    intros b Hb; injection Hb as <-; revert IH; apply descends_step).
  intros Hs. by apply (H _ _ (ancestry_spec b)).
Qed.

Lemma state_of_finalized : state_of s f = storage_engine s.
Proof. apply layers_none, Hinv. Qed.

Lemma get_run b key only : block_hash s = Some b -> b <> [] -> exists w, 
  get key only s = Some (Ret (match transaction s !! key with Some v => v | None => match w with Some v => v
    | None => if only then None else storage_engine s !! key end end)) /\ w = first_write s key (ancestry s b).
Proof.
  intros Hb Hne. exists (first_write s key (ancestry s b)). split; [|done]. unfold get. rewrite Hb. 
  assert (truthy (Some b) = true) as -> by by destruct b. destruct (transaction s !! key); [done|].
  rewrite (get_walk_run s key _ _ (ancestry_spec b)); [|pose proof (chain_length _ _ _ (ancestry_spec b)); unfold walk_fuel; lia|set_solver].
  simpl. by destruct (first_write s key (ancestry s b)), only.
Qed.

Lemma as_dict_run b : pending s = false -> block_hash s = Some b -> as_dict s = Some (Ret (state_of s b)).
Proof.
  intros Hp Hb. unfold as_dict. rewrite Hp, Hb.
  destruct (dict_walk_run s _ _ (ancestry_spec b) (walk_fuel s) [] (storage_engine s, ∅)) as (m & -> & Hm);
    [pose proof (chain_length _ _ _ (ancestry_spec b)); unfold walk_fuel; lia|set_solver|].
  do 2 f_equal. apply map_eq. intros key. rewrite Hm. unfold state_of. rewrite lookup_layers. simpl.
  by rewrite decide_False by set_solver.
Qed.

(** The walk down to the finalized block. *)
Lemma dict_walk_at_run l : forall b fuel visited st, ancestry s b = l ++ ancestry s f -> (f ∉ l) ->
  (forall x, x ∈ l -> is_Some (change_sets s !! x)) -> (length l < fuel)%nat -> (forall x, x ∈ l -> x ∉ visited) ->
  exists m, dict_walk_at s fuel visited (Some b) st = Some (Ret m) /\
    forall key, m !! key = if decide (key ∈ st.2) then st.1 !! key
      else match first_write s key l with Some v => v | None => st.1 !! key end.
Proof.
  induction l as [|x l IH]; intros b [|fuel] visited st Hl Hf Hcs Hfuel Hv; simpl in Hfuel; try lia; simpl.
  - assert (b = f) as ->.
    { destruct (ancestry_head b) as (? & Hb & _), (ancestry_head f) as (? & Hb' & _). simpl in Hl. congruence. }
    rewrite bool_decide_true by by rewrite (si_finalized _ _ Hinv). exists st.1. split; [done|]. intros key. by case_decide.
  - assert (b = x) as -> by (destruct (ancestry_head b) as (? & Hb & _); simpl in Hl; congruence).
    rewrite bool_decide_false by (rewrite (si_finalized _ _ Hinv); set_solver).
    rewrite bool_decide_false by set_solver. destruct (Hcs x) as (c & Hc); [set_solver|]. rewrite Hc.
    destruct (si_closed _ _ Hinv x) as (p & Hp & _); [by eexists|].
    assert (parents s !! x = Some (Some p)) as ->. { unfold parent_of in Hp. by destruct (parents s !! x) as [[]|]; simplify_eq/=. }
    assert (NoDup (x :: l ++ ancestry s f)) as Hnd by (rewrite app_comm_cons, <- Hl; eapply chain_NoDup, ancestry_spec).
    destruct (IH p fuel (x :: visited) (process c st)) as (m & -> & Hm); [|set_solver|set_solver|lia| |].
    { rewrite (ancestry_parent x p Hp) in Hl. by injection Hl. }
    { intros y Hy. apply NoDup_cons in Hnd as [Hx _]. rewrite elem_of_app in Hx. set_solver. }
    exists m. split; [done|]. intros key. rewrite Hm, lookup_process. simpl.
    destruct (decide (key ∈ st.2)); [by rewrite decide_True by set_solver|].
    destruct (c !! key) as [v|] eqn:Ec; [by rewrite decide_True by (apply elem_of_dom_2 in Ec; set_solver)|].
    rewrite decide_False; [done|]. apply not_elem_of_dom in Ec. set_solver.
Qed.

Lemma as_dict_at_run b : length b = 32%nat -> b <> hash0 -> has_state_at b s = true -> as_dict_at b s = Some (Ret (state_of s b)).
Proof.
  intros Hlen Hz Hs. unfold as_dict_at. rewrite Hlen. simpl. rewrite bool_decide_false by done.
  case_bool_decide as Hf; [rewrite (si_finalized _ _ Hinv) in Hf; injection Hf as ->; by rewrite state_of_finalized|].
  rewrite bool_decide_false by (apply has_state_at_spec in Hs as [Hs|Hs]; [congruence|by intros Hn; rewrite Hn in Hs; destruct Hs]).
  destruct (state_descends b Hs) as (l & Hl & Hcs & Hfl).
  destruct (dict_walk_at_run l b (walk_fuel s) [] (storage_engine s, ∅)) as (m & -> & Hm); [done|done|done| |set_solver|].
  { pose proof (chain_length _ _ _ (ancestry_spec b)) as Hle. rewrite Hl, length_app in Hle. unfold walk_fuel. lia. }
  do 2 f_equal. unfold state_of. rewrite Hl, layers_app, (layers_none s (ancestry s f)) by apply Hinv.
  apply map_eq. intros key. rewrite Hm, lookup_layers. simpl. by rewrite decide_False by set_solver.
Qed.
End invariant.

(** ** A new block *)

Lemma chain_transport s s' c l : chain s c l -> (forall x, x ∈ l -> parent_of s' x = parent_of s x) -> chain s' c l.
Proof.
  induction 1 as [|b l H IH]; intros Hp; constructor. rewrite Hp by set_solver. apply IH. set_solver.
Qed.

Lemma ancestry_transport s s' b l : chain s (Some b) l -> (forall x, x ∈ l -> parent_of s' x = parent_of s x) -> ancestry s' b = l.
Proof. intros Hc Hp. apply ancestry_chain. by eapply chain_transport. Qed.

(** The storage with block [b] on top of [p] and its writes. *)
Definition extended (s : StateStorage) (b p : bytes) (c t : ChangeSet) : StateStorage :=
  mkStorage (storage_engine s) (finalized_block_hash s) (Some b) (<[b := c]> (change_sets s)) t
    (<[b := Some p]> (parents s)) (ancestors s).

(** The block has no state yet, and is not its own ancestor. *)
Definition new_block (s : StateStorage) (b p : bytes) : Prop :=
  has_state_at p s = true /\ change_sets s !! b = None /\ b ∉ ancestry s p.

Section extension.
Context (s : StateStorage) (f : bytes) (Hinv : storage_inv s f).
Context (b p : bytes) (c t : ChangeSet) (Hnew : new_block s b p).
#[local] Abbreviation s' := (extended s b p c t).

Lemma extended_parent x : x <> b -> parent_of s' x = parent_of s x.
Proof. intros Hx. unfold parent_of. simpl. by rewrite lookup_insert_ne. Qed.

Lemma extended_parent_new : parent_of s' b = Some p.
Proof. unfold parent_of. simpl. by rewrite lookup_insert_eq. Qed.

Lemma new_not_below x : has_state_at x s = true -> b ∉ ancestry s x.
Proof.
  destruct Hnew as (Hp & Hc & Hb). intros Hx Hin.
  destruct (state_descends s f Hinv x Hx) as (l & Hl & Hcs & _), (state_descends s f Hinv p Hp) as (l' & Hl' & _).
  rewrite Hl in Hin. apply elem_of_app in Hin as [Hin|Hin]; [destruct (Hcs b Hin); congruence|].
  apply Hb. rewrite Hl'. set_solver.
Qed.

Lemma extended_ancestry x : (b ∉ ancestry s x) -> ancestry s' x = ancestry s x.
Proof.
  intros Hb. apply (ancestry_transport s); [by eapply ancestry_spec|]. intros y Hy. apply extended_parent. set_solver.
Qed.

Lemma extended_chain_new : chain s' (Some b) (b :: ancestry s p).
Proof.
  constructor. rewrite extended_parent_new. eapply chain_transport; [by eapply ancestry_spec|].
  intros y Hy. apply extended_parent. destruct Hnew as (_ & _ & Hb). set_solver.
Qed.

Lemma extended_state x : has_state_at x s = true -> state_of s' x = state_of s x.
Proof.
  intros Hx%new_not_below. unfold state_of. rewrite extended_ancestry by done. apply layers_ext.
  intros y Hy. simpl. rewrite lookup_insert_ne; [done|]. set_solver.
Qed.

Lemma extended_state_new : state_of s' b = overlay c (state_of s p).
Proof.
  unfold state_of. rewrite (ancestry_chain _ _ _ extended_chain_new). simpl. rewrite lookup_insert_eq. simpl. f_equal.
  apply layers_ext. intros y Hy. simpl. rewrite lookup_insert_ne; [done|]. destruct Hnew as (_ & _ & Hb). set_solver.
Qed.

Lemma extended_has_state x : has_state_at x s' = true <-> has_state_at x s = true \/ x = b.
Proof.
  rewrite !has_state_at_spec. simpl. destruct (decide (x = b)) as [->|Hne]; [rewrite lookup_insert_eq; naive_solver|].
  rewrite lookup_insert_ne by done. naive_solver.
Qed.

Lemma extended_inv : storage_inv s' f.
Proof.
  destruct Hnew as (Hp & Hc & Hb). split; [apply Hinv| | |].
  - intros x. destruct (decide (b ∈ ancestry s x)) as [Hin|Hin].
    + pose proof (chain_suffix s _ _ b (ancestry_spec s f Hinv x) Hin) as (l1 & l2 & Heq & _).
      pose proof (ancestry_spec s f Hinv x) as Hx. rewrite Heq in Hx.
      assert (b ∉ l1) as Hl1 by (pose proof (chain_NoDup _ _ _ Hx) as Hnd; apply NoDup_app in Hnd as (_ & Hd & _); set_solver).
      clear Heq Hin. revert Hx. generalize (Some x). induction l1 as [|y l1 IH]; intros o Hx; inversion Hx; subst.
      * eexists. apply extended_chain_new.
      * destruct (IH ltac:(set_solver) _ ltac:(eassumption)) as (l & Hl). exists (y :: l). constructor.
        rewrite extended_parent; [done|]. set_solver.
    + exists (ancestry s x). eapply chain_transport; [by eapply ancestry_spec|]. intros y Hy. apply extended_parent. set_solver.
  - intros x. rewrite extended_ancestry by (apply new_not_below; apply has_state_at_spec; left; apply Hinv).
    intros Hx. simpl. rewrite lookup_insert_ne; [by apply (si_base _ _ Hinv)|]. intros <-.
    assert (has_state_at f s = true) as Hf by (apply has_state_at_spec; left; apply Hinv).
    by apply (new_not_below f Hf).
  - intros x Hx. destruct (decide (x = b)) as [->|Hne].
    + exists p. split; [apply extended_parent_new|]. apply extended_has_state. by left.
    + simpl in Hx. rewrite lookup_insert_ne in Hx by done. destruct (si_closed _ _ Hinv x Hx) as (q & Hq & Hqs).
      exists q. rewrite extended_parent by done. split; [done|]. apply extended_has_state. by left.
Qed.
End extension.

(** ** Finalizing a block *)

(** A member of a list without repetition splits it in one way. *)
Lemma NoDup_split_unique {A} (x : A) l1 l2 k1 k2 : NoDup (l1 ++ x :: l2) -> l1 ++ x :: l2 = k1 ++ x :: k2 -> l1 = k1 /\ l2 = k2.
Proof.
  revert k1. induction l1 as [|y l1 IH]; intros [|z k1] Hnd Heq; simplify_eq/=; [done| | |].
  - apply NoDup_cons in Hnd as [[] _]. apply elem_of_app. right. by left.
  - apply NoDup_cons in Hnd as [[] _]. apply elem_of_app. right. by left.
  - apply NoDup_cons in Hnd as [_ Hnd]. destruct (IH k1 Hnd) as [-> ->]; done.
Qed.

Section finalization.
Context (s : StateStorage) (f : bytes) (Hinv : storage_inv s f).

Lemma parents_entry x p : parent_of s x = Some p -> parents s !! x = Some (Some p).
Proof. unfold parent_of. destruct (parents s !! x) as [[q|]|]; simpl; congruence. Qed.

Lemma path_walk_run l : forall b fuel visited, ancestry s b = l ++ ancestry s f -> (f ∉ l) ->
  (forall x, x ∈ l -> is_Some (change_sets s !! x)) -> (length l < fuel)%nat -> (forall x, x ∈ l -> x ∉ visited) ->
  path_walk s fuel visited (Some b) = Some (Ret l).
Proof.
  induction l as [|x l IH]; intros b [|fuel] visited Hl Hf Hcs Hfuel Hv; simpl in Hfuel; try lia; simpl.
  - assert (b = f) as ->.
    { destruct (ancestry_head s f Hinv b) as (? & Hb & _), (ancestry_head s f Hinv f) as (? & Hb' & _). simpl in Hl. congruence. }
    by rewrite bool_decide_true by by rewrite (si_finalized _ _ Hinv).
  - assert (b = x) as -> by (destruct (ancestry_head s f Hinv b) as (? & Hb & _); simpl in Hl; congruence).
    rewrite bool_decide_false by (rewrite (si_finalized _ _ Hinv); set_solver).
    rewrite bool_decide_false by set_solver. destruct (Hcs x) as (c & Hc); [set_solver|].
    rewrite bool_decide_false by congruence. simpl.
    destruct (si_closed _ _ Hinv x) as (p & Hp & _); [by eexists|]. rewrite Hp.
    assert (NoDup (x :: l ++ ancestry s f)) as Hnd by (rewrite app_comm_cons, <- Hl; eapply chain_NoDup, ancestry_spec, Hinv).
    rewrite (IH p fuel (x :: visited)); [done| |set_solver|set_solver|lia|].
    + rewrite (ancestry_parent s f Hinv x p Hp) in Hl. by injection Hl.
    + intros y Hy. apply NoDup_cons in Hnd as [Hx _]. rewrite elem_of_app in Hx. set_solver.
Qed.

Lemma descends_run target c l : chain s (Some c) l -> forall fuel seen, (length l <= fuel)%nat -> (forall x, x ∈ l -> x ∉ seen) ->
  descends s target fuel seen c = Some (bool_decide (target ∈ l)).
Proof.
  remember (Some c) as o eqn:Ho. intros Hc. revert c Ho.
  induction Hc as [|x l Hc IH]; intros c Ho [|fuel] seen Hf Hv; simpl in Hf; try done; try lia; [].
  injection Ho as <-. simpl. rewrite (bool_decide_false (x ∈ seen)) by set_solver.
  destruct (decide (x = target)) as [<-|Ht]; [rewrite !bool_decide_true; [done|left|done]|].
  rewrite (bool_decide_false (x = target)) by done.
  pose proof (chain_NoDup _ _ _ (chain_block s x l Hc)) as [Hx _]%NoDup_cons.
  destruct (parent_of s x) as [p|] eqn:Hp.
  - rewrite (IH p) by (done || lia || set_solver). f_equal. apply bool_decide_ext. set_solver.
  - inversion Hc; subst. by rewrite bool_decide_false by set_solver.
Qed.

Lemma retained_spec b path x : retained s b path x = true <->
  is_Some (change_sets s !! x) /\ (x ∉ path) /\ b ∈ ancestry s x.
Proof.
  assert (descends s b (walk_fuel s) [] x = Some (bool_decide (b ∈ ancestry s x))) as Hd.
  { apply descends_run; [by eapply ancestry_spec| |set_solver].
    pose proof (chain_length _ _ _ (ancestry_spec s f Hinv x)). unfold walk_fuel. lia. }
  unfold retained. rewrite Hd, !andb_true_iff, negb_true_iff, bool_decide_eq_false, !bool_decide_eq_true.
  destruct (decide (b ∈ ancestry s x)); [rewrite bool_decide_true by done|rewrite bool_decide_false by done]; naive_solver.
Qed.

Section step.
Context (b : bytes) (Hb : has_state_at b s = true) (Hbf : b <> f).
Context (path : list bytes) (Hpath : ancestry s b = path ++ ancestry s f).
Context (Hpath_cs : forall x, x ∈ path -> is_Some (change_sets s !! x)).

Definition kept (x : bytes) : bool := retained s b path x || bool_decide (x = b).
Definition finalized_storage : StateStorage :=
  mkStorage (apply_path s path) (Some b)
    (match block_hash s with Some c => if kept c then Some c else Some b | None => Some b end)
    (filter (fun p => retained s b path p.1 = true) (change_sets s)) (transaction s)
    (<[b := None]> (filter (fun p => kept p.1 = true) (parents s)))
    (filter (fun p => kept p.1 = true) (ancestors s)).

Lemma path_head : b ∈ path.
Proof.
  destruct (ancestry_head s f Hinv b) as (l & Hl & _). rewrite Hl in Hpath. destruct path as [|x path']; [|simplify_eq/=; set_solver].
  simpl in Hpath. destruct (ancestry_head s f Hinv f) as (l' & Hl' & _). congruence.
Qed.

Lemma apply_path_state : apply_path s path = state_of s b.
Proof.
  unfold apply_path, state_of. rewrite Hpath, layers_app, (layers_none s (ancestry s f)) by apply Hinv.
  unfold layers. by rewrite <- fold_left_rev_right, rev_involutive.
Qed.

(** The part of an ancestry above the finalized block is kept. *)
Lemma above_kept x l1 l2 y : has_state_at x s = true -> ancestry s x = l1 ++ b :: l2 -> y ∈ l1 -> retained s b path y = true.
Proof.
  intros Hx Heq Hy. pose proof (ancestry_spec s f Hinv x) as Hc. rewrite Heq in Hc.
  pose proof (chain_NoDup _ _ _ Hc) as Hnd.
  apply list_elem_of_split in Hy as (l11 & l12 & ->). rewrite <- app_assoc in *. simpl in *.
  destruct (chain_suffix s _ _ y Hc ltac:(set_solver)) as (k1 & k2 & Hk & Hcy).
  assert (y :: k2 = y :: l12 ++ b :: l2) as Hk2.
  { destruct (NoDup_split_unique y l11 (l12 ++ b :: l2) k1 k2) as [_ ->]; done. }
  rewrite Hk2 in Hcy. pose proof (ancestry_chain _ _ _ Hcy) as Hay.
  apply retained_spec. split_and!; [| |rewrite Hay; set_solver].
  - destruct (state_descends s f Hinv x Hx) as (l & Hl & Hcs & _). apply Hcs. rewrite Heq in Hl.
    assert (b ∉ ancestry s f) as Hbb.
    { intros H%(si_base _ _ Hinv). destruct (Hpath_cs b path_head). congruence. }
    apply app_eq_app in Hl as (k & [[_ Hk']|[-> Hk']]).
    { exfalso. apply Hbb. rewrite Hk'. apply elem_of_app. right. right. apply elem_of_app. right. left. }
    destruct k as [|z k]; [exfalso; apply Hbb; simpl in Hk'; rewrite <- Hk'; right; apply elem_of_app; right; left|].
    injection Hk' as <- _. apply elem_of_app. right. left.
  - intros Hyp. assert (y ∈ ancestry s b) as Hyb by (rewrite Hpath; set_solver).
    assert (ancestry s b = b :: l2) as Hab.
    { apply ancestry_chain. destruct (chain_suffix s _ _ b Hc ltac:(set_solver)) as (j1 & j2 & Hj & Hcb).
      destruct (NoDup_split_unique b (l11 ++ y :: l12) l2 j1 j2) as [_ ->]; [by rewrite <- app_assoc|by rewrite <- app_assoc|done]. }
    rewrite Hab in Hyb. rewrite app_comm_cons, app_assoc in Hnd. apply NoDup_app in Hnd as (_ & Hd & _). apply (Hd y); set_solver.
Qed.
Lemma ancestry_antisym x y : x ∈ ancestry s y -> y ∈ ancestry s x -> x = y.
Proof.
  intros Hx Hy. destruct (chain_suffix s _ _ x (ancestry_spec s f Hinv y) Hx) as (l1 & l2 & Hl & Hcx).
  rewrite (ancestry_chain _ _ _ Hcx) in Hy. destruct (ancestry_head s f Hinv y) as (r & Hr & _).
  destruct l1 as [|z l1]; [simpl in Hl; congruence|]. rewrite Hr in Hl. injection Hl as <- Hl.
  pose proof (chain_NoDup _ _ _ (ancestry_spec s f Hinv y)) as Hnd. rewrite Hr, Hl in Hnd.
  apply NoDup_cons in Hnd as [[] _]. apply elem_of_app. by right.
Qed.

Lemma not_below_finalized : b ∉ ancestry s f.
Proof. intros H%(si_base _ _ Hinv). destruct (Hpath_cs b path_head). congruence. Qed.

Lemma finalized_parent_b : parent_of finalized_storage b = None.
Proof. unfold parent_of. simpl. by rewrite lookup_insert_eq. Qed.

Lemma finalized_parent x : x <> b -> parent_of finalized_storage x = if kept x then parent_of s x else None.
Proof.
  intros Hx. unfold parent_of. simpl. rewrite lookup_insert_ne, map_lookup_filter by done.
  destruct (parents s !! x); simpl; [|by destruct (kept x)]. by destruct (kept x).
Qed.

Lemma finalized_change_set x : change_sets finalized_storage !! x = if retained s b path x then change_sets s !! x else None.
Proof. simpl. rewrite map_lookup_filter. destruct (change_sets s !! x); simpl; by destruct (retained s b path x). Qed.

Lemma finalized_has_state x : has_state_at x finalized_storage = true <-> has_state_at x s = true /\ b ∈ ancestry s x.
Proof.
  rewrite (has_state_at_spec x finalized_storage), finalized_change_set. cbn [finalized_block_hash finalized_storage].
  destruct (retained s b path x) eqn:Hr.
  - apply retained_spec in Hr as (Hc & _ & Hin). rewrite has_state_at_spec. naive_solver.
  - split; [intros [[= <-]|[]]; [|done]; split; [done|]; destruct (ancestry_head s f Hinv b) as (l & -> & _); left|].
    intros [Hx Hin]. left. f_equal. destruct (decide (x = b)) as [->|Hne]; [done|]. exfalso.
    apply not_true_iff_false in Hr. apply Hr, retained_spec. split_and!; [| |done].
    + apply has_state_at_spec in Hx as [Hx|Hx]; [|done]. rewrite (si_finalized _ _ Hinv) in Hx. injection Hx as <-.
      by apply not_below_finalized in Hin.
    + intros Hp. apply Hne, ancestry_antisym; [|done]. rewrite Hpath. set_solver.
Qed.

Lemma finalized_ancestry x : has_state_at x s = true -> b ∈ ancestry s x -> exists l1,
  ancestry s x = l1 ++ ancestry s b /\ ancestry finalized_storage x = l1 ++ [b] /\ (forall y, y ∈ l1 -> retained s b path y = true).
Proof.
  intros Hx Hin. destruct (chain_suffix s _ _ b (ancestry_spec s f Hinv x) Hin) as (l1 & l2 & Hl & Hcb).
  exists l1. rewrite (ancestry_chain _ _ _ Hcb). assert (forall y, y ∈ l1 -> retained s b path y = true) as Hk.
  { intros y Hy. by eapply above_kept. }
  split_and!; [done| |done]. apply ancestry_chain.
  pose proof (ancestry_spec s f Hinv x) as Hc. rewrite Hl in Hc. pose proof (chain_NoDup _ _ _ Hc) as Hnd.
  clear Hl Hin Hx. revert Hc. generalize (Some x). induction l1 as [|y l1 IH]; intros o Hc; inversion Hc; subst; simpl.
  - constructor. rewrite finalized_parent_b. constructor.
  - constructor. apply NoDup_cons in Hnd as [Hy Hnd]. rewrite finalized_parent by (intros ->; set_solver).
    unfold kept. rewrite Hk by set_solver. apply IH; [set_solver|done|done].
Qed.

Lemma finalized_state x : has_state_at x s = true -> b ∈ ancestry s x -> state_of finalized_storage x = state_of s x.
Proof.
  intros Hx Hin. destruct (finalized_ancestry x Hx Hin) as (l1 & Hl & Hl' & Hk). unfold state_of. rewrite Hl, Hl', !layers_app.
  rewrite (layers_none finalized_storage [b]).
  - cbn [storage_engine finalized_storage]. rewrite apply_path_state. apply layers_ext.
    intros y Hy. by rewrite finalized_change_set, Hk.
  - intros y ->%list_elem_of_singleton. rewrite finalized_change_set.
    destruct (retained s b path b) eqn:Hr; [|done]. apply retained_spec in Hr as (_ & [] & _). apply path_head.
Qed.

Lemma finalized_inv : storage_inv finalized_storage b.
Proof.
  assert (has_state_at b s = true /\ b ∈ ancestry s b) as Hbb.
  { split; [done|]. rewrite Hpath. pose proof path_head. set_solver. }
  split; [done| | |].
  - intros x. pose proof (ancestry_spec s f Hinv x) as Hc. revert Hc. generalize (Some x) (ancestry s x). intros o l.
    induction 1 as [|y l _ [l' IH]]; [exists []; constructor|].
    destruct (decide (y = b)) as [->|Hne]; [exists [b]; constructor; rewrite finalized_parent_b; constructor|].
    pose proof (finalized_parent y Hne) as Hp. destruct (kept y); [exists (y :: l')|exists [y]]; constructor; rewrite Hp; [done|constructor].
  - intros y Hy. rewrite finalized_change_set. destruct (retained s b path y) eqn:Hr; [|done].
    destruct (finalized_ancestry b) as (l1 & Hl & Hl' & _); [apply Hbb..|].
    assert (l1 = []) as -> by (apply (f_equal length) in Hl; rewrite length_app in Hl; apply nil_length_inv; lia).
    rewrite Hl' in Hy. apply list_elem_of_singleton in Hy as ->. apply retained_spec in Hr as (_ & [] & _). apply path_head.
  - intros x Hx. rewrite finalized_change_set in Hx. destruct (retained s b path x) eqn:Hr; [|by destruct Hx].
    destruct (proj1 (retained_spec _ _ _) Hr) as (_ & Hnp & Hin).
    destruct (si_closed _ _ Hinv x Hx) as (p & Hp & Hps). exists p.
    assert (x <> b) as Hne by (intros ->; by pose proof path_head).
    rewrite finalized_parent by done. unfold kept. rewrite Hr. split; [done|]. apply finalized_has_state. split; [done|].
    rewrite (ancestry_parent s f Hinv x p Hp) in Hin. by apply elem_of_cons in Hin as [->|?].
Qed.
End step.

Lemma finalize_run b : pending s = false -> has_state_at b s = true -> exists s',
  finalize b s = Some (Ret s') /\ storage_inv s' b /\ storage_engine s' = state_of s b /\
  forall x, (has_state_at x s' = true <-> has_state_at x s = true /\ b ∈ ancestry s x) /\
    (has_state_at x s' = true -> state_of s' x = state_of s x).
Proof.
  intros Hp Hb. unfold finalize. rewrite Hp, (si_finalized _ _ Hinv). case_bool_decide as Hbf.
  { injection Hbf as ->. exists s. split_and!; [done|done|by rewrite state_of_finalized|]. intros x. split; [|done].
    split; [|naive_solver]. intros Hx. split; [done|]. destruct (state_descends s f Hinv x Hx) as (l & -> & _).
    destruct (ancestry_head s f Hinv f) as (l' & -> & _). apply elem_of_app. right. left. }
  destruct (state_descends s f Hinv b Hb) as (path & Hpath & Hcs & Hfp).
  rewrite (path_walk_run path b) ; [|done|done|done| |set_solver].
  2: { pose proof (chain_length _ _ _ (ancestry_spec s f Hinv b)) as Hle. rewrite Hpath, length_app in Hle. unfold walk_fuel. lia. }
  assert (b <> f) as Hne by congruence. eexists. split; [reflexivity|]. fold (finalized_storage b path). split_and!.
  - by apply finalized_inv.
  - by apply apply_path_state.
  - intros x. split; [by apply finalized_has_state|]. intros Hx. apply finalized_has_state in Hx as [Hx Hin]; [|done..]. by apply finalized_state.
Qed.
End finalization.

(** ** The operations of an import *)

Lemma pending_false s : pending s = false <-> transaction s = ∅.
Proof. unfold pending. by rewrite negb_false_iff, bool_decide_eq_true. Qed.

Lemma set_block_hash_run s f b p : storage_inv s f -> pending s = false -> is_Some (parents s !! p) \/ p = f ->
  set_block_hash b p s = Ret (extended s b p ∅ ∅).
Proof.
  intros Hinv Hpend Hp. unfold set_block_hash. rewrite Hpend.
  assert (bool_decide (parents s !! p = None) && negb (bool_decide (Some p = finalized_block_hash s) || bool_decide (p = hash0)) = false) as ->.
  { destruct Hp as [[q Hq]| ->]; [by rewrite (bool_decide_false _) by congruence|].
    rewrite (si_finalized _ _ Hinv), (bool_decide_true (Some f = Some f)) by done. apply andb_false_r. }
  apply pending_false in Hpend. unfold extended. by rewrite Hpend.
Qed.

Lemma commit_run s b p c t : b <> hash0 -> commit (with_transaction t (extended s b p c ∅)) = Ret (extended s b p t ∅).
Proof.
  intros Hb. unfold commit. simpl. rewrite bool_decide_false by done. unfold extended. simpl. do 2 f_equal. apply insert_insert_eq.
Qed.

Lemma state_known s f p : storage_inv s f -> has_state_at p s = true -> is_Some (parents s !! p) \/ p = f.
Proof.
  intros Hinv [Hp|Hp]%has_state_at_spec; [right; rewrite (si_finalized _ _ Hinv) in Hp; congruence|left].
  destruct (si_closed _ _ Hinv p Hp) as (q & Hq & _). rewrite (parents_entry s p q Hq). by eexists.
Qed.

(** ** The properties *)

(** C32: reading a key while a block's transaction is open gives the transaction's write of it,
    or else the key's value in the state of the block: the walk through the ancestors' change
    sets always ends and computes the layered state. *)
Theorem storage_get_view s f b key : storage_inv s f -> block_hash s = Some b -> b <> [] ->
  get key false s = Some (Ret (overlay (transaction s) (state_of s b) !! key)).
Proof.
  intros Hinv Hb Hne. destruct (get_run s f Hinv b key false Hb Hne) as (w & -> & ->). do 2 f_equal.
  rewrite lookup_overlay. unfold state_of. rewrite lookup_layers. by destruct (transaction s !! key).
Qed.

(** the dictionaries the state root and the state dumps are computed from, of the selected
    block and of any block that has a state, are the layered states. *)
Theorem storage_as_dict_view s f b : storage_inv s f ->
  (pending s = false -> block_hash s = Some b -> as_dict s = Some (Ret (state_of s b))) /\
  (length b = 32%nat -> b <> hash0 -> has_state_at b s = true -> as_dict_at b s = Some (Ret (state_of s b))).
Proof. intros Hinv. split; [by apply (as_dict_run s f)|by apply (as_dict_at_run s f)]. Qed.

(** importing a block on a parent that has a state, whatever its transaction writes, gives
    it the parent's state with those writes, leaves the states of all other blocks (the forks
    included) as they are, and keeps the invariant. *)
Theorem commit_isolates_forks s f b p t : storage_inv s f -> pending s = false -> new_block s b p -> b <> hash0 ->
  exists s1 s2, set_block_hash b p s = Ret s1 /\ commit (with_transaction t s1) = Ret s2 /\
    storage_inv s2 f /\ state_of s1 b = state_of s p /\ state_of s2 b = overlay t (state_of s p) /\
    forall x, has_state_at x s = true -> has_state_at x s2 = true /\ state_of s2 x = state_of s x.
Proof.
  intros Hinv Hp Hnew Hb. destruct (Hnew) as (Hps & _). exists (extended s b p ∅ ∅), (extended s b p t ∅). split_and!.
  - by apply (set_block_hash_run s f), (state_known s f).
  - by apply commit_run.
  - by apply extended_inv.
  - rewrite (extended_state_new s f) by done. apply overlay_empty.
  - by apply (extended_state_new s f).
  - intros x Hx. split; [apply (extended_has_state s); auto|by apply (extended_state s f)].
Qed.

(** a rejected block leaves no trace: discarding the candidate gives back the storage from
    before the import, whatever was written, with the block to restore selected. *)
Theorem discard_restores s f b p t restore : storage_inv s f -> pending s = false -> new_block s b p ->
  parents s !! b = None -> ancestors s !! b = None -> b <> f -> (forall r, restore = Some r -> has_state_at r s = true) ->
  exists s1, set_block_hash b p s = Ret s1 /\
    discard_candidate b restore (with_transaction t s1) = Ret (with_block_hash restore s).
Proof.
  intros Hinv Hp Hnew Hpar Hanc Hbf Hr. exists (extended s b p ∅ ∅). destruct Hnew as (Hps & Hc & _).
  split; [by apply (set_block_hash_run s f), (state_known s f)|]. unfold discard_candidate. simpl.
  rewrite (si_finalized _ _ Hinv), (bool_decide_false (Some b = Some f)) by congruence.
  rewrite (bool_decide_true (Some b = Some b)) by done. simpl.
  assert (match restore with Some r => negb (has_state_at r (with_transaction t (extended s b p ∅ ∅))) | None => false end = false) as ->.
  { destruct restore as [r|]; [|done]. apply negb_false_iff, has_state_at_spec. simpl.
    destruct (proj1 (has_state_at_spec r s) (Hr r eq_refl)) as [H|[c H]]; [by left|right].
    rewrite lookup_insert_ne; [by eexists|]. congruence. }
  apply pending_false in Hp. unfold with_block_hash. rewrite Hp, (si_finalized _ _ Hinv). do 2 f_equal.
  - rewrite delete_insert_id by done. done.
  - by rewrite delete_insert_id.
  - by rewrite delete_id.
Qed.

(** C30: finalizing a block that has a state never fails and never changes a state: the engine
    then holds the state of that block, exactly its descendants keep a state, and the state
    each of them keeps is the one it had. *)
Theorem finalize_preserves_states s f b : storage_inv s f -> pending s = false -> has_state_at b s = true ->
  exists s', finalize b s = Some (Ret s') /\ storage_inv s' b /\ storage_engine s' = state_of s b /\
  forall x, (has_state_at x s' = true <-> has_state_at x s = true /\ b ∈ ancestry s x) /\
    (has_state_at x s' = true -> state_of s' x = state_of s x).
Proof. intros Hinv. exact (finalize_run s f Hinv b). Qed.
