(* ===== verification/StateKeys.v ===== *)
(** * The keys of the state

    The key constructors of [state/base.py] and the well-known keys of [constants.py]: a
    component, a service account and the values of a service (storage items, preimages and
    their availability) each have a key of 31 bytes.  The hash is an argument. *)

From Stdlib Require Import ZArith Lia Bool List.
From stdpp Require Import base numbers option list.
From S2P Require Import Prelude StateBase.
Import ListNotations.

#[local] Open Scope Z_scope.

(** [int(n).to_bytes(4, byteorder="little")] *)
Definition to_bytes4 (n : Z) : outcome state_exn bytes :=
  if (0 <=? n) && (n <? 2 ^ 32) then Ret (le_bytes 4 n) else Raise OverflowError.

(** [WELL_KNOWN_STORAGE_KEYS]: the components 1 to 16. *)
Definition WELL_KNOWN_STORAGE_KEYS (component_id : Z) : option bytes :=
  if (1 <=? component_id) && (component_id <=? 16) then Some (component_id :: replicate 30 0) else None.

(** The handler turns an [IndexError] into [StateComponentNotFound]; a dictionary raises
    [KeyError]. *)
Definition state_key_constructor_component (component_id : Z) : outcome state_exn bytes :=
  let lookup := match WELL_KNOWN_STORAGE_KEYS component_id with Some key => Ret key | None => Raise KeyError end in
  match lookup with
  | Raise IndexError => Raise StateComponentNotFound
  | r => r
  end.

Definition state_key_constructor_service_account (service_account_id : Z) : outcome state_exn bytes :=
  service_account_key ← to_bytes4 service_account_id;
  match service_account_key with
  | [k0; k1; k2; k3] => Ret ([255; k0; 0; k1; 0; k2; 0; k3] ++ replicate 23 0)
  | _ => Raise IndexError
  end.

Section keys.
Context (blake2b_256_hash : bytes -> bytes).

Definition state_key_constructor_service_account_value (service_account_id : Z) (value : bytes) : outcome state_exn bytes :=
  service_account_key ← to_bytes4 service_account_id;
  match service_account_key, blake2b_256_hash value with
  | [k0; k1; k2; k3], v0 :: v1 :: v2 :: rest => Ret ([k0; v0; k1; v1; k2; v2; k3] ++ take 24 rest)
  | _, _ => Raise IndexError
  end.

Definition state_key_constructor_storage_item (service_account_id : Z) (storage_item_key : bytes) : outcome state_exn bytes :=
  state_key_constructor_service_account_value service_account_id (le_bytes 4 (2 ^ 32 - 1) ++ storage_item_key).

Definition state_key_constructor_preimage (service_account_id : Z) (preimage_hash : bytes) : outcome state_exn bytes :=
  state_key_constructor_service_account_value service_account_id (le_bytes 4 (2 ^ 32 - 2) ++ preimage_hash).

Definition state_key_constructor_preimage_availability (service_account_id : Z) (preimage_hash : bytes) (preimage_length : Z)
    : outcome state_exn bytes :=
  length_bytes ← to_bytes4 preimage_length;
  state_key_constructor_service_account_value service_account_id (length_bytes ++ preimage_hash).
End keys.

(** ** Lemmas *)

Lemma le_bytes_inj n x y : 0 <= x < 256 ^ Z.of_nat n -> 0 <= y < 256 ^ Z.of_nat n -> le_bytes n x = le_bytes n y -> x = y.
Proof.
  intros Hx Hy H. apply (f_equal le_int) in H. by rewrite !le_int_le_bytes, !Z.mod_small in H by done.
Qed.

Lemma to_bytes4_ret n b : to_bytes4 n = Ret b <-> 0 <= n < 2 ^ 32 /\ b = le_bytes 4 n.
Proof.
  unfold to_bytes4. destruct (Z.leb_spec 0 n), (Z.ltb_spec n (2 ^ 32)); simpl; split; try done; try lia; [|naive_solver].
  by intros [= <-].
Qed.

Lemma to_bytes4_inj n m b : to_bytes4 n = Ret b -> to_bytes4 m = Ret b -> n = m.
Proof.
  intros [Hn ->]%to_bytes4_ret [Hm H]%to_bytes4_ret. by apply (le_bytes_inj 4).
Qed.

Lemma account_key_ret n key : state_key_constructor_service_account n = Ret key ->
  exists k0 k1 k2 k3, to_bytes4 n = Ret [k0; k1; k2; k3] /\ key = [255; k0; 0; k1; 0; k2; 0; k3] ++ replicate 23 0.
Proof.
  unfold state_key_constructor_service_account. destruct (to_bytes4 n) as [b|]; simpl; [|done].
  destruct b as [|k0 [|k1 [|k2 [|k3 [|]]]]]; try done. intros [= <-]. by exists k0, k1, k2, k3.
Qed.

Lemma value_key_ret H n v key : state_key_constructor_service_account_value H n v = Ret key ->
  exists k0 k1 k2 k3 v0 v1 v2 rest, to_bytes4 n = Ret [k0; k1; k2; k3] /\ H v = v0 :: v1 :: v2 :: rest /\
    key = [k0; v0; k1; v1; k2; v2; k3] ++ take 24 rest.
Proof.
  unfold state_key_constructor_service_account_value. destruct (to_bytes4 n) as [b|]; simpl; [|done].
  destruct b as [|k0 [|k1 [|k2 [|k3 [|]]]]], (H v) as [|v0 [|v1 [|v2 rest]]] eqn:Hv; try done.
  intros [= <-]. by exists k0, k1, k2, k3, v0, v1, v2, rest.
Qed.

(** A value's key is defined for every service identifier. *)
Lemma value_key_total H n v : 0 <= n < 2 ^ 32 -> length (H v) = 32%nat ->
  exists key, state_key_constructor_service_account_value H n v = Ret key /\ length key = 31%nat.
Proof.
  intros Hn Hlen. unfold state_key_constructor_service_account_value.
  rewrite (proj2 (to_bytes4_ret n (le_bytes 4 n))) by done. cbn [mbind outcome_bind le_bytes].
  destruct (H v) as [|v0 [|v1 [|v2 rest]]]; simpl in Hlen; try done. eexists. split; [reflexivity|].
  change (length ([v0] ++ [v1] ++ [v2] ++ rest) = 32%nat) in Hlen. rewrite !length_app in *. rewrite length_take. cbn [length] in *. lia.
Qed.

Lemma account_key_total n : 0 <= n < 2 ^ 32 ->
  exists key, state_key_constructor_service_account n = Ret key /\ length key = 31%nat.
Proof.
  intros Hn. unfold state_key_constructor_service_account. rewrite (proj2 (to_bytes4_ret n (le_bytes 4 n))) by done.
  eexists. split; [reflexivity|]. done.
Qed.

Lemma account_key_inj_run n m key :
  state_key_constructor_service_account n = Ret key -> state_key_constructor_service_account m = Ret key -> n = m.
Proof.
  intros (k0 & k1 & k2 & k3 & Hn & ->)%account_key_ret (j0 & j1 & j2 & j3 & Hm & Heq)%account_key_ret.
  injection Heq as -> -> -> ->. by eapply to_bytes4_inj.
Qed.

Lemma value_key_inj_run H n m v w key : (forall x, length (H x) = 32%nat) ->
  state_key_constructor_service_account_value H n v = Ret key -> state_key_constructor_service_account_value H m w = Ret key ->
  n = m /\ take 27 (H v) = take 27 (H w).
Proof.
  intros Hlen (k0 & k1 & k2 & k3 & v0 & v1 & v2 & r & Hn & Hv & ->)%value_key_ret
    (j0 & j1 & j2 & j3 & w0 & w1 & w2 & r' & Hm & Hw & Heq)%value_key_ret.
  injection Heq as -> -> -> -> -> -> -> Hr. rewrite Hv, Hw. simpl. rewrite Hr. split; [by eapply to_bytes4_inj|done].
Qed.

(** ** The properties *)

(** all keys have 31 bytes; the keys of two accounts differ; and two values whose keys are
    the same belong to the same service, with hashes that agree in 27 bytes: as far as the
    hash has no collision there, each service item has a key of its own, whatever the service. *)
Theorem state_keys_separate H n m v w key : (forall x, length (H x) = 32%nat) ->
  (state_key_constructor_service_account n = Ret key -> length key = 31%nat) /\
  (state_key_constructor_service_account_value H n v = Ret key -> length key = 31%nat) /\
  (state_key_constructor_service_account n = Ret key -> state_key_constructor_service_account m = Ret key -> n = m) /\
  (state_key_constructor_service_account_value H n v = Ret key -> state_key_constructor_service_account_value H m w = Ret key ->
     n = m /\ take 27 (H v) = take 27 (H w)).
Proof.
  intros Hlen. split_and!.
  - by intros (k0 & k1 & k2 & k3 & _ & ->)%account_key_ret.
  - intros (k0 & k1 & k2 & k3 & v0 & v1 & v2 & r & _ & Hv & ->)%value_key_ret. specialize (Hlen v). rewrite Hv in Hlen.
    simpl in *. rewrite length_take. lia.
  - apply account_key_inj_run.
  - by apply value_key_inj_run.
Qed.

(** an unknown component raises [KeyError], never the [StateComponentNotFound] that the
    handler means to raise. *)
Theorem unknown_component_raises i : ~ (1 <= i <= 16) ->
  state_key_constructor_component i = Raise KeyError.
Proof.
  intros Hi. unfold state_key_constructor_component, WELL_KNOWN_STORAGE_KEYS.
  destruct (Z.leb_spec 1 i), (Z.leb_spec i 16); simpl; [lia|done..].
Qed.
