(* ===== verification/Accounts.v ===== *)
(** * Service accounts and their state

    [ServiceAccount], [PendingChanges] and [ServicesState] of [models/state.py]: reads see the
    pending changes first and then the storage of the selected block; writes go to the pending
    changes, and to the storage when asked to.

    jamcodec's integers and sequences are a class of operations with the laws their
    documentation gives; the hash is an argument.  The methods' log messages are left out, and
    so is the dictionary [services] that only the tests' state dumps use. *)

From Stdlib Require Import ZArith Lia Bool List.
From stdpp Require Import base numbers option list sets gmap.
From S2P Require Import Prelude Graypaper StateBase Storage StateKeys.
Import ListNotations.

#[local] Open Scope Z_scope.

(** ** The codec *)

Class Codec : Type := {
  U32_encode : Z -> bytes;
  U32_decode : bytes -> option Z;
  U64_encode : Z -> bytes;
  U64_decode : bytes -> option Z;
  VecU32_encode : list Z -> bytes;
  VecU32_decode : bytes -> option (list Z)
}.

Definition u32 (x : Z) : Prop := 0 <= x < 2 ^ 32.
Definition u64 (x : Z) : Prop := 0 <= x < 2 ^ 64.

(** Fixed-width integers and sequences decode to what was encoded, and any bytes of its width
    are an integer; a sequence has at least the byte of its length. *)
Class CodecLaws (codec : Codec) : Prop := {
  U32_length x : length (U32_encode x) = 4%nat;
  U32_round x : u32 x -> U32_decode (U32_encode x) = Some x;
  U32_bytes x : Forall is_byte (U32_encode x);
  U32_total b : Forall is_byte b -> length b = 4%nat -> exists x, U32_decode b = Some x /\ u32 x;
  U64_length x : length (U64_encode x) = 8%nat;
  U64_bytes x : Forall is_byte (U64_encode x);
  U64_total b : Forall is_byte b -> length b = 8%nat -> exists x, U64_decode b = Some x /\ u64 x;
  U64_round x : u64 x -> U64_decode (U64_encode x) = Some x;
  VecU32_round l : Forall u32 l -> VecU32_decode (VecU32_encode l) = Some l;
  VecU32_nonempty l : VecU32_encode l <> []
}.

(** ** [ServiceAccount] *)

(** The serialised fields; the dictionaries of an account are kept apart from it. *)
Record ServiceAccount : Type := mkServiceAccount {
  code_hash : bytes;
  balance : Z;
  gas_limit_accumulate : Z;
  gas_limit_on_transfer : Z;
  footprint_storage_bytes : Z;
  deposit_offset : Z;
  footprint_storage_items : Z;
  creation_slot : Z;
  last_accumulation_slot : Z;
  parent_service : Z
}.

Definition threshold_balance (gp : GpConstants) (a : ServiceAccount) : Z :=
  Z.max 0 (MINIMUM_BALANCE_SERVICE gp + MINIMUM_BALANCE_ITEM gp * footprint_storage_items a +
    MINIMUM_BALANCE_OCTET gp * footprint_storage_bytes a - deposit_offset a).

Definition update_footprint (items octets : Z) (a : ServiceAccount) : ServiceAccount :=
  mkServiceAccount (code_hash a) (balance a) (gas_limit_accumulate a) (gas_limit_on_transfer a)
    (footprint_storage_bytes a + octets) (deposit_offset a) (footprint_storage_items a + items) (creation_slot a)
    (last_accumulation_slot a) (parent_service a).

Definition update_footprint_add_storage_item (key_len value_len : Z) := update_footprint 1 (34 + key_len + value_len).
Definition update_footprint_remove_storage_item (key_len value_len : Z) := update_footprint (-1) (- (34 + key_len + value_len)).
Definition update_footprint_update_storage_item (old_value_len new_value_len : Z) := update_footprint 0 (new_value_len - old_value_len).
Definition update_footprint_add_preimage (size : Z) := update_footprint 2 (81 + size).
Definition update_footprint_remove_preimage (size : Z) := update_footprint (-2) (- (81 + size)).

(** Every field is taken from the argument. *)
Definition update_from (a service_account : ServiceAccount) : ServiceAccount :=
  mkServiceAccount (code_hash service_account) (balance service_account) (gas_limit_accumulate service_account)
    (gas_limit_on_transfer service_account) (footprint_storage_bytes service_account) (deposit_offset service_account)
    (footprint_storage_items service_account) (creation_slot service_account) (last_accumulation_slot service_account)
    (parent_service service_account).

(** [b[lo:hi]] *)
Definition slice (lo hi : nat) (b : bytes) : bytes := take (hi - lo) (drop lo b).

Definition decoded {A} (o : option A) : outcome state_exn A := match o with Some x => Ret x | None => Raise ValueError end.

Section account.
Context {codec : Codec}.

Definition from_serialized_bytes (b : bytes) : outcome state_exn ServiceAccount :=
  version ← get_item b 0;
  if 0 <? version then Raise ValueError
  else
    balance ← decoded (U64_decode (slice 33 41 b));
    gas_accumulate ← decoded (U64_decode (slice 41 49 b));
    gas_on_transfer ← decoded (U64_decode (slice 49 57 b));
    storage_bytes ← decoded (U64_decode (slice 57 65 b));
    offset ← decoded (U64_decode (slice 65 73 b));
    items ← decoded (U32_decode (slice 73 77 b));
    creation ← decoded (U32_decode (slice 77 81 b));
    last_accumulation ← decoded (U32_decode (slice 81 85 b));
    parent ← decoded (U32_decode (slice 85 89 b));
    Ret (mkServiceAccount (slice 1 33 b) balance gas_accumulate gas_on_transfer storage_bytes offset items creation
           last_accumulation parent).

(** [U64.encode(x)], [U32.encode(x)], [Vec(U32).encode(l)]: the codec refuses what is out of range. *)
Definition within (w x : Z) : bool := (0 <=? x) && (x <? 2 ^ w).
Definition u64_encoded (x : Z) : outcome state_exn bytes := if within 64 x then Ret (U64_encode x) else Raise ValueError.
Definition u32_encoded (x : Z) : outcome state_exn bytes := if within 32 x then Ret (U32_encode x) else Raise ValueError.
Definition vec_u32_encoded (l : list Z) : outcome state_exn bytes := if forallb (within 32) l then Ret (VecU32_encode l) else Raise ValueError.

Definition to_serialized_bytes (a : ServiceAccount) : outcome state_exn bytes :=
  balance ← u64_encoded (balance a);
  gas_accumulate ← u64_encoded (gas_limit_accumulate a);
  gas_on_transfer ← u64_encoded (gas_limit_on_transfer a);
  storage_bytes ← u64_encoded (footprint_storage_bytes a);
  offset ← u64_encoded (deposit_offset a);
  items ← u32_encoded (footprint_storage_items a);
  creation ← u32_encoded (creation_slot a);
  last_accumulation ← u32_encoded (last_accumulation_slot a);
  parent ← u32_encoded (parent_service a);
  Ret ([0] ++ code_hash a ++ balance ++ gas_accumulate ++ gas_on_transfer ++ storage_bytes ++ offset ++ items ++ creation ++
       last_accumulation ++ parent).
End account.

(** ** [ServicesState] *)

(** [None] marks a deletion. *)
Record PendingChanges : Type := mkPendingChanges {
  pc_accounts : gmap Z (option ServiceAccount);
  pc_storage_items : gmap (Z * bytes) (option bytes);
  pc_preimages : gmap (Z * bytes) (option bytes);
  pc_availability : gmap (Z * bytes * Z) (option (list Z))
}.

Definition no_changes : PendingChanges := mkPendingChanges ∅ ∅ ∅ ∅.

(** [state_storage] may not be set.  Of the dictionary [services] its keys are kept: a block
    begins with none of them, [add_pending_changes] fills the dictionary after a round and
    fails on a service that is not there; its accounts serve tests and dumps. *)
Record ServicesState : Type := mkServicesState {
  pending_changes : PendingChanges;
  state_storage : option StateStorage;
  materialized : gset Z
}.

Section services.
Context {codec : Codec} (blake2b_256_hash : bytes -> bytes).

(** [self.state_storage.get(key)]; the walk of [get] always ends ([get_total]). *)
Definition storage_get (st : ServicesState) (key : bytes) : outcome state_exn (option bytes) :=
  match state_storage st with
  | None => Raise ValueError
  | Some s => match get key false s with Some r => r | None => Raise ValueError end
  end.

Definition storage_write (f : StateStorage -> StateStorage) (st : ServicesState) : outcome state_exn ServicesState :=
  match state_storage st with
  | None => Raise ValueError
  | Some s => Ret (mkServicesState (pending_changes st) (Some (f s)) (materialized st))
  end.

Definition with_accounts (m : gmap Z (option ServiceAccount)) (st : ServicesState) : ServicesState :=
  let p := pending_changes st in
  mkServicesState (mkPendingChanges m (pc_storage_items p) (pc_preimages p) (pc_availability p)) (state_storage st) (materialized st).
Definition with_storage_items (m : gmap (Z * bytes) (option bytes)) (st : ServicesState) : ServicesState :=
  let p := pending_changes st in
  mkServicesState (mkPendingChanges (pc_accounts p) m (pc_preimages p) (pc_availability p)) (state_storage st) (materialized st).
Definition with_preimages (m : gmap (Z * bytes) (option bytes)) (st : ServicesState) : ServicesState :=
  let p := pending_changes st in
  mkServicesState (mkPendingChanges (pc_accounts p) (pc_storage_items p) m (pc_availability p)) (state_storage st) (materialized st).
Definition with_availability (m : gmap (Z * bytes * Z) (option (list Z))) (st : ServicesState) : ServicesState :=
  let p := pending_changes st in
  mkServicesState (mkPendingChanges (pc_accounts p) (pc_storage_items p) (pc_preimages p) m) (state_storage st) (materialized st).

(** *** Accounts *)

Definition retrieve_service_account (id : Z) (check_pending_changes : bool) (st : ServicesState) : outcome state_exn ServiceAccount :=
  if 2 ^ 32 <=? id then Raise StateKeyNoResult
  else match (if check_pending_changes then pc_accounts (pending_changes st) !! id else None) with
       | Some (Some a) => Ret a
       | Some None => Raise StateKeyNoResult
       | None =>
           match state_storage st with
           | None => Raise ValueError
           | Some _ =>
               key ← state_key_constructor_service_account id;
               data ← storage_get st key;
               match data with
               | Some ((_ :: _) as data) => from_serialized_bytes data
               | _ => Raise StateKeyNoResult
               end
           end
       end.

(** Only [StateKeyNoResult] is caught. *)
Definition exists_or {A} (r : outcome state_exn A) : outcome state_exn bool :=
  match r with Ret _ => Ret true | Raise StateKeyNoResult => Ret false | Raise e => Raise e end.

Definition service_exists (id : Z) (check_pending_changes : bool) (st : ServicesState) : outcome state_exn bool :=
  exists_or (retrieve_service_account id check_pending_changes st).

Definition store_service_account (id : Z) (a : ServiceAccount) (save_to_tx : bool) (st : ServicesState) : outcome state_exn ServicesState :=
  if 2 ^ 32 <=? id then Raise StateKeyNoResult
  else
    let accounts := pc_accounts (pending_changes st) in
    let stored := match accounts !! id with Some (Some old) => update_from old a | _ => a end in
    let st := with_accounts (<[id := Some stored]> accounts) st in
    key ← state_key_constructor_service_account id;
    if save_to_tx then data ← to_serialized_bytes a; storage_write (put key data) st else Ret st.

Definition delete_service_account (id : Z) (save_to_tx : bool) (st : ServicesState) : outcome state_exn ServicesState :=
  if 2 ^ 32 <=? id then Raise StateKeyNoResult
  else
    key ← state_key_constructor_service_account id;
    if save_to_tx then storage_write (delete_key key) st
    else Ret (with_accounts (<[id := None]> (pc_accounts (pending_changes st))) st).

(** *** Preimages *)

(** A deleted pending value and a missing stored one are both [None]. *)
Definition or_no_result {A} (o : option A) : outcome state_exn A :=
  match o with Some x => Ret x | None => Raise StateKeyNoResult end.

Definition retrieve_preimage (id : Z) (preimage_hash : bytes) (st : ServicesState) : outcome state_exn bytes :=
  match pc_preimages (pending_changes st) !! (id, preimage_hash) with
  | Some p => or_no_result p
  | None =>
      match state_storage st with
      | None => Raise ValueError
      | Some _ =>
          key ← state_key_constructor_preimage blake2b_256_hash id preimage_hash;
          data ← storage_get st key;
          or_no_result data
      end
  end.

Definition preimage_exists (id : Z) (preimage_hash : bytes) (st : ServicesState) : outcome state_exn bool :=
  exists_or (retrieve_preimage id preimage_hash st).

Definition store_preimage (id : Z) (preimage_blob : bytes) (save_to_tx : bool) (st : ServicesState) : outcome state_exn ServicesState :=
  let preimage_hash := blake2b_256_hash preimage_blob in
  let st := with_preimages (<[(id, preimage_hash) := Some preimage_blob]> (pc_preimages (pending_changes st))) st in
  key ← state_key_constructor_preimage blake2b_256_hash id preimage_hash;
  if save_to_tx then storage_write (put key preimage_blob) st else Ret st.

Definition delete_preimage (id : Z) (preimage_hash : bytes) (save_to_tx : bool) (st : ServicesState) : outcome state_exn ServicesState :=
  key ← state_key_constructor_preimage blake2b_256_hash id preimage_hash;
  if save_to_tx then storage_write (delete_key key) st
  else Ret (with_preimages (<[(id, preimage_hash) := None]> (pc_preimages (pending_changes st))) st).

Definition retrieve_preimage_availability (id : Z) (preimage_hash : bytes) (preimage_length : Z) (st : ServicesState)
    : outcome state_exn (list Z) :=
  if (id <? 2 ^ 32) && (preimage_length <? 2 ^ 32) then
    match pc_availability (pending_changes st) !! (id, preimage_hash, preimage_length) with
    | Some a => or_no_result a
    | None =>
        match state_storage st with
        | None => Raise ValueError
        | Some _ =>
            key ← state_key_constructor_preimage_availability blake2b_256_hash id preimage_hash preimage_length;
            data ← storage_get st key;
            match data with
            | Some ((_ :: _) as data) => decoded (VecU32_decode data)
            | _ => Raise StateKeyNoResult
            end
        end
    end
  else Raise StateKeyNoResult.

Definition store_preimage_availability (id : Z) (preimage_hash : bytes) (preimage_length : Z) (value : list Z) (save_to_tx : bool)
    (st : ServicesState) : outcome state_exn ServicesState :=
  key ← state_key_constructor_preimage_availability blake2b_256_hash id preimage_hash preimage_length;
  let st := with_availability (<[(id, preimage_hash, preimage_length) := Some value]> (pc_availability (pending_changes st))) st in
  if save_to_tx then data ← vec_u32_encoded value; storage_write (put key data) st else Ret st.

Definition delete_preimage_availability (id : Z) (preimage_hash : bytes) (preimage_length : Z) (save_to_tx : bool)
    (st : ServicesState) : outcome state_exn ServicesState :=
  key ← state_key_constructor_preimage_availability blake2b_256_hash id preimage_hash preimage_length;
  if save_to_tx then storage_write (delete_key key) st
  else Ret (with_availability (<[(id, preimage_hash, preimage_length) := None]> (pc_availability (pending_changes st))) st).

(** [is_preimage_available] *)
Definition is_preimage_available (availability : list Z) (timeslot : Z) : bool :=
  match availability with
  | [x] => x <=? timeslot
  | [x; y] => (x <=? timeslot) && (timeslot <? y)
  | [x; y; z] => ((x <=? timeslot) && (timeslot <? y)) || (z <=? timeslot)
  | _ => false
  end.

(** [except StateKeyNoResult: pass] *)
Definition historical_preimage_lookup (id timeslot : Z) (preimage_hash : bytes) (st : ServicesState) : outcome state_exn (option bytes) :=
  match (preimage ← retrieve_preimage id preimage_hash st;
         availability ← retrieve_preimage_availability id preimage_hash (Z.of_nat (length preimage)) st;
         Ret (if is_preimage_available availability timeslot then Some preimage else None)) with
  | Raise StateKeyNoResult => Ret None
  | r => r
  end.

(** A preimage of the extrinsic: its requester and its data. *)
Definition is_preimage_needed (requester : Z) (blob : bytes) (st : ServicesState) : outcome state_exn bool :=
  let preimage_hash := blake2b_256_hash blob in
  available ← preimage_exists requester preimage_hash st;
  if (available : bool) then Ret false
  else match retrieve_preimage_availability requester preimage_hash (Z.of_nat (length blob)) st with
       | Ret availability => Ret (bool_decide (availability = []))
       | Raise StateKeyNoResult => Ret false
       | Raise e => Raise e
       end.

(** *** Storage items *)

Definition retrieve_storage_item (id : Z) (storage_key : bytes) (st : ServicesState) : outcome state_exn bytes :=
  match pc_storage_items (pending_changes st) !! (id, storage_key) with
  | Some data => or_no_result data
  | None =>
      match state_storage st with
      | None => Raise ValueError
      | Some _ =>
          key ← state_key_constructor_storage_item blake2b_256_hash id storage_key;
          data ← storage_get st key;
          or_no_result data
      end
  end.

Definition store_storage_item (id : Z) (storage_key value : bytes) (save_to_tx : bool) (st : ServicesState) : outcome state_exn ServicesState :=
  let st := with_storage_items (<[(id, storage_key) := Some value]> (pc_storage_items (pending_changes st))) st in
  key ← state_key_constructor_storage_item blake2b_256_hash id storage_key;
  if save_to_tx then storage_write (put key value) st else Ret st.

Definition delete_storage_item (id : Z) (storage_key : bytes) (save_to_tx : bool) (st : ServicesState) : outcome state_exn ServicesState :=
  key ← state_key_constructor_storage_item blake2b_256_hash id storage_key;
  if save_to_tx then storage_write (delete_key key) st
  else Ret (with_storage_items (<[(id, storage_key) := None]> (pc_storage_items (pending_changes st))) st).

(** *** The dictionary [services] *)

Definition with_materialized (ids : gset Z) (st : ServicesState) : ServicesState :=
  mkServicesState (pending_changes st) (state_storage st) ids.

Definition add_account (change : Z * option ServiceAccount) (ids : gset Z) : gset Z :=
  match change with
  | (id, None) => ids ∖ {[ id ]}
  | (id, Some _) => {[ id ]} ∪ ids
  end.

(** [self.services[owner(k)]...[...] = v]; a deleted item is looked for only where the service is. *)
Definition add_items {K V} `{Countable K} (owner : K -> Z) (ids : gset Z) (changes : gmap K (option V)) : outcome state_exn unit :=
  every (map_to_list changes) (fun change =>
    match change with
    | (k, Some _) => raise_if (bool_decide (owner k ∉ ids)) KeyError
    | (_, None) => Ret tt
    end).

(** [add_pending_changes]; the order of the dictionaries does not matter to it. *)
Definition add_pending_changes (st : ServicesState) : outcome state_exn ServicesState :=
  let pending_changes := pending_changes st in
  let ids := foldr add_account (materialized st) (map_to_list (pc_accounts pending_changes)) in
  _ ← add_items fst ids (pc_storage_items pending_changes);
  _ ← add_items fst ids (pc_preimages pending_changes);
  _ ← add_items (fun k => k.1.1) ids (pc_availability pending_changes);
  Ret (with_materialized ids st).
End services.

(** ** Serialisation *)

(** The ranges of the fields' types. *)
Record account_ok (a : ServiceAccount) : Prop := mkAccountOk {
  ao_code_hash : length (code_hash a) = 32%nat;
  ao_balance : u64 (balance a);
  ao_gas_accumulate : u64 (gas_limit_accumulate a);
  ao_gas_transfer : u64 (gas_limit_on_transfer a);
  ao_bytes : u64 (footprint_storage_bytes a);
  ao_offset : u64 (deposit_offset a);
  ao_items : u32 (footprint_storage_items a);
  ao_creation : u32 (creation_slot a);
  ao_last : u32 (last_accumulation_slot a);
  ao_parent : u32 (parent_service a)
}.

(** The [i]-th of a list of fields, from its offset. *)
Lemma slice_concat (fields : list bytes) i x lo hi :
  fields !! i = Some x -> length (concat (take i fields)) = lo -> hi = (lo + length x)%nat -> slice lo hi (concat fields) = x.
Proof.
  intros Hi <- ->.
  assert (concat fields = concat (take i fields) ++ x ++ concat (drop (S i) fields)) as ->.
  { change (concat (take i fields) ++ x ++ concat (drop (S i) fields)) with (concat (take i fields) ++ concat (x :: drop (S i) fields)).
    by rewrite <- concat_app, (take_drop_middle fields i x Hi). }
  unfold slice. rewrite drop_app_length, Nat.add_comm, Nat.add_sub. apply take_app_length.
Qed.

Section serialisation.
Context {codec : Codec} {laws : CodecLaws codec}.

Definition account_fields (a : ServiceAccount) : list bytes :=
  [[0]; code_hash a; U64_encode (balance a); U64_encode (gas_limit_accumulate a); U64_encode (gas_limit_on_transfer a);
   U64_encode (footprint_storage_bytes a); U64_encode (deposit_offset a); U32_encode (footprint_storage_items a);
   U32_encode (creation_slot a); U32_encode (last_accumulation_slot a); U32_encode (parent_service a)].

Lemma within_spec w x : within w x = true <-> 0 <= x < 2 ^ w.
Proof. unfold within. by rewrite andb_true_iff, Z.leb_le, Z.ltb_lt. Qed.

Lemma u64_encoded_run x : u64 x -> u64_encoded x = Ret (U64_encode x).
Proof. intros Hx. unfold u64_encoded. by rewrite (proj2 (within_spec 64 x) Hx). Qed.
Lemma u32_encoded_run x : u32 x -> u32_encoded x = Ret (U32_encode x).
Proof. intros Hx. unfold u32_encoded. by rewrite (proj2 (within_spec 32 x) Hx). Qed.
Lemma vec_u32_encoded_run l : Forall u32 l -> vec_u32_encoded l = Ret (VecU32_encode l).
Proof.
  intros Hl. unfold vec_u32_encoded. assert (forallb (within 32) l = true) as ->; [|done]. apply forallb_forall. intros x Hx.
  apply within_spec. rewrite List.Forall_forall in Hl. by apply Hl.
Qed.

Lemma to_serialized_fields a : account_ok a -> to_serialized_bytes a = Ret (concat (account_fields a)).
Proof.
  intros [Hc ? ? ? ? ? ? ? ? ?]. unfold to_serialized_bytes. rewrite !u64_encoded_run, !u32_encoded_run by done. cbn [mbind outcome_bind].
  unfold account_fields. cbn [concat]. by rewrite app_nil_r.
Qed.

Lemma serialized_run a b : account_ok a -> to_serialized_bytes a = Ret b -> from_serialized_bytes b = Ret a.
Proof.
  intros Ha Hb. rewrite to_serialized_fields in Hb by done. assert (b = concat (account_fields a)) as -> by congruence. clear Hb. pose proof Ha as [Hc ? ? ? ? ? ? ? ? ?].
  set (b := concat (account_fields a)).
  assert (forall i x lo hi, account_fields a !! i = Some x ->
    length (concat (take i (account_fields a))) = lo -> hi = (lo + length x)%nat -> slice lo hi b = x) as H.
  { intros i x lo hi Hi Hlo ->. by eapply slice_concat. }
  unfold from_serialized_bytes. change (get_item b 0) with (Ret 0 : outcome state_exn Z). cbn [mbind outcome_bind].
  change (0 <? 0) with false. cbn [mbind outcome_bind].
  rewrite (H 2%nat (U64_encode (balance a)) 33%nat 41%nat), (H 3%nat (U64_encode (gas_limit_accumulate a)) 41%nat 49%nat),
    (H 4%nat (U64_encode (gas_limit_on_transfer a)) 49%nat 57%nat), (H 5%nat (U64_encode (footprint_storage_bytes a)) 57%nat 65%nat),
    (H 6%nat (U64_encode (deposit_offset a)) 65%nat 73%nat), (H 7%nat (U32_encode (footprint_storage_items a)) 73%nat 77%nat),
    (H 8%nat (U32_encode (creation_slot a)) 77%nat 81%nat), (H 9%nat (U32_encode (last_accumulation_slot a)) 81%nat 85%nat),
    (H 10%nat (U32_encode (parent_service a)) 85%nat 89%nat), (H 1%nat (code_hash a) 1%nat 33%nat);
    try reflexivity; try (simpl; rewrite ?length_app, ?U64_length, ?U32_length, ?Hc; reflexivity).
  rewrite !U64_round, !U32_round by done. simpl. by destruct a.
Qed.

(** an account whose fields fit their types is read back from the bytes it is stored as. *)
Theorem account_roundtrip a : account_ok a -> exists b, to_serialized_bytes a = Ret b /\ from_serialized_bytes b = Ret a.
Proof. intros Ha. exists (concat (account_fields a)). rewrite to_serialized_fields by done. split; [done|]. by apply serialized_run, to_serialized_fields. Qed.

(** One whose fields do not is not stored. *)
Lemma not_serialized a : ~ (u64 (balance a) /\ u64 (gas_limit_accumulate a) /\ u64 (gas_limit_on_transfer a) /\ u64 (footprint_storage_bytes a) /\
    u64 (deposit_offset a) /\ u32 (footprint_storage_items a) /\ u32 (creation_slot a) /\ u32 (last_accumulation_slot a) /\ u32 (parent_service a)) ->
  to_serialized_bytes a = Raise ValueError.
Proof.
  intros Hn. unfold to_serialized_bytes, u64_encoded, u32_encoded.
  repeat match goal with |- context [within ?w ?x] => destruct (within w x) eqn:?; cbn [mbind outcome_bind]; [|done] end.
  destruct Hn. repeat (split; [by apply within_spec|]). by apply within_spec.
Qed.
End serialisation.

(** ** Reads after writes to the storage *)

Section writes.

Lemma get_walk_transaction t s key fuel visited c :
  get_walk (with_transaction t s) key fuel visited c = get_walk s key fuel visited c.
Proof.
  revert visited c. induction fuel as [|fuel IH]; intros visited c; [done|]. simpl. destruct c as [b|]; [|done].
  case_bool_decide; [done|]. destruct (_ ≫= _); [done|]. apply IH.
Qed.

(** Without a selected block a read is one of the engine, and with one of the transaction
    first, as the writes are. *)
Lemma get_write (w : option bytes) key key' s :
  get key' false (match w with Some v => put key v s | None => delete_key key s end) =
  if decide (key' = key) then Some (Ret w) else get key' false s.
Proof.
  unfold get, put, delete_key. destruct (truthy (block_hash s)) eqn:Ht.
  - assert ((match w with Some v => with_transaction (<[key:=Some v]> (transaction s)) s
      | None => with_transaction (<[key:=None]> (transaction s)) s end) = with_transaction (<[key:=w]> (transaction s)) s) as ->
      by (by destruct w).
    set (t := <[key:=w]> (transaction s)). change (block_hash (with_transaction t s)) with (block_hash s).
    change (transaction (with_transaction t s)) with t. change (storage_engine (with_transaction t s)) with (storage_engine s).
    change (walk_fuel (with_transaction t s)) with (walk_fuel s). rewrite Ht, get_walk_transaction. unfold t.
    destruct (decide (key' = key)) as [->|Hne]; [by rewrite lookup_insert_eq|by rewrite lookup_insert_ne].
  - destruct w; cbn [block_hash with_engine storage_engine]; rewrite Ht; destruct (decide (key' = key)) as [->|Hne];
      rewrite ?lookup_insert_eq, ?lookup_insert_ne, ?lookup_delete_eq, ?lookup_delete_ne; done.
Qed.

Definition write_of (w : option bytes) (key : bytes) : StateStorage -> StateStorage :=
  match w with Some v => put key v | None => delete_key key end.

Lemma storage_write_get w key key' st st' : storage_write (write_of w key) st = Ret st' ->
  pending_changes st' = pending_changes st /\
  storage_get st' key' = if decide (key' = key) then Ret w else storage_get st key'.
Proof.
  unfold storage_write, storage_get. destruct (state_storage st) as [s|]; [|done]. intros [= <-]. cbn [state_storage pending_changes].
  split; [done|]. pose proof (get_write w key key' s) as Hget. unfold write_of.
  destruct w; rewrite Hget; by destruct (decide (key' = key)).
Qed.
End writes.

Section persistence.
Context {codec : Codec} (blake2b_256_hash : bytes -> bytes).

(** A read of the storage alone. *)
Definition persisted (st : ServicesState) : ServicesState := mkServicesState no_changes (state_storage st) (materialized st).

Lemma persisted_storage_item id k key st : state_key_constructor_storage_item blake2b_256_hash id k = Ret key ->
  state_storage st <> None -> retrieve_storage_item blake2b_256_hash id k (persisted st) = (data ← storage_get (persisted st) key; or_no_result data).
Proof.
  intros Hkey Hs. unfold retrieve_storage_item, persisted. simpl. destruct (state_storage st) as [s|] eqn:E; [|done].
  change (pc_storage_items no_changes) with (∅ : gmap (Z * bytes) (option bytes)). rewrite lookup_empty.
  rewrite Hkey. simpl. done.
Qed.

(** Writing an item to the storage: a value, or its deletion. *)
Definition write_storage_item (id : Z) (k : bytes) (w : option bytes) (st : ServicesState) : outcome state_exn ServicesState :=
  match w with
  | Some v => store_storage_item blake2b_256_hash id k v true st
  | None => delete_storage_item blake2b_256_hash id k true st
  end.

Lemma write_storage_item_ret id k w st st' : write_storage_item id k w st = Ret st' ->
  exists key, state_key_constructor_storage_item blake2b_256_hash id k = Ret key /\ state_storage st <> None /\
    state_storage st' <> None /\ forall key', storage_get (persisted st') key' =
      if decide (key' = key) then Ret w else storage_get (persisted st) key'.
Proof.
  intros H. assert (exists key st0, state_key_constructor_storage_item blake2b_256_hash id k = Ret key /\
    state_storage st0 = state_storage st /\ storage_write (write_of w key) st0 = Ret st') as (key & st0 & Hkey & Hst & Hw).
  { destruct w as [v|]; simpl in H; unfold store_storage_item, delete_storage_item in H;
      destruct (state_key_constructor_storage_item blake2b_256_hash id k) as [key|] eqn:Hkey; simpl in H; try done;
      eexists key, _; (split; [done|split; [|exact H]]); done. }
  exists key. split; [done|]. pose proof Hw as Hsome. unfold storage_write in Hsome. rewrite Hst in Hsome.
  destruct (state_storage st) as [s|] eqn:Es; [|done]. injection Hsome as <-. split_and!; try done.
  intros key'. destruct (storage_write_get w key key' _ _ Hw) as [_ Hget]. unfold storage_get in *. simpl in *.
  rewrite Hst in Hget. by rewrite Es.
Qed.

(** what is written to the storage of a block is read back from it without the pending
    changes, a deletion as a missing item, and no other item of any service changes, unless
    its hash agrees with the written one's in 27 bytes. *)
Theorem storage_item_persists id k w st st' : (forall x, length (blake2b_256_hash x) = 32%nat) ->
  write_storage_item id k w st = Ret st' ->
  retrieve_storage_item blake2b_256_hash id k (persisted st') = or_no_result w /\
  forall id' k', id' <> id \/ take 27 (blake2b_256_hash (le_bytes 4 (2 ^ 32 - 1) ++ k')) <>
                             take 27 (blake2b_256_hash (le_bytes 4 (2 ^ 32 - 1) ++ k)) ->
    retrieve_storage_item blake2b_256_hash id' k' (persisted st') = retrieve_storage_item blake2b_256_hash id' k' (persisted st).
Proof.
  intros Hlen (key & Hkey & Hs & Hs' & Hget)%write_storage_item_ret. split.
  - rewrite (persisted_storage_item id k key) by done. rewrite Hget, decide_True by done. done.
  - intros id' k' Hne. unfold retrieve_storage_item, persisted. cbn [pending_changes state_storage].
    change (pc_storage_items no_changes) with (∅ : gmap (Z * bytes) (option bytes)). rewrite lookup_empty.
    destruct (state_storage st) as [s|] eqn:E; [|done]. destruct (state_storage st') as [s'|] eqn:E'; [|done].
    destruct (state_key_constructor_storage_item blake2b_256_hash id' k') as [key'|e] eqn:Hkey'; [|done].
    cbn [mbind outcome_bind]. unfold persisted in Hget. rewrite E, E' in Hget. rewrite Hget, decide_False; [done|].
    intros ->. destruct (value_key_inj_run _ _ _ _ _ _ Hlen Hkey' Hkey) as [-> Ht]. destruct Hne as [[]|[]]; done.
Qed.
End persistence.
