(* ===== verification/Pending.v ===== *)
(** * Pending changes of the services

    What the operations of [ServicesState] do when they write to the pending changes only, as
    accumulation uses them: each is a total function on identifiers of accounts, and reads after
    it see its write and nothing else.  A state is [readable] when reads find a value or raise
    [StateKeyNoResult]. *)

From Stdlib Require Import ZArith Lia Bool List.
From stdpp Require Import base numbers option list sets gmap.
From S2P Require Import Prelude Graypaper StateBase Storage StateKeys Accounts.
Import ListNotations.

#[local] Open Scope Z_scope.

(** An identifier of an account: U32. *)
Definition service_id (id : Z) : Prop := 0 <= id < 2 ^ 32.

(** ** The pending writes *)

Definition put_account (id : Z) (a : option ServiceAccount) (st : ServicesState) : ServicesState :=
  with_accounts (<[id := a]> (pc_accounts (pending_changes st))) st.
Definition put_item (id : Z) (k : bytes) (v : option bytes) (st : ServicesState) : ServicesState :=
  with_storage_items (<[(id, k) := v]> (pc_storage_items (pending_changes st))) st.
Definition put_preimage (id : Z) (h : bytes) (v : option bytes) (st : ServicesState) : ServicesState :=
  with_preimages (<[(id, h) := v]> (pc_preimages (pending_changes st))) st.
Definition put_availability (id : Z) (h : bytes) (l : Z) (v : option (list Z)) (st : ServicesState) : ServicesState :=
  with_availability (<[(id, h, l) := v]> (pc_availability (pending_changes st))) st.

Section pending.
Context {codec : Codec} (H : bytes -> bytes) (Hlen : forall x, length (H x) = 32%nat).
Implicit Types (st : ServicesState).

Lemma store_account_run id a st : service_id id -> store_service_account id a false st = Ret (put_account id (Some a) st).
Proof using.
  intros Hid. unfold store_service_account. destruct (Z.leb_spec (2 ^ 32) id); [unfold service_id in Hid; lia|].
  destruct (account_key_total id Hid) as (key & -> & _). cbn [mbind outcome_bind]. unfold put_account. do 3 f_equal.
  destruct (pc_accounts (pending_changes st) !! id) as [[old|]|]; [|done..]. by destruct a.
Qed.

Lemma delete_account_run id st : service_id id -> delete_service_account id false st = Ret (put_account id None st).
Proof using.
  intros Hid. unfold delete_service_account. destruct (Z.leb_spec (2 ^ 32) id); [unfold service_id in Hid; lia|].
  by destruct (account_key_total id Hid) as (key & -> & _).
Qed.

Lemma item_key_total id k : service_id id -> exists key, state_key_constructor_storage_item H id k = Ret key.
Proof using Hlen. intros Hid. destruct (value_key_total H id (le_bytes 4 (2 ^ 32 - 1) ++ k) Hid) as (key & ? & _); eauto. Qed.

Lemma preimage_key_total id h : service_id id -> exists key, state_key_constructor_preimage H id h = Ret key.
Proof using Hlen. intros Hid. destruct (value_key_total H id (le_bytes 4 (2 ^ 32 - 2) ++ h) Hid) as (key & ? & _); eauto. Qed.

Lemma availability_key_total id h l : service_id id -> 0 <= l < 2 ^ 32 ->
  exists key, state_key_constructor_preimage_availability H id h l = Ret key.
Proof using Hlen.
  intros Hid Hl. unfold state_key_constructor_preimage_availability.
  destruct (to_bytes4 l) as [b|e] eqn:Hb.
  - cbn [mbind outcome_bind]. destruct (value_key_total H id (b ++ h) Hid) as (key & ? & _); eauto.
  - pose proof (proj2 (to_bytes4_ret l (le_bytes 4 l)) (conj Hl eq_refl)). congruence.
Qed.

Lemma store_item_run id k v st : service_id id -> store_storage_item H id k v false st = Ret (put_item id k (Some v) st).
Proof using Hlen. intros Hid. unfold store_storage_item. by destruct (item_key_total id k Hid) as (key & ->). Qed.

Lemma delete_item_run id k st : service_id id -> delete_storage_item H id k false st = Ret (put_item id k None st).
Proof using Hlen. intros Hid. unfold delete_storage_item. by destruct (item_key_total id k Hid) as (key & ->). Qed.

Lemma delete_preimage_run id h st : service_id id -> delete_preimage H id h false st = Ret (put_preimage id h None st).
Proof using Hlen. intros Hid. unfold delete_preimage. by destruct (preimage_key_total id h Hid) as (key & ->). Qed.

Lemma store_availability_run id h l v st : service_id id -> 0 <= l < 2 ^ 32 ->
  store_preimage_availability H id h l v false st = Ret (put_availability id h l (Some v) st).
Proof using Hlen. intros Hid Hl. unfold store_preimage_availability. by destruct (availability_key_total id h l Hid Hl) as (key & ->). Qed.

Lemma delete_availability_run id h l st : service_id id -> 0 <= l < 2 ^ 32 ->
  delete_preimage_availability H id h l false st = Ret (put_availability id h l None st).
Proof using Hlen. intros Hid Hl. unfold delete_preimage_availability. by destruct (availability_key_total id h l Hid Hl) as (key & ->). Qed.

(** ** Reads after writes *)

Lemma retrieve_put_account id j a st : service_id j ->
  retrieve_service_account id true (put_account j a st) =
  if decide (id = j) then or_no_result a else retrieve_service_account id true st.
Proof using.
  intros Hj. unfold retrieve_service_account, put_account. cbn [with_accounts pending_changes pc_accounts state_storage].
  destruct (decide (id = j)) as [->|Hne]; [|by rewrite lookup_insert_ne].
  destruct (Z.leb_spec (2 ^ 32) j); [unfold service_id in Hj; lia|]. rewrite lookup_insert_eq. by destruct a.
Qed.

Lemma retrieve_put_item id k j k' v st :
  retrieve_storage_item H id k (put_item j k' v st) =
  if decide ((id, k) = (j, k')) then or_no_result v else retrieve_storage_item H id k st.
Proof using.
  unfold retrieve_storage_item, put_item. cbn [with_storage_items pending_changes pc_storage_items state_storage].
  destruct (decide ((id, k) = (j, k'))) as [->|Hne]; [by rewrite lookup_insert_eq|by rewrite lookup_insert_ne].
Qed.

Lemma retrieve_put_preimage id h j h' v st :
  retrieve_preimage H id h (put_preimage j h' v st) =
  if decide ((id, h) = (j, h')) then or_no_result v else retrieve_preimage H id h st.
Proof using.
  unfold retrieve_preimage, put_preimage. cbn [with_preimages pending_changes pc_preimages state_storage].
  destruct (decide ((id, h) = (j, h'))) as [->|Hne]; [by rewrite lookup_insert_eq|by rewrite lookup_insert_ne].
Qed.

Lemma retrieve_put_availability id h l j h' l' v st : service_id j -> 0 <= l' < 2 ^ 32 ->
  retrieve_preimage_availability H id h l (put_availability j h' l' v st) =
  if decide ((id, h, l) = (j, h', l')) then or_no_result v else retrieve_preimage_availability H id h l st.
Proof using.
  intros Hj Hl'. unfold retrieve_preimage_availability, put_availability.
  cbn [with_availability pending_changes pc_availability state_storage].
  destruct (decide ((id, h, l) = (j, h', l'))) as [[= -> -> ->]|Hne]; [|by rewrite lookup_insert_ne].
  unfold service_id in Hj. destruct (Z.ltb_spec j (2 ^ 32)), (Z.ltb_spec l' (2 ^ 32)); try lia. by rewrite lookup_insert_eq.
Qed.

(** Writes of one kind do not change the reads of another. *)
Lemma account_put_item id j k' v st : retrieve_service_account id true (put_item j k' v st) = retrieve_service_account id true st.
Proof using. done. Qed.
Lemma account_put_preimage id j h' v st : retrieve_service_account id true (put_preimage j h' v st) = retrieve_service_account id true st.
Proof using. done. Qed.
Lemma account_put_availability id j h' l' v st : retrieve_service_account id true (put_availability j h' l' v st) = retrieve_service_account id true st.
Proof using. done. Qed.
Lemma item_put_account id k j v st : retrieve_storage_item H id k (put_account j v st) = retrieve_storage_item H id k st.
Proof using. done. Qed.
Lemma item_put_preimage id k j h' v st : retrieve_storage_item H id k (put_preimage j h' v st) = retrieve_storage_item H id k st.
Proof using. done. Qed.
Lemma item_put_availability id k j h' l' v st : retrieve_storage_item H id k (put_availability j h' l' v st) = retrieve_storage_item H id k st.
Proof using. done. Qed.
Lemma preimage_put_account id h j v st : retrieve_preimage H id h (put_account j v st) = retrieve_preimage H id h st.
Proof using. done. Qed.
Lemma preimage_put_item id h j k' v st : retrieve_preimage H id h (put_item j k' v st) = retrieve_preimage H id h st.
Proof using. done. Qed.
Lemma preimage_put_availability id h j h' l' v st : retrieve_preimage H id h (put_availability j h' l' v st) = retrieve_preimage H id h st.
Proof using. done. Qed.
Lemma availability_put_account id h l j v st : retrieve_preimage_availability H id h l (put_account j v st) = retrieve_preimage_availability H id h l st.
Proof using. done. Qed.
Lemma availability_put_item id h l j k' v st : retrieve_preimage_availability H id h l (put_item j k' v st) = retrieve_preimage_availability H id h l st.
Proof using. done. Qed.
Lemma availability_put_preimage id h l j h' v st : retrieve_preimage_availability H id h l (put_preimage j h' v st) = retrieve_preimage_availability H id h l st.
Proof using. done. Qed.
End pending.

Create Rewrite HintDb pending.
#[export] Hint Rewrite @account_put_item @account_put_preimage @account_put_availability @item_put_account @item_put_preimage @item_put_availability @preimage_put_account @preimage_put_item @preimage_put_availability @availability_put_account @availability_put_item @availability_put_preimage : pending.

(** ** Readable states *)

(** A value, or that there is none. *)
Definition answers {A} (Φ : A -> Prop) (r : outcome state_exn A) : Prop :=
  match r with Ret a => Φ a | Raise e => e = StateKeyNoResult end.

Lemma answers_no_result {A} (Φ : A -> Prop) o : (forall a, o = Some a -> Φ a) -> answers Φ (or_no_result o).
Proof. destruct o; simpl; auto. Qed.

(** Bytes of a length that fits a register. *)
Definition data_ok (v : bytes) : Prop := List.Forall is_byte v /\ Z.of_nat (length v) < 2 ^ 64.

Definition hash_ok (h : bytes) : Prop := List.Forall is_byte h /\ length h = 32%nat.

(** Under what proposition a request may be no sequence of integers ([request_reads_item] below):
    [False] where every request has to read, [True] where none has to. *)
Class Tolerance : Type := tolerated : Prop.

Section readable.
Context {tolerance : Tolerance} {codec : Codec} (H : bytes -> bytes).

Record readable (st : ServicesState) : Prop := mkReadable {
  rd_account id : 0 <= id -> answers (fun a => hash_ok (code_hash a)) (retrieve_service_account id true st);
  rd_item id k : service_id id -> answers data_ok (retrieve_storage_item H id k st);
  rd_preimage id h : service_id id -> answers data_ok (retrieve_preimage H id h st);
  rd_availability id h l : 0 <= id -> 0 <= l -> answers (Forall u32) (retrieve_preimage_availability H id h l st) \/
    tolerated /\ retrieve_preimage_availability H id h l st = Raise ValueError
}.

Lemma readable_put_account j a st : service_id j -> (forall b, a = Some b -> hash_ok (code_hash b)) ->
  readable st -> readable (put_account j a st).
Proof using.
  intros Hj Ha [R1 R2 R3 R4]. split; [|exact R2|exact R3|exact R4]. intros id Hid. rewrite retrieve_put_account by done.
  destruct (decide (id = j)) as [->|]; [by apply answers_no_result|by apply R1].
Qed.

Lemma readable_put_item j k v st : (forall b, v = Some b -> data_ok b) -> readable st -> readable (put_item j k v st).
Proof using.
  intros Hv [R1 R2 R3 R4]. split; [exact R1| |exact R3|exact R4]. intros id k' Hid. rewrite retrieve_put_item.
  destruct (decide ((id, k') = (j, k))); [by apply answers_no_result|by apply R2].
Qed.

Lemma readable_put_preimage j h v st : (forall b, v = Some b -> data_ok b) -> readable st -> readable (put_preimage j h v st).
Proof using.
  intros Hv [R1 R2 R3 R4]. split; [exact R1|exact R2| |exact R4]. intros id h' Hid. rewrite retrieve_put_preimage.
  destruct (decide ((id, h') = (j, h))); [by apply answers_no_result|by apply R3].
Qed.

Lemma readable_put_availability j h l v st : service_id j -> 0 <= l < 2 ^ 32 -> (forall b, v = Some b -> Forall u32 b) -> readable st -> readable (put_availability j h l v st).
Proof using.
  intros Hj Hl Hv [R1 R2 R3 R4]. split; [exact R1|exact R2|exact R3|]. intros id h' l' Hid Hl'. rewrite retrieve_put_availability by done.
  destruct (decide ((id, h', l') = (j, h, l))); [left; by apply answers_no_result|by apply R4].
Qed.
End readable.

(** C39: A request for a preimage of [2^32 - 1] bytes, which [query], [solicit] and [forget] admit,
    has the state key of the storage item whose key is the hash: the request of a service for such
    a preimage reads the item, and when the item is no sequence of integers the codec's error
    leaves the read.  A service can make its state unreadable that way. *)
Theorem request_reads_item {codec : Codec} (H : bytes -> bytes) id h v st : service_id id -> v <> [] ->
  retrieve_storage_item H id h (persisted st) = Ret v ->
  retrieve_preimage_availability H id h (2 ^ 32 - 1) (persisted st) = decoded (VecU32_decode v) /\
  (VecU32_decode v = None -> ~ readable (tolerance := False) H (persisted st)).
Proof.
  intros Hid Hv Hitem.
  assert (retrieve_preimage_availability H id h (2 ^ 32 - 1) (persisted st) = decoded (VecU32_decode v)) as Hrun.
  { revert Hitem. unfold retrieve_storage_item, retrieve_preimage_availability, persisted. cbn [pending_changes state_storage pc_storage_items pc_availability no_changes].
    rewrite !lookup_empty. destruct (state_storage st) as [s|]; [|done].
    unfold state_key_constructor_storage_item, state_key_constructor_preimage_availability.
    destruct (Z.ltb_spec id (2 ^ 32)) as [_|Hge]; [|destruct Hid; lia]. change (2 ^ 32 - 1 <? 2 ^ 32) with true. cbn [andb].
    rewrite (proj2 (to_bytes4_ret (2 ^ 32 - 1) (le_bytes 4 (2 ^ 32 - 1)))) by (split; [lia|done]). cbn [mbind outcome_bind].
    destruct (state_key_constructor_service_account_value _ _ _) as [key|]; [|done]. cbn [mbind outcome_bind].
    destruct (storage_get _ key) as [[data|]|]; [|done..]. cbn [mbind outcome_bind or_no_result]. intros [= ->]. by destruct v. }
  split; [exact Hrun|]. intros Hnone Hread. pose proof (rd_availability _ _ Hread id h (2 ^ 32 - 1) (proj1 Hid) ltac:(lia)) as Ha.
  rewrite Hrun, Hnone in Ha. by destruct Ha as [|[[] _]].
Qed.
