(* ===== verification/Guarantees.v ===== *)
(** * Guarantees

    The last part of the [Assurances] component of [state/components.py]: the validation of
    the guarantees extrinsic and the transition that puts the guaranteed reports on their
    cores, with the guarantor assignments of [BlockContext] in [models/context.py].

    The hash, the signature check and the encoding of a report come from libraries: they are
    arguments. Headers that the storage no longer retains are looked up in the node's store of
    blocks, a finite map. *)

From Stdlib Require Import ZArith Lia Bool List String Sorted.
From stdpp Require Import base numbers option list sets gmap.
From S2P Require Import Prelude ByteOrder Graypaper StateBase Reports Shuffle Safrole History Queue Assurances Storage Accounts.
Import ListNotations.

#[local] Open Scope Z_scope.

Definition GuaranteeE (c : GuaranteeErrorCode.t) : state_exn := StateTransitionError (GuaranteeCode c).

#[local] Abbreviation hash0 := (replicate 32 0 : bytes).

(** ** Guarantor assignments *)

Record GuarantorAssignment : Type := mkGuarantorAssignment { ga_core_index : Z; ga_validator_ed25519 : bytes }.

(** The comprehension over [enumerate(assignments)]. *)
Fixpoint enumerate_assignments (validators : list ValidatorData) (validator_index : Z) (assignments : list Z)
    : outcome state_exn (list GuarantorAssignment) :=
  match assignments with
  | [] => Ret []
  | core_index :: assignments =>
      v ← get_item validators validator_index;
      rest ← enumerate_assignments validators (validator_index + 1) assignments;
      Ret (mkGuarantorAssignment core_index (ed25519 v) :: rest)
  end.

Section assignments.
Context (blake2b_256_hash : bytes -> bytes) (gp : GpConstants).

Definition assignments_of (entropy : bytes) (timeslot : Z) (validators : list ValidatorData) : outcome state_exn (list GuarantorAssignment) :=
  assignments ← guarantor_permute blake2b_256_hash gp entropy timeslot (Z.of_nat (length validators));
  enumerate_assignments validators 0 assignments.

(** [set_guarantor_assignments] and [set_prev_guarantor_assignments], on the entropy entries. *)
Definition guarantor_assignments (post_entropy : list bytes) (post_timeslot : Z) (post_validator_pool : list ValidatorData)
    : outcome state_exn (list GuarantorAssignment) :=
  entropy ← get_item post_entropy 2;
  assignments_of entropy post_timeslot post_validator_pool.

Definition prev_guarantor_assignments (post_entropy : list bytes) (post_timeslot : Z)
    (post_validator_pool post_validator_archive : list ValidatorData) : outcome state_exn (list GuarantorAssignment) :=
  let earlier := post_timeslot - ROTATION_PERIOD_CORE gp in
  if earlier / EPOCH_TIMESLOTS gp =? post_timeslot / EPOCH_TIMESLOTS gp then
    entropy ← get_item post_entropy 2; assignments_of entropy earlier post_validator_pool
  else
    entropy ← get_item post_entropy 3; assignments_of entropy earlier post_validator_archive.
End assignments.

(** ** The lookup anchor *)

(** The loop; [child_root] is the state root the child's header commits to. *)
Fixpoint anchor_walk (ancestors header_lookup : gmap bytes Ancestor) (context : RefinementContext) (fuel : nat)
    (visited : list bytes) (child_root : option bytes) (cursor : bytes) : option bool :=
  match fuel with
  | O => None
  | S fuel =>
      if bool_decide (cursor = hash0) || bool_decide (cursor ∈ visited) then Some false
      else
        match (match ancestors !! cursor with Some a => Some a | None => header_lookup !! cursor end) with
        | None => Some false
        | Some ancestor =>
            if negb (bool_decide (anc_hash ancestor = cursor)) then Some false
            else if bool_decide (cursor = rc_lookup_anchor context) then
              Some ((anc_timeslot ancestor =? rc_lookup_anchor_slot context) &&
                    bool_decide (child_root = Some (rc_lookup_anchor_state_root context)))
            else if anc_timeslot ancestor <? rc_lookup_anchor_slot context then Some false
            else anchor_walk ancestors header_lookup context fuel (cursor :: visited)
                   (anc_parent_state_root ancestor) (anc_parent ancestor)
        end
  end.

(** A walk visits every known header at most once. *)
Definition anchor_fuel (ancestors header_lookup : gmap bytes Ancestor) : nat := S (size ancestors + size header_lookup).

(** The check without a store of blocks: some retained header is a child of the anchor. *)
Definition anchor_retained (context : RefinementContext) (ancestors : gmap bytes Ancestor) (header : option Header) : bool :=
  match ancestors !! rc_lookup_anchor context with
  | None => false
  | Some lookup_header =>
      (anc_timeslot lookup_header =? rc_lookup_anchor_slot context) &&
      (existsb (fun child => bool_decide (anc_parent child.2 = rc_lookup_anchor context) &&
                             bool_decide (anc_parent_state_root child.2 = Some (rc_lookup_anchor_state_root context)))
         (map_to_list ancestors) ||
       match header with
       | None => false
       | Some h => bool_decide (parent h = rc_lookup_anchor context) &&
                   bool_decide (parent_state_root h = rc_lookup_anchor_state_root context)
       end)
  end.

Definition lookup_anchor_is_known (context : RefinementContext) (state_storage : option StateStorage) (header : option Header)
    (header_lookup : option (gmap bytes Ancestor)) : option bool :=
  match state_storage with
  | None => Some false
  | Some s =>
      match header, header_lookup with
      | Some h, Some lookup =>
          anchor_walk (ancestors s) lookup context (anchor_fuel (ancestors s) lookup) [] (Some (parent_state_root h)) (parent h)
      | _, _ => Some (anchor_retained context (ancestors s) header)
      end
  end.

(** ** The checks of one report *)

Section checks.
Context {codec : Codec} (gp : GpConstants).

Definition check_work_result_count (w : WorkReport) : outcome state_exn unit :=
  let n := Z.of_nat (length (wr_results w)) in
  raise_if (negb ((1 <=? n) && (n <=? MAXIMUM_WORK_ITEMS gp))) (GuaranteeE GuaranteeErrorCode.missing_work_results).

Definition ok_length (r : WorkExecResult) : Z := match r with ok data => Z.of_nat (length data) | _ => 0 end.

Definition sum_by {A} (f : A -> Z) (l : list A) : Z := foldr (fun x n => f x + n) 0 l.

Definition report_size (w : WorkReport) : Z :=
  Z.of_nat (length (wr_auth_output w)) + sum_by (fun r => ok_length (wd_result r)) (wr_results w).

Definition check_size_limit (w : WorkReport) : outcome state_exn unit :=
  raise_if (MAXIMUM_SIZE_ENCODED_WORK_REPORT gp <? report_size w) (GuaranteeE GuaranteeErrorCode.work_report_too_big).

Fixpoint check_gas_results (services : ServicesState) (total_gas : Z) (results : list WorkDigest) : outcome state_exn unit :=
  match results with
  | [] => Ret tt
  | result :: results =>
      match retrieve_service_account (wd_service_id result) true services with
      | Raise StateKeyNoResult => Raise (GuaranteeE GuaranteeErrorCode.bad_service_id)
      | Raise e => Raise e
      | Ret _ =>
          service ← retrieve_service_account (wd_service_id result) true services;
          if negb (bool_decide (wd_code_hash result = code_hash service)) then Raise (GuaranteeE GuaranteeErrorCode.bad_code_hash)
          else if wd_accumulate_gas result <? gas_limit_accumulate service then
            Raise (GuaranteeE GuaranteeErrorCode.service_item_gas_too_low)
          else
            let total_gas := total_gas + wd_accumulate_gas result in
            if GAS_ACCUMULATION gp <? total_gas then Raise (GuaranteeE GuaranteeErrorCode.work_report_gas_too_high)
            else check_gas_results services total_gas results
      end
  end.

Definition check_gas_requirements (w : WorkReport) (services : ServicesState) : outcome state_exn unit :=
  if GAS_INVOKE gp <? wr_auth_gas_used w then Raise (GuaranteeE GuaranteeErrorCode.authorizer_gas_too_high)
  else check_gas_results services 0 (wr_results w).

Definition total_load (f : RefineLoad -> Z) (w : WorkReport) : Z := sum_by (fun r => f (wd_refine_load r)) (wr_results w).

Definition refinement_load_ok (w : WorkReport) : bool :=
  let footprint := total_load rl_imports w * IMPORT_SEGMENT_FOOTPRINT gp + total_load rl_extrinsic_size w in
  negb ((GAS_REFINE gp <? total_load rl_gas_used w)
    || (MAXIMUM_NUMBER_IMPORTS_WORK_PACKAGE gp <? total_load rl_imports w)
    || (MAXIMUM_NUMBER_EXPORTS_WORK_PACKAGE gp <? total_load rl_exports w)
    || (MAXIMUM_NUMBER_EXTRINSICS_WORK_PACKAGE gp <? total_load rl_extrinsic_count w)
    || (MAXIMUM_SIZE_WORK_PACKAGE gp <? footprint)).

Definition check_refinement_load (w : WorkReport) : outcome state_exn unit :=
  raise_if (negb (refinement_load_ok w)) (GuaranteeE GuaranteeErrorCode.refine_load_too_high).

Definition check_bundle_length (w : WorkReport) : outcome state_exn unit :=
  raise_if (MAXIMUM_SIZE_AUDITABLE_BUNDLE gp <? ps_length (wr_package_spec w)) (GuaranteeE GuaranteeErrorCode.bundle_length_too_high).

Definition check_export_count (w : WorkReport) : outcome state_exn unit :=
  raise_if (negb (ps_exports_count (wr_package_spec w) =? total_load rl_exports w))
    (GuaranteeE GuaranteeErrorCode.exports_count_mismatch).
End checks.

(** ** The validation *)

(** What [validate_guarantees] reads besides the extrinsic: states, the header, and the
    objects of the application and of the block context. *)
Record GuaranteesContext : Type := mkGuaranteesContext {
  gc_services : ServicesState;
  gc_recent_history : RecentHistoryState;
  gc_authorizer_pools : list (list bytes);
  gc_assurances : AssurancesState;
  gc_validators : list ValidatorData;
  gc_header : Header;
  gc_accumulation_history : list (list bytes);
  gc_accumulation_queue : list (list AccumulationQueueWorkPackage);
  gc_timeslot : Z;
  gc_offenders : list bytes;
  gc_guarantor_assignments : list GuarantorAssignment;
  gc_prev_guarantor_assignments : list GuarantorAssignment;
  gc_state_storage : option StateStorage;
  gc_header_lookup : option (gmap bytes Ancestor);
  gc_skip_lookup_anchor_ancestry : bool
}.

(** The hashes of the reported packages of the recent history. *)
Definition recent_package_hashes (h : RecentHistoryState) : list bytes :=
  flat_map (fun b => map rp_hash (rb_reported b)) (recent_blocks h).

Definition pending_package_hashes (assurances : AssurancesState) : list bytes :=
  flat_map (fun p => match p with Some p => [pe_package_hash p] | None => [] end) assurances.

Definition queued_package_hashes (queue : list (list AccumulationQueueWorkPackage)) : list bytes :=
  flat_map (map qi_hash) queue.

Definition pipeline_hashes (h : RecentHistoryState) (accumulation_history : list (list bytes))
    (accumulation_queue : list (list AccumulationQueueWorkPackage)) (assurances : AssurancesState) : list bytes :=
  recent_package_hashes h ++ concat accumulation_history ++ queued_package_hashes accumulation_queue ++ pending_package_hashes assurances.

Definition work_packages_exists_in_pipeline (work_package_hashes : list bytes) (h : RecentHistoryState)
    (accumulation_history : list (list bytes)) (accumulation_queue : list (list AccumulationQueueWorkPackage))
    (assurances : AssurancesState) : bool :=
  existsb (fun x => bool_decide (x ∈ pipeline_hashes h accumulation_history accumulation_queue assurances)) work_package_hashes.

(** The dictionary of the extrinsic's packages, updated with those of the recent blocks. *)
Definition update_dict {K V} `{Countable K} (items : list (K * V)) (d : gmap K V) : gmap K V :=
  fold_left (fun d kv => <[kv.1 := kv.2]> d) items d.

Definition segment_roots (gs : list Guarantee) (h : RecentHistoryState) : gmap bytes bytes :=
  fold_left (fun d b => update_dict (map (fun r => (rp_hash r, rp_exports_root r)) (rb_reported b)) d) (recent_blocks h)
    (update_dict (map (fun g => (g_package_hash g, g_exports_root g)) gs) ∅).

Definition are_guarentees_sorted (gs : list Guarantee) : bool := adjacent (fun a b => g_core_index a <=? g_core_index b) gs.
Definition has_duplicated_guarentees (gs : list Guarantee) : bool := has_duplicates (map g_core_index gs).
Definition are_guarantors_unqiue_and_sorted (signatures : list Credential) : bool :=
  adjacent (fun a b => cr_validator_index a <? cr_validator_index b) signatures.
Definition is_valid_guarantor_index (validator_index validator_count : Z) : bool :=
  (0 <=? validator_index) && (validator_index <? validator_count).

Section validation.
Context {codec : Codec} (blake2b_256_hash : bytes -> bytes) (ed_verify : bytes -> bytes -> bytes -> bool).
Context (encode_report : WorkReport -> bytes) (gp : GpConstants).

Definition valid_guarantee_signature (credential : Credential) (g : Guarantee) (validator_ed25519 : bytes) : bool :=
  ed_verify (cr_signature credential)
    (bytes_of_string "jam_guarantee" ++ blake2b_256_hash (encode_report (g_report g))) validator_ed25519.

Section context.
Context (gc : GuaranteesContext).

(** The applicable mapping, of the current rotation or of the one before. *)
Definition get_guarantor_assignments (g : Guarantee) : list GuarantorAssignment :=
  if gc_timeslot gc / ROTATION_PERIOD_CORE gp =? g_slot g / ROTATION_PERIOD_CORE gp
  then gc_guarantor_assignments gc else gc_prev_guarantor_assignments gc.

(** The first loop. *)
Definition check_report (roots : gmap bytes bytes) (w : WorkReport) : outcome state_exn unit :=
  _ ← check_work_result_count gp w;
  _ ← check_size_limit gp w;
  _ ← check_gas_requirements gp w (gc_services gc);
  _ ← check_refinement_load gp w;
  _ ← check_bundle_length gp w;
  if MAXIMUM_DEPENDENCIES_WORK_REPORT gp <? dependency_count w then Raise (GuaranteeE GuaranteeErrorCode.too_many_dependencies)
  else raise_if (negb (forallb (fun kv => bool_decide (roots !! kv.1 = Some kv.2)) (wr_segment_root_lookup w)))
         (GuaranteeE GuaranteeErrorCode.segment_root_lookup_invalid).

(** The second loop; the walk of the anchor always ends ([anchor_walk_total]). *)
Definition check_context (context : RefinementContext) : outcome state_exn unit :=
  if rc_lookup_anchor_slot context <? timeslot (gc_header gc) - MAXIMUM_AGE_LOOKUP_ANCHOR gp then
    Raise (GuaranteeE GuaranteeErrorCode.anchor_not_recent)
  else if negb (gc_skip_lookup_anchor_ancestry gc) &&
          negb (bool_decide (lookup_anchor_is_known context (gc_state_storage gc) (Some (gc_header gc)) (gc_header_lookup gc) = Some true)) then
    Raise (GuaranteeE GuaranteeErrorCode.lookup_anchor_not_recent)
  else
    match get_recent_block (gc_recent_history gc) (rc_anchor context) with
    | None => Raise (GuaranteeE GuaranteeErrorCode.anchor_not_recent)
    | Some recent_block =>
        if negb (rb_slot recent_block =? rc_anchor_slot context) then Raise (GuaranteeE GuaranteeErrorCode.bad_anchor_slot)
        else if negb (bool_decide (rb_state_root recent_block = rc_state_root context)) then
          Raise (GuaranteeE GuaranteeErrorCode.bad_state_root)
        else raise_if (negb (bool_decide (rb_beefy_root recent_block = rc_beefy_root context)))
               (GuaranteeE GuaranteeErrorCode.bad_beefy_mmr_root)
    end.

Definition check_credential (g : Guarantee) (assignments : list GuarantorAssignment) (credential : Credential) : outcome state_exn unit :=
  if negb (is_valid_guarantor_index (cr_validator_index credential) (Z.of_nat (length assignments))) then
    Raise (GuaranteeE GuaranteeErrorCode.bad_validator_index)
  else
    assignment ← get_item assignments (cr_validator_index credential);
    if negb (ga_core_index assignment =? g_core_index g) then Raise (GuaranteeE GuaranteeErrorCode.wrong_assignment)
    else if bool_decide (ga_validator_ed25519 assignment ∈ gc_offenders gc) then Raise (GuaranteeE GuaranteeErrorCode.banned_validator)
    else raise_if (negb (valid_guarantee_signature credential g (ga_validator_ed25519 assignment)))
           (GuaranteeE GuaranteeErrorCode.bad_signature).

(** The third loop. *)
Definition check_guarantee (extrinsic_work_package_hashes : list bytes) (g : Guarantee) : outcome state_exn unit :=
  if gc_timeslot gc <? g_slot g then Raise (GuaranteeE GuaranteeErrorCode.future_report_slot)
  else if g_slot g <? ROTATION_PERIOD_CORE gp * (gc_timeslot gc / ROTATION_PERIOD_CORE gp - 1) then
    Raise (GuaranteeE GuaranteeErrorCode.report_epoch_before_last)
  else
    let guarantor_assignments := get_guarantor_assignments g in
    let validator_count := Z.of_nat (length (gc_validators gc)) in
    if negb ((0 <=? g_core_index g) && (g_core_index g <? Z.of_nat (length (gc_assurances gc)))) then
      Raise (GuaranteeE GuaranteeErrorCode.bad_core_index)
    else if validator_count / 3 <=? g_core_index g then Raise (GuaranteeE GuaranteeErrorCode.bad_core_index)
    else if negb (ps_erasure_shards (wr_package_spec (g_report g)) =? validator_count) then
      Raise (GuaranteeE GuaranteeErrorCode.bad_erasure_shards)
    else if negb (are_guarantors_unqiue_and_sorted (g_signatures g)) then
      Raise (GuaranteeE GuaranteeErrorCode.not_sorted_or_unique_guarantors)
    else if (Z.of_nat (length (g_signatures g)) <? 2) || (3 <? Z.of_nat (length (g_signatures g))) then
      Raise (GuaranteeE GuaranteeErrorCode.insufficient_guarantees)
    else
      _ ← every (g_signatures g) (check_credential g guarantor_assignments);
      entry ← get_item (gc_assurances gc) (g_core_index g);
      if bool_decide (is_Some entry) then Raise (GuaranteeE GuaranteeErrorCode.core_engaged)
      else
        pool ← get_item (gc_authorizer_pools gc) (g_core_index g);
        if negb (bool_decide (g_authorizer_hash g ∈ pool)) then Raise (GuaranteeE GuaranteeErrorCode.core_unauthorized)
        else every (wr_prerequisites (g_report g)) (fun prerequisite =>
          raise_if (negb (bool_decide (prerequisite ∈ recent_package_hashes (gc_recent_history gc))) &&
                    negb (bool_decide (prerequisite ∈ extrinsic_work_package_hashes)))
            (GuaranteeE GuaranteeErrorCode.dependency_missing)).

Definition validate_guarantees (gs : list Guarantee) : outcome state_exn unit :=
  let work_reports := map g_report gs in
  let extrinsic_work_package_hashes := remove_dups (map wr_package_hash work_reports) in
  _ ← every work_reports (check_report (segment_roots gs (gc_recent_history gc)));
  if negb (are_guarentees_sorted gs) then Raise (GuaranteeE GuaranteeErrorCode.out_of_order_guarantee)
  else if has_duplicated_guarentees gs then Raise (GuaranteeE GuaranteeErrorCode.out_of_order_guarantee)
  else if negb (Nat.eqb (length extrinsic_work_package_hashes) (length work_reports)) then
    Raise (GuaranteeE GuaranteeErrorCode.duplicate_package)
  else if work_packages_exists_in_pipeline extrinsic_work_package_hashes (gc_recent_history gc) (gc_accumulation_history gc)
            (gc_accumulation_queue gc) (gc_assurances gc) then Raise (GuaranteeE GuaranteeErrorCode.duplicate_package)
  else
    _ ← every (map wr_context work_reports) check_context;
    _ ← every gs (check_guarantee extrinsic_work_package_hashes);
    every work_reports check_export_count.

(** ** The transition *)

Record AssurancesAfterGuaranteesOutput : Type := mkAfterGuarantees {
  ag_state : AssurancesState;
  ag_reported : list ReportedWorkPackage;
  ag_reporters : list bytes
}.

Fixpoint signer_keys (assignments : list GuarantorAssignment) (signatures : list Credential) : outcome state_exn (list bytes) :=
  match signatures with
  | [] => Ret []
  | signature :: signatures =>
      assignment ← get_item assignments (cr_validator_index signature);
      rest ← signer_keys assignments signatures;
      Ret (ga_validator_ed25519 assignment :: rest)
  end.

Fixpoint install (gs : list Guarantee) (post : AssurancesState) (reporters : list bytes)
    : outcome state_exn (AssurancesState * list bytes) :=
  match gs with
  | [] => Ret (post, reporters)
  | g :: gs =>
      post ← set_item post (g_core_index g) (Some (mkPending g (gc_timeslot gc)));
      keys ← signer_keys (get_guarantor_assignments g) (g_signatures g);
      install gs post (reporters ++ keys)
  end.

(** The packages of the extrinsic are sorted by their hash, the reporters' keys as a set. *)
Definition state_transition_after_guarantees (gs : list Guarantee) : outcome state_exn AssurancesAfterGuaranteesOutput :=
  out ← install gs (gc_assurances gc) [];
  Ret (mkAfterGuarantees (fst out)
    (sorted_by rp_hash (map (fun g => mkReported (g_package_hash g) (g_exports_root g)) gs))
    (sorted_set (snd out))).
End context.
End validation.

(** ** What a valid extrinsic promises *)

Section conditions.
Context {codec : Codec} (blake2b_256_hash : bytes -> bytes) (ed_verify : bytes -> bytes -> bytes -> bool).
Context (encode_report : WorkReport -> bytes) (gp : GpConstants) (gc : GuaranteesContext).
#[local] Abbreviation services := (gc_services gc).

(** A digest is of the service's code and buys it at least its minimal gas. *)
Definition digest_valid (r : WorkDigest) : Prop :=
  exists a, retrieve_service_account (wd_service_id r) true services = Ret a /\
    wd_code_hash r = code_hash a /\ gas_limit_accumulate a <= wd_accumulate_gas r.

(** The packages whose segment roots a report may name. *)
Definition named_packages (gs : list Guarantee) (h : RecentHistoryState) : list (bytes * bytes) :=
  map (fun g => (g_package_hash g, g_exports_root g)) gs ++
  flat_map (fun b => map (fun r => (rp_hash r, rp_exports_root r)) (rb_reported b)) (recent_blocks h).

Record report_valid (roots : gmap bytes bytes) (w : WorkReport) : Prop := mkReportValid {
  rv_count : 1 <= Z.of_nat (length (wr_results w)) <= MAXIMUM_WORK_ITEMS gp;
  rv_size : report_size w <= MAXIMUM_SIZE_ENCODED_WORK_REPORT gp;
  rv_auth_gas : wr_auth_gas_used w <= GAS_INVOKE gp;
  rv_digests : forall r, r ∈ wr_results w -> digest_valid r;
  rv_gas : sum_by wd_accumulate_gas (wr_results w) <= GAS_ACCUMULATION gp;
  rv_refine_gas : total_load rl_gas_used w <= GAS_REFINE gp;
  rv_imports : total_load rl_imports w <= MAXIMUM_NUMBER_IMPORTS_WORK_PACKAGE gp;
  rv_exports : total_load rl_exports w <= MAXIMUM_NUMBER_EXPORTS_WORK_PACKAGE gp;
  rv_extrinsics : total_load rl_extrinsic_count w <= MAXIMUM_NUMBER_EXTRINSICS_WORK_PACKAGE gp;
  rv_footprint : total_load rl_imports w * IMPORT_SEGMENT_FOOTPRINT gp + total_load rl_extrinsic_size w <= MAXIMUM_SIZE_WORK_PACKAGE gp;
  rv_length : ps_length (wr_package_spec w) <= MAXIMUM_SIZE_AUDITABLE_BUNDLE gp;
  rv_dependencies : dependency_count w <= MAXIMUM_DEPENDENCIES_WORK_REPORT gp;
  rv_roots : forall k v, (k, v) ∈ wr_segment_root_lookup w -> roots !! k = Some v
}.

(** The context is anchored in the recent history, and its lookup anchor is an ancestor. *)
Definition context_valid (c : RefinementContext) : Prop :=
  timeslot (gc_header gc) - MAXIMUM_AGE_LOOKUP_ANCHOR gp <= rc_lookup_anchor_slot c /\
  (gc_skip_lookup_anchor_ancestry gc = true \/
   lookup_anchor_is_known c (gc_state_storage gc) (Some (gc_header gc)) (gc_header_lookup gc) = Some true) /\
  exists b, get_recent_block (gc_recent_history gc) (rc_anchor c) = Some b /\
    rb_slot b = rc_anchor_slot c /\ rb_state_root b = rc_state_root c /\ rb_beefy_root b = rc_beefy_root c.

(** The validator is assigned to the core, not an offender, and signed the report. *)
Definition credential_valid (g : Guarantee) (c : Credential) : Prop :=
  0 <= cr_validator_index c /\
  exists a, get_guarantor_assignments gp gc g !! Z.to_nat (cr_validator_index c) = Some a /\
    ga_core_index a = g_core_index g /\ (ga_validator_ed25519 a ∉ gc_offenders gc) /\
    valid_guarantee_signature blake2b_256_hash ed_verify encode_report c g (ga_validator_ed25519 a) = true.

Record guarantee_valid (packages : list bytes) (g : Guarantee) : Prop := mkGuaranteeValid {
  gv_slot : ROTATION_PERIOD_CORE gp * (gc_timeslot gc / ROTATION_PERIOD_CORE gp - 1) <= g_slot g <= gc_timeslot gc;
  gv_core : 0 <= g_core_index g;
  gv_active : g_core_index g < Z.of_nat (length (gc_validators gc)) / 3;
  gv_shards : ps_erasure_shards (wr_package_spec (g_report g)) = Z.of_nat (length (gc_validators gc));
  gv_sorted : StronglySorted Z.lt (map cr_validator_index (g_signatures g));
  gv_signatures : 2 <= Z.of_nat (length (g_signatures g)) <= 3;
  gv_credentials : forall c, c ∈ g_signatures g -> credential_valid g c;
  gv_free : gc_assurances gc !! Z.to_nat (g_core_index g) = Some None;
  gv_authorized : exists pool, gc_authorizer_pools gc !! Z.to_nat (g_core_index g) = Some pool /\ g_authorizer_hash g ∈ pool;
  gv_prerequisites : forall p, p ∈ wr_prerequisites (g_report g) ->
    p ∈ recent_package_hashes (gc_recent_history gc) \/ p ∈ packages
}.

Record guarantees_valid (gs : list Guarantee) : Prop := mkGuaranteesValid {
  gsv_cores : StronglySorted Z.lt (map g_core_index gs);
  gsv_distinct : NoDup (map g_package_hash gs);
  gsv_new : forall g, g ∈ gs -> g_package_hash g ∉ pipeline_hashes (gc_recent_history gc) (gc_accumulation_history gc)
    (gc_accumulation_queue gc) (gc_assurances gc);
  gsv_reports : forall g, g ∈ gs -> report_valid (segment_roots gs (gc_recent_history gc)) (g_report g);
  gsv_contexts : forall g, g ∈ gs -> context_valid (wr_context (g_report g));
  gsv_guarantees : forall g, g ∈ gs -> guarantee_valid (map g_package_hash gs) g;
  gsv_exports : forall g, g ∈ gs -> ps_exports_count (wr_package_spec (g_report g)) = total_load rl_exports (g_report g)
}.
End conditions.

(** ** The assignments *)

Lemma enumerate_assignments_run validators assignments : forall i, 0 <= i -> i + Z.of_nat (length assignments) <= Z.of_nat (length validators) ->
  exists l, enumerate_assignments validators i assignments = Ret l /\ map ga_core_index l = assignments /\
    forall j a, l !! j = Some a -> exists v, validators !! (Z.to_nat i + j)%nat = Some v /\ ga_validator_ed25519 a = ed25519 v.
Proof.
  induction assignments as [|core assignments IH]; intros i Hi Hlen; simpl in *; [exists []; split_and!; naive_solver|].
  destruct (get_item_total validators i) as (v & -> & Hv); [lia|]. simpl.
  destruct (IH (i + 1)) as (l & -> & Hcores & Hl); [lia..|]. simpl. eexists. split; [reflexivity|]. simpl. split; [by f_equal|].
  intros [|j] a; simpl.
  - intros [= <-]. exists v. by rewrite Nat.add_0_r.
  - intros Ha%Hl. by replace (Z.to_nat i + S j)%nat with (Z.to_nat (i + 1) + j)%nat by lia.
Qed.

(** on [3 * k] validators each of the [k] cores is guaranteed by exactly three of them,
    whatever the entropy and the slot, and the assignment of a validator carries its own key. *)
Theorem guarantor_assignments_spec hash gp post_entropy slot pool k : (0 < k)%nat -> length pool = (3 * k)%nat -> (2 < length post_entropy)%nat ->
  exists l, guarantor_assignments hash gp post_entropy slot pool = Ret l /\ length l = length pool /\
    (forall c, 0 <= c < Z.of_nat k -> length (filter (fun a => ga_core_index a = c) l) = 3%nat) /\
    forall v a, l !! v = Some a -> exists d, pool !! v = Some d /\ ga_validator_ed25519 a = ed25519 d /\ 0 <= ga_core_index a < Z.of_nat k.
Proof.
  intros Hk Hpool He. unfold guarantor_assignments, assignments_of.
  destruct (get_item_total post_entropy 2) as (entropy & -> & _); [lia|]. simpl. rewrite Hpool, Nat2Z.inj_mul.
  destruct (guarantor_permute_run hash gp entropy slot k Hk) as (cores & Hrun & Hperm). change (Z.of_nat 3) with 3. rewrite Hrun. simpl.
  assert (length cores = (3 * k)%nat) as Hlen by (rewrite (Permutation_length Hperm), <- thirds, length_map, length_py_range; lia).
  destruct (enumerate_assignments_run pool cores 0) as (l & -> & Hcores & Hl); [lia..|].
  assert (forall c, length (filter (fun a => ga_core_index a = c) l) = length (filter (fun x => x = c) cores)) as Hcount.
  { intros c. rewrite <- Hcores. clear. induction l as [|a l IH]; [done|]. simpl. rewrite !filter_cons. by repeat case_decide; simpl; rewrite ?IH. }
  assert (forall c, length (filter (fun x => x = c) cores) = if decide (0 <= c < Z.of_nat k) then 3%nat else 0%nat) as Hthree
    by (intros c; rewrite Hperm; apply three_each_count).
  eexists. split; [reflexivity|]. split_and!.
  - rewrite <- Hcores, length_map in Hlen. lia.
  - intros c Hc. by rewrite Hcount, Hthree, decide_True.
  - intros v a Ha. destruct (Hl v a Ha) as (d & Hd & Hkey). exists d. split_and!; try done;
      destruct (decide (0 <= ga_core_index a < Z.of_nat k)) as [|Hn]; try lia; specialize (Hthree (ga_core_index a)); rewrite decide_False in Hthree by done;
      rewrite <- Hcount in Hthree; apply nil_length_inv in Hthree;
      assert (a ∈ filter (fun x => ga_core_index x = ga_core_index a) l) as Hin by (apply list_elem_of_filter; split; [done|by eapply list_elem_of_lookup_2]);
      rewrite Hthree in Hin; by apply not_elem_of_nil in Hin.
Qed.

(** ** The checks, one by one *)

Section check_lemmas.
Context {codec : Codec} (blake2b_256_hash : bytes -> bytes) (ed_verify : bytes -> bytes -> bytes -> bool).
Context (encode_report : WorkReport -> bytes) (gp : GpConstants) (gc : GuaranteesContext).

Lemma check_gas_results_ret services total results : (forall r, r ∈ results -> 0 <= wd_accumulate_gas r) -> total <= GAS_ACCUMULATION gp ->
  check_gas_results gp services total results = Ret tt <->
  (forall r, r ∈ results -> exists a, retrieve_service_account (wd_service_id r) true services = Ret a /\
    wd_code_hash r = code_hash a /\ gas_limit_accumulate a <= wd_accumulate_gas r) /\
  total + sum_by wd_accumulate_gas results <= GAS_ACCUMULATION gp.
Proof.
  intros Hpos. revert total. induction results as [|r results IH]; intros total Htotal; simpl.
  { split; [intros _; split; [set_solver|lia]|done]. }
  assert (0 <= sum_by wd_accumulate_gas results) as Hsum.
  { assert (forall r, r ∈ results -> 0 <= wd_accumulate_gas r) as Hpos' by set_solver. clear -Hpos'.
    induction results as [|r l IH]; simpl; [lia|]. specialize (IH ltac:(set_solver)). specialize (Hpos' r ltac:(set_solver)). lia. }
  setoid_rewrite elem_of_cons.
  destruct (retrieve_service_account (wd_service_id r) true services) as [a|e] eqn:Er.
  - simpl. rewrite !guard_ret, negb_false_iff, bool_decide_eq_true, !Z.ltb_ge. split.
    + intros (Hc & Hg & Hle & H). apply IH in H as [Hr Hs]; [|set_solver|done]. split; [|lia].
      intros r' [->|Hr']; [by exists a|by apply Hr].
    + intros [Hr Hs]. destruct (Hr r (or_introl eq_refl)) as (a' & Ha & Hc & Hg). rewrite Er in Ha. injection Ha as <-.
      split_and!; [done|lia|lia|]. apply IH; [set_solver|lia|]. split; [|lia]. intros r' Hr'. apply Hr. by right.
  - split; [destruct e; done|]. intros [Hr _]. destruct (Hr r (or_introl eq_refl)) as (a' & Ha & _). congruence.
Qed.

(** Whatever the check of the gas raises is an error of the extrinsic, or comes from the
    retrieval of an account. *)
Lemma check_gas_results_raise services total results e : check_gas_results gp services total results = Raise e ->
  (exists c, e = GuaranteeE c) \/ exists r, r ∈ results /\ retrieve_service_account (wd_service_id r) true services = Raise e /\ e <> StateKeyNoResult.
Proof.
  revert total. induction results as [|r results IH]; intros total; simpl; [done|].
  destruct (retrieve_service_account (wd_service_id r) true services) as [a|e'] eqn:Er.
  - simpl. intros [->|[->|[->|H]%guard_raise]%guard_raise]%guard_raise; [left; by eexists..|].
    destruct (IH _ H) as [?|(r' & Hr' & ?)]; [by left|right; exists r'; split; [by right|done]].
  - destruct (decide (e' = StateKeyNoResult)) as [->|Hne]; [intros [= <-]; left; by eexists|].
    intros H. assert (e = e') as -> by (destruct e'; congruence). right. exists r. split; [left|done].
Qed.

Lemma check_report_ret gs w : (forall r, r ∈ wr_results w -> 0 <= wd_accumulate_gas r) -> 0 <= GAS_ACCUMULATION gp ->
  check_report gp gc (segment_roots gs (gc_recent_history gc)) w = Ret tt <->
  report_valid gp gc (segment_roots gs (gc_recent_history gc)) w.
Proof.
  intros Hpos Hga. unfold check_report, check_work_result_count, check_size_limit, check_gas_requirements, check_refinement_load,
    check_bundle_length. rewrite !bind_ret_unit, !guard_ret, !raise_if_ret, check_gas_results_ret by done.
  unfold refinement_load_ok. rewrite !negb_false_iff, negb_true_iff, !orb_false_iff, andb_true_iff, !Z.ltb_ge, !Z.leb_le.
  rewrite forallb_forall. split.
  - intros (? & ? & (? & ? & ?) & ((((? & ?) & ?) & ?) & ?) & ? & ? & Hroots). split; try done; try lia.
    intros k v Hkv. apply list_elem_of_In, Hroots in Hkv. by apply bool_decide_eq_true in Hkv.
  - intros [? ? ? ? ? ? ? ? ? ? ? ? Hroots]. split_and!; try done; try lia.
    intros [k v] Hkv%list_elem_of_In. apply bool_decide_eq_true. by apply Hroots.
Qed.

Lemma check_context_ret c : check_context gp gc c = Ret tt <-> context_valid gp gc c.
Proof.
  unfold check_context, context_valid. rewrite !guard_ret, Z.ltb_ge, andb_false_iff, !negb_false_iff, bool_decide_eq_true.
  destruct (get_recent_block (gc_recent_history gc) (rc_anchor c)) as [b|]; [|naive_solver].
  rewrite !guard_ret, raise_if_ret, !negb_false_iff, !bool_decide_eq_true, Z.eqb_eq. naive_solver.
Qed.

Lemma check_credential_ret g c :
  check_credential blake2b_256_hash ed_verify encode_report gc g (get_guarantor_assignments gp gc g) c = Ret tt <->
  credential_valid blake2b_256_hash ed_verify encode_report gp gc g c.
Proof.
  unfold check_credential, credential_valid, is_valid_guarantor_index.
  rewrite guard_ret, negb_false_iff, andb_true_iff, Z.leb_le, Z.ltb_lt, bind_ret. split.
  - intros ([Hi _] & a & Ha & H). rewrite get_item_ret in Ha by done. split; [done|]. exists a. split; [done|].
    rewrite !guard_ret, raise_if_ret, !negb_false_iff, bool_decide_eq_false, Z.eqb_eq in H. naive_solver.
  - intros (Hi & a & Ha & Hc & Ho & Hs). split; [split; [done|]; apply lookup_lt_Some in Ha; lia|].
    exists a. rewrite get_item_ret by done. split; [done|].
    rewrite !guard_ret, raise_if_ret, !negb_false_iff, bool_decide_eq_false, Z.eqb_eq. naive_solver.
Qed.

Lemma are_guarantors_sorted_spec signatures : are_guarantors_unqiue_and_sorted signatures = true <->
  StronglySorted Z.lt (map cr_validator_index signatures).
Proof.
  unfold are_guarantors_unqiue_and_sorted. rewrite (adjacent_map cr_validator_index Z.ltb).
  apply (adjacent_sorted Z.lt), Z.ltb_lt.
Qed.

Lemma check_guarantee_ret packages g :
  check_guarantee blake2b_256_hash ed_verify encode_report gp gc packages g = Ret tt <->
  guarantee_valid blake2b_256_hash ed_verify encode_report gp gc packages g.
Proof.
  unfold check_guarantee. rewrite !guard_ret, !negb_false_iff, andb_true_iff, orb_false_iff, !Z.ltb_ge, Z.leb_le, Z.leb_gt, Z.ltb_lt, Z.eqb_eq.
  rewrite are_guarantors_sorted_spec, bind_ret_unit, every_ret. setoid_rewrite check_credential_ret. rewrite bind_ret. split.
  - intros (? & ? & [Hi ?] & ? & ? & ? & [? ?] & ? & entry & He & Hrest). rewrite get_item_ret in He by done.
    rewrite guard_ret, bool_decide_eq_false, bind_ret in Hrest. destruct Hrest as (Hn & pool & Hp & Hrest).
    rewrite get_item_ret in Hp by done. rewrite guard_ret, negb_false_iff, bool_decide_eq_true, every_ret in Hrest. destruct Hrest as [Ha Hpre].
    split; try done; try lia.
    + destruct entry; [by destruct Hn|done].
    + by exists pool.
    + intros p Hin. specialize (Hpre p Hin). rewrite raise_if_ret, andb_false_iff, !negb_false_iff, !bool_decide_eq_true in Hpre. done.
  - intros [? Hi ? ? ? ? ? Hfree (pool & Hp & Ha) Hpre]. pose proof (lookup_lt_Some _ _ _ Hfree). split_and!; try done; try lia.
    exists None. rewrite get_item_ret by done. split; [done|]. rewrite guard_ret, bool_decide_eq_false, bind_ret.
    split; [by intros [? ?]|]. exists pool. rewrite get_item_ret by done. split; [done|].
    rewrite guard_ret, negb_false_iff, bool_decide_eq_true, every_ret. split; [done|]. intros p Hin.
    rewrite raise_if_ret, andb_false_iff, !negb_false_iff, !bool_decide_eq_true. by apply Hpre.
Qed.

Lemma check_export_count_ret w : check_export_count w = Ret tt <-> ps_exports_count (wr_package_spec w) = total_load rl_exports w.
Proof. unfold check_export_count. by rewrite raise_if_ret, negb_false_iff, Z.eqb_eq. Qed.
End check_lemmas.

(** ** The whole validation *)

Section validation_lemmas.
Context {codec : Codec} (blake2b_256_hash : bytes -> bytes) (ed_verify : bytes -> bytes -> bytes -> bool).
Context (encode_report : WorkReport -> bytes) (gp : GpConstants) (gc : GuaranteesContext).
#[local] Abbreviation validate := (validate_guarantees blake2b_256_hash ed_verify encode_report gp gc).

(** The gas of a digest is an unsigned integer. *)
Definition gas_typed (gs : list Guarantee) : Prop :=
  0 <= GAS_ACCUMULATION gp /\ forall g r, g ∈ gs -> r ∈ wr_results (g_report g) -> 0 <= wd_accumulate_gas r.

Lemma every_map {E A B} (f : A -> B) (l : list A) (body : B -> outcome E unit) : every (map f l) body = every l (fun x => body (f x)).
Proof. induction l as [|x l IH]; simpl; [done|]. by destruct (body (f x)). Qed.

Lemma remove_dups_length {A} `{EqDecision A} (l : list A) : Nat.eqb (length (remove_dups l)) (length l) = true <-> NoDup l.
Proof. rewrite <- has_duplicates_false. unfold has_duplicates. by rewrite negb_false_iff, Nat.eqb_sym. Qed.

Lemma exists_in_pipeline_spec hashes h hist queue assurances : work_packages_exists_in_pipeline hashes h hist queue assurances = false <->
  forall x, x ∈ hashes -> x ∉ pipeline_hashes h hist queue assurances.
Proof.
  unfold work_packages_exists_in_pipeline. rewrite <- not_true_iff_false, existsb_exists. split.
  - intros H x Hx Hp. apply H. exists x. split; [by apply list_elem_of_In|by apply bool_decide_eq_true].
  - intros H (x & Hx%list_elem_of_In & Hp%bool_decide_eq_true). by apply (H x).
Qed.

Lemma guarantees_sorted_spec gs : are_guarentees_sorted gs = true /\ has_duplicated_guarentees gs = false <->
  StronglySorted Z.lt (map g_core_index gs).
Proof. unfold are_guarentees_sorted, has_duplicated_guarentees. rewrite has_duplicates_false. apply indices_check. Qed.

Lemma check_guarantee_packages packages packages' g : (forall p, p ∈ packages <-> p ∈ packages') ->
  guarantee_valid blake2b_256_hash ed_verify encode_report gp gc packages g ->
  guarantee_valid blake2b_256_hash ed_verify encode_report gp gc packages' g.
Proof. intros Hp []. split; try done. intros p Hin. rewrite <- Hp. auto. Qed.

Lemma validate_guarantees_run gs : gas_typed gs ->
  validate gs = Ret tt <-> guarantees_valid blake2b_256_hash ed_verify encode_report gp gc gs.
Proof.
  intros [Hga Hgas]. unfold validate_guarantees.
  rewrite bind_ret_unit, !guard_ret, !negb_false_iff, !bind_ret_unit, !every_map, !every_ret, length_map.
  change (map wr_package_hash (map g_report gs)) with (map (fun w => wr_package_hash w) (map g_report gs)). rewrite map_map.
  change (map (fun x => wr_package_hash (g_report x)) gs) with (map g_package_hash gs).
  replace (length gs) with (length (map g_package_hash gs)) by apply length_map. rewrite remove_dups_length.
  rewrite exists_in_pipeline_spec. setoid_rewrite elem_of_remove_dups.
  setoid_rewrite check_context_ret. setoid_rewrite check_export_count_ret.
  setoid_rewrite check_guarantee_ret. split.
  - intros (Hrep & Hs & Hd & Hnd & Hnew & Hctx & Hgs & Hexp). split; try done.
    + by apply guarantees_sorted_spec.
    + intros g Hg. apply Hnew, (list_elem_of_fmap_2 g_package_hash gs g Hg).
    + intros g Hg. by apply check_report_ret; [intros r; apply Hgas| |apply Hrep].
    + intros g Hg. eapply check_guarantee_packages; [|by apply Hgs]. intros p. by rewrite elem_of_remove_dups.
  - intros [Hc Hnd Hnew Hrep Hctx Hgs Hexp]. apply guarantees_sorted_spec in Hc as [Hs Hd]. split_and!; try done.
    + intros g Hg. apply check_report_ret; [intros r; by apply Hgas|done|by apply Hrep].
    + intros x (g & -> & Hg)%list_elem_of_fmap. by apply Hnew.
    + intros g Hg. eapply check_guarantee_packages; [|by apply Hgs]. intros p. by rewrite elem_of_remove_dups.
Qed.
End validation_lemmas.

(** *** What it raises *)

Section errors.
Context {codec : Codec} (blake2b_256_hash : bytes -> bytes) (ed_verify : bytes -> bytes -> bytes -> bool).
Context (encode_report : WorkReport -> bytes) (gp : GpConstants) (gc : GuaranteesContext).

Definition is_guarantee_error (e : state_exn) : Prop := exists c, e = GuaranteeE c.

(** Accounts are read or missing, identifiers are unsigned, and there is a pool for every core. *)
Record context_ok (gs : list Guarantee) : Prop := mkContextOk {
  co_services : forall id e, 0 <= id -> retrieve_service_account id true (gc_services gc) = Raise e -> e = StateKeyNoResult;
  co_ids : forall g r, g ∈ gs -> r ∈ wr_results (g_report g) -> 0 <= wd_service_id r;
  co_pools : length (gc_authorizer_pools gc) = length (gc_assurances gc)
}.

Lemma check_report_raise gs roots g e : context_ok gs -> g ∈ gs -> check_report gp gc roots (g_report g) = Raise e -> is_guarantee_error e.
Proof.
  intros Hok Hg. unfold check_report, check_work_result_count, check_size_limit, check_gas_requirements, check_refinement_load, check_bundle_length.
  unfold is_guarantee_error.
  intros [->%raise_if_raise|([] & _ & H)]%bind_raise; [by eexists|].
  apply bind_raise in H as [->%raise_if_raise|([] & _ & H)]; [by eexists|].
  apply bind_raise in H as [H|([] & _ & H)]; [|repeat apply bind_raise in H as [->%raise_if_raise|([] & _ & H)]; [by eexists..|];
    apply guard_raise in H as [->| ->%raise_if_raise]; by eexists].
  apply guard_raise in H as [->|H]; [by eexists|].
  apply check_gas_results_raise in H as [[c ->]|(r & Hr & H & Hne)]; [by eexists|].
  by apply (co_services _ Hok) in H; [|apply (co_ids _ Hok g)].
Qed.

Lemma check_context_raise c e : check_context gp gc c = Raise e -> is_guarantee_error e.
Proof.
  unfold check_context, is_guarantee_error. intros [->|[->|H]%guard_raise]%guard_raise; try by eexists.
  destruct (get_recent_block _ _) as [b|]; [|injection H as <-; by eexists].
  apply guard_raise in H as [->|[->| ->%raise_if_raise]%guard_raise]; by eexists.
Qed.

Lemma get_item_no_raise {A} (l : list A) i e : 0 <= i < Z.of_nat (length l) -> get_item l i <> Raise e.
Proof. intros Hi. destruct (get_item_total l i Hi) as (x & -> & _). done. Qed.

Lemma check_credential_raise g assignments c e :
  check_credential blake2b_256_hash ed_verify encode_report gc g assignments c = Raise e -> is_guarantee_error e.
Proof.
  unfold check_credential, is_guarantee_error. destruct (is_valid_guarantor_index _ _) eqn:Hi; simpl; [|intros [= <-]; by eexists].
  unfold is_valid_guarantor_index in Hi. apply andb_true_iff in Hi as [Hlo%Z.leb_le Hhi%Z.ltb_lt].
  rewrite bind_raise. intros [H|(a & _ & [->|[->| ->%raise_if_raise]%guard_raise]%guard_raise)]; try by eexists.
  by apply get_item_no_raise in H.
Qed.

Lemma check_guarantee_raise gs packages g e : context_ok gs ->
  check_guarantee blake2b_256_hash ed_verify encode_report gp gc packages g = Raise e -> is_guarantee_error e.
Proof.
  intros Hok. unfold check_guarantee. intros [->|[->|H]%guard_raise]%guard_raise; [by eexists..|].
  destruct (_ && _) eqn:Hi in H; simpl in H; [|injection H as <-; by eexists]. apply andb_true_iff in Hi as [Hlo%Z.leb_le Hhi%Z.ltb_lt].
  apply guard_raise in H as [->|[->|[->|[->|H]%guard_raise]%guard_raise]%guard_raise]; [by eexists..|].
  apply bind_raise in H as [(c & _ & H)%every_raise|([] & _ & H)]; [by apply check_credential_raise in H|].
  apply bind_raise in H as [H|(entry & _ & [->|H]%guard_raise)]; [by apply get_item_no_raise in H|by eexists|].
  apply bind_raise in H as [H|(pool & _ & [->|(p & _ & ->%raise_if_raise)%every_raise]%guard_raise)]; [|by eexists..].
  apply get_item_no_raise in H; [done|]. rewrite (co_pools _ Hok). lia.
Qed.

(** whatever the guarantees, a refused extrinsic is refused with one of the error codes of
    guarantees: no look-up leaves its list or dictionary, and no missing account escapes. *)
Theorem validate_guarantees_errors gs e : context_ok gs ->
  validate_guarantees blake2b_256_hash ed_verify encode_report gp gc gs = Raise e -> exists c, e = GuaranteeE c.
Proof.
  intros Hok. unfold validate_guarantees. intros [(w & Hw & H)%every_raise|([] & _ & H)]%bind_raise.
  { apply list_elem_of_fmap in Hw as (g & -> & Hg). by eapply check_report_raise. }
  apply guard_raise in H as [->|[->|[->|[->|H]%guard_raise]%guard_raise]%guard_raise]; [by eexists..|].
  apply bind_raise in H as [(c & _ & H)%every_raise|([] & _ & H)]; [by apply check_context_raise in H|].
  apply bind_raise in H as [(g & _ & H)%every_raise|([] & _ & (w & _ & H)%every_raise)].
  - by eapply check_guarantee_raise.
  - unfold check_export_count in H. apply raise_if_raise in H as ->. by eexists.
Qed.
End errors.

(** ** The walk to the lookup anchor *)

Section anchor.
Context (ancestors header_lookup : gmap bytes Ancestor) (context : RefinementContext).
#[local] Abbreviation walk := (anchor_walk ancestors header_lookup context).

(** A header the node knows, retained or stored. *)
Definition known_header (h : bytes) : option Ancestor :=
  match ancestors !! h with Some a => Some a | None => header_lookup !! h end.

(** The anchor is an ancestor with the declared slot, whose child commits to its state root;
    the list holds the hashes of the headers above it. *)
Inductive reaches_anchor : option bytes -> bytes -> list bytes -> Prop :=
| at_anchor a : rc_lookup_anchor context <> hash0 -> known_header (rc_lookup_anchor context) = Some a ->
    anc_hash a = rc_lookup_anchor context -> anc_timeslot a = rc_lookup_anchor_slot context ->
    reaches_anchor (Some (rc_lookup_anchor_state_root context)) (rc_lookup_anchor context) []
| above_anchor root h a l : h <> hash0 -> h <> rc_lookup_anchor context -> known_header h = Some a -> anc_hash a = h ->
    rc_lookup_anchor_slot context <= anc_timeslot a ->
    reaches_anchor (anc_parent_state_root a) (anc_parent a) l -> reaches_anchor root h (h :: l).

Lemma anchor_walk_step fuel visited root h : walk (S fuel) visited root h =
  if bool_decide (h = hash0) || bool_decide (h ∈ visited) then Some false
  else match known_header h with
       | None => Some false
       | Some a =>
           if negb (bool_decide (anc_hash a = h)) then Some false
           else if bool_decide (h = rc_lookup_anchor context) then
             Some ((anc_timeslot a =? rc_lookup_anchor_slot context) && bool_decide (root = Some (rc_lookup_anchor_state_root context)))
           else if anc_timeslot a <? rc_lookup_anchor_slot context then Some false
           else walk fuel (h :: visited) (anc_parent_state_root a) (anc_parent a)
       end.
Proof. reflexivity. Qed.

Lemma known_header_dom h a : known_header h = Some a -> h ∈ dom ancestors ∪ dom header_lookup.
Proof.
  unfold known_header. rewrite elem_of_union, !elem_of_dom. destruct (ancestors !! h); [by left; eexists|]. intros ->. right. by eexists.
Qed.

Lemma known_headers_le (l : list bytes) : NoDup l -> (forall h, h ∈ l -> h ∈ dom ancestors ∪ dom header_lookup) ->
  (length l <= size ancestors + size header_lookup)%nat.
Proof.
  intros Hnd Hl. rewrite <- (size_list_to_set (C := gset bytes)) by done.
  etrans; [apply subseteq_size; intros x Hx%elem_of_list_to_set; by apply Hl|].
  rewrite size_union_alt. pose proof (subseteq_size (dom header_lookup ∖ dom ancestors) (dom header_lookup) ltac:(set_solver)).
  rewrite <- !size_dom. lia.
Qed.

Lemma anchor_walk_some fuel : forall visited root h, NoDup visited -> (forall x, x ∈ visited -> x ∈ dom ancestors ∪ dom header_lookup) ->
  (anchor_fuel ancestors header_lookup <= fuel + length visited)%nat -> exists b, walk fuel visited root h = Some b.
Proof.
  induction fuel as [|fuel IH]; intros visited root h Hnd Hdom Hf.
  { pose proof (known_headers_le visited Hnd Hdom). unfold anchor_fuel in Hf. lia. }
  rewrite anchor_walk_step. destruct (bool_decide (h = hash0)); [by eexists|]. case_bool_decide as Hv; [by eexists|]. simpl.
  destruct (known_header h) as [a|] eqn:Ea; [|by eexists]. case_bool_decide; [|by eexists]. simpl.
  destruct (bool_decide _); [by eexists|]. destruct (_ <? _); [by eexists|]. apply IH.
  - by constructor.
  - intros x [->|Hx]%elem_of_cons; [by eapply known_header_dom|by apply Hdom].
  - simpl. lia.
Qed.

Lemma anchor_walk_sound fuel : forall visited root h, walk fuel visited root h = Some true -> exists l, reaches_anchor root h l.
Proof.
  induction fuel as [|fuel IH]; intros visited root h; [done|]. rewrite anchor_walk_step.
  case_bool_decide as H0; [done|]. case_bool_decide; [done|]. simpl. destruct (known_header h) as [a|] eqn:Ea; [|done].
  case_bool_decide as Hh; [|done]. simpl. case_bool_decide as Hanchor.
  - intros [= [Hs%Z.eqb_eq Hr%bool_decide_eq_true]%andb_true_iff]. exists []. rewrite Hr, Hanchor. rewrite Hanchor in *. by apply (at_anchor a).
  - destruct (Z.ltb_spec (anc_timeslot a) (rc_lookup_anchor_slot context)); [done|]. intros [l Hl]%IH.
    exists (h :: l). by eapply above_anchor.
Qed.

Lemma reaches_unique root h l : reaches_anchor root h l -> forall root' l', reaches_anchor root' h l' -> l = l'.
Proof.
  induction 1 as [a|root h a l H0 Hn Hk Hh Hs H IH]; intros root' l' H'; inversion H'; subst; try done.
  f_equal. match goal with H1 : known_header (anc_hash a) = Some ?b |- _ => rewrite Hk in H1; injection H1 as <- end. by eapply IH.
Qed.

Lemma reaches_suffix root h l x : reaches_anchor root h l -> x ∈ l -> exists l1 l2 root', l = l1 ++ x :: l2 /\ reaches_anchor root' x (x :: l2).
Proof.
  induction 1 as [a|root h a l H0 Hn Hk Hh Hs H IH]; [set_solver|]. intros [->|Hx]%elem_of_cons.
  - exists [], l, root. split; [done|]. by eapply above_anchor.
  - destruct (IH Hx) as (l1 & l2 & root' & -> & Hr). by exists (h :: l1), l2, root'.
Qed.

Lemma reaches_NoDup root h l : reaches_anchor root h l -> NoDup l.
Proof.
  induction 1 as [a|root h a l H0 Hn Hk Hh Hs H IH]; constructor; [|done]. intros Hx.
  destruct (reaches_suffix _ _ _ _ H Hx) as (l1 & l2 & root' & -> & Hr).
  assert (h :: l1 ++ h :: l2 = h :: l2) as Heq by (eapply reaches_unique; [|exact Hr]; by eapply (above_anchor root)).
  apply (f_equal length) in Heq. simpl in Heq. rewrite length_app in Heq. simpl in Heq. lia.
Qed.

Lemma reaches_dom root h l x : reaches_anchor root h l -> x ∈ l -> x ∈ dom ancestors ∪ dom header_lookup.
Proof. induction 1; [set_solver|]. intros [->|Hx]%elem_of_cons; [by eapply known_header_dom|auto]. Qed.

Lemma anchor_walk_complete root h l : reaches_anchor root h l -> forall fuel visited, (length l < fuel)%nat ->
  rc_lookup_anchor context ∉ visited -> (forall x, x ∈ l -> x ∉ visited) -> walk fuel visited root h = Some true.
Proof.
  induction 1 as [a H0 Hk Hh Hs|root h a l H0 Hn Hk Hh Hs H IH]; intros [|fuel] visited Hf Hv Hl; simpl in Hf; try lia; rewrite anchor_walk_step.
  - rewrite !bool_decide_false by done. simpl. rewrite Hk, !bool_decide_true by done. simpl. by rewrite Hs, Z.eqb_refl.
  - rewrite !bool_decide_false by (try done; apply Hl; left). simpl. rewrite Hk, bool_decide_true by done. simpl.
    destruct (Z.ltb_spec (anc_timeslot a) (rc_lookup_anchor_slot context)); [lia|].
    pose proof (reaches_NoDup root h (h :: l) ltac:(by eapply above_anchor)) as [Hh' _]%NoDup_cons.
    apply IH; [lia| |]; [intros [?|?]%elem_of_cons; congruence|].
    intros x Hx [->|Hx']%elem_of_cons; [done|]. by apply (Hl x); [right|].
Qed.
End anchor.

(** the check of a lookup anchor always ends, whatever headers are stored, cycles included,
    and answers yes exactly when the anchor is an ancestor of the block at the declared slot
    with a child that commits to the declared state root, every header on the way being known
    under its own hash and not older than the anchor. *)
Theorem lookup_anchor_known_spec context s header header_lookup :
  exists b, lookup_anchor_is_known context (Some s) (Some header) (Some header_lookup) = Some b /\
    (b = true <-> exists l, reaches_anchor (ancestors s) header_lookup context (Some (parent_state_root header)) (parent header) l).
Proof.
  unfold lookup_anchor_is_known.
  destruct (anchor_walk_some (ancestors s) header_lookup context (anchor_fuel (ancestors s) header_lookup) [] (Some (parent_state_root header))
    (parent header)) as [b Hb]; [apply NoDup_nil_2|set_solver|cbn [length]; lia|].
  exists b. split; [done|]. split.
  - intros ->. by eapply anchor_walk_sound.
  - intros [l Hl]. assert (Some b = Some true) as [= ->]; [|done]. rewrite <- Hb. apply (anchor_walk_complete _ _ _ _ _ l); try done; try set_solver.
    unfold anchor_fuel. pose proof (known_headers_le (ancestors s) header_lookup l (reaches_NoDup _ _ _ _ _ _ Hl)
      ltac:(intros x Hx; by eapply reaches_dom)). lia.
Qed.

(** ** The transition *)

Section transition_lemmas.
Context {codec : Codec} (blake2b_256_hash : bytes -> bytes) (ed_verify : bytes -> bytes -> bytes -> bool).
Context (encode_report : WorkReport -> bytes) (gp : GpConstants) (gc : GuaranteesContext).
#[local] Abbreviation assignments_for := (get_guarantor_assignments gp gc).
#[local] Abbreviation valid_credential := (credential_valid blake2b_256_hash ed_verify encode_report gp gc).

(** The entry a guarantee puts on its core. *)
Definition new_entry (g : Guarantee) : option AssuranceStateItem := Some (mkPending g (gc_timeslot gc)).

Definition put_guarantee (p : AssurancesState) (g : Guarantee) : AssurancesState := <[Z.to_nat (g_core_index g) := new_entry g]> p.

(** The key is that of a guarantor of [g]. *)
Definition guarantor_key (g : Guarantee) (k : bytes) : Prop :=
  exists c a, c ∈ g_signatures g /\ assignments_for g !! Z.to_nat (cr_validator_index c) = Some a /\ k = ga_validator_ed25519 a.

Lemma signer_keys_run g signatures : (forall c, c ∈ signatures -> valid_credential g c) ->
  exists keys, signer_keys (assignments_for g) signatures = Ret keys /\
    forall k, k ∈ keys <-> exists c a, c ∈ signatures /\ assignments_for g !! Z.to_nat (cr_validator_index c) = Some a /\ k = ga_validator_ed25519 a.
Proof.
  induction signatures as [|c signatures IH]; intros Hv; [exists []; split; [done|]; set_solver|].
  destruct IH as (keys & Hrun & Hkeys); [set_solver|]. destruct (Hv c) as (Hi & a & Ha & _); [left|].
  exists (ga_validator_ed25519 a :: keys). simpl. rewrite (proj2 (get_item_ret _ _ a Hi) Ha). simpl. rewrite Hrun. split; [done|].
  intros k. rewrite elem_of_cons, Hkeys. split.
  - intros [->|(c' & a' & Hc' & Ha' & ->)]; [exists c, a|exists c', a']; set_solver.
  - intros (c' & a' & [->|Hc']%elem_of_cons & Ha' & ->); [left; congruence|right; by exists c', a'].
Qed.

Lemma install_run gs : forall post reporters, (forall g, g ∈ gs -> 0 <= g_core_index g < Z.of_nat (length post)) ->
  (forall g c, g ∈ gs -> c ∈ g_signatures g -> valid_credential g c) ->
  exists keys, install gp gc gs post reporters =
    Ret (fold_left put_guarantee gs post, reporters ++ keys) /\
    forall k, k ∈ keys <-> exists g, g ∈ gs /\ guarantor_key g k.
Proof.
  induction gs as [|g gs IH]; intros post reporters Hcore Hv; [exists []; simpl; rewrite app_nil_r; set_solver|].
  destruct (signer_keys_run g (g_signatures g)) as (keys & Hkeys & Hspec); [intros c; apply Hv; left|].
  destruct (IH (put_guarantee post g) (reporters ++ keys)) as (keys' & Hrun & Hspec').
  { intros g' Hg'. unfold put_guarantee. rewrite length_insert. apply Hcore. by right. }
  { intros g' c Hg'. apply Hv. by right. }
  exists (keys ++ keys'). simpl. rewrite set_item_total by (apply Hcore; left). simpl. rewrite Hkeys. simpl.
  fold (new_entry g) (put_guarantee post g). rewrite Hrun, app_assoc. split; [done|]. intros k. rewrite elem_of_app, Hspec, Hspec'. split.
  - intros [H|(g' & Hg' & H)]; [exists g|exists g']; split; try done; [left|by right].
  - intros (g' & [->|Hg']%elem_of_cons & H); [by left|right; by exists g'].
Qed.

Lemma install_length gs post : length (fold_left put_guarantee gs post) = length post.
Proof. revert post. induction gs as [|g gs IH]; intros post; simpl; [done|]. rewrite IH. apply length_insert. Qed.

Lemma install_other gs post i : (forall g, g ∈ gs -> Z.to_nat (g_core_index g) <> i) ->
  fold_left put_guarantee gs post !! i = post !! i.
Proof.
  revert post. induction gs as [|g gs IH]; intros post H; simpl; [done|]. rewrite IH by set_solver. unfold put_guarantee. apply list_lookup_insert_ne, H. left.
Qed.

Lemma install_new gs post g : (forall g, g ∈ gs -> 0 <= g_core_index g < Z.of_nat (length post)) -> NoDup (map g_core_index gs) -> g ∈ gs ->
  fold_left put_guarantee gs post !! Z.to_nat (g_core_index g) = Some (new_entry g).
Proof.
  revert post. induction gs as [|g' gs IH]; intros post Hcore Hnd Hg; [by apply not_elem_of_nil in Hg|]. simpl in *.
  apply NoDup_cons in Hnd as [Hn Hnd]. apply elem_of_cons in Hg as [->|Hg].
  - rewrite install_other; [unfold put_guarantee; apply list_lookup_insert_eq; specialize (Hcore g' ltac:(left)); lia|].
    intros g Hg Heq. apply Hn. pose proof (Hcore g' ltac:(left)). pose proof (Hcore g ltac:(by right)).
    replace (g_core_index g') with (g_core_index g) by lia. by apply (list_elem_of_fmap_2 g_core_index).
  - apply IH; [|done..]. intros x Hx. unfold put_guarantee. rewrite length_insert. apply Hcore. by right.
Qed.

(** The entries after the transition, from the declarative conditions. *)
Lemma after_guarantees_run gs : guarantees_valid blake2b_256_hash ed_verify encode_report gp gc gs ->
  exists out, state_transition_after_guarantees gp gc gs = Ret out /\
    length (ag_state out) = length (gc_assurances gc) /\
    (forall g, g ∈ gs -> ag_state out !! Z.to_nat (g_core_index g) = Some (new_entry g)) /\
    (forall i, (forall g, g ∈ gs -> Z.to_nat (g_core_index g) <> i) -> ag_state out !! i = gc_assurances gc !! i) /\
    (forall k, k ∈ ag_reporters out <-> exists g, g ∈ gs /\ guarantor_key g k) /\
    NoDup (ag_reporters out) /\ ag_state out = fold_left put_guarantee gs (gc_assurances gc).
Proof.
  intros [Hs _ _ _ _ Hgs _].
  assert (forall g, g ∈ gs -> 0 <= g_core_index g < Z.of_nat (length (gc_assurances gc))) as Hcore.
  { intros g Hg. pose proof (gv_free _ _ _ _ _ _ _ (Hgs g Hg)) as Hf. pose proof (gv_core _ _ _ _ _ _ _ (Hgs g Hg)).
    apply lookup_lt_Some in Hf. lia. }
  destruct (install_run gs (gc_assurances gc) [] Hcore) as (keys & Hrun & Hkeys).
  { intros g c Hg. by apply (gv_credentials _ _ _ _ _ _ _ (Hgs g Hg)). }
  unfold state_transition_after_guarantees. rewrite Hrun. eexists. split; [reflexivity|]. simpl. split_and!.
  - apply install_length.
  - intros g Hg. by apply install_new; [|apply Z_lt_NoDup|].
  - intros i Hi. by apply install_other.
  - intros k. unfold sorted_set, sorted_bytes. by rewrite elem_of_sorted_by, elem_of_remove_dups, Hkeys.
  - unfold sorted_set, sorted_bytes. rewrite sorted_by_perm. apply NoDup_remove_dups.
  - done.
Qed.
End transition_lemmas.

Section properties.
Context {codec : Codec} (blake2b_256_hash : bytes -> bytes) (ed_verify : bytes -> bytes -> bytes -> bool).
Context (encode_report : WorkReport -> bytes) (gp : GpConstants) (gc : GuaranteesContext).
#[local] Abbreviation validate := (validate_guarantees blake2b_256_hash ed_verify encode_report gp gc).

(** C36: the validation accepts an extrinsic exactly when the protocol's conditions hold: cores
    ascending, packages distinct and not in the pipeline, and every report, context and
    guarantee valid. *)
Theorem validate_guarantees_spec gs : gas_typed gp gs ->
  validate gs = Ret tt <-> guarantees_valid blake2b_256_hash ed_verify encode_report gp gc gs.
Proof. apply validate_guarantees_run. Qed.

(** the transition on a validated extrinsic succeeds: each report goes to its core, which was
    free; every other core keeps its entry, so no pending report is lost; and the reporters
    are the distinct keys of the guarantors. *)
Theorem guarantees_installed gs : gas_typed gp gs -> validate gs = Ret tt ->
  exists out, state_transition_after_guarantees gp gc gs = Ret out /\
    length (ag_state out) = length (gc_assurances gc) /\
    (forall g, g ∈ gs -> gc_assurances gc !! Z.to_nat (g_core_index g) = Some None /\
       ag_state out !! Z.to_nat (g_core_index g) = Some (new_entry gc g)) /\
    (forall i, (forall g, g ∈ gs -> Z.to_nat (g_core_index g) <> i) -> ag_state out !! i = gc_assurances gc !! i) /\
    (forall k, k ∈ ag_reporters out <-> exists g, g ∈ gs /\ guarantor_key gp gc g k) /\ NoDup (ag_reporters out).
Proof.
  intros Hgas Hv%validate_guarantees_run; [|done].
  destruct (after_guarantees_run _ _ _ _ _ gs Hv) as (out & Hrun & Hlen & Hnew & Hother & Hkeys & Hnd & _). exists out. split_and!; try done; try apply Hkeys.
  intros g Hg. split; [|by apply Hnew]. apply (gv_free _ _ _ _ _ _ _ (gsv_guarantees _ _ _ _ _ _ Hv g Hg)).
Qed.

(** a report is put on a core only with the valid signatures of two or three distinct
    validators, none of them an offender, all assigned to that core in the rotation of the
    guarantee's slot or the one before. *)
Theorem pending_report_guaranteed gs out i p : gas_typed gp gs -> validate gs = Ret tt ->
  state_transition_after_guarantees gp gc gs = Ret out -> ag_state out !! i = Some (Some p) ->
  gc_assurances gc !! i = Some (Some p) \/
  (gc_assurances gc !! i = Some None /\ exists g vs, g ∈ gs /\ p = mkPending g (gc_timeslot gc) /\ Z.to_nat (g_core_index g) = i /\
    NoDup vs /\ (2 <= length vs <= 3)%nat /\
    forall v, v ∈ vs -> exists c a, c ∈ g_signatures g /\ cr_validator_index c = v /\
      get_guarantor_assignments gp gc g !! Z.to_nat v = Some a /\ ga_core_index a = Z.of_nat i /\
      (ga_validator_ed25519 a ∉ gc_offenders gc) /\
      valid_guarantee_signature blake2b_256_hash ed_verify encode_report c g (ga_validator_ed25519 a) = true).
Proof.
  intros Hgas Hv%validate_guarantees_run Hrun Hp; [|done].
  destruct (after_guarantees_run _ _ _ _ _ gs Hv) as (out' & Hrun' & _ & Hnew & Hother & _). rewrite Hrun in Hrun'. injection Hrun' as <-.
  destruct (decide (Exists (fun g => Z.to_nat (g_core_index g) = i) gs)) as [(g & Hg & Hi)%Exists_exists|Hn].
  - right. pose proof (gsv_guarantees _ _ _ _ _ _ Hv g Hg) as [_ Hcore _ _ Hsorted Hsig Hcred Hfree _ _].
    specialize (Hnew g Hg). rewrite Hi in Hnew, Hfree. rewrite Hp in Hnew. injection Hnew as ->. split; [done|].
    exists g, (map cr_validator_index (g_signatures g)). split_and!; try done; [by apply Z_lt_NoDup|rewrite length_map; lia..|].
    intros v (c & -> & Hc)%list_elem_of_fmap. destruct (Hcred c Hc) as (_ & a & Ha & Hca & Ho & Hs). exists c, a. split_and!; try done. lia.
  - left. rewrite <- Hp, Hother; [done|]. intros g Hg Hi. apply Hn, Exists_exists. by exists g.
Qed.
End properties.
