(* ===== verification/Pipeline.v ===== *)
(** * The pipeline of a work report

    A report is guaranteed, its data is assured, it waits for what it depends on and is
    accumulated.  This file composes the components that carry it in the order in which
    [state_transition] of [app.py] calls them: the assurances ([Assurances]), the guarantees
    ([Guarantees]), the choice of the reports with the queue and its history ([Queue]), and
    the recent history ([History]).

    The queue assumes that the reports that become available are new ([fresh_reports]).  Here
    this is shown of the whole composition: the validation of the guarantees, the time a
    report may stay pending and the length of the recent history give it. *)

From Stdlib Require Import ZArith Lia Bool List Sorted.
From stdpp Require Import base numbers option list sets gmap sorting.
From S2P Require Import Prelude ByteOrder Graypaper StateBase Reports Disputes Shuffle Safrole History Queue Assurances Storage Accounts Guarantees.
Import ListNotations.

#[local] Open Scope Z_scope.

(** ** Data *)

(** The components of the state that hold reports or their packages. *)
Record PipelineState : Type := mkPipeline {
  pl_assurances : AssurancesState;
  pl_queue : QueueState;
  pl_recent : RecentHistoryState;
  pl_timeslot : Z
}.

(** A block's extrinsics, and what the other components of the import hand over. *)
Record BlockInputs : Type := mkBlockInputs {
  bi_header : Header;
  bi_disputes : ExtrinsicDisputes;
  bi_assurances : list Assurance;
  bi_guarantees : list Guarantee;
  bi_pre_pool : list ValidatorData;
  bi_post_pool : list ValidatorData;
  bi_services : ServicesState;
  bi_authorizer_pools : list (list bytes);
  bi_offenders : list bytes;
  bi_assignments : list GuarantorAssignment;
  bi_prev_assignments : list GuarantorAssignment;
  bi_state_storage : option StateStorage;
  bi_header_lookup : option (gmap bytes Ancestor);
  bi_skip_ancestry : bool;
  bi_accumulated : Z;
  bi_beefy : beefy_argument
}.

Section pipeline.
Context {codec : Codec} (blake2b_256_hash keccak_256_hash : bytes -> bytes) (ed_verify : bytes -> bytes -> bytes -> bool).
Context (encode_report : WorkReport -> bytes) (encode_bitfield : list bool -> bytes) (gp : GpConstants).

Definition guarantees_context (b : BlockInputs) (s : PipelineState) (recent : RecentHistoryState) (assurances : AssurancesState)
    : GuaranteesContext :=
  mkGuaranteesContext (bi_services b) recent (bi_authorizer_pools b) assurances (bi_post_pool b) (bi_header b)
    (qs_history (pl_queue s)) (qs_queue (pl_queue s)) (timeslot_transition (bi_header b)) (bi_offenders b)
    (bi_assignments b) (bi_prev_assignments b) (bi_state_storage b) (bi_header_lookup b) (bi_skip_ancestry b).

(** The steps of the import that concern reports, in their order, with the reports chosen for
    accumulation. *)
Definition pipeline_block (b : BlockInputs) (s : PipelineState) : outcome state_exn (list WorkReport * PipelineState) :=
  let header := bi_header b in
  _ ← validate_after_disputes blake2b_256_hash ed_verify encode_bitfield (bi_assurances b) (bi_pre_pool b) header;
  let recent := state_transition_intermediate header (pl_recent s) in
  let after_disputes := state_transition_after_disputes blake2b_256_hash encode_report (bi_disputes b) (pl_assurances s) in
  after_assurances ← state_transition_after_assurances gp (bi_assurances b) after_disputes header
    (Some (bi_pre_pool b)) (Some (bi_post_pool b));
  let gc := guarantees_context b s recent (aa_state after_assurances) in
  _ ← validate_guarantees blake2b_256_hash ed_verify encode_report gp gc (bi_guarantees b);
  after_guarantees ← state_transition_after_guarantees gp gc (bi_guarantees b);
  out ← queue_block gp (aa_reported after_assurances) (bi_accumulated b) (pl_timeslot s) (timeslot_transition header) (pl_queue s);
  recent ← History.history_transition keccak_256_hash gp header (bi_guarantees b) recent (bi_beefy b);
  Ret (fst out, mkPipeline (ag_state after_guarantees) (snd out) recent (timeslot_transition header)).

(** ** The invariant *)

(** The types of the block's data, and a slot after the last one. *)
Record block_typed (b : BlockInputs) (s : PipelineState) : Prop := mkBlockTyped {
  bt_slot : pl_timeslot s < timeslot (bi_header b);
  bt_bits : forall a, a ∈ bi_assurances b -> Z.of_nat (length (as_bitfield a)) = CORE_COUNT gp;
  bt_gas : gas_typed gp (bi_guarantees b)
}.

(** A pending report's package is in a recent block, that of the slot it was registered in. *)
Definition reported_recently (h : RecentHistoryState) (p : AssuranceStateItem) : Prop :=
  exists b, b ∈ recent_blocks h /\ rb_slot b = pe_registered_slot p /\ pe_package_hash p ∈ map rp_hash (rb_reported b).

Record pipeline_ok (done : list bytes) (s : PipelineState) : Prop := mkPipelineOk {
  po_queue : queue_ok gp done (pl_queue s);
  po_cores : Z.of_nat (length (pl_assurances s)) = CORE_COUNT gp;
  po_distinct : NoDup (pending_package_hashes (pl_assurances s));
  po_new : forall h, h ∈ pending_package_hashes (pl_assurances s) -> (h ∉ queued_hashes (pl_queue s)) /\ (h ∉ recent_hashes (pl_queue s));
  po_recent : forall c p, pl_assurances s !! c = Some (Some p) -> reported_recently (pl_recent s) p;
  po_timely : forall c p, pl_assurances s !! c = Some (Some p) -> pl_timeslot s < pe_registered_slot p + UNAVAILABLE_WORK_REPLACEMENT_PERIOD gp;
  po_slots : StronglySorted Z.lt (map rb_slot (recent_blocks (pl_recent s)));
  po_last : forall b, b ∈ recent_blocks (pl_recent s) -> rb_slot b <= pl_timeslot s
}.

(** A report times out while the block that guaranteed it is still in the recent history. *)
Definition timeout_within_history : Prop := 0 < UNAVAILABLE_WORK_REPLACEMENT_PERIOD gp <= HISTORY gp.
End pipeline.

Lemma gp_const_timeout t : timeout_within_history (gp_const t).
Proof. by destruct t. Qed.

(** ** Entries and their packages *)

Definition entry_hashes (e : option AssuranceStateItem) : list bytes := match e with Some p => [pe_package_hash p] | None => [] end.

Lemma pending_cons e l : pending_package_hashes (e :: l) = entry_hashes e ++ pending_package_hashes l.
Proof. by destruct e. Qed.

Lemma pending_app l k : pending_package_hashes (l ++ k) = pending_package_hashes l ++ pending_package_hashes k.
Proof. induction l as [|e l IH]; [done|]. rewrite <- app_comm_cons, !pending_cons, IH. apply app_assoc. Qed.

Lemma elem_of_pending h l : h ∈ pending_package_hashes l <-> exists c p, l !! c = Some (Some p) /\ pe_package_hash p = h.
Proof.
  induction l as [|e l IH]; [split; [set_solver|by intros (c & p & ? & _)]|]. rewrite pending_cons, elem_of_app, IH. split.
  - intros [He|(c & p & Hc & Hp)]; [|by exists (S c), p]. destruct e as [p|]; simpl in He; [|set_solver].
    exists 0%nat, p. set_solver.
  - intros ([|c] & p & Hc & Hp); [left|right; by exists c, p]. injection Hc as ->. simpl. set_solver.
Qed.

Lemma pending_put l i q : l !! i = Some None -> pending_package_hashes (<[i := Some q]> l) ≡ₚ pe_package_hash q :: pending_package_hashes l.
Proof.
  intros Hi. rewrite <- (take_drop_middle l i None Hi) at 2. rewrite insert_take_drop by (by eapply lookup_lt_Some).
  rewrite !pending_app, !pending_cons. simpl. by rewrite Permutation_middle.
Qed.

Lemma pending_install gc gs : forall l, (forall g, g ∈ gs -> 0 <= g_core_index g /\ l !! Z.to_nat (g_core_index g) = Some None) ->
  NoDup (map g_core_index gs) ->
  pending_package_hashes (fold_left (put_guarantee gc) gs l) ≡ₚ map g_package_hash gs ++ pending_package_hashes l.
Proof.
  induction gs as [|g gs IH]; intros l Hfree Hnd; simpl; [done|]. apply NoDup_cons in Hnd as [Hn Hnd].
  destruct (Hfree g ltac:(left)) as [H0 Hg]. rewrite IH; [|intros g' Hg'|done].
  - unfold put_guarantee at 1, new_entry. rewrite pending_put by done. by rewrite <- Permutation_middle.
  - destruct (Hfree g' ltac:(by right)) as [H0' Hg'']. split; [done|]. unfold put_guarantee. rewrite list_lookup_insert_ne; [done|].
    intros Heq. apply Hn. replace (g_core_index g) with (g_core_index g') by lia. by apply (list_elem_of_fmap_2 g_core_index).
Qed.

(** The reports of the cores are kept, released or dropped, each once. *)
Lemma pending_split (f : nat -> option AssuranceStateItem -> option AssuranceStateItem) (g : nat -> option AssuranceStateItem -> list WorkReport) l :
  (forall c e, entry_hashes (f c e) ++ work_report_mapping (g c e) ⊆+ entry_hashes e) ->
  pending_package_hashes (imap f l) ++ work_report_mapping (concat (imap g l)) ⊆+ pending_package_hashes l.
Proof.
  revert f g. induction l as [|e l IH]; intros f g H; [done|]. simpl imap. rewrite !pending_cons. simpl concat. rewrite mapping_app.
  rewrite <- app_assoc, (Permutation_app_swap_app (pending_package_hashes _)), app_assoc. apply submseteq_app; [apply H|].
  apply IH. intros c e'. apply H.
Qed.

Lemma freed_and_available gp threshold resized slot n c e :
  entry_hashes (freed_entry gp threshold resized slot n c e) ++ work_report_mapping (available_entry threshold n c e) ⊆+ entry_hashes e.
Proof.
  destruct e as [p|]; simpl; [|done]. unfold is_freed. destruct (becomes_available threshold n (Z.of_nat c)); simpl; [done|].
  destruct (_ || _); simpl; [apply submseteq_nil_l|done].
Qed.

(** Verdicts only cancel reports. *)
Lemma after_disputes_lookup hash encode d pre c p : state_transition_after_disputes hash encode d pre !! c = Some (Some p) -> pre !! c = Some (Some p).
Proof.
  unfold state_transition_after_disputes. rewrite lookup_map. destruct (pre !! c) as [[q|]|]; simpl; [|done..].
  case_bool_decide; [done|]. congruence.
Qed.

Lemma after_disputes_pending hash encode d pre :
  pending_package_hashes (state_transition_after_disputes hash encode d pre) `sublist_of` pending_package_hashes pre.
Proof.
  induction pre as [|e pre IH]; [done|]. unfold state_transition_after_disputes in *. simpl map. rewrite !pending_cons.
  apply sublist_app; [|done]. destruct e as [p|]; [|done]. case_bool_decide; [apply sublist_nil_l|done].
Qed.

(** ** The recent history *)

Lemma set_last_slots root l : map rb_slot (set_last_state_root root l) = map rb_slot l.
Proof. induction l as [|b [|b' l] IH]; [done..|]. simpl in *. by rewrite IH. Qed.

Lemma set_last_reported root l : flat_map (fun b => map rp_hash (rb_reported b)) (set_last_state_root root l) = flat_map (fun b => map rp_hash (rb_reported b)) l.
Proof. induction l as [|b [|b' l] IH]; [done..|]. simpl in *. by rewrite IH. Qed.

Lemma set_last_elem root l b : b ∈ l -> exists b', b' ∈ set_last_state_root root l /\ rb_slot b' = rb_slot b /\ rb_reported b' = rb_reported b.
Proof.
  induction l as [|x [|y l] IH]; [set_solver| |].
  - intros ->%list_elem_of_singleton. exists (set_state_root root x). split; [left|done].
  - intros [->|Hb]%elem_of_cons; [exists x; split; [left|done]|]. destruct (IH Hb) as (b' & Hb' & ?). exists b'. split; [by right|done].
Qed.

(** The slots of [l] are distinct numbers up to [m]. *)
Lemma slots_gap x l m : StronglySorted Z.lt (x :: l) -> (forall y, y ∈ x :: l -> y <= m) -> x + Z.of_nat (length l) <= m.
Proof.
  revert x. induction l as [|y l IH]; intros x Hs Hm; simpl; [specialize (Hm x ltac:(left)); lia|].
  apply StronglySorted_cons in Hs as [Hx Hs]. apply Forall_cons in Hx as [Hx _].
  specialize (IH y Hs ltac:(intros z Hz; apply Hm; by right)). lia.
Qed.

Lemma StronglySorted_snoc {A} (R : relation A) l x : StronglySorted R l -> (forall y, y ∈ l -> R y x) -> StronglySorted R (l ++ [x]).
Proof.
  induction 1 as [|y l Hs IH Hy]; intros Hx; simpl; [repeat constructor|]. constructor; [apply IH; set_solver|].
  apply Forall_app. split; [done|]. constructor; [apply Hx; left|constructor].
Qed.

(** The history after a block: the old one with the new block, less the oldest when full. *)
Lemma history_transition_ret keccak gp header gs inter beefy post : History.history_transition keccak gp header gs inter beefy = Ret post ->
  exists b, rb_slot b = timeslot header /\ map rp_hash (rb_reported b) ≡ₚ map g_package_hash gs /\
    recent_blocks post = let blocks := recent_blocks inter ++ [b] in if HISTORY gp <? Z.of_nat (length blocks) then drop 1 blocks else blocks.
Proof.
  unfold History.history_transition. rewrite guard_ret. intros [_ (root & _ & H)%bind_ret].
  destruct (Mmr.insert _ _ _) as [peaks|]; [|done]. injection H as <-. eexists. split; [|split; [|reflexivity]]; [done|].
  simpl. rewrite sorted_by_perm, map_map. done.
Qed.

Section history_step.
Context (gp : GpConstants) (Htime : timeout_within_history gp).
Context (blocks : list RecentBlock) (b : RecentBlock) (slot : Z).
Context (Hsorted : StronglySorted Z.lt (map rb_slot blocks)) (Hlast : forall x, x ∈ blocks -> rb_slot x <= slot) (Hslot : slot < rb_slot b).
#[local] Abbreviation kept := (if HISTORY gp <? Z.of_nat (length (blocks ++ [b])) then drop 1 (blocks ++ [b]) else blocks ++ [b]).

Lemma extended_sorted : StronglySorted Z.lt (map rb_slot (blocks ++ [b])).
Proof.
  rewrite map_app. apply StronglySorted_snoc; [done|]. intros y (x & -> & Hx)%list_elem_of_fmap. specialize (Hlast x Hx). lia.
Qed.

Lemma kept_sorted : StronglySorted Z.lt (map rb_slot kept).
Proof.
  pose proof extended_sorted as Hs. destruct (_ <? _); [|done].
  destruct (blocks ++ [b]) as [|x l]; simpl in *; [done|]. apply StronglySorted_cons in Hs. tauto.
Qed.

Lemma kept_last x : x ∈ kept -> rb_slot x <= rb_slot b.
Proof.
  intros Hx. assert (x ∈ blocks ++ [b]) as [Hin| ->%list_elem_of_singleton]%elem_of_app; [|specialize (Hlast x Hin); lia|done].
  revert Hx. destruct (_ <? _); [|done]. destruct (blocks ++ [b]) as [|y l]; [done|]. simpl. intros ?. by right.
Qed.

Lemma kept_new : b ∈ kept.
Proof.
  destruct (Z.ltb_spec (HISTORY gp) (Z.of_nat (length (blocks ++ [b])))) as [Hl|]; [|set_solver].
  destruct blocks as [|x l]; simpl in *; [destruct Htime; lia|set_solver].
Qed.

Lemma kept_old x : x ∈ blocks -> rb_slot b < rb_slot x + UNAVAILABLE_WORK_REPLACEMENT_PERIOD gp -> x ∈ kept.
Proof.
  intros Hx Hin. destruct (Z.ltb_spec (HISTORY gp) (Z.of_nat (length (blocks ++ [b])))) as [Hl|]; [|set_solver].
  destruct blocks as [|y l]; simpl in *; [by apply not_elem_of_nil in Hx|]. apply elem_of_cons in Hx as [->|Hx]; [exfalso|set_solver].
  pose proof (slots_gap (rb_slot y) (map rb_slot l) slot Hsorted) as Hgap. rewrite length_map in Hgap. rewrite length_app in Hl. simpl in Hl.
  destruct Htime. enough (rb_slot y + Z.of_nat (length l) <= slot) by lia. apply Hgap.
  intros z [->|(x & -> & Hx)%list_elem_of_fmap]%elem_of_cons; apply Hlast; [left|by right].
Qed.
End history_step.

(** ** One block *)

Section block_step.
Context {codec : Codec} (blake2b_256_hash keccak_256_hash : bytes -> bytes) (ed_verify : bytes -> bytes -> bytes -> bool).
Context (encode_report : WorkReport -> bytes) (encode_bitfield : list bool -> bytes) (gp : GpConstants).
Context (Hgp : gp_ok gp) (Htime : timeout_within_history gp).
Context (done_hashes : list bytes) (b : BlockInputs) (s : PipelineState) (Hok : pipeline_ok gp done_hashes s) (Htyped : block_typed gp b s).
#[local] Abbreviation header := (bi_header b).
#[local] Abbreviation inter := (state_transition_intermediate header (pl_recent s)).
#[local] Abbreviation after_disputes := (state_transition_after_disputes blake2b_256_hash encode_report (bi_disputes b) (pl_assurances s)).
#[local] Abbreviation freed := (freed_state gp after_disputes (bi_assurances b) header (bi_pre_pool b) (bi_post_pool b)).
#[local] Abbreviation available := (available_reports after_disputes (bi_assurances b) (bi_pre_pool b)).

(** What is still pending and what became available was pending before, each once. *)
Lemma freed_available_pending : pending_package_hashes freed ++ work_report_mapping available ⊆+ pending_package_hashes (pl_assurances s).
Proof.
  etrans; [apply pending_split; intros; apply freed_and_available|]. apply sublist_submseteq, after_disputes_pending.
Qed.

Lemma freed_available_distinct : NoDup (pending_package_hashes freed ++ work_report_mapping available).
Proof.
  destruct (submseteq_Permutation _ _ freed_available_pending) as (k & Hk). pose proof (po_distinct _ _ _ Hok) as Hnd.
  rewrite Hk in Hnd. by apply NoDup_app in Hnd as (? & _).
Qed.

Lemma was_pending h : h ∈ pending_package_hashes freed \/ h ∈ work_report_mapping available -> h ∈ pending_package_hashes (pl_assurances s).
Proof. intros Hh. apply (elem_of_submseteq _ _ _ (proj2 (elem_of_app _ _ _) Hh)), freed_available_pending. Qed.

(** The queue's assumption, now shown. *)
Lemma available_fresh : fresh_reports available (pl_queue s).
Proof.
  split.
  - pose proof freed_available_distinct as Hnd. by apply NoDup_app in Hnd as (_ & _ & ?).
  - intros h Hh. apply (po_new _ _ _ Hok), was_pending. by right.
Qed.

Lemma pending_reported h : h ∈ pending_package_hashes (pl_assurances s) -> h ∈ recent_package_hashes inter.
Proof.
  intros (c & p & Hc & <-)%elem_of_pending. destruct (po_recent _ _ _ Hok c p Hc) as (x & Hx & _ & Hp).
  unfold recent_package_hashes. simpl. rewrite set_last_reported. apply list_elem_of_In, in_flat_map.
  exists x. split; by apply list_elem_of_In.
Qed.

Lemma freed_lookup c p : freed !! c = Some (Some p) -> pl_assurances s !! c = Some (Some p) /\
  timeslot header < pe_registered_slot p + UNAVAILABLE_WORK_REPLACEMENT_PERIOD gp.
Proof.
  intros [Hc Hf]%lookup_freed. split; [by eapply after_disputes_lookup|]. unfold is_freed in Hf.
  apply orb_false_iff in Hf as [_ [_ Hf]%orb_false_iff]. apply Z.leb_gt in Hf. exact Hf.
Qed.

(** The block's reports are new to every stage of the pipeline. *)
Lemma guaranteed_new gs gc : gc_assurances gc = freed -> gc_recent_history gc = inter -> gc_accumulation_history gc = qs_history (pl_queue s) ->
  gc_accumulation_queue gc = qs_queue (pl_queue s) ->
  guarantees_valid blake2b_256_hash ed_verify encode_report gp gc gs -> forall g, g ∈ gs ->
  (g_package_hash g ∉ pending_package_hashes freed) /\ (g_package_hash g ∉ work_report_mapping available) /\
  (g_package_hash g ∉ queued_hashes (pl_queue s)) /\ (g_package_hash g ∉ recent_hashes (pl_queue s)).
Proof.
  intros Ha Hr Hh Hq Hv g Hg. pose proof (gsv_new _ _ _ _ _ _ Hv g Hg) as Hn. unfold pipeline_hashes in Hn.
  rewrite Ha, Hr, Hh, Hq, !not_elem_of_app in Hn. destruct Hn as (Hn1 & Hn2 & Hn3 & Hn4). split_and!; [done| | |done].
  - intros Hin. apply Hn1, pending_reported, was_pending. by right.
  - intros Hin. apply Hn3. unfold queued_package_hashes, queued_hashes in *. rewrite flat_map_concat_map, <- concat_map. done.
Qed.

(** The parts of a block that is accepted. *)
Lemma pipeline_block_parts chosen s' :
  pipeline_block blake2b_256_hash keccak_256_hash ed_verify encode_report encode_bitfield gp b s = Ret (chosen, s') ->
  exists gc out q recent, gc = guarantees_context b s inter freed /\
    guarantees_valid blake2b_256_hash ed_verify encode_report gp gc (bi_guarantees b) /\
    state_transition_after_guarantees gp gc (bi_guarantees b) = Ret out /\
    queue_block gp available (bi_accumulated b) (pl_timeslot s) (timeslot header) (pl_queue s) = Ret (chosen, q) /\
    History.history_transition keccak_256_hash gp header (bi_guarantees b) inter (bi_beefy b) = Ret recent /\
    s' = mkPipeline (ag_state out) q recent (timeslot header).
Proof.
  unfold pipeline_block. intros (_ & _ & (out & Hout & H)%bind_ret)%bind_ret.
  pose proof (assurances_transition_run gp after_disputes (bi_assurances b) header (bi_pre_pool b) (bi_post_pool b)
    ltac:(unfold state_transition_after_disputes; rewrite length_map; apply Hok) (bt_bits _ _ _ Htyped)) as Hrun.
  rewrite Hout in Hrun. destruct Hrun as [_ ->]. simpl aa_state in H. simpl aa_reported in H.
  apply bind_ret in H as ([] & Hv & (ag & Hag & (q & Hq & (recent & Hrecent & H)%bind_ret)%bind_ret)%bind_ret).
  injection H as <- <-. destruct q as [chosen q].
  apply validate_guarantees_run in Hv; [|apply Htyped]. by eexists _, ag, q, recent.
Qed.

Lemma pipeline_ok_step chosen s' :
  pipeline_block blake2b_256_hash keccak_256_hash ed_verify encode_report encode_bitfield gp b s = Ret (chosen, s') ->
  pipeline_ok gp (done_hashes ++ work_report_mapping (take (Z.to_nat (bi_accumulated b)) chosen)) s'.
Proof.
  intros (gc & out & q & recent & Hgc & Hv & Hout & Hq & Hrecent & ->)%pipeline_block_parts.
  destruct (after_guarantees_run _ _ _ _ _ _ Hv) as (out' & Hrun & Hlen & Hnew & Hother & _ & _ & Hstate). rewrite Hout in Hrun. injection Hrun as <-.
  assert (gc_assurances gc = freed) as Hfreed by (by rewrite Hgc). assert (gc_timeslot gc = timeslot header) as Hslot by (by rewrite Hgc).
  pose proof (guaranteed_new (bi_guarantees b) gc Hfreed ltac:(by rewrite Hgc) ltac:(by rewrite Hgc) ltac:(by rewrite Hgc) Hv) as Hguaranteed.
  destruct (queue_block_run gp done_hashes (pl_queue s) available (bi_accumulated b) (pl_timeslot s) (timeslot header) Hgp (po_queue _ _ _ Hok) available_fresh)
    as (chosen' & q' & Hqrun & Hqok & _). rewrite Hq in Hqrun. injection Hqrun as <- <-.
  destruct (history_transition_ret _ _ _ _ _ _ _ Hrecent) as (nb & Hnb & Hreported & Hblocks). simpl in Hblocks.
  assert (pending_package_hashes (ag_state out) ≡ₚ map g_package_hash (bi_guarantees b) ++ pending_package_hashes freed) as Hpending.
  { rewrite Hstate, Hfreed. apply pending_install.
    - intros g Hg. pose proof (gsv_guarantees _ _ _ _ _ _ Hv g Hg) as Hgv. split; [apply Hgv|]. rewrite <- Hfreed. apply Hgv.
    - apply Z_lt_NoDup, Hv. }
  assert (forall c p, ag_state out !! c = Some (Some p) -> freed !! c = Some (Some p) \/
    exists g, g ∈ bi_guarantees b /\ p = mkPending g (timeslot header)) as Hentry.
  { intros c p Hp. destruct (decide (Exists (fun g => Z.to_nat (g_core_index g) = c) (bi_guarantees b))) as [(g & Hg & <-)%Exists_exists|Hn].
    - right. exists g. split; [done|]. rewrite Hnew in Hp by done. unfold new_entry in Hp. rewrite Hslot in Hp. congruence.
    - left. rewrite <- Hfreed, <- Hother; [done|]. intros g Hg Heq. apply Hn, Exists_exists. by exists g. }
  assert (StronglySorted Z.lt (map rb_slot (set_last_state_root (parent_state_root header) (recent_blocks (pl_recent s))))) as Hsorted
    by (rewrite set_last_slots; apply Hok).
  assert (forall x, x ∈ set_last_state_root (parent_state_root header) (recent_blocks (pl_recent s)) -> rb_slot x <= pl_timeslot s) as Hlast.
  { intros x Hx. assert (rb_slot x ∈ map rb_slot (recent_blocks (pl_recent s))) as (y & -> & Hy)%list_elem_of_fmap
      by (rewrite <- (set_last_slots (parent_state_root header)); by apply list_elem_of_fmap_2). by apply Hok. }
  pose proof (bt_slot _ _ _ Htyped) as Hlater. rewrite <- Hnb in Hlater.
  split; cbn [pl_assurances pl_queue pl_recent pl_timeslot].
  - done.
  - rewrite Hlen, Hfreed, length_freed_state. unfold state_transition_after_disputes. rewrite length_map. apply Hok.
  - rewrite Hpending. apply NoDup_app. split_and!; [apply Hv| |].
    + intros h (g & -> & Hg)%list_elem_of_fmap. by apply Hguaranteed.
    + pose proof freed_available_distinct as Hnd. by apply NoDup_app in Hnd as (? & _).
  - intros h Hh. rewrite Hpending in Hh.
    assert ((h ∉ queued_hashes (pl_queue s)) /\ (h ∉ recent_hashes (pl_queue s)) /\ (h ∉ work_report_mapping available)) as (Hn1 & Hn2 & Hn3).
    { apply elem_of_app in Hh as [(g & -> & Hg)%list_elem_of_fmap|Hh]; [naive_solver|].
      destruct (po_new _ _ _ Hok h) as [? ?]; [by apply was_pending; left|]. split_and!; [done..|].
      pose proof freed_available_distinct as Hnd. apply NoDup_app in Hnd as (_ & Hnd & _). by apply Hnd. }
    pose proof (queue_block_hashes _ _ _ _ _ _ _ _ _ h Hgp (po_queue _ _ _ Hok) available_fresh Hq) as Hfrom.
    split; intros Hin; destruct Hfrom as [?|[?|?]]; tauto.
  - intros c p Hp. unfold reported_recently. rewrite Hblocks. destruct (Hentry c p Hp) as [Hf|(g & Hg & ->)].
    + apply freed_lookup in Hf as [Hc Hin]. destruct (po_recent _ _ _ Hok c p Hc) as (x & Hx & Hxs & Hxp).
      destruct (set_last_elem (parent_state_root header) _ x Hx) as (x' & Hx' & Hs' & Hr'). exists x'. rewrite Hs', Hr'. split; [|done].
      eapply kept_old; [done..|]. rewrite Hnb, Hs', Hxs. done.
    + exists nb. split; [by eapply kept_new|]. split; [done|]. rewrite Hreported. by apply (list_elem_of_fmap_2 g_package_hash).
  - intros c p Hp. destruct (Hentry c p Hp) as [Hf|(g & Hg & ->)]; [by apply freed_lookup in Hf as [_ ?]|].
    simpl. destruct Htime. lia.
  - rewrite Hblocks. by eapply kept_sorted.
  - rewrite Hblocks. intros x Hx. rewrite <- Hnb. by eapply kept_last.
Qed.
End block_step.

(** ** The evidence for a report *)

Section evidence.
Context {codec : Codec} (blake2b_256_hash keccak_256_hash : bytes -> bytes) (ed_verify : bytes -> bytes -> bytes -> bool).
Context (encode_report : WorkReport -> bytes) (encode_bitfield : list bool -> bytes) (gp : GpConstants).

(** The block guarantees the report with two or three distinct validators assigned to its core,
    none an offender, whose signatures of it are valid. *)
Definition guaranteed_in (b : BlockInputs) (s : PipelineState) (w : WorkReport) : Prop :=
  exists g, g ∈ bi_guarantees b /\ g_report g = w /\ (2 <= length (g_signatures g) <= 3)%nat /\
    NoDup (map cr_validator_index (g_signatures g)) /\
    forall c, c ∈ g_signatures g ->
      credential_valid blake2b_256_hash ed_verify encode_report gp (guarantees_context b s (pl_recent s) (pl_assurances s)) g c.

(** The report is pending on a core, and more than two thirds of the validators, distinct
    ones, signed in the block that they hold its data. *)
Definition assured_in (b : BlockInputs) (s : PipelineState) (w : WorkReport) : Prop :=
  exists c p vs, pl_assurances s !! c = Some (Some p) /\ pe_report p = w /\ NoDup vs /\
    2 * Z.of_nat (length (bi_pre_pool b)) < 3 * Z.of_nat (length vs) /\
    forall v, v ∈ vs -> exists a, a ∈ bi_assurances b /\ as_validator_index a = v /\ Z.of_nat c ∈ cores_engaged a /\
      assurance_signed blake2b_256_hash ed_verify encode_bitfield (bi_header b) (bi_pre_pool b) a.

Definition genesis_pipeline (slot : Z) : PipelineState :=
  mkPipeline (replicate (Z.to_nat (CORE_COUNT gp)) None) (genesis gp) (mkRecentHistory [] []) slot.

(** Chains of accepted blocks with the states they start from, and the reports accumulated. *)
Inductive pipeline_run : list (BlockInputs * PipelineState) -> list WorkReport -> PipelineState -> Prop :=
| pr_genesis slot : pipeline_run [] [] (genesis_pipeline slot)
| pr_block blocks log s b chosen s' :
    pipeline_run blocks log s ->
    block_typed gp b s ->
    pipeline_block blake2b_256_hash keccak_256_hash ed_verify encode_report encode_bitfield gp b s = Ret (chosen, s') ->
    pipeline_run (blocks ++ [(b, s)]) (log ++ take (Z.to_nat (bi_accumulated b)) chosen) s'.

Definition was_guaranteed (blocks : list (BlockInputs * PipelineState)) (w : WorkReport) : Prop :=
  exists b s, (b, s) ∈ blocks /\ guaranteed_in b s w.
Definition was_assured (blocks : list (BlockInputs * PipelineState)) (w : WorkReport) : Prop :=
  exists b s, (b, s) ∈ blocks /\ assured_in b s w.

Lemma was_guaranteed_app blocks more w : was_guaranteed blocks w -> was_guaranteed (blocks ++ more) w.
Proof. intros (b & s & Hb & H). exists b, s. split; [|done]. apply elem_of_app. by left. Qed.
Lemma was_assured_app blocks more w : was_assured blocks w -> was_assured (blocks ++ more) w.
Proof. intros (b & s & Hb & H). exists b, s. split; [|done]. apply elem_of_app. by left. Qed.

(** Everything in the pipeline has its evidence. *)
Record evidence_ok (blocks : list (BlockInputs * PipelineState)) (log : list WorkReport) (s : PipelineState) : Prop := mkEvidenceOk {
  eo_pending : forall c p, pl_assurances s !! c = Some (Some p) -> was_guaranteed blocks (pe_report p);
  eo_queued : forall w, w ∈ map qi_report (concat (qs_queue (pl_queue s))) -> was_guaranteed blocks w /\ was_assured blocks w;
  eo_log : forall w, w ∈ log -> was_guaranteed blocks w /\ was_assured blocks w
}.

Lemma genesis_pipeline_ok slot : gp_ok gp -> pipeline_ok gp [] (genesis_pipeline slot).
Proof.
  intros Hgp. assert (forall c p, replicate (Z.to_nat (CORE_COUNT gp)) (None : option AssuranceStateItem) !! c <> Some (Some p)) as Hn.
  { intros c p [? _]%lookup_replicate. done. }
  assert (pending_package_hashes (replicate (Z.to_nat (CORE_COUNT gp)) None) = []) as Hp by (clear; induction (Z.to_nat _) as [|n IH]; [done|exact IH]).
  split; simpl.
  - by apply genesis_ok.
  - rewrite length_replicate. pose proof (gp_cores _ Hgp). lia.
  - rewrite Hp. constructor.
  - rewrite Hp. set_solver.
  - intros c p Hc. by apply Hn in Hc.
  - intros c p Hc. by apply Hn in Hc.
  - constructor.
  - set_solver.
Qed.

Lemma genesis_evidence slot : evidence_ok [] [] (genesis_pipeline slot).
Proof.
  split; simpl; [intros c p [? _]%lookup_replicate; done| |set_solver].
  intros w (i & _ & Hi)%list_elem_of_fmap. unfold genesis in Hi. simpl in Hi.
  apply elem_of_concat in Hi as (j & k & Hj & Hk). apply lookup_replicate in Hj as [-> _]. set_solver.
Qed.

Lemma evidence_step done_hashes blocks log b s chosen s' : gp_ok gp -> pipeline_ok gp done_hashes s -> block_typed gp b s ->
  pipeline_block blake2b_256_hash keccak_256_hash ed_verify encode_report encode_bitfield gp b s = Ret (chosen, s') ->
  evidence_ok blocks log s -> evidence_ok (blocks ++ [(b, s)]) (log ++ take (Z.to_nat (bi_accumulated b)) chosen) s'.
Proof.
  intros Hgp Hok Htyped Hrun [Hpending Hqueued Hlog].
  assert ((b, s) ∈ blocks ++ [(b, s)]) as Hin by set_solver.
  pose proof Hrun as Hsigned. unfold pipeline_block in Hsigned. apply bind_ret in Hsigned as ([] & [Hsorted Hsigned]%validate_after_disputes_run & _).
  eapply pipeline_block_parts in Hrun as (gc & out & q & recent & Hgc & Hv & Hout & Hq & _ & ->); [|done..].
  set (ad := state_transition_after_disputes _ _ _ _) in *.
  assert (forall w, w ∈ available_reports ad (bi_assurances b) (bi_pre_pool b) -> was_guaranteed (blocks ++ [(b, s)]) w /\ was_assured (blocks ++ [(b, s)]) w) as Havailable.
  { intros w (c & p & Hc & <- & Hn)%elem_of_available. apply after_disputes_lookup in Hc. split; [by apply was_guaranteed_app, (Hpending c)|].
    destruct (assurers_validators (bi_assurances b) (Z.of_nat c) Hsorted) as (vs & Hnd & Hlen & Hvs). exists b, s. split; [done|].
    exists c, p, vs. split_and!; try done; [by apply threshold_two_thirds; rewrite Hlen|].
    intros v Hv'. destruct (Hvs v Hv') as (a & Ha & Hi & Hcore). exists a. split_and!; try done. by apply Hsigned. }
  assert (forall w, w ∈ chosen \/ w ∈ map qi_report (concat (qs_queue q)) -> was_guaranteed (blocks ++ [(b, s)]) w /\ was_assured (blocks ++ [(b, s)]) w) as Hafter.
  { intros w Hw. eapply (queue_block_reports gp done_hashes) in Hw as [Hw|Hw]; [by apply Havailable| |done|apply Hok| |exact Hq].
    - destruct (Hqueued w Hw). split; [by apply was_guaranteed_app|by apply was_assured_app].
    - by eapply available_fresh. }
  destruct (after_guarantees_run _ _ _ _ _ _ Hv) as (out' & Hrun & Hlen & Hnew & Hother & _). rewrite Hout in Hrun. injection Hrun as <-.
  split; cbn [pl_assurances pl_queue].
  - intros c p Hp. destruct (decide (Exists (fun g => Z.to_nat (g_core_index g) = c) (bi_guarantees b))) as [(g & Hg & <-)%Exists_exists|Hn].
    + rewrite Hnew in Hp by done. injection Hp as <-. exists b, s. split; [done|]. exists g. pose proof (gsv_guarantees _ _ _ _ _ _ Hv g Hg) as Hgv.
      split_and!; try done; [pose proof (gv_signatures _ _ _ _ _ _ _ Hgv); lia..|by apply Z_lt_NoDup, Hgv|].
      rewrite Hgc in Hgv. apply Hgv.
    + rewrite Hother in Hp by (intros g Hg Heq; apply Hn, Exists_exists; by exists g). rewrite Hgc in Hp. simpl in Hp.
      apply freed_lookup in Hp as [Hp _]. by apply was_guaranteed_app, (Hpending c).
  - intros w Hw. apply Hafter. by right.
  - intros w [Hw|Hw]%elem_of_app; [destruct (Hlog w Hw); split; [by apply was_guaranteed_app|by apply was_assured_app]|].
    apply Hafter. left. apply list_elem_of_lookup in Hw as (k & Hk). apply lookup_take_Some in Hk as [Hk _]. by eapply list_elem_of_lookup_2.
Qed.

Lemma pipeline_run_ok blocks log s : gp_ok gp -> timeout_within_history gp -> pipeline_run blocks log s ->
  pipeline_ok gp (work_report_mapping log) s /\ evidence_ok blocks log s /\ in_order log.
Proof.
  intros Hgp Htime. induction 1 as [slot|blocks log s b chosen s' Hrun (Hok & Hev & Hlog) Htyped Hblock].
  { split_and!; [by apply genesis_pipeline_ok|apply genesis_evidence|]. intros l1 w l2 Heq. by destruct l1. }
  split_and!.
  - rewrite mapping_app. by eapply pipeline_ok_step.
  - by eapply evidence_step.
  - eapply pipeline_block_parts in Hblock as (gc & out & q & recent & _ & _ & _ & Hq & _ & _); [|done..].
    destruct (queue_block_run gp (work_report_mapping log) (pl_queue s) _ (bi_accumulated b) (pl_timeslot s) (timeslot (bi_header b)) Hgp
      (po_queue _ _ _ Hok) (available_fresh blake2b_256_hash encode_report gp _ b s Hok)) as (chosen' & q' & Hqrun & _ & _ & _ & Horder & _).
    rewrite Hq in Hqrun. injection Hqrun as <- <-. apply in_order_app; [done|]. intros l1 w l2 Heq d Hd.
    rewrite mapping_app. apply elem_of_app, (Horder l1 w (l2 ++ drop (Z.to_nat (bi_accumulated b)) chosen)); [|done].
    rewrite <- (take_drop (Z.to_nat (bi_accumulated b)) chosen) at 1. by rewrite Heq, <- app_assoc.
Qed.

(** C26: end to end: in every chain of accepted blocks from genesis, a report is accumulated only
    after an earlier block guaranteed it with the signatures of two or three distinct
    validators assigned to its core, after more than two thirds of the validators signed that
    they hold its data while it was pending, and after every package it depends on. *)
Theorem pipeline_end_to_end blocks log s : gp_ok gp -> timeout_within_history gp -> pipeline_run blocks log s ->
  in_order log /\ forall w, w ∈ log -> was_guaranteed blocks w /\ was_assured blocks w.
Proof. intros Hgp Htime Hrun. destruct (pipeline_run_ok _ _ _ Hgp Htime Hrun) as (_ & Hev & Hlog). split; [done|]. apply Hev. Qed.

(** an accepted block keeps the invariant of the whole pipeline: no package is twice pending,
    queued or in the accumulation history, or in two of them; every pending report can still
    be found in the recent history; and the reports chosen for accumulation are distinct and
    none was accumulated within the history. *)
Theorem pipeline_block_invariant done_hashes b s chosen s' : gp_ok gp -> timeout_within_history gp ->
  pipeline_ok gp done_hashes s -> block_typed gp b s ->
  pipeline_block blake2b_256_hash keccak_256_hash ed_verify encode_report encode_bitfield gp b s = Ret (chosen, s') ->
  pipeline_ok gp (done_hashes ++ work_report_mapping (take (Z.to_nat (bi_accumulated b)) chosen)) s' /\
  NoDup (work_report_mapping chosen) /\ forall h, h ∈ work_report_mapping chosen -> h ∉ recent_hashes (pl_queue s).
Proof.
  intros Hgp Htime Hok Htyped Hblock. split; [by eapply pipeline_ok_step|].
  eapply pipeline_block_parts in Hblock as (gc & out & q & recent & _ & _ & _ & Hq & _ & _); [|done..].
  destruct (queue_block_run gp done_hashes (pl_queue s) _ (bi_accumulated b) (pl_timeslot s) (timeslot (bi_header b)) Hgp
    (po_queue _ _ _ Hok) (available_fresh blake2b_256_hash encode_report gp _ b s Hok)) as (chosen' & q' & Hqrun & _ & Hnd & Hnew & _).
  rewrite Hq in Hqrun. injection Hqrun as <- <-. by split.
Qed.
End evidence.
