(* ===== verification/AccumContext.v ===== *)
(** * Accumulation: the context of an invocation and how calls may change it

    [AccumulationStateComponents], [PrivilegedServicesState] ([models/state.py]),
    [DeferredTransfer] ([models/common.py]), [AccumulateContextItem] and
    [AccumulateInvocationContext] ([hostcalls/models.py]), and what accumulation promises: the
    relation [item_step], one constructor per effect a host call may have, with its conditions.
    [AccumCalls] shows that the calls do nothing else; the invariants are proved here, on the
    relation.

    The hash and the codec of [VarInt64] are arguments.  Python bounds the depth of recursion:
    [check_service_id] has the depth left as an argument. *)

From Stdlib Require Import ZArith Lia Bool List.
From stdpp Require Import base numbers option list sets gmap relations.
From S2P Require Import Prelude Graypaper StateBase Sums Storage StateKeys Accounts Pending.
Import ListNotations.

#[local] Open Scope Z_scope.

(** [MINIMUM_PUBLIC_SERVICE_ID], and the number of identifiers [new] draws from. *)
Definition MINIMUM_PUBLIC_SERVICE_ID : Z := 2 ^ 16.
Definition PUBLIC_SERVICE_IDS : Z := 2 ^ 32 - MINIMUM_PUBLIC_SERVICE_ID - 2 ^ 8.

(** ** State *)

Record PrivilegedServicesState : Type := mkPrivileged {
  manager : Z;
  assigners : list Z;
  delegator : Z;
  registrar : Z;
  always_accumulators : gmap Z Z
}.

Record DeferredTransfer : Type := mkTransfer {
  tr_sender : Z;
  tr_receiver : Z;
  tr_amount : Z;
  tr_memo : bytes;
  tr_gas_limit : Z
}.

Record AccumulationStateComponents : Type := mkComponents {
  services : ServicesState;
  validator_queue : list ValidatorData;
  authorizer_queues : list (list bytes);
  privileged_services : PrivilegedServicesState
}.

Record AccumulateContextItem : Type := mkItem {
  service_account_id : Z;
  state_context : AccumulationStateComponents;
  new_service_account_id : Z;
  deferred_transfers : list DeferredTransfer;
  invocation_output : option bytes;
  preimages : list (Z * bytes)
}.

Record AccumulateInvocationContext : Type := mkAccumulateContext {
  context : AccumulateContextItem;
  savepoint_context : AccumulateContextItem;
  timeslot : Z
}.

(** The next candidate of [check_service_id]. *)
Definition next_service_id (service_id : Z) : Z :=
  (service_id - MINIMUM_PUBLIC_SERVICE_ID + 1) mod (2 ^ 32 - 2 ^ 8 - MINIMUM_PUBLIC_SERVICE_ID) + MINIMUM_PUBLIC_SERVICE_ID.

(** The candidate after [new] has used an identifier. *)
Definition updated_service_id (new_service_id : Z) : Z :=
  MINIMUM_PUBLIC_SERVICE_ID + (new_service_id - MINIMUM_PUBLIC_SERVICE_ID + 42) mod (2 ^ 32 - MINIMUM_PUBLIC_SERVICE_ID - 2 ^ 8).

(** The gas a transfer costs its sender: that of the call and what it forwards. *)
Definition transfer_cost (t : DeferredTransfer) : Z := 575 + tr_gas_limit t.

Section creation.
Context {codec : Codec} (blake2b_256_hash : bytes -> bytes) (VarInt64_encode : Z -> bytes).

(** [depth] frames are left on Python's stack. *)
Fixpoint check_service_id (depth : nat) (service_id : Z) (st : ServicesState) : outcome state_exn Z :=
  match depth with
  | O => Raise RecursionDepth
  | S depth =>
      match retrieve_service_account service_id true st with
      | Ret _ => check_service_id depth (next_service_id service_id) st
      | Raise StateKeyNoResult => Ret service_id
      | Raise e => Raise e
      end
  end.

Definition create_from_accumulation_state (depth : nat) (accumulation_state : AccumulationStateComponents) (id : Z) (entropy : bytes)
    (slot : Z) : outcome state_exn AccumulateInvocationContext :=
  let check_payload := le_int (take 4 (blake2b_256_hash (VarInt64_encode id ++ entropy ++ VarInt64_encode slot))) in
  new_id ← check_service_id depth (check_payload mod (2 ^ 32 - MINIMUM_PUBLIC_SERVICE_ID - 2 ^ 8) + MINIMUM_PUBLIC_SERVICE_ID)
             (services accumulation_state);
  let item := mkItem id accumulation_state new_id [] None [] in
  Ret (mkAccumulateContext item item slot).
End creation.

(** ** Updates *)

Definition set_state (e : AccumulationStateComponents) (x : AccumulateContextItem) : AccumulateContextItem :=
  mkItem (service_account_id x) e (new_service_account_id x) (deferred_transfers x) (invocation_output x) (preimages x).
Definition set_services (st : ServicesState) (x : AccumulateContextItem) : AccumulateContextItem :=
  let e := state_context x in set_state (mkComponents st (validator_queue e) (authorizer_queues e) (privileged_services e)) x.
Definition set_validator_queue (vs : list ValidatorData) (x : AccumulateContextItem) : AccumulateContextItem :=
  let e := state_context x in set_state (mkComponents (services e) vs (authorizer_queues e) (privileged_services e)) x.
Definition set_authorizer_queues (qs : list (list bytes)) (x : AccumulateContextItem) : AccumulateContextItem :=
  let e := state_context x in set_state (mkComponents (services e) (validator_queue e) qs (privileged_services e)) x.
Definition set_privileged (p : PrivilegedServicesState) (x : AccumulateContextItem) : AccumulateContextItem :=
  let e := state_context x in set_state (mkComponents (services e) (validator_queue e) (authorizer_queues e) p) x.
Definition set_assigners (l : list Z) (p : PrivilegedServicesState) : PrivilegedServicesState :=
  mkPrivileged (manager p) l (delegator p) (registrar p) (always_accumulators p).
Definition set_new_id (n : Z) (x : AccumulateContextItem) : AccumulateContextItem :=
  mkItem (service_account_id x) (state_context x) n (deferred_transfers x) (invocation_output x) (preimages x).
Definition add_transfer (t : DeferredTransfer) (x : AccumulateContextItem) : AccumulateContextItem :=
  mkItem (service_account_id x) (state_context x) (new_service_account_id x) (deferred_transfers x ++ [t]) (invocation_output x) (preimages x).
Definition set_output (o : bytes) (x : AccumulateContextItem) : AccumulateContextItem :=
  mkItem (service_account_id x) (state_context x) (new_service_account_id x) (deferred_transfers x) (Some o) (preimages x).
Definition add_preimage (id : Z) (blob : bytes) (x : AccumulateContextItem) : AccumulateContextItem :=
  mkItem (service_account_id x) (state_context x) (new_service_account_id x) (deferred_transfers x) (invocation_output x)
    (preimages x ++ [(id, blob)]).

Definition set_balance (b : Z) (a : ServiceAccount) : ServiceAccount :=
  mkServiceAccount (code_hash a) b (gas_limit_accumulate a) (gas_limit_on_transfer a) (footprint_storage_bytes a) (deposit_offset a)
    (footprint_storage_items a) (creation_slot a) (last_accumulation_slot a) (parent_service a).
Definition set_code (h : bytes) (g m : Z) (a : ServiceAccount) : ServiceAccount :=
  mkServiceAccount h (balance a) g m (footprint_storage_bytes a) (deposit_offset a) (footprint_storage_items a) (creation_slot a)
    (last_accumulation_slot a) (parent_service a).

(** The account [new] makes. *)
Definition new_account (gp : GpConstants) (h : bytes) (l g m f slot parent : Z) : ServiceAccount :=
  let a := update_footprint_add_preimage l (mkServiceAccount h 0 g m 0 f 0 slot 0 parent) in
  set_balance (threshold_balance gp a) a.

(** ** What a host call may do *)

(** The gas the transfers of the context, or of its savepoint, have cost. *)
Definition sent_gas (x : AccumulateContextItem) : Z := sum_of transfer_cost (deferred_transfers x).
Definition sent (c : AccumulateInvocationContext) : Z := Z.max (sent_gas (context c)) (sent_gas (savepoint_context c)).

Section steps.
Context {tolerance : Tolerance} {codec : Codec} (H : bytes -> bytes) (gp : GpConstants) (compat : bool) (t : Z).
Implicit Types (x : AccumulateContextItem) (st : ServicesState) (a : ServiceAccount).

Abbreviation account st id := (retrieve_service_account id true st).
Abbreviation availability st id h l := (retrieve_preimage_availability H id h l st).
Abbreviation item st id k := (retrieve_storage_item H id k st).
Abbreviation svc x := (services (state_context x)).
Abbreviation priv x := (privileged_services (state_context x)).

(** The account can pay for what it stores. *)
Definition affords a : Prop := threshold_balance gp a <= balance a.

(** The first identifier a new account may get, and the one after it. *)
Definition fresh_id st (n : Z) : Prop := MINIMUM_PUBLIC_SERVICE_ID <= n < MINIMUM_PUBLIC_SERVICE_ID + PUBLIC_SERVICE_IDS /\ account st n = Raise StateKeyNoResult.

(** The footprint after a storage item is written or removed; an empty item counts as absent
    when it is written. *)
Definition item_footprint (k : bytes) (old new : option bytes) a : ServiceAccount :=
  let len (b : bytes) := Z.of_nat (length b) in
  match new, old with
  | None, None => a
  | None, Some o => update_footprint_remove_storage_item (len k) (len o) a
  | Some n, Some ((_ :: _) as o) => update_footprint_update_storage_item (len o) (len n) a
  | Some n, _ => update_footprint_add_storage_item (len k) (len n) a
  end.

Definition found {A} (r : outcome state_exn A) : option A := match r with Ret v => Some v | Raise _ => None end.

(** A preimage that was declared unavailable long enough ago may be dropped. *)
Definition expunged (slot : Z) : Prop := slot < t - PREIMAGE_EXPUNGE_TIMESLOTS gp.

(** [compat] is the setting that lets every service bless. *)
Inductive item_step x : AccumulateContextItem -> Prop :=
| step_bless m l v r z :
    compat = true \/ service_account_id x = manager (priv x) ->
    u32 m -> u32 v -> u32 r -> Z.of_nat (length l) = CORE_COUNT gp ->
    item_step x (set_privileged (mkPrivileged m l v r z) x)
| step_assign core queue assigner :
    0 <= core < CORE_COUNT gp -> assigners (priv x) !! Z.to_nat core = Some (service_account_id x) ->
    Z.of_nat (length queue) = MAXIMUM_AUTHORIZATION_QUEUE_ITEMS gp -> Forall hash_ok queue -> u32 assigner ->
    item_step x (set_privileged (set_assigners (<[Z.to_nat core := assigner]> (assigners (priv x))) (priv x))
      (set_authorizer_queues (<[Z.to_nat core := queue]> (authorizer_queues (state_context x))) x))
| step_designate vs :
    service_account_id x = delegator (priv x) -> valid_validator_count (Z.of_nat (length vs)) (CORE_COUNT gp) = true ->
    item_step x (set_validator_queue vs x)
| step_new id a h l g m f next :
    account (svc x) (service_account_id x) = Ret a -> hash_ok h -> 0 < l < 2 ^ 32 ->
    f = 0 \/ service_account_id x = manager (priv x) ->
    let n := new_account gp h l g m f t (service_account_id x) in
    threshold_balance gp a <= balance a - threshold_balance gp n ->
    (id = new_service_account_id x /\ fresh_id (svc x) next /\ next <> id) \/
    (0 <= id < MINIMUM_PUBLIC_SERVICE_ID /\ service_account_id x = registrar (priv x) /\
     account (svc x) id = Raise StateKeyNoResult /\ next = new_service_account_id x) ->
    item_step x (set_services (put_availability id h l (Some []) (put_account id (Some n)
      (put_account (service_account_id x) (Some (set_balance (balance a - threshold_balance gp n) a)) (svc x))))
      (set_new_id next x))
| step_upgrade a h g m :
    account (svc x) (service_account_id x) = Ret a -> hash_ok h ->
    item_step x (set_services (put_account (service_account_id x) (Some (set_code h g m a)) (svc x)) x)
| step_transfer a d memo dest limit amount :
    account (svc x) (service_account_id x) = Ret a -> 0 <= dest -> account (svc x) dest = Ret d -> 0 <= amount ->
    Z.of_nat (length memo) = SIZE_TRANSFER_MEMO gp -> Z.max 0 (gas_limit_on_transfer d) <= limit ->
    threshold_balance gp a <= balance a - amount ->
    item_step x (set_services (put_account (service_account_id x) (Some (set_balance (balance a - amount) a)) (svc x))
      (add_transfer (mkTransfer (service_account_id x) dest amount memo limit) x))
| step_eject a d ejected h slot removed :
    account (svc x) (service_account_id x) = Ret a -> 0 <= ejected -> ejected <> service_account_id x ->
    account (svc x) ejected = Ret d -> code_hash d = le_bytes 32 (service_account_id x) ->
    footprint_storage_items d = 2 -> let l := Z.max 81 (footprint_storage_bytes d) - 81 in
    availability (svc x) ejected h l = Ret [slot; removed] -> expunged removed ->
    item_step x (set_services (put_account (service_account_id x) (Some (set_balance (balance a + balance d) a))
      (put_account ejected None (put_availability ejected h l None (put_preimage ejected h None (svc x))))) x)
| step_solicit_new a h l :
    account (svc x) (service_account_id x) = Ret a -> hash_ok h -> 0 <= l < 2 ^ 32 ->
    availability (svc x) (service_account_id x) h l = Raise StateKeyNoResult ->
    affords (update_footprint_add_preimage l a) ->
    item_step x (set_services (put_account (service_account_id x) (Some (update_footprint_add_preimage l a))
      (put_availability (service_account_id x) h l (Some []) (svc x))) x)
| step_solicit_again a h l slot removed :
    account (svc x) (service_account_id x) = Ret a -> 0 <= l < 2 ^ 32 ->
    availability (svc x) (service_account_id x) h l = Ret [slot; removed] -> affords a ->
    item_step x (set_services (put_account (service_account_id x) (Some a)
      (put_availability (service_account_id x) h l (Some [slot; removed; t]) (svc x))) x)
| step_forget_drop a h l slots :
    account (svc x) (service_account_id x) = Ret a -> 0 <= l < 2 ^ 32 ->
    availability (svc x) (service_account_id x) h l = Ret slots ->
    slots = [] \/ (exists slot removed, slots = [slot; removed] /\ expunged removed) ->
    item_step x (set_services (put_account (service_account_id x) (Some (update_footprint_remove_preimage l a))
      (put_preimage (service_account_id x) h None (put_availability (service_account_id x) h l None (svc x)))) x)
| step_forget_mark h l slots slots' :
    0 <= l < 2 ^ 32 -> availability (svc x) (service_account_id x) h l = Ret slots ->
    (exists slot, slots = [slot] /\ slots' = [slot; t]) \/
    (exists slot removed again, slots = [slot; removed; again] /\ expunged removed /\ slots' = [again; t]) ->
    item_step x (set_services (put_availability (service_account_id x) h l (Some slots') (svc x)) x)
| step_write a k new :
    account (svc x) (service_account_id x) = Ret a ->
    let old := found (item (svc x) (service_account_id x) k) in
    (forall v, new = Some v -> data_ok v /\ v <> []) ->
    let a' := item_footprint k old new a in
    affords a' ->
    item_step x (set_services (put_account (service_account_id x) (Some a') (put_item (service_account_id x) k new (svc x))) x)
| step_yield h : hash_ok h -> item_step x (set_output h x)
| step_provide id blob :
    0 <= id -> (exists a, account (svc x) id = Ret a) -> data_ok blob -> availability (svc x) id (H blob) (Z.of_nat (length blob)) = Ret [] ->
    (id, blob) ∉ preimages x ->
    item_step x (add_preimage id blob x).

(** A call changes the context, or saves it. *)
Inductive call_step : AccumulateInvocationContext -> AccumulateInvocationContext -> Prop :=
| call_item x x' y : item_step x x' -> call_step (mkAccumulateContext x y t) (mkAccumulateContext x' y t)
| call_checkpoint x y : call_step (mkAccumulateContext x y t) (mkAccumulateContext x x t).

(** ** The context stays well formed *)

(** The service exists, reads answer, the lists have an entry per core, and the identifier kept
    for a new account is free. *)
Record item_wf x : Prop := mkItemWf {
  iw_id : service_id (service_account_id x);
  iw_own : exists a, account (svc x) (service_account_id x) = Ret a;
  iw_readable : readable H (svc x);
  iw_assigners : Z.of_nat (length (assigners (priv x))) = CORE_COUNT gp;
  iw_queues : Z.of_nat (length (authorizer_queues (state_context x))) = CORE_COUNT gp;
  iw_new : fresh_id (svc x) (new_service_account_id x);
  iw_slot : u32 t
}.

Lemma account_exists_u32 st id a : 0 <= id -> account st id = Ret a -> service_id id.
Proof using. unfold retrieve_service_account, service_id. destruct (Z.leb_spec (2 ^ 32) id); [done|lia]. Qed.

Lemma own_hash st id a : readable H st -> 0 <= id -> account st id = Ret a -> hash_ok (code_hash a).
Proof using. intros [R _ _ _] Hid Ha. specialize (R id Hid). by rewrite Ha in R. Qed.

Lemma slots_ok st id h l slots : readable H st -> 0 <= id -> 0 <= l -> availability st id h l = Ret slots -> Forall u32 slots.
Proof using. intros [_ _ _ R] Hid Hl Hs. specialize (R id h l Hid Hl). rewrite Hs in R. by destruct R as [|[_ ?]]. Qed.

Lemma item_footprint_code k old new a : code_hash (item_footprint k old new a) = code_hash a.
Proof using. by destruct new as [?|], old as [[|? ?]|]. Qed.

(** Replacing accounts other than the free identifier keeps it free. *)
Lemma fresh_put st id j b : fresh_id st id -> service_id j -> id <> j \/ b = None -> fresh_id (put_account j b st) id.
Proof using.
  intros [Hr Hn] Hj Hne. split; [done|]. rewrite retrieve_put_account by done. destruct (decide (id = j)) as [->|]; [|done].
  by destruct Hne as [?| ->].
Qed.

(** A step that replaces the services' state: what has to be shown. *)
Lemma wf_services st x : item_wf x -> readable H st -> (exists a, account st (service_account_id x) = Ret a) ->
  fresh_id st (new_service_account_id x) -> item_wf (set_services st x).
Proof using. intros [] ? ? ?. by split. Qed.

(** The caller replaces its own account, after writes to other parts of the state. *)
Lemma wf_own st st' a x : item_wf x -> readable H st' -> hash_ok (code_hash a) ->
  (forall id, account st' id = account (svc x) id) -> st = put_account (service_account_id x) (Some a) st' ->
  item_wf (set_services st x).
Proof using.
  intros Hwf Hr Ha Hsame ->. pose proof Hwf as [Hid (b & Hb) ? ? ? [Hf1 Hf2] ?]. apply wf_services; [done| | |].
  - apply readable_put_account; [done| |done]. by intros b' [= <-].
  - exists a. rewrite retrieve_put_account, decide_True by done. done.
  - apply fresh_put; [by split; [|rewrite Hsame]|done|]. left. intros He. congruence.
Qed.

(** The identifier of a new account is one, and free. *)
Lemma new_id_free x id next : item_wf x ->
  (id = new_service_account_id x /\ fresh_id (svc x) next /\ next <> id) \/
  (0 <= id < MINIMUM_PUBLIC_SERVICE_ID /\ service_account_id x = registrar (priv x) /\
   account (svc x) id = Raise StateKeyNoResult /\ next = new_service_account_id x) ->
  service_id id /\ account (svc x) id = Raise StateKeyNoResult /\ fresh_id (svc x) next /\ next <> id.
Proof using.
  intros [_ _ _ _ _ [Hn Hf] _] [(-> & [Hn' Hf'] & Hne)|(Hlow & _ & Hfree & ->)];
    unfold service_id, fresh_id, PUBLIC_SERVICE_IDS, MINIMUM_PUBLIC_SERVICE_ID in *; split_and!; try done; lia.
Qed.

Lemma step_wf x x' : item_step x x' -> item_wf x -> item_wf x'.
Proof using.
  intros Hstep Hwf. pose proof Hwf as [Hid Hown0 Hr Has Hqs Hnew Hslot].
  destruct Hstep as [m l v r z _ _ _ _ Hl|core queue assigner Hc Hown Hlen Hq _|vs _ _|id a h l g m f next Ha Hh Hl Hf n Hle Hcase
    |a h g m Ha Hh|a d memo dest limit amount Ha Hd0 Hd Ham Hm Hlim Hle|a d ejected h slot removed Ha He0 Hne Hd Hcode Hitems l Hav Hexp
    |a h l Ha Hh Hl Hav Haff|a h l slot removed Ha Hl Hav Haff|a h l slots Ha Hl Hav Hs|h l slots slots' Hl Hav Hs
    |a k new Ha old Hnew' a' Haff|h Hh|id blob Hid0 Hex Hb Hav Hni].
  - by split.
  - split; cbn; rewrite ?length_insert; done.
  - by split.
  - destruct (new_id_free x id next Hwf Hcase) as (Hid' & Hfree & [Hn1 Hn2] & Hn3).
    destruct Hown0 as (a0 & Ha0).
    assert (id <> service_account_id x) as Hne by congruence.
    split; cbn; [done| | |done|done| |done].
    + exists (set_balance (balance a - threshold_balance gp n) a). autorewrite with pending.
      rewrite retrieve_put_account, decide_False by done. by rewrite retrieve_put_account, decide_True by done.
    + apply readable_put_availability; [done|lia|by intros ? [= <-]|]. apply readable_put_account; [done|by intros ? [= <-]|].
      apply readable_put_account; [done| |done]. intros ? [= <-]. cbn. by eapply own_hash; [| |exact Ha]; [|apply Hid].
    + split; [done|]. autorewrite with pending. rewrite retrieve_put_account, decide_False by done.
      rewrite retrieve_put_account, decide_False by (done || congruence). done.
  - eapply (wf_own _ (svc x)); [done..| |done|done]. done.
  - assert (item_wf (add_transfer (mkTransfer (service_account_id x) dest amount memo limit) x)) as Hwf' by by split.
    eapply (wf_own _ (svc x) _ _ Hwf'); [done| |done|done]. cbn. by eapply own_hash; [| |exact Ha]; [|apply Hid].
  - assert (0 <= l < 2 ^ 32).
    { subst l. revert Hav. unfold retrieve_preimage_availability. destruct (Z.ltb_spec ejected (2 ^ 32)); [|done].
      match goal with |- context[?z <? 2 ^ 32] => destruct (Z.ltb_spec z (2 ^ 32)) end; [lia|done]. }
    assert (service_id ejected) as Hej by by eapply account_exists_u32.
    apply wf_services; [done| | |].
    + apply readable_put_account; [done| |].
      { intros ? [= <-]. cbn. by eapply own_hash; [| |exact Ha]; [|apply Hid]. }
      apply readable_put_account; [done|done|]. apply readable_put_availability; [done|done|done|]. by apply readable_put_preimage.
    + eexists. by rewrite retrieve_put_account, decide_True by done.
    + apply fresh_put; [|done|left; destruct Hnew; congruence]. apply fresh_put; [done|done|by right].
  - eapply wf_own; [done| | | |reflexivity]; [|cbn|done].
    + apply readable_put_availability; [done|done|by intros ? [= <-]|done].
    + by eapply own_hash; [| |exact Ha]; [|apply Hid].
  - eapply wf_own; [done| | | |reflexivity]; [| |done].
    + apply readable_put_availability; [done|done| |done]. intros ? [= <-].
      eapply slots_ok in Hav; [|done|apply Hid|lia]. apply (Forall_app_2 _ [slot; removed] [t]); [done|by constructor].
    + by eapply own_hash; [| |exact Ha]; [|apply Hid].
  - eapply wf_own; [done| | | |reflexivity]; [|cbn; by eapply own_hash; [| |exact Ha]; [|apply Hid]|done].
    apply readable_put_preimage; [done|]. by apply readable_put_availability.
  - apply wf_services; [done| |exact Hown0|done]. apply readable_put_availability; [done|done| |done]. intros ? [= <-].
    eapply slots_ok in Hav; [|done|apply Hid|lia].
    destruct Hs as [(s & -> & ->)|(s & r & g & -> & _ & ->)]; repeat (apply List.Forall_cons_iff in Hav as [? Hav]); repeat (apply List.Forall_cons; [done|]); constructor.
  - eapply wf_own; [done| | | |reflexivity]; [| |done].
    + apply readable_put_item; [|done]. intros v ->. by apply Hnew'.
    + subst a'. rewrite item_footprint_code. by eapply own_hash; [| |exact Ha]; [|apply Hid].
  - by split.
  - by split.
Qed.

(** ** Funds *)

Definition balance_of st (id : Z) : Z := match account st id with Ret a => balance a | Raise _ => 0 end.

(** What a set of services owns, with what is on its way to some service. *)
Definition funds (ids : list Z) x : Z := sum_of (balance_of (svc x)) ids + sum_of tr_amount (deferred_transfers x).

(** The funds of every set of services that includes certain ones agree. *)
Definition conserved x x' : Prop := exists T, forall ids, NoDup ids -> T ⊆ ids -> funds ids x' = funds ids x.

Lemma balance_put st id j b : service_id j ->
  balance_of (put_account j b st) id = if decide (id = j) then from_option balance 0 b else balance_of st id.
Proof using.
  intros Hj. unfold balance_of. rewrite retrieve_put_account by done. destruct (decide (id = j)); [by destruct b|done].
Qed.

Lemma sum_put st ids j b : service_id j -> NoDup ids -> j ∈ ids ->
  sum_of (balance_of (put_account j b st)) ids = sum_of (balance_of st) ids + from_option balance 0 b - balance_of st j.
Proof using.
  intros Hj Hnd Hin. rewrite (sum_of_update (balance_of st) _ ids j); [|done|done|].
  - by rewrite balance_put, decide_True by done.
  - intros i Hi. by rewrite balance_put, decide_False by done.
Qed.

Lemma balance_ret st id a : account st id = Ret a -> balance_of st id = balance a.
Proof using. unfold balance_of. by intros ->. Qed.

Lemma conserved_refl x : conserved x x.
Proof using. by exists []. Qed.

Lemma conserved_trans x y z : conserved x y -> conserved y z -> conserved x z.
Proof using.
  intros (T1 & H1) (T2 & H2). exists (T1 ++ T2). intros ids Hnd Hsub.
  trans (funds ids y); [apply H2|apply H1]; try done; intros i Hi; apply Hsub, elem_of_app; auto.
Qed.

(** A step that leaves balances and transfers alone. *)
Lemma conserved_same x x' : (forall id, balance_of (svc x') id = balance_of (svc x) id) ->
  deferred_transfers x' = deferred_transfers x -> conserved x x'.
Proof using. intros Hb Ht. exists []. intros ids _ _. unfold funds. rewrite Ht. by rewrite (sum_of_ext _ (balance_of (svc x))). Qed.

(** The caller's account is replaced by one with the same balance. *)
Lemma conserved_own st x a b : item_wf x -> account (svc x) (service_account_id x) = Ret a -> balance b = balance a ->
  (forall id, account st id = account (svc x) id) ->
  conserved x (set_services (put_account (service_account_id x) (Some b) st) x).
Proof using.
  intros [Hid _ _ _ _ _ _] Ha Hb Hsame. apply conserved_same; [|done]. intros id. cbn. rewrite balance_put by done. unfold balance_of.
  destruct (decide (id = service_account_id x)) as [->|]; [by rewrite Ha|by rewrite Hsame].
Qed.

Lemma step_conserves x x' : item_step x x' -> item_wf x -> conserved x x'.
Proof using.
  intros Hstep Hwf. pose proof Hwf as [Hid Hown Hr Has Hqs Hnew _].
  destruct Hstep as [m l v r z _ _ _ _ Hl|core queue assigner Hc Ho Hlen Hq _|vs _ _|id a h l g m f next Ha Hh Hl Hf n Hle Hcase
    |a h g m Ha Hh|a d memo dest limit amount Ha Hd0 Hd Ham Hm Hlim Hle|a d ejected h slot removed Ha He0 Hne Hd Hcode Hitems l Hav Hexp
    |a h l Ha Hh Hl Hav Haff|a h l slot removed Ha Hl Hav Haff|a h l slots Ha Hl Hav Hs|h l slots slots' Hl Hav Hs
    |a k new Ha old Hnew' a' Haff|h Hh|id blob Hid0 Hex Hb Hav Hni]; try by apply conserved_same.
  - destruct (new_id_free x id next Hwf Hcase) as (Hid' & Hfree & _).
    exists [service_account_id x; id]. intros ids Hnd Hsub. unfold funds. cbn.
    change (sum_of (balance_of (put_availability id h l (Some []) ?st)) ids) with (sum_of (balance_of st) ids).
    rewrite !sum_put by (done || set_solver). cbn. rewrite balance_put, decide_False by congruence.
    rewrite (balance_ret _ _ a Ha). unfold balance_of at 2. rewrite Hfree.
    match goal with |- context[threshold_balance gp (update_footprint_add_preimage l ?b)] =>
      change (threshold_balance gp (update_footprint_add_preimage l b)) with (threshold_balance gp n) end. lia.
  - by eapply conserved_own.
  - exists [service_account_id x]. intros ids Hnd Hsub. unfold funds. cbn. rewrite sum_put by (done || set_solver).
    rewrite (balance_ret _ _ a Ha), sum_of_app. cbn. lia.
  - assert (service_id ejected) as Hej by by eapply account_exists_u32.
    exists [service_account_id x; ejected]. intros ids Hnd Hsub. unfold funds. cbn.
    rewrite !sum_put by (done || set_solver). cbn. rewrite balance_put, decide_False by done.
    change (balance_of (put_availability ejected h l None (put_preimage ejected h None (svc x)))) with (balance_of (svc x)).
    rewrite (balance_ret _ _ a Ha), (balance_ret _ _ d Hd). lia.
  - by eapply conserved_own.
  - by eapply conserved_own.
  - by eapply conserved_own.
  - eapply conserved_own; [done|done| |done]. subst a'. by destruct new as [?|], old as [[|? ?]|].
Qed.

(** ** Other services *)

(** Everything a service has is what it was. *)
Record untouched (id : Z) st st' : Prop := mkUntouched {
  un_account : account st' id = account st id;
  un_item k : item st' id k = item st id k;
  un_preimage h : retrieve_preimage H id h st' = retrieve_preimage H id h st;
  un_availability h l : availability st' id h l = availability st id h l
}.

(** A call changes nothing of another service, unless that service names the caller in its code
    hash, which is how it asks to be ejected. *)
Definition isolated x x' : Prop := forall id a, 0 <= id -> id <> service_account_id x -> account (svc x) id = Ret a ->
  code_hash a <> le_bytes 32 (service_account_id x) -> untouched id (svc x) (svc x').

Lemma untouched_refl id st : untouched id st st.
Proof using. by split. Qed.

Lemma untouched_put_account id j b st : service_id j -> id <> j -> untouched id st (put_account j b st).
Proof using. intros Hj Hne. split; [|done..]. by rewrite retrieve_put_account, decide_False by done. Qed.
Lemma untouched_put_item id j k v st : id <> j -> untouched id st (put_item j k v st).
Proof using. intros Hne. split; [done| |done..]. intros k'. rewrite retrieve_put_item, decide_False; [done|congruence]. Qed.
Lemma untouched_put_preimage id j h v st : id <> j -> untouched id st (put_preimage j h v st).
Proof using. intros Hne. split; [done|done| |done]. intros h'. rewrite retrieve_put_preimage, decide_False; [done|congruence]. Qed.
Lemma untouched_put_availability id j h l v st : service_id j -> 0 <= l < 2 ^ 32 -> id <> j ->
  untouched id st (put_availability j h l v st).
Proof using. intros Hj Hl Hne. split; [done..|]. intros h' l'. rewrite retrieve_put_availability, decide_False by (done || congruence). done. Qed.

Lemma untouched_trans id st st' st'' : untouched id st st' -> untouched id st' st'' -> untouched id st st''.
Proof using. intros [A1 B1 C1 D1] [A2 B2 C2 D2]. split; intros; congruence. Qed.

Create HintDb untouched.
#[local] Hint Resolve untouched_put_account untouched_put_item untouched_put_preimage untouched_put_availability : untouched.

(** The availability of a preimage of 2^32 bytes or more is not found. *)
Lemma availability_length st id h l v : availability st id h l = Ret v -> l < 2 ^ 32.
Proof using.
  unfold retrieve_preimage_availability. destruct (_ <? _); [|done]. cbn [andb]. by destruct (Z.ltb_spec l (2 ^ 32)).
Qed.

Lemma step_isolated x x' : item_step x x' -> item_wf x -> isolated x x' /\ service_account_id x' = service_account_id x.
Proof using.
  intros Hstep Hwf. split; [|by destruct Hstep]. pose proof Hwf as [Hid _ _ _ _ _ _]. intros j b Hj Hne Hb Hcode.
  destruct Hstep as [| | |id a h l g m f next Ha Hh Hl Hf n Hle Hcase| | |a d ejected h slot removed Ha He0 Hne' Hd Hcode' Hitems l Hav Hexp
    | | | | | | |]; try apply untouched_refl; cbn; repeat (eapply untouched_trans; [|by eauto with untouched]);
    try by eauto using untouched_refl.
  - destruct (new_id_free x id next Hwf Hcase) as (Hid' & Hfree & _). assert (j <> id) by congruence.
    eapply untouched_trans; [|apply untouched_put_availability; [done|lia|done]].
    eapply untouched_trans; [|by apply untouched_put_account]. by apply untouched_put_account.
  - assert (service_id ejected) by by eapply account_exists_u32. assert (j <> ejected) by congruence.
    eapply untouched_trans; [|by apply untouched_put_account].
    eapply untouched_trans; [|apply untouched_put_availability; [done|apply availability_length in Hav; lia|done]].
    by apply untouched_put_preimage.
Qed.

(** ** Solvency *)

(** Every account affords what it stores. *)
Definition solvent st : Prop := forall id a, 0 <= id -> account st id = Ret a -> affords a.

(** The prices are not negative. *)
Definition prices_ok : Prop := 0 <= MINIMUM_BALANCE_ITEM gp /\ 0 <= MINIMUM_BALANCE_OCTET gp.

Lemma solvent_put st j b : service_id j -> (forall a, b = Some a -> affords a) -> solvent st -> solvent (put_account j b st).
Proof using.
  intros Hj Hb Hs id a Hid. rewrite retrieve_put_account by done. destruct (decide (id = j)) as [->|]; [|by apply Hs].
  destruct b as [b|]; [|done]. intros [= <-]. by apply Hb.
Qed.

Lemma solvent_own st a x : item_wf x -> solvent st -> affords a -> solvent (put_account (service_account_id x) (Some a) st).
Proof using. intros [Hid _ _ _ _ _ _] Hs Ha. apply solvent_put; [done| |done]. by intros ? [= <-]. Qed.

Lemma forget_affords a l : prices_ok -> 0 <= l -> affords a -> affords (update_footprint_remove_preimage l a).
Proof using. unfold affords, threshold_balance. cbn. intros [] ? ?. nia. Qed.

Lemma step_solvent x x' : prices_ok -> item_step x x' -> item_wf x -> solvent (svc x) -> solvent (svc x').
Proof using.
  intros Hp Hstep Hwf Hs. pose proof Hwf as [Hid _ _ _ _ _ _].
  destruct Hstep as [| | |id a h l g m f next Ha Hh Hl Hf n Hle Hcase|a h g m Ha Hh|a d memo dest limit amount Ha Hd0 Hd Ham Hm Hlim Hle
    |a d ejected h slot removed Ha He0 Hne' Hd Hcode' Hitems l Hav Hexp| | |a h l slots Ha Hl Hav Hcase|h l slots slots' Hl Hav Hcase
    |a k new Ha old Hnew a' Haff| |]; cbn; try done.
  - destruct (new_id_free x id next Hwf Hcase) as (Hid' & _). apply solvent_put; [done| |].
    + intros ? [= <-]. unfold affords, n, new_account. cbn. unfold threshold_balance. cbn. lia.
    + by apply solvent_own.
  - apply solvent_own; [done|done|]. apply (Hs _ _ ltac:(apply Hid) Ha).
  - by apply (solvent_own _ _ _ Hwf Hs).
  - assert (service_id ejected) as Hej by by eapply account_exists_u32.
    apply solvent_own; [done| |].
    + by apply solvent_put.
    + pose proof (Hs _ _ ltac:(apply Hid) Ha) as Haff. pose proof (Hs _ _ He0 Hd) as Haff'. unfold affords, threshold_balance in *. cbn. lia.
  - by apply solvent_own.
  - by apply solvent_own.
  - apply solvent_own; [done|done|]. apply forget_affords; [done|lia|]. apply (Hs _ _ ltac:(apply Hid) Ha).
  - by apply solvent_own.
Qed.

(** ** Privileges *)

(** A service without a privilege, when the setting does not let every service bless. *)
Definition unprivileged x : Prop :=
  compat = false /\ service_account_id x <> manager (priv x) /\ service_account_id x <> delegator (priv x) /\
  service_account_id x ∉ assigners (priv x).

Lemma step_unprivileged x x' : item_step x x' -> unprivileged x ->
  priv x' = priv x /\ authorizer_queues (state_context x') = authorizer_queues (state_context x) /\
  validator_queue (state_context x') = validator_queue (state_context x).
Proof using.
  intros Hstep (Hc & Hm & Hd & Ha). destruct Hstep as [? ? ? ? ? [?|?]|core queue assigner ? Ho| | | | | | | | | | | |]; try done; try congruence.
  destruct Ha. by eapply list_elem_of_lookup_2.
Qed.

(** ** Sequences of calls *)

Abbreviation calls := (rtc call_step).

Record context_wf (x : AccumulateInvocationContext) : Prop := mkContextWf {
  cw_context : item_wf (context x);
  cw_savepoint : item_wf (savepoint_context x);
  cw_timeslot : timeslot x = t
}.

Lemma call_step_wf c c' : call_step c c' -> context_wf c -> context_wf c'.
Proof using. intros [x0 x1 y Hs|x0 y] [H1 H2 H3]; split; cbn in *; try done. by eapply step_wf. Qed.

(** The context and the savepoint are both reached by steps from where the calls began. *)
Abbreviation reach := (rtc item_step).

Lemma calls_reach c c' : calls c c' -> savepoint_context c = context c ->
  reach (context c) (context c') /\ reach (context c) (savepoint_context c').
Proof using.
  intros Hcalls Hsame.
  assert (forall d e, calls d e -> forall x, reach x (context d) -> reach x (savepoint_context d) ->
    reach x (context e) /\ reach x (savepoint_context e)) as Hall.
  { intros d e Hd x. clear Hcalls. induction Hd as [|d e f Hde Hef IH]; [done|]. intros Hx Hxs.
    apply IH; destruct Hde as [x0 x1 s Hs|x0 s]; cbn in *; try done. eapply rtc_r; [exact Hx|exact Hs]. }
  apply (Hall c c' Hcalls (context c)); [done|]. by rewrite Hsame.
Qed.

Lemma reach_wf x y : reach x y -> item_wf x -> item_wf y /\ service_account_id y = service_account_id x.
Proof using.
  induction 1 as [|x y z Hxy _ IH]; [done|]. intros Hwf. destruct (IH (step_wf _ _ Hxy Hwf)) as [? ->]. split; [done|].
  by destruct Hxy.
Qed.

Lemma reach_conserves x y : reach x y -> item_wf x -> conserved x y.
Proof using.
  induction 1 as [|x y z Hxy _ IH]; [intros; apply conserved_refl|]. intros Hwf.
  eapply conserved_trans; [by apply step_conserves|]. apply IH. by eapply step_wf.
Qed.

Lemma reach_isolated x y : reach x y -> item_wf x -> isolated x y.
Proof using.
  induction 1 as [|x y z Hxy _ IH]; intros Hwf; [intros id a _ _ _ _; apply untouched_refl|].
  destruct (step_isolated _ _ Hxy Hwf) as [Hiso Hsame]. intros id a Hid Hne Ha Hcode.
  pose proof (Hiso id a Hid Hne Ha Hcode) as Hu. eapply untouched_trans; [exact Hu|].
  apply (IH (step_wf _ _ Hxy Hwf) id a Hid); rewrite ?Hsame; try done. by rewrite (un_account _ _ _ Hu).
Qed.

Lemma reach_solvent x y : prices_ok -> reach x y -> item_wf x -> solvent (svc x) -> solvent (svc y).
Proof using.
  intros Hp. induction 1 as [|x y z Hxy _ IH]; [done|]. intros Hwf Hs. apply IH; [by eapply step_wf|by eapply step_solvent].
Qed.

Lemma reach_unprivileged x y : reach x y -> unprivileged x -> 
  priv y = priv x /\ authorizer_queues (state_context y) = authorizer_queues (state_context x) /\
  validator_queue (state_context y) = validator_queue (state_context x).
Proof using.
  induction 1 as [|x y z Hxy _ IH]; [done|]. intros Hu. destruct (step_unprivileged _ _ Hxy Hu) as (E1 & E2 & E3).
  assert (unprivileged y) as Hy. { assert (service_account_id y = service_account_id x) as E by by destruct Hxy. unfold unprivileged. by rewrite E1, E. }
  destruct (IH Hy) as (-> & -> & ->). done.
Qed.

(** Transfers go to accounts, with gas and an amount that are not negative. *)
Definition transfer_ok (r : DeferredTransfer) : Prop := service_id (tr_receiver r) /\ 0 <= tr_gas_limit r /\ 0 <= tr_amount r.

Lemma step_transfers x x' : item_step x x' -> Forall transfer_ok (deferred_transfers x) -> Forall transfer_ok (deferred_transfers x').
Proof using.
  intros Hstep Hx. destruct Hstep; try exact Hx. cbn. apply Forall_app_2; [exact Hx|]. constructor; [|constructor].
  split; [|cbn; lia]. split; [done|]. cbn. apply Z.nle_gt. intros Hge. match goal with H : account _ dest = _ |- _ => revert H end.
  unfold retrieve_service_account. by rewrite (proj2 (Z.leb_le _ _) Hge).
Qed.

Lemma reach_transfers x y : reach x y -> Forall transfer_ok (deferred_transfers x) -> Forall transfer_ok (deferred_transfers y).
Proof using. induction 1 as [|x y z Hxy _ IH]; [done|]. intros Hx. apply IH. by eapply step_transfers. Qed.
End steps.
