(* ===== verification/AccumCalls.v ===== *)
(** * The host calls of accumulation

    [hostcalls/accumulate.py], the calls of [hostcalls/general.py] that read or write the
    services ([hc_lookup], [hc_read], [hc_write], [hc_info]) and
    [AccumulateInvocationMutator.execute] of [hostcalls/invocation.py].

    The services are those of the context: the mutator passes the same object.  A method that
    finds nothing raises [StateKeyNoResult]: [ask] lets it escape, [ask_opt] is the [try] that
    catches it, [try_read] the one that catches [PVMMemoryError].  The codec of [ValidatorData]
    reads any 336 bytes; the hash is an argument. *)

From Stdlib Require Import ZArith Lia Bool List.
From stdpp Require Import base numbers option list gmap.
From S2P Require Import Prelude Constants Defs MemorySection Memory BasicBlock Machine Interp Program Invocation Graypaper HostCalls Refine StateBase Storage StateKeys Accounts Pending AccumContext.
Import ListNotations.

#[local] Open Scope Z_scope.
#[local] Open Scope py_scope.

Abbreviation A := (HC AccumulateInvocationContext).

(** An exception of the state that no handler of a host call catches. *)
Definition exn_of (e : state_exn) : exn := match e with RecursionDepth => RecursionError | _ => PyException end.

Definition escape {B} (r : outcome state_exn B) : outcome exn B := match r with Ret v => Ret v | Raise e => Raise (exn_of e) end.

(** The fields of the mutator, with the settings and the size of the stack. *)
Record AccumulateMutator (AI : Type) : Type := mkAccumulateMutator {
  am_entropy : bytes;
  am_accumulation_inputs : list AI;
  am_constants : GpConstants;
  am_bless_compat : bool;
  am_stack : nat
}.
Arguments am_entropy {AI}.
Arguments am_accumulation_inputs {AI}.
Arguments am_constants {AI}.
Arguments am_bless_compat {AI}.
Arguments am_stack {AI}.

Section calls.
Context {codec : Codec} (blake2b_256_hash : bytes -> bytes) (ValidatorData_from_jam_bytes : bytes -> ValidatorData).

(** ** Access to the context *)

Definition item_of (s : Call AccumulateInvocationContext) : AccumulateContextItem := context (ca_ctx s).

Definition the_item : A AccumulateContextItem := gets item_of.

Definition ask {B} (f : ServicesState -> outcome state_exn B) : A B := fun s =>
  (escape (f (services (state_context (item_of s)))), s).

Definition ask_opt {B} (f : ServicesState -> outcome state_exn B) : A (option B) := fun s =>
  match f (services (state_context (item_of s))) with
  | Ret v => (Ret (Some v), s)
  | Raise StateKeyNoResult => (Ret None, s)
  | Raise e => (Raise (exn_of e), s)
  end.

(** A change of the current context. *)
Definition change (f : AccumulateContextItem -> AccumulateContextItem) : A unit :=
  modify (fun s => set_ctx (mkAccumulateContext (f (context (ca_ctx s))) (savepoint_context (ca_ctx s)) (timeslot (ca_ctx s))) s).

(** A method of the services that changes them. *)
Definition update (f : ServicesState -> outcome state_exn ServicesState) : A unit := fun s =>
  match f (services (state_context (item_of s))) with
  | Ret st => change (set_services st) s
  | Raise e => (Raise (exn_of e), s)
  end.

(** [try: ... except PVMMemoryError: None] *)
Definition try_mem {B} (op : A B) : A (option B) := fun s =>
  match op s with
  | (Ret v, s) => (Ret (Some v), s)
  | (Raise PVMMemoryError, s) => (Ret None, s)
  | (Raise e, s) => (Raise e, s)
  end.

Definition read (a n : Z) : A bytes := on_mem (read_bytes a n None).
Definition try_read (a n : Z) : A (option bytes) := try_mem (read a n).

(** [exit_condition = resume; registers[7] = v] *)
Definition reply (v : Z) : A unit := exit_with ExitReason.resume ≫= fun _ => put_register 7 v.
Definition panic : A unit := exit_with ExitReason.panic.

Definition decode_with {B} (f : bytes -> option B) (b : bytes) : A B :=
  match f b with Some v => mret v | None => raise PyException end.

(** [for idx in range(n): l.append(body(idx))] *)
Fixpoint collect {B} (body : Z -> A B) (idxs : list Z) : A (list B) :=
  match idxs with
  | [] => mret []
  | i :: idxs => v ← body i; vs ← collect body idxs; mret (v :: vs)
  end.

(** [if memory.is_accessible(a, n, MEM_R): try: ... except PVMMemoryError: None else: None] *)
Definition if_readable {B} (a n : Z) (op : A B) : A (option B) :=
  ok ← accessible_mem a n MEM_R;
  if ok : bool then try_mem op else mret None.

(** ** Privileged services *)

Definition hc_bless (gp : GpConstants) (compat : bool) : list Z -> A unit :=
  hostcall (gas_cost_by_item_count 422 20 12) (fun regs =>
    m ← register regs 7;
    a ← register regs 8;
    v ← register regs 9;
    r ← register regs 10;
    o ← register regs 11;
    n ← register regs 12;
    new_assigners ← if_readable a (4 * CORE_COUNT gp) (collect (fun idx =>
      b ← read (a + idx * 4) 4; decode_with U32_decode b) (py_range 0 (CORE_COUNT gp)));
    auto ← if_readable o (12 * n) (collect (fun idx =>
      let offset := o + idx * 12 in
      b ← read offset 4; service_idx ← decode_with U32_decode b;
      b ← read (offset + 4) 8; gas ← decode_with U64_decode b;
      mret (service_idx, gas)) (py_range 0 n));
    x ← the_item;
    match new_assigners, auto with
    | Some new_assigners, Some auto =>
        if negb (service_account_id x =? manager (privileged_services (state_context x))) && negb compat then reply HostCallResult.HUH
        else if (2 ^ 32 <=? m) || (2 ^ 32 <=? v) || (2 ^ 32 <=? r) then reply HostCallResult.WHO
        else
          reply HostCallResult.OK ≫= fun _ =>
          change (set_privileged (mkPrivileged m new_assigners v r
            (foldl (fun z '(service_idx, gas) => <[service_idx := gas]> z) ∅ auto)))
    | _, _ => panic
    end).

Definition hc_assign (gp : GpConstants) : list Z -> A unit :=
  hostcall (fixed_cost 1818) (fun regs =>
    core_index ← register regs 7;
    o ← register regs 8;
    a ← register regs 9;
    queue ← if_readable o (32 * MAXIMUM_AUTHORIZATION_QUEUE_ITEMS gp)
      (collect (fun idx => read (o + idx * 32) 32) (py_range 0 (MAXIMUM_AUTHORIZATION_QUEUE_ITEMS gp)));
    match queue with
    | None => panic
    | Some queue =>
        if CORE_COUNT gp <=? core_index then reply HostCallResult.CORE
        else
          x ← the_item;
          let p := privileged_services (state_context x) in
          assigner ← lift (escape (get_item (assigners p) core_index));
          if negb (service_account_id x =? assigner) then reply HostCallResult.HUH
          else if 2 ^ 32 <=? a then reply HostCallResult.WHO
          else
            reply HostCallResult.OK ≫= fun _ =>
            queues ← lift (escape (set_item (authorizer_queues (state_context x)) core_index queue));
            change (set_authorizer_queues queues) ≫= fun _ =>
            new_assigners ← lift (escape (set_item (assigners p) core_index a));
            change (set_privileged (set_assigners new_assigners p))
    end).

Definition hc_designate (gp : GpConstants) : list Z -> A unit :=
  hostcall (gas_cost_by_item_count 1100 302 8) (fun regs =>
    o ← register regs 7;
    count ← register regs 8;
    ok ← accessible_mem o (336 * count) MEM_R;
    if negb ok then panic
    else if (count <? 6) || (3 * CORE_COUNT gp <? count) || negb (count mod 3 =? 0) then reply HostCallResult.HUH
    else
      queue ← if_readable o (336 * count) (collect (fun idx =>
        b ← read (o + idx * 336) 336; mret (ValidatorData_from_jam_bytes b)) (py_range 0 count));
      match queue with
      | None => panic
      | Some queue =>
          x ← the_item;
          if negb (service_account_id x =? delegator (privileged_services (state_context x))) then reply HostCallResult.HUH
          else reply HostCallResult.OK ≫= fun _ => change (set_validator_queue queue)
      end).

(** The gas is not negative after the decorator; the two's complement is in the source. *)
Definition hc_checkpoint : list Z -> A unit :=
  hostcall (fixed_cost 103) (fun _ =>
    g ← gets ca_gas;
    put_register 7 (if g <? 0 then 2 ^ 64 + g else g) ≫= fun _ =>
    exit_with ExitReason.resume ≫= fun _ =>
    modify (fun s => set_ctx (mkAccumulateContext (context (ca_ctx s)) (context (ca_ctx s)) (timeslot (ca_ctx s))) s)).

(** ** Accounts *)

Abbreviation retrieve id := (fun st => retrieve_service_account id true st).

Definition hc_new (gp : GpConstants) (stack : nat) : list Z -> A unit :=
  hostcall (fixed_cost 3855) (fun regs =>
    o ← register regs 7;
    l ← register regs 8;
    g ← register regs 9;
    m ← register regs 10;
    f ← register regs 11;
    i ← register regs 12;
    code_hash ← (if (0 <? l) && (l <? 2 ^ 32) then if_readable o 32 (read o 32) else mret None : A (option bytes));
    x ← the_item;
    t ← gets (fun s => timeslot (ca_ctx s));
    let service_id := service_account_id x in
    let p := privileged_services (state_context x) in
    match code_hash with
    | None => panic
    | Some code_hash =>
        let new_service_account := new_account gp code_hash l g m f t service_id in
        service_account ← ask (retrieve service_id);
        let deducted_balance := balance service_account - threshold_balance gp new_service_account in
        let own_choice := (service_id =? registrar p) && (i <? MINIMUM_PUBLIC_SERVICE_ID) in
        if negb (f =? 0) && negb (service_id =? manager p) then reply HostCallResult.HUH
        else if deducted_balance <? threshold_balance gp service_account then reply HostCallResult.CASH
        else
          full ← (if own_choice then ask (service_exists i true) else mret false : A bool);
          if full : bool then reply HostCallResult.FULL
          else
            exit_with ExitReason.resume ≫= fun _ =>
            new_service_id ← (if own_choice then mret i
              else
                next ← ask (check_service_id stack (updated_service_id (new_service_account_id x)));
                change (set_new_id next) ≫= fun _ => mret (new_service_account_id x) : A Z);
            put_register 7 new_service_id ≫= fun _ =>
            update (store_service_account service_id (set_balance deducted_balance service_account) false) ≫= fun _ =>
            update (store_service_account new_service_id new_service_account false) ≫= fun _ =>
            update (store_preimage_availability blake2b_256_hash new_service_id code_hash l [] false)
    end).

Definition hc_upgrade : list Z -> A unit :=
  hostcall (fixed_cost 1028) (fun regs =>
    o ← register regs 7;
    g ← register regs 8;
    m ← register regs 9;
    x ← the_item;
    service_account ← ask (retrieve (service_account_id x));
    code_hash ← try_read o 32;
    match code_hash with
    | None => panic
    | Some code_hash =>
        reply HostCallResult.OK ≫= fun _ =>
        update (store_service_account (service_account_id x) (set_code code_hash g m service_account) false)
    end).

(** [gas_limit -= cost], and the end of the call when that is too much. *)
Definition charge (cost : Z) (k : A unit) : A unit :=
  modify (fun s => set_out_gas (ca_gas s - cost) s) ≫= fun _ =>
  g ← gets ca_gas;
  if g <? 0 then exit_with ExitReason.out_of_gas else k.

(** Without the decorator: the gas of the transfer is charged with the call's. *)
Definition hc_transfer (gp : GpConstants) (regs : list Z) : A unit :=
  d ← register regs 7;
  a ← register regs 8;
  l ← register regs 9;
  o ← register regs 10;
  x ← the_item;
  service_account ← ask (retrieve (service_account_id x));
  dest_service_account ← ask_opt (retrieve d);
  memo ← try_read o (SIZE_TRANSFER_MEMO gp);
  let b := balance service_account - a in
  let forwarded :=
    match memo, dest_service_account with
    | Some _, Some dest =>
        if (gas_limit_on_transfer dest <=? l) && (threshold_balance gp service_account <=? b) then l else 0
    | _, _ => 0
    end in
  charge (575 + forwarded)
    match memo, dest_service_account with
    | None, _ => panic
    | _, None => reply HostCallResult.WHO
    | Some memo, Some dest =>
        if l <? gas_limit_on_transfer dest then reply HostCallResult.LOW
        else if b <? threshold_balance gp service_account then reply HostCallResult.CASH
        else
          reply HostCallResult.OK ≫= fun _ =>
          change (add_transfer (mkTransfer (service_account_id x) d a memo l)) ≫= fun _ =>
          update (store_service_account (service_account_id x) (set_balance b service_account) false)
    end.

Definition hc_eject (gp : GpConstants) : list Z -> A unit :=
  hostcall (fixed_cost 458) (fun regs =>
    d ← register regs 7;
    o ← register regs 8;
    preimage_hash ← try_read o 32;
    x ← the_item;
    t ← gets (fun s => timeslot (ca_ctx s));
    let service_id := service_account_id x in
    service_account ← ask (retrieve service_id);
    match preimage_hash with
    | None => panic
    | Some h =>
        eject_service_account ← (if negb (d =? service_id) then ask_opt (retrieve d) else mret None : A (option ServiceAccount));
        let l := match eject_service_account with Some a => Z.max 81 (footprint_storage_bytes a) - 81 | None => 0 end in
        preimage_availability ← (match eject_service_account with
                                 | Some _ => ask_opt (retrieve_preimage_availability blake2b_256_hash d h l)
                                 | None => mret None
                                 end : A (option (list Z)));
        match eject_service_account with
        | None => reply HostCallResult.WHO
        | Some ejected =>
            if negb (bool_decide (code_hash ejected = le_bytes 32 service_id)) then reply HostCallResult.WHO
            else
              match preimage_availability with
              | None => reply HostCallResult.HUH
              | Some availability =>
                  if negb (footprint_storage_items ejected =? 2) then reply HostCallResult.HUH
                  else
                    match availability with
                    | [_; removed] =>
                        if removed <? t - PREIMAGE_EXPUNGE_TIMESLOTS gp then
                          reply HostCallResult.OK ≫= fun _ =>
                          update (delete_preimage blake2b_256_hash d h false) ≫= fun _ =>
                          update (delete_preimage_availability blake2b_256_hash d h l false) ≫= fun _ =>
                          update (delete_service_account d false) ≫= fun _ =>
                          update (store_service_account service_id
                            (set_balance (balance service_account + balance ejected) service_account) false)
                        else reply HostCallResult.HUH
                    | _ => reply HostCallResult.HUH
                    end
              end
        end
    end).

(** ** Preimages *)

Abbreviation availability id h l := (retrieve_preimage_availability blake2b_256_hash id h l).

Definition hc_query : list Z -> A unit :=
  hostcall (fixed_cost 643) (fun regs =>
    preimage_length ← register regs 8;
    if U32_MAX <=? preimage_length then reply HostCallResult.HUH
    else
      o ← register regs 7;
      x ← the_item;
      preimage_hash ← try_read o 32;
      match preimage_hash with
      | None => panic
      | Some h =>
          preimage_availability ← ask_opt (availability (service_account_id x) h preimage_length);
          match preimage_availability with
          | None => reply HostCallResult.NONE ≫= fun _ => put_register 8 0
          | Some [] => reply 0 ≫= fun _ => put_register 8 0
          | Some [s0] => reply (1 + 2 ^ 32 * s0) ≫= fun _ => put_register 8 0
          | Some [s0; s1] => reply (2 + 2 ^ 32 * s0) ≫= fun _ => put_register 8 s1
          | Some [s0; s1; s2] => reply (3 + 2 ^ 32 * s0) ≫= fun _ => put_register 8 (s1 + 2 ^ 32 * s2)
          | Some _ => panic
          end
      end).

Definition hc_solicit (gp : GpConstants) : list Z -> A unit :=
  hostcall (fixed_cost 2193) (fun regs =>
    preimage_length ← register regs 8;
    if U32_MAX <=? preimage_length then reply HostCallResult.HUH
    else
      x ← the_item;
      t ← gets (fun s => timeslot (ca_ctx s));
      let service_id := service_account_id x in
      service_account ← ask (retrieve service_id);
      o ← register regs 7;
      preimage_hash ← try_read o 32;
      match preimage_hash with
      | None => panic
      | Some h =>
          preimage_availability ← ask_opt (availability service_id h preimage_length);
          match preimage_availability with
          | None =>
              let service_account := update_footprint_add_preimage preimage_length service_account in
              if balance service_account <? threshold_balance gp service_account then reply HostCallResult.FULL
              else
                reply HostCallResult.OK ≫= fun _ =>
                update (store_preimage_availability blake2b_256_hash service_id h preimage_length [] false) ≫= fun _ =>
                update (store_service_account service_id service_account false)
          | Some (([_; _]) as slots) =>
              if balance service_account <? threshold_balance gp service_account then reply HostCallResult.FULL
              else
                reply HostCallResult.OK ≫= fun _ =>
                update (store_preimage_availability blake2b_256_hash service_id h preimage_length (slots ++ [t]) false) ≫= fun _ =>
                update (store_service_account service_id service_account false)
          | Some _ => reply HostCallResult.HUH
          end
      end).

(** The [try] around the look-up of the availability covers the writes, which raise no
    [StateKeyNoResult]: an error of theirs escapes. *)
Definition hc_forget (gp : GpConstants) : list Z -> A unit :=
  hostcall (fixed_cost 3250) (fun regs =>
    preimage_length ← register regs 8;
    if U32_MAX <=? preimage_length then reply HostCallResult.HUH
    else
      o ← register regs 7;
      x ← the_item;
      t ← gets (fun s => timeslot (ca_ctx s));
      let service_id := service_account_id x in
      service_account ← ask (retrieve service_id);
      preimage_hash ← try_read o 32;
      match preimage_hash with
      | None => panic
      | Some h =>
          let expired s := s <? t - PREIMAGE_EXPUNGE_TIMESLOTS gp in
          let drop :=
            update (delete_preimage_availability blake2b_256_hash service_id h preimage_length false) ≫= fun _ =>
            update (delete_preimage blake2b_256_hash service_id h false) ≫= fun _ =>
            update (store_service_account service_id (update_footprint_remove_preimage preimage_length service_account) false) ≫= fun _ =>
            mret true : A bool in
          let mark slots :=
            update (store_preimage_availability blake2b_256_hash service_id h preimage_length slots false) ≫= fun _ => mret true : A bool in
          preimage_availability ← ask_opt (availability service_id h preimage_length);
          preimage_updated ← (match preimage_availability with
                              | Some [] => drop
                              | Some [s0] => mark [s0; t]
                              | Some [s0; s1] => if expired s1 then drop else mret false
                              | Some [s0; s1; s2] => if expired s1 then mark [s2; t] else mret false
                              | _ => mret false
                              end : A bool);
          reply (if preimage_updated : bool then HostCallResult.OK else HostCallResult.HUH)
      end).

Definition hc_yield : list Z -> A unit :=
  hostcall (fixed_cost 98) (fun regs =>
    o ← register regs 7;
    ok ← accessible_mem o 32 MEM_R;
    if ok : bool then
      invocation_data ← read o 32;
      reply HostCallResult.OK ≫= fun _ => change (set_output invocation_data)
    else panic).

Definition hc_provide : list Z -> A unit :=
  hostcall (gas_cost_by_size 3980 [(2264, 9)]) (fun regs =>
    preimage_length ← register regs 9;
    if U32_MAX <=? preimage_length then reply HostCallResult.HUH
    else
      preimage_address ← register regs 8;
      r7 ← register regs 7;
      x ← the_item;
      let id := if r7 =? 2 ^ 64 - 1 then service_account_id x else r7 in
      ok ← accessible_mem preimage_address preimage_length MEM_R;
      preimage_blob ← (if ok : bool then b ← read preimage_address preimage_length; mret (Some b) else mret None : A (option bytes));
      service_account ← ask_opt (retrieve id);
      preimage_availability ← (match preimage_blob with
                               | Some b => ask_opt (availability id (blake2b_256_hash b) preimage_length)
                               | None => mret None
                               end : A (option (list Z)));
      match preimage_blob, service_account with
      | None, _ => panic
      | _, None => reply HostCallResult.WHO
      | Some b, Some _ =>
          if negb (bool_decide (preimage_availability = Some [])) then reply HostCallResult.HUH
          else if bool_decide ((id, b) ∈ preimages x) then reply HostCallResult.HUH
          else reply HostCallResult.OK ≫= fun _ => change (add_preimage id b)
      end).

(** ** The general calls on the services *)

Definition hc_lookup (service : ServiceAccount) (service_id : Z) : list Z -> A unit :=
  hostcall (gas_cost_by_size 600 [(248, 11)]) (fun regs =>
    reg7 ← register regs 7;
    '(id, service_account) ←
      (if (reg7 =? service_id) || (reg7 =? U64_MAX - 1) then mret (service_id, Some service)
       else a ← ask_opt (retrieve (reg7 mod U32_MAX)); mret (reg7 mod U32_MAX, a) : A (Z * option ServiceAccount));
    h ← register regs 8;
    o ← register regs 9;
    readable ← accessible_mem h 32 MEM_R;
    preimage_bytes ← (match service_account with
                      | Some _ =>
                          if readable : bool then
                            preimage_hash ← read h 32;
                            ask_opt (retrieve_preimage blake2b_256_hash id preimage_hash)
                          else mret None
                      | None => mret None
                      end : A (option bytes));
    r10 ← register regs 10;
    r11 ← register regs 11;
    deliver (negb readable) preimage_bytes o r10 r11).

Definition hc_read (service : ServiceAccount) (service_id : Z) : list Z -> A unit :=
  hostcall (gas_cost_by_size 2407 [(1736, 9); (248, 12)]) (fun regs =>
    reg7 ← register regs 7;
    let target := if reg7 =? U64_MAX - 1 then service_id else reg7 mod U32_MAX in
    service_account ← (if target =? service_id then mret (Some service) else ask_opt (retrieve target) : A (option ServiceAccount));
    k_o ← register regs 8;
    k_z ← register regs 9;
    o ← register regs 10;
    storage_key ← try_read k_o k_z;
    storage_item ← (match storage_key, service_account with
                    | Some k, Some _ => ask_opt (retrieve_storage_item blake2b_256_hash target k)
                    | _, _ => mret None
                    end : A (option bytes));
    r11 ← register regs 11;
    r12 ← register regs 12;
    deliver (bool_decide (storage_key = None)) storage_item o r11 r12).

(** The footprint is updated in advance: on the other branches the changed account is dropped. *)
Definition hc_write (gp : GpConstants) (service_id : Z) : list Z -> A unit :=
  hostcall (gas_cost_by_size 2442 [(3358, 8); (216, 10)]) (fun regs =>
    k_o ← register regs 7;
    k_z ← register regs 8;
    v_o ← register regs 9;
    v_z ← register regs 10;
    service_account ← ask (retrieve service_id);
    key ← try_read k_o k_z;
    match key with
    | None => panic
    | Some k =>
        value ← (if v_z =? 0 then mret (Some None)
                 else v ← try_read v_o v_z; mret (Some <$> v) : A (option (option bytes)));
        si ← ask_opt (retrieve_storage_item blake2b_256_hash service_id k);
        let l := match si with Some b => blen b | None => HostCallResult.NONE end in
        match value with
        | None => panic
        | Some value =>
            let service_account := item_footprint k si value service_account in
            if balance service_account <? threshold_balance gp service_account then reply HostCallResult.FULL
            else
              reply l ≫= fun _ =>
              update (match value with
                      | None => delete_storage_item blake2b_256_hash service_id k false
                      | Some v => store_storage_item blake2b_256_hash service_id k v false
                      end) ≫= fun _ =>
              update (store_service_account service_id service_account false)
        end
    end).

(** [U64.encode(v)] and [U32.encode(v)] raise outside the range of the type. *)
Definition encode_u64 (v : Z) : A bytes := if (0 <=? v) && (v <? 2 ^ 64) then mret (U64_encode v) else raise EncodingError.
Definition encode_u32 (v : Z) : A bytes := if (0 <=? v) && (v <? 2 ^ 32) then mret (U32_encode v) else raise EncodingError.

Definition info_bytes (gp : GpConstants) (a : ServiceAccount) : A bytes :=
  b1 ← encode_u64 (balance a);
  b2 ← encode_u64 (threshold_balance gp a);
  b3 ← encode_u64 (gas_limit_accumulate a);
  b4 ← encode_u64 (gas_limit_on_transfer a);
  b5 ← encode_u64 (footprint_storage_bytes a);
  b6 ← encode_u32 (footprint_storage_items a);
  b7 ← encode_u64 (deposit_offset a);
  b8 ← encode_u32 (creation_slot a);
  b9 ← encode_u32 (last_accumulation_slot a);
  b10 ← encode_u32 (parent_service a);
  mret (code_hash a ++ b1 ++ b2 ++ b3 ++ b4 ++ b5 ++ b6 ++ b7 ++ b8 ++ b9 ++ b10).

Definition hc_info (gp : GpConstants) (service_id : Z) : list Z -> A unit :=
  hostcall (fixed_cost 703) (fun regs =>
    reg7 ← register regs 7;
    service_account ← ask_opt (retrieve (if reg7 =? U64_MAX - 1 then service_id else reg7 mod U32_MAX));
    o ← register regs 8;
    service_account_bytes ← (match service_account with
                             | Some a => b ← info_bytes gp a; mret (Some b)
                             | None => mret None
                             end : A (option bytes));
    r9 ← register regs 9;
    r10 ← register regs 10;
    deliver false service_account_bytes o r9 r10).

(** ** [AccumulateInvocationMutator.execute] *)

Section mutator.
Context {RC AI : Type} {fetch : FetchCodec RC AI}.

(** What [hc_fetch] is given. *)
Definition accumulate_fetch (self : AccumulateMutator AI) : FetchData (RC := RC) (AI := AI) :=
  mkFetch (am_constants self) None (Some (am_entropy self)) None None None None (Some (am_accumulation_inputs self)).

(** A call that is given the caller's account. *)
Definition with_service (k : ServiceAccount -> Z -> A unit) : A unit :=
  x ← the_item;
  service ← ask (retrieve (service_account_id x));
  k service (service_account_id x).

Definition accumulate_dispatch (self : AccumulateMutator AI) (nr : Z) (regs : list Z) : A unit :=
  let gp := am_constants self in
  match nr with
  | 100 => hc_log regs
  | 1 => hc_grow_heap regs
  | 0 => hc_gas regs
  | 3 => with_service (fun service service_id => hc_lookup service service_id regs)
  | 4 => with_service (fun service service_id => hc_read service service_id regs)
  | 5 => with_service (fun _ service_id => hc_write gp service_id regs)
  | 6 => with_service (fun _ service_id => hc_info gp service_id regs)
  | 2 => hc_fetch (accumulate_fetch self) regs
  | 15 => hc_bless gp (am_bless_compat self) regs
  | 16 => hc_assign gp regs
  | 17 => hc_designate gp regs
  | 18 => hc_checkpoint regs
  | 20 => hc_upgrade regs
  | 21 => hc_transfer gp regs
  | 22 => hc_eject gp regs
  | 23 => hc_query regs
  | 24 => hc_solicit gp regs
  | 19 => hc_new gp (am_stack self) regs
  | 25 => hc_forget gp regs
  | 26 => hc_yield regs
  | 27 => hc_provide regs
  | _ => hc_not_found
  end.

Definition accumulate_execute (self : AccumulateMutator AI) (nr gas_limit : Z) (regs : list Z)
  (x : AccumulateInvocationContext) (vm : VM) : outcome exn InvocationMutationOutput * (AccumulateInvocationContext * VM) :=
  serve (accumulate_dispatch self nr regs) gas_limit x vm.
End mutator.
End calls.
