(* ===== verification/AccumServe.v ===== *)
(** * Accumulation: the host calls do what the context's steps allow

    Every call of [AccumCalls] leaves the context as it is or takes a step of [AccumContext],
    keeps the machine as the host-call loop expects, and raises no more than three exceptions.
    While a call reads, its context is known ([frozen]); [ends] says what holds when it is over. *)

From Stdlib Require Import ZArith Lia Bool List.
From stdpp Require Import base numbers option list gmap relations.
From S2P Require Import Prelude Constants Defs MemorySection Memory BasicBlock Machine Interp Program Invocation Graypaper HostCalls Refine StateBase Sums Storage StateKeys Accounts Pending AccumContext AccumCalls.
Import ListNotations.

#[local] Open Scope Z_scope.
#[local] Open Scope py_scope.

(** An access refused, Python's stack exhausted, a value its encoding cannot hold, or the codec's
    error on a request that does not read. *)
Definition accumulate_may {tolerance : Tolerance} (e : exn) : Prop :=
  e = PVMMemoryError \/ e = RecursionError \/ e = EncodingError \/ tolerated /\ e = PyException.

(** The constants the calls rely on. *)
Record accumulate_gp_ok (gp : GpConstants) : Prop := mkAccumulateGpOk {
  ag_memo : 0 < SIZE_TRANSFER_MEMO gp;
  ag_cores : 0 <= CORE_COUNT gp;
  ag_queue : 0 <= MAXIMUM_AUTHORIZATION_QUEUE_ITEMS gp
}.

Section serving.
Context {tolerance : Tolerance} {codec : Codec} {laws : CodecLaws codec} (hash : bytes -> bytes) (Hlen : forall x, length (hash x) = 32%nat).
Context (vdecode : bytes -> ValidatorData) (gp : GpConstants) (Hgp : accumulate_gp_ok gp) (compat : bool) (t : Z).
Context (vm0 : VM) (g0 : Z) (regs : list Z) (Hregs : registers_ok regs).
(** Where the invocation began. *)
Context (c0 : AccumulateInvocationContext).
Context (stack : nat).
(** What the transfers sent have cost, with the gas left, stays within the budget. *)
Context (budget : Z).
Implicit Types (s : Call AccumulateInvocationContext) (c : AccumulateInvocationContext).

Abbreviation X := AccumulateInvocationContext.

(** The contexts the calls come to. *)
Record arrived c : Prop := mkArrived {
  re_wf : context_wf hash gp t c;
  re_calls : rtc (call_step hash gp compat t) c0 c
}.

Definition accumulate_ctx_ok c (b : option Z * option Z * Z) : Prop := bounds_ok b /\ arrived c.

(** Where a call begins. *)
Definition reached c : Prop := arrived c /\ sent c + g0 <= budget.
Definition frozen_ctx c c' (b : option Z * option Z * Z) : Prop := bounds_ok b /\ c' = c.

Abbreviation frozen c := (safe (frozen_ctx c) accumulate_may vm0 g0).
Abbreviation known c := (call_inv (frozen_ctx c) vm0 g0).
Abbreviation over s := (served accumulate_ctx_ok vm0 g0 s /\ sent (ca_ctx s) + Z.max 0 (ca_gas s) <= budget).

Definition ends {B} c (m : A B) : Prop := forall s, known c s ->
  wp m (fun _ s' => over s') (fun e s' => accumulate_may e /\ over s') s.

Lemma known_over c s : reached c -> known c s -> over s.
Proof using.
  intros [Hc Hb] ([H1 H2 H3 H4 H5 [H6 H7]] & Hg & He). split; [|rewrite H7; lia]. apply inv_served. split; [|done]. split; try done.
  by split; [|rewrite H7].
Qed.

Lemma ends_safe {B} c (m : A B) Φ : reached c -> frozen c m Φ -> ends c m.
Proof using.
  intros Hc Hm s Hs. eapply wp_mono; [by apply Hm| |].
  - intros b s' [Hs' _]. by eapply known_over.
  - intros e s' [He Hs']. split; [done|]. by eapply known_over.
Qed.

Lemma ends_bind {B C} c (m : A B) (k : B -> A C) Φ : reached c -> frozen c m Φ -> (forall b, Φ b -> ends c (k b)) -> ends c (m ≫= k).
Proof using.
  intros Hc Hm Hk s Hs. apply wp_bind. eapply wp_mono; [by apply Hm| |].
  - intros b s' [Hs' Hb]. by apply (Hk b Hb).
  - intros e s' [He Hs']. split; [done|]. by eapply known_over.
Qed.

(** A computation that does not raise and changes the context only. *)
Definition runs {B} c (m : A B) (b : B) c' : Prop := forall s, ca_ctx s = c -> m s = (Ret b, set_ctx c' s).

Lemma known_set_ctx c c' s : known c s -> known c' (set_ctx c' s).
Proof using. intros ([H1 H2 H3 H4 H5 [H6 _]] & Hg & He). split; [by split|done]. Qed.

Lemma ends_runs {B C} c c' (m : A B) (k : B -> A C) b : runs c m b c' -> ends c' (k b) -> ends c (m ≫= k).
Proof using.
  intros Hm Hk s Hs. apply wp_bind. eapply wp_run; [apply Hm; by destruct Hs as ([_ _ _ _ _ [_ ?]] & _)|].
  apply Hk. by eapply known_set_ctx.
Qed.

Lemma ends_runs_last {B} c c' (m : A B) b : runs c m b c' -> reached c' -> ends c m.
Proof using.
  intros Hm Hc s Hs. eapply wp_run; [apply Hm; by destruct Hs as ([_ _ _ _ _ [_ ?]] & _)|].
  eapply known_over; [done|]. by eapply known_set_ctx.
Qed.

Lemma runs_bind {B C} c c' c'' (m : A B) (k : B -> A C) b v : runs c m b c' -> runs c' (k b) v c'' -> runs c (m ≫= k) v c''.
Proof using.
  intros Hm Hk s Hs. rewrite eff_bind_run, Hm by done. rewrite Hk by done. by destruct s.
Qed.

(** ** Reads of the context *)

Lemma ends_item {B} c (k : AccumulateContextItem -> A B) : ends c (k (context c)) -> ends c (the_item ≫= k).
Proof using.
  intros Hk. apply (ends_runs c c _ _ (context c)); [|done]. intros [] Hs. cbn in Hs. by subst.
Qed.

Lemma ends_timeslot {B} c (k : Z -> A B) : ends c (k (timeslot c)) -> ends c (gets (fun s => timeslot (ca_ctx s)) ≫= k).
Proof using.
  intros Hk. apply (ends_runs c c _ _ (timeslot c)); [|done]. intros [] Hs. cbn in Hs. by subst.
Qed.

Lemma ends_ask {B C} c (f : ServicesState -> outcome state_exn B) (k : B -> A C) v :
  f (services (state_context (context c))) = Ret v -> ends c (k v) -> ends c (ask f ≫= k).
Proof using.
  intros Hf Hk. apply (ends_runs c c _ _ v); [|done]. intros [] Hs. cbn in Hs. subst. unfold ask, item_of. cbn. by rewrite Hf.
Qed.

Lemma ends_ask_opt {B C} c (f : ServicesState -> outcome state_exn B) (k : option B -> A C) Φ :
  answers Φ (f (services (state_context (context c)))) ->
  (forall v, f (services (state_context (context c))) = Ret v -> Φ v -> ends c (k (Some v))) ->
  (f (services (state_context (context c))) = Raise StateKeyNoResult -> ends c (k None)) -> ends c (ask_opt f ≫= k).
Proof using.
  intros Ha HS HN. destruct (f _) as [v|e] eqn:Hf; cbn in Ha.
  - apply (ends_runs c c _ _ (Some v)); [|by apply HS]. intros [] Hs. cbn in Hs. subst. unfold ask_opt, item_of. cbn. by rewrite Hf.
  - subst e. apply (ends_runs c c _ _ None); [|by apply HN]. intros [] Hs. cbn in Hs. subst. unfold ask_opt, item_of. cbn. by rewrite Hf.
Qed.

(** ** Answers *)

(** A computation that does not raise and leaves context and gas alone. *)
Definition silent {B} c (m : A B) (b : B) : Prop := forall s, known c s ->
  exists s', m s = (Ret b, s') /\ known c s' /\ ca_gas s' = ca_gas s.

Lemma ends_silent {B C} c (m : A B) (k : B -> A C) b : silent c m b -> ends c (k b) -> ends c (m ≫= k).
Proof using.
  intros Hm Hk s Hs. destruct (Hm s Hs) as (s' & Hrun & Hs' & _). apply wp_bind. eapply wp_run; [exact Hrun|]. by apply Hk.
Qed.

Lemma ends_silent_last {B} c (m : A B) b : reached c -> silent c m b -> ends c m.
Proof using.
  intros Hc Hm s Hs. destruct (Hm s Hs) as (s' & Hrun & Hs' & _). eapply wp_run; [exact Hrun|]. by eapply known_over.
Qed.

Lemma silent_bind {B C} c (m : A B) (k : B -> A C) b v : silent c m b -> silent c (k b) v -> silent c (m ≫= k) v.
Proof using.
  intros Hm Hk s Hs. destruct (Hm s Hs) as (s1 & H1 & Hs1 & G1). destruct (Hk s1 Hs1) as (s2 & H2 & Hs2 & G2).
  exists s2. split; [by rewrite eff_bind_run, H1|]. split; [done|congruence].
Qed.

Lemma silent_exit c r : r = ExitReason.panic \/ r = ExitReason.resume -> silent c (exit_with r) tt.
Proof using.
  intros Hr s (Hf & Hg & He). eexists. split; [done|]. split; [|done]. split; [destruct Hf; by split|]. split; [done|].
  by destruct Hr as [->| ->]; [left|right].
Qed.

Lemma silent_put_register c i v : 0 <= i <= 12 -> is_u64 v -> silent c (put_register i v) tt.
Proof using.
  intros Hi Hv s (Hf & Hg & He). pose proof Hf as [Hc Hp Hb Hga Hr Hx].
  destruct (put_register_run i v s Hr Hi Hv) as (l & -> & _ & Hr'). eexists. split; [done|]. split; [|done]. split; [by split|done].
Qed.

Lemma silent_reply c v : is_u64 v -> silent c (reply v) tt.
Proof using. intros Hv. eapply silent_bind; [apply silent_exit; by right|by apply silent_put_register]. Qed.

Lemma ends_reply c v : reached c -> is_u64 v -> ends c (reply v).
Proof using. intros Hc Hv. eapply ends_silent_last; [done|by apply silent_reply]. Qed.

Lemma ends_panic c : reached c -> ends c panic.
Proof using. intros Hc. eapply ends_silent_last; [done|apply silent_exit; by left]. Qed.

(** ** Registers, memory, gas *)

Lemma ends_reg {B} c i (k : Z -> A B) : 0 <= i <= 12 -> (forall v, regs !! Z.to_nat i = Some v -> is_u64 v -> ends c (k v)) ->
  ends c (register regs i ≫= k).
Proof using Hregs.
  intros Hi Hk. pose proof Hregs as [Hl Hall]. destruct (lookup_lt_is_Some_2 regs (Z.to_nat i)) as [v Hv]; [lia|].
  apply (ends_silent c _ _ v); [|apply Hk; [done|by eapply Forall_lookup_1]].
  intros s Hs. exists s. split; [|done]. unfold register. by rewrite py_index_nonneg, Hv by lia.
Qed.

Lemma ends_accessible {B} c a n mode (k : bool -> A B) : mode = MEM_R \/ mode = MEM_W ->
  (forall b, ends c (k b)) -> ends c (accessible_mem a n mode ≫= k).
Proof using.
  intros Hm Hk s Hs. apply wp_bind. destruct (accessible_mem_run a n mode s Hm) as (b & Hrun & _).
  eapply wp_run; [exact Hrun|]. by apply Hk.
Qed.

Lemma frozen_try_mem {B} c (m : A B) Φ : frozen c m Φ -> frozen c (try_mem m) (fun o => forall b, o = Some b -> Φ b).
Proof using.
  intros Hm s Hs. specialize (Hm s Hs). unfold wp, try_mem in *. destruct (m s) as [[b|e] s'].
  - destruct Hm as [? Hb]. split; [done|]. by intros ? [= <-].
  - destruct Hm as [Hm Hs']. destruct e; (split; [|done]); done || by destruct Hm as [|[|[|[]]]].
Qed.

Lemma frozen_read c a n : 0 < n -> frozen c (read a n) (fun b => List.Forall is_byte b /\ blen b = n).
Proof using.
  intros Hn. unfold read. apply safe_on_mem. intros m Hm.
  destruct (read_bytes_any a n None m) as (r & a' & Heq & Hr). rewrite Heq. split; [done|]. split; [done|].
  destruct r as [bs|e]; cbn; [|left; by rewrite Hr]. split; [by apply Hr|].
  destruct (decide (0 <= a < SIZE)) as [Ha|Ha].
  - destruct (read_bytes_spec a n None m Ha Hn) as [[_ He]|(pg & _ & He)]; rewrite He in Heq; [|done]. injection Heq as <- _.
    unfold blen, pad. rewrite length_map, length_py_range. lia.
  - unfold read_bytes in Heq. destruct (Z.ltb_spec a 0), (Z.leb_spec SIZE a); try lia; done.
Qed.

Lemma ends_try_read {B} c a n (k : option bytes -> A B) : reached c -> 0 < n ->
  (forall b, List.Forall is_byte b -> blen b = n -> ends c (k (Some b))) -> ends c (k None) -> ends c (try_read a n ≫= k).
Proof using.
  intros Hc Hn HS HN. eapply ends_bind; [done|apply frozen_try_mem, frozen_read, Hn|]. intros [b|] Hb; [|done].
  by apply HS; apply (Hb b).
Qed.

Lemma frozen_collect {B} c (body : Z -> A B) Φ idxs : (forall i, i ∈ idxs -> frozen c (body i) Φ) ->
  frozen c (collect body idxs) (fun l => List.Forall Φ l /\ length l = length idxs).
Proof using.
  induction idxs as [|i idxs IH]; intros Hb; [by apply safe_ret|]. cbn [collect].
  eapply safe_bind; [apply Hb; left|]. intros v Hv. cbn in Hv.
  eapply safe_bind; [apply IH; intros j Hj; apply Hb; by right|]. intros vs [Hvs Hl]. apply safe_ret. cbn. split; [by constructor|lia].
Qed.

Lemma ends_if_readable {B C} c a n (op : A B) (k : option B -> A C) Φ : reached c -> frozen c op Φ ->
  (forall b, Φ b -> ends c (k (Some b))) -> ends c (k None) -> ends c (if_readable a n op ≫= k).
Proof using.
  intros Hc Hop HS HN. eapply (ends_bind _ _ _ (fun o => forall b, o = Some b -> Φ b)); [done| |].
  - eapply (safe_bind _ _ _ _ _ _ (fun _ => True)); [apply safe_accessible; by left|]. intros [] _; [by apply frozen_try_mem|by apply safe_ret].
  - intros [b|] Hb; [|done]. apply HS. by apply Hb.
Qed.

Lemma frozen_decode {B} c (f : bytes -> option B) b (Φ : B -> Prop) : (exists v, f b = Some v /\ Φ v) -> frozen c (decode_with f b) Φ.
Proof using. intros (v & Hv & HΦ). unfold decode_with. rewrite Hv. by apply safe_ret. Qed.

(** A charge, and what is known of the gas after it. *)
Lemma ends_charge_paid c cost k : reached c -> 0 <= cost ->
  (forall s, known c s -> ca_gas s <= g0 - cost -> wp k (fun _ s' => over s') (fun e s' => accumulate_may e /\ over s') s) ->
  ends c (charge cost k).
Proof using.
  intros [Hc Hb] Hcost Hk s (Hf & Hg & He). unfold charge. apply wp_bind. eapply wp_run; [done|]. apply wp_bind. eapply wp_run; [done|].
  cbn [ca_gas set_out_gas]. destruct Hf as [H1 H2 H3 H4 H5 [H6 H7]]. destruct (Z.ltb_spec (ca_gas s - cost) 0).
  - unfold wp, exit_with, modify. split; [|cbn; rewrite H7; lia].
    split; [split; try done; split; [done|cbn; by rewrite H7]|]. split; [cbn; lia|]. right. by left.
  - apply Hk; [|cbn; lia]. split; [by split|]. split; [cbn; lia|done].
Qed.

Lemma ends_charge c cost k : reached c -> 0 <= cost -> ends c k -> ends c (charge cost k).
Proof using. intros Hc Hcost Hk. apply ends_charge_paid; [done|done|]. intros s Hs _. by apply Hk. Qed.

Lemma ends_hostcall c cost func : reached c -> frozen c (cost regs) (fun g => 0 <= g) -> ends c (func regs) -> ends c (hostcall cost func regs).
Proof using. intros Hc Hcost Hf. eapply ends_bind; [done|done|]. intros g Hg. by apply ends_charge. Qed.

(** Arithmetic answers of [deliver], the gas of the calls. *)
Lemma item_count_cost c base rate r : 0 <= base -> 0 <= rate -> 0 <= r <= 12 -> frozen c (gas_cost_by_item_count base rate r regs) (fun g => 0 <= g).
Proof using Hregs.
  intros Hb Hra Hr. eapply (safe_bind _ _ _ _ _ _ is_u64); [by apply safe_register|]. intros n Hn. apply safe_ret. unfold is_u64 in Hn. nia.
Qed.

Lemma ends_deliver c inaccessible v o f l : reached c -> opt_blob_ok v -> is_u64 o -> is_u64 f -> is_u64 l -> ends c (deliver inaccessible v o f l).
Proof using. intros Hc Hv Ho Hf Hl. unfold is_u64 in *. eapply ends_safe; [done|]. apply deliver_safe; [done|lia..]. Qed.

(** ** Changes *)

Definition at_item c (x : AccumulateContextItem) : X := mkAccumulateContext x (savepoint_context c) (timeslot c).

Lemma runs_change c f : runs c (change f) tt (at_item c (f (context c))).
Proof using. intros [] Hs. cbn in Hs. by subst. Qed.

Lemma runs_update c (f : ServicesState -> outcome state_exn ServicesState) st :
  f (services (state_context (context c))) = Ret st -> runs c (update f) tt (at_item c (set_services st (context c))).
Proof using. intros Hf [] Hs. cbn in Hs. subst. unfold update, item_of. cbn. by rewrite Hf. Qed.

Lemma runs_ret {B} c (v : B) : runs c (mret v) v c.
Proof using. intros [] Hs. cbn in Hs. by subst. Qed.

Lemma arrived_step c x : arrived c -> item_step hash gp compat t (context c) x -> arrived (at_item c x).
Proof using.
  intros [Hwf Hcalls] Hstep. assert (call_step hash gp compat t c (at_item c x)) as Hcall.
  { destruct c as [x0 y t0]. pose proof (cw_timeslot _ _ _ _ Hwf) as Ht. cbn in Ht. subst t0. by constructor. }
  split; [by eapply call_step_wf|]. by eapply rtc_r.
Qed.

Lemma arrived_to c x c' : arrived c -> item_step hash gp compat t (context c) x -> c' = at_item c x -> arrived c'.
Proof using. intros Hc Hs ->. by apply arrived_step. Qed.

Lemma reached_step c x : reached c -> item_step hash gp compat t (context c) x ->
  deferred_transfers x = deferred_transfers (context c) -> reached (at_item c x).
Proof using.
  intros [Hc Hb] Hs Hd. split; [by apply arrived_step|]. unfold sent, sent_gas in *. cbn. by rewrite Hd.
Qed.

Lemma reached_to c x c' : reached c -> item_step hash gp compat t (context c) x ->
  c' = at_item c x /\ deferred_transfers x = deferred_transfers (context c) -> reached c'.
Proof using. intros Hc Hs [-> Hd]. by apply reached_step. Qed.

(** What is known where the calls have come. *)
Lemma reached_item c : reached c -> item_wf hash gp t (context c) /\ timeslot c = t.
Proof using. intros [[[H1 _ H3] _] _]. by split. Qed.

(** The caller's account. *)
Lemma ends_own {B} c (k : ServiceAccount -> A B) : reached c ->
  (forall a, retrieve_service_account (service_account_id (context c)) true (services (state_context (context c))) = Ret a ->
    hash_ok (code_hash a) -> ends c (k a)) ->
  ends c (ask (fun st => retrieve_service_account (service_account_id (context c)) true st) ≫= k).
Proof using.
  intros Hc Hk. destruct (reached_item c Hc) as [[Hid (a & Ha) Hr _ _ _ _] _]. eapply ends_ask; [exact Ha|]. apply Hk; [done|].
  eapply own_hash; [exact Hr|apply Hid|exact Ha].
Qed.

Lemma ends_raises {B C} c (m : A B) (k : B -> A C) e : reached c -> accumulate_may e -> (forall s, ca_ctx s = c -> m s = (Raise e, s)) ->
  ends c (m ≫= k).
Proof using.
  intros Hc He Hm s Hs. unfold wp. rewrite eff_bind_run, Hm by (by destruct Hs as ([_ _ _ _ _ [_ ?]] & _)).
  split; [done|by eapply known_over].
Qed.

(** Another account. *)
Lemma ends_account {B} c id (k : option ServiceAccount -> A B) : reached c -> 0 <= id ->
  (forall a, retrieve_service_account id true (services (state_context (context c))) = Ret a -> hash_ok (code_hash a) -> ends c (k (Some a))) ->
  ends c (k None) ->
  ends c (ask_opt (fun st => retrieve_service_account id true st) ≫= k).
Proof using.
  intros Hc Hid HS HN. destruct (reached_item c Hc) as [[_ _ [R _ _ _] _ _ _ _] _]. eapply ends_ask_opt; [by apply R|done|done].
Qed.

Lemma ends_availability {B} c id h l (k : option (list Z) -> A B) : reached c -> 0 <= id -> 0 <= l ->
  (forall v, retrieve_preimage_availability hash id h l (services (state_context (context c))) = Ret v -> Forall u32 v -> ends c (k (Some v))) ->
  (retrieve_preimage_availability hash id h l (services (state_context (context c))) = Raise StateKeyNoResult -> ends c (k None)) ->
  ends c (ask_opt (retrieve_preimage_availability hash id h l) ≫= k).
Proof using.
  intros Hc Hid Hl HS HN. destruct (reached_item c Hc) as [[_ _ [_ _ _ R] _ _ _ _] _].
  destruct (R id h l Hid Hl) as [Ha|[Ht Hraise]]; [by eapply ends_ask_opt|].
  apply (ends_raises _ _ _ PyException); [done|by do 3 right|]. intros [] Hs. cbn in Hs. subst. unfold ask_opt, item_of. cbn. by rewrite Hraise.
Qed.

Ltac fixed Hc := apply ends_hostcall; [exact Hc|by apply fixed_cost_safe|].
Ltac reg := apply ends_reg; [lia|intros ? ? ?].

Lemma read_hash_ok b : List.Forall is_byte b -> blen b = 32 -> hash_ok b.
Proof using. unfold blen, hash_ok. intros. split; [done|lia]. Qed.

(** ** The calls *)

Lemma hc_upgrade_ends c : reached c -> ends c (hc_upgrade regs).
Proof using Hregs.
  intros Hc. destruct (reached_item c Hc) as [Hwf Ht]. pose proof Hwf as [Hid _ _ _ _ _ _].
  fixed Hc. do 3 reg. apply ends_item, ends_own; [done|intros a Ha Hcode].
  apply ends_try_read; [done|lia| |by apply ends_panic]. intros b Hb Hl.
  apply (ends_silent _ _ _ tt); [by apply silent_reply|].
  eapply ends_runs_last; [apply runs_update, store_account_run, Hid|]. 
  eapply reached_to; [exact Hc|apply step_upgrade; [exact Ha|by apply (read_hash_ok b)]|done].
Qed.

(** A context change within the gas that is left. *)
Lemma over_spent c c' s : known c s -> arrived c' -> sent c' + ca_gas s <= budget -> over (set_ctx c' s).
Proof using.
  intros ([H1 H2 H3 H4 H5 [H6 H7]] & Hg & He) Hc Hb. split; [|cbn; lia]. apply inv_served. split; [|done]. by split.
Qed.

Lemma hc_transfer_ends c : reached c -> ends c (hc_transfer gp regs).
Proof using Hregs Hgp.
  intros Hc. destruct (reached_item c Hc) as [Hwf Ht]. pose proof Hwf as [Hid _ _ _ _ _ _]. pose proof Hgp as [Hmemo _ _].
  unfold hc_transfer. apply ends_reg; [lia|intros dest _ Hdest]. apply ends_reg; [lia|intros amount _ Hamount].
  apply ends_reg; [lia|intros limit _ Hlimit]. reg. apply ends_item, ends_own; [done|intros a Ha _]. unfold is_u64 in *.
  apply ends_account; [done|lia|intros d Hd _|];
    (apply ends_try_read; [done|done|intros memo _ Hl|]);
    try (apply ends_charge; [done|lia|]; by apply ends_panic || by apply ends_reply).
  apply ends_charge_paid; [done|destruct (_ && _); lia|]. intros s Hs Hgas.
  destruct (Z.ltb_spec limit (gas_limit_on_transfer d)); [by apply (ends_reply c)|].
  destruct (Z.ltb_spec (balance a - amount) (threshold_balance gp a)); [by apply (ends_reply c)|].
  rewrite (proj2 (Z.leb_le _ _)), (proj2 (Z.leb_le _ _)) in Hgas by lia. cbn [andb] in Hgas.
  destruct (silent_reply c HostCallResult.OK ltac:(done) s Hs) as (s' & Hrun & Hs' & Hgas').
  apply wp_bind. eapply wp_run; [exact Hrun|].
  eapply wp_run; [eapply (runs_bind c);
    [apply runs_change|apply runs_update, store_account_run, Hid|by destruct Hs' as ([_ _ _ _ _ [_ ?]] & _)]|].
  destruct Hc as [Hc Hb]. eapply over_spent; [done| |].
  - eapply arrived_to; [exact Hc|apply (step_transfer _ _ _ _ _ a d memo dest limit amount); done || lia|done].
  - unfold sent, sent_gas in *. rewrite Hgas'. cbn -[transfer_cost]. rewrite sum_of_app.
    cbn [sum_of]. change (transfer_cost _) with (575 + limit). lia.
Qed.

(** The privileged calls. *)
Lemma frozen_assigners c a : frozen c (collect (fun idx => b ← read (a + idx * 4) 4; decode_with U32_decode b) (py_range 0 (CORE_COUNT gp)))
  (fun l => Z.of_nat (length l) = CORE_COUNT gp).
Proof using laws Hgp.
  pose proof Hgp as [_ Hcores _]. eapply safe_weaken; [apply (frozen_collect _ _ (fun _ => True))|].
  - intros i _. eapply safe_bind; [by apply frozen_read|]. intros b [Hb Hl]. cbn in Hb, Hl. apply frozen_decode.
    destruct (U32_total b Hb) as (x & -> & _); [unfold blen in Hl; lia|by eexists].
  - intros l [_ Hl]. cbn in Hl. rewrite Hl, length_py_range. lia.
Qed.

Lemma frozen_gas_table c o n : frozen c (collect (fun idx => let offset := o + idx * 12 in
      b ← read offset 4; service_idx ← decode_with U32_decode b;
      b ← read (offset + 4) 8; gas ← decode_with U64_decode b;
      mret (service_idx, gas)) (py_range 0 n)) (fun _ => True).
Proof using laws.
  eapply safe_weaken; [apply (frozen_collect _ _ (fun _ => True))|done]. intros i _. cbv zeta.
  eapply safe_bind; [by apply frozen_read|]. intros b [Hb Hl]. cbn in Hb, Hl.
  eapply (safe_bind _ _ _ _ _ _ (fun _ => True)).
  { apply frozen_decode. destruct (U32_total b Hb) as (x & -> & _); [unfold blen in Hl; lia|by eexists]. }
  intros idx _. eapply safe_bind; [by apply frozen_read|]. intros b' [Hb' Hl']. cbn in Hb', Hl'.
  eapply (safe_bind _ _ _ _ _ _ (fun _ => True)); [|intros; by apply safe_ret].
  apply frozen_decode. destruct (U64_total b' Hb') as (x & -> & _); [unfold blen in Hl'; lia|by eexists].
Qed.

Lemma hc_bless_ends c : reached c -> ends c (hc_bless gp compat regs).
Proof using Hregs Hgp laws.
  intros Hc. apply ends_hostcall; [done|apply item_count_cost; lia|].
  apply ends_reg; [lia|intros m _ Hm]. reg. apply ends_reg; [lia|intros w _ Hw]. apply ends_reg; [lia|intros r _ Hr]. do 2 reg.
  unfold is_u64 in *.
  eapply (ends_bind _ _ _ (fun o => forall l, o = Some l -> Z.of_nat (length l) = CORE_COUNT gp)); [done| |].
  { eapply (safe_bind _ _ _ _ _ _ (fun _ => True)); [apply safe_accessible; by left|].
    intros [] _; [by apply frozen_try_mem, frozen_assigners|by apply safe_ret]. }
  intros new Hnew. eapply ends_if_readable; [done|apply frozen_gas_table| |apply ends_item; destruct new; by apply ends_panic].
  intros auto _. apply ends_item. destruct new as [l|]; [|by apply ends_panic].
  destruct (Z.eqb_spec (service_account_id (context c)) (manager (privileged_services (state_context (context c))))) as [Hman|Hman];
    destruct compat eqn:Hcompat; cbn [negb andb]; try by apply ends_reply.
  all: destruct (Z.leb_spec (2 ^ 32) m), (Z.leb_spec (2 ^ 32) w), (Z.leb_spec (2 ^ 32) r); cbn [orb]; try by apply ends_reply.
  all: apply (ends_silent _ _ _ tt); [by apply silent_reply|].
  all: eapply ends_runs_last; [apply runs_change|]; (eapply reached_to; [exact Hc|apply (step_bless _ _ _ _ _ m l w r)|done]);
    [auto|unfold u32; lia..|by apply Hnew].
Qed.

Lemma get_item_at {B} (l : list B) i : 0 <= i < Z.of_nat (length l) -> exists v, get_item l i = Ret v /\ l !! Z.to_nat i = Some v.
Proof using.
  intros Hi. unfold get_item. rewrite py_index_nonneg by lia. destruct (lookup_lt_is_Some_2 l (Z.to_nat i)) as [v Hv]; [lia|].
  exists v. by rewrite Hv.
Qed.

Lemma set_item_at {B} (l : list B) i v : 0 <= i < Z.of_nat (length l) -> set_item l i v = Ret (<[Z.to_nat i := v]> l).
Proof using. intros Hi. unfold set_item. by rewrite py_set_nonneg by lia. Qed.

Lemma runs_lift {B} c (o : outcome exn B) v : o = Ret v -> runs c (lift o) v c.
Proof using. intros -> [] Hs. cbn in Hs. by subst. Qed.

Lemma hc_assign_ends c : reached c -> ends c (hc_assign gp regs).
Proof using Hregs Hgp.
  intros Hc. destruct (reached_item c Hc) as [Hwf _]. pose proof Hwf as [_ _ _ Has Hqs _ _]. pose proof Hgp as [_ _ Hqueue].
  fixed Hc. apply ends_reg; [lia|intros core _ Hcore]. reg. apply ends_reg; [lia|intros a _ Ha]. unfold is_u64 in *.
  eapply (ends_if_readable _ _ _ _ _ (fun l => Forall hash_ok l /\ Z.of_nat (length l) = MAXIMUM_AUTHORIZATION_QUEUE_ITEMS gp));
    [done| | |by apply ends_panic].
  { eapply safe_weaken; [apply (frozen_collect _ _ hash_ok)|].
    - intros i _. eapply safe_weaken; [by apply frozen_read|]. intros b [Hb Hl]. by apply read_hash_ok.
    - intros l [Hl Hn]. cbn in Hn. split; [done|]. rewrite Hn, length_py_range. lia. }
  intros queue [Hq Hn]. destruct (Z.leb_spec (CORE_COUNT gp) core); [by apply ends_reply|]. apply ends_item. cbv zeta.
  destruct (get_item_at (assigners (privileged_services (state_context (context c)))) core) as (assigner & Hget & Hat); [lia|].
  eapply ends_runs; [by apply runs_lift; rewrite Hget|].
  destruct (Z.eqb_spec (service_account_id (context c)) assigner) as [He|]; cbn [negb]; [|by apply ends_reply].
  destruct (Z.leb_spec (2 ^ 32) a); [by apply ends_reply|].
  apply (ends_silent _ _ _ tt); [by apply silent_reply|].
  eapply ends_runs; [apply runs_lift; rewrite set_item_at by lia; reflexivity|].
  eapply ends_runs; [apply runs_change|].
  eapply ends_runs; [apply runs_lift; rewrite set_item_at by lia; reflexivity|].
  eapply ends_runs_last; [apply runs_change|].
  eapply reached_to; [exact Hc|apply (step_assign _ _ _ _ _ core queue a); try done; [lia|by rewrite He|unfold u32; lia]|done].
Qed.

Lemma hc_designate_ends c : reached c -> ends c (hc_designate vdecode gp regs).
Proof using Hregs.
  intros Hc. apply ends_hostcall; [done|apply item_count_cost; lia|]. reg. apply ends_reg; [lia|intros count _ Hcount]. unfold is_u64 in *.
  apply ends_accessible; [by left|intros []]; cbn [negb]; [|by apply ends_panic].
  destruct (Z.ltb_spec count 6), (Z.ltb_spec (3 * CORE_COUNT gp) count), (Z.eqb_spec (count mod 3) 0); cbn [orb negb]; try by apply ends_reply.
  eapply (ends_if_readable _ _ _ _ _ (fun l => Z.of_nat (length l) = count)); [done| | |by apply ends_panic].
  { eapply safe_weaken; [apply (frozen_collect _ _ (fun _ => True))|].
    - intros i _. eapply safe_bind; [by apply frozen_read|]. intros b _. by apply safe_ret.
    - intros l [_ Hn]. cbn in Hn. rewrite Hn, length_py_range. lia. }
  intros queue Hn. apply ends_item.
  destruct (Z.eqb_spec (service_account_id (context c)) (delegator (privileged_services (state_context (context c))))); cbn [negb]; [|by apply ends_reply].
  apply (ends_silent _ _ _ tt); [by apply silent_reply|]. eapply ends_runs_last; [apply runs_change|].
  eapply reached_to; [exact Hc|apply (step_designate _ _ _ _ _ queue)|done]; [done|].
  rewrite Hn. unfold valid_validator_count. destruct (Z.leb_spec 6 count), (Z.leb_spec count (3 * CORE_COUNT gp)), (Z.eqb_spec (count mod 3) 0); done || lia.
Qed.

Lemma hc_checkpoint_ends c : g0 < 2 ^ 64 -> reached c -> ends c (hc_checkpoint regs).
Proof using.
  intros Hg0 Hc. fixed Hc. intros s Hs. pose proof Hs as (_ & Hg & _). apply wp_bind. eapply wp_run; [done|]. revert s Hs Hg.
  assert (forall g, 0 <= g < 2 ^ 64 -> ends c (
    put_register 7 (if g <? 0 then 2 ^ 64 + g else g) ≫= fun _ =>
    exit_with ExitReason.resume ≫= fun _ =>
    modify (fun s => set_ctx (mkAccumulateContext (context (ca_ctx s)) (context (ca_ctx s)) (timeslot (ca_ctx s))) s))) as Hk.
  2: { intros s Hs Hg. apply (Hk (ca_gas s)); [lia|done]. }
  intros g Hg. apply (ends_silent _ _ _ tt).
  { apply silent_put_register; [lia|]. unfold is_u64. destruct (Z.ltb_spec g 0); lia. }
  apply (ends_silent _ _ _ tt); [apply silent_exit; by right|].
  apply (ends_runs_last c (mkAccumulateContext (context c) (context c) (timeslot c)) _ tt).
  { intros [] Hs. cbn in Hs. by subst. }
  destruct Hc as [[Hwf Hcalls] Hb]. assert (call_step hash gp compat t c (mkAccumulateContext (context c) (context c) (timeslot c))) as Hcall.
  { destruct c as [x0 y t0]. pose proof (cw_timeslot _ _ _ _ Hwf) as Ht. cbn in Ht |- *. subst t0. by constructor. }
  split; [split; [by eapply call_step_wf|by eapply rtc_r]|]. unfold sent in *. cbn. lia.
Qed.

(** ** New identifiers *)

Lemma next_candidate (r k : Z) : 0 <= r -> 0 <= k ->
  next_service_id (MINIMUM_PUBLIC_SERVICE_ID + (r + k) mod PUBLIC_SERVICE_IDS) = MINIMUM_PUBLIC_SERVICE_ID + (r + k + 1) mod PUBLIC_SERVICE_IDS.
Proof using.
  intros Hr Hk. unfold next_service_id. change (2 ^ 32 - 2 ^ 8 - MINIMUM_PUBLIC_SERVICE_ID) with PUBLIC_SERVICE_IDS.
  replace (MINIMUM_PUBLIC_SERVICE_ID + (r + k) mod PUBLIC_SERVICE_IDS - MINIMUM_PUBLIC_SERVICE_ID + 1) with ((r + k) mod PUBLIC_SERVICE_IDS + 1) by lia.
  rewrite Zplus_mod_idemp_l. lia.
Qed.

(** The identifier found is one of the first candidates, and free. *)
Lemma check_service_id_spec depth st r k : readable hash st -> 0 <= r -> 0 <= k ->
  match check_service_id depth (MINIMUM_PUBLIC_SERVICE_ID + (r + k) mod PUBLIC_SERVICE_IDS) st with
  | Ret n => fresh_id st n /\ exists j, k <= j < k + Z.of_nat depth /\ n = MINIMUM_PUBLIC_SERVICE_ID + (r + j) mod PUBLIC_SERVICE_IDS
  | Raise e => e = RecursionDepth
  end.
Proof using.
  intros Hst Hr. revert k. induction depth as [|depth IH]; intros k Hk; [done|]. cbn [check_service_id].
  set (id := MINIMUM_PUBLIC_SERVICE_ID + _). assert (MINIMUM_PUBLIC_SERVICE_ID <= id < MINIMUM_PUBLIC_SERVICE_ID + PUBLIC_SERVICE_IDS) as Hid.
  { pose proof (Z.mod_pos_bound (r + k) PUBLIC_SERVICE_IDS eq_refl). unfold id. lia. }
  pose proof (rd_account _ _ Hst id ltac:(unfold MINIMUM_PUBLIC_SERVICE_ID in Hid; lia)) as Ha.
  destruct (retrieve_service_account id true st) as [a|e] eqn:Hret; cbn in Ha.
  - unfold id. rewrite next_candidate by done. rewrite <- Z.add_assoc. specialize (IH (k + 1) ltac:(lia)).
    destruct (check_service_id _ _ _); [|done]. destruct IH as (Hf & j & Hj & ->). split; [done|]. exists j. split; [lia|done].
  - subst e. split; [by split|]. exists k. split; [lia|done].
Qed.

(** A new identifier differs from the one it replaces. *)
Lemma updated_fresh st n : Z.of_nat stack < 2 ^ 31 -> readable hash st -> fresh_id st n ->
  match check_service_id stack (updated_service_id n) st with
  | Ret next => fresh_id st next /\ next <> n
  | Raise e => e = RecursionDepth
  end.
Proof using.
  intros Hstack Hst [Hn _]. unfold updated_service_id. change (2 ^ 32 - MINIMUM_PUBLIC_SERVICE_ID - 2 ^ 8) with PUBLIC_SERVICE_IDS.
  pose proof (check_service_id_spec stack st (n - MINIMUM_PUBLIC_SERVICE_ID) 42 Hst ltac:(lia) ltac:(lia)) as Hcheck.
  destruct (check_service_id _ _ _) as [next|e]; [|done]. destruct Hcheck as (Hf & j & Hj & ->). split; [done|]. intros He.
  assert ((n - MINIMUM_PUBLIC_SERVICE_ID + j) mod PUBLIC_SERVICE_IDS = n - MINIMUM_PUBLIC_SERVICE_ID) as Hm by lia.
  assert (PUBLIC_SERVICE_IDS = 4294901504) as HP by done.
  pose proof (Z.div_mod (n - MINIMUM_PUBLIC_SERVICE_ID + j) PUBLIC_SERVICE_IDS ltac:(lia)) as Hd. rewrite Hm in Hd.
  set (q := (n - MINIMUM_PUBLIC_SERVICE_ID + j) / PUBLIC_SERVICE_IDS) in *. rewrite HP in Hd. lia.
Qed.

(** The end of [new]: the identifier is answered, the two accounts and the request for the code
    are stored. *)
Lemma new_store_ends c id next a h l g m f : reached c -> 
  let x := context c in let n := new_account gp h l g m f t (service_account_id x) in
  retrieve_service_account (service_account_id x) true (services (state_context x)) = Ret a -> hash_ok h -> 0 < l < 2 ^ 32 ->
  f = 0 \/ service_account_id x = manager (privileged_services (state_context x)) ->
  threshold_balance gp a <= balance a - threshold_balance gp n ->
  (id = new_service_account_id x /\ fresh_id (services (state_context x)) next /\ next <> id) \/
  (0 <= id < MINIMUM_PUBLIC_SERVICE_ID /\ service_account_id x = registrar (privileged_services (state_context x)) /\
   retrieve_service_account id true (services (state_context x)) = Raise StateKeyNoResult /\ next = new_service_account_id x) ->
  ends (at_item c (set_new_id next x)) (
    put_register 7 id ≫= fun _ =>
    update (store_service_account (service_account_id x) (set_balance (balance a - threshold_balance gp n) a) false) ≫= fun _ =>
    update (store_service_account id n false) ≫= fun _ => update (store_preimage_availability hash id h l [] false)).
Proof using Hlen.
  intros Hc x n Ha Hh Hl Hf Hle Hcase. destruct (reached_item c Hc) as [Hwf _]. pose proof Hwf as [Hid _ _ _ _ _ _].
  destruct (new_id_free _ _ _ _ _ _ Hwf Hcase) as (Hid' & _).
  apply (ends_silent _ _ _ tt); [apply silent_put_register; [lia|unfold is_u64, service_id in *; lia]|].
  eapply ends_runs; [apply runs_update, store_account_run, Hid|]. eapply ends_runs; [apply runs_update, store_account_run, Hid'|].
  eapply ends_runs_last; [apply runs_update, store_availability_run; [done|done|lia]|].
  eapply reached_to; [exact Hc|apply (step_new _ _ _ _ _ id a h l g m f next); done|done].
Qed.

Lemma frozen_new_code c l o : frozen c (if (0 <? l) && (l <? 2 ^ 32) then if_readable o 32 (read o 32) else mret None)
  (fun r => forall b, r = Some b -> hash_ok b /\ 0 < l < 2 ^ 32).
Proof using.
  destruct (Z.ltb_spec 0 l), (Z.ltb_spec l (2 ^ 32)); cbn [andb]; try by apply safe_ret.
  eapply (safe_bind _ _ _ _ _ _ (fun _ => True)); [apply safe_accessible; by left|]. intros [] _; [|by apply safe_ret].
  eapply safe_weaken; [apply frozen_try_mem; by apply frozen_read|]. intros r Hr b Hb. split; [|done]. by apply read_hash_ok; apply (Hr b Hb).
Qed.

(** The choice of the identifier: the registrar's, or the next free one. *)
Lemma new_choice_ends c i own_choice (k : Z -> A unit) : Z.of_nat stack < 2 ^ 31 -> reached c -> 0 <= i ->
  let x := context c in
  (own_choice = true -> i < MINIMUM_PUBLIC_SERVICE_ID /\ service_account_id x = registrar (privileged_services (state_context x))) ->
  (forall id next,
    (id = new_service_account_id x /\ fresh_id (services (state_context x)) next /\ next <> id) \/
    (0 <= id < MINIMUM_PUBLIC_SERVICE_ID /\ service_account_id x = registrar (privileged_services (state_context x)) /\
     retrieve_service_account id true (services (state_context x)) = Raise StateKeyNoResult /\ next = new_service_account_id x) ->
    ends (at_item c (set_new_id next x)) (k id)) ->
  ends c (
    full ← (if own_choice then ask (service_exists i true) else mret false);
    if full : bool then reply HostCallResult.FULL
    else
      exit_with ExitReason.resume ≫= fun _ =>
      new_service_id ← (if own_choice then mret i
        else
          next ← ask (check_service_id stack (updated_service_id (new_service_account_id x)));
          change (set_new_id next) ≫= fun _ => mret (new_service_account_id x));
      k new_service_id).
Proof using.
  intros Hstack Hc Hi x Hown Hk. destruct (reached_item c Hc) as [[_ _ Hr _ _ Hnew _] _]. fold x in Hr, Hnew.
  destruct own_choice.
  - destruct (Hown eq_refl) as [Hlow Hreg]. pose proof (rd_account _ _ Hr i Hi) as Hans.
    destruct (retrieve_service_account i true (services (state_context x))) as [b|e] eqn:Hret; cbn in Hans.
    + eapply (ends_ask _ _ _ true); [unfold service_exists; fold x; by rewrite Hret|]. by apply ends_reply.
    + subst e. eapply (ends_ask _ _ _ false); [unfold service_exists; fold x; by rewrite Hret|].
      apply (ends_silent _ _ _ tt); [apply silent_exit; by right|].
      apply (ends_runs c (at_item c (set_new_id (new_service_account_id x) x)) _ _ i).
      * intros [] Hs. cbn in Hs. subst. by destruct c as [[]].
      * apply Hk. right. split; [lia|done].
  - apply (ends_runs c c _ _ false); [apply runs_ret|]. apply (ends_silent _ _ _ tt); [apply silent_exit; by right|].
    pose proof (updated_fresh _ _ Hstack Hr Hnew) as Hup.
    destruct (check_service_id stack (updated_service_id (new_service_account_id x)) (services (state_context x))) as [next|e] eqn:Hcheck.
    + apply (ends_runs c (at_item c (set_new_id next x)) _ _ (new_service_account_id x)).
      * intros [] Hs. cbn in Hs. subst. unfold ask, item_of. rewrite eff_bind_run. cbn. fold x. by rewrite Hcheck.
      * apply Hk. by left.
    + eapply (ends_raises _ _ _ RecursionError); [done|right; by left|]. intros [] Hs. cbn in Hs. subst.
      unfold ask, item_of. rewrite eff_bind_run. cbn. fold x. by rewrite Hcheck.
Qed.

Lemma hc_new_ends c : Z.of_nat stack < 2 ^ 31 -> reached c -> ends c (hc_new hash gp stack regs).
Proof using Hregs Hlen.
  intros Hstack Hc. destruct (reached_item c Hc) as [_ Ht].
  fixed Hc. reg. apply ends_reg; [lia|intros l _ Hl]. apply ends_reg; [lia|intros g _ Hg]. apply ends_reg; [lia|intros m _ Hm].
  apply ends_reg; [lia|intros f _ Hf]. apply ends_reg; [lia|intros i _ Hi]. unfold is_u64 in *.
  eapply ends_bind; [done|apply frozen_new_code|].
  intros [h|] Hh; (apply ends_item, ends_timeslot); [|by apply ends_panic]. destruct (Hh h eq_refl) as [Hhash Hl']. rewrite Ht.
  cbv zeta. apply ends_own; [done|intros a Ha _]. set (x := context c) in *. set (n := new_account gp h l g m f t (service_account_id x)).
  destruct (negb (f =? 0) && negb (service_account_id x =? manager (privileged_services (state_context x)))) eqn:Hpriv; [by apply ends_reply|].
  assert (f = 0 \/ service_account_id x = manager (privileged_services (state_context x))) as Hf'.
  { destruct (Z.eqb_spec f 0); [by left|]. destruct (Z.eqb_spec (service_account_id x) (manager (privileged_services (state_context x)))); [by right|done]. }
  destruct (Z.ltb_spec (balance a - threshold_balance gp n) (threshold_balance gp a)) as [|Hle]; [by apply ends_reply|].
  apply new_choice_ends; [done|done|lia| |].
  - fold x. destruct (Z.eqb_spec (service_account_id x) (registrar (privileged_services (state_context x)))),
      (Z.ltb_spec i MINIMUM_PUBLIC_SERVICE_ID); done.
  - intros id next Hcase. by apply (new_store_ends c id next a h l g m f Hc Ha Hhash Hl' Hf' Hle).
Qed.

(** Reading any number of bytes gives bytes, as many as asked for. *)
Lemma frozen_read_any c a n : 0 <= n -> frozen c (read a n) (fun b => List.Forall is_byte b /\ blen b = n).
Proof using.
  intros Hn. destruct (Z.eqb_spec n 0) as [->|]; [|apply frozen_read; lia].
  eapply safe_weaken; [apply (safe_on_mem _ _ _ _ _ (fun b => b = []))|by intros ? ->]. intros m Hm.
  unfold read_bytes. destruct (_ || _); cbn; [by split_and!; [| |left]|done].
Qed.

(** ** Preimages *)

Lemma hc_yield_ends c : reached c -> ends c (hc_yield regs).
Proof using Hregs.
  intros Hc. fixed Hc. reg. apply ends_accessible; [by left|intros []]; [|by apply ends_panic].
  eapply ends_bind; [done|by apply frozen_read|]. intros b [Hb Hl].
  apply (ends_silent _ _ _ tt); [by apply silent_reply|]. eapply ends_runs_last; [apply runs_change|].
  eapply reached_to; [exact Hc|apply step_yield, (read_hash_ok b); done|done].
Qed.

(** What [query] answers fits the registers. *)
Lemma slots_word (tag s : Z) : 0 <= tag < 2 ^ 32 -> u32 s -> is_u64 (tag + 2 ^ 32 * s).
Proof using. unfold u32, is_u64. lia. Qed.

Lemma hc_query_ends c : reached c -> ends c (hc_query hash regs).
Proof using Hregs.
  intros Hc. destruct (reached_item c Hc) as [Hwf Ht]. pose proof Hwf as [Hid _ _ _ _ _ _].
  fixed Hc. apply ends_reg; [lia|intros l _ Hl]. destruct (Z.leb_spec U32_MAX l); [by apply ends_reply|]. reg.
  apply ends_item, ends_try_read; [done|lia| |by apply ends_panic]. intros h _ _.
  assert (forall v w, is_u64 v -> is_u64 w -> ends c (reply v ≫= fun _ => put_register 8 w)) as Hanswer.
  { intros answer w Hv Hw. eapply ends_silent_last; [done|]. eapply silent_bind; [by apply silent_reply|by apply silent_put_register]. }
  unfold is_u64, service_id in *. apply ends_availability; [done|lia|lia| |intros _; by apply Hanswer].
  intros slots _ Hs. destruct slots as [|s0 [|s1 [|s2 [|? ?]]]]; repeat (apply List.Forall_cons_iff in Hs as [? Hs]);
    try (by apply ends_panic); apply Hanswer; try done; try (by apply slots_word); unfold u32 in *; lia.
Qed.

Lemma hc_solicit_ends c : reached c -> ends c (hc_solicit hash gp regs).
Proof using Hregs Hlen.
  intros Hc. destruct (reached_item c Hc) as [Hwf Ht]. pose proof Hwf as [Hid _ _ _ _ _ _].
  fixed Hc. apply ends_reg; [lia|intros l _ Hl]. destruct (Z.leb_spec U32_MAX l); [by apply ends_reply|].
  apply ends_item, ends_timeslot. rewrite Ht. cbv zeta. apply ends_own; [done|intros a Ha _]. reg.
  apply ends_try_read; [done|lia| |by apply ends_panic]. intros h Hb Hh. unfold is_u64, U32_MAX, service_id in *.
  apply ends_availability; [done|lia|lia| |].
  - intros slots Hav _. destruct slots as [|s0 [|s1 [|? ?]]]; try by apply ends_reply.
    destruct (Z.ltb_spec (balance a) (threshold_balance gp a)); [by apply ends_reply|].
    apply (ends_silent _ _ _ tt); [by apply silent_reply|].
    eapply ends_runs; [apply runs_update, store_availability_run; [done|done|lia]|].
    eapply ends_runs_last; [apply runs_update, store_account_run, Hid|].
    eapply reached_to; [exact Hc|apply (step_solicit_again _ _ _ _ _ a h l s0 s1); [done|lia|done|done]|done].
  - intros Hav. destruct (Z.ltb_spec (balance (update_footprint_add_preimage l a)) (threshold_balance gp (update_footprint_add_preimage l a)));
      [by apply ends_reply|].
    apply (ends_silent _ _ _ tt); [by apply silent_reply|].
    eapply ends_runs; [apply runs_update, store_availability_run; [done|done|lia]|].
    eapply ends_runs_last; [apply runs_update, store_account_run, Hid|].
    eapply reached_to; [exact Hc|apply (step_solicit_new _ _ _ _ _ a h l); [done|by apply read_hash_ok|lia|done|done]|done].
Qed.

Lemma hc_forget_ends c : reached c -> ends c (hc_forget hash gp regs).
Proof using Hregs Hlen.
  intros Hc. destruct (reached_item c Hc) as [Hwf Ht]. pose proof Hwf as [Hid _ _ _ _ _ _].
  fixed Hc. apply ends_reg; [lia|intros l _ Hl]. destruct (Z.leb_spec U32_MAX l); [by apply ends_reply|]. reg.
  apply ends_item, ends_timeslot. rewrite Ht. cbv zeta. apply ends_own; [done|intros a Ha _].
  apply ends_try_read; [done|lia| |by apply ends_panic]. intros h Hb Hh. unfold is_u64, U32_MAX, service_id in *.
  assert (forall (m : A bool) x', runs c m true (at_item c x') -> item_step hash gp compat t (context c) x' ->
    deferred_transfers x' = deferred_transfers (context c) ->
    ends c (m ≫= fun b : bool => reply (if b then HostCallResult.OK else HostCallResult.HUH))) as Hdone.
  { intros m x' Hm Hs Hd. eapply ends_runs; [exact Hm|]. apply ends_reply; [by apply reached_step|done]. }
  assert (ends c (mret false ≫= fun b : bool => reply (if b then HostCallResult.OK else HostCallResult.HUH))) as Hno.
  { eapply (ends_runs c c _ _ false); [apply runs_ret|by apply ends_reply]. }
  apply ends_availability; [done|lia|lia| |done]. intros slots Hav _.
  assert (forall slots', item_step hash gp compat t (context c)
      (set_services (put_availability (service_account_id (context c)) h l (Some slots') (services (state_context (context c)))) (context c)) ->
    ends c ((update (store_preimage_availability hash (service_account_id (context c)) h l slots' false) ≫= fun _ => mret true)
      ≫= fun b : bool => reply (if b then HostCallResult.OK else HostCallResult.HUH))) as Hmark.
  { intros slots' Hs. eapply Hdone; [|exact Hs|done].
    eapply runs_bind; [apply runs_update, store_availability_run; [done|done|lia]|apply runs_ret]. }
  assert (slots = [] \/ (exists slot removed, slots = [slot; removed] /\ expunged gp t removed) ->
    ends c ((update (delete_preimage_availability hash (service_account_id (context c)) h l false) ≫= fun _ =>
      update (delete_preimage hash (service_account_id (context c)) h false) ≫= fun _ =>
      update (store_service_account (service_account_id (context c)) (update_footprint_remove_preimage l a) false) ≫= fun _ => mret true)
      ≫= fun b : bool => reply (if b then HostCallResult.OK else HostCallResult.HUH))) as Hdrop.
  { intros Hcase. set (id := service_account_id (context c)) in *.
    apply (Hdone _ (set_services (put_account id (Some (update_footprint_remove_preimage l a))
      (put_preimage id h None (put_availability id h l None (services (state_context (context c)))))) (context c)));
      [|apply (step_forget_drop _ _ _ _ _ a h l slots); [done|lia|done|exact Hcase]|done].
    eapply runs_bind; [apply runs_update, delete_availability_run; [done|done|lia]|].
    eapply runs_bind; [apply runs_update, delete_preimage_run; done|].
    eapply runs_bind; [apply runs_update, store_account_run; done|apply runs_ret]. }
  destruct slots as [|s0 [|s1 [|s2 [|? ?]]]]; [by apply Hdrop; left| | | |done].
  - apply Hmark, (step_forget_mark _ _ _ _ _ h l [s0]); [lia|done|]. left. by exists s0.
  - destruct (Z.ltb_spec s1 (t - PREIMAGE_EXPUNGE_TIMESLOTS gp)); [|done]. apply Hdrop. right. by exists s0, s1.
  - destruct (Z.ltb_spec s1 (t - PREIMAGE_EXPUNGE_TIMESLOTS gp)); [|done].
    apply Hmark, (step_forget_mark _ _ _ _ _ h l [s0; s1; s2]); [lia|done|]. right. by exists s0, s1, s2.
Qed.

Lemma hc_eject_ends c : reached c -> ends c (hc_eject hash gp regs).
Proof using Hregs Hlen.
  intros Hc. destruct (reached_item c Hc) as [Hwf Ht]. pose proof Hwf as [Hid _ _ _ _ _ _].
  fixed Hc. apply ends_reg; [lia|intros d _ Hd]. reg. unfold is_u64 in *.
  eapply ends_bind; [done|apply frozen_try_mem; by apply frozen_read|]. intros key Hkey.
  apply ends_item, ends_timeslot. rewrite Ht. cbv zeta. apply ends_own; [done|intros a Ha _].
  destruct key as [h|]; [|by apply ends_panic]. destruct (Hkey h eq_refl) as [Hb Hh].
  destruct (Z.eqb_spec d (service_account_id (context c))) as [|Hne]; cbn [negb].
  { apply (ends_runs c c _ _ None); [apply runs_ret|]. apply (ends_runs c c _ _ None); [apply runs_ret|]. by apply ends_reply. }
  apply ends_account; [done|lia|intros b Hret _|].
  2: { apply (ends_runs c c _ _ None); [apply runs_ret|]. by apply ends_reply. }
  set (l := Z.max 81 (footprint_storage_bytes b) - 81). apply ends_availability; [done|lia|lia|intros slots Hav _|intros _];
    (case_bool_decide as Hcode; cbn [negb]; [|by apply ends_reply]); [|by apply ends_reply].
  destruct (Z.eqb_spec (footprint_storage_items b) 2) as [Hitems|]; cbn [negb]; [|by apply ends_reply].
  destruct slots as [|s0 [|s1 [|? ?]]]; try by apply ends_reply.
  destruct (Z.ltb_spec s1 (t - PREIMAGE_EXPUNGE_TIMESLOTS gp)) as [Hexp|]; [|by apply ends_reply].
  assert (service_id d) as Hd' by (eapply account_exists_u32; [|exact Hret]; lia).
  pose proof (availability_length _ _ _ _ _ _ Hav) as Hlt.
  apply (ends_silent _ _ _ tt); [by apply silent_reply|].
  eapply ends_runs; [apply runs_update, delete_preimage_run; done|].
  eapply ends_runs; [apply runs_update, delete_availability_run; [done|done|lia]|].
  eapply ends_runs; [apply runs_update, delete_account_run; done|].
  eapply ends_runs_last; [apply runs_update, store_account_run, Hid|].
  eapply reached_to; [exact Hc|apply (step_eject _ _ _ _ _ a b d h s0 s1); try done; lia|done].
Qed.

Lemma hc_provide_ends c : reached c -> ends c (hc_provide hash regs).
Proof using Hregs.
  intros Hc. destruct (reached_item c Hc) as [Hwf Ht]. pose proof Hwf as [Hid _ _ _ _ _ _].
  apply ends_hostcall; [done|apply by_size_safe; [done|lia|repeat constructor; cbn; lia]|].
  apply ends_reg; [lia|intros l _ Hl]. destruct (Z.leb_spec U32_MAX l); [by apply ends_reply|]. reg.
  apply ends_reg; [lia|intros r7 _ Hr7]. unfold is_u64, U32_MAX, service_id in *. apply ends_item. cbv zeta.
  set (id := if r7 =? 2 ^ 64 - 1 then service_account_id (context c) else r7).
  assert (0 <= id) as Hpos by (subst id; destruct (_ =? _); lia).
  apply ends_accessible; [by left|intros ok].
  eapply (ends_bind _ _ _ (fun o => forall b, o = Some b -> List.Forall is_byte b /\ blen b = l)); [done| |].
  { destruct ok; [|by apply safe_ret]. eapply safe_bind; [apply frozen_read_any; lia|]. intros b Hb. apply safe_ret. by intros ? [= <-]. }
  intros blob Hblob. apply ends_account; [done|done|intros a Ha _|].
  2: { destruct blob as [b|]; [|apply (ends_runs c c _ _ None); [apply runs_ret|by apply ends_panic]].
       apply ends_availability; [done|done|lia| |]; intros; by apply ends_reply. }
  destruct blob as [b|]; [|apply (ends_runs c c _ _ None); [apply runs_ret|by apply ends_panic]].
  destruct (Hblob b eq_refl) as [Hbytes Hbl]. unfold blen in Hbl.
  apply ends_availability; [done|done|lia|intros slots Hav _|intros _]; [|by apply ends_reply].
  case_bool_decide as Hslots; cbn [negb]; [|by apply ends_reply]. injection Hslots as ->.
  case_bool_decide as Hin; [by apply ends_reply|].
  apply (ends_silent _ _ _ tt); [by apply silent_reply|]. eapply ends_runs_last; [apply runs_change|].
  eapply reached_to; [exact Hc|apply (step_provide _ _ _ _ _ id b); [done|by eexists| |by rewrite Hbl|done]|done].
  split; [done|lia].
Qed.

(** ** Look-ups *)

Lemma frozen_ask_opt {B} c (f : ServicesState -> outcome state_exn B) Φ : answers Φ (f (services (state_context (context c)))) ->
  frozen c (ask_opt f) (fun o => forall v, o = Some v -> Φ v).
Proof using.
  intros Ha s Hs. pose proof Hs as ([_ _ _ _ _ [_ Hx]] & _). unfold wp, ask_opt, item_of. rewrite Hx.
  destruct (f _) as [v|e]; cbn in Ha; [|subst e]; (split; [done|]); [by intros ? [= <-]|done].
Qed.

Lemma frozen_account c id : reached c -> 0 <= id ->
  frozen c (ask_opt (fun st => retrieve_service_account id true st)) (fun o => forall a, o = Some a -> hash_ok (code_hash a)).
Proof using. intros Hc Hid. destruct (reached_item c Hc) as [[_ _ [R _ _ _] _ _ _ _] _]. by apply frozen_ask_opt, R. Qed.

Lemma opt_data (o : option bytes) : (forall v, o = Some v -> data_ok v) -> opt_blob_ok o.
Proof using. destruct o as [v|]; [|done]. intros Hv. by apply (Hv v). Qed.

Lemma register_service r7 : is_u64 r7 -> service_id (r7 mod U32_MAX).
Proof using. intros _. unfold service_id, U32_MAX. apply Z.mod_pos_bound. lia. Qed.

Lemma hc_lookup_ends c a : reached c -> ends c (hc_lookup hash a (service_account_id (context c)) regs).
Proof using Hregs.
  intros Hc. destruct (reached_item c Hc) as [[Hid _ [_ _ Hpre _] _ _ _ _] _].
  apply ends_hostcall; [done|apply by_size_safe; [done|lia|repeat constructor; cbn; lia]|].
  apply ends_reg; [lia|intros r7 _ Hr7]. pose proof (register_service r7 Hr7) as Hid'.
  eapply (ends_bind _ _ _ (fun p => service_id p.1)); [done| |].
  { destruct (_ || _); [by apply safe_ret|]. eapply safe_bind; [apply frozen_account; [done|apply Hid']|]. intros o _. by apply safe_ret. }
  intros [id account] Hid''. cbn in Hid''. do 2 reg. apply ends_accessible; [by left|intros readable].
  eapply (ends_bind _ _ _ opt_blob_ok); [done| |].
  { destruct account; [|by apply safe_ret]. destruct readable; [|by apply safe_ret].
    eapply safe_bind; [by apply frozen_read|]. intros h _.
    eapply safe_weaken; [by apply frozen_ask_opt, Hpre|]. intros o Ho. by apply opt_data. }
  intros found Hfound. do 2 reg. by apply ends_deliver.
Qed.

Lemma hc_read_ends c a : reached c -> ends c (hc_read hash a (service_account_id (context c)) regs).
Proof using Hregs.
  intros Hc. destruct (reached_item c Hc) as [[Hid _ [_ Hitem _ _] _ _ _ _] _].
  apply ends_hostcall; [done|apply by_size_safe; [done|lia|repeat constructor; cbn; lia]|].
  apply ends_reg; [lia|intros r7 _ Hr7]. pose proof (register_service r7 Hr7) as Hid'. cbv zeta.
  set (target := if r7 =? U64_MAX - 1 then service_account_id (context c) else r7 mod U32_MAX).
  assert (service_id target) as Htarget by (subst target; by destruct (_ =? _)). clearbody target.
  eapply (ends_bind _ _ _ (fun _ => True)); [done| |].
  { destruct (_ =? _); [by apply safe_ret|]. eapply safe_weaken; [apply frozen_account; [done|apply Htarget]|done]. }
  intros account _. reg. apply ends_reg; [lia|intros z _ Hz]. reg. unfold is_u64 in Hz.
  eapply ends_bind; [done|apply frozen_try_mem, (frozen_read_any c v z); lia|]. intros key _.
  eapply (ends_bind _ _ _ opt_blob_ok); [done| |].
  { destruct key as [k|]; [|by apply safe_ret]. destruct account; [|by apply safe_ret].
    eapply safe_weaken; [by apply frozen_ask_opt, Hitem|]. intros o Ho. by apply opt_data. }
  intros found Hfound. do 2 reg. by apply ends_deliver.
Qed.

Lemma hc_write_ends c : reached c -> ends c (hc_write hash gp (service_account_id (context c)) regs).
Proof using Hregs Hlen.
  intros Hc. destruct (reached_item c Hc) as [Hwf Ht]. pose proof Hwf as [Hid _ [_ Hitem _ _] _ _ _ _].
  apply ends_hostcall; [done|apply by_size_safe; [done|lia|repeat constructor; cbn; lia]|].
  reg. apply ends_reg; [lia|intros k_z _ Hkz]. reg. apply ends_reg; [lia|intros v_z _ Hvz]. unfold is_u64 in Hkz, Hvz.
  apply ends_own; [done|intros a Ha _].
  eapply ends_bind; [done|apply frozen_try_mem, frozen_read_any; lia|]. intros [k|] _; [|by apply ends_panic].
  eapply (ends_bind _ _ _ (fun o => forall v, o = Some (Some v) -> data_ok v /\ v <> [])); [done| |].
  { destruct (Z.eqb_spec v_z 0); [by apply safe_ret|].
    eapply safe_bind; [apply frozen_try_mem; apply frozen_read; lia|]. intros o Ho. apply safe_ret. intros v' Hv'.
    destruct o as [b|]; [|done]. injection Hv' as ->. destruct (Ho v' eq_refl) as [Hb Hl]. split; [split; [done|unfold blen in Hl; lia]|].
    intros ->. unfold blen in Hl. cbn in Hl. lia. }
  intros value Hvalue.
  assert (forall old, old = found (retrieve_storage_item hash (service_account_id (context c)) k (services (state_context (context c)))) ->
    (forall o, old = Some o -> data_ok o) ->
    ends c (let l := match old with Some b => blen b | None => HostCallResult.NONE end in
        match value with
        | None => panic
        | Some value =>
            let service_account := item_footprint k old value a in
            if balance service_account <? threshold_balance gp service_account then reply HostCallResult.FULL
            else
              reply l ≫= fun _ =>
              update (match value with
                      | None => delete_storage_item hash (service_account_id (context c)) k false
                      | Some v => store_storage_item hash (service_account_id (context c)) k v false
                      end) ≫= fun _ =>
              update (store_service_account (service_account_id (context c)) service_account false)
        end)) as Hend.
  { intros old Hold Hdata. cbv zeta. destruct value as [value|]; [|by apply ends_panic].
    destruct (Z.ltb_spec (balance (item_footprint k old value a)) (threshold_balance gp (item_footprint k old value a))); [by apply ends_reply|].
    apply (ends_silent _ _ _ tt).
    { apply silent_reply. unfold is_u64. destruct old as [o|]; [|done]. destruct (Hdata o eq_refl). unfold blen. lia. }
    apply (ends_runs _ (at_item c (set_services (put_item (service_account_id (context c)) k value (services (state_context (context c)))) (context c))) _ _ tt).
    { apply runs_update. destruct value; [by apply store_item_run|by apply delete_item_run]. }
    eapply ends_runs_last; [apply runs_update, store_account_run, Hid|].
    eapply reached_to; [exact Hc|apply (step_write _ _ _ _ _ a k value); [done| |by rewrite <- Hold]|split; [by rewrite Hold|done]].
    intros v' ->. by apply Hvalue. }
  eapply ends_ask_opt; [by apply Hitem| |].
  - intros v' Hv' Hd. apply Hend; [by rewrite Hv'|]. by intros ? [= <-].
  - intros Hn. apply Hend; [by rewrite Hn|done].
Qed.

Lemma frozen_encode_u64 c v : frozen c (encode_u64 v) (fun b => List.Forall is_byte b /\ length b = 8%nat).
Proof using laws.
  unfold encode_u64. destruct (_ && _); [apply safe_ret; split; [apply U64_bytes|apply U64_length]|].
  intros s Hs. split; [by right; right; left|done].
Qed.
Lemma frozen_encode_u32 c v : frozen c (encode_u32 v) (fun b => List.Forall is_byte b /\ length b = 4%nat).
Proof using laws.
  unfold encode_u32. destruct (_ && _); [apply safe_ret; split; [apply U32_bytes|apply U32_length]|].
  intros s Hs. split; [by right; right; left|done].
Qed.

Lemma frozen_info c a : hash_ok (code_hash a) -> frozen c (info_bytes gp a) blob_ok.
Proof using laws.
  intros [Hb Hl]. unfold info_bytes.
  do 5 (eapply safe_bind; [apply frozen_encode_u64|intros ? []]). eapply safe_bind; [apply frozen_encode_u32|intros ? []].
  eapply safe_bind; [apply frozen_encode_u64|intros ? []]. do 3 (eapply safe_bind; [apply frozen_encode_u32|intros ? []]).
  apply safe_ret. split.
  - by repeat apply Forall_app_2.
  - unfold blen. rewrite !length_app. lia.
Qed.

Lemma hc_info_ends c : reached c -> ends c (hc_info gp (service_account_id (context c)) regs).
Proof using Hregs laws.
  intros Hc. destruct (reached_item c Hc) as [[Hid _ _ _ _ _ _] _]. fixed Hc.
  apply ends_reg; [lia|intros r7 _ Hr7]. pose proof (register_service r7 Hr7) as Hid'.
  eapply ends_bind; [done|apply frozen_account; [done|]; destruct (_ =? _); [apply Hid|apply Hid']|].
  intros o Ho. reg. eapply (ends_bind _ _ _ opt_blob_ok); [done| |].
  { destruct o as [a|]; [|by apply safe_ret]. eapply safe_bind; [apply frozen_info; by apply Ho|]. intros b Hb. by apply safe_ret. }
  intros found Hfound. do 2 reg. by apply ends_deliver.
Qed.

Lemma with_service_ends c (k : ServiceAccount -> Z -> A unit) : reached c -> (forall a, ends c (k a (service_account_id (context c)))) ->
  ends c (with_service k).
Proof using. intros Hc Hk. apply ends_item. apply ends_own; [done|]. intros a _ _. apply Hk. Qed.

(** ** The mutator *)

(** A call of all programs, which leaves the context alone. *)
Lemma serves_ends c m : reached c -> serves (frozen_ctx c) accumulate_may vm0 g0 m -> ends c m.
Proof using.
  intros [Hc Hb] Hm s Hs. pose proof Hs as (_ & Hg & _).
  assert (forall s', served (frozen_ctx c) vm0 g0 s' -> over s') as Hover.
  { intros s' ([H1 H2 H3 H4 H5 [H6 H7]] & Hg' & He). split; [|rewrite H7; lia]. split; [|done]. split; try done. by split; [|rewrite H7]. }
  eapply wp_mono; [by apply Hm| |]; [intros ? s' ?; by apply Hover|intros e s' [? ?]; split; [done|by apply Hover]].
Qed.

Lemma frozen_bounds c : ctx_bounds (frozen_ctx c).
Proof using.
  split; [by intros c' b []|]. intros c' hb sb hp hp' [(hb' & sb' & hp0 & [= -> -> ->] & ? & ?) Hc]. split; [|done]. by exists hb', sb', hp'.
Qed.

Lemma known_arrived s : call_inv accumulate_ctx_ok vm0 g0 s -> arrived (ca_ctx s) /\ known (ca_ctx s) s.
Proof using. intros ([H1 H2 H3 H4 H5 [H6 H7]] & Hg & He). split; [done|]. split; [by split|done]. Qed.
End serving.

Section mutator_laws.
Context {tolerance : Tolerance} {codec : Codec} {laws : CodecLaws codec} (hash : bytes -> bytes) (vdecode : bytes -> ValidatorData).
Context {RC AI : Type} `{FetchCodec RC AI} `{!FetchCodecLaws RC AI}.

(** The mutator's constants, stack and inputs. *)
Record accumulate_mutator_ok (self : AccumulateMutator AI) : Prop := mkAccumulateMutatorOk {
  amo_hash : forall x, length (hash x) = 32%nat;
  amo_constants : accumulate_gp_ok (am_constants self);
  amo_stack : Z.of_nat (am_stack self) < 2 ^ 31;
  amo_fetch : fetch_ok (accumulate_fetch (RC := RC) self)
}.

Definition accumulate_reached (self : AccumulateMutator AI) (c0 : AccumulateInvocationContext) :=
  accumulate_ctx_ok hash (am_constants self) (am_bless_compat self) (timeslot c0) c0.

Lemma accumulate_dispatch_ends self c0 nr regs vm0 g0 budget c :
  accumulate_mutator_ok self -> registers_ok regs -> g0 < 2 ^ 64 ->
  reached hash (am_constants self) (am_bless_compat self) (timeslot c0) g0 c0 budget c ->
  ends hash (am_constants self) (am_bless_compat self) (timeslot c0) vm0 g0 c0 budget c (accumulate_dispatch hash vdecode (fetch := H) self nr regs).
Proof using FetchCodecLaws0 laws.
  intros [Hhash Hgp Hstack Hf] Hr Hg Hc. unfold accumulate_dispatch.
  assert (ends hash (am_constants self) (am_bless_compat self) (timeslot c0) vm0 g0 c0 budget c hc_not_found) as Hnf
    by (apply serves_ends; [done|apply hc_not_found_serves]).
  destruct (decide (nr ∈ [0; 1; 2; 3; 4; 5; 6; 15; 16; 17; 18; 19; 20; 21; 22; 23; 24; 25; 26; 27; 100])) as [Hin|Hout].
  - repeat (apply elem_of_cons in Hin as [->|Hin]; [|]); try by apply elem_of_nil in Hin.
    + apply serves_ends; [done|]. by apply hc_gas_serves.
    + apply serves_ends; [done|]. by apply hc_grow_heap_serves; [apply frozen_bounds|].
    + apply serves_ends; [done|]. by apply hc_fetch_serves.
    + apply with_service_ends; [done|]. intros a. by apply hc_lookup_ends.
    + apply with_service_ends; [done|]. intros a. by apply hc_read_ends.
    + apply with_service_ends; [done|]. intros _. by apply hc_write_ends.
    + apply with_service_ends; [done|]. intros _. by apply hc_info_ends.
    + by apply hc_bless_ends.
    + by apply hc_assign_ends.
    + by apply hc_designate_ends.
    + by apply hc_checkpoint_ends.
    + by apply hc_new_ends.
    + by apply hc_upgrade_ends.
    + by apply hc_transfer_ends.
    + by apply hc_eject_ends.
    + by apply hc_query_ends.
    + by apply hc_solicit_ends.
    + by apply hc_forget_ends.
    + by apply hc_yield_ends.
    + by apply hc_provide_ends.
    + apply serves_ends; [done|]. by apply hc_log_serves.
  - destruct nr as [|q|q]; [|repeat (destruct q as [q|q|]; try done)|done].
    all: by destruct Hout; repeat constructor.
Qed.

Lemma accumulate_dispatch_serves self c0 nr regs vm :
  accumulate_mutator_ok self -> registers_ok regs -> gas vm < 2 ^ 64 ->
  serves (accumulate_reached self c0) accumulate_may vm (gas vm) (accumulate_dispatch hash vdecode (fetch := H) self nr regs).
Proof using FetchCodecLaws0 laws.
  intros Hok Hr Hg s Hs. apply known_arrived in Hs as [Ha Hs].
  pose proof (accumulate_dispatch_ends self c0 nr regs vm (gas vm) (sent (ca_ctx s) + gas vm) (ca_ctx s) Hok Hr Hg
    (conj Ha (Z.le_refl _)) s Hs) as Hw.
  eapply wp_mono; [exact Hw| |].
  - by intros ? s' [? _].
  - by intros e s' (? & ? & _).
Qed.

(** The transfers are paid for by the gas the call uses. *)
Lemma accumulate_dispatch_pays self c0 nr regs vm x :
  accumulate_mutator_ok self -> registers_ok regs -> gas vm < 2 ^ 64 ->
  pays sent (accumulate_reached self c0) vm (accumulate_dispatch hash vdecode (fetch := H) self nr regs) x.
Proof using FetchCodecLaws0 laws.
  intros Hok Hr Hg s Hs <-. apply known_arrived in Hs as [Ha Hs].
  pose proof (accumulate_dispatch_ends self c0 nr regs vm (gas vm) (sent (ca_ctx s) + gas vm) (ca_ctx s) Hok Hr Hg
    (conj Ha (Z.le_refl _)) s Hs) as Hw.
  eapply wp_mono; [exact Hw| |done].
  - by intros ? s' [_ ?].
Qed.
End mutator_laws.

Definition accumulate_mutator {codec : Codec} (hash : bytes -> bytes) (vdecode : bytes -> ValidatorData) {RC AI} `{FetchCodec RC AI}
  (self : AccumulateMutator AI) : InvocationMutator AccumulateInvocationContext := accumulate_execute hash vdecode self.

(** The host-call loop may rely on the mutator, from wherever the invocation began. *)
Program Definition accumulate_mutator_laws {tolerance : Tolerance} {codec : Codec} {laws : CodecLaws codec} (hash : bytes -> bytes) (vdecode : bytes -> ValidatorData)
  {RC AI} `{FetchCodec RC AI} `{!FetchCodecLaws RC AI} (self : AccumulateMutator AI) (c0 : AccumulateInvocationContext)
  (Hok : accumulate_mutator_ok hash (RC := RC) self) : @MutatorLaws _ (accumulate_mutator hash vdecode self) :=
  @Build_MutatorLaws _ (accumulate_mutator hash vdecode self) (accumulate_reached hash self c0) accumulate_may sent _.
Next Obligation.
  intros. apply serve_ok; [| |done..|lia].
  - apply accumulate_dispatch_serves; try done; [by apply rd_regs|lia].
  - apply accumulate_dispatch_pays; try done; [by apply rd_regs|lia].
Qed.
