(* ===== verification/Accumulate.v ===== *)
(** * Accumulation invocations

    [pvm_invoke_accumulate] of [hostcalls/invocation.py]: the service is credited its incoming
    transfers, its program run with the host calls of [AccumCalls], and the result taken from the
    context or, when the program fails, from the last savepoint.  With it the theorems on
    accumulation: what a program can do, whatever it does.

    [Preimage.extract] decodes metadata for the logs; the program is what the decoder leaves,
    [after_metadata].  A [Serializable] is the concatenation of its encoded fields. *)

From Stdlib Require Import ZArith Lia Bool List.
From stdpp Require Import base numbers option list gmap relations.
From S2P Require Import Prelude Constants Defs MemorySection Memory BasicBlock Machine Interp Program Invocation Graypaper HostCalls Refine StateBase Sums Storage StateKeys Accounts Pending AccumContext AccumCalls AccumServe.
Import ListNotations.

#[local] Open Scope Z_scope.
#[local] Open Scope py_scope.

(** ** Data *)

(** [R] is the type of [WorkExecResult]. *)
Record AccumulationOperand (R : Type) : Type := mkOperand {
  ao_work_report_hash : bytes;
  ao_work_report_exports_root : bytes;
  ao_work_report_authorizer_hash : bytes;
  ao_work_result_payload_hash : bytes;
  ao_work_result_gas_limit : Z;
  ao_work_exec_result : R;
  ao_work_report_auth_output : bytes
}.

(** One of the two fields is set. *)
Record AccumulationInput (R : Type) : Type := mkInput {
  accumulation_operand : option (AccumulationOperand R);
  deferred_transfer : option DeferredTransfer
}.
Arguments accumulation_operand {R}.
Arguments deferred_transfer {R}.

Record PvmAccumulateOutput : Type := mkAccumulateOutput {
  pa_state_context : AccumulationStateComponents;
  pa_deferred_transfers : list DeferredTransfer;
  pa_accumulation_output : option bytes;
  pa_gas_used : Z;
  pa_preimages : list (Z * bytes)
}.

Definition PVM_MARSHALLING_OFFSET_ACCUMULATE : Z := 5.

Definition incoming {R} (inputs : list (AccumulationInput R)) : list DeferredTransfer := omap deferred_transfer inputs.

Definition replace_services (st : ServicesState) (e : AccumulationStateComponents) : AccumulationStateComponents :=
  mkComponents st (validator_queue e) (authorizer_queues e) (privileged_services e).

Definition output_of (x : AccumulateContextItem) (output : option bytes) (gas_used : Z) : PvmAccumulateOutput :=
  mkAccumulateOutput (state_context x) (deferred_transfers x) output gas_used (preimages x).

Section accumulate.
Context {codec : Codec} {J : Type} {jam : JamCodec J} (hash : bytes -> bytes) (vdecode : bytes -> ValidatorData) (after_metadata : bytes -> bytes).
Context {RC R : Type} {fetch : FetchCodec RC (AccumulationInput R)}.

(** The credit and the look-up of the program; a missing account or preimage is no program. *)
Definition find_program (state : AccumulationStateComponents) (id : Z) (inputs : list (AccumulationInput R))
    : outcome state_exn (AccumulationStateComponents * option bytes) :=
  let no_program e r := match r with Raise StateKeyNoResult => Ret (e, None) | Raise x => Raise x | Ret b => Ret (e, Some b) end in
  match retrieve_service_account id true (services state) with
  | Raise StateKeyNoResult => Ret (state, None)
  | Raise x => Raise x
  | Ret a =>
      let x := incoming inputs in
      match (match x with
             | [] => Ret state
             | _ => st ← store_service_account id (set_balance (balance a + sum_of tr_amount x) a) false (services state);
                    Ret (replace_services st state)
             end) with
      | Raise StateKeyNoResult => Ret (state, None)
      | Raise x => Raise x
      | Ret state => no_program state (retrieve_preimage hash id (code_hash a) (services state))
      end
  end.

(** [AccumulatePvmArguments] *)
Definition accumulate_arguments (slot id operands_length : Z) : bytes :=
  VarInt64_encode slot ++ VarInt64_encode id ++ VarInt64_encode operands_length.

(** The result, from the end of the run: [len(None)] raises. *)
Definition accumulate_result (m : PvmMarshallingOutput AccumulateInvocationContext) : outcome exn PvmAccumulateOutput :=
  let x := context (pm_context m) in
  let y := savepoint_context (pm_context m) in
  match ec_reason (pm_exit_condition m), ec_value (pm_exit_condition m) with
  | ExitReason.out_of_gas, _ | ExitReason.panic, _ => Ret (output_of y (invocation_output y) (pm_gas_used m))
  | ExitReason.halt, EBytes bs =>
      Ret (output_of x (if blen bs =? 32 then Some bs else invocation_output x) (pm_gas_used m))
  | ExitReason.halt, _ => Raise PyException
  | _, _ => Ret (output_of x (invocation_output x) (pm_gas_used m))
  end.

(** [None] is a run that does not end; [self] holds the entropy, the inputs, the constants, the
    setting and the depth of the stack. *)
Definition pvm_invoke_accumulate (self : AccumulateMutator (AccumulationInput R)) (state : AccumulationStateComponents)
    (slot id gas_limit : Z) : option (outcome exn PvmAccumulateOutput) :=
  match find_program state id (am_accumulation_inputs self) with
  | Raise e => Some (Raise (exn_of e))
  | Ret (state, blob) =>
      let nothing := Some (Ret (mkAccumulateOutput state [] None 0 [])) in
      match blob with
      | None => nothing
      | Some blob =>
          if MAXIMUM_SIZE_SERVICE_CODE (am_constants self) <? blen blob then nothing
          else
            match create_from_accumulation_state hash VarInt64_encode (am_stack self) state id (am_entropy self) slot with
            | Raise e => Some (Raise (exn_of e))
            | Ret ctx =>
                match @pvm_invoke_marshalling J jam _ (accumulate_mutator hash vdecode self) (after_metadata blob)
                        PVM_MARSHALLING_OFFSET_ACCUMULATE gas_limit
                        (accumulate_arguments slot id (Z.of_nat (length (am_accumulation_inputs self)))) ctx with
                | None => None
                | Some (Raise e) => Some (Raise e)
                | Some (Ret m) => Some (accumulate_result m)
                end
            end
      end
  end.
End accumulate.

(** * Properties *)

Section properties.
Context {tolerance : Tolerance} {codec : Codec} {laws : CodecLaws codec} {J : Type} {jam : JamCodec J} {jam_laws : JamCodecLaws J}.
Context (hash : bytes -> bytes) (vdecode : bytes -> ValidatorData) (after_metadata : bytes -> bytes).
Context (Hmeta : forall b, List.Forall is_byte b -> List.Forall is_byte (after_metadata b)).
Context {RC R : Type} {fetch : FetchCodec RC (AccumulationInput R)} {fetch_laws : FetchCodecLaws RC (AccumulationInput R)}.
Context (self : AccumulateMutator (AccumulationInput R)) (Hself : accumulate_mutator_ok hash (RC := RC) self).
Context (slot id : Z).

Abbreviation gp := (am_constants self).
Abbreviation compat := (am_bless_compat self).
Abbreviation account st i := (retrieve_service_account i true st).
Abbreviation invocation := (pvm_invoke_accumulate (jam := jam) hash vdecode after_metadata (fetch := fetch) self).

(** The state accumulation starts from: reads answer (of requests, up to the tolerance), the
    lists have an entry per core, the slot is one. *)
Record state_wf (e : AccumulationStateComponents) : Prop := mkStateWf {
  sw_readable : readable hash (services e);
  sw_assigners : Z.of_nat (length (assigners (privileged_services e))) = CORE_COUNT gp;
  sw_queues : Z.of_nat (length (authorizer_queues e)) = CORE_COUNT gp;
  sw_slot : u32 slot
}.

(** The state after the incoming transfers are credited, if the service exists. *)
Definition credited (e : AccumulationStateComponents) (inputs : list (AccumulationInput R)) (e' : AccumulationStateComponents) : Prop :=
  match account (services e) id with
  | Ret a =>
      e' = match incoming inputs with
           | [] => e
           | x => replace_services (put_account id (Some (set_balance (balance a + sum_of tr_amount x) a)) (services e)) e
           end
  | Raise _ => e' = e
  end.

Lemma find_program_run e inputs : state_wf e -> service_id id ->
  exists e' blob, find_program hash e id inputs = Ret (e', blob) /\ credited e inputs e' /\ state_wf e' /\
    forall b, blob = Some b -> List.Forall is_byte b /\ exists a, account (services e') id = Ret a.
Proof using.
  intros [Hr Ha Hq Hslot] Hid. unfold find_program, credited.
  pose proof (rd_account _ _ Hr id ltac:(apply Hid)) as Hacc. destruct (account (services e) id) as [a|x] eqn:Hret; cbn in Hacc.
  2: { subst x. exists e, None. by split_and!. }
  assert (forall e', state_wf e' -> (exists a, account (services e') id = Ret a) ->
    exists e'' blob, match retrieve_preimage hash id (code_hash a) (services e') with
      | Ret b => Ret (e', Some b) | Raise StateKeyNoResult => Ret (e', None) | Raise x => Raise x end = Ret (e'', blob) /\
      e'' = e' /\ state_wf e'' /\ forall b, blob = Some b -> List.Forall is_byte b /\ exists a, account (services e'') id = Ret a) as Hfind.
  { intros e' Hwf Hex. pose proof (rd_preimage _ _ (sw_readable _ Hwf) id (code_hash a) Hid) as Hpre.
    destruct (retrieve_preimage hash id (code_hash a) (services e')) as [b|x]; cbn in Hpre; [|subst x].
    - exists e', (Some b). split_and!; try done. intros ? [= <-]. by split; [apply Hpre|].
    - by exists e', None. }
  destruct (incoming inputs) as [|y l].
  - destruct (Hfind e) as (e' & blob & Hrun & -> & Hwf & Hb); [by split|by eexists|]. by exists e, blob.
  - rewrite store_account_run by done. cbn [mbind outcome_bind].
    set (b := set_balance _ a). set (e1 := replace_services _ _).
    destruct (Hfind e1) as (e' & blob & Hrun & -> & Hwf & Hb).
    + split; [|done..]. apply readable_put_account; [done| |done]. by intros ? [= <-].
    + exists b. unfold e1. cbn. by rewrite retrieve_put_account, decide_True by done.
    + by exists e1, blob.
Qed.

(** Where the run begins. *)
Definition first_item (e : AccumulationStateComponents) (n : Z) : AccumulateContextItem := mkItem id e n [] None [].

Lemma create_run e a entropy : state_wf e -> service_id id -> account (services e) id = Ret a ->
  match create_from_accumulation_state hash VarInt64_encode (am_stack self) e id entropy slot with
  | Ret c => exists n, c = mkAccumulateContext (first_item e n) (first_item e n) slot /\ item_wf hash gp slot (first_item e n)
  | Raise x => x = RecursionDepth
  end.
Proof using.
  intros [Hr Has Hq Hslot] Hid Ha. unfold create_from_accumulation_state.
  set (payload := le_int _). rewrite (Z.add_comm _ MINIMUM_PUBLIC_SERVICE_ID).
  change (2 ^ 32 - MINIMUM_PUBLIC_SERVICE_ID - 2 ^ 8) with PUBLIC_SERVICE_IDS.
  pose proof (check_service_id_spec hash (am_stack self) (services e) (payload mod PUBLIC_SERVICE_IDS) 0 Hr) as Hcheck.
  rewrite Z.add_0_r, Zmod_mod in Hcheck. pose proof (Z.mod_pos_bound payload PUBLIC_SERVICE_IDS eq_refl) as Hp.
  specialize (Hcheck ltac:(lia) ltac:(lia)).
  destruct (check_service_id _ _ _) as [n|x]; [|done]. cbn [mbind outcome_bind]. destruct Hcheck as [Hn _].
  exists n. split; [done|]. split; cbn; try done. by exists a.
Qed.

(** What an invocation answers: the state with the credit alone, or the parts of a context its
    program reached by allowed steps. *)
Definition answered (e : AccumulationStateComponents) (out : PvmAccumulateOutput) : Prop :=
  (pa_state_context out = e /\ pa_deferred_transfers out = [] /\ pa_preimages out = []) \/
  exists n x, item_wf hash gp slot (first_item e n) /\ rtc (item_step hash gp compat slot) (first_item e n) x /\
    pa_state_context out = state_context x /\ pa_deferred_transfers out = deferred_transfers x /\ pa_preimages out = preimages x.

Lemma accumulate_result_run m : 
  (ec_reason (pm_exit_condition m) ∈ [ExitReason.halt; ExitReason.panic; ExitReason.out_of_gas]) -> halt_data (pm_exit_condition m) ->
  exists out x, accumulate_result m = Ret out /\ (x = context (pm_context m) \/ x = savepoint_context (pm_context m)) /\
    out = output_of x (pa_accumulation_output out) (pm_gas_used m).
Proof using.
  intros Hin Hdata. unfold accumulate_result.
  destruct (ec_reason (pm_exit_condition m)) eqn:Hreason; try (exfalso; clear -Hin; set_solver).
  - destruct (Hdata Hreason) as (bs & -> & _). eexists _, _. split; [reflexivity|]. split; [by left|done].
  - eexists _, _. split; [reflexivity|]. split; [by right|done].
  - eexists _, _. split; [reflexivity|]. split; [by right|done].
Qed.

Lemma invocation_run e g : state_wf e -> service_id id -> 0 <= g < 2 ^ 64 ->
  (exists out e', invocation e slot id g = Some (Ret out) /\ 0 <= pa_gas_used out <= g /\
     credited e (am_accumulation_inputs self) e' /\ state_wf e' /\ answered e' out /\
     sum_of transfer_cost (pa_deferred_transfers out) <= pa_gas_used out) \/
  (exists x, invocation e slot id g = Some (Raise x) /\ accumulate_may x).
Proof using laws jam_laws Hmeta fetch_laws Hself.
  intros Hwf Hid Hg. unfold pvm_invoke_accumulate.
  destruct (find_program_run e (am_accumulation_inputs self) Hwf Hid) as (e' & blob & -> & Hcred & Hwf' & Hblob).
  assert (exists out e'', Some (Ret (mkAccumulateOutput e' [] None 0 [])) = Some (Ret out : outcome exn _) /\ 0 <= pa_gas_used out <= g /\
    credited e (am_accumulation_inputs self) e'' /\ state_wf e'' /\ answered e'' out /\
    sum_of transfer_cost (pa_deferred_transfers out) <= pa_gas_used out) as Hnothing.
  { eexists _, e'. split; [reflexivity|]. cbn. split_and!; try done; try lia. by left. }
  destruct blob as [b|]; [|by left]. destruct (_ <? _); [by left|].
  destruct (Hblob b eq_refl) as (Hb & a & Ha). pose proof (create_run e' a (am_entropy self) Hwf' Hid Ha) as Hcreate.
  destruct (create_from_accumulation_state _ _ _ _ _ _ _) as [c|x]; [|subst x; right; eexists; split; [done|right; by left]].
  destruct Hcreate as (n & -> & Hitem). set (c := mkAccumulateContext _ _ _).
  assert (arrived hash gp compat slot c c) as Hreach by (split; [by split|done]).
  edestruct (@invoke_marshalling_run J jam jam_laws _ (accumulate_mutator hash vdecode self)
    (accumulate_mutator_laws hash vdecode self c Hself) (after_metadata b) PVM_MARSHALLING_OFFSET_ACCUMULATE g)
    as [(m & -> & Hreason & Hgas & Hdata & (bnd & _ & [_ Hcalls]) & Hsent)|(x & -> & Hmay)]; [| | | |left|right; by exists x].
  - intros bnd Hbnd. by split.
  - by apply Hmeta.
  - unfold accumulate_arguments. by repeat apply Forall_app_2; apply VarInt64_encode_ok.
  - done.
  - destruct (accumulate_result_run m Hreason Hdata) as (out & x & -> & Hx & Hout). exists out, e'. split; [done|].
    apply calls_reach in Hcalls as [H1 H2]; [|done]. split; [by rewrite Hout|]. split; [done|]. split; [done|].
    split; [right; exists n, x; split; [done|]; split; [by destruct Hx as [-> | ->]|]; by rewrite Hout|].
    unfold committed, accumulate_mutator_laws, sent, sent_gas in Hsent. cbn -[transfer_cost] in Hsent. rewrite Hout. cbn -[transfer_cost].
    destruct Hx as [-> | ->]; lia.
Qed.

(** ** What accumulation promises *)

Abbreviation before e := (first_item e 0).
Abbreviation after out := (mkItem id (pa_state_context out) 0 (pa_deferred_transfers out) None []).

Lemma answered_conserves e out : answered e out -> conserved (before e) (after out).
Proof using.
  intros [(He & Ht & _)|(n & x & Hwf & Hr & He & Ht & _)].
  - exists []. intros ids _ _. unfold funds. cbn. by rewrite He, Ht.
  - destruct (reach_conserves _ _ _ _ _ _ Hr Hwf) as (T & HT). exists T. intros ids Hnd Hsub. unfold funds. cbn.
    specialize (HT ids Hnd Hsub). unfold funds in HT. cbn in HT. by rewrite He, Ht.
Qed.

(** C13: no funds are made or lost: over every set of services that includes certain ones, the
    balances after the invocation with the transfers it sends are the balances before with the
    transfers that came in, also when the program fails. *)
Theorem accumulate_conserves_funds e g out : state_wf e -> service_id id -> 0 <= g < 2 ^ 64 ->
  (exists a, account (services e) id = Ret a) -> invocation e slot id g = Some (Ret out) ->
  exists T, forall ids, NoDup ids -> T ⊆ ids ->
    sum_of (balance_of (services (pa_state_context out))) ids + sum_of tr_amount (pa_deferred_transfers out) =
    sum_of (balance_of (services e)) ids + sum_of tr_amount (incoming (am_accumulation_inputs self)).
Proof using laws jam_laws Hmeta fetch_laws Hself.
  intros Hwf Hid Hg (a & Ha) Hrun. destruct (invocation_run e g Hwf Hid Hg) as [(o & e' & Hrun' & _ & Hcred & Hwf' & Hans & _)|(x & Hrun' & _)];
    rewrite Hrun in Hrun'; [injection Hrun' as <-|done].
  destruct (answered_conserves _ _ Hans) as (T & HT). exists (id :: T). intros ids Hnd Hsub.
  specialize (HT ids Hnd ltac:(set_solver)). unfold funds in HT. cbn in HT. rewrite HT. unfold credited in Hcred. rewrite Ha in Hcred.
  destruct (incoming (am_accumulation_inputs self)) as [|y l]; subst e'; cbn; [lia|].
  rewrite sum_put by (done || set_solver). cbn. rewrite (balance_ret _ _ _ Ha). lia.
Qed.

(** C14: the invocation changes nothing of another service, neither its account nor its items,
    preimages and requests, unless that service names the invoked one in its code hash. *)
Theorem accumulate_isolated e g out other a : state_wf e -> service_id id -> 0 <= g < 2 ^ 64 ->
  invocation e slot id g = Some (Ret out) -> 0 <= other -> other <> id -> account (services e) other = Ret a ->
  code_hash a <> le_bytes 32 id -> untouched hash other (services e) (services (pa_state_context out)).
Proof using laws jam_laws Hmeta fetch_laws Hself.
  intros Hwf Hid Hg Hrun Ho Hne Ha Hcode. destruct (invocation_run e g Hwf Hid Hg) as [(o & e' & Hrun' & _ & Hcred & Hwf' & Hans & _)|(x & Hrun' & _)];
    rewrite Hrun in Hrun'; [injection Hrun' as <-|done].
  assert (untouched hash other (services e) (services e')) as Hu.
  { unfold credited in Hcred. destruct (account (services e) id) as [b|x]; [|subst e'; apply untouched_refl].
    destruct (incoming _); subst e'; [apply untouched_refl|]. by apply untouched_put_account. }
  eapply untouched_trans; [exact Hu|]. destruct Hans as [(-> & _)|(n & x & Hitem & Hr & -> & _)]; [apply untouched_refl|].
  apply (reach_isolated _ _ _ _ _ _ Hr Hitem other a); try done. cbn. by rewrite (un_account _ _ _ _ Hu).
Qed.

(** C22: accumulation keeps every account able to pay for what it stores, if every account was
    and what comes in is not negative. *)
Theorem accumulate_solvent e g out : state_wf e -> service_id id -> 0 <= g < 2 ^ 64 -> prices_ok gp ->
  Forall (fun r => 0 <= tr_amount r) (incoming (am_accumulation_inputs self)) ->
  invocation e slot id g = Some (Ret out) -> solvent gp (services e) -> solvent gp (services (pa_state_context out)).
Proof using laws jam_laws Hmeta fetch_laws Hself.
  intros Hwf Hid Hg Hp Hin Hrun Hs. destruct (invocation_run e g Hwf Hid Hg) as [(o & e' & Hrun' & _ & Hcred & Hwf' & Hans & _)|(x & Hrun' & _)];
    rewrite Hrun in Hrun'; [injection Hrun' as <-|done].
  assert (solvent gp (services e')) as Hs'.
  { unfold credited in Hcred. destruct (account (services e) id) as [b|x] eqn:Hb; [|by subst e'].
    assert (0 <= sum_of tr_amount (incoming (am_accumulation_inputs self))) as Hsum.
    { clear -Hin. induction Hin; cbn; lia. }
    destruct (incoming _); subst e'; [done|]. apply solvent_put; [done| |done]. intros ? [= <-].
    pose proof (Hs id b ltac:(apply Hid) Hb). unfold affords, threshold_balance in *. cbn in *. lia. }
  destruct Hans as [(-> & _)|(n & x & Hitem & Hr & -> & _)]; [done|]. by apply (reach_solvent _ _ _ _ _ _ Hp Hr Hitem).
Qed.

(** C23: under the protocol's rule for blessing, a service that is neither manager, delegator nor
    the assigner of a core changes no privilege, no authorizer queue and no validator queue. *)
Theorem accumulate_unprivileged e g out : state_wf e -> service_id id -> 0 <= g < 2 ^ 64 -> compat = false ->
  id <> manager (privileged_services e) -> id <> delegator (privileged_services e) -> (id ∉ assigners (privileged_services e)) ->
  invocation e slot id g = Some (Ret out) ->
  privileged_services (pa_state_context out) = privileged_services e /\
  authorizer_queues (pa_state_context out) = authorizer_queues e /\ validator_queue (pa_state_context out) = validator_queue e.
Proof using laws jam_laws Hmeta fetch_laws Hself.
  intros Hwf Hid Hg Hc Hm Hd Has Hrun. destruct (invocation_run e g Hwf Hid Hg) as [(o & e' & Hrun' & _ & Hcred & Hwf' & Hans & _)|(x & Hrun' & _)];
    rewrite Hrun in Hrun'; [injection Hrun' as <-|done].
  assert (privileged_services e' = privileged_services e /\ authorizer_queues e' = authorizer_queues e /\ validator_queue e' = validator_queue e)
    as (E1 & E2 & E3).
  { unfold credited in Hcred. destruct (account (services e) id); [|by subst e']. destruct (incoming _); by subst e'. }
  rewrite <- E1, <- E2, <- E3. destruct Hans as [(-> & _)|(n & x & Hitem & Hr & -> & _)]; [done|].
  apply (reach_unprivileged _ _ _ _ _ _ Hr). unfold unprivileged. cbn. by rewrite E1.
Qed.

Lemma answered_transfers e out : answered e out -> Forall (transfer_ok) (pa_deferred_transfers out).
Proof using.
  intros [(_ & -> & _)|(n & x & Hwf & Hr & _ & -> & _)]; [constructor|]. apply (reach_transfers _ _ _ _ _ _ Hr). constructor.
Qed.

(** what a service sends is paid for by the gas it has used: every transfer costs the gas of
    its call and the gas it forwards, which is not negative, and goes to an account. *)
Theorem accumulate_pays_transfers e g out : state_wf e -> service_id id -> 0 <= g < 2 ^ 64 ->
  invocation e slot id g = Some (Ret out) ->
  sum_of transfer_cost (pa_deferred_transfers out) <= pa_gas_used out <= g /\ Forall transfer_ok (pa_deferred_transfers out).
Proof using laws jam_laws Hmeta fetch_laws Hself.
  intros Hwf Hid Hg Hrun. destruct (invocation_run e g Hwf Hid Hg) as [(o & e' & Hrun' & Hgas & _ & _ & Hans & Hsent)|(x & Hrun' & _)];
    rewrite Hrun in Hrun'; [injection Hrun' as <-|done].
  split; [lia|by eapply answered_transfers].
Qed.

(** ** Single calls *)

(** C21: every host call of an accumulation, on a well-formed context, answers or raises one of
    three exceptions, or the codec's error where requests are tolerated that do not read, and
    changes the context only by a sequence of the steps the protocol allows; it keeps both
    contexts well formed and the machine ready at its instruction. *)
Theorem accumulate_execute_refines nr x vm :
  context_wf hash gp slot x -> bounds_ok (bounds (mem vm)) -> ready vm -> 0 <= gas vm < 2 ^ 64 ->
  exists r x' vm', accumulate_execute hash vdecode self nr (gas vm) (reg vm) x vm = (r, (x', vm')) /\
    rtc (call_step hash gp compat slot) x x' /\ context_wf hash gp slot x' /\
    ready vm' /\ vm_code vm' = vm_code vm /\ pc vm' = pc vm /\
    match r with
    | Raise e => e = PVMMemoryError \/ e = RecursionError \/ e = EncodingError \/ tolerated /\ e = PyException
    | Ret out =>
        ec_reason (mo_exit_condition out) <> ExitReason.host_halt /\ mo_gas_limit out <= gas vm /\
        (ec_reason (mo_exit_condition out) = ExitReason.resume -> 0 <= mo_gas_limit out)
    end.
Proof using laws fetch_laws Hself.
  intros Hwf Hb Hr Hg. assert (registers_ok (reg vm)) as Hregs by by apply rd_regs.
  pose proof (accumulate_dispatch_serves hash vdecode self x nr (reg vm) vm Hself Hregs ltac:(lia)) as Hs.
  pose proof (accumulate_dispatch_pays hash vdecode self x nr (reg vm) vm x Hself Hregs ltac:(lia)) as Hpays.
  destruct (serve_ok _ _ _ _ x vm Hs Hpays) as (r & x' & vm' & Hrun & [_ [Hwf' Hcalls]] & Hr' & Hc & Hp & _ & _ & Hres); [|done|lia|].
  { split; [done|]. rewrite (cw_timeslot _ _ _ _ Hwf). by split. }
  rewrite (cw_timeslot _ _ _ _ Hwf) in Hwf', Hcalls. exists r, x', vm'. split_and!; try done.
  destruct r as [out|e]; [|done]. by destruct Hres as ((? & _) & (? & _) & ? & _).
Qed.
End properties.

(** ** How an invocation ends

    Here requests need not read. *)

Section total.
Context {codec : Codec} {laws : CodecLaws codec} {J : Type} {jam : JamCodec J} {jam_laws : JamCodecLaws J}.
Context (hash : bytes -> bytes) (vdecode : bytes -> ValidatorData) (after_metadata : bytes -> bytes).
Context (Hmeta : forall b, List.Forall is_byte b -> List.Forall is_byte (after_metadata b)).
Context {RC R : Type} {fetch : FetchCodec RC (AccumulationInput R)} {fetch_laws : FetchCodecLaws RC (AccumulationInput R)}.
Context (self : AccumulateMutator (AccumulationInput R)) (Hself : accumulate_mutator_ok hash (RC := RC) self).
Context (slot id : Z).

(** A request in the state that the codec refuses to decode. *)
Definition garbled_request (st : ServicesState) : Prop :=
  exists id h l, 0 <= id /\ 0 <= l /\ retrieve_preimage_availability hash id h l st = Raise ValueError.

(** C15: the invocation ends, whatever the program, on a state whose accounts, items and preimages
    read: with an output that has used between nothing and the gas it was given, or with an
    access refused, Python's stack exhausted or a value its encoding cannot hold, or with the
    codec's error, and then some request of the state it started from does not decode. *)
Theorem accumulate_total e g : state_wf (tolerance := True) hash self slot e -> service_id id -> 0 <= g < 2 ^ 64 ->
  exists r, pvm_invoke_accumulate (jam := jam) hash vdecode after_metadata (fetch := fetch) self e slot id g = Some r /\
    match r with
    | Ret out => 0 <= pa_gas_used out <= g
    | Raise x => x = PVMMemoryError \/ x = RecursionError \/ x = EncodingError \/ garbled_request (services e) /\ x = PyException
    end.
Proof using laws jam_laws Hmeta fetch_laws Hself.
  intros [[Ha Hi Hp Hv] Has Hq Hslot] Hid Hg.
  assert (state_wf (tolerance := garbled_request (services e)) hash self slot e) as Hwf.
  { split; [|done..]. split; [done..|]. intros j h l Hj Hl. destruct (Hv j h l Hj Hl) as [|[_ Hx]]; [by left|right].
    split; [|done]. by exists j, h, l. }
  destruct (invocation_run (tolerance := garbled_request (services e)) hash vdecode after_metadata Hmeta self Hself slot id e g Hwf Hid Hg)
    as [(out & e' & Hrun & Hu & _)|(x & Hrun & Hx)]; [exists (Ret out)|exists (Raise x)]; by split.
Qed.
End total.

(** a finding: as with an empty export, a preimage of no bytes provided from an address of
    [2^32] or above passes the check of [hc_provide], and the exception leaves the mutator. *)
Theorem provide_empty_raises {codec : Codec} (hash : bytes -> bytes) (vdecode : bytes -> ValidatorData) {RC AI} `{FetchCodec RC AI}
  (self : AccumulateMutator AI) p regs g x vm :
  regs !! 7%nat = Some 0 -> regs !! 8%nat = Some p -> regs !! 9%nat = Some 0 -> SIZE <= p -> 3980 <= g ->
  is_accessible p 0 MEM_R (mem vm) = Ret true /\
  (accumulate_execute hash vdecode self 27 g regs x vm).1 = Raise PVMMemoryError.
Proof.
  intros H7 H8 H9 Hp Hg. split; [done|]. unfold accumulate_execute, serve, accumulate_dispatch, hc_provide, hostcall.
  assert (forall s : Call AccumulateInvocationContext, gas_cost_by_size 3980 [(2264, 9)] regs s = (Ret 3980, s)) as Hcost.
  { intros s. unfold gas_cost_by_size. cbn [sum_terms]. unfold register. rewrite py_index_nonneg by lia. change (Z.to_nat 9) with 9%nat.
    rewrite H9. reflexivity. }
  rewrite eff_bind_run, Hcost. autorewrite with eff. cbn [ca_gas set_out_gas]. destruct (Z.ltb_spec (g - 3980) 0); [lia|].
  unfold register. rewrite !py_index_nonneg by lia. change (Z.to_nat 7) with 7%nat. change (Z.to_nat 8) with 8%nat.
  change (Z.to_nat 9) with 9%nat. rewrite H7, H8, H9. autorewrite with eff. change (U32_MAX <=? 0) with false. cbn iota.
  unfold the_item. autorewrite with eff. rewrite eff_bind_run. set (s := set_out_gas _ _).
  destruct (accessible_mem_run p 0 MEM_R s) as (b & -> & [= <-]); [by left|].
  rewrite eff_bind_run. unfold read. rewrite eff_bind_run. unfold on_mem, read_bytes.
  destruct (Z.leb_spec SIZE p); [|lia]. rewrite orb_true_r. reflexivity.
Qed.
