(* ===== verification/Services.v ===== *)
(** * The services component

    [Services] of [state/components.py]: the preimages extrinsic and the accumulation of a
    block's reports.

    Accumulation runs in rounds ([full_sequential_accumulation]).  A round
    ([parallel_accumulation]) takes the transfers of the round before, as many reports as the
    gas allows and, the first time, the services that always accumulate; it runs every service
    concerned on a copy of the state ([single_step_accumulation]), merges what they changed
    ([merge_accumulation_service_changes]), settles the privileges, writes the changes to the
    block's transaction and hands out the preimages provided.

    The signals to subscribers are left out, as elsewhere.  The order in which Python iterates a
    dictionary is a parameter, [dict_items], where it could matter; the order in which a pool of
    threads completes the services is the argument [arrival]. *)

From Stdlib Require Import ZArith Lia Bool List.
From stdpp Require Import base numbers option list sets gmap sorting.
From S2P Require Import Prelude ByteOrder Constants Graypaper Defs MemorySection Memory Program Invocation HostCalls StateBase Sums Reports Queue Storage StateKeys Accounts Pending AccumContext AccumCalls Accumulate.
Import ListNotations.

#[local] Open Scope Z_scope.

(** [for x in l: s = f(x, s)] *)
Fixpoint each {E A S} (f : A -> S -> outcome E S) (l : list A) (s : S) : outcome E S :=
  match l with
  | [] => Ret s
  | x :: l => s ← f x s; each f l s
  end.

(** ** Data *)

Record Preimage : Type := mkPreimage { requester : Z; blob : bytes }.

Record ParallelAccumulationOutput : Type := mkParallel {
  pl_accumulation_state : AccumulationStateComponents;
  pl_deferred_transfers : list DeferredTransfer;
  pl_accumulation_commitment : gset (Z * bytes);
  pl_accumulation_gas_utilized : gmap Z Z
}.

Record FullAccumulationOutput : Type := mkFull {
  nr_work_results_accumulated : Z;
  post_accumulation_state : AccumulationStateComponents;
  accumulation_commitment : gset (Z * bytes);
  accumulation_gas_utilized : gmap Z Z;
  processed_transfers : list DeferredTransfer
}.

Record ServicesAfterAccumulationOutput : Type := mkAfterAccumulation {
  aa_state : AccumulationStateComponents;
  aa_beefy_commitment_map : gset (Z * bytes);
  aa_nr_work_results_accumulated : Z;
  aa_accumulation_gas_utilized : gmap Z Z;
  aa_accumulation_statistics : gmap Z AccumulationStatistic
}.

(** Exceptions of an invocation and of the state. *)
Inductive accumulation_exn : Set := InInvocation (e : exn) | InState (e : state_exn).

(** A computation that may not end (an invocation) or raise. *)
Definition acc (A : Type) : Type := option (outcome accumulation_exn A).
#[export] Instance acc_ret : MRet acc := fun A a => Some (Ret a).
#[export] Instance acc_bind : MBind acc := fun A B k m =>
  match m with Some (Ret a) => k a | Some (Raise e) => Some (Raise e) | None => None end.

Definition of_state {A} (r : outcome state_exn A) : acc A :=
  match r with Ret a => Some (Ret a) | Raise e => Some (Raise (InState e)) end.
Definition of_invocation {A} (r : option (outcome exn A)) : acc A :=
  match r with None => None | Some (Ret a) => Some (Ret a) | Some (Raise e) => Some (Raise (InInvocation e)) end.

(** What accumulation reads beside the state: the constants, the settings (with [arrival] if
    the services run in a pool), the stack left to [check_service_id], slot and entropy. *)
Record AccumulationSettings : Type := mkAccumulationSettings {
  as_constants : GpConstants;
  as_bless_compat : bool;
  as_pool : option (list Z -> list Z);
  as_stack : nat;
  as_timeslot : Z;
  as_entropy : bytes
}.

Section services.
Context {codec : Codec} {J : Type} {jam : JamCodec J} (hash : bytes -> bytes) (vdecode : bytes -> ValidatorData) (after_metadata : bytes -> bytes).
Context {RC : Type} {fetch : FetchCodec RC (AccumulationInput WorkExecResult)}.
Context (dict_items : forall K A : Type, forall E : EqDecision K, forall C : Countable K, gmap K A -> list (K * A)).

Abbreviation items m := (dict_items _ _ _ _ m).

(** ** Preimages *)

Definition sort_key (p : Preimage) : outcome state_exn bytes := b ← to_bytes4 (requester p); Ret (rev b ++ blob p).

Definition are_preimages_unique (preimages : list Preimage) : bool :=
  negb (has_duplicates (map (fun p => (requester p, blob p)) preimages)).

Fixpoint are_preimages_sorted (preimages : list Preimage) : outcome state_exn bool :=
  match preimages with
  | p :: (q :: _) as rest =>
      a ← sort_key p;
      b ← sort_key q;
      if bytes_leb a b then are_preimages_sorted rest else Ret false
  | _ => Ret true
  end.

Definition validate_extrinsic_preimages (extrinsic_preimages : list Preimage) (pre_state_services : ServicesState)
    : outcome state_exn unit :=
  let refuse c := StateTransitionError (ServicesCode c) in
  match extrinsic_preimages with
  | [] => Ret tt
  | _ =>
      _ ← raise_if (negb (are_preimages_unique extrinsic_preimages)) (refuse ServicesErrorCode.preimages_not_sorted_unique);
      sorted ← are_preimages_sorted extrinsic_preimages;
      _ ← raise_if (negb sorted) (refuse ServicesErrorCode.preimages_not_sorted_unique);
      every extrinsic_preimages (fun p =>
        needed ← is_preimage_needed hash (requester p) (blob p) pre_state_services;
        raise_if (negb needed) (refuse ServicesErrorCode.preimage_unneeded))
  end.

(** One turn of the loop of [state_transition_after_preimages]. *)
Definition provide_preimage (slot : Z) (p : Preimage) (st : ServicesState) : outcome state_exn ServicesState :=
  let preimage_hash := hash (blob p) in
  let preimage_length := Z.of_nat (length (blob p)) in
  pre_image_exists ← preimage_exists hash (requester p) preimage_hash st;
  is_newly_requested ← match retrieve_preimage_availability hash (requester p) preimage_hash preimage_length st with
                       | Ret a => Ret (bool_decide (a = []))
                       | Raise StateKeyNoResult => Ret false
                       | Raise e => Raise e
                       end;
  if negb pre_image_exists && is_newly_requested then
    st ← store_preimage hash (requester p) (blob p) true st;
    store_preimage_availability hash (requester p) preimage_hash preimage_length [slot] true st
  else Ret st.

Definition state_transition_after_preimages (extrinsic_preimages : list Preimage) (st : ServicesState) (slot : Z)
    : outcome state_exn ServicesState := each (provide_preimage slot) extrinsic_preimages st.

(** ** [single_step_accumulation] *)

Abbreviation input := (AccumulationInput WorkExecResult).

Definition transfer_input (t : DeferredTransfer) : input := mkInput _ None (Some t).
Definition operand_input (w : WorkReport) (r : WorkDigest) : input :=
  mkInput _ (Some (mkOperand _ (ps_hash (wr_package_spec w)) (ps_exports_root (wr_package_spec w)) (wr_authorizer_hash w)
                     (wd_payload_hash r) (wd_accumulate_gas r) (wd_result r) (wr_auth_output w))) None.

Definition take_transfer (id : Z) (s : Z * list input) (t : DeferredTransfer) : Z * list input :=
  if tr_receiver t =? id then (s.1 + tr_gas_limit t, s.2 ++ [transfer_input t]) else s.
Definition take_digest (id : Z) (w : WorkReport) (s : Z * list input) (r : WorkDigest) : Z * list input :=
  if wd_service_id r =? id then (s.1 + wd_accumulate_gas r, s.2 ++ [operand_input w r]) else s.

(** The gas and the inputs of a service. *)
Definition allowance (transfers : list DeferredTransfer) (reports : list WorkReport) (auto : gmap Z Z) (id : Z) : Z * list input :=
  fold_left (fun s w => fold_left (take_digest id w) (wr_results w) s) reports
    (fold_left (take_transfer id) transfers (default 0 (auto !! id), [])).

(** [deepcopy(accumulation_state)] with new pending changes. *)
Definition detached (e : AccumulationStateComponents) : AccumulationStateComponents :=
  replace_services (mkServicesState no_changes (state_storage (services e)) (materialized (services e))) e.

Definition single_step_accumulation (c : AccumulationSettings) (e : AccumulationStateComponents) (transfers : list DeferredTransfer)
    (reports : list WorkReport) (auto : gmap Z Z) (id : Z) : option (outcome exn PvmAccumulateOutput) :=
  let '(g, i) := allowance transfers reports auto id in
  pvm_invoke_accumulate (jam := jam) hash vdecode after_metadata (fetch := fetch)
    (mkAccumulateMutator _ (as_entropy c) i (as_constants c) (as_bless_compat c) (as_stack c)) (detached e) (as_timeslot c) id g.

(** ** [_merge_accumulation_service_changes] *)

Abbreviation output := (Z * PvmAccumulateOutput)%type.

Definition pending_of (o : PvmAccumulateOutput) : PendingChanges := pending_changes (AccumContext.services (pa_state_context o)).

(** The services a dictionary of changes speaks of. *)
Definition changed_ids (p : PendingChanges) : gset Z :=
  dom (pc_accounts p) ∪ set_map fst (dom (pc_storage_items p)) ∪ set_map fst (dom (pc_preimages p)) ∪
  set_map (fun k : Z * bytes * Z => k.1.1) (dom (pc_availability p)).

Definition candidates (outputs : list output) : gset Z := ⋃ (map (fun o => changed_ids (pending_of o.2)) outputs).

(** [{s_id for s_id in candidates if services.service_exists(s_id)}] *)
Definition existing_services (st : ServicesState) (outputs : list output) : outcome state_exn (gset Z) :=
  each (fun s existing => b ← service_exists s true st; Ret (if b : bool then {[ s ]} ∪ existing else existing))
    (elements (candidates outputs)) ∅.

Definition deleted_services (existing : gset Z) (outputs : list output) : gset Z :=
  ⋃ (map (fun o => list_to_set (map fst (filter (fun p => p.1 ∈ existing /\ p.2 = None) (map_to_list (pc_accounts (pending_of o.2)))))) outputs).

(** The merged changes, and who created each new account. *)
Definition merge_state : Type := PendingChanges * gmap Z Z.

Definition set_account (s : Z) (a : option ServiceAccount) (p : PendingChanges) : PendingChanges :=
  mkPendingChanges (<[s := a]> (pc_accounts p)) (pc_storage_items p) (pc_preimages p) (pc_availability p).

Definition merge_account (existing deleted : gset Z) (writer : Z) (change : Z * option ServiceAccount) (m : merge_state)
    : outcome state_exn merge_state :=
  let '(s, account) := change in
  match account with
  | None => Ret m
  | Some a =>
      if bool_decide (s ∈ deleted) || (bool_decide (s ∈ existing) && negb (s =? writer)) then Ret m
      else
        new_writers ← (if bool_decide (s ∈ existing) then Ret m.2
                       else match m.2 !! s with
                            | Some w => if negb (w =? writer) then Raise (BlockValidationError Message) else Ret (<[s := writer]> m.2)
                            | None => Ret (<[s := writer]> m.2)
                            end);
        Ret (set_account s (Some a) m.1, new_writers)
  end.

(** One of the maps of items, whose keys belong to the service [owner k]. *)
Definition merge_item {K V : Type} `{Countable K} (owner : K -> Z) (existing deleted : gset Z) (writer : Z)
    (accounts : gmap Z (option ServiceAccount)) (change : K * option V) (target : gmap K (option V)) : gmap K (option V) :=
  let '(k, v) := change in
  if bool_decide (owner k ∈ deleted) then <[k := None]> target
  else if (owner k =? writer) && bool_decide (owner k ∈ existing) ||
          bool_decide (owner k ∉ existing) && (match accounts !! owner k with Some (Some _) => true | _ => false end)
       then <[k := v]> target
       else target.

Definition merge_items {K V : Type} `{Countable K} (owner : K -> Z) (existing deleted : gset Z) (writer : Z)
    (accounts : gmap Z (option ServiceAccount)) (changes target : gmap K (option V)) : gmap K (option V) :=
  foldr (merge_item owner existing deleted writer accounts) target (map_to_list changes).

(** The changes of one output. *)
Definition merge_output (existing deleted : gset Z) (o : output) (m : merge_state) : outcome state_exn merge_state :=
  let '(writer, out) := o in
  let pending := pending_of out in
  let accounts := pc_accounts pending in
  '(p, new_writers) ← each (merge_account existing deleted writer) (map_to_list accounts) m;
  Ret (mkPendingChanges (pc_accounts p)
         (merge_items fst existing deleted writer accounts (pc_storage_items pending) (pc_storage_items p))
         (merge_items fst existing deleted writer accounts (pc_preimages pending) (pc_preimages p))
         (merge_items (fun k => k.1.1) existing deleted writer accounts (pc_availability pending) (pc_availability p)), new_writers).

Definition merge_accumulation_service_changes (st : ServicesState) (outputs : list output) : outcome state_exn PendingChanges :=
  existing ← existing_services st outputs;
  let deleted := deleted_services existing outputs in
  '(merged, _) ← each (merge_output existing deleted) outputs (no_changes, ∅);
  Ret (mkPendingChanges (foldr (fun s => <[s := None]>) (pc_accounts merged) (elements deleted))
         (pc_storage_items merged) (pc_preimages merged) (pc_availability merged)).

(** ** The privileges of a round *)

Definition set_authorizer_queue_list (q : list (list bytes)) (e : AccumulationStateComponents) : AccumulationStateComponents :=
  mkComponents (AccumContext.services e) (validator_queue e) q (privileged_services e).
Definition set_validators (v : list ValidatorData) (e : AccumulationStateComponents) : AccumulationStateComponents :=
  mkComponents (AccumContext.services e) v (authorizer_queues e) (privileged_services e).
Definition with_privileged (p : PrivilegedServicesState) (e : AccumulationStateComponents) : AccumulationStateComponents :=
  mkComponents (AccumContext.services e) (validator_queue e) (authorizer_queues e) p.
Definition set_manager (m : Z) (always : gmap Z Z) (p : PrivilegedServicesState) : PrivilegedServicesState :=
  mkPrivileged m (assigners p) (delegator p) (registrar p) always.
Definition set_delegator (d : Z) (p : PrivilegedServicesState) : PrivilegedServicesState :=
  mkPrivileged (manager p) (assigners p) d (registrar p) (always_accumulators p).
Definition set_registrar (r : Z) (p : PrivilegedServicesState) : PrivilegedServicesState :=
  mkPrivileged (manager p) (assigners p) (delegator p) r (always_accumulators p).

(** [a*], [v*], [r*]: what the manager's output says. *)
Record ManagerView : Type := mkManagerView { mv_assigners : list Z; mv_delegator : Z; mv_registrar : Z }.

Definition take_assigner (out : AccumulationStateComponents) (id c : Z) (e : AccumulationStateComponents)
    : outcome state_exn AccumulationStateComponents :=
  a ← get_item (assigners (privileged_services e)) c;
  if id =? a then
    b ← get_item (assigners (privileged_services out)) c;
    l ← set_item (assigners (privileged_services e)) c b;
    Ret (with_privileged (set_assigners l (privileged_services e)) e)
  else Ret e.

Definition take_queue (pre_assigners : list Z) (out : AccumulationStateComponents) (id c : Z) (e : AccumulationStateComponents)
    : outcome state_exn AccumulationStateComponents :=
  a ← get_item pre_assigners c;
  if id =? a then
    q ← get_item (authorizer_queues out) c;
    l ← set_item (authorizer_queues e) c q;
    Ret (set_authorizer_queue_list l e)
  else Ret e.

(** One turn of the loop over the outputs; [pre] are the privileges before the round. *)
Definition take_privileges (gp : GpConstants) (pre : PrivilegedServicesState) (o : output) (s : AccumulationStateComponents * ManagerView)
    : outcome state_exn (AccumulationStateComponents * ManagerView) :=
  let '(id, result) := o in
  let out := pa_state_context result in
  let priv := privileged_services out in
  let '(e, v) := s in
  let '(e, v) :=
    if id =? manager pre
    then (with_privileged (set_manager (manager priv) (always_accumulators priv) (privileged_services e)) e,
          mkManagerView (assigners priv) (delegator priv) (registrar priv))
    else (e, v) in
  e ← each (take_assigner out id) (py_range 0 (CORE_COUNT gp)) e;
  let e := if id =? delegator (privileged_services e)
           then with_privileged (set_delegator (delegator priv) (privileged_services e)) e else e in
  let e := if id =? registrar (privileged_services e)
           then with_privileged (set_registrar (registrar priv) (privileged_services e)) e else e in
  let e := if id =? delegator pre then set_validators (validator_queue out) e else e in
  e ← each (take_queue (assigners pre) out id) (py_range 0 (CORE_COUNT gp)) e;
  Ret (e, v).

(** The manager's changes prevail. *)
Definition override_assigner (pre : PrivilegedServicesState) (v : ManagerView) (c : Z) (e : AccumulationStateComponents)
    : outcome state_exn AccumulationStateComponents :=
  a ← get_item (assigners pre) c;
  b ← get_item (mv_assigners v) c;
  if negb (a =? b) then
    l ← set_item (assigners (privileged_services e)) c b;
    Ret (with_privileged (set_assigners l (privileged_services e)) e)
  else Ret e.

Definition override_privileges (gp : GpConstants) (pre : PrivilegedServicesState) (v : ManagerView) (e : AccumulationStateComponents)
    : outcome state_exn AccumulationStateComponents :=
  e ← each (override_assigner pre v) (py_range 0 (CORE_COUNT gp)) e;
  let e := if negb (delegator pre =? mv_delegator v) then with_privileged (set_delegator (mv_delegator v) (privileged_services e)) e else e in
  Ret (if negb (registrar pre =? mv_registrar v) then with_privileged (set_registrar (mv_registrar v) (privileged_services e)) e else e).

(** ** [parallel_accumulation] *)

(** The services of a round, ascending. *)
Definition service_ids (transfers : list DeferredTransfer) (reports : list WorkReport) (auto : gmap Z Z) : list Z :=
  merge_sort Z.le (elements (list_to_set (concat (map (fun w => map wd_service_id (wr_results w)) reports) ++
    map fst (map_to_list auto) ++ map tr_receiver transfers) : gset Z)).

Definition by_id (x y : output) : Prop := x.1 <= y.1.

(** Accumulating services one after the other. *)
Fixpoint run_services (step : Z -> option (outcome exn PvmAccumulateOutput)) (ids : list Z) : acc (list output) :=
  match ids with
  | [] => mret []
  | id :: ids => out ← of_invocation (step id); outs ← run_services step ids; mret ((id, out) :: outs)
  end.

#[global] Instance by_id_dec : forall x y : output, Decision (by_id x y) := fun x y => Z_le_dec x.1 y.1.

(** In a pool, the outputs are sorted again. *)
Definition collect_outputs (pool : option (list Z -> list Z)) (step : Z -> option (outcome exn PvmAccumulateOutput)) (ids : list Z)
    : acc (list output) :=
  match pool with
  | None => run_services step ids
  | Some arrival => outs ← run_services step (arrival ids); mret (merge_sort by_id outs)
  end.

(** The changes of each kind are written to the block's transaction. *)
Definition write_account (change : Z * option ServiceAccount) (st : ServicesState) : outcome state_exn ServicesState :=
  match change with
  | (s, None) => delete_service_account s true st
  | (s, Some a) => store_service_account s a true st
  end.
Definition write_item (change : Z * bytes * option bytes) (st : ServicesState) : outcome state_exn ServicesState :=
  match change with
  | (s, k, None) => delete_storage_item hash s k true st
  | (s, k, Some v) => store_storage_item hash s k v true st
  end.
Definition write_preimage (change : Z * bytes * option bytes) (st : ServicesState) : outcome state_exn ServicesState :=
  match change with
  | (s, h, None) => delete_preimage hash s h true st
  | (s, _, Some v) => store_preimage hash s v true st
  end.
Definition write_availability (change : Z * bytes * Z * option (list Z)) (st : ServicesState) : outcome state_exn ServicesState :=
  match change with
  | (s, h, l, None) => delete_preimage_availability hash s h l true st
  | (s, h, l, Some v) => store_preimage_availability hash s h l v true st
  end.

Definition write_changes (p : PendingChanges) (st : ServicesState) : outcome state_exn ServicesState :=
  let st := mkServicesState p (state_storage st) (materialized st) in
  st ← each write_account (items (pc_accounts p)) st;
  st ← each write_item (items (pc_storage_items p)) st;
  st ← each write_preimage (items (pc_preimages p)) st;
  each write_availability (items (pc_availability p)) st.

(** A preimage that an output provides, possibly to another service. *)
Definition provide_to (slot : Z) (p : Z * bytes) (st : ServicesState) : outcome state_exn ServicesState :=
  let '(s, preimage) := p in
  found ← service_exists s true st;
  if negb found then Ret st
  else
    let preimage_hash := hash preimage in
    let preimage_length := Z.of_nat (length preimage) in
    match retrieve_preimage_availability hash s preimage_hash preimage_length st with
    | Raise StateKeyNoResult => Ret st
    | Raise e => Raise e
    | Ret [] =>
        st ← (if bool_decide (s ∈ materialized st) then Ret st
              else _ ← retrieve_service_account s true st; Ret (with_materialized ({[ s ]} ∪ materialized st) st));
        st ← store_preimage_availability hash s preimage_hash preimage_length [slot] true st;
        store_preimage hash s preimage true st
    | Ret _ => Ret st
    end.

Definition commitment_of (outputs : list output) : gset (Z * bytes) :=
  list_to_set (omap (fun o => (fun b => (o.1, b)) <$> pa_accumulation_output o.2) outputs).

(** What the round does with the outputs. *)
Definition settle (c : AccumulationSettings) (e : AccumulationStateComponents) (outputs : list output)
    : outcome state_exn AccumulationStateComponents :=
  let pre := privileged_services e in
  let gp := as_constants c in
  pending ← merge_accumulation_service_changes (AccumContext.services e) outputs;
  '(e, view) ← each (take_privileges gp pre) outputs (e, mkManagerView (assigners pre) (delegator pre) (registrar pre));
  st ← write_changes pending (AccumContext.services e);
  st ← each (provide_to (as_timeslot c)) (concat (map (fun o => pa_preimages o.2) outputs)) st;
  st ← add_pending_changes st;
  override_privileges gp pre view (replace_services st e).

Definition parallel_accumulation (c : AccumulationSettings) (e : AccumulationStateComponents) (transfers : list DeferredTransfer)
    (reports : list WorkReport) (auto : gmap Z Z) : acc ParallelAccumulationOutput :=
  outputs ← collect_outputs (as_pool c) (single_step_accumulation c e transfers reports auto) (service_ids transfers reports auto);
  e ← of_state (settle c e outputs);
  mret (mkParallel e (concat (map (fun o => pa_deferred_transfers o.2) outputs)) (commitment_of outputs)
          (list_to_map (map (fun o => (o.1, pa_gas_used o.2)) outputs))).

(** ** [full_sequential_accumulation] *)

Definition report_gas (w : WorkReport) : Z := sum_of wd_accumulate_gas (wr_results w).

(** How many reports fit into the gas, with [reserved] set aside. *)
Fixpoint reports_within (gas_limit reserved : Z) (reports : list WorkReport) : nat :=
  match reports with
  | [] => O
  | w :: reports =>
      let reserved := reserved + report_gas w in
      if gas_limit <? reserved then O else S (reports_within gas_limit reserved reports)
  end.

(** [depth] frames are left on Python's stack. *)
Fixpoint full_sequential_accumulation (depth : nat) (c : AccumulationSettings) (gas_limit : Z) (transfers : list DeferredTransfer)
    (reports : list WorkReport) (e : AccumulationStateComponents) (auto : gmap Z Z) : acc FullAccumulationOutput :=
  match depth with
  | O => of_state (Raise RecursionDepth)
  | S depth =>
      let i := reports_within gas_limit (sum_of tr_gas_limit transfers + sum_values auto) reports in
      if Z.of_nat (length transfers) + Z.of_nat i + Z.of_nat (size auto) =? 0 then mret (mkFull 0 e ∅ ∅ [])
      else
        out ← parallel_accumulation c e transfers (take i reports) auto;
        let next_gas_limit := gas_limit + sum_of tr_gas_limit (pl_deferred_transfers out) - sum_values (pl_accumulation_gas_utilized out) in
        second ← full_sequential_accumulation depth c next_gas_limit (pl_deferred_transfers out) (drop i reports)
                   (pl_accumulation_state out) ∅;
        mret (mkFull (Z.of_nat i + nr_work_results_accumulated second) (post_accumulation_state second)
                (pl_accumulation_commitment out ∪ accumulation_commitment second)
                (sum_dict_values (pl_accumulation_gas_utilized out) (accumulation_gas_utilized second))
                (transfers ++ processed_transfers second))
  end.

(** ** [state_transition_accumulation] *)

(** [last_accumulation_slot = ...] *)
Definition set_last_accumulation_slot (slot : Z) (a : ServiceAccount) : ServiceAccount :=
  mkServiceAccount (code_hash a) (balance a) (gas_limit_accumulate a) (gas_limit_on_transfer a) (footprint_storage_bytes a)
    (deposit_offset a) (footprint_storage_items a) (creation_slot a) slot (parent_service a).

Definition touch_service (slot : Z) (s : Z) (st : ServicesState) : outcome state_exn ServicesState :=
  match retrieve_service_account s true st with
  | Ret a =>
      match store_service_account s (set_last_accumulation_slot slot a) true st with
      | Raise StateKeyNoResult => Ret st
      | r => r
      end
  | Raise StateKeyNoResult => Ret st
  | Raise e => Raise e
  end.

(** The gas of a block's accumulation. *)
Definition block_gas (gp : GpConstants) (p : PrivilegedServicesState) : Z :=
  Z.max (GAS_TOTAL gp) (GAS_ACCUMULATION gp * CORE_COUNT gp + sum_values (always_accumulators p)).

Definition state_transition_accumulation (depth : nat) (c : AccumulationSettings) (accumulatable_work_reports : list WorkReport)
    (pre : AccumulationStateComponents) : acc ServicesAfterAccumulationOutput :=
  let auto := always_accumulators (privileged_services pre) in
  output ← full_sequential_accumulation depth c (block_gas (as_constants c) (privileged_services pre)) []
             accumulatable_work_reports (detached pre) auto;
  let statistics := accumulation_statistics (accumulation_gas_utilized output) accumulatable_work_reports
                      (nr_work_results_accumulated output) (map tr_receiver (processed_transfers output)) in
  let e := post_accumulation_state output in
  st ← of_state (each (touch_service (as_timeslot c)) (map fst (items statistics)) (AccumContext.services e));
  mret (mkAfterAccumulation (replace_services st e) (accumulation_commitment output) (nr_work_results_accumulated output)
          (accumulation_gas_utilized output) statistics).
End services.
