(* ===== verification/Preimages.v ===== *)
(** * The preimages extrinsic

    What the validation of the preimages of a block accepts ([validate_extrinsic_preimages]), and
    what providing them does ([state_transition_after_preimages]): every preimage that was requested
    can be looked up from the slot of the block on, and nothing else changes. *)

From Stdlib Require Import ZArith Lia Bool List.
From stdpp Require Import base numbers option list sets gmap sorting.
From S2P Require Import Prelude ByteOrder Graypaper StateBase Storage StateKeys Accounts Pending Services.
Import ListNotations.

#[local] Open Scope Z_scope.

Section preimages.
Context {codec : Codec} (hash : bytes -> bytes).
Implicit Types (p q : Preimage) (st : ServicesState).

(** ** Order *)

(** The requester, most significant byte first, then the data. *)
Definition order_key p : bytes := rev (le_bytes 4 (requester p)) ++ blob p.

Lemma sort_key_run p : service_id (requester p) -> sort_key p = Ret (order_key p).
Proof using.
  intros Hp. unfold sort_key. by rewrite (proj2 (to_bytes4_ret (requester p) (le_bytes 4 (requester p)))) by by split.
Qed.

Lemma order_key_inj p q : service_id (requester p) -> service_id (requester q) -> order_key p = order_key q -> p = q.
Proof using.
  intros Hp Hq H. apply app_inj_1 in H as [H1 H2]; [|by rewrite !length_rev, !length_le_bytes].
  apply (f_equal (@rev Z)) in H1. rewrite !rev_involutive in H1. apply le_bytes_inj in H1; [|done..]. destruct p, q; cbn in *. congruence.
Qed.

Lemma are_preimages_sorted_run ps : Forall (fun p => service_id (requester p)) ps ->
  are_preimages_sorted ps = Ret (adjacent bytes_leb (map order_key ps)).
Proof using.
  induction 1 as [|p ps Hp Hps IH]; [done|]. destruct Hps as [|q ps Hq Hps]; [done|].
  change (are_preimages_sorted (p :: q :: ps)) with (a ← sort_key p; b ← sort_key q; if bytes_leb a b then are_preimages_sorted (q :: ps) else Ret false).
  rewrite !sort_key_run by done. cbn [mbind outcome_bind]. rewrite IH. cbn [map adjacent]. by destruct (bytes_leb _ _).
Qed.

Lemma unique_keys ps : Forall (fun p => service_id (requester p)) ps -> are_preimages_unique ps = true <-> NoDup (map order_key ps).
Proof using.
  intros Hps. unfold are_preimages_unique. rewrite negb_true_iff, has_duplicates_false.
  assert (forall {B} (f : Preimage -> B), (forall p q, p ∈ ps -> q ∈ ps -> f p = f q -> p = q) -> NoDup (map f ps) <-> NoDup ps) as H.
  { intros B f Hf. clear Hps. induction ps as [|p ps IH]; [by split; constructor|]. cbn [map]. rewrite !NoDup_cons, IH by (intros; apply Hf; [by right|by right|done]).
    split; intros [Hp Hn]; (split; [|done]).
    - intros Hin. apply Hp. by apply list_elem_of_fmap_2.
    - intros (q & Hq & Hin)%list_elem_of_fmap. apply Hp. rewrite (Hf p q); [done|by left|by right|done]. }
  rewrite Forall_forall in Hps. rewrite !H; [done| |].
  - intros p q Hp Hq. apply order_key_inj; by apply Hps.
  - intros [] [] _ _ [= -> ->]. done.
Qed.

(** The validation accepts a preimages extrinsic exactly when it is strictly ascending, by
    requester and then data, and every preimage is needed: requested by its service and not
    there; what it refuses it refuses with one of its two error codes, unless the look-up of a
    preimage raises. *)
Theorem preimages_accepted ps st : Forall (fun p => service_id (requester p)) ps ->
  (validate_extrinsic_preimages hash ps st = Ret tt <->
     StronglySorted (fun p q => bytes_lt (order_key p) (order_key q)) ps /\
     Forall (fun p => is_preimage_needed hash (requester p) (blob p) st = Ret true) ps) /\
  (forall x, validate_extrinsic_preimages hash ps st = Raise x ->
     x = StateTransitionError (ServicesCode ServicesErrorCode.preimages_not_sorted_unique) \/
     x = StateTransitionError (ServicesCode ServicesErrorCode.preimage_unneeded) \/
     exists p, p ∈ ps /\ is_preimage_needed hash (requester p) (blob p) st = Raise x).
Proof using.
  intros Hps. destruct ps as [|p0 ps0] eqn:Eps.
  { split; [|done]. split; [|done]. intros _. split; constructor. }
  rewrite <- Eps in *. assert (validate_extrinsic_preimages hash ps st =
    (_ ← raise_if (negb (are_preimages_unique ps)) (StateTransitionError (ServicesCode ServicesErrorCode.preimages_not_sorted_unique));
     sorted ← are_preimages_sorted ps;
     _ ← raise_if (negb sorted) (StateTransitionError (ServicesCode ServicesErrorCode.preimages_not_sorted_unique));
     every ps (fun p => needed ← is_preimage_needed hash (requester p) (blob p) st;
       raise_if (negb needed) (StateTransitionError (ServicesCode ServicesErrorCode.preimage_unneeded))))) as -> by by rewrite Eps.
  clear Eps p0 ps0. rewrite (are_preimages_sorted_run ps Hps). cbn [mbind outcome_bind]. split.
  - rewrite bind_ret_unit, raise_if_ret, bind_ret_unit, raise_if_ret, !negb_false_iff, every_ret, (unique_keys ps Hps).
    rewrite (adjacent_sorted bytes_le bytes_leb) by done.
    assert (StronglySorted (fun p q => bytes_lt (order_key p) (order_key q)) ps <-> StronglySorted bytes_lt (map order_key ps)) as ->.
    { clear Hps. induction ps as [|p ps IH]; [by split; constructor|]. cbn [map]. rewrite !StronglySorted_cons, IH. 
      change (map order_key ps) with (order_key <$> ps). by rewrite Forall_fmap. }
    rewrite <- (sorted_NoDup_strict bytes_le bytes_lt) by exact bytes_le_lt_eq. rewrite Forall_forall.
    assert ((forall p, p ∈ ps -> (needed ← is_preimage_needed hash (requester p) (blob p) st;
       raise_if (negb needed) (StateTransitionError (ServicesCode ServicesErrorCode.preimage_unneeded))) = Ret tt) <->
       (forall p, p ∈ ps -> is_preimage_needed hash (requester p) (blob p) st = Ret true)) as ->; [|tauto].
    split; intros H p Hp; specialize (H p Hp); destruct (is_preimage_needed _ _ _ _) as [[]|]; done.
  - intros x Hx. apply bind_raise in Hx as [Hx%raise_if_raise|(_ & _ & Hx)]; [by left|].
    apply bind_raise in Hx as [Hx%raise_if_raise|(_ & _ & Hx)]; [by left|].
    apply every_raise in Hx as (p & Hp & Hx). right. apply bind_raise in Hx as [Hx|(b & _ & Hx%raise_if_raise)]; [right; by exists p|by left].
Qed.

(** ** Providing *)

Abbreviation preimage_of p st := (retrieve_preimage hash (requester p) (hash (blob p)) st).
Abbreviation request_of p st := (retrieve_preimage_availability hash (requester p) (hash (blob p)) (Z.of_nat (length (blob p))) st).

(** The two keys of a preimage. *)
Definition state_keys p : list bytes :=
  match state_key_constructor_preimage hash (requester p) (hash (blob p)),
        state_key_constructor_preimage_availability hash (requester p) (hash (blob p)) (Z.of_nat (length (blob p))) with
  | Ret a, Ret b => [a; b]
  | _, _ => []
  end.

Definition typed p : Prop := service_id (requester p) /\ Z.of_nat (length (blob p)) < 2 ^ 32.
Definition apart p q : Prop := forall k, k ∈ state_keys p -> k ∉ state_keys q.

Lemma state_keys_run p : (forall x, length (hash x) = 32%nat) -> typed p -> exists a b, state_keys p = [a; b] /\
  state_key_constructor_preimage hash (requester p) (hash (blob p)) = Ret a /\
  state_key_constructor_preimage_availability hash (requester p) (hash (blob p)) (Z.of_nat (length (blob p))) = Ret b.
Proof using.
  intros Hh [Hid Hl]. unfold state_keys. destruct (preimage_key_total hash Hh (requester p) (hash (blob p)) Hid) as [a Ha].
  destruct (availability_key_total hash Hh (requester p) (hash (blob p)) (Z.of_nat (length (blob p))) Hid ltac:(lia)) as [b Hb].
  exists a, b. by rewrite Ha, Hb.
Qed.

(** Two states of which everything reads the same whose key is not among [keys]. *)
Definition elsewhere (keys : list bytes) (key : outcome state_exn bytes) : Prop := forall k, key = Ret k -> k ∉ keys.

Record reads_alike (keys : list bytes) st st' : Prop := mkReadsAlike {
  ra_account id check : elsewhere keys (state_key_constructor_service_account id) ->
    retrieve_service_account id check st' = retrieve_service_account id check st;
  ra_item id k : elsewhere keys (state_key_constructor_storage_item hash id k) ->
    retrieve_storage_item hash id k st' = retrieve_storage_item hash id k st;
  ra_preimage id h : elsewhere keys (state_key_constructor_preimage hash id h) ->
    retrieve_preimage hash id h st' = retrieve_preimage hash id h st;
  ra_availability id h l : elsewhere keys (state_key_constructor_preimage_availability hash id h l) ->
    retrieve_preimage_availability hash id h l st' = retrieve_preimage_availability hash id h l st
}.

(** Reads see the pending change of their key and the storage at it. *)
Lemma reads_alike_intro keys st st' :
  pc_accounts (pending_changes st') = pc_accounts (pending_changes st) ->
  pc_storage_items (pending_changes st') = pc_storage_items (pending_changes st) ->
  (forall id h, elsewhere keys (state_key_constructor_preimage hash id h) ->
     pc_preimages (pending_changes st') !! (id, h) = pc_preimages (pending_changes st) !! (id, h)) ->
  (forall id h l, elsewhere keys (state_key_constructor_preimage_availability hash id h l) ->
     pc_availability (pending_changes st') !! (id, h, l) = pc_availability (pending_changes st) !! (id, h, l)) ->
  (state_storage st' = None <-> state_storage st = None) -> (forall k, k ∉ keys -> storage_get st' k = storage_get st k) ->
  reads_alike keys st st'.
Proof using.
  intros Ha Hi Hp Hv Hs Hk.
  assert (forall A (r r' : outcome state_exn A), r' = r ->
    match state_storage st' with None => Raise ValueError | Some _ => r' end = match state_storage st with None => Raise ValueError | Some _ => r end) as Hopen.
  { intros A r r' ->. destruct (state_storage st), (state_storage st'); naive_solver. }
  split.
  - intros id check He. unfold retrieve_service_account. rewrite Ha. destruct (_ <=? _); [done|].
    destruct (if check then _ else _) as [[a|]|]; [done..|]. apply Hopen.
    destruct (state_key_constructor_service_account id) as [k|]; [|done]. cbn [mbind outcome_bind]. by rewrite (Hk k) by by apply He.
  - intros id k He. unfold retrieve_storage_item. rewrite Hi. destruct (pc_storage_items _ !! _); [done|]. apply Hopen.
    destruct (state_key_constructor_storage_item hash id k) as [k'|]; [|done]. cbn [mbind outcome_bind]. by rewrite (Hk k') by by apply He.
  - intros id h He. unfold retrieve_preimage. rewrite (Hp id h He). destruct (pc_preimages _ !! _); [done|]. apply Hopen.
    destruct (state_key_constructor_preimage hash id h) as [k|]; [|done]. cbn [mbind outcome_bind]. by rewrite (Hk k) by by apply He.
  - intros id h l He. unfold retrieve_preimage_availability. rewrite (Hv id h l He). destruct (_ && _); [|done].
    destruct (pc_availability _ !! _); [done|]. apply Hopen.
    destruct (state_key_constructor_preimage_availability hash id h l) as [k|]; [|done]. cbn [mbind outcome_bind]. by rewrite (Hk k) by by apply He.
Qed.

Lemma reads_alike_trans keys keys' st1 st2 st3 : reads_alike keys st1 st2 -> reads_alike keys' st2 st3 -> reads_alike (keys ++ keys') st1 st3.
Proof using.
  intros [A1 I1 P1 V1] [A2 I2 P2 V2].
  assert (forall key, elsewhere (keys ++ keys') key -> elsewhere keys key /\ elsewhere keys' key) as Hsplit.
  { intros key He. split; intros k Hk Hin; apply (He k Hk), elem_of_app; [by left|by right]. }
  split; intros; edestruct Hsplit as [He1 He2]; try eassumption; [by rewrite A2, A1|by rewrite I2, I1|by rewrite P2, P1|by rewrite V2, V1].
Qed.

Lemma reads_alike_refl st : reads_alike [] st st.
Proof using. by split. Qed.

Lemma apart_alike p q st st' : (forall x, length (hash x) = 32%nat) -> typed q -> apart q p -> reads_alike (state_keys p) st st' ->
  preimage_of q st' = preimage_of q st /\ request_of q st' = request_of q st.
Proof using.
  intros Hh Hq Hap [_ _ Hp Hv]. destruct (state_keys_run q Hh Hq) as (a & b & E & Ha & Hb).
  split; [apply Hp|apply Hv]; intros k Hk; apply Hap; rewrite E.
  - rewrite Ha in Hk. injection Hk as ->. by left.
  - rewrite Hb in Hk. injection Hk as ->. by right; left.
Qed.

(** What one preimage does that is needed. *)
Record provided slot p st st' : Prop := mkProvided {
  pv_preimage : preimage_of p st' = Ret (blob p);
  pv_request : request_of p st' = Ret [slot];
  pv_storage : is_Some (state_storage st');
  pv_frame : reads_alike (state_keys p) st st'
}.

Lemma needed_spec p st : is_preimage_needed hash (requester p) (blob p) st = Ret true <->
  preimage_exists hash (requester p) (hash (blob p)) st = Ret false /\ request_of p st = Ret [].
Proof using.
  unfold is_preimage_needed. destruct (preimage_exists _ _ _ _) as [[]|]; cbn [mbind outcome_bind]; [naive_solver| |naive_solver].
  destruct (request_of p st) as [l|x]; [|destruct x; naive_solver]. case_bool_decide; naive_solver.
Qed.

Lemma provide_run slot p st : (forall x, length (hash x) = 32%nat) -> u32 slot -> typed p -> is_Some (state_storage st) ->
  is_preimage_needed hash (requester p) (blob p) st = Ret true ->
  exists st', provide_preimage hash slot p st = Ret st' /\ provided slot p st st'.
Proof using.
  intros Hh Hslot Ht [s Hs] [He Hr]%needed_spec. destruct (state_keys_run p Hh Ht) as (a & b & E & Ha & Hb).
  unfold provide_preimage. rewrite He, Hr. cbn [mbind outcome_bind]. rewrite bool_decide_eq_true_2 by done. cbn [negb andb].
  unfold store_preimage. rewrite Ha. cbn [mbind outcome_bind]. unfold storage_write at 1. cbn [state_storage with_preimages]. rewrite Hs.
  cbn [mbind outcome_bind]. unfold store_preimage_availability. rewrite Hb, vec_u32_encoded_run by by apply List.Forall_cons. cbn [mbind outcome_bind].
  set (st1 := with_availability _ _). destruct (storage_write (put b (VecU32_encode [slot])) st1) as [st'|x] eqn:Hw; [|done].
  exists st'. split; [done|].
  assert (pending_changes st' = pending_changes st1) as Hpend by (apply (storage_write_get (Some (VecU32_encode [slot])) b b) in Hw as [-> _]; done).
  assert (is_Some (state_storage st')) as Hsome by (revert Hw; unfold storage_write; destruct (state_storage st1); [intros [= <-]; by eexists|done]).
  assert (forall k, k ∉ state_keys p -> storage_get st' k = storage_get st k) as Hget.
  { intros k Hk. rewrite E in Hk. rewrite !not_elem_of_cons in Hk. destruct Hk as (Hka & Hkb & _).
    apply (storage_write_get (Some (VecU32_encode [slot])) b k) in Hw as [_ ->]. rewrite decide_False by done.
    unfold st1. pose proof (get_write (Some (blob p)) a k s) as Hg. rewrite decide_False in Hg by done.
    unfold storage_get. cbn [with_availability with_preimages state_storage]. by rewrite Hg, Hs. }
  split; [| |done|].
  - unfold retrieve_preimage. rewrite Hpend. cbn [st1 pending_changes with_availability with_preimages pc_preimages]. by rewrite lookup_insert_eq.
  - unfold retrieve_preimage_availability. rewrite Hpend. cbn [st1 pending_changes with_availability with_preimages pc_availability].
    rewrite lookup_insert_eq. destruct Ht as [[_ Hid] Hl]. by rewrite (proj2 (Z.ltb_lt _ _) Hid), (proj2 (Z.ltb_lt _ _) Hl).
  - apply reads_alike_intro; [by rewrite Hpend|by rewrite Hpend| | |destruct Hsome as [s' Hs']; by rewrite Hs, Hs'|exact Hget];
      rewrite Hpend; cbn [st1 pending_changes with_availability with_preimages pc_preimages pc_availability].
    + intros id h Hel. apply lookup_insert_ne. intros [= <- <-]. apply (Hel a Ha). rewrite E. by left.
    + intros id h l Hel. apply lookup_insert_ne. intros [= <- <- <-]. apply (Hel b Hb). rewrite E. by right; left.
Qed.

Definition all_needed ps st : Prop := Forall (fun p => is_preimage_needed hash (requester p) (blob p) st = Ret true) ps.

Lemma needed_frame slot p q st st' : (forall x, length (hash x) = 32%nat) -> provided slot p st st' -> typed q -> apart q p ->
  is_preimage_needed hash (requester q) (blob q) st' = is_preimage_needed hash (requester q) (blob q) st.
Proof using.
  intros Hh Hp Hq Ha. destruct (apart_alike p q st st' Hh Hq Ha (pv_frame _ _ _ _ Hp)) as [E1 E2]. unfold is_preimage_needed, preimage_exists. by rewrite E1, E2.
Qed.

(** The preimages of a list have keys of their own. *)
Definition separate ps : Prop := ForallOrdPairs apart ps.

Lemma apart_sym p q : apart p q -> apart q p.
Proof using. intros H k Hq Hp. by apply (H k). Qed.

Lemma historical_run p t slot st : preimage_of p st = Ret (blob p) -> request_of p st = Ret [slot] -> slot <= t ->
  historical_preimage_lookup hash (requester p) t (hash (blob p)) st = Ret (Some (blob p)).
Proof using.
  intros Hp Hr Ht. unfold historical_preimage_lookup. rewrite Hp. cbn [mbind outcome_bind]. rewrite Hr. cbn [mbind outcome_bind is_preimage_available].
  by rewrite (proj2 (Z.leb_le _ _) Ht).
Qed.

(** The states of a list of preimages provided in turn. *)
Lemma provide_all slot ps : (forall x, length (hash x) = 32%nat) -> u32 slot -> Forall typed ps -> separate ps -> forall st,
  is_Some (state_storage st) -> all_needed ps st ->
  exists st', state_transition_after_preimages hash ps st slot = Ret st' /\ is_Some (state_storage st') /\
    Forall (fun p => preimage_of p st' = Ret (blob p) /\ request_of p st' = Ret [slot]) ps /\ reads_alike (concat (map state_keys ps)) st st'.
Proof using.
  intros Hh Hslot Hty Hsep. unfold state_transition_after_preimages. induction Hsep as [|p ps Hp Hsep IH]; intros st Hs Hneed; cbn [each map concat].
  { exists st. split_and!; [done..|by apply Forall_nil|apply reads_alike_refl]. }
  apply Forall_cons in Hty as [Htp Hty]. apply Forall_cons in Hneed as [Hnp Hneed].
  destruct (provide_run slot p st Hh Hslot Htp Hs Hnp) as (st1 & -> & Hpv). cbn [mbind outcome_bind].
  destruct (IH Hty st1 (pv_storage _ _ _ _ Hpv)) as (st' & Hrun & Hs' & Hall & Hframe).
  { apply Forall_forall. intros q Hq. rewrite (needed_frame slot p q st st1 Hh Hpv).
    - eapply Forall_forall in Hneed; [exact Hneed|done].
    - eapply Forall_forall in Hty; [exact Hty|done].
    - apply apart_sym. eapply Forall_forall in Hp; [exact Hp|done]. }
  exists st'. split_and!; [exact Hrun|done| |eapply reads_alike_trans; [apply Hpv|done]]. apply Forall_cons. split; [|done].
  destruct (state_keys_run p Hh Htp) as (a & b & E & Ha & Hb).
  assert (forall k, k ∈ state_keys p -> k ∉ concat (map state_keys ps)) as Hout.
  { intros k Hk (l & Hl & Hkl)%list_elem_of_In%in_concat. apply list_elem_of_In in Hl, Hkl. apply list_elem_of_fmap in Hl as (q & -> & Hq).
    eapply Forall_forall in Hp; [|exact Hq]. by apply (Hp k Hk). }
  rewrite (ra_preimage _ _ _ Hframe), (ra_availability _ _ _ Hframe); [by split; apply Hpv|..];
    intros k Hk; apply Hout; rewrite E; [rewrite Hb in Hk|rewrite Ha in Hk]; injection Hk as ->; [by right; left|by left].
Qed.

(** C31: Providing the preimages of a block that are needed succeeds: afterwards each can be looked up
    by its service from the slot of the block on, and every account, storage item, preimage and
    request, of these services and of all others, reads as before unless its state key is one
    of the two keys of a preimage provided.  The preimages' own keys are assumed to differ. *)
Theorem preimages_provided slot ps st : (forall x, length (hash x) = 32%nat) -> u32 slot -> Forall typed ps -> separate ps ->
  is_Some (state_storage st) -> all_needed ps st ->
  exists st', state_transition_after_preimages hash ps st slot = Ret st' /\
    (forall p t, p ∈ ps -> slot <= t -> historical_preimage_lookup hash (requester p) t (hash (blob p)) st' = Ret (Some (blob p))) /\
    reads_alike (concat (map state_keys ps)) st st'.
Proof using.
  intros Hh Hslot Hty Hsep Hs Hneed. destruct (provide_all slot ps Hh Hslot Hty Hsep st Hs Hneed) as (st' & Hrun & _ & Hall & Hframe).
  exists st'. split_and!; [done| |done]. intros p t Hp Ht. eapply Forall_forall in Hall as [H1 H2]; [|exact Hp].
  by apply (historical_run p t slot).
Qed.
End preimages.
