(* ===== verification/Merge.v ===== *)
(** * The merge of a round of accumulation

    What [_merge_accumulation_service_changes] makes of the changes of the services that were
    accumulated side by side: the invariants of its loops ([merging], [merged_items], [merged])
    and the rule of ownership they establish. *)

From Stdlib Require Import ZArith Lia Bool List.
From stdpp Require Import base numbers option list sets gmap.
From S2P Require Import Prelude Defs Invocation StateBase Storage StateKeys Accounts Pending AccumContext AccumCalls Accumulate Services.
Import ListNotations.

#[local] Open Scope Z_scope.

Abbreviation round_output := (Z * PvmAccumulateOutput)%type.
Abbreviation accounts_of o := (pc_accounts (pending_of o)).

(** A service there was before the round; one that some invocation has ejected. *)
Definition alive (st : ServicesState) `{Codec} (s : Z) : Prop := service_exists s true st = Ret true.
Definition ejected (outputs : list round_output) (s : Z) : Prop := exists o, o ∈ outputs /\ accounts_of o.2 !! s = Some None.

(** Which changes survive the merge: of a service ejected the removals; of another that there
    was only its own; of a new one those of its creator. *)
Definition account_survives `{Codec} (st : ServicesState) (outputs : list round_output) (s : Z) (v : option ServiceAccount) : Prop :=
  (alive st s /\ ejected outputs s /\ v = None) \/
  (alive st s /\ ~ ejected outputs s /\ exists o, (s, o) ∈ outputs /\ accounts_of o !! s = Some v) \/
  (~ alive st s /\ v <> None /\ exists o, o ∈ outputs /\ accounts_of o.2 !! s = Some v).

Definition item_survives `{Codec} (st : ServicesState) (outputs : list round_output) {K V} `{Countable K} (owner : K -> Z)
    (changes : PendingChanges -> gmap K (option V)) (k : K) (v : option V) : Prop :=
  (alive st (owner k) /\ ejected outputs (owner k) /\ v = None /\ exists o, o ∈ outputs /\ is_Some (changes (pending_of o.2) !! k)) \/
  (alive st (owner k) /\ ~ ejected outputs (owner k) /\ exists o, (owner k, o) ∈ outputs /\ changes (pending_of o) !! k = Some v) \/
  (~ alive st (owner k) /\ exists o, o ∈ outputs /\ changes (pending_of o.2) !! k = Some v /\
     exists a, accounts_of o.2 !! owner k = Some (Some a)).

(** Two invocations that create the same service. *)
Definition conflict `{Codec} (st : ServicesState) (outputs : list round_output) : Prop :=
  exists s o1 o2 a1 a2, ~ alive st s /\ o1 ∈ outputs /\ o2 ∈ outputs /\ o1.1 <> o2.1 /\
    accounts_of o1.2 !! s = Some (Some a1) /\ accounts_of o2.2 !! s = Some (Some a2).

Section merge.
Context {codec : Codec} (existing deleted : gset Z) (Hsub : deleted ⊆ existing).

(** Every change of an account with its writer, in the order in which they are merged. *)
Definition change : Type := Z * (Z * option ServiceAccount).
Definition account_changes (o : round_output) : list change := map (pair o.1) (map_to_list (accounts_of o.2)).

Definition takes (w s : Z) : Prop := (s ∉ deleted) /\ (s ∈ existing -> s = w).

Record merging (p : list change) (m : merge_state) : Prop := mkMerging {
  mg_from s v : pc_accounts m.1 !! s = Some v -> exists w a, v = Some a /\ (w, (s, Some a)) ∈ p /\ takes w s;
  mg_taken w s a : (w, (s, Some a)) ∈ p -> takes w s -> is_Some (pc_accounts m.1 !! s);
  mg_writer s w : m.2 !! s = Some w <-> (exists a, (w, (s, Some a)) ∈ p) /\ (s ∉ existing)
}.

Lemma elem_snoc {A} (x y : A) l : x ∈ l ++ [y] <-> x ∈ l \/ x = y.
Proof using. rewrite elem_of_app, list_elem_of_singleton. done. Qed.

Lemma merging_skip p m w s o : merging p m -> (forall a, o = Some a -> ~ takes w s /\ s ∈ existing) -> merging (p ++ [(w, (s, o))]) m.
Proof using.
  intros [H1 H2 H3] Hskip. split.
  - intros s' v Hv. destruct (H1 s' v Hv) as (w' & a & -> & Hin & Ht). exists w', a. split_and!; try done; try apply Ht. apply elem_snoc. by left.
  - intros w' s' a [Hin|[= -> -> <-]]%elem_snoc Ht; [by eapply H2|]. by destruct (Hskip a eq_refl).
  - intros s' w'. rewrite H3. split; intros [[a Ha] Hne]; (split; [|done]); exists a; [apply elem_snoc; by left|].
    apply elem_snoc in Ha as [Ha|[= -> -> <-]]; [done|]. by destruct (Hskip a eq_refl).
Qed.

Lemma merging_take p m w s a nw : merging p m -> takes w s ->
  (forall s' w', nw !! s' = Some w' <-> m.2 !! s' = Some w' \/ (s' = s /\ w' = w /\ s ∉ existing)) ->
  merging (p ++ [(w, (s, Some a))]) (set_account s (Some a) m.1, nw).
Proof using.
  intros [H1 H2 H3] Ht Hnw. split; cbn [fst snd set_account pc_accounts].
  - intros s' v. rewrite lookup_insert_Some. intros [[<- <-]|[_ Hv]]; [exists w, a; split_and!; try done; try apply Ht; apply elem_snoc; by right|].
    destruct (H1 s' v Hv) as (w' & b & -> & Hin & Ht'). exists w', b. split_and!; try done; try apply Ht'. apply elem_snoc. by left.
  - intros w' s' b [Hin|[= -> -> ->]]%elem_snoc Ht'; [|rewrite lookup_insert_eq; by eexists].
    destruct (decide (s' = s)) as [->|Hne]; [rewrite lookup_insert_eq; by eexists|]. rewrite lookup_insert_ne by congruence. by eapply H2.
  - intros s' w'. rewrite Hnw, H3. split.
    + intros [[[b Hb] Hne]|(-> & -> & Hne)]; (split; [|done]); [exists b; apply elem_snoc; by left|exists a; apply elem_snoc; by right].
    + intros [[b Hb] Hne]. apply elem_snoc in Hb as [Hb|[= -> -> ->]]; [left; split; [by exists b|done]|by right].
Qed.

(** One change: it is merged, or its service is new and another invocation has created it. *)
Lemma merge_account_step p m w ch : merging p m ->
  match merge_account existing deleted w ch m with
  | Ret m' => merging (p ++ [(w, ch)]) m' /\ pc_storage_items m'.1 = pc_storage_items m.1 /\
      pc_preimages m'.1 = pc_preimages m.1 /\ pc_availability m'.1 = pc_availability m.1 /\
      (forall s a w' a', ch = (s, Some a) -> s ∉ existing -> (w', (s, Some a')) ∈ p -> w' = w)
  | Raise x => x = BlockValidationError Message /\ exists s a w' a', ch = (s, Some a) /\ (s ∉ existing) /\ (w', (s, Some a')) ∈ p /\ w' <> w
  end.
Proof using Hsub.
  destruct ch as [s [a|]]; intros Hm; cbn [merge_account]; [|by split_and!; try done; apply merging_skip].
  case_bool_decide as Hdel; cbn [orb].
  { pose proof (Hsub _ Hdel). split_and!; try done; [apply merging_skip; [done|]; intros b _; split; [by intros []|done]|]. intros s' b w' b' [= <- <-]. done. }
  case_bool_decide as Hex; cbn [andb].
  - destruct (Z.eqb_spec s w) as [->|Hne]; cbn [negb mbind outcome_bind].
    + split_and!; try done; [|by intros s' b w' b' [= <- <-]]. apply merging_take; [done|by split|]. intros s' w'. naive_solver.
    + split_and!; try done; [|by intros s' b w' b' [= <- <-]]. apply merging_skip; [done|]. intros b _. split; [|done]. intros [_ H]. by apply Hne, H.
  - destruct (m.2 !! s) as [w'|] eqn:Hw.
    + pose proof Hw as Hw'. apply (mg_writer _ _ Hm) in Hw' as [[a' Ha'] _]. destruct (Z.eqb_spec w' w) as [->|Hne]; cbn [negb mbind outcome_bind].
      * split_and!; try done.
        -- apply merging_take; [done|by split|]. intros s' w'. rewrite lookup_insert_Some. destruct (decide (s' = s)) as [->|]; naive_solver.
        -- intros s' b w' b' [= <- <-] _ Hin. assert (m.2 !! s = Some w') as E by (apply (mg_writer _ _ Hm); split; [by exists b'|done]). congruence.
      * split; [done|]. by exists s, a, w', a'.
    + cbn [mbind outcome_bind]. split_and!; try done.
      * apply merging_take; [done|by split|]. intros s' w'. rewrite lookup_insert_Some. destruct (decide (s' = s)) as [->|]; naive_solver.
      * intros s' b w' b' [= <- <-] _ Hin. assert (m.2 !! s = Some w') as E by (apply (mg_writer _ _ Hm); split; [by exists b'|done]). congruence.
Qed.

(** The changes of one output, then of all. *)
Lemma merge_accounts_run w l : forall p m, merging p m ->
  match each (merge_account existing deleted w) l m with
  | Ret m' => merging (p ++ map (pair w) l) m' /\ pc_storage_items m'.1 = pc_storage_items m.1 /\
      pc_preimages m'.1 = pc_preimages m.1 /\ pc_availability m'.1 = pc_availability m.1 /\
      (forall s a w' a', (s, Some a) ∈ l -> s ∉ existing -> (w', (s, Some a')) ∈ p -> w' = w)
  | Raise x => x = BlockValidationError Message /\
      exists s a w' a', (s, Some a) ∈ l /\ (s ∉ existing) /\ (w', (s, Some a')) ∈ p /\ w' <> w
  end.
Proof using Hsub.
  induction l as [|ch l IH]; intros p m Hm; cbn [each map].
  { rewrite app_nil_r. split_and!; try done. intros s a w' a' Hin. by apply not_elem_of_nil in Hin. }
  pose proof (merge_account_step p m w ch Hm) as Hstep. destruct (merge_account existing deleted w ch m) as [m1|x]; cbn [mbind outcome_bind].
  2: { destruct Hstep as (-> & s & a & w' & a' & -> & ?). split; [done|]. exists s, a, w', a'. split; [by left|done]. }
  destruct Hstep as (Hm1 & E1 & E2 & E3 & Hno). specialize (IH _ _ Hm1). destruct (each (merge_account existing deleted w) l m1) as [m'|x].
  - destruct IH as (Hm' & E1' & E2' & E3' & Hno'). rewrite <- app_assoc in Hm'. split; [exact Hm'|]. split; [congruence|]. split; [congruence|].
    split; [congruence|]. intros s a w' a' [Hin|Hin]%elem_of_cons Hne Hp; [by eapply Hno|]. eapply Hno'; [done|done|]. apply elem_snoc. by left.
  - destruct IH as (-> & s & a & w' & a' & Hin & Hne & Hp & Hw). split; [done|]. exists s, a, w', a'. split; [by right|]. split; [done|].
    split; [|done]. apply elem_snoc in Hp as [Hp|[= ->]]; done.
Qed.

(** The value a key has after one output. *)
Definition has_account (accounts : gmap Z (option ServiceAccount)) (s : Z) : Prop := exists a, accounts !! s = Some (Some a).

#[local] Instance has_account_dec accounts s : Decision (has_account accounts s).
Proof using. destruct (accounts !! s) as [[a|]|] eqn:E; [left; by exists a|right; intros [a Ha]; congruence..]. Defined.

Definition takes_item (accounts : gmap Z (option ServiceAccount)) (w s : Z) : Prop :=
  (s = w /\ s ∈ existing) \/ ((s ∉ existing) /\ has_account accounts s).

#[local] Instance takes_item_dec accounts w s : Decision (takes_item accounts w s) := _.

Lemma takes_itemb accounts w s :
  (s =? w) && bool_decide (s ∈ existing) || bool_decide (s ∉ existing) && (match accounts !! s with Some (Some _) => true | _ => false end) = true
  <-> takes_item accounts w s.
Proof using.
  unfold takes_item, has_account. destruct (Z.eqb_spec s w), (accounts !! s) as [[a|]|]; repeat case_bool_decide; cbn [andb orb]; naive_solver.
Qed.

Lemma merge_item_list {K V} `{Countable K} (owner : K -> Z) w accounts (l : list (K * option V)) (target : gmap K (option V)) k v :
  NoDup l.*1 ->
  foldr (merge_item owner existing deleted w accounts) target l !! k = Some v <->
    (owner k ∈ deleted /\ v = None /\ k ∈ l.*1) \/
    ((owner k ∉ deleted) /\ takes_item accounts w (owner k) /\ (k, v) ∈ l) \/
    (target !! k = Some v /\ (k ∈ l.*1 -> (owner k ∉ deleted) /\ ~ takes_item accounts w (owner k))).
Proof using.
  induction l as [|[k' v'] l IH]; intros Hnd; cbn [foldr].
  { split; [intros Hk; right; right; split; [done|intros H1; by apply not_elem_of_nil in H1]|].
    intros [(_ & _ & H1)|[(_ & _ & H1)|[H1 _]]]; try by apply not_elem_of_nil in H1. done. }
  apply NoDup_cons in Hnd as [Hk' Hnd]. cbn [fst] in Hk'. specialize (IH Hnd).
  set (rest := foldr _ target l) in *.
  assert (merge_item owner existing deleted w accounts (k', v') rest =
    if decide (owner k' ∈ deleted) then <[k' := None]> rest else if decide (takes_item accounts w (owner k')) then <[k' := v']> rest else rest) as ->.
  { unfold merge_item. case_bool_decide as Hd; [by rewrite decide_True|]. rewrite (decide_False (P := owner k' ∈ deleted)) by done.
    pose proof (takes_itemb accounts w (owner k')) as Hb. destruct (decide (takes_item accounts w (owner k'))) as [Ht|Ht]; [by rewrite (proj2 Hb Ht)|].
    destruct (_ || _) eqn:E; [by destruct Ht; apply Hb|done]. }
  rewrite elem_of_cons, fmap_cons, elem_of_cons. cbn [fst].
  assert ((k, v) ∈ l -> k ∈ l.*1) as Hin by (intros H1; apply list_elem_of_fmap; by exists (k, v)).
  destruct (decide (k = k')) as [->|Hne].
  - assert (forall P : Prop, ((k', v) = (k', v') \/ P <-> v = v' \/ P)) as Hv by (intros P; split; intros [E|E]; [left; congruence|by right|left; congruence|by right]).
    rewrite Hv. clear Hv.
    case_decide as Hd; [|case_decide as Ht]; [rewrite lookup_insert_eq; naive_solver| rewrite lookup_insert_eq; naive_solver|].
    rewrite IH. naive_solver.
  - assert (forall P : Prop, ((k, v) = (k', v') \/ P <-> P)) as -> by (intros P; split; [intros [[= -> _]|H1]; done|by right]).
    assert (forall P : Prop, (k = k' \/ P <-> P)) as -> by (intros P; split; [intros [->|H1]; done|by right]).
    case_decide as Hd; [|case_decide as Ht]; rewrite ?lookup_insert_ne by done; exact IH.
Qed.

(** One map of items after a list of outputs. *)
Definition merged_items {K V} `{Countable K} (owner : K -> Z) (changes : PendingChanges -> gmap K (option V)) (os : list round_output)
    (target : gmap K (option V)) : Prop :=
  forall k v, target !! k = Some v <->
    (owner k ∈ deleted /\ v = None /\ exists o, o ∈ os /\ is_Some (changes (pending_of o.2) !! k)) \/
    ((owner k ∉ deleted) /\ exists o, o ∈ os /\ takes_item (accounts_of o.2) o.1 (owner k) /\ changes (pending_of o.2) !! k = Some v).

Definition exclusive (os : list round_output) (o : round_output) : Prop :=
  forall o' s, o' ∈ os -> takes_item (accounts_of o'.2) o'.1 s -> ~ takes_item (accounts_of o.2) o.1 s.

Lemma elem_keys {K V} `{Countable K} (m : gmap K V) k : k ∈ (map_to_list m).*1 <-> is_Some (m !! k).
Proof using.
  rewrite list_elem_of_fmap. split; [intros ([k' v] & -> & Hin); exists v; by apply elem_of_map_to_list|].
  intros [v Hv]. exists (k, v). split; [done|]. by apply elem_of_map_to_list.
Qed.

Lemma merge_items_run {K V} `{Countable K} (owner : K -> Z) (changes : PendingChanges -> gmap K (option V)) os o target :
  merged_items owner changes os target -> exclusive os o ->
  merged_items owner changes (os ++ [o]) (merge_items owner existing deleted o.1 (accounts_of o.2) (changes (pending_of o.2)) target).
Proof using.
  intros Hm Hx k v. unfold merge_items. rewrite merge_item_list by apply NoDup_fst_map_to_list.
  rewrite elem_of_map_to_list, elem_keys, (Hm k v). split.
  - intros [(Hd & -> & Hk)|[(Hd & Ht & Hk)|[[(Hd & -> & o' & Ho' & Hk)|(Hd & o' & Ho' & Hk)] _]]].
    + left. split_and!; [done..|]. exists o. split; [apply elem_snoc; by right|done].
    + right. split; [done|]. exists o. split; [apply elem_snoc; by right|done].
    + left. split_and!; [done..|]. exists o'. split; [apply elem_snoc; by left|done].
    + right. split; [done|]. exists o'. split; [apply elem_snoc; by left|done].
  - intros [(Hd & -> & o' & [Ho'| ->]%elem_snoc & Hk)|(Hd & o' & [Ho'| ->]%elem_snoc & Ht & Hk)].
    + destruct (changes (pending_of o.2) !! k) as [v'|] eqn:Ek; [left; by split_and!|].
      right; right. split; [left; split_and!; [done..|by exists o']|]. intros [v' Hv']. congruence.
    + left. by split_and!.
    + right; right. split; [right; split; [done|by exists o']|]. intros _. split; [done|]. by eapply Hx.
    + right; left. by split_and!.
Qed.

Record merged (os : list round_output) (m : merge_state) : Prop := mkMerged {
  md_accounts : merging (concat (map account_changes os)) m;
  md_storage : merged_items fst pc_storage_items os (pc_storage_items m.1);
  md_preimages : merged_items fst pc_preimages os (pc_preimages m.1);
  md_availability : merged_items (fun k => k.1.1) pc_availability os (pc_availability m.1)
}.

Lemma elem_changes os w s v : (w, (s, v)) ∈ concat (map account_changes os) <-> exists o, (w, o) ∈ os /\ accounts_of o !! s = Some v.
Proof using.
  rewrite list_elem_of_In, in_concat. split.
  - intros (l & ([w' o] & <- & Ho)%in_map_iff & ([s' v'] & [= -> -> ->] & Hin)%in_map_iff). exists o.
    apply list_elem_of_In in Ho. apply list_elem_of_In, elem_of_map_to_list in Hin. done.
  - intros (o & Ho & Hs). exists (account_changes (w, o)). rewrite list_elem_of_In in Ho. split; [by apply in_map|].
    apply in_map_iff. exists (s, v). split; [done|]. apply list_elem_of_In. by apply elem_of_map_to_list.
Qed.

Lemma merge_output_step os o m : merged os m -> o.1 ∉ os.*1 ->
  match merge_output existing deleted o m with
  | Ret m' => merged (os ++ [o]) m'
  | Raise x => x = BlockValidationError Message /\
      exists s o1 a1 a, (s ∉ existing) /\ o1 ∈ os /\ o1.1 <> o.1 /\ accounts_of o1.2 !! s = Some (Some a1) /\ accounts_of o.2 !! s = Some (Some a)
  end.
Proof using Hsub.
  intros [Ha Hs Hp Hv] Hnd. destruct o as [w out]. cbn [merge_output fst snd] in *.
  pose proof (merge_accounts_run w (map_to_list (accounts_of out)) _ m Ha) as Hrun.
  destruct (each _ _ m) as [[p nw]|x]; cbn [mbind outcome_bind].
  2: { destruct Hrun as (-> & s & a & w' & a' & Hin & Hne & (o' & Ho' & Ha')%elem_changes & Hw). split; [done|].
       exists s, (w', o'), a', a. apply elem_of_map_to_list in Hin. by split_and!. }
  destruct Hrun as (Hm & E1 & E2 & E3 & _). cbn [fst snd] in E1, E2, E3.
  assert (concat (map account_changes (os ++ [(w, out)])) = concat (map account_changes os) ++ map (pair w) (map_to_list (accounts_of out))) as Hp'.
  { rewrite map_app, concat_app. cbn [map concat]. by rewrite app_nil_r. }
  rewrite <- Hp' in Hm.
  assert (exclusive os (w, out)) as Hx.
  { intros [w' o'] s Ho' Ht' Ht. cbn [fst snd] in *. assert (w <> w') as Hww by (intros ->; apply Hnd, list_elem_of_fmap; by exists (w', o')).
    destruct Ht' as [[-> Hex]|[Hne [a' Ha']]], Ht as [[Es Hex']|[Hne' [a1 Ha1]]]; try done. apply Hww.
    assert (nw !! s = Some w) as E by (apply (mg_writer _ _ Hm); split; [exists a1; apply elem_changes; exists out; split; [by apply elem_snoc; right|done]|done]).
    assert (nw !! s = Some w') as E' by (apply (mg_writer _ _ Hm); split; [exists a'; apply elem_changes; exists o'; split; [by apply elem_snoc; left|done]|done]).
    congruence. }
  split; cbn [fst snd pc_accounts pc_storage_items pc_preimages pc_availability]; rewrite ?E1, ?E2, ?E3.
  - destruct Hm as [H1 H2 H3]. by split.
  - exact (merge_items_run fst pc_storage_items os (w, out) _ Hs Hx).
  - exact (merge_items_run fst pc_preimages os (w, out) _ Hp Hx).
  - exact (merge_items_run (fun k => k.1.1) pc_availability os (w, out) _ Hv Hx).
Qed.

Lemma merge_outputs_run l : forall os m, merged os m -> NoDup (os ++ l).*1 ->
  match each (merge_output existing deleted) l m with
  | Ret m' => merged (os ++ l) m'
  | Raise x => x = BlockValidationError Message /\
      exists s o1 o2 a1 a2, (s ∉ existing) /\ o1 ∈ os ++ l /\ o2 ∈ os ++ l /\ o1.1 <> o2.1 /\
        accounts_of o1.2 !! s = Some (Some a1) /\ accounts_of o2.2 !! s = Some (Some a2)
  end.
Proof using Hsub.
  induction l as [|o l IH]; intros os m Hm Hnd; cbn [each]; [by rewrite app_nil_r|].
  assert (o.1 ∉ os.*1) as Hno.
  { rewrite fmap_app, fmap_cons in Hnd. apply NoDup_app in Hnd as (_ & Hnd & _). intros Hin. destruct (Hnd _ Hin). by left. }
  pose proof (merge_output_step os o m Hm Hno) as Hstep. destruct (merge_output existing deleted o m) as [m1|x]; cbn [mbind outcome_bind].
  2: { destruct Hstep as (-> & s & o1 & a1 & a & Hne & Ho1 & Hw & H1 & H2). split; [done|]. exists s, o1, o, a1, a.
       split_and!; try done; apply elem_of_app; [by left|right; by left]. }
  specialize (IH (os ++ [o]) m1 Hstep). rewrite <- app_assoc in IH. exact (IH Hnd).
Qed.
End merge.

(** ** The services of a round *)

Section merge_spec.
Context {codec : Codec}.
Implicit Types (st : ServicesState) (outputs : list round_output).

Lemma elem_union_map {A} `{Countable B} (f : A -> gset B) (l : list A) x : x ∈ ⋃ (map f l) <-> exists a, a ∈ l /\ x ∈ f a.
Proof using.
  rewrite elem_of_union_list. change (map f l) with (f <$> l). setoid_rewrite list_elem_of_fmap. naive_solver.
Qed.

Lemma elem_changed_ids p s : s ∈ changed_ids p <->
  is_Some (pc_accounts p !! s) \/ (exists k, k.1 = s /\ is_Some (pc_storage_items p !! k)) \/
  (exists k, k.1 = s /\ is_Some (pc_preimages p !! k)) \/ exists k, k.1.1 = s /\ is_Some (pc_availability p !! k).
Proof using.
  unfold changed_ids. rewrite !elem_of_union, !elem_of_map. setoid_rewrite elem_of_dom. naive_solver.
Qed.

Lemma elem_candidates outputs s : s ∈ candidates outputs <-> exists o, o ∈ outputs /\ s ∈ changed_ids (pending_of o.2).
Proof using. apply elem_union_map. Qed.

Lemma existing_services_run st l : forall existing : gset Z,
  match each (fun s (existing : gset Z) => b ← service_exists s true st; Ret (if b : bool then {[ s ]} ∪ existing else existing)) l existing with
  | Ret found => forall s, s ∈ found <-> s ∈ existing \/ (s ∈ l /\ alive st s)
  | Raise x => exists s, s ∈ l /\ service_exists s true st = Raise x
  end.
Proof using.
  unfold alive. induction l as [|s l IH]; intros existing; cbn [each].
  { intros s. split; [by left|]. intros [H|[H%not_elem_of_nil _]]; done. }
  destruct (service_exists s true st) as [b|x] eqn:E; cbn [mbind outcome_bind]; [|by exists s; split; [left|]].
  specialize (IH (if b then {[ s ]} ∪ existing else existing)). destruct (each _ l _) as [found|x].
  - intros s'. rewrite IH, elem_of_cons. destruct b; [rewrite elem_of_union, elem_of_singleton|]; naive_solver congruence.
  - destruct IH as (s' & Hin & Hx). exists s'. split; [by right|done].
Qed.

Lemma elem_deleted existing outputs s : s ∈ deleted_services existing outputs <-> s ∈ existing /\ ejected outputs s.
Proof using.
  unfold deleted_services, ejected. rewrite elem_union_map. setoid_rewrite elem_of_list_to_set. setoid_rewrite list_elem_of_In.
  setoid_rewrite in_map_iff. setoid_rewrite <- list_elem_of_In. setoid_rewrite list_elem_of_filter. setoid_rewrite elem_of_map_to_list'.
  split.
  - intros (o & Ho & [s' v] & <- & [[Hin Hv] Hl]). cbn in *. subst. split; [done|]. by exists o.
  - intros (Hs & o & Ho & Hl). exists o. split; [done|]. exists (s, None). by split_and!.
Qed.

Lemma foldr_removals (l : list Z) (m : gmap Z (option ServiceAccount)) s :
  foldr (fun s => <[s := None]>) m l !! s = if decide (s ∈ l) then Some None else m !! s.
Proof using.
  induction l as [|x l IH]; cbn [foldr]; [by rewrite decide_False by apply not_elem_of_nil|].
  destruct (decide (s = x)) as [->|Hne]; [by rewrite lookup_insert_eq, decide_True by left|]. rewrite lookup_insert_ne, IH by done.
  apply decide_ext. rewrite elem_of_cons. naive_solver.
Qed.

Lemma same_output outputs w o1 o2 : NoDup outputs.*1 -> (w, o1) ∈ outputs -> (w, o2) ∈ outputs -> o1 = o2.
Proof using.
  intros Hnd (i & Hi)%list_elem_of_lookup (j & Hj)%list_elem_of_lookup.
  assert (i = j) as -> by (eapply (NoDup_lookup _ i j w Hnd); rewrite list_lookup_fmap; [by rewrite Hi|by rewrite Hj]). congruence.
Qed.

Lemma candidate_account outputs (o : round_output) s : o ∈ outputs -> is_Some (accounts_of o.2 !! s) -> s ∈ candidates outputs.
Proof using. intros Ho Hs. apply elem_candidates. exists o. split; [done|]. apply elem_changed_ids. by left. Qed.

Section items.
Context (st : ServicesState) (outputs : list round_output) (existing : gset Z) (Hnd : NoDup outputs.*1).
Context (Hex : forall s, s ∈ existing <-> s ∈ candidates outputs /\ alive st s).

Lemma existing_alive (o : round_output) s : o ∈ outputs -> s ∈ changed_ids (pending_of o.2) -> s ∈ existing <-> alive st s.
Proof using Hex. intros Ho Hs. rewrite Hex. split; [by intros []|]. intros Ha. split; [|done]. apply elem_candidates. by exists o. Qed.

Lemma alive_account (o : round_output) s : o ∈ outputs -> is_Some (accounts_of o.2 !! s) -> s ∈ existing <-> alive st s.
Proof using Hex. intros Ho Hs. apply (existing_alive o); [done|]. apply elem_changed_ids. by left. Qed.

Lemma items_survive {K V} `{Countable K} (owner : K -> Z) (changes : PendingChanges -> gmap K (option V)) target :
  (forall p k, is_Some (changes p !! k) -> owner k ∈ changed_ids p) ->
  merged_items existing (deleted_services existing outputs) owner changes outputs target ->
  forall k v, target !! k = Some v <-> item_survives st outputs owner changes k v.
Proof using Hnd Hex.
  intros Hid Hm k v. rewrite (Hm k v), elem_deleted. unfold item_survives, takes_item. split.
  - intros [([Hs He] & -> & o & Ho & Hk)|(Hd & o & Ho & Ht & Hk)].
    + left. split_and!; [apply (proj1 (Hex _) Hs)|done|done|by exists o].
    + pose proof (existing_alive o (owner k) Ho (Hid _ _ (ex_intro _ v Hk))) as Hal. destruct Ht as [[Hw Hs]|[Hs Ha]].
      * right; left. split_and!; [by apply Hal|intros He; by apply Hd|]. exists o.2. split; [|done]. rewrite Hw. by destruct o.
      * right; right. split; [by rewrite <- Hal|]. by exists o.
  - intros [(Ha & He & -> & o & Ho & Hk)|[(Ha & He & o & Ho & Hk)|(Ha & o & Ho & Hk & Hacc)]].
    + left. split_and!; [by apply (existing_alive o _ Ho (Hid _ _ Hk))|done|done|by exists o].
    + right. split; [by intros []|]. exists (owner k, o). split_and!; [done| |done]. left. split; [done|].
      by apply (existing_alive (owner k, o) _ Ho (Hid _ _ (ex_intro _ v Hk))).
    + right. pose proof (existing_alive o (owner k) Ho (Hid _ _ (ex_intro _ v Hk))) as Hal.
      assert (owner k ∉ existing) as Hne by by rewrite Hal. split; [by intros [? _]|]. exists o. split_and!; [done| |done]. by right.
Qed.

Lemma accounts_survive m : merging existing (deleted_services existing outputs) (concat (map account_changes outputs)) m ->
  forall s v, foldr (fun s => <[s := None]>) (pc_accounts m.1) (elements (deleted_services existing outputs)) !! s = Some v <->
    account_survives st outputs s v.
Proof using Hnd Hex.
  intros [Hfrom Htaken Hwriter] s v. rewrite foldr_removals. unfold account_survives.
  destruct (decide (s ∈ elements _)) as [Hd|Hd]; rewrite elem_of_elements, elem_deleted in Hd.
  { destruct Hd as [Hs He]. apply Hex in Hs as [_ Hs]. split; [intros [= <-]; by left|]. intros [(_ & _ & ->)|[(_ & Hne & _)|(Hne & _)]]; done. }
  split.
  - intros Hv. destruct (Hfrom s v Hv) as (w & a & -> & (o & Ho & Hl)%elem_changes & [_ Hw]).
    pose proof (alive_account (w, o) s Ho (ex_intro _ _ Hl)) as Hal. destruct (decide (s ∈ existing)) as [Hs|Hs].
    + right; left. split_and!; [by apply Hal|intros He; by apply Hd|]. exists o. by destruct (Hw Hs).
    + right; right. split_and!; [by rewrite <- Hal|done|]. by exists (w, o).
  - intros Hv. assert (exists w o a, (w, o) ∈ outputs /\ accounts_of o !! s = Some (Some a) /\ v = Some a /\ (s ∈ existing -> s = w)) as (w & o & a & Ho & Hl & -> & Hw).
    { destruct Hv as [(Ha & He & _)|[(Ha & He & o & Ho & Hl)|(Ha & Hv & o & Ho & Hl)]].
      - destruct Hd. split; [|done]. destruct He as (o & Ho & Hl). by apply (alive_account o s Ho (ex_intro _ _ Hl)).
      - destruct v as [a|]; [by exists s, o, a|]. destruct He. by exists (s, o).
      - destruct v as [a|]; [|done]. destruct o as [w o]. exists w, o, a. split_and!; try done. intros Hs. destruct Ha.
        by apply (alive_account (w, o) s Ho (ex_intro _ _ Hl)). }
    assert (takes existing (deleted_services existing outputs) w s) as Ht by (split; [by rewrite elem_deleted|done]).
    destruct (Htaken w s a) as [v Hv']; [apply elem_changes; by exists o|done|]. rewrite Hv'. f_equal.
    destruct (Hfrom s v Hv') as (w' & a' & -> & (o' & Ho' & Hl')%elem_changes & [_ Hw']).
    assert (w' = w) as ->.
    { destruct (decide (s ∈ existing)) as [Hs|Hs]; [rewrite <- (Hw Hs); symmetry; by apply Hw'|].
      assert (m.2 !! s = Some w /\ m.2 !! s = Some w') as [] by
        (split; apply Hwriter; (split; [|done]); [exists a|exists a']; apply elem_changes; [by exists o|by exists o']). congruence. }
    rewrite (same_output outputs w o' o Hnd Ho' Ho) in Hl'. congruence.
Qed.
End items.

Lemma merge_run st outputs : NoDup outputs.*1 ->
  match merge_accumulation_service_changes st outputs with
  | Ret merged =>
      (forall s v, pc_accounts merged !! s = Some v <-> account_survives st outputs s v) /\
      (forall k v, pc_storage_items merged !! k = Some v <-> item_survives st outputs fst pc_storage_items k v) /\
      (forall k v, pc_preimages merged !! k = Some v <-> item_survives st outputs fst pc_preimages k v) /\
      (forall k v, pc_availability merged !! k = Some v <-> item_survives st outputs (fun k => k.1.1) pc_availability k v) /\
      ~ conflict st outputs
  | Raise x => x = BlockValidationError Message /\ conflict st outputs \/ exists s, s ∈ candidates outputs /\ service_exists s true st = Raise x
  end.
Proof using.
  intros Hnd. unfold merge_accumulation_service_changes, existing_services.
  pose proof (existing_services_run st (elements (candidates outputs)) ∅) as Hrun.
  destruct (each _ (elements _) ∅) as [existing|x]; cbn [mbind outcome_bind].
  2: { right. destruct Hrun as (s & Hs%elem_of_elements & Hx). by exists s. }
  assert (forall s, s ∈ existing <-> s ∈ candidates outputs /\ alive st s) as Hex by (intros s; rewrite Hrun, elem_of_elements; set_solver).
  assert (deleted_services existing outputs ⊆ existing) as Hsub by (intros s; rewrite elem_deleted; by intros []).
  assert (merged existing (deleted_services existing outputs) [] (no_changes, ∅)) as H0.
  { split; [split|..]; cbn; try (intros k v; rewrite lookup_empty); set_solver. }
  pose proof (merge_outputs_run existing _ Hsub outputs [] _ H0 Hnd) as Hm.
  destruct (each _ outputs _) as [[m nw]|x]; cbn [mbind outcome_bind].
  - destruct Hm as [Ha Hs Hp Hv]. cbn [app fst snd] in *. split_and!; cbn [pc_accounts pc_storage_items pc_preimages pc_availability].
    + exact (accounts_survive st outputs existing Hnd Hex (m, nw) Ha).
    + apply items_survive with existing; try done. intros p k Hk. apply elem_changed_ids. right; left. by exists k.
    + apply items_survive with existing; try done. intros p k Hk. apply elem_changed_ids. do 2 right; left. by exists k.
    + apply items_survive with existing; try done. intros p k Hk. apply elem_changed_ids. do 3 right. by exists k.
    + intros (s & o1 & o2 & a1 & a2 & Hal & Ho1 & Ho2 & Hne & H1 & H2). destruct o1 as [w1 o1], o2 as [w2 o2]. cbn [fst snd] in *.
      assert (s ∉ existing) as Hns by (rewrite Hex; by intros []).
      assert (nw !! s = Some w1 /\ nw !! s = Some w2) as [] by
        (split; apply (mg_writer _ _ _ _ Ha); (split; [|done]); [exists a1|exists a2]; apply elem_changes; [by exists o1|by exists o2]). congruence.
  - left. destruct Hm as (-> & s & o1 & o2 & a1 & a2 & Hne & Ho1 & Ho2 & Hw & H1 & H2). split; [done|]. cbn [app] in Ho1, Ho2.
    exists s, o1, o2, a1, a2. split_and!; try done. intros Ha. apply Hne, Hex. split; [|done]. by apply (candidate_account outputs o1).
Qed.

(** C18: What [_merge_accumulation_service_changes] keeps of what the services of a round changed.
    Of a service that was there before, only its own changes are merged, whatever another
    invocation recorded for it; once some invocation has ejected it, its account and every item
    that somebody changed are removed, its own writes of the round included.  Of a new service, the
    changes of the invocation that created it are merged.  Two invocations that create the same
    service make the block invalid, and nothing else does but a service id that has no state key. *)
Theorem merge_ownership st outputs : NoDup outputs.*1 ->
  match merge_accumulation_service_changes st outputs with
  | Ret merged =>
      (forall s v, pc_accounts merged !! s = Some v <-> account_survives st outputs s v) /\
      (forall k v, pc_storage_items merged !! k = Some v <-> item_survives st outputs fst pc_storage_items k v) /\
      (forall k v, pc_preimages merged !! k = Some v <-> item_survives st outputs fst pc_preimages k v) /\
      (forall k v, pc_availability merged !! k = Some v <-> item_survives st outputs (fun k => k.1.1) pc_availability k v) /\
      ~ conflict st outputs
  | Raise x => x = BlockValidationError Message /\ conflict st outputs \/ exists s, s ∈ candidates outputs /\ service_exists s true st = Raise x
  end.
Proof using. apply merge_run. Qed.
End merge_spec.
