(* ===== verification/Settle.v ===== *)
(** * How a round settles

    What [settle] of [Services] does beside the state it writes.  It never exhausts Python's
    stack, so that running out of it comes from the recursion of the rounds alone.  And the
    round ends in a [KeyError] of [add_pending_changes] where a service only marks a request:
    [hc_forget] stores the request's slots without the account, which is then missing from the
    dictionary [services]. *)

From Stdlib Require Import ZArith Lia Bool List.
From stdpp Require Import base numbers option list sets gmap.
From S2P Require Import Prelude Constants Graypaper Defs MemorySection Memory Program Invocation HostCalls StateBase Reports Storage StateKeys Accounts Pending AccumContext AccumCalls Accumulate Services Merge.
Import ListNotations.

#[local] Open Scope Z_scope.

(** ** Python's stack *)

Definition calm {A} (r : outcome state_exn A) : Prop := r <> Raise RecursionDepth.

Create HintDb calm.

Section calm.
Context {codec : Codec} (hash : bytes -> bytes).

Lemma calm_ret {A} (a : A) : calm (Ret a).
Proof using. done. Qed.

Lemma calm_bind {A B} (r : outcome state_exn A) (k : A -> outcome state_exn B) : calm r -> (forall a, calm (k a)) -> calm (r ≫= k).
Proof using. intros Hr Hk. destruct r as [a|e]; [apply Hk|]. intros [= ->]. by apply Hr. Qed.

Lemma calm_each {A S} (f : A -> S -> outcome state_exn S) l : (forall x s, calm (f x s)) -> forall s, calm (each f l s).
Proof using. intros Hf. induction l as [|x l IH]; intros s; cbn [each]; [done|]. by apply calm_bind. Qed.

Lemma calm_every {A} (l : list A) body : (forall x, calm (body x)) -> calm (every l body).
Proof using. intros Hb. induction l as [|x l IH]; cbn [every]; [done|]. by apply calm_bind. Qed.

Lemma calm_raise_if c e : e <> RecursionDepth -> calm (raise_if c e).
Proof using. intros He. unfold raise_if, calm. destruct c; [|done]. congruence. Qed.
End calm.

#[local] Hint Resolve calm_ret calm_raise_if : calm.

(* A computation of binds, conditions and calls that are known to be calm. *)
Ltac calm_step :=
  match goal with
  | |- calm (Ret _) => apply calm_ret
  | |- calm (_ ≫= _) => apply calm_bind; [|intros ?]
  | |- calm (each _ _ _) => apply calm_each; intros ? ?
  | |- calm (every _ _) => apply calm_every; intros ?
  | |- calm (raise_if _ _) => by apply calm_raise_if
  | |- calm (Raise ?e) => solve [discriminate | match goal with E : ?r = Raise _ |- _ =>
      let Hc := fresh in assert (calm r) as Hc by auto with calm nocore; intros ?; apply Hc; congruence end]
  | |- calm (match ?x with _ => _ end) => destruct x eqn:?
  end.
Ltac calm := repeat (solve [auto with calm nocore] || calm_step).

Section reads.
Context {codec : Codec} (hash : bytes -> bytes).

Lemma calm_get_item {A} (l : list A) i : calm (get_item l i).
Proof using. unfold get_item. calm. Qed.
Lemma calm_set_item {A} (l : list A) i x : calm (set_item l i x).
Proof using. unfold set_item. calm. Qed.
Lemma calm_decoded {A} (o : option A) : calm (decoded o).
Proof using. unfold decoded. calm. Qed.
Lemma calm_or_no_result {A} (o : option A) : calm (or_no_result o).
Proof using. unfold or_no_result. calm. Qed.
Lemma calm_to_bytes4 n : calm (to_bytes4 n).
Proof using. unfold to_bytes4. calm. Qed.
#[local] Hint Resolve calm_get_item calm_set_item calm_decoded calm_or_no_result calm_to_bytes4 : calm.

Lemma calm_account_key id : calm (state_key_constructor_service_account id).
Proof using. unfold state_key_constructor_service_account. calm. Qed.
Lemma calm_value_key id v : calm (state_key_constructor_service_account_value hash id v).
Proof using. unfold state_key_constructor_service_account_value. calm. Qed.
#[local] Hint Resolve calm_account_key calm_value_key : calm.
Lemma calm_item_key id k : calm (state_key_constructor_storage_item hash id k).
Proof using. unfold state_key_constructor_storage_item. calm. Qed.
Lemma calm_preimage_key id h : calm (state_key_constructor_preimage hash id h).
Proof using. unfold state_key_constructor_preimage. calm. Qed.
Lemma calm_request_key id h l : calm (state_key_constructor_preimage_availability hash id h l).
Proof using. unfold state_key_constructor_preimage_availability. calm. Qed.
#[local] Hint Resolve calm_item_key calm_preimage_key calm_request_key : calm.

Lemma calm_walk s key fuel : forall visited cursor r, get_walk s key fuel visited cursor = Some r -> calm r.
Proof using.
  induction fuel as [|fuel IH]; intros visited cursor r; cbn [get_walk]; [done|]. destruct cursor as [b|]; [|by intros [= <-]].
  case_bool_decide; [by intros [= <-]|]. destruct (_ ≫= _); [by intros [= <-]|]. apply IH.
Qed.

Lemma calm_storage_get st key : calm (storage_get st key).
Proof using.
  unfold storage_get. destruct (state_storage st) as [s|]; [|done]. destruct (get key false s) as [r|] eqn:E; [|done]. revert E. unfold get.
  destruct (truthy _); [|by intros [= <-]]. destruct (transaction s !! key); [by intros [= <-]|].
  destruct (get_walk _ _ _ _ _) as [w|] eqn:Hw; [|done]. apply calm_walk in Hw. cbn. intros [= <-].
  destruct w as [[v|]|x]; [done..|]. intros [= ->]. by apply Hw.
Qed.

Lemma calm_from_serialized b : calm (from_serialized_bytes b).
Proof using. unfold from_serialized_bytes. calm. Qed.
Lemma calm_u64 x : calm (u64_encoded x).
Proof using. unfold u64_encoded. calm. Qed.
Lemma calm_u32 x : calm (u32_encoded x).
Proof using. unfold u32_encoded. calm. Qed.
Lemma calm_vec l : calm (vec_u32_encoded l).
Proof using. unfold vec_u32_encoded. calm. Qed.
#[local] Hint Resolve calm_storage_get calm_from_serialized calm_u64 calm_u32 calm_vec : calm.
Lemma calm_to_serialized a : calm (to_serialized_bytes a).
Proof using. unfold to_serialized_bytes. calm. Qed.
Lemma calm_storage_write f st : calm (storage_write f st).
Proof using. unfold storage_write. calm. Qed.
#[local] Hint Resolve calm_to_serialized calm_storage_write : calm.

Lemma calm_account id c st : calm (retrieve_service_account id c st).
Proof using. unfold retrieve_service_account. calm. Qed.
Lemma calm_request id h l st : calm (retrieve_preimage_availability hash id h l st).
Proof using. unfold retrieve_preimage_availability. calm. Qed.
#[local] Hint Resolve calm_account calm_request : calm.
Lemma calm_exists id c st : calm (service_exists id c st).
Proof using. unfold service_exists, exists_or. calm. Qed.
End reads.

#[local] Hint Resolve calm_get_item calm_set_item calm_account_key calm_item_key calm_preimage_key calm_request_key calm_to_serialized calm_vec
  calm_storage_write calm_account calm_request calm_exists : calm.

Section settle.
Context {codec : Codec} (hash : bytes -> bytes).
Context (dict_items : forall K A : Type, forall E : EqDecision K, forall C : Countable K, gmap K A -> list (K * A)).

Lemma calm_merge st outputs : calm (merge_accumulation_service_changes st outputs).
Proof using. unfold merge_accumulation_service_changes, existing_services, merge_output, merge_account. calm. Qed.

Lemma calm_privileges gp pre o s : calm (take_privileges gp pre o s).
Proof using. unfold take_privileges, take_assigner, take_queue. calm. Qed.

Lemma calm_override gp pre v e : calm (override_privileges gp pre v e).
Proof using. unfold override_privileges, override_assigner. calm. Qed.

Lemma calm_write p st : calm (write_changes hash dict_items p st).
Proof using.
  unfold write_changes, write_account, write_item, write_preimage, write_availability, store_service_account, delete_service_account,
    store_storage_item, delete_storage_item, store_preimage, delete_preimage, store_preimage_availability, delete_preimage_availability. calm.
Qed.

Lemma calm_provide slot p st : calm (provide_to hash slot p st).
Proof using. unfold provide_to, store_preimage, store_preimage_availability. calm. Qed.

Lemma calm_add st : calm (add_pending_changes st).
Proof using. unfold add_pending_changes, add_items. calm. Qed.
#[local] Hint Resolve calm_merge calm_privileges calm_override calm_write calm_provide calm_add : calm.

(** Settling a round does not exhaust the stack. *)
Lemma calm_settle c e outputs : calm (settle hash dict_items c e outputs).
Proof using. unfold settle. calm. Qed.
End settle.

(** ** The services beside the privileges *)

Section privileges.
Context {codec : Codec}.

Lemma each_services {A S} (services_of : S -> ServicesState) (f : A -> S -> outcome state_exn S) l :
  (forall x e e', f x e = Ret e' -> services_of e' = services_of e) ->
  forall e e', each f l e = Ret e' -> services_of e' = services_of e.
Proof using.
  intros Hf. induction l as [|x l IH]; intros e e'; cbn [each]; [by intros [= <-]|]. intros (e1 & H1 & H2)%bind_ret.
  rewrite (IH _ _ H2). by eapply Hf.
Qed.

Lemma override_services gp pre v e e' : override_privileges gp pre v e = Ret e' -> AccumContext.services e' = AccumContext.services e.
Proof using.
  unfold override_privileges. intros (e1 & H1 & H)%bind_ret. apply (each_services AccumContext.services) in H1.
  - rewrite <- H1. revert H. destruct (negb _), (negb _); by intros [= <-].
  - intros c e2 e3. unfold override_assigner. intros (a & _ & (b & _ & H2)%bind_ret)%bind_ret.
    destruct (negb (a =? b)); [|by injection H2 as ->]. by apply bind_ret in H2 as (l & _ & [= <-]).
Qed.

Lemma take_assigner_services out id c e e' : take_assigner out id c e = Ret e' -> AccumContext.services e' = AccumContext.services e.
Proof using.
  unfold take_assigner. intros (a & _ & H)%bind_ret. destruct (id =? a); [|by injection H as <-].
  by apply bind_ret in H as (b & _ & (l & _ & [= <-])%bind_ret).
Qed.

Lemma take_queue_services pre out id c e e' : take_queue pre out id c e = Ret e' -> AccumContext.services e' = AccumContext.services e.
Proof using.
  unfold take_queue. intros (a & _ & H)%bind_ret. destruct (id =? a); [|by injection H as <-].
  by apply bind_ret in H as (b & _ & (l & _ & [= <-])%bind_ret).
Qed.

Lemma take_privileges_services gp pre o s s' : take_privileges gp pre o s = Ret s' -> AccumContext.services s'.1 = AccumContext.services s.1.
Proof using.
  destruct o as [id result], s as [e v]. unfold take_privileges.
  destruct (id =? manager pre); intros (e1 & H1 & (e2 & H2 & [= <-])%bind_ret)%bind_ret; cbn [fst];
    apply (each_services AccumContext.services) in H1, H2; try (by intros c ? ?; apply take_assigner_services); try (by intros c ? ?; apply take_queue_services);
    rewrite H2; revert H1; destruct (id =? delegator _), (id =? registrar _), (id =? delegator _); exact (fun H => H).
Qed.

Lemma take_all_services gp pre outputs s s' : each (take_privileges gp pre) outputs s = Ret s' -> AccumContext.services s'.1 = AccumContext.services s.1.
Proof using. apply (each_services (fun s => AccumContext.services s.1)). intros o s1 s2. apply take_privileges_services. Qed.
End privileges.

(** ** A request marked without its account *)

Section marked.
Context {codec : Codec} (hash : bytes -> bytes).
Context (dict_items : forall K A : Type, forall E : EqDecision K, forall C : Countable K, gmap K A -> list (K * A)).
(** A dictionary's items are those of the map, in some order. *)
Context (Hitems : forall (K A : Type) (E : EqDecision K) (C : Countable K) (m : gmap K A), dict_items K A E C m ≡ₚ map_to_list m).
Context (s : Z) (k : Z * bytes * Z) (Hk : k.1.1 = s).

(** The service is not in the dictionary and no change puts it there, while one of its requests
    has changed. *)
Record marked (st : ServicesState) : Prop := mkMarked {
  mk_account : pc_accounts (pending_changes st) !! s = None;
  mk_request : exists v, pc_availability (pending_changes st) !! k = Some (Some v);
  mk_missing : s ∉ materialized st
}.

(** Writes that keep it so. *)
Definition keeps (f : ServicesState -> outcome state_exn ServicesState) : Prop := forall st st', f st = Ret st' -> marked st -> marked st'.

Lemma each_keeps {A} (f : A -> ServicesState -> outcome state_exn ServicesState) l : (forall x, x ∈ l -> keeps (f x)) -> keeps (each f l).
Proof using.
  induction l as [|x l IH]; intros Hf st st'; cbn [each]; [by intros [= <-]|]. intros (st1 & H1 & H2)%bind_ret Hm.
  eapply IH; [|exact H2|]; [intros y Hy; apply Hf; by right|]. by eapply (Hf x); [left|exact H1|].
Qed.

Lemma storage_write_marked f st st' : storage_write f st = Ret st' -> marked st -> marked st'.
Proof using. unfold storage_write. destruct (state_storage st); [|done]. by intros [= <-] []. Qed.

(* Through the binds of a write to the storage write, then the changes it makes first. *)
Ltac written :=
  let st := fresh in let st' := fresh in let H := fresh in
  intros st st' H; cbv beta iota zeta in H;
  repeat match goal with
  | H : (_ ← _; _) = Ret _ |- _ => apply bind_ret in H as (? & ? & H)
  | H : (if ?c then Raise _ else _) = Ret _ |- _ => destruct c; [discriminate H|]
  end;
  intros []; apply (storage_write_marked _ _ _ H); split; try done.

Lemma store_account_keeps id a : id <> s -> keeps (store_service_account id a true).
Proof using. intros Hne. unfold store_service_account. written. cbn. by rewrite lookup_insert_ne. Qed.
Lemma delete_account_keeps id : keeps (delete_service_account id true).
Proof using. unfold delete_service_account. written. Qed.
Lemma store_item_keeps id i v : keeps (store_storage_item hash id i v true).
Proof using. unfold store_storage_item. written. Qed.
Lemma delete_item_keeps id i : keeps (delete_storage_item hash id i true).
Proof using. unfold delete_storage_item. written. Qed.
Lemma store_preimage_keeps id b : keeps (store_preimage hash id b true).
Proof using. unfold store_preimage. written. Qed.
Lemma delete_preimage_keeps id h : keeps (delete_preimage hash id h true).
Proof using. unfold delete_preimage. written. Qed.
Lemma store_request_keeps id h l v : keeps (store_preimage_availability hash id h l v true).
Proof using.
  unfold store_preimage_availability. written. cbn. destruct (decide (k = (id, h, l))) as [He|]; [rewrite He, lookup_insert_eq; by eexists|].
  by rewrite lookup_insert_ne.
Qed.
Lemma delete_request_keeps id h l : keeps (delete_preimage_availability hash id h l true).
Proof using. unfold delete_preimage_availability. written. Qed.

Lemma provide_keeps slot p : p.1 <> s -> keeps (provide_to hash slot p).
Proof using.
  destruct p as [id b]. cbn [fst]. intros Hne st st'. unfold provide_to. intros (found & _ & H)%bind_ret Hm.
  destruct found; cbn [negb] in H; [|by injection H as <-].
  destruct (retrieve_preimage_availability _ _ _ _ _) as [[|]|[]]; try discriminate H; try (by injection H as <-).
  apply bind_ret in H as (st0 & H0 & (st1 & H1 & H2)%bind_ret). eapply store_preimage_keeps; [exact H2|]. eapply store_request_keeps; [exact H1|].
  case_bool_decide; [by injection H0 as <-|]. apply bind_ret in H0 as (a & _ & [= <-]). destruct Hm as [? ? Hmiss]. split; [done..|]. cbn. clear -Hne Hmiss. set_solver.
Qed.

Lemma write_changes_marked p st st' : marked (mkServicesState p (state_storage st) (materialized st)) ->
  write_changes hash dict_items p st = Ret st' -> marked st'.
Proof using Hitems.
  intros Hm. pose proof (mk_account _ Hm) as Ha. cbn in Ha. unfold write_changes. intros (st1 & H1 & (st2 & H2 & (st3 & H3 & H4)%bind_ret)%bind_ret)%bind_ret.
  eapply each_keeps; [|exact H4|].
  { intros [[[id h] l] [v|]] _; [apply store_request_keeps|apply delete_request_keeps]. }
  eapply each_keeps; [|exact H3|].
  { intros [[id h] [v|]] _; [apply store_preimage_keeps|apply delete_preimage_keeps]. }
  eapply each_keeps; [|exact H2|].
  { intros [[id h] [v|]] _; [apply store_item_keeps|apply delete_item_keeps]. }
  eapply each_keeps; [|exact H1|exact Hm]. intros [id [a|]] Hin; [|apply delete_account_keeps]. apply store_account_keeps.
  rewrite Hitems in Hin. apply elem_of_map_to_list in Hin. congruence.
Qed.

Lemma add_account_missing (l : list (Z * option ServiceAccount)) ids : s ∉ l.*1 -> s ∉ ids -> s ∉ foldr add_account ids l.
Proof using.
  induction l as [|[id [a|]] l IH]; cbn [foldr fmap list_fmap add_account fst]; [done|..]; intros Hl Hi;
    apply not_elem_of_cons in Hl as [Hne Hl]; specialize (IH Hl Hi); clear -Hne IH; set_solver.
Qed.

(** [add_pending_changes] fails on such a state. *)
Lemma add_pending_marked st st' : marked st -> add_pending_changes st <> Ret st'.
Proof using Hk.
  intros [Ha [v Hv] Hm]. unfold add_pending_changes. set (ids := foldr _ _ _).
  assert (s ∉ ids) as Hids.
  { apply add_account_missing; [|done]. intros Hin. apply elem_keys in Hin as [? ?]. congruence. }
  intros ([] & _ & ([] & _ & ([] & H & _)%bind_ret)%bind_ret)%bind_ret. unfold add_items in H. rewrite every_ret in H.
  specialize (H (k, Some v) (proj2 (elem_of_map_to_list _ _ _) Hv)). cbn in H. apply raise_if_ret in H.
  rewrite Hk, bool_decide_eq_true_2 in H by done. done.
Qed.

(** A finding: a service that is in the state, and in the round does nothing to itself but store
    the slots of a request, as [hc_forget] does where it marks the request, makes the round
    raise, unless the dictionary [services] happens to hold it: the account is not among the
    changes, [add_pending_changes] looks the service up all the same. *)
Theorem forgotten_request_raises c e outputs o v : NoDup outputs.*1 -> (s, o) ∈ outputs ->
  alive (AccumContext.services e) s -> s ∉ materialized (AccumContext.services e) ->
  pc_availability (pending_of o) !! k = Some (Some v) -> pc_accounts (pending_of o) !! s = None ->
  ~ ejected outputs s -> Forall (fun o => Forall (fun p => p.1 <> s) (pa_preimages o.2)) outputs ->
  exists x, settle hash dict_items c e outputs = Raise x.
Proof using Hitems Hk.
  intros Hnd Ho Hal Hmat Hv Ha Hej Hpre. destruct (settle _ _ _ _ _) as [e'|x] eqn:Hrun; [exfalso|by exists x].
  unfold settle in Hrun. apply bind_ret in Hrun as (pending & Hp & ([e1 w] & He & (st1 & H1 & (st2 & H2 & (st3 & H3 & _)%bind_ret)%bind_ret)%bind_ret)%bind_ret).
  pose proof (merge_run (AccumContext.services e) outputs Hnd) as Hmerge. rewrite Hp in Hmerge. destruct Hmerge as (Hacc & _ & _ & Hav & _).
  assert (AccumContext.services e1 = AccumContext.services e) as Heq by exact (take_all_services _ _ _ _ _ He).
  assert (marked (mkServicesState pending (state_storage (AccumContext.services e)) (materialized (AccumContext.services e)))) as Hm.
  { split; cbn; [| |done].
    - destruct (pc_accounts pending !! s) as [a|] eqn:E; [exfalso|done]. apply Hacc in E as [(_ & ? & _)|[(_ & _ & o' & Ho' & Ho'')|(? & _)]]; [done| |done].
      assert (o' = o) as -> by by eapply same_output. congruence.
    - exists v. apply Hav. right; left. rewrite Hk. split; [done|]. split; [done|]. by exists o. }
  rewrite Heq in H1. apply (write_changes_marked _ _ _ Hm) in H1. apply each_keeps in H2.
  - by eapply add_pending_marked, H3; apply H2.
  - intros p (l & Hl & Hin)%list_elem_of_In%in_concat. apply list_elem_of_In in Hl, Hin. apply list_elem_of_fmap in Hl as (o' & -> & Ho').
    apply provide_keeps. eapply Forall_forall in Hpre; [|exact Ho']. cbn in Hpre. by eapply Forall_forall in Hpre.
Qed.
End marked.
