(* ===== verification/Privileges.v ===== *)
(** * The privileges after a round of accumulation

    Which service is manager, delegator, registrar and assigner of each core, the validators to
    come and the queues of the cores, after [parallel_accumulation] has gone through the outputs
    of a round ([take_privileges]) and the manager's changes have prevailed
    ([override_privileges]). *)

From Stdlib Require Import ZArith Lia Bool List.
From stdpp Require Import base numbers option list sets gmap.
From S2P Require Import Prelude ByteOrder Constants Graypaper Defs Invocation StateBase Storage StateKeys Accounts Pending AccumContext AccumCalls Accumulate Services.
Import ListNotations.

#[local] Open Scope Z_scope.

(** ** Loops over the cores *)

(** A loop that changes the cores of a list one by one, the rest of the state being kept. *)
Section cores.
Context {T A : Type} (get : T -> list A) (put : list A -> T -> T).
Context (get_put : forall l s, get (put l s) = l) (put_put : forall l l' s, put l (put l' s) = put l s) (put_get : forall s, put (get s) s = s).
Context (n : nat) (f : Z -> T -> outcome state_exn T) (g : nat -> A -> A).
Context (Hf : forall c s x, (c < n)%nat -> get s !! c = Some x -> f (Z.of_nat c) s = Ret (put (<[c := g c x]> (get s)) s)).

Lemma each_cores_from l : forall done s, get s = done ++ l -> (length done + length l = n)%nat ->
  each f (py_range (Z.of_nat (length done)) (Z.of_nat (length done + length l))) s = Ret (put (done ++ imap (fun i => g (length done + i)%nat) l) s).
Proof using get_put put_put put_get Hf.
  induction l as [|x l IH]; intros done s Hs Hn; cbn [length imap].
  { rewrite py_range_nil by lia. cbn [each imap]. by rewrite <- Hs, put_get. }
  rewrite py_range_cons by lia. cbn [each]. cbn [length] in Hn. rewrite (Hf (length done) s x) by (first [lia|rewrite Hs; by apply list_lookup_middle]).
  cbn [mbind outcome_bind]. rewrite Hs, insert_app_r_alt, Nat.sub_diag by lia. cbn [list_insert].
  specialize (IH (done ++ [g (length done) x])). rewrite length_app in IH. cbn [length] in IH.
  replace (Z.of_nat (length done + 1)) with (Z.of_nat (length done) + 1) in IH by lia.
  replace (length done + 1 + length l)%nat with (length done + S (length l))%nat in IH by lia.
  change (<[0%nat := g (length done) x]> (x :: l)) with (g (length done) x :: l).
  rewrite IH, put_put by (first [lia|by rewrite get_put, <- app_assoc]). rewrite <- app_assoc. cbn [app imap].
  do 4 f_equal; [f_equal; lia|]. apply imap_ext. intros i y _. cbn. f_equal. lia.
Qed.

Lemma each_cores s : length (get s) = n -> each f (py_range 0 (Z.of_nat n)) s = Ret (put (imap g (get s)) s).
Proof using get_put put_put put_get Hf. intros Hn. rewrite <- Hn at 1. exact (each_cores_from (get s) [] s eq_refl Hn). Qed.
End cores.

(** ** One output *)

(** An entry of an output's list that replaces one of the state's. *)
Definition replaced {A} (l : list A) (c : nat) (x : A) : A := default x (l !! c).

(** The states whose lists have an entry for every core. *)
Definition has_cores (gp : GpConstants) (e : AccumulationStateComponents) : Prop :=
  Z.of_nat (length (assigners (privileged_services e))) = CORE_COUNT gp /\ Z.of_nat (length (authorizer_queues e)) = CORE_COUNT gp.

Abbreviation context_of o := (pa_state_context o).
Abbreviation privileges_of o := (privileged_services (pa_state_context o)).

Lemma set_item_run {A} (l : list A) c x : (c < length l)%nat -> set_item l (Z.of_nat c) x = Ret (<[c := x]> l).
Proof. intros Hc. unfold set_item. by rewrite py_set_nonneg, Nat2Z.id by lia. Qed.

Lemma get_item_run {A} (l : list A) c x : l !! c = Some x -> get_item l (Z.of_nat c) = Ret x.
Proof. intros Hx. apply get_item_ret; [lia|]. by rewrite Nat2Z.id. Qed.

Lemma get_item_replaced {A} (l : list A) c x : (c < length l)%nat -> get_item l (Z.of_nat c) = Ret (replaced l c x).
Proof. intros Hc. destruct (lookup_lt_is_Some_2 _ _ Hc) as [y Hy]. unfold replaced. by rewrite Hy, (get_item_run _ _ y). Qed.

Definition put_assigners (l : list Z) (e : AccumulationStateComponents) : AccumulationStateComponents :=
  with_privileged (set_assigners l (privileged_services e)) e.

Lemma put_assigners_id e : put_assigners (assigners (privileged_services e)) e = e.
Proof. by destruct e as [? ? ? []]. Qed.

Lemma put_queues_id e : set_authorizer_queue_list (authorizer_queues e) e = e.
Proof. by destruct e. Qed.

Lemma take_assigners_run gp out id e : has_cores gp e -> has_cores gp out ->
  each (take_assigner out id) (py_range 0 (CORE_COUNT gp)) e =
    Ret (put_assigners (imap (fun c a => if id =? a then replaced (assigners (privileged_services out)) c a else a)
      (assigners (privileged_services e))) e).
Proof.
  intros [He _] [Ho _]. rewrite <- He. apply (each_cores (fun e => assigners (privileged_services e)) put_assigners); try done; [apply put_assigners_id|].
  intros c s x Hc Hx. unfold take_assigner. rewrite (get_item_run _ _ x Hx). cbn [mbind outcome_bind].
  destruct (id =? x); [|by rewrite list_insert_id, put_assigners_id].
  rewrite (get_item_replaced _ _ x) by lia. cbn [mbind outcome_bind]. by rewrite set_item_run by (eapply lookup_lt_Some; done).
Qed.

Lemma take_queues_run gp pre out id e : Z.of_nat (length pre) = CORE_COUNT gp -> has_cores gp e -> has_cores gp out ->
  each (take_queue pre out id) (py_range 0 (CORE_COUNT gp)) e =
    Ret (set_authorizer_queue_list (imap (fun c q => if id =? replaced pre c id then replaced (authorizer_queues out) c q else q)
      (authorizer_queues e)) e).
Proof.
  intros Hp [_ He] [_ Ho]. rewrite <- He. apply (each_cores authorizer_queues set_authorizer_queue_list); try done; [apply put_queues_id|].
  intros c s x Hc Hx. unfold take_queue. rewrite (get_item_replaced pre c id) by lia. cbn [mbind outcome_bind].
  destruct (id =? _); [|by rewrite list_insert_id, put_queues_id].
  rewrite (get_item_replaced _ _ x) by lia. cbn [mbind outcome_bind]. by rewrite set_item_run by (eapply lookup_lt_Some; done).
Qed.

Lemma override_assigners_run gp pre v e : Z.of_nat (length (assigners pre)) = CORE_COUNT gp -> Z.of_nat (length (mv_assigners v)) = CORE_COUNT gp ->
  has_cores gp e -> each (override_assigner pre v) (py_range 0 (CORE_COUNT gp)) e =
    Ret (put_assigners (imap (fun c a => if replaced (assigners pre) c a =? replaced (mv_assigners v) c a then a else replaced (mv_assigners v) c a)
      (assigners (privileged_services e))) e).
Proof.
  intros Hp Hv [He _]. rewrite <- He. apply (each_cores (fun e => assigners (privileged_services e)) put_assigners); try done; [apply put_assigners_id|].
  intros c s x Hc Hx. unfold override_assigner. rewrite !(get_item_replaced _ _ x) by lia. cbn [mbind outcome_bind].
  destruct (_ =? _); cbn [negb]; [by rewrite list_insert_id, put_assigners_id|]. by rewrite set_item_run by (eapply lookup_lt_Some; done).
Qed.

(** The manager prevails where its output changes the role. *)
Definition unless_managed (managed before after : Z) : Z := if before =? managed then after else managed.

Definition overridden (pre : PrivilegedServicesState) (v : ManagerView) (e : AccumulationStateComponents) : AccumulationStateComponents :=
  let p := privileged_services e in
  with_privileged (mkPrivileged (manager p)
    (imap (fun c a => unless_managed (replaced (mv_assigners v) c a) (replaced (assigners pre) c a) a) (assigners p))
    (unless_managed (mv_delegator v) (delegator pre) (delegator p)) (unless_managed (mv_registrar v) (registrar pre) (registrar p))
    (always_accumulators p)) e.

Lemma override_privileges_run gp pre v e : Z.of_nat (length (assigners pre)) = CORE_COUNT gp -> Z.of_nat (length (mv_assigners v)) = CORE_COUNT gp ->
  has_cores gp e -> override_privileges gp pre v e = Ret (overridden pre v e).
Proof.
  intros Hp Hv He. unfold override_privileges. rewrite (override_assigners_run gp) by done. cbn [mbind outcome_bind].
  unfold overridden, unless_managed. destruct e as [st vq qs [m a d r al]].
  by destruct (delegator pre =? mv_delegator v), (registrar pre =? mv_registrar v).
Qed.

(** What an output changes, as a function. *)
Definition taken_privileges (pre : PrivilegedServicesState) (s : AccumulationStateComponents * ManagerView) (o : Z * PvmAccumulateOutput)
    : AccumulationStateComponents * ManagerView :=
  let '(id, result) := o in
  let '(e, v) := s in
  let out := context_of result in
  let priv := privileged_services out in
  let was := privileged_services e in
  (mkComponents (AccumContext.services e)
     (if id =? delegator pre then validator_queue out else validator_queue e)
     (imap (fun c q => if id =? replaced (assigners pre) c id then replaced (authorizer_queues out) c q else q) (authorizer_queues e))
     (mkPrivileged (if id =? manager pre then manager priv else manager was)
        (imap (fun c a => if id =? a then replaced (assigners priv) c a else a) (assigners was))
        (if id =? delegator was then delegator priv else delegator was)
        (if id =? registrar was then registrar priv else registrar was)
        (if id =? manager pre then always_accumulators priv else always_accumulators was)),
   if id =? manager pre then mkManagerView (assigners priv) (delegator priv) (registrar priv) else v).

Lemma take_privileges_run gp pre o e v : Z.of_nat (length (assigners pre)) = CORE_COUNT gp -> has_cores gp e -> has_cores gp (context_of o.2) ->
  take_privileges gp pre o (e, v) = Ret (taken_privileges pre (e, v) o) /\ has_cores gp (taken_privileges pre (e, v) o).1.
Proof.
  intros Hp He Ho. destruct o as [id result]. split.
  2: { destruct He as [H1 H2]. split; cbn; by rewrite length_imap. }
  unfold take_privileges, taken_privileges. cbn [snd] in Ho. destruct e as [st vq qs [m a d r al]].
  assert (has_cores gp (mkComponents st vq qs (set_manager (manager (privileges_of result)) (always_accumulators (privileges_of result)) (mkPrivileged m a d r al)))) as He' by exact He.
  destruct (id =? manager pre), (id =? delegator pre), (id =? d) eqn:Ed, (id =? r) eqn:Er; cbn [with_privileged privileged_services];
    (rewrite (take_assigners_run gp); [|assumption..]); cbn; rewrite ?Ed; cbn; rewrite ?Er; cbn;
    (rewrite (take_queues_run gp); [|exact Hp|destruct He as [H1 H2]; cbn in H1, H2; split; cbn; rewrite ?length_imap; assumption|exact Ho]); reflexivity.
Qed.

Lemma take_all_run gp pre os : Z.of_nat (length (assigners pre)) = CORE_COUNT gp -> Forall (fun o => has_cores gp (context_of o.2)) os ->
  forall s, has_cores gp s.1 ->
  each (take_privileges gp pre) os s = Ret (fold_left (taken_privileges pre) os s) /\ has_cores gp (fold_left (taken_privileges pre) os s).1.
Proof.
  intros Hp. induction 1 as [|o os Ho Hos IH]; intros s Hs; [done|]. cbn [each fold_left]. destruct s as [e v].
  destruct (take_privileges_run gp pre o e v Hp Hs Ho) as [-> H]. cbn [mbind outcome_bind]. by apply IH.
Qed.

(** ** All of them *)

Lemma fold_field {T U O} (field : T -> U) (step : T -> O -> T) (fstep : U -> O -> U) :
  (forall s o, field (step s o) = fstep (field s) o) -> forall os s, field (fold_left step os s) = fold_left fstep os (field s).
Proof. intros H os. induction os as [|o os IH]; intros s; [done|]. cbn [fold_left]. by rewrite IH, H. Qed.

(** The output of a service, and what a loop that only heeds that service makes of it. *)
Definition result_of (os : list (Z * PvmAccumulateOutput)) (s : Z) : option PvmAccumulateOutput := (list_to_map os : gmap Z _) !! s.

Lemma fold_own {U} (f : PvmAccumulateOutput -> U -> U) s os : NoDup os.*1 -> forall x : U,
  fold_left (fun x o => if o.1 =? s then f o.2 x else x) os x = match result_of os s with Some o => f o x | None => x end.
Proof.
  unfold result_of. induction os as [|[id o] os IH]; intros Hnd x; [done|].
  apply NoDup_cons in Hnd as [Hno Hnd]. cbn [fold_left list_to_map foldr fst snd]. rewrite IH by done. destruct (Z.eqb_spec id s) as [->|Hne].
  - rewrite lookup_insert_eq. by rewrite not_elem_of_list_to_map_1.
  - by rewrite lookup_insert_ne.
Qed.

Lemma fold_fmap {U O} (step : U -> O -> U) os : forall x : option U,
  fold_left (fun x o => (fun y => step y o) <$> x) os x = (fun y => fold_left step os y) <$> x.
Proof. induction os as [|o os IH]; intros [x|]; cbn [fold_left fmap option_fmap option_map]; try done; apply (IH _). Qed.

(** The holder of a role: each of the outputs may be that of the present holder, and then hands
    the role on. *)
Definition handed_on (role : PrivilegedServicesState -> Z -> Z) (os : list (Z * PvmAccumulateOutput)) (holder : Z) : Z :=
  fold_left (fun r o => if o.1 =? r then role (privileges_of o.2) r else r) os holder.

Definition assigner_of (c : nat) (p : PrivilegedServicesState) (a : Z) : Z := replaced (assigners p) c a.


Section fields.
Context (pre : PrivilegedServicesState) (os : list (Z * PvmAccumulateOutput)) (Hnd : NoDup os.*1) (s : AccumulationStateComponents * ManagerView).
Abbreviation finally := (fold_left (taken_privileges pre) os s).
Abbreviation roles x := (privileged_services (fst x)).

Lemma final_services : AccumContext.services finally.1 = AccumContext.services s.1.
Proof using.
  rewrite (fold_field (fun x => AccumContext.services x.1) _ (fun x _ => x)) by by intros [] []. clear Hnd. generalize (AccumContext.services s.1). by induction os.
Qed.

Lemma final_manager : manager (roles finally) = match result_of os (manager pre) with Some o => manager (privileges_of o) | None => manager (roles s) end.
Proof using Hnd.
  rewrite (fold_field (fun x => manager (roles x)) _ (fun x o => if o.1 =? manager pre then manager (privileges_of o.2) else x)) by by intros [] [].
  exact (fold_own (fun o _ => manager (privileges_of o)) (manager pre) os Hnd _).
Qed.

Lemma final_always : always_accumulators (roles finally) =
  match result_of os (manager pre) with Some o => always_accumulators (privileges_of o) | None => always_accumulators (roles s) end.
Proof using Hnd.
  rewrite (fold_field (fun x => always_accumulators (roles x)) _ (fun x o => if o.1 =? manager pre then always_accumulators (privileges_of o.2) else x)) by by intros [] [].
  exact (fold_own (fun o _ => always_accumulators (privileges_of o)) (manager pre) os Hnd _).
Qed.

Lemma final_view : finally.2 =
  match result_of os (manager pre) with
  | Some o => mkManagerView (assigners (privileges_of o)) (delegator (privileges_of o)) (registrar (privileges_of o))
  | None => s.2
  end.
Proof using Hnd.
  rewrite (fold_field snd _ (fun x o => if o.1 =? manager pre then mkManagerView (assigners (privileges_of o.2)) (delegator (privileges_of o.2)) (registrar (privileges_of o.2)) else x)) by by intros [] [].
  exact (fold_own (fun o _ => mkManagerView (assigners (privileges_of o)) (delegator (privileges_of o)) (registrar (privileges_of o))) (manager pre) os Hnd _).
Qed.

Lemma final_delegator : delegator (roles finally) = handed_on (fun p _ => delegator p) os (delegator (roles s)).
Proof using. by apply (fold_field (fun x => delegator (roles x)) _ (fun x o => if o.1 =? x then delegator (privileges_of o.2) else x)); intros [] []. Qed.

Lemma final_registrar : registrar (roles finally) = handed_on (fun p _ => registrar p) os (registrar (roles s)).
Proof using. by apply (fold_field (fun x => registrar (roles x)) _ (fun x o => if o.1 =? x then registrar (privileges_of o.2) else x)); intros [] []. Qed.

Lemma final_assigner i : assigners (roles finally) !! i = handed_on (assigner_of i) os <$> (assigners (roles s) !! i).
Proof using.
  rewrite (fold_field (fun x => assigners (roles x) !! i) _ (fun x o => (fun a => if o.1 =? a then assigner_of i (privileges_of o.2) a else a) <$> x)).
  - apply (fold_fmap (fun a o => if o.1 =? a then assigner_of i (privileges_of o.2) a else a)).
  - intros [] []. cbn. by rewrite list_lookup_imap.
Qed.

Lemma final_validators : validator_queue finally.1 =
  match result_of os (delegator pre) with Some o => validator_queue (context_of o) | None => validator_queue s.1 end.
Proof using Hnd.
  rewrite (fold_field (fun x => validator_queue x.1) _ (fun x o => if o.1 =? delegator pre then validator_queue (context_of o.2) else x)) by by intros [] [].
  exact (fold_own (fun o _ => validator_queue (context_of o)) (delegator pre) os Hnd _).
Qed.

Lemma final_queue i a : assigners pre !! i = Some a -> authorizer_queues finally.1 !! i =
  (fun q => match result_of os a with Some o => replaced (authorizer_queues (context_of o)) i q | None => q end) <$> (authorizer_queues s.1 !! i).
Proof using Hnd.
  intros Ha. rewrite (fold_field (fun x => authorizer_queues x.1 !! i) _
    (fun x o => (fun q => if o.1 =? a then replaced (authorizer_queues (context_of o.2)) i q else q) <$> x)).
  - rewrite (fold_fmap (fun q o => if o.1 =? a then replaced (authorizer_queues (context_of o.2)) i q else q)).
    apply option_fmap_ext. intros q. apply (fold_own (fun o q => replaced (authorizer_queues (context_of o)) i q) a os Hnd).
  - intros [] []. cbn. rewrite list_lookup_imap. unfold replaced at 1. by rewrite Ha.
Qed.
End fields.

Section round.
Context {codec : Codec} (hash : bytes -> bytes).
Context (dict_items : forall K A : Type, forall E : EqDecision K, forall C : Countable K, gmap K A -> list (K * A)).

Section settled.
Context (c : AccumulationSettings) (e : AccumulationStateComponents) (outputs : list (Z * PvmAccumulateOutput)) (e' : AccumulationStateComponents).
Context (He : has_cores (as_constants c) e) (Hos : Forall (fun o => has_cores (as_constants c) (context_of o.2)) outputs) (Hnd : NoDup outputs.*1).
Context (Hs : settle hash dict_items c e outputs = Ret e').

Abbreviation pre := (privileged_services e).
Abbreviation view := (match result_of outputs (manager pre) with Some o => privileges_of o | None => pre end).
Abbreviation start := (e, mkManagerView (assigners pre) (delegator pre) (registrar pre)).

Lemma settled_run : Z.of_nat (length (assigners view)) = CORE_COUNT (as_constants c) /\
  exists st, e' = overridden pre (mkManagerView (assigners view) (delegator view) (registrar view))
                    (replace_services st (fold_left (taken_privileges pre) outputs start).1).
Proof using He Hos Hnd Hs.
  pose proof Hs as Hs'. unfold settle in Hs'. apply bind_ret in Hs' as (pending & _ & Hs').
  destruct (take_all_run (as_constants c) pre outputs (proj1 He) Hos start He) as [Hrun Hcores].
  rewrite Hrun in Hs'. clear Hrun. pose proof (final_view pre outputs Hnd start) as Hview.
  destruct (fold_left _ outputs _) as [e1 v] eqn:Efinal. cbn [mbind outcome_bind fst snd] in Hs', Hcores, Hview.
  assert (v = mkManagerView (assigners view) (delegator view) (registrar view)) as -> by (rewrite Hview; by destruct (result_of _ _)).
  apply bind_ret in Hs' as (st1 & _ & Hs'). apply bind_ret in Hs' as (st2 & _ & Hs'). apply bind_ret in Hs' as (st3 & _ & Hs').
  assert (Z.of_nat (length (assigners view)) = CORE_COUNT (as_constants c)) as Hlen.
  { destruct (result_of outputs (manager pre)) as [o|] eqn:Eo; [|apply He].
    apply (elem_of_list_to_map_2 outputs) in Eo. rewrite Forall_forall in Hos. apply (Hos _ Eo). }
  rewrite (override_privileges_run (as_constants c)) in Hs'; [|apply He|exact Hlen|exact Hcores]. split; [exact Hlen|].
  exists st3. injection Hs' as <-. done.
Qed.

Lemma settled_assigner i a : assigners pre !! i = Some a ->
  assigners (privileged_services e') !! i = Some (unless_managed (assigner_of i view a) a (handed_on (assigner_of i) outputs a)).
Proof using He Hos Hnd Hs.
  intros Hi. destruct settled_run as [Hlen [st ->]]. pose proof (final_assigner pre outputs start i) as Ha. cbn [fst] in Ha.
  rewrite Hi in Ha. cbn [overridden with_privileged privileged_services assigners replace_services mv_assigners]. rewrite list_lookup_imap, Ha.
  destruct (lookup_lt_is_Some_2 (assigners view) i) as [w Hw]; [apply lookup_lt_Some in Hi; destruct He as [He' _]; lia|].
  cbn. unfold assigner_of, replaced. by rewrite Hi, Hw.
Qed.
End settled.

(** C19: The privileges after a round, whichever services were accumulated.  The manager of before
    decides on the next manager and on the services that always accumulate; where its output
    changes the assigner of a core, the delegator or the registrar, that change prevails, and
    otherwise the role is handed on by whoever holds it when the outputs are gone through in the
    order of the service ids.  The validators to come are those of the delegator of before, and
    the queue of a core that of its assigner of before; without them everything stays. *)
Theorem privileges_after_round c e outputs e' :
  has_cores (as_constants c) e -> Forall (fun o => has_cores (as_constants c) (context_of o.2)) outputs -> NoDup outputs.*1 ->
  settle hash dict_items c e outputs = Ret e' ->
  let pre := privileged_services e in
  let post := privileged_services e' in
  let view := match result_of outputs (manager pre) with Some o => privileges_of o | None => pre end in
  manager post = manager view /\ always_accumulators post = always_accumulators view /\
  delegator post = unless_managed (delegator view) (delegator pre) (handed_on (fun p _ => delegator p) outputs (delegator pre)) /\
  registrar post = unless_managed (registrar view) (registrar pre) (handed_on (fun p _ => registrar p) outputs (registrar pre)) /\
  (forall i a, assigners pre !! i = Some a ->
     assigners post !! i = Some (unless_managed (assigner_of i view a) a (handed_on (assigner_of i) outputs a))) /\
  validator_queue e' = match result_of outputs (delegator pre) with Some o => validator_queue (context_of o) | None => validator_queue e end /\
  (forall i a q, assigners pre !! i = Some a -> authorizer_queues e !! i = Some q ->
     authorizer_queues e' !! i = Some (match result_of outputs a with Some o => replaced (authorizer_queues (context_of o)) i q | None => q end)).
Proof using.
  intros He Hos Hnd Hs pre post view. destruct (settled_run c e outputs e' He Hos Hnd Hs) as [_ [st E]]. fold pre in E. fold view in E.
  set (start := (e, mkManagerView (assigners pre) (delegator pre) (registrar pre))) in *.
  pose proof (final_manager pre outputs Hnd start) as Hm. pose proof (final_always pre outputs Hnd start) as Hal.
  pose proof (final_delegator pre outputs start) as Hd. pose proof (final_registrar pre outputs start) as Hr.
  pose proof (final_validators pre outputs Hnd start) as Hv. pose proof (final_queue pre outputs Hnd start) as Hq.
  cbn [fst snd start] in Hm, Hal, Hd, Hr, Hv, Hq. fold pre in Hm, Hal, Hd, Hr.
  split_and!; [..|intros i a; exact (settled_assigner c e outputs e' He Hos Hnd Hs i a)| |]; unfold post; rewrite E; cbn.
  - rewrite Hm. unfold view. by destruct (result_of _ _).
  - rewrite Hal. unfold view. by destruct (result_of _ _).
  - by rewrite Hd.
  - by rewrite Hr.
  - exact Hv.
  - intros i a q Hi Hqi. rewrite (Hq i a Hi). by rewrite Hqi.
Qed.

(** C38: Whether an assigner that hands its core on succeeds depends on who else is accumulated in
    the round.  Service [a] assigns core [i] and its output hands it to [b]; alone, the core is
    [b]'s afterwards.  If [b], with a greater id, is accumulated in the same round and does not
    touch the core, its output still names [a], since it ran on the state before the round, and
    the loop, which compares with the assigners it has already updated, gives the core back to [a]. *)
Theorem handover_reverted c e i a b oa ob e1 e2 :
  has_cores (as_constants c) e -> has_cores (as_constants c) (context_of oa) -> has_cores (as_constants c) (context_of ob) ->
  a < b -> manager (privileged_services e) <> a -> manager (privileged_services e) <> b ->
  assigners (privileged_services e) !! i = Some a ->
  assigners (privileges_of oa) !! i = Some b -> assigners (privileges_of ob) !! i = Some a ->
  settle hash dict_items c e [(a, oa)] = Ret e1 -> settle hash dict_items c e [(a, oa); (b, ob)] = Ret e2 ->
  assigners (privileged_services e1) !! i = Some b /\ assigners (privileged_services e2) !! i = Some a.
Proof using.
  intros He Ha Hb Hab Hma Hmb Hi Hoa Hob H1 H2. split.
  - rewrite (settled_assigner c e [(a, oa)] e1) with (a := a); [|done|repeat (apply Forall_cons; split; [done|]); apply Forall_nil; done|apply NoDup_singleton|done|done].
    unfold result_of. cbn [list_to_map foldr fst snd]. rewrite lookup_insert_ne, lookup_empty by done.
    unfold handed_on. cbn [fold_left fst snd]. unfold assigner_of, replaced, unless_managed. by rewrite Hi, Hoa, Z.eqb_refl; cbn; rewrite Z.eqb_refl.
  - rewrite (settled_assigner c e [(a, oa); (b, ob)] e2) with (a := a);
      [|done|repeat (apply Forall_cons; split; [done|]); apply Forall_nil; done|apply NoDup_cons; split; [intros Hin%list_elem_of_singleton; cbn in Hin; lia|apply NoDup_singleton]|done|done].
    unfold result_of. cbn [list_to_map foldr fst snd]. rewrite !lookup_insert_ne, lookup_empty by done.
    unfold handed_on. cbn [fold_left fst snd]. unfold assigner_of, replaced, unless_managed. rewrite Hi, Hoa, Z.eqb_refl. cbn. by rewrite Hob, !Z.eqb_refl.
Qed.
End round.
