(* ===== verification/Rounds.v ===== *)
(** * The rounds of accumulation

    What [full_sequential_accumulation] of [Services] does with gas, transfers and reports: a
    round hands every transfer and every work digest to the service it names, and no more gas
    than is left; it uses no more than that, and what it forwards is paid for.  Hence the rounds
    end within a stack that gas and reports bound, and a block uses no more gas than its limit,
    forwarded gas counted once. *)

From Stdlib Require Import ZArith Lia Bool List.
From stdpp Require Import base numbers option list sets gmap sorting.
From S2P Require Import Prelude Constants Graypaper Defs MemorySection Memory BasicBlock Program Invocation HostCalls StateBase Sums Reports Queue Storage StateKeys Accounts Pending AccumContext AccumCalls AccumServe Accumulate Services Settle.
Import ListNotations.

#[local] Open Scope Z_scope.

(** ** What a service is given *)

Definition gas_of_service (transfers : list DeferredTransfer) (reports : list WorkReport) (auto : gmap Z Z) (id : Z) : Z :=
  default 0 (auto !! id) + sum_of tr_gas_limit (filter (fun t => tr_receiver t = id) transfers) +
  sum_of (fun w => sum_of wd_accumulate_gas (filter (fun r => wd_service_id r = id) (wr_results w))) reports.

Definition inputs_of_service (transfers : list DeferredTransfer) (reports : list WorkReport) (id : Z) : list (AccumulationInput WorkExecResult) :=
  map transfer_input (filter (fun t => tr_receiver t = id) transfers) ++
  concat (map (fun w => map (operand_input w) (filter (fun r => wd_service_id r = id) (wr_results w))) reports).

Lemma take_transfers id l s : fold_left (take_transfer id) l s =
  (s.1 + sum_of tr_gas_limit (filter (fun t => tr_receiver t = id) l), s.2 ++ map transfer_input (filter (fun t => tr_receiver t = id) l)).
Proof.
  revert s. induction l as [|t l IH]; intros [g i]; cbn [fold_left]; [cbn; rewrite app_nil_r; f_equal; lia|].
  rewrite IH. unfold take_transfer. rewrite filter_cons. destruct (Z.eqb_spec (tr_receiver t) id), (decide (tr_receiver t = id)); try done.
  cbn. rewrite <- app_assoc. f_equal; lia.
Qed.

Lemma take_digests id w l s : fold_left (take_digest id w) l s =
  (s.1 + sum_of wd_accumulate_gas (filter (fun r => wd_service_id r = id) l), s.2 ++ map (operand_input w) (filter (fun r => wd_service_id r = id) l)).
Proof.
  revert s. induction l as [|r l IH]; intros [g i]; cbn [fold_left]; [cbn; rewrite app_nil_r; f_equal; lia|].
  rewrite IH. unfold take_digest. rewrite filter_cons. destruct (Z.eqb_spec (wd_service_id r) id), (decide (wd_service_id r = id)); try done.
  cbn. rewrite <- app_assoc. f_equal; lia.
Qed.

Lemma allowance_run transfers reports auto id :
  allowance transfers reports auto id = (gas_of_service transfers reports auto id, inputs_of_service transfers reports id).
Proof.
  unfold allowance, gas_of_service, inputs_of_service. rewrite take_transfers. cbn [fst snd app].
  generalize (default 0 (auto !! id) + sum_of tr_gas_limit (filter (fun t => tr_receiver t = id) transfers)).
  generalize (map transfer_input (filter (fun t => tr_receiver t = id) transfers)).
  induction reports as [|w l IH]; intros i g; cbn [fold_left]; [cbn; rewrite app_nil_r; f_equal; lia|].
  rewrite take_digests. cbn [fst snd]. rewrite IH. cbn. rewrite <- app_assoc. f_equal. lia.
Qed.

(** ** The services of a round *)

Lemma elem_of_service_ids transfers reports auto id : id ∈ service_ids transfers reports auto <->
  (exists w r, w ∈ reports /\ r ∈ wr_results w /\ wd_service_id r = id) \/ id ∈ dom auto \/ (exists t, t ∈ transfers /\ tr_receiver t = id).
Proof.
  unfold service_ids. rewrite (merge_sort_Permutation Z.le), elem_of_elements, elem_of_list_to_set, !elem_of_app.
  rewrite list_elem_of_In, in_concat. setoid_rewrite <- list_elem_of_In. setoid_rewrite list_elem_of_fmap.
  split; [intros [(l & (w & -> & Hw) & (r & -> & Hr)%list_elem_of_fmap)|[((k & v) & -> & Hk)|(t & -> & Ht)]]|intros [(w & r & Hw & Hr & <-)|[Hid|(t & Ht & <-)]]].
  - left. by exists w, r.
  - right. left. apply elem_of_map_to_list in Hk. by eapply elem_of_dom_2.
  - right. right. by exists t.
  - left. exists (map wd_service_id (wr_results w)). split; [by exists w|]. by apply list_elem_of_fmap_2.
  - right. left. apply elem_of_dom in Hid as [v Hv]. exists (id, v). split; [done|]. by apply elem_of_map_to_list.
  - right. right. by exists t.
Qed.

Lemma service_ids_NoDup transfers reports auto : NoDup (service_ids transfers reports auto).
Proof. unfold service_ids. rewrite (merge_sort_Permutation Z.le). apply NoDup_elements. Qed.

(** The gas of the services of a round is that of their reports, transfers and always-accumulators. *)
Lemma round_gas transfers reports auto :
  sum_of (gas_of_service transfers reports auto) (service_ids transfers reports auto) =
  sum_values auto + sum_of tr_gas_limit transfers + sum_of report_gas reports.
Proof.
  set (ids := service_ids transfers reports auto). pose proof (service_ids_NoDup transfers reports auto) as Hnd. fold ids in Hnd.
  unfold gas_of_service. rewrite sum_of_plus, sum_of_plus.
  rewrite sum_values_lookup by (done || (intros k Hk; apply elem_of_service_ids; auto)).
  rewrite (sum_of_partition tr_receiver) by (done || (intros x Hx; apply elem_of_service_ids; eauto)).
  f_equal. apply sum_of_partition_groups; [done|]. intros w r Hw Hr. apply elem_of_service_ids. left. by exists w, r.
Qed.

(** ** Runs of services *)

Abbreviation output := (Z * PvmAccumulateOutput)%type.

Lemma run_services_spec (step : Z -> option (outcome exn PvmAccumulateOutput)) (P : Z -> PvmAccumulateOutput -> Prop) (Q : exn -> Prop) ids :
  (forall id, id ∈ ids -> exists r, step id = Some r /\ match r with Ret o => P id o | Raise x => Q x end) ->
  exists r, run_services step ids = Some r /\
    match r with
    | Ret outs => outs.*1 = ids /\ Forall (fun o => P o.1 o.2) outs
    | Raise (InInvocation x) => Q x
    | Raise (InState _) => False
    end.
Proof.
  induction ids as [|id ids IH]; intros Hstep; cbn [run_services]; [by exists (Ret [])|].
  destruct (Hstep id) as (r & -> & Hr); [left|]. destruct r as [o|x]; [|by exists (Raise (InInvocation x))]. cbn [of_invocation mbind acc_bind].
  destruct IH as (r & -> & Hrs); [intros; apply Hstep; by right|]. destruct r as [outs|x]; [|by exists (Raise x)].
  destruct Hrs as [<- Hall]. exists (Ret ((id, o) :: outs)). split; [done|]. split; [done|]. by constructor.
Qed.

Lemma sorted_by_key (outs : list output) ids : StronglySorted Z.le ids -> outs.*1 ≡ₚ ids -> (merge_sort by_id outs).*1 = ids.
Proof.
  intros Hs Hp. apply (StronglySorted_unique Z.le); [|done|by rewrite (merge_sort_Permutation by_id)].
  pose proof (@StronglySorted_merge_sort _ by_id _ ltac:(intros [] [] []; unfold by_id; cbn; lia) ltac:(intros [] []; unfold by_id; cbn; lia) outs) as H.
  induction H as [|o l Hl IH Ho]; cbn; [constructor|]. constructor; [done|]. by apply Forall_fmap.
Qed.

Section rounds.
Context {tolerance : Tolerance} {codec : Codec} {laws : CodecLaws codec} {J : Type} {jam : JamCodec J} {jam_laws : JamCodecLaws J}.
Context (hash : bytes -> bytes) (vdecode : bytes -> ValidatorData) (after_metadata : bytes -> bytes).
Context (Hmeta : forall b, List.Forall is_byte b -> List.Forall is_byte (after_metadata b)).
Context {RC : Type} {fetch : FetchCodec RC (AccumulationInput WorkExecResult)} {fetch_laws : FetchCodecLaws RC (AccumulationInput WorkExecResult)}.
Context (dict_items : forall K A : Type, forall E : EqDecision K, forall C : Countable K, gmap K A -> list (K * A)).
Context (c : AccumulationSettings).
Implicit Types (transfers : list DeferredTransfer) (reports : list WorkReport) (auto : gmap Z Z) (e : AccumulationStateComponents).

Abbreviation step := (single_step_accumulation (jam := jam) hash vdecode after_metadata (fetch := fetch) c).
Abbreviation round := (parallel_accumulation (jam := jam) hash vdecode after_metadata (fetch := fetch) dict_items c).
Abbreviation rounds depth := (full_sequential_accumulation (jam := jam) hash vdecode after_metadata (fetch := fetch) dict_items depth c).

(** The settings a round relies on; a pool completes every service once. *)
Record settings_ok : Prop := mkSettingsOk {
  so_hash : forall x, length (hash x) = 32%nat;
  so_constants : accumulate_gp_ok (as_constants c);
  so_stack : Z.of_nat (as_stack c) < 2 ^ 31;
  so_entropy : blob_ok (as_entropy c);
  so_pool : match as_pool c with Some arrival => forall ids, arrival ids ≡ₚ ids | None => True end
}.

Definition mutator i : AccumulateMutator (AccumulationInput WorkExecResult) :=
  mkAccumulateMutator _ (as_entropy c) i (as_constants c) (as_bless_compat c) (as_stack c).

Lemma mutator_ok i : settings_ok -> accumulate_mutator_ok hash (RC := RC) (mutator i).
Proof using. intros [Hh Hgp Hst He _]. by split. Qed.

(** A state the services can be run on. *)
Definition readable_state e : Prop := state_wf hash (mutator []) (as_timeslot c) (detached e).

(** Integers of the width the codec gives them. *)
Definition report_typed (w : WorkReport) : Prop :=
  Forall (fun r => service_id (wd_service_id r) /\ 0 <= wd_accumulate_gas r) (wr_results w).
Definition auto_typed auto : Prop := map_Forall (fun id g => service_id id /\ 0 <= g) auto.

Definition round_typed transfers reports auto : Prop :=
  Forall transfer_ok transfers /\ Forall report_typed reports /\ auto_typed auto.

(** The gas a round hands out. *)
Definition handed_out transfers reports auto : Z := sum_values auto + sum_of tr_gas_limit transfers + sum_of report_gas reports.

Lemma typed_service transfers reports auto id : round_typed transfers reports auto -> id ∈ service_ids transfers reports auto -> service_id id.
Proof using.
  intros (Ht & Hr & Ha) Hid. apply elem_of_service_ids in Hid as [(w & r & Hw & Hr' & <-)|[[g Hg]%elem_of_dom|(t & Ht' & <-)]].
  - eapply Forall_forall in Hr; [|exact Hw]. eapply Forall_forall in Hr; [|exact Hr']. apply Hr.
  - apply (Ha _ _ Hg).
  - eapply Forall_forall in Ht; [|exact Ht']. apply Ht.
Qed.

Lemma gas_of_service_nonneg transfers reports auto id : round_typed transfers reports auto -> 0 <= gas_of_service transfers reports auto id.
Proof using.
  intros (Ht & Hr & Ha). unfold gas_of_service. apply Z.add_nonneg_nonneg; [apply Z.add_nonneg_nonneg|].
  - destruct (auto !! id) eqn:E; [|done]. apply (Ha _ _ E).
  - apply sum_of_nonneg, Forall_filter. eapply Forall_impl; [exact Ht|]. intros t (_ & ? & _). done.
  - apply sum_of_nonneg. eapply Forall_impl; [exact Hr|]. intros w Hw. apply sum_of_nonneg, Forall_filter.
    eapply Forall_impl; [exact Hw|]. by intros r [].
Qed.

Lemma gas_of_service_bound transfers reports auto id : round_typed transfers reports auto -> id ∈ service_ids transfers reports auto ->
  gas_of_service transfers reports auto id <= handed_out transfers reports auto.
Proof using.
  intros Hty Hid. unfold handed_out. rewrite <- round_gas. apply list_elem_of_split in Hid as (l1 & l2 & ->).
  rewrite sum_of_app. cbn [sum_of].
  assert (forall l, 0 <= sum_of (gas_of_service transfers reports auto) l) as Hpos.
  { intros l. apply sum_of_nonneg, Forall_forall. intros x _. by apply gas_of_service_nonneg. }
  pose proof (Hpos l1). pose proof (Hpos l2). lia.
Qed.

(** What an invocation of the round uses and sends. *)
Definition step_ok transfers reports auto id (o : PvmAccumulateOutput) : Prop :=
  0 <= pa_gas_used o <= gas_of_service transfers reports auto id /\
  sum_of transfer_cost (pa_deferred_transfers o) <= pa_gas_used o /\ Forall transfer_ok (pa_deferred_transfers o).

Lemma step_run transfers reports auto e id : settings_ok -> readable_state e -> round_typed transfers reports auto ->
  handed_out transfers reports auto < 2 ^ 64 -> id ∈ service_ids transfers reports auto ->
  exists r, step e transfers reports auto id = Some r /\
    match r with Ret o => step_ok transfers reports auto id o | Raise x => accumulate_may x end.
Proof using laws jam_laws Hmeta fetch_laws.
  intros Hok He Hty Hg Hid. unfold single_step_accumulation. rewrite allowance_run.
  pose proof (gas_of_service_bound _ _ _ _ Hty Hid). pose proof (gas_of_service_nonneg _ _ _ id Hty).
  pose proof (mutator_ok (inputs_of_service transfers reports id) Hok) as Hm.
  destruct (invocation_run hash vdecode after_metadata Hmeta (mutator (inputs_of_service transfers reports id)) Hm (as_timeslot c) id
    (detached e) (gas_of_service transfers reports auto id)) as [(o & e' & Hrun & Hgas & _ & _ & Hans & Hsent)|(x & Hrun & Hx)].
  - destruct He as [? ? ? ?]. by split.
  - by eapply typed_service.
  - lia.
  - exists (Ret o). split; [exact Hrun|]. split; [done|]. split; [done|by eapply answered_transfers].
  - exists (Raise x). by split.
Qed.

(** ** A round *)

Lemma service_ids_sorted transfers reports auto : StronglySorted Z.le (service_ids transfers reports auto).
Proof using. unfold service_ids. apply (StronglySorted_merge_sort Z.le). Qed.

Lemma outputs_run transfers reports auto e : settings_ok -> readable_state e -> round_typed transfers reports auto ->
  handed_out transfers reports auto < 2 ^ 64 ->
  exists r, collect_outputs (as_pool c) (step e transfers reports auto) (service_ids transfers reports auto) = Some r /\
    match r with
    | Ret outs => outs.*1 = service_ids transfers reports auto /\ Forall (fun o => step_ok transfers reports auto o.1 o.2) outs
    | Raise (InInvocation x) => accumulate_may x
    | Raise (InState _) => False
    end.
Proof using laws jam_laws Hmeta fetch_laws.
  intros Hok He Hty Hg. pose proof (so_pool Hok) as Hpool. unfold collect_outputs. set (ids := service_ids _ _ _).
  assert (forall l, l ≡ₚ ids -> exists r, run_services (step e transfers reports auto) l = Some r /\
    match r with
    | Ret outs => outs.*1 = l /\ Forall (fun o => step_ok transfers reports auto o.1 o.2) outs
    | Raise (InInvocation x) => accumulate_may x
    | Raise (InState _) => False
    end) as Hrun.
  { intros l Hl. apply run_services_spec. intros id Hid. apply step_run; try done. fold ids. by rewrite <- Hl. }
  destruct (as_pool c) as [arrival|]; [|by apply Hrun].
  destruct (Hrun (arrival ids) (Hpool ids)) as (r & -> & Hr). destruct r as [outs|x]; [|by exists (Raise x)]. destruct Hr as [Hids Hall].
  cbn [mbind acc_bind mret acc_ret]. eexists. split; [done|]. split.
  - apply sorted_by_key; [apply service_ids_sorted|]. rewrite Hids. apply Hpool.
  - rewrite Forall_forall in Hall |- *. intros o Ho. apply Hall. by rewrite (merge_sort_Permutation by_id) in Ho.
Qed.

(** What a round uses, sends and leaves. *)
Definition round_ok transfers reports auto (out : ParallelAccumulationOutput) : Prop :=
  sum_of transfer_cost (pl_deferred_transfers out) <= sum_values (pl_accumulation_gas_utilized out) <= handed_out transfers reports auto /\
  Forall transfer_ok (pl_deferred_transfers out).

Lemma round_run transfers reports auto e : settings_ok -> readable_state e -> round_typed transfers reports auto ->
  handed_out transfers reports auto < 2 ^ 64 ->
  exists r, round e transfers reports auto = Some r /\ match r with Ret out => round_ok transfers reports auto out | Raise _ => True end.
Proof using laws jam_laws Hmeta fetch_laws.
  intros Hok He Hty Hg. unfold parallel_accumulation.
  destruct (outputs_run transfers reports auto e Hok He Hty Hg) as (r & -> & Hr).
  destruct r as [outs|x]; [|by exists (Raise x)]. destruct Hr as [Hids Hall]. cbn [mbind acc_bind].
  destruct (settle _ _ _ _ _) as [e'|x]; [|by eexists]. cbn [of_state mbind acc_bind mret acc_ret]. eexists. split; [done|].
  unfold round_ok. cbn [pl_deferred_transfers pl_accumulation_gas_utilized].
  assert ((map (fun o : output => (o.1, pa_gas_used o.2)) outs).*1 = outs.*1) as Hkeys by (rewrite <- list_fmap_compose; done).
  rewrite sum_values_list_to_map by (rewrite Hkeys, Hids; apply service_ids_NoDup).
  rewrite sum_of_map, sum_of_concat. cbn [snd]. unfold handed_out. rewrite <- round_gas, <- Hids. split_and!.
  - apply sum_of_le. eapply Forall_impl; [exact Hall|]. by intros o (_ & ? & _).
  - change (outs.*1) with (map fst outs). rewrite sum_of_map. apply sum_of_le. eapply Forall_impl; [exact Hall|].
    by intros o ([_ ?] & _).
  - apply Forall_concat, Forall_fmap. eapply Forall_impl; [exact Hall|]. by intros o (_ & _ & ?).
Qed.

(** ** The sequence of rounds *)

(** The reports a round takes, with the gas set aside for the rest. *)
Definition taken (gas_limit : Z) transfers reports auto : nat :=
  reports_within gas_limit (sum_of tr_gas_limit transfers + sum_values auto) reports.

Lemma reports_within_gas gas_limit reserved reports : reserved <= gas_limit ->
  reserved + sum_of report_gas (take (reports_within gas_limit reserved reports) reports) <= gas_limit.
Proof using.
  revert reserved. induction reports as [|w l IH]; intros r Hr; cbn; [lia|]. destruct (Z.ltb_spec gas_limit (r + report_gas w)); cbn; [lia|].
  specialize (IH (r + report_gas w) ltac:(lia)). lia.
Qed.

Lemma reports_within_length gas_limit reserved reports : (reports_within gas_limit reserved reports <= length reports)%nat.
Proof using.
  revert reserved. induction reports as [|w l IH]; intros r; cbn; [lia|]. destruct (_ <? _); [lia|]. specialize (IH (r + report_gas w)). lia.
Qed.

(** The gas of the next round. *)
Definition next_gas gas_limit (out : ParallelAccumulationOutput) : Z :=
  gas_limit + sum_of tr_gas_limit (pl_deferred_transfers out) - sum_values (pl_accumulation_gas_utilized out).

Definition finished (gas_limit : Z) transfers reports auto : bool :=
  Z.of_nat (length transfers) + Z.of_nat (taken gas_limit transfers reports auto) + Z.of_nat (size auto) =? 0.

(** The services can be run on every state the rounds come to. *)
Fixpoint readable_rounds (n : nat) (gas_limit : Z) transfers reports e auto : Prop :=
  match n with
  | O => True
  | S n =>
      let i := taken gas_limit transfers reports auto in
      if finished gas_limit transfers reports auto then True
      else readable_state e /\ forall out, round e transfers (take i reports) auto = Some (Ret out) ->
        readable_rounds n (next_gas gas_limit out) (pl_deferred_transfers out) (drop i reports) (pl_accumulation_state out) ∅
  end.

(** Where the rounds begin: what is set aside is within the limit. *)
Record rounds_typed (gas_limit : Z) transfers reports auto : Prop := mkRoundsTyped {
  rt_typed : round_typed transfers reports auto;
  rt_reserved : sum_of tr_gas_limit transfers + sum_values auto <= gas_limit;
  rt_limit : gas_limit < 2 ^ 64
}.

Lemma gas_le_cost l : sum_of transfer_cost l = 575 * Z.of_nat (length l) + sum_of tr_gas_limit l.
Proof using. induction l as [|t l IH]; [done|]. cbn [sum_of length]. rewrite IH. unfold transfer_cost. lia. Qed.

Lemma taken_typed gas_limit transfers reports auto : rounds_typed gas_limit transfers reports auto ->
  round_typed transfers (take (taken gas_limit transfers reports auto) reports) auto /\
  handed_out transfers (take (taken gas_limit transfers reports auto) reports) auto <= gas_limit.
Proof using.
  intros [(Ht & Hr & Ha) Hres Hlim]. split; [split; [done|]; split; [by apply Forall_take|done]|].
  pose proof (reports_within_gas gas_limit _ reports Hres). unfold handed_out, taken in *. lia.
Qed.

Lemma next_typed gas_limit transfers reports auto out : rounds_typed gas_limit transfers reports auto ->
  round_ok transfers (take (taken gas_limit transfers reports auto) reports) auto out ->
  rounds_typed (next_gas gas_limit out) (pl_deferred_transfers out) (drop (taken gas_limit transfers reports auto) reports) ∅ /\
  next_gas gas_limit out + 575 * Z.of_nat (length (pl_deferred_transfers out)) <= gas_limit.
Proof using.
  intros Hty [[Hsent Hused] Hout]. destruct (taken_typed _ _ _ _ Hty) as [_ Hhanded]. destruct Hty as [(Ht & Hr & Ha) Hres Hlim].
  rewrite gas_le_cost in Hsent. unfold next_gas. split; [|lia]. split; [|rewrite sum_values_empty; lia|lia].
  split; [done|]. split; [by apply Forall_drop|]. apply map_Forall_empty.
Qed.

(** A bound on the rounds to come: each but the first has reports or transfers, and a transfer
    has cost at least 575. *)
Definition rounds_bound (gas_limit : Z) transfers reports auto : Z :=
  gas_limit / 575 + Z.of_nat (length reports) + (if (length transfers =? 0)%nat && (size auto =? 0)%nat then 0 else 1).

Lemma rounds_bound_nonneg gas_limit transfers reports auto : rounds_typed gas_limit transfers reports auto ->
  0 <= rounds_bound gas_limit transfers reports auto.
Proof using.
  intros [(Ht & Hr & Ha) Hres _]. unfold rounds_bound. assert (0 <= gas_limit / 575); [|destruct (_ && _); lia]. apply Z.div_pos; [|lia].
  assert (0 <= sum_of tr_gas_limit transfers) by (apply sum_of_nonneg; eapply Forall_impl; [exact Ht|]; by intros t (_ & ? & _)).
  assert (0 <= sum_values auto); [|lia]. unfold sum_values. apply sum_of_nonneg, Forall_forall.
  intros [k v] Hk%elem_of_map_to_list. by apply (Ha k v).
Qed.

Lemma rounds_bound_decreases gas_limit transfers reports auto out : rounds_typed gas_limit transfers reports auto ->
  finished gas_limit transfers reports auto = false ->
  round_ok transfers (take (taken gas_limit transfers reports auto) reports) auto out ->
  rounds_bound (next_gas gas_limit out) (pl_deferred_transfers out) (drop (taken gas_limit transfers reports auto) reports) ∅ <
  rounds_bound gas_limit transfers reports auto.
Proof using.
  intros Hty Hfin Hout. destruct (next_typed _ _ _ _ _ Hty Hout) as [_ Hnext]. unfold rounds_bound, finished in *.
  pose proof (reports_within_length gas_limit (sum_of tr_gas_limit transfers + sum_values auto) reports) as Hle.
  fold (taken gas_limit transfers reports auto) in Hle. rewrite length_drop. change (size (∅ : gmap Z Z)) with 0%nat.
  apply Z.eqb_neq in Hfin. set (g' := next_gas gas_limit out) in *. clearbody g'.
  assert (g' / 575 <= gas_limit / 575 - (if (length (pl_deferred_transfers out) =? 0)%nat then 0 else 1)) as Hdiv.
  { destruct (Nat.eqb_spec (length (pl_deferred_transfers out)) 0).
    - rewrite Z.sub_0_r. apply Z.div_le_mono; lia.
    - replace (gas_limit / 575 - 1) with ((gas_limit + -1 * 575) / 575) by (rewrite Z.div_add by lia; lia). apply Z.div_le_mono; lia. }
  revert Hdiv. destruct (Nat.eqb_spec (length (pl_deferred_transfers out)) 0), (Nat.eqb_spec (length transfers) 0), (Nat.eqb_spec (size auto) 0); cbn [andb Nat.eqb]; lia.
Qed.

(** ** Properties *)

Lemma finished_nothing gas_limit transfers reports auto : finished gas_limit transfers reports auto = true ->
  transfers = [] /\ taken gas_limit transfers reports auto = 0%nat /\ auto = ∅.
Proof using.
  unfold finished. intros H%Z.eqb_eq. split_and!; [apply nil_length_inv; lia|lia|apply map_size_empty_inv; lia].
Qed.

Lemma rounds_step depth gas_limit transfers reports e auto : finished gas_limit transfers reports auto = false ->
  rounds (S depth) gas_limit transfers reports e auto =
  (out ← round e transfers (take (taken gas_limit transfers reports auto) reports) auto;
   second ← rounds depth (next_gas gas_limit out) (pl_deferred_transfers out) (drop (taken gas_limit transfers reports auto) reports)
              (pl_accumulation_state out) ∅;
   mret (mkFull (Z.of_nat (taken gas_limit transfers reports auto) + nr_work_results_accumulated second) (post_accumulation_state second)
           (pl_accumulation_commitment out ∪ accumulation_commitment second)
           (sum_dict_values (pl_accumulation_gas_utilized out) (accumulation_gas_utilized second))
           (transfers ++ processed_transfers second))).
Proof using.
  intros Hfin. cbn [full_sequential_accumulation]. unfold finished, taken in Hfin. rewrite Hfin. reflexivity.
Qed.

Lemma rounds_done depth gas_limit transfers reports e auto : finished gas_limit transfers reports auto = true ->
  rounds (S depth) gas_limit transfers reports e auto = Some (Ret (mkFull 0 e ∅ ∅ [])).
Proof using. intros Hfin. cbn [full_sequential_accumulation]. unfold finished, taken in Hfin. by rewrite Hfin. Qed.

(** What the rounds come to, with no bound on their number: an outcome is reached by finitely
    many of them.  Nothing is left to accumulate; or a round raises; or the rounds after it
    raise, or end and their output is added to that of the round. *)
Inductive rounds_to : Z -> list DeferredTransfer -> list WorkReport -> AccumulationStateComponents -> gmap Z Z ->
    outcome accumulation_exn FullAccumulationOutput -> Prop :=
| rounds_to_done gas_limit transfers reports e auto : finished gas_limit transfers reports auto = true ->
    rounds_to gas_limit transfers reports e auto (Ret (mkFull 0 e ∅ ∅ []))
| rounds_to_raise gas_limit transfers reports e auto x : finished gas_limit transfers reports auto = false ->
    round e transfers (take (taken gas_limit transfers reports auto) reports) auto = Some (Raise x) ->
    rounds_to gas_limit transfers reports e auto (Raise x)
| rounds_to_next gas_limit transfers reports e auto out second : finished gas_limit transfers reports auto = false ->
    round e transfers (take (taken gas_limit transfers reports auto) reports) auto = Some (Ret out) ->
    rounds_to (next_gas gas_limit out) (pl_deferred_transfers out) (drop (taken gas_limit transfers reports auto) reports)
      (pl_accumulation_state out) ∅ second ->
    rounds_to gas_limit transfers reports e auto
      (second ← second;
       Ret (mkFull (Z.of_nat (taken gas_limit transfers reports auto) + nr_work_results_accumulated second) (post_accumulation_state second)
              (pl_accumulation_commitment out ∪ accumulation_commitment second)
              (sum_dict_values (pl_accumulation_gas_utilized out) (accumulation_gas_utilized second))
              (transfers ++ processed_transfers second))).

(** A round does not exhaust the stack of the rounds. *)
Lemma round_calm transfers reports auto e x : settings_ok -> readable_state e -> round_typed transfers reports auto ->
  handed_out transfers reports auto < 2 ^ 64 -> round e transfers reports auto = Some (Raise x) -> x <> InState RecursionDepth.
Proof using laws jam_laws Hmeta fetch_laws.
  intros Hok He Hty Hg. unfold parallel_accumulation.
  destruct (outputs_run transfers reports auto e Hok He Hty Hg) as (r & -> & Hr). destruct r as [outs|y]; cbn [mbind acc_bind].
  - pose proof (calm_settle hash dict_items c e outs) as Hcalm.
    destruct (settle _ _ _ _ _) as [e'|y]; cbn [of_state mbind acc_bind mret acc_ret]; [done|]. intros [= <-] [= ->]. by apply Hcalm.
  - intros [= <-]. by destruct y.
Qed.

(** C17: the rounds end: whatever the programs, the transfers they send each other and the
    reports, finitely many rounds, without a bound on the recursion, come to one result, which
    is not that Python's stack is exhausted; and with a stack of more frames than the gas
    divided by the least cost of a transfer, with the reports and one, the function returns it.
    The integers are those of their types, and accounts, items and preimages read in every
    round. *)
Theorem rounds_end : settings_ok -> forall gas_limit transfers reports e auto,
  let bound := rounds_bound gas_limit transfers reports auto in
  rounds_typed gas_limit transfers reports auto -> readable_rounds (Z.to_nat bound + 1) gas_limit transfers reports e auto ->
  exists r, rounds_to gas_limit transfers reports e auto r /\ r <> Raise (InState RecursionDepth) /\
    forall depth, bound < Z.of_nat depth -> rounds depth gas_limit transfers reports e auto = Some r.
Proof using laws jam_laws Hmeta fetch_laws.
  intros Hok gas_limit transfers reports e auto bound Hty. unfold bound. clear bound. revert gas_limit transfers reports e auto Hty.
  assert (forall n gas_limit transfers reports e auto, rounds_typed gas_limit transfers reports auto ->
    rounds_bound gas_limit transfers reports auto < Z.of_nat n -> readable_rounds n gas_limit transfers reports e auto ->
    exists r, rounds_to gas_limit transfers reports e auto r /\ r <> Raise (InState RecursionDepth) /\
      forall depth, rounds_bound gas_limit transfers reports auto < Z.of_nat depth -> rounds depth gas_limit transfers reports e auto = Some r) as H.
  2: { intros gas_limit transfers reports e auto Hty Hread. pose proof (rounds_bound_nonneg _ _ _ _ Hty).
       apply (H (Z.to_nat (rounds_bound gas_limit transfers reports auto) + 1)%nat); [done|lia|done]. }
  induction n as [|n IH]; intros gas_limit transfers reports e auto Hty Hn Hread; pose proof (rounds_bound_nonneg _ _ _ _ Hty); [lia|].
  cbn [readable_rounds] in Hread. destruct (finished gas_limit transfers reports auto) eqn:Hfin.
  { eexists. split; [by apply rounds_to_done|]. split; [done|]. intros [|depth] Hd; [lia|]. by rewrite rounds_done. }
  destruct Hread as [He Hnext]. destruct (taken_typed _ _ _ _ Hty) as [Hty' Hhanded].
  destruct (round_run transfers (take (taken gas_limit transfers reports auto) reports) auto e Hok He Hty') as (r & Hrun & Hout).
  { destruct Hty. lia. }
  destruct r as [out|x].
  2: { exists (Raise x). split; [by apply rounds_to_raise|]. split; [|intros [|depth] Hd; [lia|]; by rewrite rounds_step, Hrun].
       intros [= Hx]. revert Hx. eapply round_calm; [done|exact He|exact Hty'|destruct Hty; lia|exact Hrun]. }
  destruct (next_typed _ _ _ _ _ Hty Hout) as [Hty2 _]. pose proof (rounds_bound_decreases _ _ _ _ _ Hty Hfin Hout) as Hdec.
  destruct (IH (next_gas gas_limit out) (pl_deferred_transfers out) (drop (taken gas_limit transfers reports auto) reports) (pl_accumulation_state out) ∅)
    as (second & Hto & Hcalm & Hsecond); [done|lia|by apply Hnext|].
  eexists. split; [by apply rounds_to_next|]. split.
  - destruct second as [second|x]; [done|]. intros [= ->]. by apply Hcalm.
  - intros [|depth] Hd; [lia|]. rewrite rounds_step, Hrun by done. cbn [mbind acc_bind]. rewrite Hsecond by lia. by destruct second.
Qed.

(** C16: what the rounds use.  The gas used stays within the limit, the gas that transfers
    forward counted once; the reports accumulated are the first so many, and the next one, if
    there is one, does not fit into the gas that is left. *)
Theorem rounds_gas : settings_ok -> forall depth gas_limit transfers reports e auto out,
  rounds_typed gas_limit transfers reports auto -> readable_rounds depth gas_limit transfers reports e auto ->
  rounds depth gas_limit transfers reports e auto = Some (Ret out) ->
  let left := gas_limit + sum_of tr_gas_limit (processed_transfers out) - sum_of tr_gas_limit transfers - sum_values (accumulation_gas_utilized out) in
  0 <= left /\ 0 <= nr_work_results_accumulated out <= Z.of_nat (length reports) /\
  forall w, reports !! Z.to_nat (nr_work_results_accumulated out) = Some w -> left < report_gas w.
Proof using laws jam_laws Hmeta fetch_laws.
  intros Hok depth. induction depth as [|depth IH]; intros gas_limit transfers reports e auto out Hty Hread Hrun; [done|].
  cbn [readable_rounds] in Hread. destruct (finished gas_limit transfers reports auto) eqn:Hfin.
  - rewrite rounds_done in Hrun by done. injection Hrun as <-. apply finished_nothing in Hfin as (-> & Htaken & ->).
    destruct Hty as [_ Hres _]. cbn in Hres |- *. rewrite sum_values_empty in Hres |- *. split; [lia|]. split; [lia|].
    intros w Hw. unfold taken in Htaken. destruct reports as [|w' l]; [done|]. injection Hw as ->. revert Htaken. cbn [reports_within sum_of].
    rewrite sum_values_empty. destruct (Z.ltb_spec gas_limit (0 + 0 + report_gas w)); [lia|done].
  - destruct Hread as [He Hnext]. rewrite rounds_step in Hrun by done. destruct (taken_typed _ _ _ _ Hty) as [Hty' Hhanded].
    destruct (round_run transfers (take (taken gas_limit transfers reports auto) reports) auto e Hok He Hty') as (r & Hround & Hout).
    { destruct Hty. lia. }
    rewrite Hround in Hrun. destruct r as [o|x]; [|done]. cbn [mbind acc_bind] in Hrun.
    destruct (next_typed _ _ _ _ _ Hty Hout) as [Hty2 _].
    destruct (rounds depth _ _ _ _ _) as [[second|x]|] eqn:Hsecond; try done. injection Hrun as <-.
    destruct (IH _ _ _ _ _ _ Hty2 (Hnext o Hround) Hsecond) as (Hleft & Hn & Hfit).
    pose proof (reports_within_length gas_limit (sum_of tr_gas_limit transfers + sum_values auto) reports) as Hle.
    fold (taken gas_limit transfers reports auto) in Hle. rewrite length_drop in Hn.
    cbn [accumulation_gas_utilized processed_transfers nr_work_results_accumulated]. rewrite sum_values_dict, sum_of_app.
    unfold next_gas in Hleft, Hfit. split; [lia|]. split; [lia|]. intros w Hw.
    rewrite Z2Nat.inj_add, Nat2Z.id in Hw by lia. specialize (Hfit w). rewrite lookup_drop in Hfit. specialize (Hfit Hw). lia.
Qed.

End rounds.

(** C20: a round gives every transfer and every work digest to the service it names, once, in
    order and transfers first, with the gas they carry, and nothing else: the services of the
    round are those named, ascending, and their gas and inputs add up. *)
Theorem round_distributes transfers reports auto :
  let ids := service_ids transfers reports auto in
  StronglySorted Z.le ids /\ NoDup ids /\
  (forall id, id ∈ ids <-> (exists w r, w ∈ reports /\ r ∈ wr_results w /\ wd_service_id r = id) \/ id ∈ dom auto \/
                           (exists t, t ∈ transfers /\ tr_receiver t = id)) /\
  (forall id, allowance transfers reports auto id = (gas_of_service transfers reports auto id, inputs_of_service transfers reports id)) /\
  sum_of (fun id => (allowance transfers reports auto id).1) ids = handed_out transfers reports auto /\
  sum_of (fun id => Z.of_nat (length (allowance transfers reports auto id).2)) ids =
    Z.of_nat (length transfers) + sum_of (fun w => Z.of_nat (length (wr_results w))) reports.
Proof.
  cbv zeta. split; [apply service_ids_sorted|]. split; [apply service_ids_NoDup|]. split; [apply elem_of_service_ids|]. split; [apply allowance_run|].
  rewrite (sum_of_ext (fun id => (allowance transfers reports auto id).1) (gas_of_service transfers reports auto))
    by (intros id _; by rewrite allowance_run).
  split; [apply round_gas|].
  rewrite (sum_of_ext _ (fun id => sum_of (fun _ => 1) (filter (fun t => tr_receiver t = id) transfers) +
    sum_of (fun w => sum_of (fun _ => 1) (filter (fun r => wd_service_id r = id) (wr_results w))) reports)).
  - rewrite sum_of_plus, sum_of_partition, sum_of_partition_groups; try apply service_ids_NoDup.
    + rewrite length_sum. f_equal. apply sum_of_ext. intros w _. by rewrite length_sum.
    + intros w r Hw Hr. apply elem_of_service_ids. left. by exists w, r.
    + intros t Ht. apply elem_of_service_ids. right. right. by exists t.
  - intros id _. rewrite allowance_run. unfold inputs_of_service. cbn [snd]. rewrite length_app, length_map, Nat2Z.inj_add, length_concat_sum, length_sum.
    f_equal. apply sum_of_ext. intros w _. by rewrite length_map, length_sum.
Qed.
