(* ===== verification/Statistics.v ===== *)
(** * The statistics component

    [Statistics] of [state/components.py] with the records of [models/state.py]: what a block
    adds to the activity of its validators, and what its reports, preimages and accumulation
    are for each core and each service.  The theorems are about accounts: nothing a block
    carries is lost or counted twice. *)

From Stdlib Require Import ZArith Lia Bool List.
From stdpp Require Import base numbers option list sets gmap sorting.
From S2P Require Import Prelude Graypaper StateBase Sums Reports Safrole Queue Services Privileges.
Import ListNotations.

#[local] Open Scope Z_scope.

(** ** Data *)

Record ActivityRecord : Type := mkActivity {
  ar_blocks : Z;
  ar_tickets : Z;
  ar_pre_images : Z;
  ar_pre_images_size : Z;
  ar_guarantees : Z;
  ar_assurances : Z
}.

Record CoreActivityRecord : Type := mkCoreActivity {
  co_da_load : Z;
  co_popularity : Z;
  co_imports : Z;
  co_extrinsic_count : Z;
  co_extrinsic_size : Z;
  co_exports : Z;
  co_bundle_size : Z;
  co_gas_used : Z
}.

Record ServiceActivityRecord : Type := mkServiceActivity {
  sv_provided_count : Z;
  sv_provided_size : Z;
  sv_refinement_count : Z;
  sv_refinement_gas_used : Z;
  sv_imports : Z;
  sv_extrinsic_count : Z;
  sv_extrinsic_size : Z;
  sv_exports : Z;
  sv_accumulate_count : Z;
  sv_accumulate_transfer_count : Z;
  sv_accumulate_gas_used : Z
}.

Record StatisticsState : Type := mkStatistics {
  vals_current : list ActivityRecord;
  vals_last : list ActivityRecord;
  st_cores : list CoreActivityRecord;
  st_services : gmap Z ServiceActivityRecord
}.

(** What a block brings; [in_reporters] and [in_available] are those of the block's context. *)
Record StatisticsInput : Type := mkStatisticsInput {
  in_guarantees : list Guarantee;
  in_preimages : list Preimage;
  in_assurances : list Assurance;
  in_tickets : list TicketEnvelope;
  in_reporters : list bytes;
  in_available : list WorkReport;
  in_accumulation : gmap Z AccumulationStatistic;
  in_validators : list ValidatorData;
  in_pre_slot : Z;
  in_slot : Z;
  in_author : Z
}.

(** ** Validators *)

Definition no_activity : ActivityRecord := mkActivity 0 0 0 0 0 0.
Definition add_assurance (a : ActivityRecord) : ActivityRecord :=
  mkActivity (ar_blocks a) (ar_tickets a) (ar_pre_images a) (ar_pre_images_size a) (ar_guarantees a) (ar_assurances a + 1).
Definition add_guarantee (a : ActivityRecord) : ActivityRecord :=
  mkActivity (ar_blocks a) (ar_tickets a) (ar_pre_images a) (ar_pre_images_size a) (ar_guarantees a + 1) (ar_assurances a).
Definition add_block (tickets preimages size : Z) (a : ActivityRecord) : ActivityRecord :=
  mkActivity (ar_blocks a + 1) (ar_tickets a + tickets) (ar_pre_images a + preimages) (ar_pre_images_size a + size)
    (ar_guarantees a) (ar_assurances a).

(** [l[i] = f(l[i])] *)
Definition edit {A} (f : A -> A) (i : Z) (l : list A) : outcome state_exn (list A) :=
  x ← get_item l i;
  set_item l i (f x).

Definition preimage_size (p : Preimage) : Z := Z.of_nat (length (blob p)).

Fixpoint retrieve_validator_index_from (i : Z) (ed25519_key : bytes) (validators : list ValidatorData) : option Z :=
  match validators with
  | [] => None
  | v :: validators => if bool_decide (ed25519 v = ed25519_key) then Some i else retrieve_validator_index_from (i + 1) ed25519_key validators
  end.
Definition retrieve_validator_index : bytes -> list ValidatorData -> option Z := retrieve_validator_index_from 0.

Definition count_guarantee (validators : list ValidatorData) (reporter : bytes) (vals : list ActivityRecord)
    : outcome state_exn (list ActivityRecord) :=
  match retrieve_validator_index reporter validators with
  | Some i => edit add_guarantee i vals
  | None => Ret vals
  end.

Definition assurers (assurances : list Assurance) : list Z :=
  merge_sort Z.le (elements (list_to_set (map as_validator_index assurances) : gset Z)).

(** ** Cores *)

Definition update_from_incoming_work_reports (core_index : Z) (incoming_work_reports : list WorkReport) (a : CoreActivityRecord)
    : CoreActivityRecord :=
  fold_left (fun a w =>
    if wr_core_index w =? core_index then
      fold_left (fun a r =>
        let load := wd_refine_load r in
        mkCoreActivity (co_da_load a) (co_popularity a) (co_imports a + rl_imports load) (co_extrinsic_count a + rl_extrinsic_count load)
          (co_extrinsic_size a + rl_extrinsic_size load) (co_exports a + rl_exports load) (co_bundle_size a) (co_gas_used a + rl_gas_used load))
      (wr_results w)
      (mkCoreActivity (co_da_load a) (co_popularity a) (co_imports a) (co_extrinsic_count a) (co_extrinsic_size a) (co_exports a)
         (co_bundle_size a + ps_length (wr_package_spec w)) (co_gas_used a))
    else a) incoming_work_reports a.

(** The data placed into the two stores: the bundle and, for each 64 segments exported, 65. *)
Definition da_load_of (w : WorkReport) : Z :=
  ps_length (wr_package_spec w) + EC_SEGMENT_SIZE * ((ps_exports_count (wr_package_spec w) * 65 + 63) / 64).

Definition update_from_available_work_reports (core_index : Z) (available_work_reports : list WorkReport) (a : CoreActivityRecord)
    : CoreActivityRecord :=
  mkCoreActivity (sum_of da_load_of (filter (fun w => wr_core_index w = core_index) available_work_reports)) (co_popularity a)
    (co_imports a) (co_extrinsic_count a) (co_extrinsic_size a) (co_exports a) (co_bundle_size a) (co_gas_used a).

Definition update (core_index : Z) (incoming available : list WorkReport) (assurances : list Assurance) (a : CoreActivityRecord)
    : CoreActivityRecord :=
  let a := mkCoreActivity 0 0 0 0 0 0 0 0 in
  let a := match incoming with [] => a | _ => update_from_incoming_work_reports core_index incoming a end in
  let a := match available with [] => a | _ => update_from_available_work_reports core_index available a end in
  mkCoreActivity (co_da_load a) (sum_of (fun _ => 1) (filter (fun a => core_index ∈ cores_engaged a) assurances)) (co_imports a)
    (co_extrinsic_count a) (co_extrinsic_size a) (co_exports a) (co_bundle_size a) (co_gas_used a).

(** ** Services *)

Definition no_service_activity : ServiceActivityRecord := mkServiceActivity 0 0 0 0 0 0 0 0 0 0 0.

Definition add_preimage (s : Z) (a : ServiceActivityRecord) (p : Preimage) : ServiceActivityRecord :=
  if requester p =? s
  then mkServiceActivity (sv_provided_count a + 1) (sv_provided_size a + preimage_size p) (sv_refinement_count a) (sv_refinement_gas_used a)
         (sv_imports a) (sv_extrinsic_count a) (sv_extrinsic_size a) (sv_exports a) (sv_accumulate_count a) (sv_accumulate_transfer_count a)
         (sv_accumulate_gas_used a)
  else a.

Definition add_digest (s : Z) (a : ServiceActivityRecord) (r : WorkDigest) : ServiceActivityRecord :=
  let load := wd_refine_load r in
  if wd_service_id r =? s
  then mkServiceActivity (sv_provided_count a) (sv_provided_size a) (sv_refinement_count a + 1) (sv_refinement_gas_used a + rl_gas_used load)
         (sv_imports a + rl_imports load) (sv_extrinsic_count a + rl_extrinsic_count load) (sv_extrinsic_size a + rl_extrinsic_size load)
         (sv_exports a + rl_exports load) (sv_accumulate_count a) (sv_accumulate_transfer_count a) (sv_accumulate_gas_used a)
  else a.

Definition add_accumulation (o : option AccumulationStatistic) (a : ServiceActivityRecord) : ServiceActivityRecord :=
  match o with
  | None => a
  | Some x =>
      mkServiceActivity (sv_provided_count a) (sv_provided_size a) (sv_refinement_count a) (sv_refinement_gas_used a) (sv_imports a)
        (sv_extrinsic_count a) (sv_extrinsic_size a) (sv_exports a) (sv_accumulate_count a + nr_work_reports_accumulated x)
        (sv_accumulate_transfer_count a + nr_transfers_accumulated x) (sv_accumulate_gas_used a + total_gas_utilized x)
  end.

Definition service_activity (b : StatisticsInput) (s : Z) : ServiceActivityRecord :=
  let a := fold_left (add_preimage s) (in_preimages b) no_service_activity in
  let a := fold_left (fun a w => fold_left (add_digest s) (wr_results w) a) (map g_report (in_guarantees b)) a in
  add_accumulation (in_accumulation b !! s) a.

(** The services concerned, ascending. *)
Definition affected_services (b : StatisticsInput) : list Z :=
  merge_sort Z.le (elements (list_to_set (concat (map (fun w => map wd_service_id (wr_results w)) (map g_report (in_guarantees b))) ++
    map requester (in_preimages b) ++ map fst (map_to_list (in_accumulation b))) : gset Z)).

(** ** [state_transition] *)

Definition state_transition (gp : GpConstants) (b : StatisticsInput) (pre : StatisticsState) : outcome state_exn StatisticsState :=
  vals ← each (edit add_assurance) (assurers (in_assurances b)) (vals_current pre);
  let '(vals, last) :=
    if is_epoch_change gp (in_pre_slot b) (in_slot b)
    then (map (fun _ => no_activity) (in_validators b), vals)
    else (vals, vals_last pre) in
  vals ← edit (add_block (Z.of_nat (length (in_tickets b))) (Z.of_nat (length (in_preimages b))) (sum_of preimage_size (in_preimages b)))
           (in_author b) vals;
  vals ← each (count_guarantee (in_validators b)) (in_reporters b) vals;
  let incoming := map g_report (in_guarantees b) in
  cores ← each (fun c => edit (update c incoming (in_available b) (in_assurances b)) c) (py_range 0 (CORE_COUNT gp)) (st_cores pre);
  Ret (mkStatistics vals last cores
         (fold_left (fun services s => <[s := service_activity b s]> services) (affected_services b) ∅)).

(** * Properties *)

(** ** Sums over edited lists *)

Lemma edit_run {A} (f : A -> A) c l x : l !! c = Some x -> edit f (Z.of_nat c) l = Ret (<[c := f x]> l).
Proof.
  intros Hx. unfold edit. rewrite (get_item_run _ _ x Hx). cbn [mbind outcome_bind]. apply set_item_run. by eapply lookup_lt_Some.
Qed.

Lemma edit_total {A} (f : A -> A) i l : 0 <= i < Z.of_nat (length l) -> exists j x, l !! j = Some x /\ edit f i l = Ret (<[j := f x]> l).
Proof.
  intros Hi. destruct (lookup_lt_is_Some_2 l (Z.to_nat i)) as [x Hx]; [lia|]. exists (Z.to_nat i), x. split; [done|].
  rewrite <- (edit_run f (Z.to_nat i) l x Hx). by rewrite Z2Nat.id by lia.
Qed.

Lemma sum_of_insert {A} (g : A -> Z) l j x y : l !! j = Some x -> sum_of g (<[j := y]> l) = sum_of g l - g x + g y.
Proof.
  revert j. induction l as [|a l IH]; intros [|j] Hj; try done.
  - injection Hj as ->. cbn. lia.
  - change (<[S j := y]> (a :: l)) with (a :: <[j := y]> l). cbn [sum_of]. rewrite (IH j) by done. lia.
Qed.

(** Editing adds to a sum what it adds to the entry. *)
Lemma edit_sums {A} (f : A -> A) i l : 0 <= i < Z.of_nat (length l) -> exists l', edit f i l = Ret l' /\ length l' = length l /\
  forall (g : A -> Z) d, (forall x, g (f x) = g x + d) -> sum_of g l' = sum_of g l + d.
Proof.
  intros Hi. destruct (edit_total f i l Hi) as (j & x & Hx & ->). eexists. split; [done|]. split; [apply length_insert|].
  intros g d Hg. rewrite (sum_of_insert g l j x) by done. rewrite Hg. lia.
Qed.

Lemma each_edit_sums {A B} (step : B -> list A -> outcome state_exn (list A)) (n : nat) bs :
  (forall b l, b ∈ bs -> length l = n -> exists l', step b l = Ret l' /\ length l' = n) ->
  forall l, length l = n -> exists l', each step bs l = Ret l' /\ length l' = n /\
    forall (g : A -> Z) (d : B -> Z), (forall b l l', b ∈ bs -> length l = n -> step b l = Ret l' -> sum_of g l' = sum_of g l + d b) ->
      sum_of g l' = sum_of g l + sum_of d bs.
Proof.
  induction bs as [|b bs IH]; intros Hstep l Hl; cbn [each].
  { exists l. split_and!; [done..|]. intros. cbn. lia. }
  destruct (Hstep b l) as (l1 & Hl1 & Hn); [by left|done|]. rewrite Hl1. cbn [mbind outcome_bind].
  destruct (IH (fun b' l' Hb => Hstep b' l' (list_elem_of_further _ _ _ Hb)) l1 Hn) as (l' & -> & Hn' & Hs). exists l'. split_and!; [done..|].
  intros g d Hd. cbn [sum_of]. rewrite (Hs g d) by (intros; eapply Hd; [by right|done|done]). rewrite (Hd b l l1); [lia|by left|done|done].
Qed.

(** ** The validators *)

Lemma elem_of_assurers assurances i : i ∈ assurers assurances <-> exists a, a ∈ assurances /\ as_validator_index a = i.
Proof.
  unfold assurers. rewrite (merge_sort_Permutation Z.le), elem_of_elements, elem_of_list_to_set. setoid_rewrite list_elem_of_fmap. naive_solver.
Qed.

Lemma retrieve_validator_index_spec k i vs : forall j, retrieve_validator_index_from j k vs = Some i -> j <= i < j + Z.of_nat (length vs).
Proof.
  induction vs as [|v vs IH]; intros j; cbn [retrieve_validator_index_from length]; [done|].
  case_bool_decide; [intros [= <-]; lia|]. intros Hi%IH. lia.
Qed.

(** The reporters that are validators. *)
Definition known_reporters (b : StatisticsInput) : list bytes :=
  filter (fun k => is_Some (retrieve_validator_index k (in_validators b))) (in_reporters b).

(** The indices of a block are those of its validators. *)
Record indices_ok (gp : GpConstants) (b : StatisticsInput) (pre : StatisticsState) : Prop := mkIndicesOk {
  ix_assurers : Forall (fun a => 0 <= as_validator_index a < Z.of_nat (length (vals_current pre))) (in_assurances b);
  ix_author : 0 <= in_author b < Z.of_nat (length (in_validators b));
  ix_validators : is_epoch_change gp (in_pre_slot b) (in_slot b) = false -> length (in_validators b) = length (vals_current pre);
  ix_cores : Z.of_nat (length (st_cores pre)) = CORE_COUNT gp;
  ix_reports : Forall (fun g => 0 <= g_core_index g < CORE_COUNT gp) (in_guarantees b)
}.

Lemma assurances_run assurances vals : Forall (fun a => 0 <= as_validator_index a < Z.of_nat (length vals)) assurances ->
  exists vals', each (edit add_assurance) (assurers assurances) vals = Ret vals' /\ length vals' = length vals /\
    forall (g : ActivityRecord -> Z) d, (forall x, g (add_assurance x) = g x + d) -> sum_of g vals' = sum_of g vals + d * Z.of_nat (length (assurers assurances)).
Proof.
  intros Ha. destruct (each_edit_sums (edit add_assurance) (length vals) (assurers assurances)) with (l := vals) as (vals' & Hrun & Hlen & Hs); [|done|].
  - intros i l (a & Hin & <-)%elem_of_assurers Hl. eapply Forall_forall in Ha; [|exact Hin].
    destruct (edit_sums add_assurance (as_validator_index a) l) as (l' & ? & ? & _); [lia|]. exists l'. split; [done|lia].
  - exists vals'. split_and!; [done..|]. intros g d Hd. rewrite (Hs g (fun _ => d)).
    + rewrite length_sum. generalize (assurers assurances). intros l. induction l; cbn [sum_of]; lia.
    + intros i l l' (a & Hin & <-)%elem_of_assurers Hl Hrun'. eapply Forall_forall in Ha; [|exact Hin].
      destruct (edit_sums add_assurance (as_validator_index a) l) as (l'' & Hrun'' & _ & Hsum); [lia|].
      rewrite Hrun'' in Hrun'. injection Hrun' as <-. by apply Hsum.
Qed.

Lemma guarantees_run validators reporters vals : length validators = length vals ->
  exists vals', each (count_guarantee validators) reporters vals = Ret vals' /\ length vals' = length vals /\
    forall (g : ActivityRecord -> Z) d, (forall x, g (add_guarantee x) = g x + d) ->
      sum_of g vals' = sum_of g vals + d * Z.of_nat (length (filter (fun k => is_Some (retrieve_validator_index k validators)) reporters)).
Proof.
  intros Hv. destruct (each_edit_sums (count_guarantee validators) (length vals) reporters) with (l := vals) as (vals' & Hrun & Hlen & Hs); [|done|].
  - intros k l _ Hl. unfold count_guarantee. destruct (retrieve_validator_index k validators) as [i|] eqn:Ei; [|by exists l].
    apply retrieve_validator_index_spec in Ei. destruct (edit_sums add_guarantee i l) as (l' & ? & ? & _); [lia|]. exists l'. split; [done|lia].
  - exists vals'. split_and!; [done..|]. intros g d Hd. rewrite (Hs g (fun k => if decide (is_Some (retrieve_validator_index k validators)) then d else 0)).
    + clear. induction reporters as [|k ks IH]; cbn [sum_of]; [cbn; lia|]. rewrite filter_cons. destruct (decide _); cbn [length]; lia.
    + intros k l l' _ Hl. unfold count_guarantee. destruct (retrieve_validator_index k validators) as [i|] eqn:Ei.
      * rewrite decide_True by by eexists. apply retrieve_validator_index_spec in Ei as Hi. intros Hrun'.
        destruct (edit_sums add_guarantee i l) as (l'' & Hrun'' & _ & Hsum); [lia|]. rewrite Hrun'' in Hrun'. injection Hrun' as <-. by apply Hsum.
      * rewrite decide_False by by intros []. intros [= <-]. lia.
Qed.

(** ** The cores *)

Lemma cores_run gp b cores : Z.of_nat (length cores) = CORE_COUNT gp ->
  each (fun c => edit (update c (map g_report (in_guarantees b)) (in_available b) (in_assurances b)) c) (py_range 0 (CORE_COUNT gp)) cores =
    Ret (imap (fun c => update (Z.of_nat c) (map g_report (in_guarantees b)) (in_available b) (in_assurances b)) cores).
Proof.
  intros <-. apply (each_cores (fun l => l) (fun l _ => l)); try done. intros c l x _ Hx. by apply edit_run.
Qed.

Lemma sum_of_imap {A B} (f : B -> Z) (g : nat -> A -> B) (h : Z -> Z) (l : list A) :
  (forall i x, f (g i x) = h (Z.of_nat i)) -> sum_of f (imap g l) = sum_of h (py_range 0 (Z.of_nat (length l))).
Proof.
  intros Hf. assert (forall n, sum_of f (imap (fun i => g (n + i)%nat) l) = sum_of h (py_range (Z.of_nat n) (Z.of_nat (n + length l)))) as H.
  { induction l as [|x l IH]; intros n; cbn [imap length]; [by rewrite py_range_nil by lia|].
    rewrite py_range_cons by lia. cbn [sum_of]. rewrite Hf, Nat.add_0_r. f_equal.
    replace (Z.of_nat n + 1) with (Z.of_nat (S n)) by lia. replace (n + S (length l))%nat with (S n + length l)%nat by lia.
    rewrite <- IH. f_equal. apply imap_ext. intros i y _. cbn. f_equal. lia. }
  exact (H 0%nat).
Qed.

(** What the digests of a block load on cores and services. *)
Inductive metric : Set := GasUsed | Imports | ExtrinsicCount | ExtrinsicSize | Exports.

Definition of_load (m : metric) : RefineLoad -> Z :=
  match m with GasUsed => rl_gas_used | Imports => rl_imports | ExtrinsicCount => rl_extrinsic_count | ExtrinsicSize => rl_extrinsic_size | Exports => rl_exports end.
Definition of_core (m : metric) : CoreActivityRecord -> Z :=
  match m with GasUsed => co_gas_used | Imports => co_imports | ExtrinsicCount => co_extrinsic_count | ExtrinsicSize => co_extrinsic_size | Exports => co_exports end.
Definition of_service (m : metric) : ServiceActivityRecord -> Z :=
  match m with GasUsed => sv_refinement_gas_used | Imports => sv_imports | ExtrinsicCount => sv_extrinsic_count | ExtrinsicSize => sv_extrinsic_size | Exports => sv_exports end.

Definition digest_load (m : metric) (r : WorkDigest) : Z := of_load m (wd_refine_load r).
Definition report_load (m : metric) (w : WorkReport) : Z := sum_of (digest_load m) (wr_results w).

Lemma incoming_core m c ws : forall a, of_core m (update_from_incoming_work_reports c ws a) =
  of_core m a + sum_of (report_load m) (filter (fun w => wr_core_index w = c) ws).
Proof.
  unfold update_from_incoming_work_reports. induction ws as [|w ws IH]; intros a; cbn [fold_left]; [cbn; lia|].
  rewrite IH, filter_cons. destruct (Z.eqb_spec (wr_core_index w) c), (decide (wr_core_index w = c)); try done. cbn [sum_of].
  assert (forall l a, of_core m (fold_left (fun a r => mkCoreActivity (co_da_load a) (co_popularity a) (co_imports a + rl_imports (wd_refine_load r))
    (co_extrinsic_count a + rl_extrinsic_count (wd_refine_load r)) (co_extrinsic_size a + rl_extrinsic_size (wd_refine_load r))
    (co_exports a + rl_exports (wd_refine_load r)) (co_bundle_size a) (co_gas_used a + rl_gas_used (wd_refine_load r))) l a) =
    of_core m a + sum_of (digest_load m) l) as H.
  { induction l as [|r l IHl]; intros a'; cbn [fold_left sum_of]; [lia|]. rewrite IHl. destruct m; cbn; lia. }
  rewrite H. unfold report_load. destruct m; cbn; lia.
Qed.

Lemma update_core m c incoming available assurances a :
  of_core m (update c incoming available assurances a) = sum_of (report_load m) (filter (fun w => wr_core_index w = c) incoming).
Proof.
  unfold update. destruct incoming as [|w ws], available as [|v vs]; try (by destruct m);
    pose proof (incoming_core m c (w :: ws) (mkCoreActivity 0 0 0 0 0 0 0 0)) as H; destruct m; exact H.
Qed.

(** ** The services *)

Lemma preimages_service s ps : forall a,
  let a' := fold_left (add_preimage s) ps a in
  sv_provided_count a' = sv_provided_count a + sum_of (fun _ => 1) (filter (fun p => requester p = s) ps) /\
  sv_provided_size a' = sv_provided_size a + sum_of preimage_size (filter (fun p => requester p = s) ps) /\
  (forall m, of_service m a' = of_service m a) /\ sv_refinement_count a' = sv_refinement_count a /\ sv_accumulate_gas_used a' = sv_accumulate_gas_used a.
Proof.
  induction ps as [|p ps IH]; intros a; cbn [fold_left]; [cbn; split_and!; (lia || done)|].
  destruct (IH (add_preimage s a p)) as (H1 & H2 & H3 & H4 & H5). rewrite filter_cons. unfold add_preimage in *.
  destruct (Z.eqb_spec (requester p) s), (decide (requester p = s)); try done; cbn [sum_of] in *; cbn in H1, H2, H4, H5.
  split_and!; [lia|lia|intros m; rewrite H3; by destruct m|lia|lia].
Qed.

Lemma digests_service s rs : forall a,
  let a' := fold_left (add_digest s) rs a in
  sv_provided_count a' = sv_provided_count a /\ sv_provided_size a' = sv_provided_size a /\
  (forall m, of_service m a' = of_service m a + sum_of (digest_load m) (filter (fun r => wd_service_id r = s) rs)) /\
  sv_refinement_count a' = sv_refinement_count a + sum_of (fun _ => 1) (filter (fun r => wd_service_id r = s) rs) /\
  sv_accumulate_gas_used a' = sv_accumulate_gas_used a.
Proof.
  induction rs as [|r rs IH]; intros a; cbn [fold_left]; [cbn; split_and!; try lia; intros; lia|].
  destruct (IH (add_digest s a r)) as (H1 & H2 & H3 & H4 & H5). rewrite filter_cons. unfold add_digest in *.
  destruct (Z.eqb_spec (wd_service_id r) s), (decide (wd_service_id r = s)); try done; cbn [sum_of] in *; cbn in H1, H2, H4, H5.
  split_and!; [lia|lia| |lia|lia]. intros m. rewrite H3. destruct m; cbn; lia.
Qed.

Lemma reports_service s ws : forall a,
  let a' := fold_left (fun a w => fold_left (add_digest s) (wr_results w) a) ws a in
  sv_provided_count a' = sv_provided_count a /\ sv_provided_size a' = sv_provided_size a /\
  (forall m, of_service m a' = of_service m a + sum_of (fun w => sum_of (digest_load m) (filter (fun r => wd_service_id r = s) (wr_results w))) ws) /\
  sv_refinement_count a' = sv_refinement_count a + sum_of (fun w => sum_of (fun _ => 1) (filter (fun r => wd_service_id r = s) (wr_results w))) ws /\
  sv_accumulate_gas_used a' = sv_accumulate_gas_used a.
Proof.
  induction ws as [|w ws IH]; intros a; cbn [fold_left sum_of]; [split_and!; try lia; intros; lia|].
  destruct (IH (fold_left (add_digest s) (wr_results w) a)) as (H1 & H2 & H3 & H4 & H5).
  destruct (digests_service s (wr_results w) a) as (D1 & D2 & D3 & D4 & D5). cbv zeta in *. split_and!; [lia|lia| |lia|lia].
  intros m. rewrite H3, D3. lia.
Qed.

(** The record of a service, in sums over what names it. *)
Lemma service_activity_sums b s :
  let incoming := map g_report (in_guarantees b) in
  sv_provided_count (service_activity b s) = sum_of (fun _ => 1) (filter (fun p => requester p = s) (in_preimages b)) /\
  sv_provided_size (service_activity b s) = sum_of preimage_size (filter (fun p => requester p = s) (in_preimages b)) /\
  (forall m, of_service m (service_activity b s) = sum_of (fun w => sum_of (digest_load m) (filter (fun r => wd_service_id r = s) (wr_results w))) incoming) /\
  sv_refinement_count (service_activity b s) = sum_of (fun w => sum_of (fun _ => 1) (filter (fun r => wd_service_id r = s) (wr_results w))) incoming /\
  sv_accumulate_gas_used (service_activity b s) = default 0 (total_gas_utilized <$> in_accumulation b !! s).
Proof.
  unfold service_activity.
  destruct (preimages_service s (in_preimages b) no_service_activity) as (P1 & P2 & P3 & P4 & P5).
  destruct (reports_service s (map g_report (in_guarantees b)) (fold_left (add_preimage s) (in_preimages b) no_service_activity)) as (R1 & R2 & R3 & R4 & R5).
  cbv zeta in *. set (a := fold_left _ (map g_report _) _) in *. destruct (in_accumulation b !! s) as [x|]; cbn [add_accumulation].
  - cbn in P1, P2, P4, P5 |- *. split_and!; [lia|lia| |lia|lia].
    intros m. rewrite <- (Z.add_0_l (sum_of _ _)). replace 0 with (of_service m no_service_activity) by by destruct m. rewrite <- P3, <- R3. by destruct m.
  - cbn in P1, P2, P4, P5 |- *. split_and!; [lia|lia| |lia|lia].
    intros m. rewrite R3, P3. by destruct m.
Qed.

Lemma elem_of_affected b s : s ∈ affected_services b <->
  (exists w r, w ∈ map g_report (in_guarantees b) /\ r ∈ wr_results w /\ wd_service_id r = s) \/
  (exists p, p ∈ in_preimages b /\ requester p = s) \/ s ∈ dom (in_accumulation b).
Proof.
  unfold affected_services. rewrite (merge_sort_Permutation Z.le), elem_of_elements, elem_of_list_to_set, !elem_of_app.
  rewrite list_elem_of_In, in_concat. setoid_rewrite <- list_elem_of_In. split.
  - intros [(l & (w & -> & Hw)%list_elem_of_fmap & (r & -> & Hr)%list_elem_of_fmap)|[(p & -> & Hp)%list_elem_of_fmap|((k & v) & -> & Hk)%list_elem_of_fmap]].
    + left. by exists w, r.
    + right; left. by exists p.
    + right; right. apply elem_of_map_to_list in Hk. by eapply elem_of_dom_2.
  - intros [(w & r & Hw & Hr & <-)|[(p & Hp & <-)|[v Hv]%elem_of_dom]].
    + left. exists (map wd_service_id (wr_results w)). split; [by apply (list_elem_of_fmap_2 (fun w => map wd_service_id (wr_results w)))|by apply list_elem_of_fmap_2].
    + right; left. by apply list_elem_of_fmap_2.
    + right; right. apply list_elem_of_fmap. exists (s, v). split; [done|]. by apply elem_of_map_to_list.
Qed.

Lemma affected_NoDup b : NoDup (affected_services b).
Proof. unfold affected_services. rewrite (merge_sort_Permutation Z.le). apply NoDup_elements. Qed.

Lemma inserted_list {A} (g : Z -> A) l : NoDup l -> forall m : gmap Z A, (forall s, s ∈ l -> m !! s = None) ->
  map_to_list (fold_left (fun m s => <[s := g s]> m) l m) ≡ₚ map (fun s => (s, g s)) l ++ map_to_list m.
Proof.
  induction 1 as [|s l Hs Hl IH]; intros m Hm; cbn [fold_left map app]; [done|]. rewrite IH.
  - rewrite map_to_list_insert by (apply Hm; by left). by rewrite <- Permutation_middle.
  - intros s' Hs'. rewrite lookup_insert_ne by (intros ->; done). apply Hm. by right.
Qed.

(** The sum of a field over the services of a state. *)
Definition total (f : ServiceActivityRecord -> Z) (p : StatisticsState) : Z := sum_of (fun x => f x.2) (map_to_list (st_services p)).

Lemma sum_affected (f : ServiceActivityRecord -> Z) b :
  sum_of (fun x => f x.2) (map_to_list (fold_left (fun services s => <[s := service_activity b s]> services) (affected_services b) (∅ : gmap Z ServiceActivityRecord))) =
  sum_of (fun s => f (service_activity b s)) (affected_services b).
Proof.
  rewrite (sum_of_perm _ _ _ (inserted_list (service_activity b) (affected_services b) (affected_NoDup b) ∅ ltac:(done))).
  rewrite map_to_list_empty, app_nil_r, sum_of_map. done.
Qed.

Lemma sum_accumulated (d : gmap Z AccumulationStatistic) ids : NoDup ids -> (forall k, k ∈ dom d -> k ∈ ids) ->
  sum_of (fun s => default 0 (total_gas_utilized <$> d !! s)) ids = sum_of (fun x => total_gas_utilized x.2) (map_to_list d).
Proof.
  intros Hnd Hin. rewrite (sum_of_ext _ (fun s => default 0 ((total_gas_utilized <$> d) !! s))) by (intros s _; by rewrite lookup_fmap).
  rewrite sum_values_lookup by (done || (intros k Hk; apply Hin; by rewrite dom_fmap in Hk)).
  unfold sum_values. rewrite map_to_list_fmap. change (prod_map id total_gas_utilized <$> map_to_list d) with (map (prod_map id total_gas_utilized) (map_to_list d)).
  by rewrite sum_of_map.
Qed.

(** ** A block *)

(** The author's and the guarantors' records. *)
Lemma block_run b vals : 0 <= in_author b < Z.of_nat (length (in_validators b)) -> length (in_validators b) = length vals ->
  exists v1 v2, edit (add_block (Z.of_nat (length (in_tickets b))) (Z.of_nat (length (in_preimages b))) (sum_of preimage_size (in_preimages b))) (in_author b) vals = Ret v1 /\
    each (count_guarantee (in_validators b)) (in_reporters b) v1 = Ret v2 /\
    sum_of ar_blocks v2 = sum_of ar_blocks vals + 1 /\
    sum_of ar_tickets v2 = sum_of ar_tickets vals + Z.of_nat (length (in_tickets b)) /\
    sum_of ar_pre_images v2 = sum_of ar_pre_images vals + Z.of_nat (length (in_preimages b)) /\
    sum_of ar_pre_images_size v2 = sum_of ar_pre_images_size vals + sum_of preimage_size (in_preimages b) /\
    sum_of ar_guarantees v2 = sum_of ar_guarantees vals + Z.of_nat (length (known_reporters b)) /\
    sum_of ar_assurances v2 = sum_of ar_assurances vals.
Proof.
  intros Ha Hv.
  destruct (edit_sums (add_block (Z.of_nat (length (in_tickets b))) (Z.of_nat (length (in_preimages b))) (sum_of preimage_size (in_preimages b))) (in_author b) vals)
    as (v1 & Hv1 & Hl1 & Hs1); [lia|].
  destruct (guarantees_run (in_validators b) (in_reporters b) v1) as (v2 & Hv2 & _ & Hs2); [congruence|]. fold (known_reporters b) in Hs2.
  exists v1, v2. split; [done|]. split; [done|]. split_and!.
  - rewrite (Hs2 _ 0), (Hs1 _ 1); [lia|by intros []|by intros []; cbn; lia].
  - rewrite (Hs2 _ 0), (Hs1 ar_tickets (Z.of_nat (length (in_tickets b)))); [lia|by intros []|by intros []; cbn; lia].
  - rewrite (Hs2 _ 0), (Hs1 ar_pre_images (Z.of_nat (length (in_preimages b)))); [lia|by intros []|by intros []; cbn; lia].
  - rewrite (Hs2 _ 0), (Hs1 ar_pre_images_size (sum_of preimage_size (in_preimages b))); [lia|by intros []|by intros []; cbn; lia].
  - rewrite (Hs2 _ 1), (Hs1 _ 0); [lia|by intros []; cbn; lia|by intros []].
  - rewrite (Hs2 _ 0), (Hs1 _ 0); [lia|by intros []; cbn; lia|by intros []; cbn; lia].
Qed.

(** The services' and the cores' records. *)
Lemma services_sums b services : services = fold_left (fun m s => <[s := service_activity b s]> m) (affected_services b) (∅ : gmap Z ServiceActivityRecord) ->
  let incoming := map g_report (in_guarantees b) in
  let sum f := sum_of (fun x : Z * ServiceActivityRecord => f x.2) (map_to_list services) in
  (forall m, sum (of_service m) = sum_of (report_load m) incoming) /\
  sum sv_refinement_count = sum_of (fun w => Z.of_nat (length (wr_results w))) incoming /\
  sum sv_provided_count = Z.of_nat (length (in_preimages b)) /\
  sum sv_provided_size = sum_of preimage_size (in_preimages b) /\
  sum sv_accumulate_gas_used = sum_of (fun x => total_gas_utilized x.2) (map_to_list (in_accumulation b)).
Proof.
  intros ->. cbv zeta.
  assert (forall p, p ∈ in_preimages b -> requester p ∈ affected_services b) as Hp by (intros p Hp; apply elem_of_affected; right; left; by exists p).
  assert (forall w r, w ∈ map g_report (in_guarantees b) -> r ∈ wr_results w -> wd_service_id r ∈ affected_services b) as Hr
    by (intros w r Hw Hr; apply elem_of_affected; left; by exists w, r).
  split_and!; [intros m|..]; rewrite sum_affected.
  - rewrite (sum_of_ext _ _ _ (fun s _ => proj1 (proj2 (proj2 (service_activity_sums b s))) m)).
    exact (sum_of_partition_groups wr_results wd_service_id (digest_load m) _ _ (affected_NoDup b) Hr).
  - rewrite (sum_of_ext _ _ _ (fun s _ => proj1 (proj2 (proj2 (proj2 (service_activity_sums b s)))))).
    rewrite (sum_of_partition_groups wr_results wd_service_id (fun _ => 1) _ _ (affected_NoDup b) Hr). apply sum_of_ext. intros w _. by rewrite length_sum.
  - rewrite (sum_of_ext _ _ _ (fun s _ => proj1 (service_activity_sums b s))), length_sum.
    exact (sum_of_partition requester (fun _ => 1) _ _ (affected_NoDup b) Hp).
  - rewrite (sum_of_ext _ _ _ (fun s _ => proj1 (proj2 (service_activity_sums b s)))).
    exact (sum_of_partition requester preimage_size _ _ (affected_NoDup b) Hp).
  - rewrite (sum_of_ext _ _ _ (fun s _ => proj2 (proj2 (proj2 (proj2 (service_activity_sums b s)))))).
    apply sum_accumulated; [apply affected_NoDup|]. intros s Hs. apply elem_of_affected. by do 2 right.
Qed.

Lemma cores_sums gp b (cores : list CoreActivityRecord) m : Z.of_nat (length cores) = CORE_COUNT gp ->
  Forall (fun g => 0 <= g_core_index g < CORE_COUNT gp) (in_guarantees b) ->
  sum_of (of_core m) (imap (fun c => update (Z.of_nat c) (map g_report (in_guarantees b)) (in_available b) (in_assurances b)) cores) =
    sum_of (report_load m) (map g_report (in_guarantees b)).
Proof.
  intros Hl Hg. rewrite (sum_of_imap _ _ (fun c => sum_of (report_load m) (filter (fun w => wr_core_index w = c) (map g_report (in_guarantees b)))))
    by (intros; apply update_core).
  apply (sum_of_partition wr_core_index); [apply NoDup_py_range|]. intros w (g & -> & Hin)%list_elem_of_fmap.
  apply elem_of_py_range. rewrite Hl. eapply Forall_forall in Hg; [|exact Hin]. exact Hg.
Qed.

(** C29: The statistics account for everything a block carries, once.  With indices in range the
    transition succeeds; summed over the validators, one block, its tickets, its preimages and
    their size, the guarantors known and the assurers, each once, are added, to fresh records
    at a new epoch, the assurers then to the records set aside; summed over the services, and
    over the cores, the loads of the digests are those of the reports, and the services' preimages
    and accumulation gas are those of the block. *)
Theorem statistics_account gp b pre : indices_ok gp b pre -> exists post, state_transition gp b pre = Ret post /\
  let epoch := is_epoch_change gp (in_pre_slot b) (in_slot b) in
  let before f := if epoch then 0 else sum_of f (vals_current pre) in
  let incoming := map g_report (in_guarantees b) in
  sum_of ar_blocks (vals_current post) = before ar_blocks + 1 /\
  sum_of ar_tickets (vals_current post) = before ar_tickets + Z.of_nat (length (in_tickets b)) /\
  sum_of ar_pre_images (vals_current post) = before ar_pre_images + Z.of_nat (length (in_preimages b)) /\
  sum_of ar_pre_images_size (vals_current post) = before ar_pre_images_size + sum_of preimage_size (in_preimages b) /\
  sum_of ar_guarantees (vals_current post) = before ar_guarantees + Z.of_nat (length (known_reporters b)) /\
  sum_of ar_assurances (if epoch then vals_last post else vals_current post) =
    sum_of ar_assurances (vals_current pre) + Z.of_nat (length (assurers (in_assurances b))) /\
  (forall m, total (of_service m) post = sum_of (report_load m) incoming /\ sum_of (of_core m) (st_cores post) = sum_of (report_load m) incoming) /\
  total sv_refinement_count post = sum_of (fun w => Z.of_nat (length (wr_results w))) incoming /\
  total sv_provided_count post = Z.of_nat (length (in_preimages b)) /\
  total sv_provided_size post = sum_of preimage_size (in_preimages b) /\
  total sv_accumulate_gas_used post = sum_of (fun x => total_gas_utilized x.2) (map_to_list (in_accumulation b)).
Proof.
  intros [Has Hau Hva Hco Hre]. unfold state_transition.
  destruct (assurances_run (in_assurances b) (vals_current pre) Has) as (vals & -> & Hlen & Hsum). cbn [mbind outcome_bind].
  destruct (is_epoch_change gp (in_pre_slot b) (in_slot b)) eqn:He.
  - destruct (block_run b (map (fun _ => no_activity) (in_validators b)) Hau) as (v1 & v2 & -> & E2 & Hs); [by rewrite length_map|].
    cbn [mbind outcome_bind]. rewrite E2, (cores_run gp b (st_cores pre) Hco). cbn [mbind outcome_bind].
    eexists. split; [reflexivity|]. destruct (services_sums b _ eq_refl) as (S1 & S2 & S3 & S4 & S5).
    cbn [vals_current vals_last st_cores st_services total].
    assert (forall f, f no_activity = 0 -> sum_of f (map (fun _ => no_activity) (in_validators b)) = 0) as H0.
    { intros f Hf. rewrite sum_of_map. rewrite (sum_of_ext _ (fun _ => 0)) by done. apply sum_of_zero. }
    rewrite !H0 in Hs by done. destruct Hs as (B1 & B2 & B3 & B4 & B5 & _).
    split_and!; try done. { rewrite (Hsum ar_assurances 1) by (intros []; cbn; lia). lia. }
    intros m. split; [apply S1|by apply (cores_sums gp)].
  - specialize (Hva eq_refl). destruct (block_run b vals Hau) as (v1 & v2 & -> & E2 & Hs); [congruence|].
    cbn [mbind outcome_bind]. rewrite E2, (cores_run gp b (st_cores pre) Hco). cbn [mbind outcome_bind].
    eexists. split; [reflexivity|]. destruct (services_sums b _ eq_refl) as (S1 & S2 & S3 & S4 & S5).
    cbn [vals_current vals_last st_cores st_services total]. destruct Hs as (B1 & B2 & B3 & B4 & B5 & B6).
    rewrite (Hsum _ 0) in B1 by (intros []; cbn; lia). rewrite (Hsum _ 0) in B2 by (intros []; cbn; lia). rewrite (Hsum _ 0) in B3 by (intros []; cbn; lia).
    rewrite (Hsum _ 0) in B4 by (intros []; cbn; lia). rewrite (Hsum _ 0) in B5 by (intros []; cbn; lia). rewrite (Hsum _ 1) in B6 by (intros []; cbn; lia).
    rewrite !Z.mul_0_l, !Z.add_0_r in *. split_and!; try done; [lia|]. intros m. split; [apply S1|by apply (cores_sums gp)].
Qed.
