(* ===== verification/AppState.v ===== *)
(** * The state of the application

    The components of the state, as [app.py] keeps them in memory and in the storage
    ([JamState] of [models/state.py], [StateComponent] of [state/base.py]): reading them all
    ([retrieve_jam_state]), writing those that changed ([store_jam_state]), and the root that
    commits to them.  A component is serialised by the codec, here the class [StateCodec]. *)

From Stdlib Require Import ZArith Lia Bool List.
From stdpp Require Import base numbers option list sets gmap.
From S2P Require Import Prelude StateBase Reports Disputes Safrole History Queue Assurances Storage StateKeys AccumContext Statistics Trie.
Import ListNotations.

#[local] Open Scope Z_scope.

(** ** The components *)

(** In the order in which [store_jam_state] goes through them; the services are stored apart. *)
Inductive component : Set :=
| timeslot_c | entropy_c | disputes_c | validator_pool_c | validator_archive_c | safrole_c | assurances_c | statistics_c
| recent_history_c | authorizer_pools_c | authorizer_queues_c | accumulation_queue_c | accumulation_history_c
| validator_queue_c | privileged_services_c | recent_accumulation_output_c.

#[export] Instance component_eq_dec : EqDecision component.
Proof. solve_decision. Defined.

Definition components : list component :=
  [timeslot_c; entropy_c; disputes_c; validator_pool_c; validator_archive_c; safrole_c; assurances_c; statistics_c;
   recent_history_c; authorizer_pools_c; authorizer_queues_c; accumulation_queue_c; accumulation_history_c;
   validator_queue_c; privileged_services_c; recent_accumulation_output_c].

Definition component_id (c : component) : Z :=
  match c with
  | authorizer_pools_c => 1 | authorizer_queues_c => 2 | recent_history_c => 3 | safrole_c => 4 | disputes_c => 5 | entropy_c => 6
  | validator_queue_c => 7 | validator_pool_c => 8 | validator_archive_c => 9 | assurances_c => 10 | timeslot_c => 11
  | privileged_services_c => 12 | statistics_c => 13 | accumulation_queue_c => 14 | accumulation_history_c => 15
  | recent_accumulation_output_c => 16
  end.

Definition state_of (c : component) : Type :=
  match c with
  | timeslot_c => Z
  | entropy_c => list bytes
  | disputes_c => DisputesState
  | validator_pool_c | validator_archive_c | validator_queue_c => list ValidatorData
  | safrole_c => SafroleState
  | assurances_c => AssurancesState
  | statistics_c => StatisticsState
  | recent_history_c => RecentHistoryState
  | authorizer_pools_c | authorizer_queues_c => list (list bytes)
  | accumulation_queue_c => list (list AccumulationQueueWorkPackage)
  | accumulation_history_c => list (list bytes)
  | privileged_services_c => PrivilegedServicesState
  | recent_accumulation_output_c => BeefyCommitmentMap
  end.

(** [JamState], without the services, which live in the storage. *)
Definition JamState : Type := forall c, state_of c.

(** *** Equality, as Python's on the records *)

#[export] Instance DisputesState_eq_dec : EqDecision DisputesState.
Proof. solve_decision. Defined.
#[export] Instance SlotSealerSeries_eq_dec : EqDecision SlotSealerSeries.
Proof. solve_decision. Defined.
#[export] Instance SafroleState_eq_dec : EqDecision SafroleState.
Proof. solve_decision. Defined.
#[export] Instance WorkExecResult_eq_dec : EqDecision WorkExecResult.
Proof. solve_decision. Defined.
#[export] Instance RefineLoad_eq_dec : EqDecision RefineLoad.
Proof. solve_decision. Defined.
#[export] Instance WorkDigest_eq_dec : EqDecision WorkDigest.
Proof. solve_decision. Defined.
#[export] Instance WorkPackageSpec_eq_dec : EqDecision WorkPackageSpec.
Proof. solve_decision. Defined.
#[export] Instance RefinementContext_eq_dec : EqDecision RefinementContext.
Proof. solve_decision. Defined.
#[export] Instance WorkReport_eq_dec : EqDecision WorkReport.
Proof. solve_decision. Defined.
#[export] Instance Credential_eq_dec : EqDecision Credential.
Proof. solve_decision. Defined.
#[export] Instance Guarantee_eq_dec : EqDecision Guarantee.
Proof. solve_decision. Defined.
#[export] Instance AssuranceStateItem_eq_dec : EqDecision AssuranceStateItem.
Proof. solve_decision. Defined.
#[export] Instance ActivityRecord_eq_dec : EqDecision ActivityRecord.
Proof. solve_decision. Defined.
#[export] Instance CoreActivityRecord_eq_dec : EqDecision CoreActivityRecord.
Proof. solve_decision. Defined.
#[export] Instance ServiceActivityRecord_eq_dec : EqDecision ServiceActivityRecord.
Proof. solve_decision. Defined.
#[export] Instance StatisticsState_eq_dec : EqDecision StatisticsState.
Proof. solve_decision. Defined.
#[export] Instance ReportedWorkPackage_eq_dec : EqDecision ReportedWorkPackage.
Proof. solve_decision. Defined.
#[export] Instance RecentBlock_eq_dec : EqDecision RecentBlock.
Proof. solve_decision. Defined.
#[export] Instance RecentHistoryState_eq_dec : EqDecision RecentHistoryState.
Proof. solve_decision. Defined.
#[export] Instance AccumulationQueueWorkPackage_eq_dec : EqDecision AccumulationQueueWorkPackage.
Proof. solve_decision. Defined.
#[export] Instance PrivilegedServicesState_eq_dec : EqDecision PrivilegedServicesState.
Proof. solve_decision. Defined.

#[export] Instance state_of_eq_dec c : EqDecision (state_of c).
Proof. destruct c; cbn; apply _. Defined.

(** ** Serialisation *)

(** [to_jam_bytes] and [from_jam_bytes] of the components. *)
Class StateCodec : Type := {
  to_jam_bytes c : state_of c -> bytes;
  from_jam_bytes c : bytes -> option (state_of c)
}.

Section state.
Context {scodec : StateCodec} (blake2b_256_hash : bytes -> bytes).

(** [StateComponent.retrieve] and [retrieve_state]. *)
Definition retrieve (c : component) (s : StateStorage) : outcome state_exn bytes :=
  key ← state_key_constructor_component (component_id c);
  data ← match get key false s with Some r => r | None => Raise ValueError end;
  match data with None => Raise StateKeyNoResult | Some data => Ret data end.

Definition retrieve_state (c : component) (s : StateStorage) : outcome state_exn (state_of c) :=
  data ← retrieve c s;
  match from_jam_bytes c data with Some x => Ret x | None => Raise ValueError end.

(** [StateComponent.store_state] *)
Definition store_state (c : component) (x : state_of c) (s : StateStorage) : outcome state_exn StateStorage :=
  key ← state_key_constructor_component (component_id c);
  Ret (put key (to_jam_bytes c x) s).

(** [StateStorage.state_root]; on keys of one length the trie raises nothing ([Trie.trie_root_total]). *)
Definition state_root (s : StateStorage) : outcome state_exn bytes :=
  if pending s then Raise ValueError
  else
    match as_dict s with
    | Some (Ret d) => match Trie.root blake2b_256_hash (map_to_list d) with Some (Ret r) => Ret r | _ => Raise ValueError end
    | Some (Raise e) => Raise e
    | None => Raise ValueError
    end.

(** A state from its components. *)
Definition jam_state (timeslot : Z) (entropy : list bytes) (disputes : DisputesState) (pool archive : list ValidatorData) (safrole : SafroleState)
    (assurances : AssurancesState) (statistics : StatisticsState) (recent : RecentHistoryState) (pools queues : list (list bytes))
    (queue : list (list AccumulationQueueWorkPackage)) (history : list (list bytes)) (validator_queue : list ValidatorData)
    (privileged : PrivilegedServicesState) (outputs : BeefyCommitmentMap) : JamState :=
  fun c => match c return state_of c with
  | timeslot_c => timeslot | entropy_c => entropy | disputes_c => disputes | validator_pool_c => pool | validator_archive_c => archive
  | safrole_c => safrole | assurances_c => assurances | statistics_c => statistics | recent_history_c => recent
  | authorizer_pools_c => pools | authorizer_queues_c => queues | accumulation_queue_c => queue | accumulation_history_c => history
  | validator_queue_c => validator_queue | privileged_services_c => privileged | recent_accumulation_output_c => outputs
  end.

(** [retrieve_jam_state], the components in its order, with the root of the state. *)
Definition retrieve_jam_state (s : StateStorage) : outcome state_exn (JamState * bytes) :=
  timeslot ← retrieve_state timeslot_c s;
  entropy ← retrieve_state entropy_c s;
  safrole ← retrieve_state safrole_c s;
  validator_queue ← retrieve_state validator_queue_c s;
  pool ← retrieve_state validator_pool_c s;
  archive ← retrieve_state validator_archive_c s;
  pools ← retrieve_state authorizer_pools_c s;
  recent ← retrieve_state recent_history_c s;
  assurances ← retrieve_state assurances_c s;
  queues ← retrieve_state authorizer_queues_c s;
  privileged ← retrieve_state privileged_services_c s;
  disputes ← retrieve_state disputes_c s;
  statistics ← retrieve_state statistics_c s;
  queue ← retrieve_state accumulation_queue_c s;
  history ← retrieve_state accumulation_history_c s;
  outputs ← retrieve_state recent_accumulation_output_c s;
  r ← state_root s;
  Ret (jam_state timeslot entropy disputes pool archive safrole assurances statistics recent pools queues queue history validator_queue privileged outputs, r).

(** One turn of the loop of [store_jam_state]: a component that has not changed is skipped. *)
Definition store_component (previous current : JamState) (c : component) (s : StateStorage) : outcome state_exn StateStorage :=
  if decide (current c = previous c) then Ret s else store_state c (current c) s.

Fixpoint store_components (previous current : JamState) (cs : list component) (s : StateStorage) : outcome state_exn StateStorage :=
  match cs with
  | [] => Ret s
  | c :: cs => s ← store_component previous current c s; store_components previous current cs s
  end.

Definition store_jam_state (previous current : JamState) (s : StateStorage) : outcome state_exn StateStorage :=
  store_components previous current components s.
End state.
