(* ===== verification/Import.v ===== *)
(** * The import of a block

    [state_transition], [initialize] and [_import_block] of [app.py], for a block that is received:
    the header and extrinsic checks, every component in the order of the code with what it is
    handed, the storage of the new state, and what a rejected block leaves behind.  Making a
    block ([produce=True]) is left out, and so are the databases of blocks beyond the headers
    ([store_block_header]) and the signals to subscribers.

    The storage is one object, which the services share: it is threaded through the
    transitions.  When one of them raises, what it has written so far stays in the open
    transaction; here these writes are the argument [partial], and the theorems hold for all. *)

From Stdlib Require Import ZArith Lia Bool List.
From stdpp Require Import base numbers option list sets gmap.
From S2P Require Import AccumContext Accumulate Services Prelude Graypaper Defs Program Invocation HostCalls StateBase Reports Shuffle Disputes Safrole History Consensus Queue Assurances Storage StateKeys Accounts Guarantees Pipeline Statistics AppState.
Import ListNotations.

#[local] Open Scope Z_scope.

(** ** Blocks *)

Record Extrinsic : Type := mkExtrinsic {
  x_tickets : list TicketEnvelope;
  x_preimages : list Preimage;
  x_guarantees : list Guarantee;
  x_assurances : list Assurance;
  x_disputes : ExtrinsicDisputes
}.

Record Block : Type := mkBlock {
  bl_header : BlockHeader;
  bl_extrinsic_hash : bytes;
  bl_extrinsic : Extrinsic
}.

Record STFOutput : Type := mkSTFOutput {
  so_epoch_mark : option EpochMark;
  so_tickets_mark : option (list TicketBody);
  so_offenders_mark : list bytes
}.

(** The serialised parts that [generate_extrinsic_hash] hashes. *)
Class ExtrinsicCodec : Type := {
  tickets_encode : list TicketEnvelope -> bytes;
  preimages_encode : list (Z * bytes) -> bytes;
  guarantees_encode : list (bytes * Z * list Credential) -> bytes;
  assurances_encode : list Assurance -> bytes;
  disputes_to_jam_bytes : ExtrinsicDisputes -> bytes
}.

(** The settings and the state of the world an import reads. *)
Record ImportSettings : Type := mkImportSettings {
  is_constants : GpConstants;
  is_ring_data : bytes;
  is_solo_mode : bool;
  is_thread_pool_safrole : bool;
  is_completed : list nat;
  is_skip_wall_clock : bool;
  is_current_timeslot : Z;
  is_skip_guarantees : bool;
  is_skip_ancestry : bool;
  is_bless_compat : bool;
  is_accumulation_pool : option (list Z -> list Z);
  is_stack : nat;
  is_depth : nat;
  is_default_hash : bytes
}.

(** The storage, the headers in the database, and the state worked on with its root. *)
Record App : Type := mkApp {
  app_storage : StateStorage;
  app_headers : gmap bytes Ancestor;
  working_state : option (JamState * bytes)
}.

Section import.
Context {codec : Codec} {scodec : StateCodec} {xcodec : ExtrinsicCodec} {J : Type} {jam : JamCodec J}.
Context {RC : Type} {fetch : FetchCodec RC (AccumulationInput WorkExecResult)}.
Context (blake2b_256_hash keccak_256_hash : bytes -> bytes) (vdecode : bytes -> ValidatorData) (after_metadata : bytes -> bytes).
Context (dict_items : forall K A : Type, forall E : EqDecision K, forall C : Countable K, gmap K A -> list (K * A)).
Context {RingContext : Type} (new_ring_context : bytes -> list bytes -> Z -> option RingContext).
Context (commitment : RingContext -> bytes).
Context (ring_vrf_verify : RingContext -> bytes -> bytes -> bytes -> option bytes).
Context (ietf_vrf_verify : bytes -> bytes -> bytes -> bytes -> option bytes).
Context (ed_verify : bytes -> bytes -> bytes -> bool).
Context (unsigned_payload : BlockHeader -> bytes).
Context (encode_report : WorkReport -> bytes) (encode_bitfield : list bool -> bytes).
Context (e : ImportSettings).

Abbreviation gp := (is_constants e).
#[local] Abbreviation hash0 := (replicate 32 0 : bytes).

Definition generate_extrinsic_hash (x : Extrinsic) : bytes :=
  blake2b_256_hash (blake2b_256_hash (tickets_encode (x_tickets x)) ++
    blake2b_256_hash (preimages_encode (map (fun p => (requester p, blake2b_256_hash (blob p))) (x_preimages x))) ++
    blake2b_256_hash (guarantees_encode (map (fun g => (blake2b_256_hash (encode_report (g_report g)), g_slot g, g_signatures g)) (x_guarantees x))) ++
    blake2b_256_hash (assurances_encode (x_assurances x)) ++
    blake2b_256_hash (disputes_to_jam_bytes (x_disputes x))).

(** ** Checks before the state is touched *)

Definition check_header (b : Block) (s : StateStorage) : outcome state_exn unit :=
  let h := base (bl_header b) in
  let refuse (c : BlockValidationErrorCode.t) : outcome state_exn unit := Raise (StateTransitionError (BlockCode c)) in
  if negb (is_skip_wall_clock e) && (is_current_timeslot e <? timeslot h) then refuse BlockValidationErrorCode.bad_slot
  else if negb (bool_decide (bl_extrinsic_hash b = generate_extrinsic_hash (bl_extrinsic b)))
  then refuse BlockValidationErrorCode.extrinsic_hash_mismatch
  else
    match get_parent (is_default_hash e) (parent h) s with
    | None => refuse BlockValidationErrorCode.no_valid_ancestor
    | Some parent_header =>
        if bool_decide (parent h = hash0) && negb (bool_decide (finalized_block_hash s = None) || bool_decide (finalized_block_hash s = Some hash0))
        then refuse BlockValidationErrorCode.no_valid_ancestor
        else if timeslot h <=? anc_timeslot parent_header then refuse BlockValidationErrorCode.bad_slot
        else Ret tt
    end.

(** [initialize(header)] *)
Definition initialize (b : Block) (ws : option (JamState * bytes)) (s : StateStorage) : outcome (state_exn * StateStorage) ((JamState * bytes) * StateStorage) :=
  let h := base (bl_header b) in
  match set_block_hash (header_hash h) (parent h) s with
  | Raise x => Raise (x, s)
  | Ret s =>
      let read := match retrieve_jam_state blake2b_256_hash s with Ret ws => Ret (ws, s) | Raise x => Raise (x, s) end in
      match ws with
      | None => read
      | Some ws => if bool_decide (parent_state_root h = ws.2) then Ret (ws, s) else read
      end
  end.

(** ** The transitions *)

Definition consensus_of (st : JamState) : ConsensusState :=
  mkConsensusState (st timeslot_c) (st entropy_c) (st disputes_c) (st validator_pool_c) (st validator_archive_c) (st safrole_c).
Definition queue_of (st : JamState) : QueueState := mkQueueState (st accumulation_queue_c) (st accumulation_history_c).
Definition pipeline_of (st : JamState) : PipelineState :=
  mkPipeline (st assurances_c) (queue_of st) (st recent_history_c) (st timeslot_c).

(** The services before the block. *)
Definition services_before (s : StateStorage) : ServicesState := mkServicesState no_changes (Some s) ∅.

(** What accumulation reads, and what it starts from. *)
Definition accumulation_settings (slot : Z) (entropy : bytes) : AccumulationSettings :=
  mkAccumulationSettings gp (is_bless_compat e) (is_accumulation_pool e) (is_stack e) slot entropy.

Definition accumulation_input (st : JamState) (s : StateStorage) : AccumulationStateComponents :=
  mkComponents (services_before s) (st validator_queue_c) (st authorizer_queues_c) (st privileged_services_c).

(** What [validate_guarantees] is handed. *)
Definition guarantees_inputs (h : Header) (st : JamState) (s : StateStorage) (headers : gmap bytes Ancestor) (recent : RecentHistoryState)
    (assurances : AssurancesState) (pool : list ValidatorData) (disputes : DisputesState) (current previous : list GuarantorAssignment)
    : GuaranteesContext :=
  mkGuaranteesContext (services_before s) recent (st authorizer_pools_c) assurances pool h (st accumulation_history_c)
    (st accumulation_queue_c) (timeslot_transition h) (offenders disputes) current previous (Some s) (Some headers) (is_skip_ancestry e).

Abbreviation accumulate slot entropy := (state_transition_accumulation (jam := jam) blake2b_256_hash vdecode after_metadata (fetch := fetch)
  dict_items (is_depth e) (accumulation_settings slot entropy)).

(** From the header's parent state root to the last component; the storage is that of the
    posterior services, which is the one object. *)
Definition transitions (b : Block) (headers : gmap bytes Ancestor) (st : JamState) (s : StateStorage)
    : acc (JamState * StateStorage * STFOutput) :=
  let header := bl_header b in
  let x := bl_extrinsic b in
  let pre_slot := st timeslot_c in
  let pre_pool := st validator_pool_c in
  _ ← of_state (validate_extrinsic_disputes ed_verify gp pre_slot pre_pool (st validator_archive_c) (x_disputes x));
  _ ← of_state (validate_extrinsic_preimages blake2b_256_hash (x_preimages x) (services_before s));
  _ ← of_state (validate_after_disputes blake2b_256_hash ed_verify encode_bitfield (x_assurances x) pre_pool (base header));
  let pool := validator_pool_transition gp (base header) pre_slot pre_pool (validators (st safrole_c)) in
  h ← of_state (set_author_bandersnatch_key header pool);
  let slot := timeslot_transition h in
  let recent := state_transition_intermediate h (st recent_history_c) in
  entropy ← of_state (entropy_transition blake2b_256_hash ietf_vrf_verify gp (replicate 96 0) h pre_slot (st entropy_c));
  disputes ← of_state (Disputes.state_transition ed_verify (x_disputes x) (st disputes_c));
  let after_disputes := state_transition_after_disputes blake2b_256_hash encode_report (x_disputes x) (st assurances_c) in
  let archive := validator_archive_transition gp h pre_slot (st validator_archive_c) pre_pool in
  safrole ← of_state (Safrole.state_transition blake2b_256_hash new_ring_context commitment ring_vrf_verify gp (is_ring_data e)
    (is_solo_mode e) (is_thread_pool_safrole e) (is_completed e) h (x_tickets x) pre_slot (st safrole_c) (st validator_queue_c) entropy pool
    (offenders (Disputes.post_state disputes)));
  seal_vrf_output ← of_state (validate_header_after_safrole ietf_vrf_verify unsigned_payload gp header entropy pool safrole disputes);
  entropy ← of_state (entropy_transition blake2b_256_hash ietf_vrf_verify gp seal_vrf_output h pre_slot (st entropy_c));
  after_assurances ← of_state (state_transition_after_assurances gp (x_assurances x) after_disputes h (Some pre_pool) (Some pool));
  let available := aa_reported after_assurances in
  current ← of_state (guarantor_assignments blake2b_256_hash gp entropy slot pool);
  previous ← of_state (prev_guarantor_assignments blake2b_256_hash gp entropy slot pool archive);
  let gc := guarantees_inputs h st s headers recent (Assurances.aa_state after_assurances) pool (Disputes.post_state disputes) current previous in
  _ ← of_state (if is_skip_guarantees e then Ret tt
                else validate_guarantees blake2b_256_hash ed_verify encode_report gp gc (x_guarantees x));
  after_guarantees ← of_state (state_transition_after_guarantees gp gc (x_guarantees x));
  let ready := ready_work_reports available in
  let queued := queued_work_reports available (st accumulation_history_c) in
  accumulatable ← of_state (match accumulatable_work_reports gp slot (st accumulation_queue_c) ready queued with
                            | Some l => Ret l | None => Raise ValueError end);
  entropy0 ← of_state (get_item entropy 0);
  acc ← accumulate slot entropy0 accumulatable (accumulation_input st s);
  let components := Services.aa_state acc in
  services ← of_state (state_transition_after_preimages blake2b_256_hash (x_preimages x) (AccumContext.services components) slot);
  statistics ← of_state (Statistics.state_transition gp
    (mkStatisticsInput (x_guarantees x) (x_preimages x) (x_assurances x) (x_tickets x) (ag_reporters after_guarantees) available
       (aa_accumulation_statistics acc) pool pre_slot slot (author_index header)) (st statistics_c));
  pools ← of_state (authorizer_pools_transition gp h (x_guarantees x) (AccumContext.authorizer_queues components) (st authorizer_pools_c));
  recent ← of_state (History.history_transition keccak_256_hash gp h (x_guarantees x) recent (CommitmentMap (aa_beefy_commitment_map acc)));
  let history := Queue.history_transition accumulatable (st accumulation_history_c) (aa_nr_work_results_accumulated acc) in
  queue ← of_state (queue_transition gp queued (st accumulation_queue_c) history pre_slot slot);
  mret (jam_state slot entropy (Disputes.post_state disputes) pool archive (Safrole.post_state safrole) (ag_state after_guarantees) statistics
          recent pools (AccumContext.authorizer_queues components) queue history (AccumContext.validator_queue components)
          (AccumContext.privileged_services components) (aa_beefy_commitment_map acc),
        default s (state_storage services),
        mkSTFOutput (epoch_mark safrole) (tickets_mark safrole) (Disputes.offenders_mark disputes)).

(** ** [state_transition] *)

(** With the application as it is left: on an error, [partial] is what the open transaction holds. *)
Abbreviation imported := (option (outcome (accumulation_exn * App) (App * STFOutput))).

Definition state_transition (partial : ChangeSet) (b : Block) (a : App) : imported :=
  let fail x s ws := Some (Raise (x, mkApp s (app_headers a) ws)) in
  match check_header b (app_storage a) with
  | Raise x => Some (Raise (InState x, a))
  | Ret _ =>
      match initialize b (working_state a) (start_tx (app_storage a)) with
      | Raise (x, s) => fail (InState x) s (working_state a)
      | Ret (ws, s) =>
          if negb (bool_decide (parent_state_root (base (bl_header b)) = ws.2))
          then fail (InState (BlockE BlockValidationErrorCode.state_root_mismatch)) s (Some ws)
          else
            match transitions b (app_headers a) ws.1 s with
            | None => None
            | Some (Raise x) => fail x (with_transaction partial s) (Some ws)
            | Some (Ret (st, s', out)) =>
                match store_jam_state ws.1 st s' with
                | Raise x => fail (InState x) (with_transaction partial s) (Some ws)
                | Ret s' =>
                    match commit s' with
                    | Raise x => fail (InState x) s' (Some ws)
                    | Ret s' =>
                        match state_root blake2b_256_hash s' with
                        | Raise x => fail (InState x) s' (Some ws)
                        | Ret r => Some (Ret (mkApp s' (app_headers a) (Some (st, r)), out))
                        end
                    end
                end
            end
      end
  end.

(** ** [_import_block] *)

Definition ancestor_of (h : Header) : Ancestor := mkAncestor (header_hash h) (parent h) (timeslot h) (Some (parent_state_root h)).

(** [add_ancestor_block], of which the header is kept. *)
Definition add_ancestor_block (b : Block) (a : App) : App :=
  let header := ancestor_of (base (bl_header b)) in
  mkApp (add_ancestor header (app_storage a)) (<[anc_hash header := header]> (app_headers a)) (working_state a).

(** The end of the handler: the working state is read again, and the error raised again. *)
Definition reread (x : accumulation_exn) (a : App) : accumulation_exn * App :=
  match retrieve_jam_state blake2b_256_hash (app_storage a) with
  | Ret ws => (x, mkApp (app_storage a) (app_headers a) (Some ws))
  | Raise y => (InState y, a)
  end.

Definition restore_hash (b : Block) (s : StateStorage) : option bytes :=
  let h := base (bl_header b) in
  if bool_decide (block_hash s = Some (header_hash h))
  then if has_state_at (parent h) s then Some (parent h) else None
  else block_hash s.

Definition import_block (partial : ChangeSet) (b : Block) (a : App) : imported :=
  let hash := header_hash (base (bl_header b)) in
  match state_transition partial b a with
  | None => None
  | Some (Ret (a', out)) => Some (Ret (add_ancestor_block b a', out))
  | Some (Raise (x, a')) =>
      if bool_decide (block_hash (app_storage a') = Some hash) then
        match discard_candidate hash (restore_hash b (app_storage a)) (app_storage a') with
        | Raise y => Some (Raise (InState y, a'))
        | Ret s => Some (Raise (reread x (mkApp s (app_headers a') (working_state a'))))
        end
      else Some (Raise (reread x a'))
  end.
(** ** What accepted transitions are made of *)

(** The block as the pipeline of reports sees it. *)
Definition block_inputs (b : Block) (headers : gmap bytes Ancestor) (st : JamState) (s : StateStorage) (st' : JamState) (h : Header)
    (current previous : list GuarantorAssignment) (acc : ServicesAfterAccumulationOutput) : BlockInputs :=
  let x := bl_extrinsic b in
  mkBlockInputs h (x_disputes x) (x_assurances x) (x_guarantees x) (st validator_pool_c) (st' validator_pool_c) (services_before s)
    (st authorizer_pools_c) (offenders (st' disputes_c)) current previous (Some s) (Some headers) (is_skip_ancestry e)
    (aa_nr_work_results_accumulated acc) (CommitmentMap (aa_beefy_commitment_map acc)).

Lemma acc_bind_ret {A B} (m : acc A) (k : A -> acc B) y : (m ≫= k) = Some (Ret y) -> exists x, m = Some (Ret x) /\ k x = Some (Ret y).
Proof using. destruct m as [[x|]|]; cbn; try done. intros H. by exists x. Qed.

Lemma author_ret header pool h : set_author_bandersnatch_key header pool = Ret h -> let b := base header in
  h = mkHeader (parent b) (timeslot b) (parent_state_root b) (entropy_source b) (author_bandersnatch_key h) (header_hash b).
Proof using. unfold set_author_bandersnatch_key. destruct (_ <=? _); [done|]. by intros (v & _ & [= <-])%bind_ret. Qed.

Lemma ret_bind {E A B} (m : outcome E A) (k : A -> outcome E B) x y : m = Ret x -> k x = y -> (m ≫= k) = y.
Proof using. by intros ->. Qed.

Lemma of_state_ret {A} (r : outcome state_exn A) x : of_state r = Some (Ret x) -> r = Ret x.
Proof using. destruct r; cbn; congruence. Qed.

#[local] Abbreviation consensus b st := (import_consensus blake2b_256_hash new_ring_context commitment ring_vrf_verify ietf_vrf_verify ed_verify unsigned_payload
  gp (is_ring_data e) (is_solo_mode e) (is_thread_pool_safrole e) (is_completed e) (bl_header b) (x_disputes (bl_extrinsic b)) (x_tickets (bl_extrinsic b))
  (st validator_queue_c) (consensus_of st)).
#[local] Abbreviation pipeline b st := (pipeline_block blake2b_256_hash keccak_256_hash ed_verify encode_report encode_bitfield gp b (pipeline_of st)).

#[local] Tactic Notation "step" hyp(H) ident(x) ident(Hx) := apply acc_bind_ret in H as (x & Hx & H); try apply of_state_ret in Hx.

Lemma transitions_ret b headers st s st' s' out : transitions b headers st s = Some (Ret (st', s', out)) ->
  consensus b st = Ret (consensus_of st') /\
  exists h current previous chosen entropy acc services,
    set_author_bandersnatch_key (bl_header b) (st' validator_pool_c) = Ret h /\
    (is_skip_guarantees e = false -> pipeline (block_inputs b headers st s st' h current previous acc) st = Ret (chosen, pipeline_of st')) /\
    accumulate (timeslot h) entropy chosen (accumulation_input st s) = Some (Ret acc) /\
    state_transition_after_preimages blake2b_256_hash (x_preimages (bl_extrinsic b)) (AccumContext.services (Services.aa_state acc)) (timeslot h) = Ret services /\
    s' = default s (state_storage services).
Proof using.
  unfold transitions. intros H. cbv zeta in H.
  step H u1 H1. step H u2 H2. step H u3 H3. step H h H4. step H entropy H5. step H disputes H6. step H safrole H7. step H seal_out H8.
  step H entropy' H9. step H aa H10. step H current H11. step H previous H12. step H u4 H13. step H ag H14. step H chosen H15. step H entropy0 H16.
  step H result H17. step H services H18. step H statistics H19. step H pools H20. step H recent H21. step H queue H22.
  injection H as <- <- <-. destruct u1, u2, u3, u4. split.
  - unfold import_consensus, consensus_of. cbn [cs_timeslot cs_pool cs_archive cs_entropy cs_disputes cs_safrole].
    rewrite H1. cbn [mbind outcome_bind]. rewrite H4. cbn [mbind outcome_bind]. rewrite H5. cbn [mbind outcome_bind]. rewrite H6. cbn [mbind outcome_bind].
    rewrite H7. cbn [mbind outcome_bind]. rewrite H8. cbn [mbind outcome_bind]. rewrite H9. done.
  - exists h, current, previous, chosen, entropy0, result, services. split; [done|]. split; [|by split_and!]. intros Hskip. rewrite Hskip in H13.
    unfold pipeline_block, block_inputs, pipeline_of, guarantees_context, queue_of.
    cbn [bi_header bi_disputes bi_assurances bi_guarantees bi_pre_pool bi_post_pool bi_services bi_authorizer_pools bi_offenders bi_assignments
      bi_prev_assignments bi_state_storage bi_header_lookup bi_skip_ancestry bi_accumulated bi_beefy pl_assurances pl_queue pl_recent pl_timeslot qs_queue qs_history jam_state].
    assert (validate_after_disputes blake2b_256_hash ed_verify encode_bitfield (x_assurances (bl_extrinsic b)) (st validator_pool_c) h = Ret tt) as ->.
    { rewrite <- H3. by rewrite (author_ret _ _ _ H4). }
    cbn [mbind outcome_bind]. eapply ret_bind; [exact H10|]. eapply ret_bind; [exact H13|]. eapply ret_bind; [exact H14|].
    apply (ret_bind _ _ (chosen, mkQueueState queue (Queue.history_transition chosen (st accumulation_history_c) (aa_nr_work_results_accumulated result)))).
    { unfold queue_block, queue_of. cbn [qs_queue qs_history jam_state]. destruct (accumulatable_work_reports _ _ _ _ _) as [l|] eqn:Hl; [|done].
      injection H15 as ->. eapply ret_bind; [exact H22|]. reflexivity. }
    eapply ret_bind; [exact H21|]. reflexivity.
Qed.
(** What an accepted import is made of. *)
Lemma import_block_ret partial b a a' out : import_block partial b a = Some (Ret (a', out)) ->
  check_header b (app_storage a) = Ret tt /\
  exists ws s1 st' s2 s3 s4 r,
    initialize b (working_state a) (start_tx (app_storage a)) = Ret (ws, s1) /\ parent_state_root (base (bl_header b)) = ws.2 /\
    transitions b (app_headers a) ws.1 s1 = Some (Ret (st', s2, out)) /\ store_jam_state ws.1 st' s2 = Ret s3 /\ commit s3 = Ret s4 /\
    state_root blake2b_256_hash s4 = Ret r /\ a' = add_ancestor_block b (mkApp s4 (app_headers a) (Some (st', r))).
Proof using.
  unfold import_block, state_transition. destruct (check_header b (app_storage a)) as [[]|x] eqn:Hc; cbn [app_storage app_headers].
  2: { destruct (bool_decide _); [by destruct (discard_candidate _ _ _)|done]. }
  destruct (initialize _ _ _) as [[ws s1]|[x s1]] eqn:Hi.
  2: { destruct (bool_decide _); [by destruct (discard_candidate _ _ _)|done]. }
  assert (forall y a2 (P : Prop),
    (if bool_decide (block_hash (app_storage a2) = Some (header_hash (base (bl_header b)))) then
       match discard_candidate (header_hash (base (bl_header b))) (restore_hash b (app_storage a)) (app_storage a2) with
       | Ret s => Some (Raise (reread y (mkApp s (app_headers a2) (working_state a2))))
       | Raise z => Some (Raise (InState z, a2))
       end else Some (Raise (reread y a2))) = Some (Ret (a', out)) -> P) as Hraise.
  { intros y a2 P. destruct (bool_decide _); [by destruct (discard_candidate _ _ _)|done]. }
  destruct (bool_decide (parent_state_root _ = _)) eqn:Hr; cbn [negb]; [|by apply Hraise]. apply bool_decide_eq_true in Hr.
  destruct (transitions b (app_headers a) ws.1 s1) as [[[[st' s2] out']|x]|] eqn:Ht; [|by apply Hraise|done].
  destruct (store_jam_state ws.1 st' s2) as [s3|x] eqn:Hs; [|by apply Hraise].
  destruct (commit s3) as [s4|x] eqn:Hm; [|by apply Hraise].
  destruct (state_root blake2b_256_hash s4) as [r|x] eqn:Hroot; [|by apply Hraise].
  intros [= <- <-]. split; [done|]. by exists ws, s1, st', s2, s3, s4, r.
Qed.

(** ** The invariant *)

(** The types of a block's data, and the validator queue the next epoch may take. *)
Record block_ok (b : Block) (st : JamState) : Prop := mkBlockOk {
  bo_author : 0 <= author_index (bl_header b);
  bo_queue : extrinsic_ok gp (is_completed e) (x_tickets (bl_extrinsic b)) (st validator_queue_c);
  bo_bits : forall a, a ∈ x_assurances (bl_extrinsic b) -> Z.of_nat (length (as_bitfield a)) = CORE_COUNT gp;
  bo_gas : gas_typed gp (x_guarantees (bl_extrinsic b))
}.

Record state_ok (done_hashes : list bytes) (st : JamState) : Prop := mkStateOk {
  sk_consensus : consensus_inv gp (consensus_of st);
  sk_pipeline : pipeline_ok gp done_hashes (pipeline_of st)
}.

(** C6: Importing a block keeps the invariant of the whole state.  Whatever the state the import starts
    from, kept from the last block or read for another parent, if it is the one whose root the
    header names and has the invariants of consensus and of the pipeline of reports, then the
    new working state has them, with the packages accumulated added to those that were, and the
    slot of the block, which is later. *)
Theorem import_invariant partial b a a' out done_hashes : gp_ok gp -> timeout_within_history gp -> is_skip_guarantees e = false ->
  (forall ws s, initialize b (working_state a) (start_tx (app_storage a)) = Ret (ws, s) -> state_ok done_hashes ws.1 /\ block_ok b ws.1) ->
  import_block partial b a = Some (Ret (a', out)) ->
  exists ws s st' r accumulated, initialize b (working_state a) (start_tx (app_storage a)) = Ret (ws, s) /\
    parent_state_root (base (bl_header b)) = ws.2 /\ working_state a' = Some (st', r) /\ state_ok (done_hashes ++ accumulated) st' /\
    ws.1 timeslot_c < st' timeslot_c /\ st' timeslot_c = timeslot (base (bl_header b)).
Proof using.
  intros Hgp Htime Hskip Hpre Himp. apply import_block_ret in Himp as (_ & ws & s1 & st' & s2 & s3 & s4 & r & Hi & Hr & Ht & _ & _ & _ & ->).
  destruct (Hpre ws s1 Hi) as [[Hc Hp] [Ha Hq Hbits Hgas]].
  destruct (transitions_ret _ _ _ _ _ _ _ Ht) as (Hcons & h & current & previous & chosen & entropy & result & services & Hset & Hpipe & _).
  specialize (Hpipe Hskip).
  destruct (import_inv _ _ _ _ _ _ _ _ _ _ _ _ Hgp _ _ _ _ _ _ Hc Hq Ha Hcons) as (Hc' & Hlt & Hslot).
  pose proof (set_author_ret _ _ _ Ha Hset) as Hh. cbn [cs_timeslot consensus_of] in Hlt, Hslot.
  set (inputs := block_inputs b (app_headers a) ws.1 s1 st' h current previous result) in Hpipe.
  assert (block_typed gp inputs (pipeline_of ws.1)) as Htyped by (split; [cbn; by rewrite Hh, <- Hslot|done..]).
  exists ws, s1, st', r, (work_report_mapping (take (Z.to_nat (bi_accumulated inputs)) chosen)). split_and!; try done.
  split; [done|]. by eapply pipeline_ok_step.
Qed.
End import.
