(* ===== verification/ImportStorage.v ===== *)
(** * What the import of a block does to the storage

    A block writes to its own transaction only: through accumulation, the preimages and the
    storing of the components ([transitions_frame]).  So an accepted block gets a state of its
    own and changes no other ([accepted_block_isolated]), and a rejected one leaves nothing
    behind ([rejected_block_restores]), but when the selected block's header comes with
    another body: then the state of the selected block is lost ([head_discarded]). *)

From Stdlib Require Import ZArith Lia Bool List.
From stdpp Require Import base numbers option list sets gmap.
From S2P Require Import AccumContext Accumulate Services Prelude Graypaper Defs Program Invocation HostCalls StateBase Reports Shuffle Disputes Safrole History Consensus Queue Assurances Storage StateKeys Accounts Guarantees Pipeline Statistics AppState Import Settle.
Import ListNotations.

#[local] Open Scope Z_scope.

(** ** Writing to the transaction only *)

Definition in_transaction (s s' : StateStorage) : Prop := exists t, s' = with_transaction t s.

(** The services keep their storage, but for its open transaction. *)
Definition frames (st st' : ServicesState) : Prop :=
  forall s, state_storage st = Some s -> truthy (block_hash s) = true -> exists s', state_storage st' = Some s' /\ in_transaction s s'.

Lemma in_transaction_refl s : in_transaction s s.
Proof. exists (transaction s). by destruct s. Qed.

Lemma in_transaction_trans s1 s2 s3 : in_transaction s1 s2 -> in_transaction s2 s3 -> in_transaction s1 s3.
Proof. intros [t1 ->] [t2 ->]. by exists t2. Qed.

Lemma in_transaction_hash s s' : in_transaction s s' -> block_hash s' = block_hash s.
Proof. by intros [t ->]. Qed.

Lemma put_in_transaction k v s : truthy (block_hash s) = true -> in_transaction s (put k v s).
Proof. intros H. unfold put. rewrite H. by eexists. Qed.

Lemma delete_in_transaction k s : truthy (block_hash s) = true -> in_transaction s (delete_key k s).
Proof. intros H. unfold delete_key. rewrite H. by eexists. Qed.

Lemma frames_refl st : frames st st.
Proof. intros s Hs _. exists s. split; [done|apply in_transaction_refl]. Qed.

Lemma frames_storage st st' : state_storage st' = state_storage st -> frames st st'.
Proof. intros H s Hs Ht. rewrite H. by apply frames_refl. Qed.

Lemma frames_trans st1 st2 st3 : frames st1 st2 -> frames st2 st3 -> frames st1 st3.
Proof.
  intros H1 H2 s Hs Ht. destruct (H1 s Hs Ht) as (s' & Hs' & Hi). destruct (H2 s' Hs') as (s'' & Hs'' & Hi'); [by rewrite (in_transaction_hash _ _ Hi)|].
  exists s''. split; [done|]. by eapply in_transaction_trans.
Qed.

#[local] Hint Resolve frames_refl frames_storage : core.

Lemma storage_write_frames f st0 st st' : (forall s, truthy (block_hash s) = true -> in_transaction s (f s)) ->
  state_storage st0 = state_storage st -> storage_write f st0 = Ret st' -> frames st st'.
Proof.
  intros Hf Heq Hw s Hs Ht. unfold storage_write in Hw. rewrite Heq, Hs in Hw. injection Hw as <-. eexists. split; [done|]. by apply Hf.
Qed.

Lemma each_frames {A} (f : A -> ServicesState -> outcome state_exn ServicesState) l : (forall x st st', f x st = Ret st' -> frames st st') ->
  forall st st', each f l st = Ret st' -> frames st st'.
Proof.
  intros Hf. induction l as [|x l IH]; intros st st'; cbn [each]; [by intros [= <-]|]. intros (st1 & H1 & H2)%bind_ret.
  apply (frames_trans st st1); [by eapply Hf|by apply IH].
Qed.

(** A step of a component's chain of writes. *)
Ltac written :=
  let H := fresh in intros H; cbv beta iota zeta in H;
  repeat match goal with
  | H : (_ ← _; _) = Ret _ |- _ => apply bind_ret in H as (? & ? & H)
  | H : (if ?c then Raise _ else _) = Ret _ |- _ => destruct c; [discriminate H|]
  end;
  eapply storage_write_frames; [| |eassumption]; [|reflexivity];
  intros; first [by apply put_in_transaction|by apply delete_in_transaction].

Section services_writes.
Context {codec : Codec} {J : Type} {jam : JamCodec J} (hash : bytes -> bytes) (vdecode : bytes -> ValidatorData) (after_metadata : bytes -> bytes).
Context {RC : Type} {fetch : FetchCodec RC (AccumulationInput WorkExecResult)}.
Context (dict_items : forall K A : Type, forall E : EqDecision K, forall C : Countable K, gmap K A -> list (K * A)).

Lemma store_service_account_frames id a st st' : store_service_account id a true st = Ret st' -> frames st st'.
Proof using. unfold store_service_account. written. Qed.

Lemma delete_service_account_frames id st st' : delete_service_account id true st = Ret st' -> frames st st'.
Proof using. unfold delete_service_account. written. Qed.

Lemma store_preimage_frames id b st st' : store_preimage hash id b true st = Ret st' -> frames st st'.
Proof using. unfold store_preimage. written. Qed.

Lemma delete_preimage_frames id h st st' : delete_preimage hash id h true st = Ret st' -> frames st st'.
Proof using. unfold delete_preimage. written. Qed.

Lemma store_preimage_availability_frames id h l v st st' : store_preimage_availability hash id h l v true st = Ret st' -> frames st st'.
Proof using. unfold store_preimage_availability. written. Qed.

Lemma delete_preimage_availability_frames id h l st st' : delete_preimage_availability hash id h l true st = Ret st' -> frames st st'.
Proof using. unfold delete_preimage_availability. written. Qed.

Lemma store_storage_item_frames id k v st st' : store_storage_item hash id k v true st = Ret st' -> frames st st'.
Proof using. unfold store_storage_item. written. Qed.

Lemma delete_storage_item_frames id k st st' : delete_storage_item hash id k true st = Ret st' -> frames st st'.
Proof using. unfold delete_storage_item. written. Qed.

#[local] Hint Resolve store_service_account_frames delete_service_account_frames store_preimage_frames delete_preimage_frames
  store_preimage_availability_frames delete_preimage_availability_frames store_storage_item_frames delete_storage_item_frames : core.

Lemma write_changes_frames p st st' : write_changes hash dict_items p st = Ret st' -> frames st st'.
Proof using.
  unfold write_changes. intros (st1 & H1 & (st2 & H2 & (st3 & H3 & H4)%bind_ret)%bind_ret)%bind_ret.
  apply (frames_trans st st1); [|apply (frames_trans st1 st2); [|apply (frames_trans st2 st3)]].
  - intros s Hs. apply (each_frames write_account (dict_items _ _ _ _ (pc_accounts p))) with (st := mkServicesState p (state_storage st) (materialized st)) in H1; [by apply H1|].
    intros [? [?|]] ? ?; eauto.
  - eapply each_frames, H2. intros [[? ?] [?|]] ? ?; eauto.
  - eapply each_frames, H3. intros [[? ?] [?|]] ? ?; eauto.
  - eapply each_frames, H4. intros [[[? ?] ?] [?|]] ? ?; eauto.
Qed.

Lemma provide_to_frames slot p st st' : provide_to hash slot p st = Ret st' -> frames st st'.
Proof using.
  destruct p as [s b]. unfold provide_to. intros (ok & _ & H)%bind_ret. destruct ok; cbn [negb] in H; [|by injection H as <-].
  destruct (retrieve_preimage_availability _ _ _ _ _) as [[|]|[]]; try discriminate H; try (by injection H as <-).
  apply bind_ret in H as (st0 & H0 & (st1 & H1 & H2)%bind_ret). apply (frames_trans st st0); [|apply (frames_trans st0 st1); eauto].
  case_bool_decide; [by injection H0 as <-|]. apply bind_ret in H0 as (a & _ & [= <-]). by apply frames_storage.
Qed.

Lemma add_pending_frames st st' : add_pending_changes st = Ret st' -> frames st st'.
Proof using.
  unfold add_pending_changes. intros ([] & _ & ([] & _ & ([] & _ & [= <-])%bind_ret)%bind_ret)%bind_ret. by apply frames_storage.
Qed.

Lemma provide_preimage_frames slot p st st' : provide_preimage hash slot p st = Ret st' -> frames st st'.
Proof using.
  unfold provide_preimage. intros (there & _ & (requested & _ & H)%bind_ret)%bind_ret. destruct (negb there && requested); [|by injection H as <-].
  apply bind_ret in H as (st1 & H1 & H2). apply (frames_trans st st1); eauto.
Qed.

Lemma touch_service_frames slot id st st' : touch_service slot id st = Ret st' -> frames st st'.
Proof using.
  unfold touch_service. destruct (retrieve_service_account _ _ _) as [a|[]]; try discriminate; try (by intros [= <-]).
  destruct (store_service_account _ _ _ _) as [st1|[]] eqn:E; try discriminate; intros [= <-]; eauto.
Qed.

Lemma settle_frames c e outputs e' : settle hash dict_items c e outputs = Ret e' -> frames (AccumContext.services e) (AccumContext.services e').
Proof using.
  unfold settle. intros (pending & _ & ([e1 v] & Hp & (st1 & H1 & (st2 & H2 & (st3 & H3 & H4)%bind_ret)%bind_ret)%bind_ret)%bind_ret)%bind_ret.
  apply (each_services (fun s => AccumContext.services s.1)) in Hp; [|intros o s s'; apply take_privileges_services]. cbn [fst] in Hp. rewrite <- Hp.
  apply override_services in H4. rewrite H4. cbn [replace_services AccumContext.services].
  apply (frames_trans _ st1); [by eapply write_changes_frames|]. apply (frames_trans _ st2); [|by apply add_pending_frames].
  eapply each_frames, H2. intros p st st'. apply provide_to_frames.
Qed.

Lemma rounds_frames depth : forall c gas transfers reports e auto out,
  full_sequential_accumulation (jam := jam) hash vdecode after_metadata (fetch := fetch) dict_items depth c gas transfers reports e auto = Some (Ret out) ->
  frames (AccumContext.services e) (AccumContext.services (post_accumulation_state out)).
Proof using.
  induction depth as [|depth IH]; intros c gas transfers reports e auto out; cbn [full_sequential_accumulation]; [done|]. cbv zeta.
  destruct (_ =? 0); [by intros [= <-]|]. intros (r & Hr & (second & Hs & [= <-])%acc_bind_ret)%acc_bind_ret. cbn [post_accumulation_state].
  apply (frames_trans _ (AccumContext.services (pl_accumulation_state r))); [|by eapply IH].
  unfold parallel_accumulation in Hr. apply acc_bind_ret in Hr as (outputs & _ & (e1 & He%of_state_ret & [= <-])%acc_bind_ret).
  by eapply settle_frames.
Qed.

Lemma accumulation_frames depth c reports pre out :
  state_transition_accumulation (jam := jam) hash vdecode after_metadata (fetch := fetch) dict_items depth c reports pre = Some (Ret out) ->
  frames (AccumContext.services pre) (AccumContext.services (Services.aa_state out)).
Proof using.
  unfold state_transition_accumulation. intros (r & Hr & (st & Hst%of_state_ret & [= <-])%acc_bind_ret)%acc_bind_ret. cbn [Services.aa_state replace_services AccumContext.services].
  apply rounds_frames in Hr. apply (frames_trans _ (AccumContext.services (detached pre))); [by apply frames_storage|].
  eapply frames_trans; [exact Hr|]. eapply each_frames, Hst. intros id st1 st2. apply touch_service_frames.
Qed.
End services_writes.

(** ** The import *)

Section import_storage.
Context {codec : Codec} {scodec : StateCodec} {xcodec : ExtrinsicCodec} {J : Type} {jam : JamCodec J}.
Context {RC : Type} {fetch : FetchCodec RC (AccumulationInput WorkExecResult)}.
Context (blake2b_256_hash keccak_256_hash : bytes -> bytes) (vdecode : bytes -> ValidatorData) (after_metadata : bytes -> bytes).
Context (dict_items : forall K A : Type, forall E : EqDecision K, forall C : Countable K, gmap K A -> list (K * A)).
Context {RingContext : Type} (new_ring_context : bytes -> list bytes -> Z -> option RingContext).
Context (commitment : RingContext -> bytes).
Context (ring_vrf_verify : RingContext -> bytes -> bytes -> bytes -> option bytes).
Context (ietf_vrf_verify : bytes -> bytes -> bytes -> bytes -> option bytes).
Context (ed_verify : bytes -> bytes -> bytes -> bool).
Context (unsigned_payload : BlockHeader -> bytes).
Context (encode_report : WorkReport -> bytes) (encode_bitfield : list bool -> bytes).
Context (e : ImportSettings).

#[local] Abbreviation transitions := (transitions blake2b_256_hash keccak_256_hash vdecode after_metadata dict_items new_ring_context commitment
  ring_vrf_verify ietf_vrf_verify ed_verify unsigned_payload encode_report encode_bitfield e).
#[local] Abbreviation import_block := (import_block blake2b_256_hash keccak_256_hash vdecode after_metadata dict_items new_ring_context commitment
  ring_vrf_verify ietf_vrf_verify ed_verify unsigned_payload encode_report encode_bitfield e).

(** The storage after accepted transitions differs in the open transaction only. *)
Lemma transitions_frame b headers st s st' s' out : truthy (block_hash s) = true ->
  transitions b headers st s = Some (Ret (st', s', out)) -> in_transaction s s'.
Proof using.
  intros Ht H. apply transitions_ret in H as (_ & h & _ & _ & chosen & entropy & acc & services & _ & _ & Hacc & Hpre & ->).
  apply accumulation_frames in Hacc. apply (each_frames _ _ (fun p => provide_preimage_frames blake2b_256_hash _ p)) in Hpre.
  destruct (frames_trans _ _ _ Hacc Hpre s eq_refl Ht) as (s' & -> & Hs'). done.
Qed.

Lemma store_components_frame previous current cs : forall s s', truthy (block_hash s) = true ->
  store_components previous current cs s = Ret s' -> in_transaction s s'.
Proof using.
  induction cs as [|c cs IH]; intros s s' Ht; cbn [store_components]; [intros [= <-]; apply in_transaction_refl|]. intros (s1 & H1 & H2)%bind_ret.
  assert (in_transaction s s1) as Hs1.
  { revert H1. unfold store_component, store_state. destruct (decide _); [intros [= <-]; apply in_transaction_refl|].
    intros (key & _ & [= <-])%bind_ret. by apply put_in_transaction. }
  eapply in_transaction_trans; [exact Hs1|]. apply IH; [|done]. by rewrite (in_transaction_hash _ _ Hs1).
Qed.

(** *** The storage of an import, step by step *)

Lemma set_block_hash_extended b p s s' : set_block_hash b p s = Ret s' -> s' = extended s b p ∅ ∅ /\ pending s = false.
Proof using.
  unfold set_block_hash. destruct (_ && _); [done|]. destruct (pending s) eqn:Hp; [done|]. intros [= <-]. split; [|done].
  apply pending_false in Hp. unfold extended. by rewrite Hp.
Qed.

Lemma initialize_storage b ws s ws' s' : initialize blake2b_256_hash b ws s = Ret (ws', s') ->
  s' = extended s (header_hash (base (bl_header b))) (parent (base (bl_header b))) ∅ ∅.
Proof using.
  unfold initialize. destruct (set_block_hash _ _ _) as [s1|x] eqn:H; [|done]. apply set_block_hash_extended in H as [-> _].
  assert (forall r : outcome state_exn (JamState * bytes), match r with Ret w => Ret (w, extended s (header_hash (base (bl_header b))) (parent (base (bl_header b))) ∅ ∅)
    | Raise y => Raise (y, extended s (header_hash (base (bl_header b))) (parent (base (bl_header b))) ∅ ∅) end = Ret (ws', s') ->
    s' = extended s (header_hash (base (bl_header b))) (parent (base (bl_header b))) ∅ ∅) as Hread by (by intros [w|y]; [intros [= _ <-]|]).
  destruct ws as [w|]; [|apply Hread]. case_bool_decide; [by intros [= _ <-]|apply Hread].
Qed.

Lemma initialize_error b ws s x s' : initialize blake2b_256_hash b ws s = Raise (x, s') ->
  s' = s \/ s' = extended s (header_hash (base (bl_header b))) (parent (base (bl_header b))) ∅ ∅.
Proof using.
  unfold initialize. destruct (set_block_hash _ _ _) as [s1|y] eqn:H; [|by intros [= _ <-]; left]. apply set_block_hash_extended in H as [-> _].
  intros Hr. right. destruct (retrieve_jam_state _ _), ws as [w|]; try done; try (revert Hr; case_bool_decide); congruence.
Qed.

Lemma start_tx_idle s : pending s = false -> start_tx s = s.
Proof using. intros H%pending_false. unfold start_tx, with_transaction. rewrite <- H. by destruct s. Qed.

Lemma extended_transaction s b p c t s' : in_transaction (extended s b p c t) s' -> exists t', s' = extended s b p c t'.
Proof using. intros [t' ->]. by exists t'. Qed.

Lemma commit_extended s b p c t s' : commit (extended s b p c t) = Ret s' -> s' = extended s b p t ∅ /\ b <> replicate 32 0.
Proof using.
  unfold commit. cbn [extended block_hash]. case_bool_decide as Hb; [done|]. intros [= <-]. split; [|done]. unfold extended. cbn. by rewrite insert_insert_eq.
Qed.

(** A candidate is taken back, whatever it has written. *)
Lemma discard_extended s b p c t restore : pending s = false -> has_state_at b s = false -> parents s !! b = None -> ancestors s !! b = None ->
  (forall r, restore = Some r -> has_state_at r s = true) ->
  discard_candidate b restore (extended s b p c t) = Ret (with_block_hash restore s).
Proof using.
  intros Hp Hb Hpar Hanc Hr. assert (change_sets s !! b = None /\ Some b <> finalized_block_hash s) as [Hcs Hfin].
  { unfold has_state_at in Hb. apply orb_false_iff in Hb as [H1%bool_decide_eq_false H2%bool_decide_eq_false]. split; [by apply eq_None_not_Some|done]. }
  unfold discard_candidate. cbn [extended finalized_block_hash block_hash]. rewrite bool_decide_false, bool_decide_true by done. cbn [negb].
  assert (match restore with Some r => negb (has_state_at r (extended s b p c t)) | None => false end = false) as ->.
  { destruct restore as [r|]; [|done]. apply negb_false_iff, has_state_at_spec. specialize (Hr r eq_refl). apply has_state_at_spec in Hr. cbn.
    destruct (decide (b = r)) as [->|Hne]; [right; rewrite lookup_insert_eq; by eexists|]. by rewrite lookup_insert_ne. }
  f_equal. apply pending_false in Hp. unfold with_block_hash. rewrite Hp. cbn.
  by rewrite !delete_insert_id, delete_id by done.
Qed.

Lemma app_eta a : mkApp (app_storage a) (app_headers a) (working_state a) = a.
Proof using. by destruct a. Qed.

Lemma with_block_hash_id s : with_block_hash (block_hash s) s = s.
Proof using. by destruct s. Qed.

(** C8: A rejected block leaves no trace.  Whenever the import of a block the storage does not know
    raises, in the checks of its header or anywhere in the transition, with whatever had been
    written by then, the storage and the headers are those from before, the same block is
    selected, and the working state is that block's, read again. *)
Theorem rejected_block_restores partial b a x a' :
  let s := app_storage a in
  let hash := header_hash (base (bl_header b)) in
  pending s = false -> hash <> [] -> has_state_at hash s = false -> parents s !! hash = None -> ancestors s !! hash = None ->
  (forall r, block_hash s = Some r -> has_state_at r s = true) ->
  import_block partial b a = Some (Raise (x, a')) ->
  app_storage a' = s /\ app_headers a' = app_headers a /\
  forall ws, retrieve_jam_state blake2b_256_hash s = Ret ws -> working_state a' = Some ws.
Proof using.
  cbv zeta. set (s := app_storage a). set (hash := header_hash (base (bl_header b))). set (p := parent (base (bl_header b))).
  intros Hp Hne Hb Hpar Hanc Hsel.
  assert (truthy (Some hash) = true) as Ht by (by destruct hash).
  assert (block_hash s <> Some hash) as Hother by (intros H; rewrite (Hsel _ H) in Hb; done).
  assert (restore_hash b s = block_hash s) as Hrestore by (unfold restore_hash; fold hash; by rewrite bool_decide_false).
  assert (forall y ws, reread blake2b_256_hash y (mkApp s (app_headers a) ws) = (x, a') ->
    app_storage a' = s /\ app_headers a' = app_headers a /\ forall ws, retrieve_jam_state blake2b_256_hash s = Ret ws -> working_state a' = Some ws) as Hread.
  { intros y ws. unfold reread. cbn [app_storage app_headers]. destruct (retrieve_jam_state _ s) as [ws'|z]; intros [= _ <-]; by split_and!; intros; simplify_eq. }
  assert (forall y ws c t, (match discard_candidate hash (restore_hash b s) (extended s hash p c t) with
    | Raise z => Some (Raise (InState z, mkApp (extended s hash p c t) (app_headers a) ws))
    | Ret s' => Some (Raise (reread blake2b_256_hash y (mkApp s' (app_headers a) ws)))
    end : option (outcome (accumulation_exn * App) (App * STFOutput))) = Some (Raise (x, a')) ->
    app_storage a' = s /\ app_headers a' = app_headers a /\ forall ws, retrieve_jam_state blake2b_256_hash s = Ret ws -> working_state a' = Some ws) as Hdiscard.
  { intros y ws c t. rewrite Hrestore, discard_extended, with_block_hash_id by done. intros [= H]. by eapply Hread. }
  unfold import_block, Import.import_block, state_transition. fold s hash.
  destruct (check_header _ _ _ b s) as [u|y].
  2: { fold s. rewrite bool_decide_false by done. intros [= H]. apply (Hread (InState y) (working_state a)). unfold s. rewrite app_eta. exact H. }
  rewrite (start_tx_idle s Hp). destruct (initialize _ b (working_state a) s) as [[ws s1]|[y s1]] eqn:Hi; cbn [app_storage app_headers working_state].
  2: { destruct (initialize_error _ _ _ _ _ Hi) as [->| ->]; [rewrite bool_decide_false by done; intros [= H]; by eapply Hread|].
       rewrite (bool_decide_true (block_hash (extended _ _ _ _ _) = _)) by done. apply Hdiscard. }
  apply initialize_storage in Hi as ->. fold hash p.
  destruct (negb _). { rewrite (bool_decide_true (block_hash _ = _)) by done. apply Hdiscard. }
  destruct (transitions b _ _ _) as [[[[st' s2] out']|y]|] eqn:Htr; cbn [app_storage app_headers working_state]; [| |done].
  2: { rewrite (bool_decide_true (block_hash _ = _)) by done. apply (Hdiscard y (Some ws) ∅ partial). }
  apply transitions_frame in Htr; [|done]. apply extended_transaction in Htr as [t2 ->].
  destruct (store_jam_state _ _ _) as [s3|y] eqn:Hs; cbn [app_storage app_headers working_state].
  2: { rewrite (bool_decide_true (block_hash _ = _)) by done. apply (Hdiscard (InState y) (Some ws) ∅ partial). }
  apply store_components_frame in Hs; [|done]. apply extended_transaction in Hs as [t3 ->].
  destruct (commit _) as [s4|y] eqn:Hm; cbn [app_storage app_headers working_state].
  2: { rewrite (bool_decide_true (block_hash _ = _)) by done. apply Hdiscard. }
  apply commit_extended in Hm as [-> _].
  destruct (state_root _ _) as [r|y]; cbn [app_storage app_headers working_state]; [done|].
  rewrite (bool_decide_true (block_hash _ = _)) by done. apply Hdiscard.
Qed.

(** *** Headers do not matter to the states *)

Definition with_ancestors (m : gmap bytes Ancestor) (s : StateStorage) : StateStorage :=
  mkStorage (storage_engine s) (finalized_block_hash s) (block_hash s) (change_sets s) (transaction s) (parents s) m.

Lemma with_ancestors_chain m s o l : chain (with_ancestors m s) o l <-> chain s o l.
Proof using. split; (induction 1; [constructor|by constructor]). Qed.

Lemma with_ancestors_ancestry m s b : ancestry (with_ancestors m s) b = ancestry s b.
Proof using.
  unfold ancestry. change (walk_fuel (with_ancestors m s)) with (walk_fuel s). generalize (walk_fuel s) (Some b).
  induction n as [|n IH]; intros o; [done|]. destruct o as [x|]; [|done]. cbn [walk]. by rewrite IH.
Qed.

Lemma with_ancestors_state m s b : Storage.state_of (with_ancestors m s) b = Storage.state_of s b.
Proof using. unfold Storage.state_of. by rewrite with_ancestors_ancestry. Qed.

Lemma with_ancestors_inv m s f : storage_inv s f -> storage_inv (with_ancestors m s) f.
Proof using.
  intros [Hf Ha Hb Hc]. split; [done| | |done].
  - intros b. destruct (Ha b) as [l Hl]. exists l. by apply with_ancestors_chain.
  - intros x. rewrite with_ancestors_ancestry. apply Hb.
Qed.

Lemma add_ancestor_extended s h t : let b := header_hash h in
  add_ancestor (ancestor_of h) (extended s b (parent h) t ∅) = with_ancestors (<[b := ancestor_of h]> (ancestors s)) (extended s b (parent h) t ∅).
Proof using. unfold add_ancestor, with_ancestors, extended. cbn. by rewrite insert_insert_eq. Qed.

(** C7: An accepted block gets a state of its own and touches no other.  Importing a block that is new
    on a parent that has a state keeps the invariant of the storage, selects the block, closes
    the transaction, records the header, and leaves the state of every other block as it was,
    the parent's and the forks' included, through all the writes of accumulation, preimages and
    components; and the state root kept with the working state is that of the block's state. *)
Theorem accepted_block_isolated partial b a a' out f :
  let s := app_storage a in
  let h := base (bl_header b) in
  let hash := header_hash h in
  storage_inv s f -> new_block s hash (parent h) -> hash <> [] ->
  import_block partial b a = Some (Ret (a', out)) ->
  let s' := app_storage a' in
  storage_inv s' f /\ pending s' = false /\ block_hash s' = Some hash /\ has_state_at hash s' = true /\
  ancestors s' !! hash = Some (ancestor_of h) /\ app_headers a' !! hash = Some (ancestor_of h) /\
  (exists st r, working_state a' = Some (st, r) /\ Trie.root blake2b_256_hash (map_to_list (Storage.state_of s' hash)) = Some (Ret r)) /\
  forall x, has_state_at x s = true -> has_state_at x s' = true /\ Storage.state_of s' x = Storage.state_of s x.
Proof using.
  cbv zeta. set (s := app_storage a). set (h := base (bl_header b)). set (hash := header_hash h). intros Hinv Hnew Hne Himp.
  assert (truthy (Some hash) = true) as Ht by (by destruct hash).
  apply import_block_ret in Himp as (_ & ws & s1 & st' & s2 & s3 & s4 & r & Hi & _ & Htr & Hs & Hm & Hr & ->). fold s in Hi.
  apply initialize_storage in Hi as ->. fold h hash in Htr.
  change (extended (start_tx s) hash (parent h) ∅ ∅) with (extended s hash (parent h) ∅ ∅) in Htr.
  apply transitions_frame in Htr; [|done]. apply extended_transaction in Htr as [t2 ->].
  apply store_components_frame in Hs; [|done]. apply extended_transaction in Hs as [t3 ->].
  apply commit_extended in Hm as [-> Hz]. unfold add_ancestor_block. fold h. cbn [app_storage app_headers working_state].
  rewrite add_ancestor_extended. fold hash. pose proof (extended_inv s f Hinv hash (parent h) t3 ∅ Hnew) as Hinv'.
  split_and!; try done.
  - by apply with_ancestors_inv.
  - apply (extended_has_state s). by right.
  - cbn. apply lookup_insert_eq.
  - cbn. apply lookup_insert_eq.
  - exists st', r. split; [done|]. revert Hr. unfold state_root. cbn [pending]. rewrite with_ancestors_state.
    rewrite (as_dict_run _ f Hinv' hash) by done. destruct (pending _); [done|]. destruct (Trie.root _ _) as [[?|?]|]; by intros [= ->].
  - intros x Hx. rewrite with_ancestors_state. split; [apply (extended_has_state s); by left|by apply (extended_state s f)].
Qed.

(** C40: The selected block can be lost.  A block with the header of the selected block, but another
    body, is refused before anything is changed, for its extrinsic hash; but the handler of the
    error takes the selected block for the candidate that failed and discards it: its state,
    which was valid, is gone, and so is the storage's record of it. *)
Theorem head_discarded partial b a :
  let s := app_storage a in
  let h := base (bl_header b) in
  block_hash s = Some (header_hash h) -> has_state_at (header_hash h) s = true -> finalized_block_hash s <> Some (header_hash h) ->
  has_state_at (parent h) s = true -> parent h <> header_hash h ->
  bl_extrinsic_hash b <> generate_extrinsic_hash blake2b_256_hash encode_report (bl_extrinsic b) ->
  exists x a', import_block partial b a = Some (Raise (x, a')) /\ block_hash (app_storage a') = Some (parent h) /\
    has_state_at (header_hash h) (app_storage a') = false /\ parents (app_storage a') !! header_hash h = None.
Proof using.
  cbv zeta. set (s := app_storage a). set (h := base (bl_header b)). intros Hb Hst Hfin Hpar Hne Hx.
  unfold import_block, Import.import_block, state_transition. fold s h.
  assert (exists y, check_header blake2b_256_hash encode_report e b s = Raise y) as [y ->].
  { unfold check_header. destruct (negb _ && _); [by eexists|]. rewrite (bool_decide_false (bl_extrinsic_hash b = _)) by done. by eexists. }
  fold s. rewrite (bool_decide_true (block_hash s = _)) by done. unfold restore_hash. fold h. rewrite (bool_decide_true (block_hash s = _)), Hpar by done.
  unfold discard_candidate. rewrite bool_decide_false, bool_decide_true, Hpar by done. cbn [negb].
  match goal with |- context [mkApp ?s' _ _] => set (s2 := s') end.
  assert (forall y, (reread blake2b_256_hash y (mkApp s2 (app_headers a) (working_state a))).2.(app_storage) = s2) as Hread
    by (intros z; unfold reread; cbn [app_storage]; by destruct (retrieve_jam_state _ _)).
  destruct (reread _ _ _) as [z a'] eqn:E. exists z, a'. split; [done|]. specialize (Hread (InState y)). rewrite E in Hread. cbn [snd] in Hread. rewrite Hread.
  split; [done|]. split; [|apply lookup_delete_eq]. unfold has_state_at. cbn. rewrite lookup_delete_eq, !bool_decide_false; [done| |]; [by intros []|by apply not_eq_sym].
Qed.
End import_storage.
