(* ===== verification/Availability.v ===== *)
(** * Bundles and availability

    [availability.py] and [erasure.py]: what a work package may ask for, the data a bundle is
    assembled from and how it is checked against the roots the package names, and the
    specification a report carries of its bundle and its exports.  The erasure code itself
    ([jam_erasure.encode_shards]) and the encoding of a sequence of hashes are parameters. *)

From Stdlib Require Import ZArith Lia Bool List.
From stdpp Require Import base numbers option list sets gmap.
From S2P Require Import Prelude Constants Graypaper Defs BasicBlock Merkle HostCalls StateBase Sums Reports.
Import ListNotations.

#[local] Open Scope Z_scope.
#[local] Open Scope py_scope.

(** [ProcessWorkpackageError], the other [ValueError]s, an index or type that is not there,
    [RuntimeError], and what the machine raises. *)
Inductive work_exn : Set := ProcessWorkpackageError | WorkValueError | WorkIndexError | WorkRuntimeError | InRun (e : exn).

Abbreviation refuse := (Raise ProcessWorkpackageError).

(** The package's context has the dependencies; the rest of the package is [HostCalls.WorkPackage]. *)
Abbreviation Package := (WorkPackage RefinementContext).

(** ** Import references *)

(** [ImportSegment], a pair of a root and an index. *)
Definition WORK_PACKAGE_HASH_FLAG : Z := 1 ≪ 15.
Definition SEGMENT_INDEX_MASK : Z := WORK_PACKAGE_HASH_FLAG - 1.
Definition is_work_package_hash (entry : bytes * Z) : bool := negb (entry.2 .& WORK_PACKAGE_HASH_FLAG =? 0).
Definition segment_index (entry : bytes * Z) : Z := entry.2 .& SEGMENT_INDEX_MASK.

Inductive import_root : Type := SegmentRoot (root : bytes) | WorkPackageHash (value : bytes).

Definition import_reference (entry : bytes * Z) : import_root :=
  if is_work_package_hash entry then WorkPackageHash entry.1 else SegmentRoot entry.1.

(** The dictionary from work packages to segment roots is the list of its items. *)
Definition resolve_import_root (mappings : list (bytes * bytes)) (reference : import_root) : outcome work_exn bytes :=
  match reference with
  | WorkPackageHash value =>
      match (list_to_map mappings : gmap bytes bytes) !! value with Some root => Ret root | None => refuse end
  | SegmentRoot root => Ret root
  end.

(** The packages an item's imports refer to by hash. *)
Definition expected_mappings (items : list WorkItem) : gset bytes :=
  list_to_set (map fst (filter (fun entry => is_work_package_hash entry = true) (concat (map wi_import_segments items)))).

(** ** [validate_work_package] *)

Section limits.
Context (gp : GpConstants).

Definition package_footprint (package : Package) : Z :=
  blen (wp_authorization package) + blen (wp_authorizer_config package) +
  sum_of (fun w => blen (wi_payload w) + Z.of_nat (length (wi_import_segments w)) * IMPORT_SEGMENT_FOOTPRINT gp + sum_of snd (wi_extrinsic w))
    (wp_items package).

Definition validate_work_package (package : Package) : outcome work_exn unit :=
  let items := wp_items package in
  let n := Z.of_nat (length items) in
  if negb ((1 <=? n) && (n <=? MAXIMUM_WORK_ITEMS gp)) then refuse
  else if (MAXIMUM_NUMBER_EXTRINSICS_WORK_PACKAGE gp <? sum_of (fun w => Z.of_nat (length (wi_extrinsic w))) items)
       || (MAXIMUM_NUMBER_IMPORTS_WORK_PACKAGE gp <? sum_of (fun w => Z.of_nat (length (wi_import_segments w))) items)
       || (MAXIMUM_NUMBER_EXPORTS_WORK_PACKAGE gp <? sum_of wi_export_count items) then refuse
  else if MAXIMUM_DEPENDENCIES_WORK_REPORT gp <?
          Z.of_nat (size (expected_mappings items)) + Z.of_nat (length (rc_prerequisites (wp_context package))) then refuse
  else if MAXIMUM_SIZE_WORK_PACKAGE gp <? package_footprint package then refuse
  else if (GAS_REFINE gp <? sum_of wi_refine_gas_limit items) || (GAS_ACCUMULATION gp <? sum_of wi_accumulate_gas_limit items) then refuse
  else Ret tt.
End limits.

(** ** [BundleData] *)

Record ImportedSegment : Type := mkImported { segment : bytes; justification : list bytes }.

#[export] Instance ImportedSegment_eq_dec : EqDecision ImportedSegment.
Proof. solve_decision. Defined.

Record BundleData : Type := mkBundleData {
  extrinsics : gmap bytes bytes;
  imports : gmap (bytes * Z) ImportedSegment
}.

Fixpoint map_ret {A B} (f : A -> outcome work_exn B) (l : list A) : outcome work_exn (list B) :=
  match l with
  | [] => Ret []
  | x :: l => y ← f x; ys ← map_ret f l; Ret (y :: ys)
  end.

Section bundle.
Context {AI : Type} {fetch : FetchCodec RefinementContext AI}.
Context (hash : bytes -> bytes) (Vec_H256_encode : list bytes -> bytes) (encode_shards : bytes -> Z -> Z -> list bytes).
Context (gp : GpConstants).

(** The loops of [from_parts]. *)
Fixpoint add_extrinsics (manifests : list (bytes * Z)) (blobs : list bytes) (data : BundleData) : outcome work_exn BundleData :=
  match manifests, blobs with
  | manifest :: manifests, blob :: blobs =>
      if negb (blen blob =? manifest.2) || negb (bool_decide (hash blob = manifest.1)) then refuse
      else add_extrinsics manifests blobs (mkBundleData (<[manifest.1 := blob]> (extrinsics data)) (imports data))
  | _, _ => Ret data
  end.

Fixpoint add_imports (entries : list (bytes * Z)) (segments : list bytes) (proofs : list (list bytes)) (data : BundleData) : outcome work_exn BundleData :=
  match entries, segments, proofs with
  | entry :: entries, segment :: segments, proof :: proofs =>
      let imported := mkImported segment proof in
      if match imports data !! entry with Some old => negb (bool_decide (old = imported)) | None => false end then refuse
      else add_imports entries segments proofs (mkBundleData (extrinsics data) (<[entry := imported]> (imports data)))
  | _, _, _ => Ret data
  end.

Definition from_parts (package : Package) (extrinsics segments : list bytes) (justifications : list (list bytes)) : outcome work_exn BundleData :=
  let manifests := concat (map wi_extrinsic (wp_items package)) in
  let entries := concat (map wi_import_segments (wp_items package)) in
  if negb (length extrinsics =? length manifests)%nat then refuse
  else if negb (length segments =? length entries)%nat || negb (length justifications =? length entries)%nat then refuse
  else
    data ← add_extrinsics manifests extrinsics (mkBundleData ∅ ∅);
    add_imports entries segments justifications data.

Definition extrinsic_data (data : BundleData) (item : WorkItem) : outcome work_exn (list bytes) :=
  map_ret (fun manifest =>
    match extrinsics data !! manifest.1 with
    | Some blob => if negb (blen blob =? manifest.2) || negb (bool_decide (hash blob = manifest.1)) then refuse else Ret blob
    | None => refuse
    end) (wi_extrinsic item).

(** The most hashes of a proof. *)
Definition proof_depth : Z := bit_length (MAXIMUM_NUMBER_EXPORTS_WORK_PACKAGE gp - 1).

(** The conditions in their order; the root is resolved last. *)
Definition verified_import (data : BundleData) (mappings : list (bytes * bytes)) (entry : bytes * Z) : outcome work_exn ImportedSegment :=
  match imports data !! entry with
  | None => refuse
  | Some imported =>
      let proof := justification imported in
      if negb (blen (segment imported) =? EC_SEGMENT_SIZE) || (MAXIMUM_NUMBER_EXPORTS_WORK_PACKAGE gp <=? segment_index entry)
         || (proof_depth <? Z.of_nat (length proof)) then refuse
      else
        root ← resolve_import_root mappings (import_reference entry);
        if Merkle.verify hash (segment imported) (segment_index entry) proof root then Ret imported else refuse
  end.

Definition verified_imports (data : BundleData) (mappings : list (bytes * bytes)) (item : WorkItem) : outcome work_exn (list ImportedSegment) :=
  map_ret (verified_import data mappings) (wi_import_segments item).

Definition import_segments (data : BundleData) (mappings : list (bytes * bytes)) (item : WorkItem) : outcome work_exn (list bytes) :=
  l ← verified_imports data mappings item; Ret (map segment l).

Definition import_justifications (data : BundleData) (mappings : list (bytes * bytes)) (item : WorkItem) : outcome work_exn (list (list bytes)) :=
  l ← verified_imports data mappings item; Ret (map justification l).

(** The package, then all extrinsics, all segments, all proofs. *)
Definition assemble_bundle (data : BundleData) (package : Package) (mappings : list (bytes * bytes)) : outcome work_exn bytes :=
  let items := wp_items package in
  blobs ← map_ret (extrinsic_data data) items;
  segments ← map_ret (import_segments data mappings) items;
  proofs ← map_ret (import_justifications data mappings) items;
  Ret (WorkPackage_to_jam_bytes package ++ concat (concat blobs) ++ concat (concat segments) ++ concat (map Vec_H256_encode (concat proofs))).

(** ** [erasure.py] *)

(** The greatest number of data shards that divides a segment. *)
Definition data_shard_candidates (validator_count : Z) : list Z :=
  filter (fun d => EC_SEGMENT_SIZE mod (2 * d) = 0) (py_range 1 (validator_count / 3 + 2)).

Definition erasure_data_shards (validator_count : Z) : outcome work_exn Z :=
  if negb (valid_validator_count validator_count (CORE_COUNT gp)) then Raise WorkValueError
  else Ret (fold_right Z.max 0 (data_shard_candidates validator_count)).

Definition encode_chunks (validator_count piece_count : Z) (data : bytes) : outcome work_exn (list bytes) :=
  originals ← erasure_data_shards validator_count;
  if piece_count <? 0 then Raise WorkValueError
  else if negb (blen data =? 2 * piece_count * originals) then Raise WorkValueError
  else if piece_count =? 0 then Ret (replicate (Z.to_nat validator_count) [])
  else
    let shards := encode_shards data originals (validator_count - originals) in
    if negb (Z.of_nat (length shards) =? validator_count) || existsb (fun shard => negb (blen shard =? 2 * piece_count)) shards
    then Raise WorkRuntimeError else Ret shards.

(** ** The specification *)

Definition zero_pad (alignment : Z) (data : bytes) : outcome work_exn bytes :=
  if alignment <? 1 then Raise WorkValueError else Ret (data ++ replicate (Z.to_nat ((- blen data) mod alignment)) 0).

(** The pages of 64 segments, from a start. *)
Fixpoint proof_pages (exports hashes : list bytes) (page_depth : nat) (starts : list Z) : outcome work_exn (list bytes) :=
  match starts with
  | [] => Ret []
  | start :: starts =>
      path ← match Merkle.trace hash exports start with Some path => Ret path | None => Raise WorkIndexError end;
      page ← zero_pad EC_SEGMENT_SIZE (Vec_H256_encode (take page_depth path) ++ Vec_H256_encode (take 64 (drop (Z.to_nat start) hashes)));
      pages ← proof_pages exports hashes page_depth starts;
      Ret (page :: pages)
  end.

(** [range(0, n, 64)] *)
Definition page_starts (n : Z) : list Z := map (Z.mul 64) (py_range 0 ((n + 63) / 64)).

Definition paged_proof_segments (exports : list bytes) : outcome work_exn (list bytes) :=
  let n := Z.of_nat (length exports) in
  proof_pages exports (map (fun s => hash (b_leaf ++ s)) exports) (Z.to_nat (Z.max 0 (bit_length (n - 1) - 6))) (page_starts n).

(** [data[lo:hi]] and the slices of one size. *)
Definition slice (lo hi : Z) (data : bytes) : bytes := take (Z.to_nat (hi - lo)) (drop (Z.to_nat lo) data).
Definition chunks (n : Z) (data : bytes) : list bytes :=
  map (fun k => slice (k * n) (k * n + n) data) (py_range 0 ((blen data + n - 1) / n)).

Definition availability_spec (package_hash bundle : bytes) (exports : list bytes) (validator_count : Z) : outcome work_exn WorkPackageSpec :=
  if negb (blen package_hash =? 32) then Raise WorkValueError
  else if (MAXIMUM_NUMBER_EXPORTS_WORK_PACKAGE gp <? Z.of_nat (length exports)) || existsb (fun s => negb (blen s =? EC_SEGMENT_SIZE)) exports then refuse
  else
    originals ← erasure_data_shards validator_count;
    let alignment := 2 * originals in
    let piece_count := (blen bundle + alignment - 1) / alignment in
    padded_bundle ← zero_pad alignment bundle;
    bundle_shards ← encode_chunks validator_count piece_count padded_bundle;
    proofs ← paged_proof_segments exports;
    let segments := exports ++ proofs in
    let segment_shard_size := EC_SEGMENT_SIZE / originals in
    let transposed := concat (map (fun i => concat (map (slice (i * segment_shard_size) ((i + 1) * segment_shard_size)) segments)) (py_range 0 originals)) in
    rows ← encode_chunks validator_count (blen transposed / alignment) transposed;
    let leaves := map (fun p => hash p.1 ++ well_balanced_root hash (chunks segment_shard_size p.2)) (zip bundle_shards rows) in
    Ret (mkPackageSpec package_hash (blen bundle) (well_balanced_root hash leaves) validator_count (constant_depth_root hash exports)
           (Z.of_nat (length exports))).
End bundle.

(** * Properties *)

Lemma map_ret_spec {A B} (f : A -> outcome work_exn B) l l' : map_ret f l = Ret l' <-> Forall2 (fun x y => f x = Ret y) l l'.
Proof.
  revert l'. induction l as [|x l IH]; intros l'; cbn [map_ret].
  - split; [by intros [= <-]|]. by inversion 1.
  - split.
    + destruct (f x) as [y|] eqn:Hy; [|done]. cbn. destruct (map_ret f l) as [ys|]; [|done]. cbn. intros [= <-].
      constructor; [done|]. by apply IH.
    + inversion 1 as [|? y ? ys Hy Hl]; subst. rewrite Hy. cbn. apply IH in Hl. by rewrite Hl.
Qed.

Lemma map_ret_total {A B} (f : A -> outcome work_exn B) l : (forall x, x ∈ l -> exists y, f x = Ret y) -> exists l', map_ret f l = Ret l'.
Proof.
  induction l as [|x l IH]; intros Hf; cbn; [by eexists|].
  destruct (Hf x) as [y ->]; [set_solver|]. destruct IH as [ys ->]; [set_solver|]. by eexists.
Qed.

Lemma map_ret_app {A B} (f : A -> outcome work_exn B) l1 l2 : map_ret f (l1 ++ l2) = (y1 ← map_ret f l1; y2 ← map_ret f l2; Ret (y1 ++ y2)).
Proof.
  induction l1 as [|x l1 IH]; cbn; [by destruct (map_ret f l2)|]. destruct (f x); [|done]. cbn. rewrite IH.
  destruct (map_ret f l1); [|done]. cbn. by destruct (map_ret f l2).
Qed.

(** The results of the items, one after the other, are those of what the items hold. *)
Lemma map_ret_concat {A B C} (f : B -> outcome work_exn C) (g : A -> list B) l ll :
  map_ret (fun x => map_ret f (g x)) l = Ret ll -> map_ret f (concat (map g l)) = Ret (concat ll).
Proof.
  revert ll. induction l as [|x l IH]; intros ll; cbn; [by intros [= <-]|].
  destruct (map_ret f (g x)) as [ys|] eqn:Hx; [|done]. cbn.
  destruct (map_ret _ l) as [yss|]; [|done]. cbn. intros [= <-]. rewrite map_ret_app, Hx. cbn. by rewrite (IH yss).
Qed.

Section laws.
Context {AI : Type} {fetch : FetchCodec RefinementContext AI}.
Context (hash : bytes -> bytes) (Vec_H256_encode : list bytes -> bytes).
Context (gp : GpConstants).

Abbreviation extrinsic_data := (extrinsic_data hash).
Abbreviation verified_import := (verified_import hash gp).
Abbreviation import_segments := (import_segments hash gp).
Abbreviation import_justifications := (import_justifications hash gp).
Abbreviation assemble_bundle := (assemble_bundle hash Vec_H256_encode gp).

(** The blob a manifest names. *)
Definition names_blob (manifest : bytes * Z) (blob : bytes) : Prop := hash blob = manifest.1 /\ blen blob = manifest.2.

(** Whatever list of segments has the root the entry names, itself or through its package,
    has this segment at the entry's index, unless the hash collides, or is zero, on the
    strings hashed for the root of the list and for the segment with its proof. *)
Definition names_import (mappings : list (bytes * bytes)) (entry : bytes * Z) (imported : ImportedSegment) : Prop :=
  blen (segment imported) = EC_SEGMENT_SIZE /\ exists root, resolve_import_root mappings (import_reference entry) = Ret root /\
    forall exports, constant_depth_root hash exports = root ->
      exports !! Z.to_nat (segment_index entry) = Some (segment imported) \/
      broken_among hash (tree_inputs hash exports ++ proof_inputs hash (segment imported) (segment_index entry) (justification imported)).

Lemma extrinsic_data_found data item blobs : extrinsic_data data item = Ret blobs ->
  Forall2 (fun manifest blob => names_blob manifest blob /\ extrinsics data !! manifest.1 = Some blob) (wi_extrinsic item) blobs.
Proof using.
  intros Hx. apply map_ret_spec in Hx. eapply Forall2_impl; [exact Hx|]. intros manifest blob Hb. cbn in Hb.
  destruct (extrinsics data !! manifest.1) as [b|]; [|done]. destruct (Z.eqb_spec (blen b) manifest.2); [|done].
  cbn in Hb. case_bool_decide; [|done]. cbn in Hb. by injection Hb as <-.
Qed.

Lemma extrinsic_data_blobs data item blobs : extrinsic_data data item = Ret blobs -> Forall2 names_blob (wi_extrinsic item) blobs.
Proof using. intros Hx%extrinsic_data_found. eapply Forall2_impl; [exact Hx|]. by intros m b [? _]. Qed.

(** What is checked of an import. *)
Lemma verified_import_spec data mappings entry imported :
  verified_import data mappings entry = Ret imported <->
  imports data !! entry = Some imported /\ blen (segment imported) = EC_SEGMENT_SIZE /\
  segment_index entry < MAXIMUM_NUMBER_EXPORTS_WORK_PACKAGE gp /\ Z.of_nat (length (justification imported)) <= proof_depth gp /\
  exists root, resolve_import_root mappings (import_reference entry) = Ret root /\
    Merkle.verify hash (segment imported) (segment_index entry) (justification imported) root = true.
Proof using.
  unfold verified_import. destruct (imports data !! entry) as [i|]; [|split; [done|by intros (? & _)]]. split.
  - destruct (Z.eqb_spec (blen (segment i)) EC_SEGMENT_SIZE), (Z.leb_spec (MAXIMUM_NUMBER_EXPORTS_WORK_PACKAGE gp) (segment_index entry)),
      (Z.ltb_spec (proof_depth gp) (Z.of_nat (length (justification i)))); try done. cbn.
    destruct (resolve_import_root _ _) as [root|] eqn:Hroot; [|done]. cbn. destruct (verify _ _ _ _ _) eqn:Hv; [|done].
    intros [= <-]. split_and!; try done. by exists root.
  - intros ([= ->] & Hl & Hi & Hp & root & -> & Hv). destruct (Z.eqb_spec (blen (segment imported)) EC_SEGMENT_SIZE); [|done].
    destruct (Z.leb_spec (MAXIMUM_NUMBER_EXPORTS_WORK_PACKAGE gp) (segment_index entry)); [lia|].
    destruct (Z.ltb_spec (proof_depth gp) (Z.of_nat (length (justification imported)))); [lia|]. cbn. by rewrite Hv.
Qed.

Lemma verified_imports_named `{!HashLaws hash} data mappings item l :
  verified_imports hash gp data mappings item = Ret l -> Forall2 (names_import mappings) (wi_import_segments item) l.
Proof using.
  intros Hl%map_ret_spec. eapply Forall2_impl; [exact Hl|].
  intros entry imported (Hi & Hlen & _ & _ & root & Hroot & Hv)%verified_import_spec. split; [done|].
  exists root. split; [done|]. intros exports <-. by eapply verify_sound.
Qed.

(** The items' segments, or their proofs, are those of the verified imports. *)
Lemma verified_items {B} (f : ImportedSegment -> B) data mappings items ll :
  map_ret (fun item => l ← verified_imports hash gp data mappings item; Ret (map f l)) items = Ret ll ->
  exists imported, map_ret (verified_imports hash gp data mappings) items = Ret imported /\ ll = map (map f) imported.
Proof using.
  revert ll. induction items as [|item items IH]; intros ll; cbn; [intros [= <-]; by exists []|].
  destruct (verified_imports hash gp data mappings item) as [l1|]; [|done]. cbn.
  match goal with |- context [map_ret ?g items] => destruct (map_ret g items) as [ll2|]; [|done] end. cbn. intros [= <-].
  destruct (IH ll2 eq_refl) as (imported & -> & ->). by exists (l1 :: imported).
Qed.

(** The parts of an assembled bundle, item by item. *)
Lemma assembled data package mappings bundle :
  assemble_bundle data package mappings = Ret bundle ->
  exists blobs segments proofs,
    map_ret (extrinsic_data data) (wp_items package) = Ret blobs /\ map_ret (import_segments data mappings) (wp_items package) = Ret segments /\
    map_ret (import_justifications data mappings) (wp_items package) = Ret proofs /\
    bundle = WorkPackage_to_jam_bytes package ++ concat (concat blobs) ++ concat (concat segments) ++ concat (map Vec_H256_encode (concat proofs)).
Proof using.
  unfold assemble_bundle. destruct (map_ret (extrinsic_data data) _) as [blobs|]; [|done].
  destruct (map_ret (import_segments _ _) _) as [segments|]; [|done]. destruct (map_ret (import_justifications _ _) _) as [proofs|]; [|done].
  cbn. intros [= <-]. by exists blobs, segments, proofs.
Qed.

(** ** [from_parts] *)

Lemma add_extrinsics_spec kept manifests : forall blobs data data', length blobs = length manifests -> blobs ⊆ kept ->
  add_extrinsics hash manifests blobs data = Ret data' -> (forall h b, extrinsics data !! h = Some b -> hash b = h /\ b ∈ kept) ->
  Forall2 names_blob manifests blobs /\ imports data' = imports data /\ (forall h b, extrinsics data' !! h = Some b -> hash b = h /\ b ∈ kept) /\
  (forall m, m ∈ manifests -> is_Some (extrinsics data' !! m.1)) /\ (forall h, is_Some (extrinsics data !! h) -> is_Some (extrinsics data' !! h)).
Proof using.
  induction manifests as [|m manifests IH]; intros [|b blobs] data data' Hl Hk; cbn; try done.
  { intros [= <-] Hd. split_and!; try done. intros m Hm. set_solver. }
  destruct (Z.eqb_spec (blen b) m.2) as [Hlen|]; [|done]. case_bool_decide as Hh; [|done]. cbn. intros Ha Hd.
  apply IH in Ha as (Hf & Hi & Hx & Hin & Hmono); [|by injection Hl|set_solver +Hk|].
  - split_and!; [by constructor|done|done| |].
    + intros m' [-> | Hm]%elem_of_cons; [|by apply Hin]. apply Hmono. cbn. rewrite lookup_insert_eq. by eexists.
    + intros h Hs. apply Hmono. cbn. destruct (decide (m.1 = h)) as [->|]; [rewrite lookup_insert_eq; by eexists|by rewrite lookup_insert_ne].
  - intros h b'. cbn. intros [[<- <-]|[_ Hold]]%lookup_insert_Some; [split; [done|set_solver +Hk]|by apply Hd].
Qed.

Lemma add_imports_spec entries : forall segments proofs data data', length segments = length entries -> length proofs = length entries ->
  add_imports entries segments proofs data = Ret data' ->
  extrinsics data' = extrinsics data /\ imports data ⊆ imports data' /\
  map (fun entry => imports data' !! entry) entries = zip_with (fun s p => Some (mkImported s p)) segments proofs.
Proof using.
  induction entries as [|entry entries IH]; intros [|s segments] [|p proofs] data data' Hs Hp; cbn; try done.
  { by intros [= <-]. }
  destruct (match imports data !! entry with Some _ => _ | None => _ end) eqn:Hconflict; [done|]. intros Ha.
  apply IH in Ha as (Hx & Hmono & Heq); [|by injection Hs|by injection Hp]. cbn in Hx, Hmono.
  split; [done|]. split.
  - transitivity (<[entry := mkImported s p]> (imports data)); [|done]. apply map_subseteq_spec. intros k v Hk.
    destruct (decide (entry = k)) as [->|]; [|by rewrite lookup_insert_ne]. rewrite lookup_insert_eq. rewrite Hk in Hconflict.
    by case_bool_decide; subst.
  - f_equal; [|done]. eapply lookup_weaken; [|exact Hmono]. by rewrite lookup_insert_eq.
Qed.

(** What [from_parts] has checked, and where it has put the parts. *)
Lemma from_parts_spec package xs ss ps data : from_parts hash package xs ss ps = Ret data ->
  let manifests := concat (map wi_extrinsic (wp_items package)) in
  let entries := concat (map wi_import_segments (wp_items package)) in
  Forall2 names_blob manifests xs /\ (forall h b, extrinsics data !! h = Some b -> hash b = h /\ b ∈ xs) /\
  (forall m, m ∈ manifests -> is_Some (extrinsics data !! m.1)) /\ length ss = length entries /\ length ps = length entries /\
  map (fun entry => imports data !! entry) entries = zip_with (fun s p => Some (mkImported s p)) ss ps.
Proof using.
  unfold from_parts. cbv zeta. destruct (Nat.eqb_spec (length xs) (length (concat (map wi_extrinsic (wp_items package))))) as [Hxs|]; [|done].
  destruct (Nat.eqb_spec (length ss) (length (concat (map wi_import_segments (wp_items package))))) as [Hss|]; [|done].
  destruct (Nat.eqb_spec (length ps) (length (concat (map wi_import_segments (wp_items package))))) as [Hps|]; [|done]. cbn [negb orb].
  destruct (add_extrinsics _ _ _ _) as [d|] eqn:Hd; [|done]. cbn. intros Hi.
  apply (add_extrinsics_spec xs) in Hd as (Hf & _ & Hx & Hin & _); [|done..].
  apply add_imports_spec in Hi as (Hsame & _ & Heq); [|done..]. rewrite Hsame. split_and!; try done.
Qed.

(** Two blobs a manifest names are the same, or the hash collides on them. *)
Lemma blobs_agree kept (l : list (bytes * Z)) xs ys : Forall2 names_blob l xs -> xs ⊆ kept ->
  Forall2 (fun m b => names_blob m b /\ b ∈ kept) l ys -> xs = ys \/ collision_among hash kept.
Proof using.
  intros Hx. revert ys. induction Hx as [|m x l xs [Hh _] _ IH]; intros ys Hk Hy; inversion Hy as [|? y ? ys' [[Hh' _] Hyk] Hy']; subst; [by left|].
  destruct (decide (x = y)) as [->|Hne]; [|right; exists x, y; split_and!; [set_solver +Hk|done|done|congruence]].
  destruct (IH ys') as [->|]; [set_solver +Hk|done|by left|by right].
Qed.

Lemma Forall2_concat_map {A B C} (P : B -> C -> Prop) (g : A -> list B) l ll :
  Forall2 (fun x ys => Forall2 P (g x) ys) l ll -> Forall2 P (concat (map g l)) (concat ll).
Proof using. induction 1; cbn; [done|]. by apply Forall2_app. Qed.

(** The segments and the proofs found for the entries are those that were put there. *)
Lemma imports_found data mappings entries (segs : list bytes) (ps : list (list bytes)) l :
  length segs = length entries -> length ps = length entries ->
  map (fun entry => imports data !! entry) entries = zip_with (fun s p => Some (mkImported s p)) segs ps ->
  map_ret (verified_import data mappings) entries = Ret l -> map segment l = segs /\ map justification l = ps.
Proof using.
  revert segs ps l. induction entries as [|entry entries IH]; intros [|s segs] [|p ps] l Hs Hp; cbn; try done.
  { by intros _ [= <-]. }
  intros [= He Heq] Hm. destruct (verified_import data mappings entry) as [i|] eqn:Hi; [|done]. cbn in Hm.
  destruct (map_ret _ entries) as [l'|] eqn:Hl'; [|done]. cbn in Hm. injection Hm as <-.
  apply verified_import_spec in Hi as (Hi & _). rewrite He in Hi. injection Hi as <-.
  destruct (IH segs ps l' ltac:(by injection Hs) ltac:(by injection Hp) Heq eq_refl) as [<- <-]. done.
Qed.

(** What the items' loops over the verified imports give, of all of them. *)
Lemma imports_concat {B} (f : ImportedSegment -> B) data mappings items ll :
  map_ret (fun item => l ← verified_imports hash gp data mappings item; Ret (map f l)) items = Ret ll ->
  exists l, map_ret (verified_import data mappings) (concat (map wi_import_segments items)) = Ret l /\ concat ll = map f l.
Proof using.
  revert ll. induction items as [|item items IH]; intros ll; cbn; [intros [= <-]; by exists []|].
  destruct (verified_imports hash gp data mappings item) as [l1|] eqn:H1; [|done]. cbn.
  match goal with |- context [map_ret ?g items] => destruct (map_ret g items) as [ll2|]; [|done] end. cbn. intros [= <-]. destruct (IH ll2 eq_refl) as (l2 & H2 & Heq).
  exists (l1 ++ l2). unfold verified_imports in H1. rewrite map_ret_app, H1. cbn. rewrite H2. cbn. by rewrite map_app, Heq.
Qed.
(** ** Honest parts *)

(** As many nodes as the tree is deep. *)
Lemma length_trace exports index proof : trace hash exports index = Some proof -> length proof = Nat.log2_up (Nat.max 1 (length exports)).
Proof using.
  unfold trace. destruct (Z.leb_spec 0 index), (Z.ltb_spec index (Z.of_nat (length exports))); try done. cbn [andb]. intros [= <-].
  set (nodes := constancy_preprocessor hash exports).
  assert (length nodes = padded_size (length exports)) as Hl by apply length_preprocessed.
  assert (length nodes = (2 ^ Nat.log2_up (Nat.max 1 (length exports)))%nat) as Hd by done.
  destruct (lookup_lt_is_Some_2 nodes (Z.to_nat index)) as [x Hx].
  { pose proof (padded_size_le (length exports)). lia. }
  by destruct (trace_climb hash _ (length nodes) nodes index x Hd ltac:(lia) ltac:(lia) Hx).
Qed.

(** The proofs of the exports of a package are within the limit. *)
Lemma trace_depth exports index proof : trace hash exports index = Some proof ->
  Z.of_nat (length exports) <= MAXIMUM_NUMBER_EXPORTS_WORK_PACKAGE gp -> Z.of_nat (length proof) <= proof_depth gp.
Proof using.
  intros Ht Hmax. rewrite (length_trace _ _ _ Ht).
  assert (0 < Z.of_nat (length exports)) as Hpos.
  { unfold trace in Ht. destruct (Z.leb_spec 0 index), (Z.ltb_spec index (Z.of_nat (length exports))); try done. lia. }
  unfold proof_depth, bit_length. set (m := MAXIMUM_NUMBER_EXPORTS_WORK_PACKAGE gp) in *.
  assert (forall k, 0 <= k -> m <= 2 ^ k -> Z.of_nat (Nat.log2_up (Nat.max 1 (length exports))) <= k) as Hle.
  { intros k Hk Hm. cut (Nat.log2_up (Nat.max 1 (length exports)) <= Z.to_nat k)%nat; [lia|].
    apply Nat.log2_up_le_pow2; [lia|]. apply Nat2Z.inj_le. rewrite Nat2Z.inj_pow, Z2Nat.id by lia. lia. }
  destruct (Z.eqb_spec (m - 1) 0); [apply Hle; lia|]. rewrite Z.abs_eq by lia. pose proof (Z.log2_spec (m - 1) ltac:(lia)) as Hlog. pose proof (Z.log2_nonneg (m - 1)).
  apply Hle; [lia|]. rewrite <-Z.add_1_r in Hlog. lia.
Qed.

(** The import of an entry whose root is that of the exports is accepted with their proof. *)
Lemma honest_import `{!HashLaws hash} data mappings entry exports s p :
  imports data !! entry = Some (mkImported s p) -> blen s = EC_SEGMENT_SIZE ->
  resolve_import_root mappings (import_reference entry) = Ret (constant_depth_root hash exports) ->
  Z.of_nat (length exports) <= MAXIMUM_NUMBER_EXPORTS_WORK_PACKAGE gp -> exports !! Z.to_nat (segment_index entry) = Some s ->
  trace hash exports (segment_index entry) = Some p -> verified_import data mappings entry = Ret (mkImported s p).
Proof using.
  intros Hi Hlen Hroot Hmax Hs Hp. apply verified_import_spec. cbn.
  assert (0 <= segment_index entry) as H0 by (apply Z.land_nonneg; by right). pose proof (lookup_lt_Some _ _ _ Hs) as Hlt.
  split_and!; try done; [lia|by eapply trace_depth|]. exists (constant_depth_root hash exports). split; [done|].
  destruct (trace_verify_run hash exports (segment_index entry) s Hs H0) as (p' & Hp' & Hv). congruence.
Qed.

Lemma add_extrinsics_total manifests xs data : Forall2 names_blob manifests xs -> exists data', add_extrinsics hash manifests xs data = Ret data'.
Proof using.
  intros Hx. revert data. induction Hx as [|m x manifests xs [Hh Hl] _ IH]; intros data; cbn; [by eexists|].
  rewrite Hl, Z.eqb_refl, bool_decide_eq_true_2 by done. apply IH.
Qed.

(** Imports that are a function of the entry do not conflict. *)
Lemma add_imports_total (imported : bytes * Z -> ImportedSegment) entries data :
  (forall k i, imports data !! k = Some i -> i = imported k) ->
  exists data', add_imports entries (map (fun e => segment (imported e)) entries) (map (fun e => justification (imported e)) entries) data = Ret data'.
Proof using.
  revert data. induction entries as [|e entries IH]; intros data Hd; cbn; [by eexists|].
  assert (mkImported (segment (imported e)) (justification (imported e)) = imported e) as -> by by destruct (imported e).
  destruct (imports data !! e) as [old|] eqn:Hold.
  - rewrite (Hd _ _ Hold), bool_decide_eq_true_2 by done. cbn. apply IH. cbn. intros k i [[<- <-]|[_ Hk]]%lookup_insert_Some; [done|by apply Hd].
  - apply IH. cbn. intros k i [[<- <-]|[_ Hk]]%lookup_insert_Some; [done|by apply Hd].
Qed.

(** The blobs kept under the manifests' hashes have the manifests' lengths. *)
Lemma kept_blobs kept (data : BundleData) l xs : Forall2 names_blob l xs -> xs ⊆ kept -> (forall h b, extrinsics data !! h = Some b -> hash b = h /\ b ∈ kept) ->
  (forall m, m ∈ l -> is_Some (extrinsics data !! m.1)) ->
  (forall m, m ∈ l -> exists b, extrinsics data !! m.1 = Some b /\ names_blob m b) \/ collision_among hash kept.
Proof using.
  intros Hx Hk Hd. induction Hx as [|m x l xs [Hh Hl] _ IH]; intros Hin; [left; intros m Hm; by apply elem_of_nil in Hm|].
  destruct IH as [Hok|]; [set_solver +Hk|intros m' Hm'; apply Hin, elem_of_cons; by right| |by right].
  destruct (Hin m) as [b Hb]; [apply elem_of_cons; by left|]. destruct (Hd _ _ Hb) as [Hhb Hbk].
  destruct (decide (b = x)) as [->|Hne]; [left|right; exists b, x; split_and!; [done|set_solver +Hk|done|congruence]].
  intros m' [-> | Hm']%elem_of_cons; [by exists x|by apply Hok].
Qed.

Lemma elem_of_concat_map {A B} (g : A -> list B) l x y : x ∈ l -> y ∈ g x -> y ∈ concat (map g l).
Proof using. induction 1; cbn; rewrite elem_of_app; [by left|right; auto]. Qed.

(** What was put there for an entry. *)
Lemma imports_at (data : BundleData) (Q : bytes * Z -> bytes -> Prop) (R : bytes * Z -> list bytes -> Prop) entries ss ps :
  map (fun entry => imports data !! entry) entries = zip_with (fun s p => Some (mkImported s p)) ss ps ->
  Forall2 Q entries ss -> Forall2 R entries ps ->
  forall e, e ∈ entries -> exists s p, imports data !! e = Some (mkImported s p) /\ Q e s /\ R e p.
Proof using.
  intros Heq Hs. revert ps Heq. induction Hs as [|e s entries ss Hq _ IH]; intros ps Heq Hp e' He'; [by apply elem_of_nil in He'|].
  inversion Hp as [|? p ? ps' Hr Hp']; subst. cbn in Heq. injection Heq as Hi Heq.
  apply elem_of_cons in He' as [->|He']; [by exists s, p|by eapply IH].
Qed.

(** The loops end well when every blob and every import is there. *)
Lemma assemble_total data package mappings :
  (forall item, item ∈ wp_items package -> exists l, extrinsic_data data item = Ret l) ->
  (forall item, item ∈ wp_items package -> exists l, verified_imports hash gp data mappings item = Ret l) ->
  exists bundle, assemble_bundle data package mappings = Ret bundle.
Proof using.
  intros Hx Hi. unfold Availability.assemble_bundle. destruct (map_ret_total _ _ Hx) as [blobs ->]. cbn.
  destruct (map_ret_total (import_segments data mappings) (wp_items package)) as [segments ->].
  { intros item Hin. destruct (Hi item Hin) as [l Hl]. unfold Availability.import_segments. rewrite Hl. by eexists. }
  cbn. destruct (map_ret_total (import_justifications data mappings) (wp_items package)) as [proofs ->].
  { intros item Hin. destruct (Hi item Hin) as [l Hl]. unfold Availability.import_justifications. rewrite Hl. by eexists. }
  by eexists.
Qed.

Lemma parts_assembled package xs ss ps mappings data bundle :
  from_parts hash package xs ss ps = Ret data -> assemble_bundle data package mappings = Ret bundle ->
  bundle = WorkPackage_to_jam_bytes package ++ concat xs ++ concat ss ++ concat (map Vec_H256_encode ps) \/ collision_among hash xs.
Proof using.
  intros (Hxs & Hkept & _ & Hss & Hps & Heq)%from_parts_spec (blobs & segments & proofs & Hx & Hs & Hp & ->)%assembled.
  assert (Forall2 (fun m b => names_blob m b /\ b ∈ xs) (concat (map wi_extrinsic (wp_items package))) (concat blobs)) as Hblobs.
  { apply Forall2_concat_map. apply map_ret_spec in Hx. eapply Forall2_impl; [exact Hx|]. intros item l Hl%extrinsic_data_found.
    eapply Forall2_impl; [exact Hl|]. intros m b [Hm Hb]. split; [done|]. by eapply Hkept. }
  destruct (blobs_agree xs _ _ _ Hxs ltac:(done) Hblobs) as [<-|]; [left|by right].
  apply imports_concat in Hs as (l & Hl & ->). apply imports_concat in Hp as (l' & Hl' & ->).
  destruct (imports_found data mappings _ ss ps l Hss Hps Heq Hl) as [<- _].
  by destruct (imports_found data mappings _ _ ps l' Hss Hps Heq Hl') as [_ <-].
Qed.
End laws.

(** ** The dimensions *)

(** What the code relies on: [Vec(H256).encode] is a length in at most 9 bytes and the hashes;
    the erasure code gives every piece of data a shard of the same size, the recovery shards
    after the original ones. *)
Class ErasureLaws (hash_vector : list bytes -> bytes) (encode_shards : bytes -> Z -> Z -> list bytes) : Prop := {
  hash_vector_length : forall l, Forall (fun h => length h = 32%nat) l ->
    32 * Z.of_nat (length l) <= blen (hash_vector l) <= 9 + 32 * Z.of_nat (length l);
  encode_shards_length : forall data originals recovery k, 0 < originals -> 0 <= recovery -> 0 < k -> blen data = 2 * k * originals ->
    Z.of_nat (length (encode_shards data originals recovery)) = originals + recovery /\
    Forall (fun shard => blen shard = 2 * k) (encode_shards data originals recovery)
}.

Lemma fold_max_in l : Forall (fun x => 0 < x) l -> l <> [] -> fold_right Z.max 0 l ∈ l /\ Forall (fun x => x <= fold_right Z.max 0 l) l.
Proof.
  induction 1 as [|x l Hx Hl IH]; intros Hne; [done|]. cbn. destruct l as [|y l].
  - cbn. rewrite Z.max_l by lia. split; [by apply elem_of_cons; left|]. by repeat constructor.
  - destruct IH as [Hin Hmax]; [done|]. set (m := fold_right Z.max 0 (y :: l)) in *. split.
    + apply elem_of_cons. destruct (Z.max_spec x m) as [[_ ->]|[_ ->]]; [by right|by left].
    + constructor; [lia|]. eapply Forall_impl; [exact Hmax|]. cbn. intros. lia.
Qed.

(** [D(v)] of the protocol: the greatest number of data shards, below a third of the validators
    and two more, that divides a segment into shards of an even number of bytes. *)
Theorem erasure_data_shards_greatest gp v d : erasure_data_shards gp v = Ret d ->
  valid_validator_count v (CORE_COUNT gp) = true /\ 1 <= d < v / 3 + 2 /\ EC_SEGMENT_SIZE mod (2 * d) = 0 /\
  forall d', 1 <= d' < v / 3 + 2 -> EC_SEGMENT_SIZE mod (2 * d') = 0 -> d' <= d.
Proof.
  unfold erasure_data_shards. destruct (valid_validator_count v (CORE_COUNT gp)) eqn:Hv; [|done]. cbn. intros [= <-]. split; [done|].
  assert (forall d', d' ∈ data_shard_candidates v <-> 1 <= d' < v / 3 + 2 /\ EC_SEGMENT_SIZE mod (2 * d') = 0) as Hcand.
  { intros d'. unfold data_shard_candidates. rewrite list_elem_of_filter, elem_of_py_range. tauto. }
  assert (0 <= v / 3) as H3. { unfold valid_validator_count in Hv. apply Z.div_pos; lia. }
  destruct (fold_max_in (data_shard_candidates v)) as [Hin Hmax].
  - apply Forall_forall. intros d' [Hd _]%Hcand. lia.
  - intros Hnil. pose proof (proj2 (Hcand 1)) as H1. rewrite Hnil in H1. by apply elem_of_nil in H1; [|split; [lia|done]].
  - apply Hcand in Hin as [Hr Hm]. split; [done|]. split; [done|]. intros d' Hd' Hm'. rewrite Forall_forall in Hmax. apply Hmax. by apply Hcand.
Qed.

Lemma erasure_data_shards_run gp v : valid_validator_count v (CORE_COUNT gp) = true ->
  exists d, erasure_data_shards gp v = Ret d /\ 1 <= d <= v /\ EC_SEGMENT_SIZE mod (2 * d) = 0.
Proof.
  intros Hv. destruct (erasure_data_shards gp v) as [d|e] eqn:Hd; [|unfold erasure_data_shards in Hd; by rewrite Hv in Hd].
  exists d. split; [done|]. apply erasure_data_shards_greatest in Hd as (_ & Hd & Hmod & _).
  unfold valid_validator_count in Hv. assert (v / 3 + 2 <= v) by (Z.to_euclidean_division_equations; lia). split; [lia|done].
Qed.

Lemma zero_pad_run n data : 1 <= n -> exists padded, zero_pad n data = Ret padded /\ blen padded = n * ceil_div (blen data) n.
Proof.
  intros Hn. unfold zero_pad. destruct (Z.ltb_spec n 1); [lia|]. eexists. split; [done|].
  unfold blen. rewrite length_app, length_replicate, Nat2Z.inj_add.
  pose proof (ceil_div_spec (Z.of_nat (length data)) n ltac:(lia)) as Hc. pose proof (Z.mod_pos_bound (- Z.of_nat (length data)) n ltac:(lia)).
  rewrite Z2Nat.id by lia. set (q := ceil_div _ _) in *. symmetry.
  assert ((- Z.of_nat (length data)) mod n = n * q - Z.of_nat (length data)) as ->; [|lia].
  symmetry. apply (Z.mod_unique_pos _ _ (- q)); lia.
Qed.

Lemma py_range_length lo hi : length (py_range lo hi) = Z.to_nat (hi - lo).
Proof. unfold py_range. by rewrite length_map, length_seq. Qed.

Lemma length_concat_uniform (ll : list bytes) n : Forall (fun l => blen l = n) ll -> blen (concat ll) = n * Z.of_nat (length ll).
Proof.
  unfold blen. induction 1 as [|l ll Hl _ IH]; cbn [concat length]; [lia|]. rewrite length_app, Nat2Z.inj_add, IH, Hl. lia.
Qed.

Lemma blen_slice lo hi data : 0 <= lo <= hi -> hi <= blen data -> blen (slice lo hi data) = hi - lo.
Proof. unfold blen, slice. intros Hlo Hhi. rewrite length_take, length_drop. lia. Qed.

Section dimensions.
Context {AI : Type} {fetch : FetchCodec RefinementContext AI}.
Context (hash : bytes -> bytes) `{!HashLaws hash} (Vec_H256_encode : list bytes -> bytes) (encode_shards : bytes -> Z -> Z -> list bytes).
Context `{!ErasureLaws Vec_H256_encode encode_shards} (gp : GpConstants).

(** The shards of data of the right size; the check of the back end's answer passes. *)
Lemma encode_chunks_run v k data d : erasure_data_shards gp v = Ret d -> 1 <= d <= v -> 0 <= k -> blen data = 2 * k * d ->
  exists shards, encode_chunks encode_shards gp v k data = Ret shards /\ Z.of_nat (length shards) = v /\ Forall (fun shard => blen shard = 2 * k) shards.
Proof using ErasureLaws0.
  intros Hd Hv Hk Hl. unfold encode_chunks. rewrite Hd. cbn. destruct (Z.ltb_spec k 0); [lia|]. rewrite Hl, Z.eqb_refl. cbn.
  destruct (Z.eqb_spec k 0) as [->|Hk0].
  - eexists. split; [done|]. rewrite length_replicate. split; [lia|]. by apply Forall_replicate.
  - destruct (encode_shards_length data d (v - d) k ltac:(lia) ltac:(lia) ltac:(lia) Hl) as [Hn Hs].
    assert (Z.of_nat (length (encode_shards data d (v - d))) = v) as Hlen by lia. rewrite Hlen, Z.eqb_refl. cbn.
    assert (existsb (fun shard => negb (blen shard =? 2 * k)) (encode_shards data d (v - d)) = false) as ->; [|by eexists].
    apply not_true_iff_false. intros (x & Hx & Hne)%existsb_exists. rewrite Forall_forall in Hs.
    rewrite (Hs x) in Hne by by apply list_elem_of_In. by rewrite Z.eqb_refl in Hne.
Qed.

(** Each page is one segment. *)
Lemma proof_pages_run exports hashes depth starts : length hashes = length exports -> Forall (fun h => length h = 32%nat) hashes ->
  (depth <= 60)%nat -> Forall (fun start => 0 <= start < Z.of_nat (length exports)) starts ->
  exists pages, proof_pages hash Vec_H256_encode exports hashes depth starts = Ret pages /\ Forall (fun page => blen page = EC_SEGMENT_SIZE) pages.
Proof using ErasureLaws0 HashLaws0.
  intros Hlen H32 Hdepth. induction 1 as [|start starts Hstart _ IH]; cbn [proof_pages]; [by eexists|].
  assert (exists path, trace hash exports start = Some path /\ Forall (fun h => length h = 32%nat) path) as (path & -> & Hpath).
  { unfold trace. destruct (Z.leb_spec 0 start), (Z.ltb_spec start (Z.of_nat (length exports))); try lia. eexists. split; [done|].
    apply trace_lengths, preprocessed_lengths; done. }
  cbn [mbind outcome_bind]. set (encoded := _ ++ _).
  assert (0 < blen encoded <= EC_SEGMENT_SIZE) as Hbounds.
  { pose proof (hash_vector_length (take depth path) ltac:(by apply Forall_take)) as H1.
    pose proof (hash_vector_length (take 64 (drop (Z.to_nat start) hashes)) ltac:(by apply Forall_take, Forall_drop)) as H2.
    unfold encoded, blen in *. rewrite length_app in *. rewrite length_take in H1, H2. rewrite length_drop in H2. unfold EC_SEGMENT_SIZE. lia. }
  destruct (zero_pad_run EC_SEGMENT_SIZE encoded ltac:(done)) as (page & -> & Hpage). cbn [mbind outcome_bind]. destruct IH as (pages & -> & Hpages). cbn [mbind outcome_bind].
  eexists. split; [done|]. constructor; [|done]. rewrite Hpage.
  pose proof (ceil_div_spec (blen encoded) EC_SEGMENT_SIZE ltac:(done)). unfold EC_SEGMENT_SIZE in *. nia.
Qed.

Lemma paged_proofs_run exports : Z.of_nat (length exports) <= 2 ^ 64 ->
  exists pages, paged_proof_segments hash Vec_H256_encode exports = Ret pages /\ Forall (fun page => blen page = EC_SEGMENT_SIZE) pages.
Proof using ErasureLaws0 HashLaws0.
  intros Hn. apply proof_pages_run; [by rewrite length_map| | |].
  - apply List.Forall_map, List.Forall_forall. intros x _. apply hash_length.
  - cut (bit_length (Z.of_nat (length exports) - 1) <= 64); [lia|]. unfold bit_length. destruct (Z.eqb_spec (Z.of_nat (length exports) - 1) 0); [done|].
    cut (Z.log2 (Z.abs (Z.of_nat (length exports) - 1)) < 64); [lia|]. apply Z.log2_lt_pow2; lia.
  - unfold page_starts. apply List.Forall_map, List.Forall_forall. intros k Hk%list_elem_of_In%elem_of_py_range.
    pose proof (Z.mul_div_le (Z.of_nat (length exports) + 63) 64 ltac:(lia)). lia.
Qed.

(** A shard of each segment for each original: the segments, transposed. *)
Lemma transposed_length d size segments : 0 <= d -> 0 <= size -> d * size = EC_SEGMENT_SIZE -> Forall (fun s => blen s = EC_SEGMENT_SIZE) segments ->
  blen (concat (map (fun i => concat (map (slice (i * size) ((i + 1) * size)) segments)) (py_range 0 d))) = EC_SEGMENT_SIZE * Z.of_nat (length segments).
Proof using.
  intros Hd Hsize Hprod Hs. rewrite (length_concat_uniform _ (size * Z.of_nat (length segments))).
  - rewrite length_map, py_range_length, Z2Nat.id by lia. rewrite <-Hprod. lia.
  - apply List.Forall_map, List.Forall_forall. intros i Hi%list_elem_of_In%elem_of_py_range.
    rewrite (length_concat_uniform _ size); [by rewrite length_map|]. apply List.Forall_map. eapply Forall_impl; [exact Hs|]. cbn. intros s Hlen.
    rewrite blen_slice; [lia|nia|rewrite Hlen; nia].
Qed.

(** The specification of a bundle and exports within the limits is always computed: the data
    always has the dimensions the erasure code asks for. *)
Lemma availability_spec_run package_hash bundle exports v :
  blen package_hash = 32 -> Z.of_nat (length exports) <= MAXIMUM_NUMBER_EXPORTS_WORK_PACKAGE gp <= 2 ^ 64 ->
  Forall (fun s => blen s = EC_SEGMENT_SIZE) exports -> valid_validator_count v (CORE_COUNT gp) = true ->
  exists spec, availability_spec hash Vec_H256_encode encode_shards gp package_hash bundle exports v = Ret spec.
Proof using ErasureLaws0 HashLaws0.
  intros Hh Hn Hs Hv. unfold availability_spec. rewrite Hh. cbn [Z.eqb Pos.eqb negb].
  destruct (Z.ltb_spec (MAXIMUM_NUMBER_EXPORTS_WORK_PACKAGE gp) (Z.of_nat (length exports))); [lia|]. cbn [orb].
  assert (existsb (fun s => negb (blen s =? EC_SEGMENT_SIZE)) exports = false) as ->.
  { apply not_true_iff_false. intros (x & Hx & Hne)%existsb_exists. rewrite Forall_forall in Hs.
    rewrite (Hs x) in Hne by by apply list_elem_of_In. by rewrite Z.eqb_refl in Hne. }
  destruct (erasure_data_shards_run gp v Hv) as (d & Hd & Hdv & Hmod). rewrite Hd. cbn [mbind outcome_bind].
  destruct (zero_pad_run (2 * d) bundle ltac:(lia)) as (padded & -> & Hpad). cbn [mbind outcome_bind].
  pose proof (ceil_div_spec (blen bundle) (2 * d) ltac:(lia)) as Hc. pose proof (ceil_div_nonneg (blen bundle) (2 * d) ltac:(lia) ltac:(unfold blen; lia)) as Hc0.
  assert ((blen bundle + 2 * d - 1) / (2 * d) = ceil_div (blen bundle) (2 * d)) as ->.
  { symmetry. apply (Z.div_unique_pos _ _ _ (blen bundle + 2 * d - 1 - 2 * d * ceil_div (blen bundle) (2 * d))); lia. }
  destruct (encode_chunks_run v (ceil_div (blen bundle) (2 * d)) padded d Hd Hdv Hc0) as (shards & -> & _); [lia|]. cbn [mbind outcome_bind].
  destruct (paged_proofs_run exports ltac:(lia)) as (pages & -> & Hpages). cbn [mbind outcome_bind].
  apply Z.mod_divide in Hmod as [q Hq]; [|lia]. assert (EC_SEGMENT_SIZE / d = 2 * q) as Hsize by (rewrite Hq; symmetry; apply Z.div_unique_exact; lia).
  assert (0 < q) by (unfold EC_SEGMENT_SIZE in Hq; nia).
  pose proof (transposed_length d (2 * q) (exports ++ pages) ltac:(lia) ltac:(lia) ltac:(lia)) as Ht. rewrite Hsize.
  specialize (Ht ltac:(by apply Forall_app)). set (transposed := concat _) in *.
  destruct (encode_chunks_run v (blen transposed / (2 * d)) transposed d Hd Hdv) as (rows & -> & _).
  - apply Z.div_pos; [unfold blen; lia|lia].
  - rewrite Ht, Hq. replace (q * (2 * d) * Z.of_nat (length (exports ++ pages))) with (q * Z.of_nat (length (exports ++ pages)) * (2 * d)) by lia.
    rewrite Z.div_mul by lia. lia.
  - cbn [mbind outcome_bind]. by eexists.
Qed.

(** What the specification says. *)
Lemma availability_spec_fields package_hash bundle exports v spec :
  availability_spec hash Vec_H256_encode encode_shards gp package_hash bundle exports v = Ret spec ->
  ps_hash spec = package_hash /\ ps_length spec = blen bundle /\ ps_erasure_shards spec = v /\ ps_exports_root spec = constant_depth_root hash exports /\
  ps_exports_count spec = Z.of_nat (length exports) /\ Forall (fun s => blen s = EC_SEGMENT_SIZE) exports.
Proof using.
  unfold availability_spec. destruct (blen package_hash =? 32); [|done]. cbn [negb].
  destruct (_ <? Z.of_nat (length exports)); [done|]. cbn [orb]. destruct (existsb _ exports) eqn:Hex; [done|].
  destruct (erasure_data_shards gp v); [|done]. cbn [mbind outcome_bind].
  destruct (zero_pad _ bundle); [|done]. cbn [mbind outcome_bind]. destruct (encode_chunks _ _ _ _ _); [|done]. cbn [mbind outcome_bind].
  destruct (paged_proof_segments _ _ _); [|done]. cbn [mbind outcome_bind]. destruct (encode_chunks _ _ _ _ _); [|done]. cbn [mbind outcome_bind].
  intros [= <-]. cbn. split_and!; try done. apply Forall_forall. intros x Hx. destruct (Z.eqb_spec (blen x) EC_SEGMENT_SIZE); [done|].
  exfalso. apply not_true_iff_false in Hex. apply Hex, existsb_exists. exists x. split; [by apply list_elem_of_In|]. apply negb_true_iff, Z.eqb_neq. done.
Qed.
End dimensions.

(** What [validate_work_package] accepts. *)
Lemma validate_work_package_spec gp package : validate_work_package gp package = Ret tt <->
  let items := wp_items package in
  (1 <= Z.of_nat (length items) <= MAXIMUM_WORK_ITEMS gp) /\
  sum_of (fun w => Z.of_nat (length (wi_extrinsic w))) items <= MAXIMUM_NUMBER_EXTRINSICS_WORK_PACKAGE gp /\
  sum_of (fun w => Z.of_nat (length (wi_import_segments w))) items <= MAXIMUM_NUMBER_IMPORTS_WORK_PACKAGE gp /\
  sum_of wi_export_count items <= MAXIMUM_NUMBER_EXPORTS_WORK_PACKAGE gp /\
  Z.of_nat (size (expected_mappings items)) + Z.of_nat (length (rc_prerequisites (wp_context package))) <= MAXIMUM_DEPENDENCIES_WORK_REPORT gp /\
  package_footprint gp package <= MAXIMUM_SIZE_WORK_PACKAGE gp /\
  sum_of wi_refine_gas_limit items <= GAS_REFINE gp /\ sum_of wi_accumulate_gas_limit items <= GAS_ACCUMULATION gp.
Proof.
  unfold validate_work_package. cbv zeta. repeat match goal with |- context [?a <=? ?b] => destruct (Z.leb_spec a b) end;
    repeat match goal with |- context [?a <? ?b] => destruct (Z.ltb_spec a b) end; cbn; split; try done; lia.
Qed.

(** ** The length of a bundle *)

(** The constants are small enough for the short forms of the encoded lengths. *)
Record gp_small (gp : GpConstants) : Prop := {
  gs_items : MAXIMUM_WORK_ITEMS gp < 2 ^ 7;
  gs_dependencies : MAXIMUM_DEPENDENCIES_WORK_REPORT gp < 2 ^ 7;
  gs_package : MAXIMUM_SIZE_WORK_PACKAGE gp < 2 ^ 28;
  gs_imports : MAXIMUM_NUMBER_IMPORTS_WORK_PACKAGE gp < 2 ^ 14;
  gs_extrinsics : MAXIMUM_NUMBER_EXTRINSICS_WORK_PACKAGE gp < 2 ^ 14;
  gs_exports : 1 <= MAXIMUM_NUMBER_EXPORTS_WORK_PACKAGE gp <= 2 ^ 64;
  gs_invoke : 0 <= GAS_INVOKE gp < 2 ^ 64;
  gs_report : MAXIMUM_SIZE_ENCODED_WORK_REPORT gp < 2 ^ 64
}.

Lemma gp_const_small t : gp_small (gp_const t).
Proof. destruct t; by split. Qed.

(** The sizes of the encodings: a number below [2 ^ 7] takes one byte, below [2 ^ 14] two, below
    [2 ^ 28] at most four; the rest of a package has fixed widths. *)
Class BundleCodecLaws {AI} `{FetchCodec RefinementContext AI} (hash_vector : list bytes -> bytes) : Prop := {
  package_length : forall p : Package,
    Z.of_nat (length (wp_items p)) < 2 ^ 7 -> Z.of_nat (length (rc_prerequisites (wp_context p))) < 2 ^ 7 ->
    blen (wp_authorization p) < 2 ^ 28 -> blen (wp_authorizer_config p) < 2 ^ 28 ->
    Forall (fun w => blen (wi_payload w) < 2 ^ 28 /\ Z.of_nat (length (wi_import_segments w)) < 2 ^ 14 /\ Z.of_nat (length (wi_extrinsic w)) < 2 ^ 14) (wp_items p) ->
    blen (WorkPackage_to_jam_bytes p) <=
      4 + 32 + (5 * 32 + 2 * 4 + 1 + 32 * Z.of_nat (length (rc_prerequisites (wp_context p)))) + (2 * 4 + 1)
      + blen (wp_authorization p) + blen (wp_authorizer_config p)
      + sum_of (fun w => (4 + 32 + 8 + 8 + 2 + 4 + 2 + 2) + blen (wi_payload w) + Z.of_nat (length (wi_import_segments w)) * (32 + 2)
                         + Z.of_nat (length (wi_extrinsic w)) * (32 + 4)) (wp_items p);
  short_vector_length : forall l, Forall (fun h => length h = 32%nat) l -> Z.of_nat (length l) < 2 ^ 7 ->
    blen (hash_vector l) = 1 + 32 * Z.of_nat (length l)
}.

Section lengths.
Context {AI : Type} {fetch : FetchCodec RefinementContext AI}.
Context (hash : bytes -> bytes) (Vec_H256_encode : list bytes -> bytes) `{!BundleCodecLaws Vec_H256_encode}.
Context (gp : GpConstants).

Abbreviation import_count := (sum_of (fun w => Z.of_nat (length (wi_import_segments w)))).
Abbreviation extrinsic_count := (sum_of (fun w => Z.of_nat (length (wi_extrinsic w)))).
Abbreviation extrinsic_size := (sum_of (fun w => sum_of snd (wi_extrinsic w))).

Lemma blen_app (a b : bytes) : blen (a ++ b) = blen a + blen b.
Proof using. unfold blen. rewrite length_app. lia. Qed.

Lemma package_footprint_sum package : package_footprint gp package =
  blen (wp_authorization package) + blen (wp_authorizer_config package) + sum_of (fun w => blen (wi_payload w)) (wp_items package)
  + import_count (wp_items package) * IMPORT_SEGMENT_FOOTPRINT gp + extrinsic_size (wp_items package).
Proof using. unfold package_footprint. induction (wp_items package) as [|w l IH]; cbn; lia. Qed.

Lemma blobs_length (ms : list (bytes * Z)) xs : Forall2 (names_blob hash) ms xs -> blen (concat xs) = sum_of snd ms.
Proof using. induction 1 as [|m x ms xs [_ Hl] _ IH]; cbn; [done|]. rewrite blen_app. lia. Qed.

Lemma import_count_concat items : Z.of_nat (length (concat (map wi_import_segments items))) = import_count items.
Proof using. induction items as [|w l IH]; cbn; [done|]. rewrite length_app. lia. Qed.

(** Every segment, and every proof within the depth. *)
Lemma imports_length data mappings entries l : proof_depth gp < 2 ^ 7 ->
  map_ret (verified_import hash gp data mappings) entries = Ret l ->
  blen (concat (map segment l)) = EC_SEGMENT_SIZE * Z.of_nat (length entries) /\
  blen (concat (map Vec_H256_encode (map justification l))) <= (1 + 32 * proof_depth gp) * Z.of_nat (length entries).
Proof using BundleCodecLaws0.
  intros Hdepth Hl. apply map_ret_spec in Hl.
  induction Hl as [|e i entries l (_ & Hseg & _ & Hp & root & _ & (_ & H32 & _)%verify_true)%verified_import_spec _ IH]; cbn [map concat length]; [by rewrite !Z.mul_0_r|].
  rewrite !blen_app, Hseg, (short_vector_length (justification i)) by (done || lia). lia.
Qed.

Lemma sum_of_item {A} (f : A -> Z) l x : (forall x, 0 <= f x) -> x ∈ l -> f x <= sum_of f l.
Proof using.
  intros Hf. induction 1 as [x l|x y l _ IH]; cbn; [|pose proof (Hf y); lia].
  pose proof (sum_of_nonneg f l ltac:(by apply Forall_forall)). lia.
Qed.

(** The depth of the proofs, as in the footprint of an import. *)
Lemma proof_depth_bound : gp_small gp -> 0 <= proof_depth gp < 2 ^ 7 /\ IMPORT_SEGMENT_FOOTPRINT gp = EC_SEGMENT_SIZE + 32 * proof_depth gp.
Proof using.
  intros [_ _ _ _ _ He _ _]. unfold proof_depth, IMPORT_SEGMENT_FOOTPRINT, bit_length, Graypaper.bit_length.
  destruct (Z.eqb_spec (MAXIMUM_NUMBER_EXPORTS_WORK_PACKAGE gp - 1) 0); [lia|]. rewrite Z.abs_eq by lia. split; [|done].
  pose proof (Z.log2_nonneg (MAXIMUM_NUMBER_EXPORTS_WORK_PACKAGE gp - 1)).
  assert (Z.log2 (MAXIMUM_NUMBER_EXPORTS_WORK_PACKAGE gp - 1) < 64) by (apply Z.log2_lt_pow2; lia). lia.
Qed.

(** The package's own encoding, without its footprint: what the constant adds to it. *)
Lemma package_encoding package : gp_small gp -> validate_work_package gp package = Ret tt -> 0 <= extrinsic_size (wp_items package) ->
  blen (WorkPackage_to_jam_bytes package) + import_count (wp_items package) * IMPORT_SEGMENT_FOOTPRINT gp + extrinsic_size (wp_items package)
    + import_count (wp_items package) <= MAXIMUM_SIZE_AUDITABLE_BUNDLE gp.
Proof using BundleCodecLaws0.
  intros Hsmall (Hn & Hx & Hi & _ & Hdep & Hfoot & _)%validate_work_package_spec Hpos. rewrite package_footprint_sum in Hfoot.
  destruct (proof_depth_bound Hsmall) as [Hdepth Hk]. destruct Hsmall as [S1 S2 S3 S4 S5 _ _ _].
  set (items := wp_items package) in *. assert (0 <= import_count items) by (apply sum_of_nonneg, Forall_forall; intros; lia).
  assert (0 <= sum_of (fun w => blen (wi_payload w)) items) by (apply sum_of_nonneg, Forall_forall; intros; unfold blen; lia).
  assert (0 <= import_count items * IMPORT_SEGMENT_FOOTPRINT gp) by (unfold EC_SEGMENT_SIZE in *; nia).
  assert (0 <= blen (wp_authorization package) /\ 0 <= blen (wp_authorizer_config package)) by (unfold blen; lia).
  assert (blen (WorkPackage_to_jam_bytes package) <= 4 + 32 + (5 * 32 + 2 * 4 + 1 + 32 * Z.of_nat (length (rc_prerequisites (wp_context package)))) + (2 * 4 + 1)
      + blen (wp_authorization package) + blen (wp_authorizer_config package)
      + sum_of (fun w => (4 + 32 + 8 + 8 + 2 + 4 + 2 + 2) + blen (wi_payload w) + Z.of_nat (length (wi_import_segments w)) * (32 + 2)
                         + Z.of_nat (length (wi_extrinsic w)) * (32 + 4)) items) as Hlen.
  { apply package_length; fold items; try lia. apply Forall_forall. intros w Hw.
    pose proof (sum_of_item (fun w => blen (wi_payload w)) items w ltac:(intros; apply Nat2Z.is_nonneg) Hw).
    pose proof (sum_of_item (fun w => Z.of_nat (length (wi_import_segments w))) items w ltac:(intros; apply Nat2Z.is_nonneg) Hw).
    pose proof (sum_of_item (fun w => Z.of_nat (length (wi_extrinsic w))) items w ltac:(intros; apply Nat2Z.is_nonneg) Hw). cbn in *. lia. }
  assert (sum_of (fun w => (4 + 32 + 8 + 8 + 2 + 4 + 2 + 2) + blen (wi_payload w) + Z.of_nat (length (wi_import_segments w)) * (32 + 2)
                         + Z.of_nat (length (wi_extrinsic w)) * (32 + 4)) items
    = 62 * Z.of_nat (length items) + sum_of (fun w => blen (wi_payload w)) items + 34 * import_count items + 36 * extrinsic_count items) as Hsum.
  { clear. induction items as [|w l IH]; cbn [sum_of length]; [done|]. rewrite IH. lia. }
  unfold MAXIMUM_SIZE_AUDITABLE_BUNDLE. lia.
Qed.

(** The bundle of a valid package is within the limit the guarantees are held to. *)
Lemma bundle_fits_run data package mappings bundle : gp_small gp -> validate_work_package gp package = Ret tt ->
  assemble_bundle hash Vec_H256_encode gp data package mappings = Ret bundle -> blen bundle <= MAXIMUM_SIZE_AUDITABLE_BUNDLE gp.
Proof using BundleCodecLaws0.
  intros Hsmall Hvalid (blobs & segments & proofs & Hx & Hs & Hp & ->)%assembled.
  destruct (proof_depth_bound Hsmall) as [Hdepth Hk].
  assert (Forall2 (names_blob hash) (concat (map wi_extrinsic (wp_items package))) (concat blobs)) as Hblobs.
  { apply Forall2_concat_map. apply map_ret_spec in Hx. eapply Forall2_impl; [exact Hx|]. intros item l. apply extrinsic_data_blobs. }
  apply blobs_length in Hblobs. rewrite sum_of_concat in Hblobs.
  apply imports_concat in Hs as (l & Hl & ->). apply imports_concat in Hp as (l' & Hl' & ->). assert (l' = l) as -> by congruence.
  apply imports_length in Hl as [Hseg Hproofs]; [|lia]. rewrite import_count_concat in Hseg, Hproofs.
  pose proof (package_encoding package Hsmall Hvalid) as Henc. rewrite !blen_app, Hblobs, Hseg. unfold blen in Hblobs.
  specialize (Henc ltac:(lia)). rewrite Hk in Henc. lia.
Qed.
End lengths.

(** ** The properties *)

(** C11: What a bundle holds is what the package names: after the package, for every item, a blob
    of the hash and length of each of its extrinsics, and for each of its imports a segment,
    then the proofs of the segments.  Every list of segments with the root an import refers
    to has the import's segment at its index, unless the hash function collides, or is zero,
    on the strings hashed for the root of that list and for the segment with its proof.  The
    refinements are given the same blobs and segments. *)
Theorem bundle_authentic {AI} `{FetchCodec RefinementContext AI} hash `{!HashLaws hash} Vec_H256_encode gp data package mappings bundle :
  assemble_bundle hash Vec_H256_encode gp data package mappings = Ret bundle ->
  exists blobs imported,
    map_ret (extrinsic_data hash data) (wp_items package) = Ret blobs /\
    map_ret (import_segments hash gp data mappings) (wp_items package) = Ret (map (map segment) imported) /\
    bundle = WorkPackage_to_jam_bytes package ++ concat (concat blobs) ++ concat (map segment (concat imported))
               ++ concat (map Vec_H256_encode (map justification (concat imported))) /\
    Forall2 (fun item => Forall2 (names_blob hash) (wi_extrinsic item)) (wp_items package) blobs /\
    Forall2 (fun item => Forall2 (names_import hash mappings) (wi_import_segments item)) (wp_items package) imported.
Proof.
  intros (blobs & segments & proofs & Hx & Hs & Hp & ->)%assembled. pose proof Hs as (imported & Himp & ->)%verified_items.
  apply verified_items in Hp as (imported' & Himp' & ->). assert (imported' = imported) as -> by congruence.
  exists blobs, imported. rewrite !concat_map. split_and!; try done.
  - apply map_ret_spec in Hx. eapply Forall2_impl; [exact Hx|]. intros item l. apply extrinsic_data_blobs.
  - apply map_ret_spec in Himp. eapply Forall2_impl; [exact Himp|]. intros item l. by apply verified_imports_named.
Qed.

(** C12: Round trip of the wire form: the bundle assembled from the data that [from_parts] makes
    of a package's extrinsics, segments and proofs is the package followed by these
    extrinsics, these segments and these proofs, in their order, or two of the extrinsics
    have the same hash. *)
Theorem bundle_of_parts {AI} `{FetchCodec RefinementContext AI} hash Vec_H256_encode gp package xs ss ps mappings data bundle :
  from_parts hash package xs ss ps = Ret data ->
  assemble_bundle hash Vec_H256_encode gp data package mappings = Ret bundle ->
  bundle = WorkPackage_to_jam_bytes package ++ concat xs ++ concat ss ++ concat (map Vec_H256_encode ps) \/ collision_among hash xs.
Proof. apply parts_assembled. Qed.

(** The parts of a package are honest: each extrinsic is the blob its manifest names; each import
    refers to the root of a list of exports, and comes with the segment at its index and the
    proof [trace] gives. *)
Record honest_parts (hash : bytes -> bytes) (gp : GpConstants) (mappings : list (bytes * bytes)) (exports : bytes * Z -> list bytes)
    (manifests entries : list (bytes * Z)) (xs ss : list bytes) (ps : list (list bytes)) : Prop := {
  hp_extrinsics : Forall2 (names_blob hash) manifests xs;
  hp_exports : forall e, e ∈ entries -> Z.of_nat (length (exports e)) <= MAXIMUM_NUMBER_EXPORTS_WORK_PACKAGE gp /\
    Forall (fun s => blen s = EC_SEGMENT_SIZE) (exports e) /\
    resolve_import_root mappings (import_reference e) = Ret (constant_depth_root hash (exports e));
  hp_segments : Forall2 (fun e s => exports e !! Z.to_nat (segment_index e) = Some s) entries ss;
  hp_proofs : Forall2 (fun e p => trace hash (exports e) (segment_index e) = Some p) entries ps
}.

Lemma Forall2_function {A B} (f : A -> option B) (d : B) l l' : Forall2 (fun x y => f x = Some y) l l' -> l' = map (fun x => default d (f x)) l.
Proof. induction 1 as [|x y l l' Hy _ IH]; cbn; [done|]. by rewrite Hy, <-IH. Qed.

(** Completeness: honest parts make the data from which the package's bundle is assembled. *)
Theorem honest_parts_bundle {AI} `{FetchCodec RefinementContext AI} hash `{!HashLaws hash} Vec_H256_encode gp package mappings exports xs ss ps :
  honest_parts hash gp mappings exports (concat (map wi_extrinsic (wp_items package))) (concat (map wi_import_segments (wp_items package))) xs ss ps ->
  (exists data, from_parts hash package xs ss ps = Ret data /\
     assemble_bundle hash Vec_H256_encode gp data package mappings =
     Ret (WorkPackage_to_jam_bytes package ++ concat xs ++ concat ss ++ concat (map Vec_H256_encode ps))) \/ collision_among hash xs.
Proof.
  set (manifests := concat (map wi_extrinsic _)). set (entries := concat (map wi_import_segments _)). intros [Hx Hexp Hs Hp].
  set (imported := fun e => mkImported (default [] (exports e !! Z.to_nat (segment_index e))) (default [] (trace hash (exports e) (segment_index e)))).
  assert (exists data, from_parts hash package xs ss ps = Ret data) as [data Hdata].
  { unfold from_parts. fold manifests entries. rewrite <-(Forall2_length _ _ _ Hx), <-(Forall2_length _ _ _ Hs), <-(Forall2_length _ _ _ Hp), !Nat.eqb_refl. cbn.
    destruct (add_extrinsics_total hash manifests xs (mkBundleData ∅ ∅) Hx) as [d Hd]. rewrite Hd. cbn.
    apply (add_extrinsics_spec hash xs) in Hd as (_ & Hi & _); [|symmetry; by eapply Forall2_length|done..].
    rewrite (Forall2_function _ [] _ _ Hs), (Forall2_function _ [] _ _ Hp). apply (add_imports_total imported). by rewrite Hi. }
  pose proof Hdata as (_ & Hd & Hin & Hss & Hps & Heq)%from_parts_spec. fold manifests entries in Hin, Hss, Hps, Heq.
  destruct (kept_blobs hash xs data manifests xs Hx ltac:(done) Hd Hin) as [Hkept|]; [|by right].
  destruct (assemble_total hash Vec_H256_encode gp data package mappings) as [bundle Hb].
  - intros item Hitem. apply map_ret_total. intros m Hm. destruct (Hkept m) as (b & -> & Hh & Hl); [by eapply elem_of_concat_map|].
    rewrite Hl, Z.eqb_refl, bool_decide_eq_true_2 by done. by eexists.
  - intros item Hitem. apply map_ret_total. intros e He. assert (e ∈ entries) as Hentry by by eapply elem_of_concat_map.
    destruct (imports_at data _ _ _ _ _ Heq Hs Hp e Hentry) as (s & p & Hi & Hes & Hep). destruct (Hexp e Hentry) as (Hmax & Hlen & Hroot).
    eexists. eapply honest_import; try done. by eapply (Forall_lookup_1 _ _ _ _ Hlen).
  - destruct (parts_assembled hash Vec_H256_encode gp _ _ _ _ _ _ _ Hdata Hb) as [<-|]; [left|by right]. by exists data.
Qed.
