(* ===== verification/Refinement.v ===== *)
(** * The computation of a work report

    [Refinement.compute_work_report] of [refinement.py] with the two invocations of
    [hostcalls/invocation.py] it makes: whether the package is authorised, then each item
    refined, with what the items may import from the bundle's data ([Availability]).

    A guarantor computes reports, and every validator checks the reports of the others
    ([Guarantees]).  [computed_report_admissible] shows that the first satisfies the second:
    what this function returns passes every check that concerns the report alone. *)

From Stdlib Require Import ZArith Lia Bool List.
From stdpp Require Import base numbers option list sets gmap.
From S2P Require Import Prelude Constants Graypaper Defs BasicBlock Interp Program Merkle Invocation HostCalls StateBase Sums Reports Storage Accounts Guarantees Refine Availability.
Import ListNotations.

#[local] Open Scope Z_scope.

(** A computation whose invocations may not end. *)
Definition work (A : Type) : Type := option (outcome work_exn A).
#[export] Instance work_ret : MRet work := fun A a => Some (Ret a).
#[export] Instance work_bind : MBind work := fun A B k m =>
  match m with Some (Ret a) => k a | Some (Raise e) => Some (Raise e) | None => None end.

Definition of_work {A} (r : outcome work_exn A) : work A := Some r.
Definition of_run {A} (r : option (outcome exn A)) : work A :=
  match r with None => None | Some (Ret a) => Some (Ret a) | Some (Raise e) => Some (Raise (InRun e)) end.

(** ** The invocations *)

(** Both start at the first instruction. *)
Definition PVM_MARSHALLING_OFFSET_AUTH : Z := 0.
Definition PVM_MARSHALLING_OFFSET_REFINE : Z := 0.

Record PvmIsAuthorizedOutput : Type := mkIsAuthorized { ia_result : WorkExecResult; ia_gas_used : Z }.
Record PvmRefineOutput : Type := mkRefineOutput { ro_result : WorkExecResult; ro_export_segments : list bytes; ro_gas_used : Z }.

(** [WorkExecResult.from_exit_condition]; a halt carries bytes ([Invocation.halt_data]). *)
Definition from_exit_condition (e : ExitCondition) : outcome exn WorkExecResult :=
  match ec_reason e, ec_value e with
  | ExitReason.out_of_gas, _ => Ret out_of_gas
  | ExitReason.panic, _ => Ret panic
  | ExitReason.halt, EBytes bs => Ret (ok bs)
  | _, _ => Raise PyException
  end.

Definition ok_of (r : WorkExecResult) : option bytes := match r with ok bs => Some bs | _ => None end.

Section refinement.
Context {J : Type} {jam : JamCodec J} {S : Type} {lookups : ServicesState S}.
Context {AI : Type} {fetch : FetchCodec RefinementContext AI}.
Context (hash : bytes -> bytes) (after_metadata : bytes -> bytes) (Bytes_encode : bytes -> bytes).
Context (Vec_H256_encode : list bytes -> bytes) (encode_shards : bytes -> Z -> Z -> list bytes).
Context (gp : GpConstants).

(** [WorkPackage.hash] and [authorizer_hash] *)
Definition package_hash (package : Package) : bytes := hash (WorkPackage_to_jam_bytes package).
Definition authorizer_hash (package : Package) : bytes := hash (wp_auth_code_hash package ++ wp_authorizer_config package).

(** [set_authorization_code]: the program without its metadata; an empty preimage is none. *)
Definition authorization_code (services : S) (package : Package) : outcome exn (option bytes) :=
  preimage ← historical_preimage_lookup services (wp_auth_code_host package) (rc_lookup_anchor_slot (wp_context package)) (wp_auth_code_hash package);
  Ret (match preimage with
       | Some (b :: blob) => Some (after_metadata (b :: blob))
       | _ => None
       end).

Definition pvm_invoke_is_authorized (services : S) (package : Package) (core_index : Z) : option (outcome exn PvmIsAuthorizedOutput) :=
  match authorization_code services package with
  | Raise e => Some (Raise e)
  | Ret None => Some (Ret (mkIsAuthorized bad_code 0))
  | Ret (Some code) =>
      if MAXIMUM_SIZE_IS_AUTH_CODE gp <? blen code then Some (Ret (mkIsAuthorized code_oversize 0))
      else
        match @pvm_invoke_marshalling J jam unit (is_authorized_mutator gp package) code PVM_MARSHALLING_OFFSET_AUTH (GAS_INVOKE gp)
                (U16_encode core_index) tt with
        | None => None
        | Some (Raise e) => Some (Raise e)
        | Some (Ret m) => Some (r ← from_exit_condition (pm_exit_condition m); Ret (mkIsAuthorized r (pm_gas_used m)))
        end
  end.

(** [RefinePvmArguments] *)
Definition refine_arguments (core_index index : Z) (item : WorkItem) (package : Package) : bytes :=
  VarInt64_encode core_index ++ VarInt64_encode index ++ VarInt64_encode (wi_service item) ++ Bytes_encode (wi_payload item) ++ package_hash package.

Definition refine_mutator_of (services : S) (package : Package) (trace : bytes) (segments blobs : list (list bytes)) (index offset : Z) (item : WorkItem)
    : RefineMutator (S := S) RefinementContext :=
  mkRefineMutator _ trace segments offset services (wi_service item) (rc_lookup_anchor_slot (wp_context package)) index package blobs gp.

Definition pvm_invoke_refine (services : S) (package : Package) (core_index index : Z) (trace : bytes) (segments blobs : list (list bytes)) (offset : Z)
    (item : WorkItem) : option (outcome exn PvmRefineOutput) :=
  match historical_preimage_lookup services (wi_service item) (rc_lookup_anchor_slot (wp_context package)) (wi_code_hash item) with
  | Raise e => Some (Raise e)
  | Ret None => Some (Ret (mkRefineOutput bad_code [] 0))
  | Ret (Some blob) =>
      if MAXIMUM_SIZE_SERVICE_CODE gp <? blen blob then Some (Ret (mkRefineOutput code_oversize [] 0))
      else
        match @pvm_invoke_marshalling J jam RefineInvocationContext
                (refine_mutator (AI := AI) (refine_mutator_of services package trace segments blobs index offset item))
                (after_metadata blob) PVM_MARSHALLING_OFFSET_REFINE (wi_refine_gas_limit item)
                (refine_arguments core_index index item package) (mkRefine ∅ []) with
        | None => None
        | Some (Raise e) => Some (Raise e)
        | Some (Ret m) => Some (r ← from_exit_condition (pm_exit_condition m); Ret (mkRefineOutput r (export_segments (pm_context m)) (pm_gas_used m)))
        end
  end.

(** ** The report *)

(** [WorkDigest.from_work_item] *)
Definition from_work_item (item : WorkItem) (result : WorkExecResult) (gas_used : Z) : WorkDigest :=
  mkWorkDigest (wi_service item) (wi_code_hash item) (hash (wi_payload item)) (wi_accumulate_gas_limit item) result
    (mkRefineLoad gas_used (Z.of_nat (length (wi_import_segments item))) (Z.of_nat (length (wi_extrinsic item))) (sum_of snd (wi_extrinsic item))
       (wi_export_count item)).

(** What an item's refinement counts as: too large a result, too many or too few exports, or the result. *)
Definition judged (output_size : Z) (item : WorkItem) (output : PvmRefineOutput) : WorkExecResult :=
  if MAXIMUM_SIZE_ENCODED_WORK_REPORT gp <? output_size + blen (default [] (ok_of (ro_result output))) then digest_oversize
  else if negb (Z.of_nat (length (ro_export_segments output)) =? wi_export_count item) then bad_exports
  else ro_result output.

Definition zero_segment : bytes := replicate (Z.to_nat EC_SEGMENT_SIZE) 0.

(** The loop over the items, with the digests and exports of the rest. *)
Fixpoint refine_items (refine : Z -> Z -> WorkItem -> option (outcome exn PvmRefineOutput)) (items : list WorkItem) (index output_size export_offset : Z)
    : work (list WorkDigest * list bytes) :=
  match items with
  | [] => mret ([], [])
  | item :: items =>
      output ← of_run (refine index export_offset item);
      let result := judged output_size item output in
      let item_exports := match ok_of result with Some _ => ro_export_segments output | None => replicate (Z.to_nat (wi_export_count item)) zero_segment end in
      let output_size := output_size + blen (default [] (ok_of result)) in
      rest ← refine_items refine items (index + 1) output_size (export_offset + wi_export_count item);
      mret (from_work_item item result (ro_gas_used output) :: rest.1, item_exports ++ rest.2)
  end.

(** The report, with the bundle and the exports that the object keeps. *)
Definition compute_work_report (services : S) (data : BundleData) (package : Package) (core_index : Z) (mappings : list (bytes * bytes)) (erasure_shards : Z)
    : work (WorkReport * bytes * list bytes) :=
  let items := wp_items package in
  _ ← of_work (validate_work_package gp package);
  _ ← of_work (if (0 <=? core_index) && (core_index <? CORE_COUNT gp) then Ret tt else refuse);
  _ ← of_work (match erasure_data_shards gp erasure_shards with Raise WorkValueError => refuse | r => r end);
  _ ← of_work (if bool_decide (list_to_set (map fst mappings) = expected_mappings items) then Ret tt else refuse);
  bundle ← of_work (assemble_bundle hash Vec_H256_encode gp data package mappings);
  blobs ← of_work (map_ret (extrinsic_data hash data) items);
  segments ← of_work (map_ret (import_segments hash gp data mappings) items);
  authorization ← of_run (pvm_invoke_is_authorized services package core_index);
  trace ← of_work (match ok_of (ia_result authorization) with Some trace => Ret trace | None => refuse end);
  _ ← of_work (if MAXIMUM_SIZE_ENCODED_WORK_REPORT gp <? blen trace then refuse else Ret tt);
  out ← refine_items (fun index offset => pvm_invoke_refine services package core_index index trace segments blobs offset) items 0 (blen trace) 0;
  let exports := out.2 in
  spec ← of_work (availability_spec hash Vec_H256_encode encode_shards gp (package_hash package) bundle exports erasure_shards);
  mret (mkWorkReport spec (wp_context package) core_index (authorizer_hash package) (ia_gas_used authorization) trace mappings out.1, bundle, exports).
End refinement.

(** * Properties *)

(** ** What is used and produced *)

Lemma marshalling_gas {J} `{JamCodec J} {X} `{InvocationMutator X} serialized pc0 g0 args x m : 0 <= g0 ->
  pvm_invoke_marshalling serialized pc0 g0 args x = Some (Ret m) -> pm_gas_used m <= g0.
Proof.
  intros Hg. unfold pvm_invoke_marshalling. destruct (Program.from_serialized_bytes _ _) as [[p|]|]; [|intros [= <-]; cbn; lia|done].
  destruct (new_interpreter p); [|done]. destruct (pvm_invoke_host_call _ _ _ _) as [[[out|] ?]|]; [|done..].
  intros [= <-]. cbn. lia.
Qed.

Lemma sum_by_of {A} (f : A -> Z) l : sum_by f l = sum_of f l.
Proof. induction l as [|x l IH]; [done|]. cbn. unfold sum_by in IH. by rewrite IH. Qed.

Lemma sum_of_Forall2 {A B} (f : A -> Z) (g : B -> Z) l l' : Forall2 (fun x y => g y = f x) l l' -> sum_of g l' = sum_of f l.
Proof. induction 1; cbn; lia. Qed.

Section items.
Context (hash : bytes -> bytes) (gp : GpConstants).
Context (refine : Z -> Z -> WorkItem -> option (outcome exn PvmRefineOutput)).

(** The digest of an item says what the item says, and how much gas its refinement used. *)
Definition digest_of (item : WorkItem) (d : WorkDigest) : Prop :=
  exists result gas_used, d = from_work_item hash item result gas_used /\ gas_used <= wi_refine_gas_limit item.

Lemma refine_items_spec items : forall index size offset digests exports,
  (forall index offset item output, item ∈ items -> refine index offset item = Some (Ret output) -> ro_gas_used output <= wi_refine_gas_limit item) ->
  Forall (fun item => 0 <= wi_export_count item) items -> size <= MAXIMUM_SIZE_ENCODED_WORK_REPORT gp ->
  refine_items hash gp refine items index size offset = Some (Ret (digests, exports)) ->
  Forall2 digest_of items digests /\ Z.of_nat (length exports) = sum_of wi_export_count items /\
  size + sum_of (fun d => ok_length (wd_result d)) digests <= MAXIMUM_SIZE_ENCODED_WORK_REPORT gp.
Proof using.
  induction items as [|item items IH]; intros index size offset digests exports Hgas Hcounts Hsize; cbn [refine_items].
  { intros [= <- <-]. cbn. split_and!; [done|done|lia]. }
  destruct (refine index offset item) as [[output|]|] eqn:Hr; [|done..]. cbn [of_run mbind work_bind].
  set (result := judged gp size item output). destruct (refine_items _ _ _ _ _ _ _) as [[[ds es]|]|] eqn:Hrest; [|done..].
  cbn. intros [= <- <-]. inversion Hcounts as [|? ? Hc Hcounts']; subst.
  assert (size + ok_length result <= MAXIMUM_SIZE_ENCODED_WORK_REPORT gp /\ blen (default [] (ok_of result)) = ok_length result /\
          Z.of_nat (length (match ok_of result with Some _ => ro_export_segments output | None => replicate (Z.to_nat (wi_export_count item)) zero_segment end))
          = wi_export_count item) as (Hok & Hlen & Hexports).
  { unfold result, judged. destruct (Z.ltb_spec (MAXIMUM_SIZE_ENCODED_WORK_REPORT gp) (size + blen (default [] (ok_of (ro_result output))))) as [|Hfits];
      [cbn; unfold blen; cbn; rewrite length_replicate; lia|].
    destruct (Z.eqb_spec (Z.of_nat (length (ro_export_segments output))) (wi_export_count item)); [|cbn; unfold blen; cbn; rewrite length_replicate; lia].
    cbn [negb]. unfold blen in *. destruct (ro_result output); cbn in *; unfold ok_length, wd_result; rewrite ?length_replicate; lia. }
  rewrite Hlen in Hrest. destruct (IH _ _ _ _ _ ltac:(intros; eapply Hgas; [apply elem_of_cons; by right|done]) Hcounts' Hok Hrest) as (Hd & He & Hs).
  split_and!.
  - constructor; [|done]. exists result, (ro_gas_used output). split; [done|]. eapply Hgas; [apply elem_of_cons; by left|exact Hr].
  - cbn. rewrite length_app, Nat2Z.inj_add, Hexports, He. done.
  - cbn. lia.
Qed.
End items.

Section report_laws.
Context {J : Type} {jam : JamCodec J} {S : Type} {lookups : ServicesState S}.
Context {AI : Type} {fetch : FetchCodec RefinementContext AI}.
Context (hash : bytes -> bytes) (after_metadata : bytes -> bytes) (Bytes_encode : bytes -> bytes).
Context (Vec_H256_encode : list bytes -> bytes) (encode_shards : bytes -> Z -> Z -> list bytes).
Context (gp : GpConstants).

Abbreviation compute_work_report := (compute_work_report hash after_metadata Bytes_encode Vec_H256_encode encode_shards gp).

(** The way to a report. *)
Lemma report_computed services data package core_index mappings v w bundle exports :
  compute_work_report services data package core_index mappings v = Some (Ret (w, bundle, exports)) ->
  validate_work_package gp package = Ret tt /\ 0 <= core_index < CORE_COUNT gp /\ valid_validator_count v (CORE_COUNT gp) = true /\
  list_to_set (map fst mappings) = expected_mappings (wp_items package) /\
  assemble_bundle hash Vec_H256_encode gp data package mappings = Ret bundle /\
  exists blobs segments authorization trace digests spec,
    map_ret (extrinsic_data hash data) (wp_items package) = Ret blobs /\
    map_ret (import_segments hash gp data mappings) (wp_items package) = Ret segments /\
    pvm_invoke_is_authorized after_metadata gp services package core_index = Some (Ret authorization) /\
    ia_result authorization = ok trace /\ blen trace <= MAXIMUM_SIZE_ENCODED_WORK_REPORT gp /\
    refine_items hash gp (fun index offset => pvm_invoke_refine hash after_metadata Bytes_encode gp services package core_index index trace segments blobs offset)
      (wp_items package) 0 (blen trace) 0 = Some (Ret (digests, exports)) /\
    availability_spec hash Vec_H256_encode encode_shards gp (package_hash hash package) bundle exports v = Ret spec /\
    w = mkWorkReport spec (wp_context package) core_index (authorizer_hash hash package) (ia_gas_used authorization) trace mappings digests.
Proof using.
  unfold Refinement.compute_work_report. cbv zeta. unfold of_work.
  destruct (validate_work_package gp package) as [[]|] eqn:Hvalid; [|done]. cbn [mbind work_bind].
  destruct (Z.leb_spec 0 core_index), (Z.ltb_spec core_index (CORE_COUNT gp)); try done. cbn [andb mbind work_bind].
  destruct (erasure_data_shards gp v) as [d|e] eqn:Hd; [|by destruct e]. cbn [mbind work_bind].
  case_bool_decide as Hm; [|done]. cbn [mbind work_bind].
  destruct (assemble_bundle _ _ _ _ _ _) as [b|] eqn:Hb; [|done]. cbn [mbind work_bind].
  destruct (map_ret (extrinsic_data hash data) _) as [blobs|] eqn:Hx; [|done]. cbn [mbind work_bind].
  destruct (map_ret (import_segments _ _ _ _) _) as [segments|] eqn:Hs; [|done]. cbn [mbind work_bind].
  destruct (pvm_invoke_is_authorized _ _ _ _ _) as [[auth|]|] eqn:Ha; [|done..]. cbn [of_run mbind work_bind].
  destruct (ia_result auth) as [trace| | | | | | ] eqn:Htrace; try done. cbn [ok_of mbind work_bind].
  destruct (Z.ltb_spec (MAXIMUM_SIZE_ENCODED_WORK_REPORT gp) (blen trace)); [done|]. cbn [mbind work_bind].
  destruct (refine_items _ _ _ _ _ _ _) as [[[digests es]|]|] eqn:Hr; [|done..]. cbn [mbind work_bind fst snd].
  destruct (availability_spec _ _ _ _ _ _ _ _) as [spec|] eqn:Hspec; [|done]. cbn. intros [= <- <- <-].
  apply erasure_data_shards_greatest in Hd as (Hv & _). split_and!; try done. exists blobs, segments, auth, trace, digests, spec. by split_and!.
Qed.
End report_laws.

(** ** The report and its checks *)

Section admissible.
Context {J : Type} {jam : JamCodec J} {S : Type} {lookups : ServicesState S}.
Context {AI : Type} {fetch : FetchCodec RefinementContext AI}.
Context (hash : bytes -> bytes) (after_metadata : bytes -> bytes) (Bytes_encode : bytes -> bytes).
Context (gp : GpConstants).

Lemma is_authorized_gas services package core_index out : 0 <= GAS_INVOKE gp ->
  pvm_invoke_is_authorized after_metadata gp services package core_index = Some (Ret out) -> ia_gas_used out <= GAS_INVOKE gp.
Proof using.
  intros Hg. unfold pvm_invoke_is_authorized. destruct (authorization_code _ _ _) as [[code|]|]; [|intros [= <-]; cbn; lia|done].
  destruct (_ <? _); [intros [= <-]; cbn; lia|]. destruct (pvm_invoke_marshalling _ _ _ _ _) as [[m|]|] eqn:Hm; [|done..].
  destruct (from_exit_condition _); [|done]. intros [= <-]. cbn. by eapply marshalling_gas in Hm.
Qed.

Lemma refine_gas services package core_index index trace segments blobs offset item out : 0 <= wi_refine_gas_limit item ->
  pvm_invoke_refine hash after_metadata Bytes_encode gp services package core_index index trace segments blobs offset item = Some (Ret out) ->
  ro_gas_used out <= wi_refine_gas_limit item.
Proof using.
  intros Hg. unfold pvm_invoke_refine. destruct (historical_preimage_lookup _ _ _ _) as [[blob|]|]; [|intros [= <-]; cbn; lia|done].
  destruct (_ <? _); [intros [= <-]; cbn; lia|]. destruct (pvm_invoke_marshalling _ _ _ _ _) as [[m|]|] eqn:Hm; [|done..].
  destruct (from_exit_condition _); [|done]. intros [= <-]. cbn. by eapply marshalling_gas in Hm.
Qed.

(** Sums over the digests are sums over the items. *)
Lemma digest_sum (f : WorkDigest -> Z) (g : WorkItem -> Z) items digests :
  (forall item result gas_used, f (from_work_item hash item result gas_used) = g item) ->
  Forall2 (digest_of hash) items digests -> sum_by f digests = sum_of g items.
Proof using.
  intros Hf Hd. rewrite sum_by_of. apply sum_of_Forall2. eapply Forall2_impl; [exact Hd|]. intros item d (r & g0 & -> & _). apply Hf.
Qed.

Lemma digest_gas items digests : Forall2 (digest_of hash) items digests ->
  sum_by (fun d => rl_gas_used (wd_refine_load d)) digests <= sum_of wi_refine_gas_limit items.
Proof using. rewrite sum_by_of. induction 1 as [|item d items ds (r & g & -> & Hg) _ IH]; cbn in *; lia. Qed.

Lemma mapping_count (mappings : list (bytes * bytes)) (expected : gset bytes) :
  NoDup (map fst mappings) -> list_to_set (map fst mappings) = expected -> size expected = length mappings.
Proof using. intros Hnd <-. rewrite size_list_to_set by done. by rewrite length_map. Qed.

(** The footprint of the package bounds what its items import and read. *)
Lemma footprint_loads package :
  sum_of (fun w => Z.of_nat (length (wi_import_segments w))) (wp_items package) * IMPORT_SEGMENT_FOOTPRINT gp
    + sum_of (fun w => sum_of snd (wi_extrinsic w)) (wp_items package) <= package_footprint gp package.
Proof using.
  unfold package_footprint. set (k := IMPORT_SEGMENT_FOOTPRINT gp).
  assert (forall l, sum_of (fun w => Z.of_nat (length (wi_import_segments w))) l * k + sum_of (fun w => sum_of snd (wi_extrinsic w)) l <=
    sum_of (fun w => blen (wi_payload w) + Z.of_nat (length (wi_import_segments w)) * k + sum_of snd (wi_extrinsic w)) l) as Hl.
  { induction l as [|w l IH]; cbn; [lia|]. unfold blen in *. lia. }
  specialize (Hl (wp_items package)). unfold blen in *. lia.
Qed.
End admissible.

(** ** It always ends *)

Lemma map_ret_raise {A B} (f : A -> outcome work_exn B) l e : map_ret f l = Raise e -> exists x, x ∈ l /\ f x = Raise e.
Proof.
  induction l as [|x l IH]; cbn; [done|]. destruct (f x) as [y|e'] eqn:Hx; cbn.
  - destruct (map_ret f l); [done|]. cbn. intros [= ->]. destruct (IH eq_refl) as (x' & Hin & He). exists x'. split; [apply elem_of_cons; by right|done].
  - intros [= ->]. exists x. split; [apply elem_of_cons; by left|done].
Qed.

(** Assembling and importing raise nothing else. *)
Lemma extrinsic_data_raise hash data item e : extrinsic_data hash data item = Raise e -> e = ProcessWorkpackageError.
Proof.
  intros (m & _ & He)%map_ret_raise. cbn in He. destruct (_ !! _); [|by injection He]. destruct (_ || _); [by injection He|done].
Qed.

Lemma verified_imports_raise hash gp data mappings item e : verified_imports hash gp data mappings item = Raise e -> e = ProcessWorkpackageError.
Proof.
  intros (m & _ & He)%map_ret_raise. unfold verified_import in He. destruct (imports data !! m); [|by injection He].
  destruct (_ || _); [by injection He|]. unfold resolve_import_root in He. destruct (import_reference m); cbn in He.
  - destruct (verify _ _ _ _ _); [done|by injection He].
  - destruct (_ !! _); cbn in He; [destruct (verify _ _ _ _ _); [done|by injection He]|by injection He].
Qed.

Lemma assemble_bundle_raise {AI} `{FetchCodec RefinementContext AI} hash Vec_H256_encode gp data package mappings e :
  assemble_bundle hash Vec_H256_encode gp data package mappings = Raise e -> e = ProcessWorkpackageError.
Proof.
  unfold assemble_bundle. destruct (map_ret (extrinsic_data hash data) _) eqn:Hx.
  2: { intros [= ->]. apply map_ret_raise in Hx as (? & _ & Hx). by eapply extrinsic_data_raise. }
  cbn. destruct (map_ret (import_segments _ _ _ _) _) eqn:Hs.
  2: { intros [= ->]. apply map_ret_raise in Hs as (item & _ & Hs). unfold import_segments in Hs.
       destruct (verified_imports _ _ _ _ _) eqn:Hv; [done|]. injection Hs as ->. by eapply verified_imports_raise. }
  cbn. destruct (map_ret (import_justifications _ _ _ _) _) eqn:Hp; [done|].
  intros [= ->]. apply map_ret_raise in Hp as (item & _ & Hp). unfold import_justifications in Hp.
  destruct (verified_imports _ _ _ _ _) eqn:Hv; [done|]. injection Hp as ->. by eapply verified_imports_raise.
Qed.

(** A computation that ends, with a value that satisfies [P] or with one of the two exceptions. *)
Definition ends {A} (P : A -> Prop) (r : work A) : Prop :=
  (exists a, r = Some (Ret a) /\ P a) \/ exists e, r = Some (Raise e) /\ (e = ProcessWorkpackageError \/ e = InRun PVMMemoryError).

Lemma work_ends_bind {A B} (P : A -> Prop) (Q : B -> Prop) (m : work A) (k : A -> work B) :
  ends P m -> (forall a, P a -> ends Q (k a)) -> ends Q (m ≫= k).
Proof. intros [(a & -> & Ha)|(e & -> & He)] Hk; [by apply Hk|]. right. by exists e. Qed.

Lemma ends_of {A} (P : A -> Prop) (r : outcome work_exn A) : (forall a, r = Ret a -> P a) -> (forall e, r = Raise e -> e = ProcessWorkpackageError) -> ends P (of_work r).
Proof. intros Ha He. destruct r as [a|e]; [left; exists a; split; [done|by apply Ha]|right]. exists e. split; [done|]. left. by apply He. Qed.

Lemma map_ret_only {A B} (f : A -> outcome work_exn B) l e : (forall x e, f x = Raise e -> e = ProcessWorkpackageError) -> map_ret f l = Raise e -> e = ProcessWorkpackageError.
Proof. intros Hf (x & _ & Hx)%map_ret_raise. by eapply Hf. Qed.

Lemma import_segments_raise hash gp data mappings item e : import_segments hash gp data mappings item = Raise e -> e = ProcessWorkpackageError.
Proof. unfold import_segments. destruct (verified_imports _ _ _ _ _) eqn:Hv; [done|]. intros [= ->]. by eapply verified_imports_raise. Qed.

Lemma validate_work_package_raise gp package e : validate_work_package gp package = Raise e -> e = ProcessWorkpackageError.
Proof.
  unfold validate_work_package. cbv zeta. repeat match goal with |- context [if ?b then _ else _] => destruct b end; congruence.
Qed.

(** What the invocations rely on: the laws of the libraries, data of bytes, a well-formed package. *)
Record computation_ok {AI} `{FetchCodec RefinementContext AI} (after_metadata Bytes_encode : bytes -> bytes) (data : BundleData) (package : Package) : Prop := {
  co_metadata : forall b, List.Forall is_byte b -> List.Forall is_byte (after_metadata b);
  co_encode : forall b, List.Forall is_byte b -> List.Forall is_byte (Bytes_encode b);
  co_extrinsics : map_Forall (fun _ b => blob_ok b) (extrinsics data);
  co_imports : map_Forall (fun _ i => blob_ok (segment i)) (imports data);
  co_items : List.Forall work_item_ok (wp_items package);
  co_authorization : blob_ok (wp_authorization package) /\ blob_ok (wp_authorizer_config package)
}.

Section ends.
Context {J : Type} {jam : JamCodec J} `{!JamCodecLaws J} {S : Type} {lookups : ServicesState S} `{!ServicesLaws S}.
Context {AI : Type} {fetch : FetchCodec RefinementContext AI} `{!FetchCodecLaws RefinementContext AI}.
Context (hash : bytes -> bytes) `{!HashLaws hash} (after_metadata : bytes -> bytes) (Bytes_encode : bytes -> bytes).
Context (Vec_H256_encode : list bytes -> bytes) (encode_shards : bytes -> Z -> Z -> list bytes) `{!ErasureLaws Vec_H256_encode encode_shards}.
Context (gp : GpConstants) (Hsmall : gp_small gp).
Context (data : BundleData) (package : Package) (Hok : computation_ok after_metadata Bytes_encode data package).
Context (Hcount : Z.of_nat (length (wp_items package)) < 2 ^ 7).

(** The condition an invocation ends with is a result, and what it carries are bytes. *)
Lemma from_exit_run e : ec_reason e ∈ [ExitReason.halt; ExitReason.panic; ExitReason.out_of_gas] -> halt_data e ->
  exists r, from_exit_condition e = Ret r /\ forall bs, r = ok bs -> List.Forall is_byte bs.
Proof using.
  intros Hin Hdata. unfold from_exit_condition. destruct (ec_reason e) eqn:Hr; try (exfalso; clear -Hin; set_solver).
  - destruct (Hdata Hr) as (bs & -> & Hbs). eexists. split; [done|]. by intros ? [= <-].
  - eexists. by split.
  - eexists. by split.
Qed.

Lemma is_authorized_run services core_index : exists out, pvm_invoke_is_authorized after_metadata gp services package core_index = Some (Ret out) /\
  forall bs, ia_result out = ok bs -> List.Forall is_byte bs.
Proof using Hsmall Hok Hcount JamCodecLaws0 ServicesLaws0 FetchCodecLaws0.
  destruct Hok as [Hmeta _ _ _ Hitems Hauth].
  assert (Hfetch : fetch_ok (is_authorized_fetch (AI := AI) gp package)) by (split; cbn; try done; split_and!; try done; try lia; apply Hauth).
  unfold pvm_invoke_is_authorized, authorization_code.
  edestruct (historical_preimage_ok services) as (v & -> & Hv). cbn [mbind outcome_bind].
  destruct v as [[|b blob]|]; [eexists; by split| |eexists; by split]. set (code := after_metadata _).
  destruct (_ <? _); [eexists; by split|].
  assert (List.Forall is_byte code) as Hbytes by (destruct Hv as [Hv _]; by apply Hmeta).
  destruct (@invoke_marshalling_run J jam _ unit (is_authorized_mutator gp package) (is_authorized_mutator_laws gp package Hfetch)
    code PVM_MARSHALLING_OFFSET_AUTH (GAS_INVOKE gp) (U16_encode core_index) tt) as [(m & -> & Hin & _ & Hdata & _)|(e & _ & [])];
    [done|done|apply U16_encode_ok|apply Hsmall|].
  destruct (from_exit_run _ Hin Hdata) as (r & -> & Hr). eexists. by split.
Qed.

Section one.
Context (services : S) (core_index : Z) (trace : bytes) (segments blobs : list (list bytes)).
Context (Htrace : blob_ok trace) (Hsegments : List.Forall (List.Forall blob_ok) segments) (Hblobs : List.Forall (List.Forall blob_ok) blobs).
Context (Hlen : length blobs = length (wp_items package)).

Abbreviation refine_one index offset item := (pvm_invoke_refine hash after_metadata Bytes_encode gp services package core_index index trace segments blobs offset item).

Lemma refine_run index offset item : item ∈ wp_items package -> 0 <= index < Z.of_nat (length (wp_items package)) -> 0 <= offset ->
  (exists out, refine_one index offset item = Some (Ret out) /\ Forall (fun s => blen s = EC_SEGMENT_SIZE) (ro_export_segments out)) \/
  refine_one index offset item = Some (Raise PVMMemoryError).
Proof using Hok Hcount JamCodecLaws0 ServicesLaws0 FetchCodecLaws0 HashLaws0 Htrace Hsegments Hblobs Hlen.
  intros Hitem Hindex Hoffset. destruct Hok as [Hmeta Henc _ _ Hitems Hauth].
  assert (work_item_ok item) as Hw by (rewrite Forall_forall in Hitems; by apply Hitems).
  set (self := refine_mutator_of gp services package trace segments blobs index offset item).
  assert (Hself : refine_mutator_ok (AI := AI) self).
  { split; [done|]. split; cbn; try done; [split_and!; try done; try lia; apply Hauth|split; [by repeat constructor|done]|split; [lia|]].
    rewrite Hlen. lia. }
  unfold pvm_invoke_refine. edestruct (historical_preimage_ok services) as (v & -> & Hl).
  destruct v as [blob|]; [|left; eexists; by split]. destruct (_ <? _); [left; eexists; by split|]. destruct Hl as [Hl _].
  assert (List.Forall is_byte (refine_arguments hash Bytes_encode core_index index item package)) as Hargs.
  { unfold refine_arguments. rewrite !Forall_app. split_and!; try apply VarInt64_encode_ok; [apply Henc, Hw|unfold package_hash; apply hash_bytes]. }
  fold self. destruct (@invoke_marshalling_run J jam _ RefineInvocationContext (refine_mutator self) (refine_mutator_laws self Hself)
    (after_metadata blob) PVM_MARSHALLING_OFFSET_REFINE (wi_refine_gas_limit item) (refine_arguments hash Bytes_encode core_index index item package)
    (mkRefine ∅ [])) as [(m & -> & Hin & _ & Hdata & (b & Hctx) & _)|(e & -> & Hmay)].
  - intros b Hb. split; cbn; [apply map_Forall_empty|constructor|by left|done].
  - by apply Hmeta.
  - done.
  - apply Hw.
  - left. destruct (from_exit_run _ Hin Hdata) as (r & -> & _). eexists. split; [done|]. cbn. destruct Hctx as [_ Hsegs _ _].
    eapply List.Forall_impl; [|exact Hsegs]. by intros ? [_ ?].
  - right. by rewrite Hmay.
Qed.

(** The loop over the last items: a digest and full segments for each, or the exception of a call. *)
Lemma refine_items_run items : forall index output_size offset,
  List.Forall (fun item => item ∈ wp_items package) items -> 0 <= index -> index + Z.of_nat (length items) = Z.of_nat (length (wp_items package)) -> 0 <= offset ->
  (exists digests exports, refine_items hash gp (fun index offset => pvm_invoke_refine hash after_metadata Bytes_encode gp services package core_index index trace segments blobs offset)
     items index output_size offset = Some (Ret (digests, exports)) /\ List.Forall (fun s => blen s = EC_SEGMENT_SIZE) exports) \/
  refine_items hash gp (fun index offset => pvm_invoke_refine hash after_metadata Bytes_encode gp services package core_index index trace segments blobs offset)
     items index output_size offset = Some (Raise (InRun PVMMemoryError)).
Proof using Hok Hcount JamCodecLaws0 ServicesLaws0 FetchCodecLaws0 HashLaws0 Htrace Hsegments Hblobs Hlen.
  induction items as [|item items IH]; intros index output_size offset Hin Hindex Hsum Hoffset; cbn [refine_items].
  { left. by exists [], []. }
  inversion Hin as [|? ? Hitem Hin']; subst. cbn [length] in Hsum.
  destruct (refine_run index offset item Hitem ltac:(lia) Hoffset) as [(out & -> & Hfull)| ->]; [|by right]. cbn [of_run mbind work_bind].
  assert (0 <= wi_export_count item) as Hexports.
  { destruct Hok as [_ _ _ _ Hitems _]. rewrite List.Forall_forall in Hitems. apply Hitems. by apply list_elem_of_In. }
  edestruct (IH (index + 1)) as [(digests & exports & -> & Hrest)| ->]; [done|lia|lia| |left|by right].
  2: { cbn. eexists _, _. split; [done|]. apply Forall_app. split; [|done]. destruct (ok_of _); [done|].
       apply Forall_replicate. by unfold zero_segment, blen. }
  lia.
Qed.
End one.

(** What the items are given are bytes. *)
Lemma item_blobs blobs : map_ret (extrinsic_data hash data) (wp_items package) = Ret blobs -> List.Forall (List.Forall blob_ok) blobs /\ length blobs = length (wp_items package).
Proof using Hok.
  intros Hm%map_ret_spec. split; [|symmetry; by eapply Forall2_length]. eapply Forall2_Forall_r; [exact Hm|]. apply Forall_forall. intros item _ l Hl%map_ret_spec.
  eapply Forall2_Forall_r; [exact Hl|]. apply Forall_forall. intros m _ b Hb. destruct (extrinsics data !! m.1) as [b'|] eqn:Hb'; [|done].
  destruct (_ || _); [done|]. injection Hb as <-. by eapply (co_extrinsics _ _ _ _ Hok).
Qed.

Lemma item_segments mappings segments : map_ret (import_segments hash gp data mappings) (wp_items package) = Ret segments -> List.Forall (List.Forall blob_ok) segments.
Proof using Hok.
  intros Hm%map_ret_spec. eapply Forall2_Forall_r; [exact Hm|]. apply Forall_forall. intros item _ l Hl. unfold import_segments in Hl.
  destruct (verified_imports _ _ _ _ _) as [l'|] eqn:Hv; [|done]. injection Hl as <-. apply map_ret_spec in Hv. apply List.Forall_map.
  eapply Forall2_Forall_r; [exact Hv|]. apply Forall_forall. intros e _ i (Hi & _)%verified_import_spec. by eapply (co_imports _ _ _ _ Hok).
Qed.

(** The refinements of all items: full segments, no more than a package may export. *)
Lemma refinements_end services core_index trace segments blobs :
  sum_of wi_export_count (wp_items package) <= MAXIMUM_NUMBER_EXPORTS_WORK_PACKAGE gp -> blob_ok trace -> blen trace <= MAXIMUM_SIZE_ENCODED_WORK_REPORT gp ->
  List.Forall (List.Forall blob_ok) segments -> List.Forall (List.Forall blob_ok) blobs -> length blobs = length (wp_items package) ->
  ends (fun out => List.Forall (fun s => blen s = EC_SEGMENT_SIZE) out.2 /\ Z.of_nat (length out.2) <= MAXIMUM_NUMBER_EXPORTS_WORK_PACKAGE gp)
    (refine_items hash gp (fun index offset => pvm_invoke_refine hash after_metadata Bytes_encode gp services package core_index index trace segments blobs offset)
       (wp_items package) 0 (blen trace) 0).
Proof using Hok Hcount JamCodecLaws0 ServicesLaws0 FetchCodecLaws0 HashLaws0.
  intros Hexports Htrace Hsize Hsegments Hblobs Hlen.
  assert (Forall (fun item => 0 <= wi_refine_gas_limit item /\ 0 <= wi_export_count item) (wp_items package)) as Hcounts.
  { eapply List.Forall_impl; [|apply (co_items _ _ _ _ Hok)]. intros item Hw. split; apply Hw. }
  destruct (refine_items_run services core_index trace segments blobs Htrace Hsegments Hblobs Hlen (wp_items package) 0 (blen trace) 0)
    as [(digests & exports & Heq & Hfull)|Heq]; try done.
  - by apply Forall_forall.
  - left. eexists. split; [exact Heq|]. split; [done|]. cbn. apply refine_items_spec in Heq as (_ & -> & _); [done| | |done].
    + intros index offset item output Hin. apply refine_gas. rewrite Forall_forall in Hcounts. by apply Hcounts.
    + eapply Forall_impl; [exact Hcounts|]. by intros ? [_ ?].
  - right. eexists. split; [exact Heq|]. by right.
Qed.
End ends.

(** ** The properties *)

(** C9: A guarantor's report is one the validators accept: of the checks of a guarantee's report, on
    any chain, those that concern the report alone (the number of results, its size, the gas of
    the authorisation and of the refinements, imports, exports, extrinsics and footprint, the
    length of the bundle, the number of dependencies, the number of exports) pass; only the
    services and the segment roots are left to decide.  Its digests are the items', in order, with no more
    gas than the items allow; its exports are full segments, as many as the items announce,
    with the root the report commits to. *)
Theorem computed_report_admissible {J} `{JamCodec J} {S} `{ServicesState S} {AI} `{FetchCodec RefinementContext AI} `{Codec}
    hash after_metadata Bytes_encode Vec_H256_encode `{!BundleCodecLaws Vec_H256_encode} encode_shards gp services data package core_index mappings v w bundle exports gc roots :
  gp_small gp -> NoDup (map fst mappings) ->
  Forall (fun item => 0 <= wi_refine_gas_limit item /\ 0 <= wi_export_count item) (wp_items package) ->
  compute_work_report hash after_metadata Bytes_encode Vec_H256_encode encode_shards gp services data package core_index mappings v
    = Some (Ret (w, bundle, exports)) ->
  check_report gp gc roots w =
    (_ ← check_gas_results gp (gc_services gc) 0 (wr_results w);
     raise_if (negb (forallb (fun kv => bool_decide (roots !! kv.1 = Some kv.2)) mappings)) (GuaranteeE GuaranteeErrorCode.segment_root_lookup_invalid)) /\
  check_export_count w = Ret tt /\ sum_by wd_accumulate_gas (wr_results w) <= GAS_ACCUMULATION gp /\
  Forall2 (digest_of hash) (wp_items package) (wr_results w) /\
  Forall (fun s => blen s = EC_SEGMENT_SIZE) exports /\ ps_exports_root (wr_package_spec w) = constant_depth_root hash exports /\
  wr_package_hash w = package_hash hash package /\ ps_length (wr_package_spec w) = blen bundle /\ ps_erasure_shards (wr_package_spec w) = v /\
  wr_core_index w = core_index /\ 0 <= core_index < CORE_COUNT gp.
Proof.
  intros Hsmall Hnd Hitems (Hvalid & Hcore & _ & Hkeys & Hb & blobs & segments & auth & trace & digests & spec & _ & _ & Ha & _ & Htrace & Hr & Hspec & ->)%report_computed.
  apply (bundle_fits_run hash Vec_H256_encode gp) in Hb as Hfits; [|done..].
  apply validate_work_package_spec in Hvalid as (Hn & Hx & Hi & He & Hdep & Hfoot & Hgas & Hacc).
  apply availability_spec_fields in Hspec as (Hhash & Hlen & Hshards & Hroot & Hcount & Hfull).
  apply is_authorized_gas in Ha; [|by apply gs_invoke].
  apply refine_items_spec in Hr as (Hd & Hexports & Hsize); [|
    intros index offset item output Hin Hrun; rewrite Forall_forall in Hitems; eapply refine_gas, Hrun; by apply Hitems|
    eapply Forall_impl; [exact Hitems|]; by intros ? [_ ?]|done].
  set (w := mkWorkReport _ _ _ _ _ _ _ _).
  pose proof (digest_gas hash _ _ Hd) as Hused. pose proof (footprint_loads gp package) as Hloads.
  assert (total_load rl_imports w = sum_of (fun i => Z.of_nat (length (wi_import_segments i))) (wp_items package)) as Himports by by eapply digest_sum.
  assert (total_load rl_exports w = sum_of wi_export_count (wp_items package)) as Hexp by by eapply digest_sum.
  assert (total_load rl_extrinsic_count w = sum_of (fun i => Z.of_nat (length (wi_extrinsic i))) (wp_items package)) as Hext by by eapply digest_sum.
  assert (total_load rl_extrinsic_size w = sum_of (fun i => sum_of snd (wi_extrinsic i)) (wp_items package)) as Hextsize by by eapply digest_sum.
  assert (sum_by wd_accumulate_gas digests = sum_of wi_accumulate_gas_limit (wp_items package)) as Haccsum by by eapply digest_sum.
  assert (total_load rl_gas_used w <= GAS_REFINE gp) as Htotal by (transitivity (sum_of wi_refine_gas_limit (wp_items package)); [exact Hused|exact Hgas]).
  assert (length (wr_results w) = length (wp_items package)) as Hcountd by (symmetry; by eapply Forall2_length).
  rewrite <-Hlen in Hfits. assert (ps_length (wr_package_spec w) <= MAXIMUM_SIZE_AUDITABLE_BUNDLE gp) as Hbundle by exact Hfits.
  assert (wr_auth_gas_used w <= GAS_INVOKE gp) as Hauth by done.
  assert (dependency_count w <= MAXIMUM_DEPENDENCIES_WORK_REPORT gp) as Hdeps.
  { unfold dependency_count, wr_prerequisites. rewrite (mapping_count mappings _ Hnd Hkeys) in Hdep. exact Hdep. }
  assert (report_size w <= MAXIMUM_SIZE_ENCODED_WORK_REPORT gp) as Hreport.
  { unfold report_size. rewrite sum_by_of. exact Hsize. }
  assert (check_export_count w = Ret tt) as Hcheck.
  { unfold check_export_count. rewrite Hexp. change (ps_exports_count (wr_package_spec w)) with (ps_exports_count spec).
    by rewrite Hcount, Hexports, Z.eqb_refl. }
  assert (sum_by wd_accumulate_gas (wr_results w) <= GAS_ACCUMULATION gp) as Hbound by (rewrite <-Haccsum in Hacc; exact Hacc).
  split; [|split_and!; try done; apply Hcore].
  unfold check_report, check_work_result_count, check_size_limit, check_gas_requirements, check_refinement_load, check_bundle_length, refinement_load_ok.
  rewrite Hcountd, Himports, Hexp, Hext, Hextsize.
  repeat match goal with
  | |- context [?a <? ?b] => rewrite (proj2 (Z.ltb_ge a b)) by lia
  | |- context [?a <=? ?b] => rewrite (proj2 (Z.leb_le a b)) by lia
  end. done.
Qed.

(** C10: Computing a report always ends, whatever the programs of the package and its services: with a
    report, with the refusal of the package, or with the exception that a call of a
    refinement lets out (see the finding of [Refine]); in particular the dimensions that the
    erasure code and the padding ask for are always met, and every index is in range. *)
Theorem compute_work_report_ends {J} `{JamCodec J} `{!JamCodecLaws J} {S} `{ServicesState S} `{!ServicesLaws S}
    {AI} `{FetchCodec RefinementContext AI} `{!FetchCodecLaws RefinementContext AI} hash `{!HashLaws hash}
    after_metadata Bytes_encode Vec_H256_encode encode_shards `{!ErasureLaws Vec_H256_encode encode_shards}
    gp services data package core_index mappings v :
  gp_small gp -> computation_ok after_metadata Bytes_encode data package ->
  (exists r, compute_work_report hash after_metadata Bytes_encode Vec_H256_encode encode_shards gp services data package core_index mappings v = Some (Ret r)) \/
  exists e, compute_work_report hash after_metadata Bytes_encode Vec_H256_encode encode_shards gp services data package core_index mappings v = Some (Raise e) /\
    (e = ProcessWorkpackageError \/ e = InRun PVMMemoryError).
Proof.
  intros Hsmall Hok. cut (ends (fun _ => True) (compute_work_report hash after_metadata Bytes_encode Vec_H256_encode encode_shards gp services data package core_index mappings v)).
  { intros [(r & Hr & _)|He]; [left; by exists r|by right]. }
  unfold compute_work_report. cbv zeta.
  eapply (work_ends_bind (fun _ => validate_work_package gp package = Ret tt)).
  { apply ends_of; [by intros [] H'|]. intros e. apply validate_work_package_raise. }
  intros _ Hvalid. apply validate_work_package_spec in Hvalid as (Hn & _ & _ & Hexports & _).
  eapply (work_ends_bind (fun _ => True)); [apply ends_of; [done|]; intros e; destruct (_ && _); congruence|intros _ _].
  eapply (work_ends_bind (fun _ => valid_validator_count v (CORE_COUNT gp) = true)).
  { unfold erasure_data_shards. destruct (valid_validator_count v (CORE_COUNT gp)); apply ends_of; cbn; intros; congruence. }
  intros _ Hv. eapply (work_ends_bind (fun _ => True)); [apply ends_of; [done|]; intros e; destruct (bool_decide _); congruence|intros _ _].
  eapply (work_ends_bind (fun _ => True)); [apply ends_of; [done|]; intros e; apply assemble_bundle_raise|intros bundle _].
  eapply work_ends_bind; [apply ends_of; [intros a Ha; exact Ha|]; intros e; apply map_ret_only; intros ??; apply extrinsic_data_raise|intros blobs Hblobs].
  eapply work_ends_bind; [apply ends_of; [intros a Ha; exact Ha|]; intros e; apply map_ret_only; intros ??; apply import_segments_raise|intros segments Hsegments].
  destruct (item_blobs _ _ _ _ _ Hok _ Hblobs) as [Hbs Hlen]. apply (item_segments _ _ _ _ _ _ Hok) in Hsegments.
  pose proof (gs_items gp Hsmall) as Hitems.
  eapply (work_ends_bind (fun auth => forall bs, ia_result auth = ok bs -> List.Forall is_byte bs)).
  { destruct (is_authorized_run after_metadata Bytes_encode gp Hsmall data package Hok ltac:(lia) services core_index) as (auth & -> & Hauth).
    left. by exists auth. }
  intros auth Hauth. eapply (work_ends_bind (fun trace => List.Forall is_byte trace)).
  { destruct (ia_result auth) as [trace| | | | | | ]; apply ends_of; try done; [intros a [= <-]; by apply Hauth|by intros e [= <-]..]. }
  intros trace Htrace. eapply (work_ends_bind (fun _ => blen trace <= MAXIMUM_SIZE_ENCODED_WORK_REPORT gp)).
  { destruct (Z.ltb_spec (MAXIMUM_SIZE_ENCODED_WORK_REPORT gp) (blen trace)); apply ends_of; try done. by intros e [= <-]. }
  intros _ Hsize. pose proof (gs_report gp Hsmall).
  eapply (work_ends_bind (fun out => List.Forall (fun s => blen s = EC_SEGMENT_SIZE) out.2 /\ Z.of_nat (length out.2) <= MAXIMUM_NUMBER_EXPORTS_WORK_PACKAGE gp)).
  { apply (refinements_end hash after_metadata Bytes_encode gp data package Hok); try done; [lia|]. split; [done|lia]. }
  intros out [Hfull Hcount]. eapply (work_ends_bind (fun _ => True)); [|intros spec _; left; by eexists].
  destruct (availability_spec_run hash Vec_H256_encode encode_shards gp (package_hash hash package) bundle out.2 v) as [spec ->]; try done.
  - unfold blen, package_hash. by rewrite hash_length.
  - split; [done|]. apply Hsmall.
  - left. by exists spec.
Qed.
