(* ===== verification/Demo.v ===== *)
(** * A demonstration program

    A concrete program and the machines it reaches, on which the theorems about
    the interpreter are instantiated: every hypothesis of those theorems is
    discharged here by evaluating the definitions. *)

From Stdlib Require Import ZArith Lia Bool List.
From stdpp Require Import base numbers option list gmap.
From S2P Require Import Prelude Constants Defs MemorySection Memory BasicBlock GasModel Machine Ops OpsSafety Alu Control Interp.
Import ListNotations.

#[local] Open Scope Z_scope.

(** [0: load_imm r0 100], [3: add_64 r9 = r7 + r8], [6: div_u_32 r9 = r7, r8],
    [9: trailing_zero_bits_32 r7 = r8], [11: add_imm_64 r7 = r8 + -2],
    [14: trap], [15: ecalli 3], [17: trap], [18: load_u8 r1, 0x10000],
    [23: store_u8 r7, 0x11000], [28: branch_eq r7, r8, 0], [31: jump 0],
    [33: trap] *)
Definition demo_code : bytes :=
  [51; 0; 100; 200; 135; 9; 193; 135; 9; 107; 135; 149; 135; 254; 0; 10; 3; 0;
   52; 1; 0; 0; 1; 59; 7; 0; 16; 1; 170; 135; 228; 40; 225; 0].
Definition demo_code_bitmask : list bool :=
  [true; false; false; true; false; false; true; false; false; true; false; true; false; false;
   true; true; false; true; true; false; false; false; false; true; false; false; false; false;
   true; false; false; true; false; true].

Definition demo_program : PVMProgram :=
  mkProgram demo_code [] demo_code_bitmask
    [0; 0; 0; 0; 0; 0; 0; 5; 2 ^ 32; 0; 0; 0; 0] demo_memory.

Lemma demo_program_ok : program_ok demo_program.
Proof.
  split; cbn [pg_code pg_registers pg_memory demo_program].
  - apply (bool_decide_eq_true_1 (List.Forall (fun b => 0 <= b < 256) demo_code)). vm_compute. reflexivity.
  - vm_compute. congruence.
  - reflexivity.
  - apply demo_memory_wf.
Qed.

(** The machine the constructor builds. *)
Definition no_code : Code := mkCode [] 0 0 false [] [] ∅ [] ∅ ∅ [].
Definition demo_vm : VM :=
  match new_interpreter demo_program with
  | Ret vm => vm
  | Raise _ => mkVM no_code [] 0 0 0 0 0 demo_memory ExitReason.panic None (-1) None
  end.

Lemma demo_ready : ready demo_vm /\ new_interpreter demo_program = Ret demo_vm.
Proof.
  destruct (new_interpreter_spec demo_program demo_program_ok) as (vm & Hn & Hr & _).
  unfold demo_vm. rewrite Hn. exact (conj Hr eq_refl).
Qed.

Lemma demo_valid : code_valid (vm_code demo_vm) = true.
Proof. vm_compute. reflexivity. Qed.

(** The machine at the instruction at [p]. *)
Definition demo_at (p : Z) : VM := set_pc p demo_vm.

Lemma demo_at_inst p : bool_decide (is_Some (inst_pos (vm_code demo_vm) !! p)) = true -> at_inst (demo_at p).
Proof.
  intros Hp%bool_decide_eq_true. destruct demo_ready as [[Hc Hr Hm] _].
  split; [by apply Hc, demo_valid|done|done|done].
Qed.

(** ** Witnesses *)

Lemma dispatch_safe_witness :
  dispatch_post (demo_at 3) 200 (_opcode_lut 200 (demo_at 3)).
Proof.
  apply (dispatch_safe (demo_at 3)).
  - apply demo_at_inst. vm_compute. reflexivity.
  - vm_compute. reflexivity.
Defined.

Lemma alu3_correct_witness :
  handler Opcode.add_64 (demo_at 3)
  = (Ret tt, write_result 9 (Some (2 ^ 32 + 5)) (demo_at 3)).
Proof.
  apply (alu3_correct Opcode.add_64 (demo_at 3)).
  - apply demo_at_inst. vm_compute. reflexivity.
  - reflexivity.
Defined.

Lemma alu2_correct_witness :
  handler Opcode.leading_zero_bits_64 (demo_at 9)
  = (Ret tt, write_result 7 (Some 31) (demo_at 9)).
Proof.
  apply (alu2_correct Opcode.leading_zero_bits_64 (demo_at 9)).
  - apply demo_at_inst. vm_compute. reflexivity.
  - reflexivity.
  - discriminate.
Defined.

Lemma alu_imm_correct_witness :
  handler Opcode.add_imm_64 (demo_at 11)
  = (Ret tt, write_result 7 (Some (2 ^ 32 - 2)) (demo_at 11)).
Proof.
  apply (alu_imm_correct Opcode.add_imm_64 (demo_at 11)).
  - apply demo_at_inst. vm_compute. reflexivity.
  - reflexivity.
  - reflexivity.
Defined.

(** The program reaches a state where the two defects show. *)
Lemma div_u_32_raises_witness :
  handler Opcode.div_u_32 (demo_at 6) = (Raise PyException, demo_at 6) /\
  alu3 Opcode.div_u_32 5 (2 ^ 32) = Some all_ones.
Proof.
  apply (div_u_32_raises (demo_at 6)).
  - apply demo_at_inst. vm_compute. reflexivity.
  - vm_compute. congruence.
  - vm_compute. reflexivity.
Defined.

Lemma trailing_zero_bits_32_wrong_witness :
  handler Opcode.trailing_zero_bits_32 (demo_at 9)
    = (Ret tt, write_result 7 (Some 32) (demo_at 9)) /\
  alu2 Opcode.trailing_zero_bits_32 (2 ^ 32) = Some 32.
Proof.
  apply (trailing_zero_bits_32_wrong (demo_at 9)).
  - apply demo_at_inst. vm_compute. reflexivity.
  - vm_compute. reflexivity.
  - vm_compute. congruence.
Defined.

Lemma load_correct_witness :
  access (pages_r demo_memory) (demo_at 18) (u32 65536) 1
    (Ret tt, write_result 1 (Some 0) (set_memory (set_mem_addr 65536 demo_memory) (demo_at 18)))
    (handler Opcode.load_u8 (demo_at 18)).
Proof.
  apply (load_correct Opcode.load_u8 (demo_at 18) false 1 1 65536).
  - apply demo_at_inst. vm_compute. reflexivity.
  - vm_compute. reflexivity.
Defined.

Lemma store_correct_witness :
  access (pages_w demo_memory) (demo_at 23) (u32 69632) 1
    (Ret tt, set_memory (set_mv (set_mem_addr 69632 demo_memory)
       (mv_store (mv demo_memory) 69632 [5])) (demo_at 23))
    (handler Opcode.store_u8 (demo_at 23)).
Proof.
  apply (store_correct Opcode.store_u8 (demo_at 23) 1 69632 5).
  - apply demo_at_inst. vm_compute. reflexivity.
  - vm_compute. reflexivity.
Defined.

(** The registers differ: the branch falls through. *)
Lemma branch_correct_witness :
  handler Opcode.branch_eq (set_skip_len 3 (demo_at 28)) = (Ret tt, set_skip_len 3 (demo_at 28)).
Proof.
  rewrite (branch_correct Opcode.branch_eq (set_skip_len 3 (demo_at 28)) false (-28)).
  - vm_compute. reflexivity.
  - assert (at_inst (demo_at 28)) as [Hc Hp Hr Hm]; [|by split].
    apply demo_at_inst. vm_compute. reflexivity.
  - vm_compute. reflexivity.
Defined.

Lemma jump_correct_witness :
  handler Opcode.jump (demo_at 31) = (Ret tt, set_skip_len (-31) (demo_at 31)).
Proof.
  assert (at_inst (demo_at 31)) as Hi by (apply demo_at_inst; vm_compute; reflexivity).
  rewrite (proj1 (jump_correct (demo_at 31) Hi)). vm_compute. reflexivity.
Defined.

Lemma new_interpreter_ready_witness :
  exists vm, new_interpreter demo_program = Ret vm /\ ready vm /\ code_valid (vm_code vm) = true.
Proof.
  destruct (new_interpreter_ready demo_program demo_program_ok) as (vm & Hn & Hr & _ & _ & _ & Hv & _).
  exists vm. split; [exact Hn|]. split; [exact Hr|]. rewrite Hv. vm_compute. reflexivity.
Defined.

Lemma invoke_total_witness :
  exists vm', invoke 0 1000 demo_vm = Some (Ret tt, vm') /\ exit_ok vm' /\ 0 <= gas vm' <= 1000.
Proof.
  destruct (invoke_total demo_vm 0 1000) as (vm' & Hv & _ & Hex & _ & _ & Hg & _).
  - apply demo_ready.
  - apply demo_valid.
  - apply (bool_decide_eq_true_1 (is_Some (inst_pos (vm_code demo_vm) !! 0))). vm_compute. reflexivity.
  - lia.
  - exists vm'. split; [exact Hv|]. split; [exact Hex|exact Hg].
Defined.

Lemma invoke_gas_accounting_witness :
  exists vm', invoke 0 1000 demo_vm = Some (Ret tt, vm') /\
    1000 = gas vm' + total_cost (vm_code demo_vm)
             (blocks_entered (vm_code demo_vm) (Pos.to_nat (invoke_fuel (vm_code demo_vm) 1000))
                (negb (gas_paid demo_vm)) (entry demo_vm 0 1000)).
Proof.
  destruct (invoke_gas_accounting demo_vm 0 1000) as (vm' & Hv & Hg & _).
  - apply demo_ready.
  - apply demo_valid.
  - apply (bool_decide_eq_true_1 (is_Some (inst_pos (vm_code demo_vm) !! 0))). vm_compute. reflexivity.
  - lia.
  - exists vm'. split; [exact Hv|exact Hg].
Defined.

Lemma next_instruction_after_ecalli_witness :
  exists vm', next_instruction (demo_at 15) = (Ret tt, vm') /\ 15 < pc vm'.
Proof.
  destruct (next_instruction_after_ecalli (demo_at 15)) as (vm' & Hn & Hlt & _).
  - apply demo_at_inst. vm_compute. reflexivity.
  - apply (bool_decide_eq_true_1 (is_Some (inst_pos (vm_code demo_vm) !! 15))). vm_compute. reflexivity.
  - vm_compute. reflexivity.
  - exists vm'. split; [exact Hn|exact Hlt].
Defined.

(** A program halting with no output. *)
Lemma get_exit_condition_total_witness :
  exists value a, get_exit_condition (set_status ExitReason.halt demo_vm)
    = (Ret (mkExit ExitReason.halt value),
       put_mem (set_mem_addr a (mem demo_vm)) (set_status ExitReason.halt demo_vm)).
Proof.
  destruct (get_exit_condition_total (set_status ExitReason.halt demo_vm)) as (value & a & Hv & _).
  - apply demo_ready.
  - exact I.
  - exists value, a. exact Hv.
Defined.
