(* ===== verification/DemoHost.v ===== *)
(** * A demonstration of programs and host calls

    Concrete instances of the interfaces of [Program], [HostCalls] and [Refine] (the
    byte cursor, the encoders, the services), with their laws, and a machine with a
    heap.  The theorems about loading, invocations and host calls are instantiated on
    them. *)

From Stdlib Require Import ZArith Lia Bool List.
From stdpp Require Import base numbers option list gmap.
From S2P Require Import Prelude Constants Defs MemorySection Memory BasicBlock Machine Interp Program Invocation Graypaper HostCalls Refine Demo.
Import ListNotations.

#[local] Open Scope Z_scope.
#[local] Open Scope py_scope.

(** ** A byte cursor *)

(** Reading exactly [n] bytes. *)
Definition exactly (n : Z) (j : bytes) : option (bytes * bytes) :=
  if (0 <=? n) && (n <=? blen j) then Some (take (Z.to_nat n) j, drop (Z.to_nat n) j) else None.

(** The number of leading one bits of a byte says how many bytes follow. *)
Definition leading_ones (b : Z) : Z :=
  if b <? 128 then 0 else if b <? 192 then 1 else if b <? 224 then 2 else if b <? 240 then 3
  else if b <? 248 then 4 else if b <? 252 then 5 else if b <? 254 then 6 else if b <? 255 then 7 else 8.

Definition varint_decode (j : bytes) : option (Z * bytes) :=
  match j with
  | [] => None
  | b :: j =>
      let l := leading_ones b in
      '(low, j) ← exactly l j;
      Some (Z.max 0 ((b - (256 - 2 ^ (8 - l))) * 2 ^ (8 * l)) + le_int low, j)
  end.

Fixpoint uints (w : Z) (n : nat) (j : bytes) : option (list Z * bytes) :=
  match n with
  | O => Some ([], j)
  | Datatypes.S n =>
      '(b, j) ← exactly w j;
      '(l, j) ← uints w n j;
      Some (le_int b :: l, j)
  end.

Definition bits_of (n : nat) (bs : bytes) : list bool :=
  map (fun k => Z.testbit (nth (k / 8) bs 0) (Z.of_nat (k mod 8))) (seq 0 n).

#[export] Instance bytes_codec : JamCodec bytes := {
  JamBytes bs := bs;
  get_next_bytes n j := Some (take (Z.to_nat n) j, drop (Z.to_nat n) j);
  get_remaining_length j := blen j;
  VarInt64_decode := varint_decode;
  JU8_decode j := match j with b :: j => Some (b, j) | [] => None end;
  uint_array_decode w n j := uints (w / 8) (Z.to_nat n) j;
  byte_array_decode n j := exactly n j;
  bit_array_decode n strict j :=
    '(bs, j) ← exactly ((n + 7) / 8) j; Some (bits_of (Z.to_nat n) bs, j)
}.

Lemma exactly_ok n j bs j' :
  List.Forall is_byte j -> exactly n j = Some (bs, j') ->
  List.Forall is_byte j' /\ List.Forall is_byte bs /\ blen bs = n.
Proof.
  unfold exactly. intros Hj. destruct (Z.leb_spec 0 n), (Z.leb_spec n (blen j)); try done. intros [= <- <-].
  split; [by apply Forall_drop|]. split; [by apply Forall_take|]. unfold blen in *. rewrite length_take. lia.
Qed.

Lemma uints_ok w n : forall j l j', List.Forall is_byte j -> uints w n j = Some (l, j') -> List.Forall is_byte j'.
Proof.
  induction n as [|n IH]; intros j l j' Hj; cbn; [by intros [= _ <-]|].
  destruct (exactly w j) as [[b j1]|] eqn:He; [|done]. cbn.
  destruct (exactly_ok _ _ _ _ Hj He) as [Hj1 _].
  destruct (uints w n j1) as [[l1 j2]|] eqn:Hu; [|done]. intros [= _ <-]. by eapply IH.
Qed.

#[export] Instance bytes_codec_laws : JamCodecLaws bytes.
Proof.
  refine {| jam_ok := List.Forall is_byte |}.
  - done.
  - intros n j bs j' Hj [= <- <-]. split; [by apply Forall_drop|]. split; [by apply Forall_take|].
    unfold blen. rewrite length_take. lia.
  - intros j n j' Hj. cbn. unfold varint_decode. destruct j as [|b j]; [done|]. inversion Hj as [|?? Hb Hj']; subst.
    destruct (exactly (leading_ones b) j) as [[low j1]|] eqn:He; [|done]. cbn. intros [= <- <-].
    destruct (exactly_ok _ _ _ _ Hj' He) as (? & Hl & _). split; [done|]. pose proof (le_int_range low Hl). lia.
  - intros j n j' Hj. cbn. destruct j as [|b j]; [done|]. intros [= <- <-]. by inversion Hj.
  - intros w n j l j' Hj. by apply uints_ok.
  - intros n j bs j' Hj _ He. by apply (exactly_ok n j).
Defined.

(** ** Encoders and services *)

#[export] Instance demo_fetch_codec : FetchCodec unit Z := {
  U16_encode := le_bytes 2;
  U32_encode := le_bytes 4;
  U64_encode := le_bytes 8;
  VarInt64_encode x := 255 :: le_bytes 8 x;
  WorkPackage_to_jam_bytes p := le_bytes 4 (Z.of_nat (length (wp_items p)));
  context_to_jam_bytes _ := [];
  AccumulationInput_to_jam_bytes := le_bytes 8;
  AccumulationInputs_encode l := le_bytes 8 (fold_right Z.add 0 l)
}.

#[export] Instance demo_fetch_codec_laws : FetchCodecLaws unit Z.
Proof.
  assert (forall n x, (n <= 8)%nat -> blob_ok (le_bytes n x)) as Hle.
  { intros n x Hn. split; [apply le_bytes_bytes|]. unfold blen. rewrite length_le_bytes. lia. }
  assert (forall n x, List.Forall is_byte (le_bytes n x) /\ blen (le_bytes n x) = Z.of_nat n) as Hlen.
  { intros n x. split; [apply le_bytes_bytes|]. unfold blen. by rewrite length_le_bytes. }
  split; intros.
  - apply (Hlen 2%nat).
  - apply (Hlen 4%nat).
  - apply (Hlen 8%nat).
  - destruct (Hlen 8%nat x) as [Hb Hl]. split; [by constructor|]. unfold blen in *. cbn [VarInt64_encode demo_fetch_codec length]. lia.
  - apply (Hle 4%nat). lia.
  - split; [constructor|done].
  - apply (Hle 8%nat). lia.
  - apply (Hle 8%nat). lia.
Qed.

(** One preimage, known to every service. *)
#[export] Instance demo_services : ServicesState unit := {
  ServiceAccount := unit;
  retrieve_service_account _ _ := Ret (Some tt);
  historical_preimage_lookup _ _ _ _ := Ret (Some [1; 2; 3])
}.

#[export] Instance demo_services_laws : ServicesLaws unit.
Proof. split; intros; [by eexists|]. eexists. split; [done|]. split; [|done]. by repeat constructor. Qed.

Definition demo_item : WorkItem := mkWorkItem 7 (replicate 32 1) 1000 2000 1 [4; 5] [] [].
Definition demo_package : WorkPackage unit := mkWorkPackage _ 7 (replicate 32 2) tt [9] [8; 8] [demo_item; demo_item].

(** A refinement of its first item; no segments are imported, the second item has no
    extrinsics. *)
Definition demo_self : RefineMutator (S := unit) unit :=
  mkRefineMutator unit [5; 5] [[]; []] 0 tt 7 42 0 demo_package [[[1; 2]]; []] gp_full.
Definition demo_fetch : FetchData (RC := unit) (AI := Z) := refine_fetch demo_self.

Lemma demo_item_ok : work_item_ok demo_item.
Proof.
  assert (List.Forall is_byte (replicate 32 1)) as H32 by by apply Forall_replicate.
  split; by repeat constructor.
Qed.

Lemma demo_fetch_ok : fetch_ok demo_fetch.
Proof.
  pose proof demo_item_ok as Hi.
  assert (List.Forall is_byte (replicate 32 0)) as H32 by by apply Forall_replicate.
  split; cbn [fd_work_package fd_entropy fd_authorizer_output fd_work_item_segs fd_extrinsics
    fd_work_item_index demo_fetch refine_fetch opt_ok]; try done; repeat constructor; done.
Qed.

Lemma demo_self_ok : refine_mutator_ok (AI := Z) demo_self.
Proof. split; [done|apply demo_fetch_ok]. Qed.

Lemma demo_authorized_ok : fetch_ok (is_authorized_fetch (AI := Z) gp_full demo_package).
Proof.
  pose proof demo_item_ok as Hi.
  split; cbn [fd_work_package fd_entropy fd_authorizer_output fd_work_item_segs fd_extrinsics
    fd_work_item_index is_authorized_fetch opt_ok]; try done; repeat constructor; done.
Qed.

(** ** A machine with a heap: [0x11000], one page, under a stack at [0xfefe0000] *)

Definition demo_heap : PVMMemory := set_bounds demo_memory (Some 69632) (Some 4278059008) 73728.
Definition demo_host_vm : VM := put_mem demo_heap demo_vm.

Lemma demo_host_ready : ready demo_host_vm.
Proof. destruct demo_ready as [[Hc Hr Hm] _]. split; [exact Hc|exact Hr|exact demo_memory_wf]. Qed.

Lemma demo_bounds : bounds_ok (bounds (mem demo_host_vm)).
Proof. exists 69632, 4278059008, 73728. by split. Qed.

(** Machine 0, on the demonstration program. *)
Definition demo_inner : IntegratedPVM :=
  mkInner (mkPVMCode 0 0 34 [] demo_code demo_code_bitmask) demo_memory 0 false.

Lemma demo_inner_ok : inner_ok demo_inner.
Proof. split; [apply demo_program_ok|done|apply demo_memory_wf|done]. Qed.

Definition demo_ctx : RefineInvocationContext := mkRefine {[ 0 := demo_inner ]} [].

Lemma demo_ctx_ok : refine_ctx_ok 0 demo_ctx (bounds (mem demo_host_vm)).
Proof.
  split; cbn; [|done|by left|apply demo_bounds].
  apply map_Forall_singleton. split; [done|apply demo_inner_ok].
Qed.

(** ** A serialised program: no data, one page of heap, one of stack *)

Definition demo_code_blob : bytes := [0; 0; 34] ++ demo_code ++ [73; 202; 134; 144; 2].
Definition demo_blob : bytes :=
  [0; 0; 0; 0; 0; 0; 1; 0; 0; 16; 0; 42; 0; 0; 0] ++ demo_code_blob.

Lemma demo_blob_bytes : List.Forall is_byte demo_blob.
Proof.
  apply (bool_decide_eq_true_1 (List.Forall (fun b => 0 <= b < 256) demo_blob)). vm_compute. reflexivity.
Qed.

(** ** Witnesses *)

Lemma demo_sizes : sizes_ok [] [7] [] 1 4096.
Proof.
  split; [by repeat constructor..|done|done|done].
Qed.

Lemma init_memory_layout_witness :
  exists m, init_memory [] [7] [] 1 4096 = Ret m /\ mv_get (mv m) 131072 = 7 /\ mv_get (mv m) 131073 = 0 /\
    32 ∈ pages_w m /\ 33 ∈ pages_w m.
Proof.
  destruct (init_memory_layout [] [7] [] 1 4096 demo_sizes) as (m & Hm & _ & _ & _ & Hw & Hv & _).
  exists m. split; [exact Hm|]. rewrite !Hv. split; [reflexivity|]. split; [reflexivity|].
  split; apply Hw; left; split; vm_compute; congruence.
Defined.

(** The blob is accepted. *)
Lemma from_serialized_bytes_total_witness :
  exists m, from_serialized_bytes (J := bytes) demo_blob [] =
    Ret (Some (pvm_program (mkPVMCode 0 0 34 [] demo_code demo_code_bitmask) (init_registers []) m)) /\ mem_wf m.
Proof.
  destruct (from_serialized_bytes_total (J := bytes) demo_blob [] demo_blob_bytes ltac:(constructor))
    as [Hn|(rom & heap & pages & ss & code & sizes & c & m & Hs & Hc & _ & _ & Hl & Hok)].
  - exfalso. assert (bool_decide (is_Some (match from_serialized_bytes (J := bytes) demo_blob [] with
                                           | Ret o => o | Raise _ => None end)) = true) as Hd
      by (vm_compute; reflexivity).
    rewrite Hn in Hd. discriminate Hd.
  - exists m. rewrite Hl. split; [|apply (po_memory _ Hok)]. do 2 f_equal.
    assert (split_blob (J := bytes) demo_blob = Some ([], [], 1, 4096, demo_code_blob, (0, 0))) as Hs'
      by (vm_compute; reflexivity).
    rewrite Hs' in Hs. injection Hs as <- <- <- <- <- <-.
    assert (from_bytes_cached (J := bytes) demo_code_blob
            = Some (mkPVMCode 0 0 34 [] demo_code demo_code_bitmask)) as Hc' by (vm_compute; reflexivity).
    rewrite Hc' in Hc. injection Hc as <-. reflexivity.
Defined.

(** The authorisation mutator on the demonstration machine. *)
Lemma pvm_invoke_host_call_total_witness :
  exists o vm', @pvm_invoke_host_call unit (is_authorized_mutator gp_full demo_package) 0 1000 tt demo_host_vm
    = Some (Ret o, (tt, vm')) /\ hc_gas_limit o <= 1000.
Proof.
  destruct (@pvm_invoke_host_call_total unit (is_authorized_mutator gp_full demo_package)
              (is_authorized_mutator_laws gp_full demo_package demo_authorized_ok) 0 1000 tt demo_host_vm)
    as (o & [] & vm' & Hrun & _ & _ & _ & Ho).
  - exact demo_bounds.
  - exact demo_host_ready.
  - exact demo_valid.
  - apply (bool_decide_eq_true_1 (is_Some (inst_pos (vm_code demo_host_vm) !! 0))). vm_compute. reflexivity.
  - lia.
  - destruct o as [out|e]; [|destruct Ho]. exists out, vm'. split; [exact Hrun|]. apply Ho.
Defined.

Lemma refine_any_bounds b : bounds_ok b -> refine_ctx_ok 0 (mkRefine ∅ []) b.
Proof. intros Hb. split; cbn; [apply map_Forall_empty|constructor|by left|exact Hb]. Qed.

(** A refinement of the demonstration blob. *)
Lemma pvm_invoke_marshalling_total_witness :
  (exists out, @pvm_invoke_marshalling bytes _ _ (refine_mutator demo_self) demo_blob 0 1000 [] (mkRefine ∅ [])
     = Some (Ret out) /\ 0 <= pm_gas_used out <= 1000) \/
  @pvm_invoke_marshalling bytes _ _ (refine_mutator demo_self) demo_blob 0 1000 [] (mkRefine ∅ [])
     = Some (Raise PVMMemoryError).
Proof.
  destruct (@pvm_invoke_marshalling_total bytes _ _ _ (refine_mutator demo_self)
              (refine_mutator_laws demo_self demo_self_ok) demo_blob 0 1000 [] (mkRefine ∅ []))
    as [(out & Hrun & _ & Hg & _)|(e & Hrun & ->)].
  - exact refine_any_bounds.
  - exact demo_blob_bytes.
  - constructor.
  - lia.
  - left. exists out. split; [exact Hrun|exact Hg].
  - right. exact Hrun.
Defined.

Lemma is_authorized_invocation_total_witness :
  exists out, @pvm_invoke_marshalling bytes _ unit (is_authorized_mutator gp_full demo_package) demo_blob 0 1000 [] tt
     = Some (Ret out) /\ 0 <= pm_gas_used out <= 1000.
Proof.
  destruct (is_authorized_invocation_total bytes unit Z gp_full demo_package demo_blob 0 1000 []) as (out & Hrun & _ & Hg).
  - exact demo_authorized_ok.
  - exact demo_blob_bytes.
  - constructor.
  - lia.
  - exists out. split; [exact Hrun|exact Hg].
Defined.

(** Running inner machine 0 from a refinement. *)
Lemma refine_execute_ok_witness :
  exists r x' vm', refine_execute demo_self 13 (gas demo_host_vm) (reg demo_host_vm) demo_ctx demo_host_vm
    = (r, (x', vm')) /\ refine_ctx_ok 0 x' (bounds (mem vm')).
Proof.
  destruct (refine_execute_ok bytes unit unit Z demo_self 13 demo_ctx demo_host_vm)
    as (r & x' & vm' & Hrun & Hx & _).
  - exact demo_self_ok.
  - exact demo_ctx_ok.
  - exact demo_host_ready.
  - vm_compute. split; congruence.
  - exists r, x', vm'. split; [exact Hrun|exact Hx].
Defined.

Lemma run_inner_total_witness :
  exists result vm, run_inner demo_inner 500 (replicate 13 0) = Ret (result, vm) /\ 0 <= gas vm <= 500.
Proof.
  destruct (run_inner_total demo_inner 500 (replicate 13 0)) as (result & vm & Hrun & Hres).
  - exact demo_inner_ok.
  - done.
  - reflexivity.
  - exists result, vm. split; [exact Hrun|apply (ir_gas _ _ _ Hres)].
Defined.

Lemma export_empty_raises_witness :
  (refine_execute demo_self 8 5000 (<[7%nat := 2 ^ 32]> (replicate 13 0)) demo_ctx demo_host_vm).1
    = Raise PVMMemoryError.
Proof.
  apply (export_empty_raises bytes unit unit Z demo_self (2 ^ 32)).
  - reflexivity.
  - reflexivity.
  - vm_compute. congruence.
  - lia.
Defined.

(** The state of a call on the demonstration machine. *)
Definition demo_call : Call unit := mkCall demo_host_vm (mkExit ExitReason.panic ENone) 1000 tt.

Lemma deliver_correct_witness :
  exists s', deliver false (Some [1; 2; 3; 4]) 69632 1 2 demo_call = (Ret tt, s') /\
    mv_get (mv (mem (ca_vm s'))) 69632 = 2 /\ mv_get (mv (mem (ca_vm s'))) 69633 = 3 /\
    mv_get (mv (mem (ca_vm s'))) 69634 = 0.
Proof.
  destruct (deliver_correct unit false (Some [1; 2; 3; 4]) 69632 1 2 demo_call) as (s' & Hrun & _ & _ & Hd).
  - exact demo_host_ready.
  - split; [by repeat constructor|done].
  - lia.
  - lia.
  - lia.
  - exists s'. split; [exact Hrun|]. destruct Hd as (w & Hw & Hd).
    assert (w = true) as -> by (vm_compute in Hw; congruence).
    destruct Hd as (_ & _ & _ & _ & _ & Hm). rewrite !Hm. vm_compute. split; [|split]; reflexivity.
Defined.

Lemma hc_grow_heap_correct_witness :
  exists s', hc_grow_heap (<[7%nat := 20]> (replicate 13 0)) demo_call = (Ret tt, s') /\
    heap_end 17 1044432 (mem (ca_vm s')) = 20.
Proof.
  destruct (hc_grow_heap_correct unit (<[7%nat := 20]> (replicate 13 0)) 69632 4278059008 73728 20 18 demo_call)
    as (s' & Hrun & Hres).
  - split; [done|]. by repeat constructor.
  - exact demo_host_ready.
  - reflexivity.
  - by unfold SIZE.
  - by unfold SIZE.
  - done.
  - reflexivity.
  - done.
  - vm_compute. congruence.
  - split; [vm_compute; congruence|]. intros pg Hpg. change (69632 / 4096) with 17 in Hpg.
    change (pages_w (mem (ca_vm demo_call))) with ({[ 17 ]} : gset Z). rewrite elem_of_singleton. lia.
  - exists s'. split; [exact Hrun|]. cbv zeta in Hres.
    destruct (ca_gas demo_call <? _) eqn:Hlt in Hres; [vm_compute in Hlt; discriminate|].
    destruct Hres as (_ & _ & _ & _ & _ & Hend).
    assert ((4278059008 / 65536 * 65536 - 65536) / 4096 = 1044432) as Hb by (vm_compute; reflexivity).
    assert (69632 / 4096 = 17) as Ha by (vm_compute; reflexivity).
    rewrite Hb, Ha in Hend. rewrite Hend. vm_compute. reflexivity.
Defined.

Lemma fetch_data_total_witness :
  exists v, fetch_data demo_fetch 12 1 0 = Ret v /\ opt_blob_ok v.
Proof.
  apply (fetch_data_total unit Z demo_fetch 12 1 0).
  - exact demo_fetch_ok.
  - lia.
  - lia.
  - lia.
Defined.
