(* ===== verification/DemoMerkle.v ===== *)
(** * A demonstration of the Merkle structures

    A hash function that can be computed here (a polynomial of the bytes in 256 bits,
    in place of the cryptographic ones) and the theorems of [Merkle], [Mmr] and [Trie] on
    concrete data. *)

From Stdlib Require Import ZArith Lia Bool List Permutation.
From stdpp Require Import base numbers option list.
From S2P Require Import Prelude Constants Merkle Mmr Trie.
Import ListNotations.

#[local] Open Scope Z_scope.

Definition demo_hash (x : bytes) : bytes := le_bytes 32 (fold_left (fun acc b => acc * 257 + b + 1) x 1).

#[export] Instance demo_hash_laws : HashLaws demo_hash.
Proof. split; intros x; [apply length_le_bytes|apply le_bytes_bytes]. Qed.

(** Five segments. *)
Definition demo_segments : list bytes := [[1]; [2]; [3]; [4]; [5]].

Lemma trace_verify_witness :
  exists proof, trace demo_hash demo_segments 4 = Some proof /\ length proof = 3%nat /\
    verify demo_hash [5] 4 proof (constant_depth_root demo_hash demo_segments) = true.
Proof.
  destruct (trace_verify demo_hash demo_segments 4 [5]) as (proof & Hp & Hv).
  - reflexivity.
  - lia.
  - exists proof. split; [exact Hp|]. split; [|exact Hv].
    vm_compute in Hp. injection Hp as <-. reflexivity.
Defined.

Definition demo_trace (index : Z) : list bytes := default [] (trace demo_hash demo_segments index).

Lemma verify_sound_witness :
  verify demo_hash [9] 4 (demo_trace 4)
    (constant_depth_root demo_hash demo_segments) = false /\
  (demo_segments !! 3%nat = Some [4] \/
   broken_among demo_hash (tree_inputs demo_hash demo_segments ++ proof_inputs demo_hash [4] 3 (demo_trace 3))).
Proof.
  split; [vm_compute; reflexivity|].
  apply (verify_sound demo_hash demo_segments 3 [4] (demo_trace 3)).
  vm_compute. reflexivity.
Defined.

(** Seven values, then an eighth, which carries through three peaks. *)
Definition demo_values : list bytes := map (fun k => demo_hash [k]) [1; 2; 3; 4; 5; 6; 7].
Definition demo_peaks : list (option bytes) :=
  match insert_all demo_hash demo_values [] with Some p => p | None => [] end.

Lemma insert_appends_witness :
  get_item_count demo_peaks = 7 /\
  insert demo_hash (demo_hash [8]) demo_peaks = Some (append demo_hash demo_peaks (demo_hash [8])) /\
  length (append demo_hash demo_peaks (demo_hash [8])) = 4%nat.
Proof.
  split; [vm_compute; reflexivity|]. split; [|vm_compute; reflexivity].
  apply (insert_appends demo_hash demo_peaks (demo_hash [8])).
  vm_compute. congruence.
Defined.

Lemma super_peak_binding_witness : demo_values = demo_values \/
  collision_among demo_hash (mmr_inputs demo_hash demo_peaks demo_values ++ mmr_inputs demo_hash demo_peaks demo_values).
Proof.
  apply (super_peak_binding demo_hash demo_values demo_values demo_peaks demo_peaks).
  - repeat constructor.
  - repeat constructor.
  - reflexivity.
  - vm_compute. reflexivity.
  - vm_compute. reflexivity.
  - reflexivity.
Defined.

(** Three entries of a state, one with a long value; their first keys share seven bits. *)
Definition demo_key (b : Z) : bytes := b :: replicate 30 0.
Definition demo_state : list (bytes * bytes) :=
  [(demo_key 2, [1]); (demo_key 3, replicate 40 7); (demo_key 200, [])].

Lemma demo_state_keys : same_length 31 demo_state /\ NoDup demo_state.*1.
Proof.
  split.
  - assert (forall b, is_byte b -> length (demo_key b) = 31%nat /\ List.Forall is_byte (demo_key b)) as Hk.
    { intros b Hb. split; [reflexivity|]. constructor; [exact Hb|by apply Forall_replicate]. }
    unfold demo_state, same_length. repeat (apply List.Forall_cons; [by apply Hk|]). constructor.
  - apply (bool_decide_eq_true_1 (NoDup demo_state.*1)). vm_compute. reflexivity.
Qed.

Lemma trie_root_total_witness :
  (exists h, root demo_hash demo_state = Some (Ret h) /\ length h = 32%nat) /\
  root demo_hash [(demo_key 2, [1]); (demo_key 2, [2])] = Some (Raise PyException).
Proof.
  destruct demo_state_keys as [Hd Hn]. split.
  - apply (trie_root_total demo_hash 31 demo_state Hd). exact Hn.
  - vm_compute. reflexivity.
Defined.

Lemma trie_root_permutation_witness : root demo_hash demo_state = root demo_hash (rev demo_state).
Proof.
  destruct demo_state_keys as [Hd Hn].
  apply (trie_root_permutation demo_hash 31 demo_state (rev demo_state)).
  - exact Hd.
  - exact Hn.
  - apply Permutation_rev.
Defined.

Lemma trie_root_binding_witness :
  exists h, root demo_hash demo_state = Some (Ret h) /\
    (Permutation demo_state (rev demo_state) \/ nearly_broken demo_hash).
Proof.
  destruct demo_state_keys as [Hd Hn].
  destruct (root demo_hash demo_state) as [[h|e]|] eqn:Hr; [|vm_compute in Hr; discriminate..].
  exists h. split; [reflexivity|].
  apply (trie_root_binding demo_hash 31 demo_state (rev demo_state) h).
  - exact Hd.
  - exact Hn.
  - unfold same_length. rewrite <-Permutation_rev. exact Hd.
  - rewrite <-Permutation_rev. exact Hn.
  - exact Hr.
  - rewrite <-Hr. vm_compute. reflexivity.
Defined.
