(* ===== verification/DemoState.v ===== *)
(** * Concrete runs of the state components

    Small instances of the libraries' functions (a hash of zeros, verifications that accept
    what a test wants), a chain of six validators on the tiny suite, and the theorems of the
    state components applied to them: their hypotheses hold and the runs are computed. *)

From Stdlib Require Import ZArith Lia Bool List Sorted.
From stdpp Require Import base numbers option list sets gmap.
From S2P Require Import Prelude ByteOrder Graypaper StateBase Reports Merkle Mmr Disputes Shuffle Safrole History Consensus.
Import ListNotations.

#[local] Open Scope Z_scope.

(** ** The libraries *)

Definition demo_hash : bytes -> bytes := fun _ => replicate 32 0.
(** A signature is the key itself. *)
Definition demo_ed_verify (signature data key : bytes) : bool := bool_decide (signature = key).
Definition demo_ring (_ : bytes) (keys : list bytes) (_ : Z) : option (list bytes) := Some keys.
Definition demo_commitment (_ : list bytes) : bytes := replicate 144 1.
(** The output is the first byte of the proof. *)
Definition demo_ring_verify (_ : list bytes) (_ _ proof : bytes) : option bytes := Some (take 1 proof).
Definition demo_vrf_verify (_ _ _ _ : bytes) : option bytes := Some [9].
Definition demo_payload (_ : BlockHeader) : bytes := [].

(** ** The chain *)

Definition demo_validator (i : Z) : ValidatorData :=
  mkValidatorData (replicate 32 i) (replicate 32 (100 + i)) (replicate 144 0) (replicate 128 0).
Definition demo_validators : list ValidatorData := map demo_validator (py_range 0 6).

(** Five votes against report [[1]], and its guarantor punished. *)
Definition demo_verdict : Verdict :=
  mkVerdict [1] 0 (map (fun i => mkJudgement false i (replicate 32 (100 + i))) (py_range 0 5)).
Definition demo_disputes : ExtrinsicDisputes :=
  mkExtrinsicDisputes [demo_verdict] [mkCulprit [1] (replicate 32 103) (replicate 32 103)] [].
Definition demo_pre_disputes : DisputesState := mkDisputesState [[7]] [] [[0]; [5]] [replicate 32 50].

Definition demo_safrole : SafroleState :=
  mkSafroleState demo_validators (replicate 144 1) (SealKeys (replicate 12 (replicate 32 0))) [mkTicketBody [4] 0; mkTicketBody [8] 1].
Definition demo_entropy : list bytes := [[1]; [2]; [3]; [4]].
Definition demo_state : ConsensusState :=
  mkConsensusState 1 demo_entropy demo_pre_disputes demo_validators demo_validators demo_safrole.

(** The first block of the next epoch, with two tickets. *)
Definition demo_mark : EpochMark :=
  mkEpochMark [1] [2] (map (fun v => (bandersnatch v, ed25519 v)) (check_offenders demo_validators [replicate 32 50; replicate 32 103])).
Definition demo_header : BlockHeader :=
  mkBlockHeader (mkHeader [] 12 [] [] None [42]) 0 (Some demo_mark) None [replicate 32 103] [].
Definition demo_envelopes : list TicketEnvelope := [mkTicketEnvelope 0 [5]; mkTicketEnvelope 1 [6; 6]].
Definition demo_completed : list nat := [1%nat; 0%nat].

Definition demo_import : outcome state_exn ConsensusState :=
  import_consensus demo_hash demo_ring demo_commitment demo_ring_verify demo_vrf_verify demo_ed_verify demo_payload
    gp_tiny [] false true demo_completed demo_header demo_disputes demo_envelopes demo_validators demo_state.

Lemma demo_keys_ok : ring_keys_ok gp_tiny demo_validators.
Proof. split; [by vm_compute|]. apply Forall_forall. by repeat constructor. Qed.

Lemma demo_pre_disputes_inv : disputes_inv demo_pre_disputes.
Proof.
  split; cbn; try (repeat constructor); intros x Hx Hx'; apply list_elem_of_In in Hx, Hx'; cbn in *; naive_solver.
Qed.

Lemma demo_safrole_inv : safrole_inv gp_tiny demo_safrole.
Proof. split; [repeat constructor|by vm_compute|done|by vm_compute]. Qed.

Lemma demo_consensus_inv : consensus_inv gp_tiny demo_state.
Proof.
  split; try exact demo_keys_ok; [done|apply demo_pre_disputes_inv|apply demo_safrole_inv|apply Forall_forall; by repeat constructor|done].
Qed.

Lemma demo_extrinsic_ok : extrinsic_ok gp_tiny demo_completed demo_envelopes demo_validators.
Proof.
  split_and!; [apply perm_swap|apply Forall_forall; by repeat constructor|apply demo_keys_ok].
Qed.

Example demo_import_runs : match demo_import with Ret st => cs_timeslot st =? 12 | Raise _ => false end = true.
Proof. by vm_compute. Qed.

(** The run ends with the report in the bad set, the culprit among the offenders and nulled
    in the next set, and the two tickets in the contest. *)
Example demo_import_result :
  match demo_import with
  | Ret st => bad_set (cs_disputes st) = [[1]] /\ offenders (cs_disputes st) = [replicate 32 50; replicate 32 103] /\
      map tb_id (ticket_accumulator (cs_safrole st)) = [[5]; [6]] /\ validators (cs_safrole st) !! 3%nat = Some null_validator
  | Raise _ => False
  end.
Proof. by vm_compute. Qed.

Definition demo_final : ConsensusState := match demo_import with Ret st => st | Raise _ => demo_state end.

Lemma demo_import_ret : demo_import = Ret demo_final.
Proof. by vm_compute. Qed.

Definition demo_disputes_out : DisputesOutput :=
  match Disputes.state_transition demo_ed_verify demo_disputes demo_pre_disputes with
  | Ret out => out | Raise _ => mkDisputesOutput demo_pre_disputes [] end.

Definition demo_safrole_out : SafroleOutput :=
  match Safrole.state_transition demo_hash demo_ring demo_commitment demo_ring_verify gp_tiny [] false true demo_completed
          (base demo_header) demo_envelopes 1 demo_safrole demo_validators demo_entropy demo_validators [] with
  | Ret out => out | Raise _ => mkSafroleOutput demo_safrole None None end.

Lemma demo_gp_ok : gp_ok gp_tiny.
Proof. exact (gp_const_ok suite_tiny). Qed.

(** ** The theorems at these inputs *)

Lemma consensus_invariant_witness :
  consensus_inv gp_tiny demo_final /\ 1 < cs_timeslot demo_final /\ cs_timeslot demo_final = 12.
Proof.
  exact (consensus_invariant demo_hash demo_ring demo_commitment demo_ring_verify demo_vrf_verify demo_ed_verify demo_payload
    gp_tiny [] false true demo_completed demo_header demo_disputes demo_envelopes demo_validators demo_state demo_final
    demo_gp_ok demo_consensus_inv demo_extrinsic_ok ltac:(vm_compute; discriminate) demo_import_ret).
Defined.

Lemma consensus_errors_witness : raises (app_error demo_ring gp_tiny []) demo_import.
Proof.
  exact (consensus_errors demo_hash demo_ring demo_commitment demo_ring_verify demo_vrf_verify demo_ed_verify demo_payload
    gp_tiny [] false true demo_completed demo_header demo_disputes demo_envelopes demo_validators demo_state
    demo_gp_ok demo_consensus_inv demo_extrinsic_ok ltac:(vm_compute; discriminate)).
Defined.

Lemma consensus_seal_witness :
  exists v e, cs_pool demo_final !! 0%nat = Some v /\ cs_entropy demo_final !! 3%nat = Some e /\
    seals demo_vrf_verify demo_payload gp_tiny demo_header (bandersnatch v) e (slot_sealer_series (cs_safrole demo_final)).
Proof.
  exact (consensus_seal demo_hash demo_ring demo_commitment demo_ring_verify demo_vrf_verify demo_ed_verify demo_payload
    gp_tiny [] false true demo_completed demo_header demo_disputes demo_envelopes demo_validators demo_state demo_final
    demo_gp_ok demo_consensus_inv demo_extrinsic_ok ltac:(vm_compute; discriminate) demo_import_ret).
Defined.

Lemma disputes_invariant_witness : disputes_inv (Disputes.post_state demo_disputes_out).
Proof.
  exact (disputes_invariant demo_ed_verify demo_disputes demo_pre_disputes demo_disputes_out demo_pre_disputes_inv
    ltac:(vm_compute; reflexivity)).
Defined.

Lemma verdict_supermajority_witness :
  [1] ∈ bad_set demo_pre_disputes \/
  exists validators indices, validators ∈ [demo_validators; demo_validators] /\ NoDup indices /\
    Z.of_nat (length indices) = 2 * Z.of_nat (length validators) / 3 + 1 /\
    forall i, i ∈ indices -> exists v signature, 0 <= i /\ validators !! Z.to_nat i = Some v /\
      verify demo_ed_verify (ed25519 v) (get_signing_context false ++ [1]) signature = true.
Proof.
  apply (verdict_supermajority demo_ed_verify gp_tiny 1 demo_validators demo_validators demo_disputes demo_pre_disputes
    demo_disputes_out false [1]); [by vm_compute|by vm_compute|].
  apply list_elem_of_In. vm_compute. by left.
Defined.

Lemma safrole_transition_spec_witness :
  safrole_spec demo_ring demo_ring_verify gp_tiny [] (base demo_header) demo_envelopes 1 demo_safrole demo_validators
    demo_entropy demo_validators [] demo_safrole_out.
Proof.
  exact (safrole_transition_spec demo_hash demo_ring demo_commitment demo_ring_verify gp_tiny [] false true demo_completed
    (base demo_header) demo_envelopes 1 demo_safrole demo_validators demo_entropy demo_validators [] demo_safrole_out
    demo_gp_ok (proj1 demo_extrinsic_ok) ltac:(vm_compute; reflexivity)).
Defined.

Lemma ticket_order_irrelevant_witness :
  agree (Safrole.state_transition demo_hash demo_ring demo_commitment demo_ring_verify gp_tiny [] false true demo_completed
           (base demo_header) demo_envelopes 1 demo_safrole demo_validators demo_entropy demo_validators [])
        (Safrole.state_transition demo_hash demo_ring demo_commitment demo_ring_verify gp_tiny [] false false (seq 0 2)
           (base demo_header) demo_envelopes 1 demo_safrole demo_validators demo_entropy demo_validators []).
Proof.
  exact (ticket_order_irrelevant demo_hash demo_ring demo_commitment demo_ring_verify gp_tiny [] false demo_completed
    (base demo_header) demo_envelopes 1 demo_safrole demo_validators demo_entropy demo_validators [] (proj1 demo_extrinsic_ok)).
Defined.

Lemma guarantor_permute_assigns_witness :
  exists cores, guarantor_permute demo_hash gp_tiny [1; 2] 7 6 = Ret cores /\ length cores = 6%nat /\
    forall c, length (filter (fun x => x = c) cores) = if decide (0 <= c < 2) then 3%nat else 0%nat.
Proof. exact (guarantor_permute_assigns demo_hash gp_tiny [1; 2] 7 2 ltac:(lia)). Defined.

Lemma peer_id_roundtrip_witness :
  ed25519_pubkey_from_peer_id (quic_peer_id (replicate 32 171)) = Ret (replicate 32 171).
Proof.
  apply (peer_id_roundtrip (replicate 32 171)); [done|]. apply Forall_replicate. unfold is_byte. lia.
Defined.

Definition demo_pools : list (list bytes) := [[[1]; [2]; [1]]; [[3]]].
Definition demo_queues : list (list bytes) := [replicate 80 [5]; replicate 80 [6]].
Definition demo_guarantee (core : Z) (authorizer package exports : bytes) : Guarantee :=
  mkGuarantee (mkWorkReport (mkPackageSpec package 0 [] 6 exports 0) (mkRefinementContext [] 0 [] [] [] 0 [] [])
    core authorizer 0 [] [] []) 0 [].
Definition demo_guarantees : list Guarantee := [demo_guarantee 0 [1] [30] [31]; demo_guarantee 1 [3] [20] [21]].

Lemma authorizer_pools_spec_witness :
  match authorizer_pools_transition gp_tiny (base demo_header) demo_guarantees demo_queues demo_pools with
  | Ret post => pools_ok gp_tiny post /\ forall c pool, demo_pools !! c = Some pool ->
      exists rest item, used c demo_guarantees ++ rest ≡ₚ pool /\ queued gp_tiny 12 demo_queues c = Some item /\
        post !! c = Some (extended gp_tiny item rest)
  | Raise e => e = unauthorized /\ exists c pool, demo_pools !! c = Some pool /\ ~ used c demo_guarantees ⊆+ pool
  end.
Proof.
  apply (authorizer_pools_spec gp_tiny (base demo_header) demo_guarantees demo_queues demo_pools demo_gp_ok).
  - split; [done|]. apply Forall_forall. repeat constructor; vm_compute; discriminate.
  - split; [done|]. apply Forall_forall. by repeat constructor.
  - apply Forall_forall. by repeat constructor.
Defined.

Lemma is_authorized_bound_witness : is_authorized demo_pools [1] 2 = Raise IndexError.
Proof. exact (is_authorized_bound demo_pools [1] 2 ltac:(lia)). Defined.

(** Nine blocks: the ninth forgets the first. *)
Definition demo_chain : list (Header * list Guarantee * beefy_argument) :=
  map (fun i => (mkHeader [] i (replicate 32 i) [] None [i], demo_guarantees, CommitmentMap {[ (i, replicate 32 i) ]})) (py_range 1 10).

Example demo_chain_runs :
  match history_blocks demo_hash gp_tiny (mkRecentHistory [] []) demo_chain with
  | Ret s => map rb_header_hash (recent_blocks s) = map (fun i => [i]) (py_range 2 10) /\
      length (accumulation_output_log s) = 4%nat
  | Raise _ => False
  end.
Proof. by vm_compute. Qed.

Lemma history_refines_witness :
  match history_blocks demo_hash gp_tiny (mkRecentHistory [] []) demo_chain with
  | Ret s => exists a, full_steps demo_hash gp_tiny (mkFullHistory [] []) demo_chain a /\ represents demo_hash gp_tiny s a
  | Raise e => e = StateTransitionError Message \/ exists x, x ∈ demo_chain /\ accumulate_root demo_hash x.2 = Raise e
  end.
Proof. exact (history_refines demo_hash gp_tiny [] demo_chain demo_gp_ok). Defined.
