(* ===== verification/DemoAccum.v ===== *)
(** * Concrete runs of the accumulation components

    Reports with one-byte package hashes on the tiny suite, and the theorems of the
    accumulation queue applied to them. *)

From Stdlib Require Import ZArith Lia Bool List.
From stdpp Require Import base numbers option list sets gmap.
From S2P Require Import Prelude ByteOrder Graypaper StateBase Reports Disputes Safrole Shuffle Queue Assurances.
Import ListNotations.

#[local] Open Scope Z_scope.

(** ** The queue *)

(** Report [h] with prerequisites [d]. *)
Definition demo_report (h : Z) (d : list bytes) : WorkReport :=
  mkWorkReport (mkPackageSpec [h] 0 [] 6 [] 0) (mkRefinementContext [] 0 [] [] [] 0 [] d) 0 [] 0 [] [] [].
Definition demo_item (h : Z) (d : list bytes) : AccumulationQueueWorkPackage := mkQueueItem (demo_report h d) d.

(** Report 3 waits for 2, and 2 for 1; 4 waits for an unknown package. *)
Definition demo_queue : list AccumulationQueueWorkPackage :=
  [demo_item 3 [[2]]; demo_item 2 [[1]]; demo_item 4 [[9]]; demo_item 1 []].

Example demo_priority_queue :
  option_map work_report_mapping (priority_queue demo_queue) = Some [[1]; [2]; [3]].
Proof. reflexivity. Qed.

Lemma priority_queue_order_witness : exists out, priority_queue demo_queue = Some out /\ scheduled demo_queue out.
Proof. apply (priority_queue_order demo_queue). apply (bool_decide_eq_true_1 _). vm_compute. reflexivity. Defined.

(** Twelve entries, one report waiting in each of the first two. *)
Definition demo_entries : list (list AccumulationQueueWorkPackage) :=
  [demo_item 20 [[21]]] :: [demo_item 22 [[40]]] :: replicate 10 [].
Definition demo_history : list (list bytes) := replicate 11 [] ++ [[[21]]].

Lemma queue_transition_spec_witness : exists post last,
  queue_transition gp_tiny [demo_item 30 [[31]]] demo_entries demo_history 14 16 = Ret post /\
  list.last demo_history = Some last /\ Z.of_nat (length post) = 12 /\
  forall j, 0 <= j < 12 ->
    post !! Z.to_nat j = Some (aged_entry [demo_item 30 [[31]]] (default [] (demo_entries !! Z.to_nat j)) last
                                 (16 - 14) ((16 - j) mod 12)).
Proof. apply (queue_transition_spec gp_tiny); [exact (gp_const_ok suite_tiny)|reflexivity..]. Defined.

(** A block of three reports on the genesis state; only two of those chosen are accumulated. *)
Definition demo_available : list WorkReport := [demo_report 2 [[1]]; demo_report 1 []; demo_report 4 [[9]]].

Lemma demo_fresh : fresh_reports demo_available (genesis gp_tiny).
Proof.
  split; [apply (bool_decide_eq_true_1 _); vm_compute; reflexivity|].
  intros h _. vm_compute queued_hashes. vm_compute recent_hashes. set_solver.
Qed.

Lemma queue_block_correct_witness : exists chosen s',
  queue_block gp_tiny demo_available 2 0 1 (genesis gp_tiny) = Ret (chosen, s') /\
  work_report_mapping chosen = [[1]; [2]] /\
  queue_ok gp_tiny ([] ++ work_report_mapping (take (Z.to_nat 2) chosen)) s'.
Proof.
  destruct (queue_block_correct gp_tiny [] (genesis gp_tiny) demo_available 2 0 1 (gp_const_ok suite_tiny)
    (genesis_ok gp_tiny (gp_const_ok suite_tiny)) demo_fresh) as (chosen & s' & Hrun & Hok & _).
  exists chosen, s'. split; [exact Hrun|]. split; [|exact Hok].
  vm_compute in Hrun. injection Hrun as <- _. reflexivity.
Defined.

Lemma accumulation_order_witness : exists log s, queue_run gp_tiny log 1 s /\
  work_report_mapping log = [[1]; [2]] /\ in_order log.
Proof.
  destruct (queue_block gp_tiny demo_available 2 0 1 (genesis gp_tiny)) as [[chosen s']|e] eqn:Hrun;
    [|vm_compute in Hrun; discriminate Hrun].
  exists ([] ++ take (Z.to_nat 2) chosen), s'.
  assert (queue_run gp_tiny ([] ++ take (Z.to_nat 2) chosen) 1 s') as H.
  { refine (qr_block gp_tiny [] 0 (genesis gp_tiny) demo_available 2 1 chosen s' (qr_genesis gp_tiny 0) _ demo_fresh Hrun).
    reflexivity. }
  split; [exact H|]. split.
  - vm_compute in Hrun. injection Hrun as <- _. reflexivity.
  - exact (accumulation_order gp_tiny _ 1 s' (gp_const_ok suite_tiny) H).
Defined.

(** ** Assurances *)

(** The report of package 50 is pending on core 0, none on core 1; validators 0 to 4 of the six
    assure core 0, on the parent of the block. *)
Definition demo_pending : AssuranceStateItem :=
  mkPending (mkGuarantee (demo_report 50 []) 1 []) 1.
Definition demo_state : list (option AssuranceStateItem) := [Some demo_pending; None].
Definition demo_validators : list ValidatorData := map (fun n => mkValidatorData [n] [n; n] [] []) [0; 1; 2; 3; 4; 5].
Definition demo_header : Header := mkHeader [77] 3 [] [] None [78].
Definition demo_assurances : list Assurance := map (fun n => mkAssurance [77] [true; false] n [n]) [0; 1; 2; 3; 4].

(** A signature is good when it is not empty. *)
Definition demo_verify (signature message key : bytes) : bool := match signature with [] => false | _ => true end.

Lemma demo_bitfields (a : Assurance) : a ∈ demo_assurances -> Z.of_nat (length (as_bitfield a)) = CORE_COUNT gp_tiny.
Proof. revert a. apply Forall_forall. repeat constructor. Qed.

Lemma assurances_transition_spec_witness :
  state_transition_after_assurances gp_tiny demo_assurances demo_state demo_header (Some demo_validators) (Some demo_validators) =
  Ret (mkAfterAssurances [None; None] [demo_report 50 []]) /\
  freed_state gp_tiny demo_state demo_assurances demo_header demo_validators demo_validators = [None; None].
Proof.
  pose proof (assurances_transition_spec gp_tiny demo_state demo_assurances demo_header demo_validators demo_validators
    eq_refl demo_bitfields) as H.
  destruct (state_transition_after_assurances _ _ _ _ _ _) as [out|e] eqn:E; [|vm_compute in E; discriminate E].
  destruct H as [_ ->]. split; [|vm_compute; reflexivity]. vm_compute. reflexivity.
Defined.

Lemma availability_supermajority_witness : exists c p vs, demo_state !! c = Some (Some p) /\ pe_report p = demo_report 50 [] /\
  NoDup vs /\ 2 * Z.of_nat (length demo_validators) < 3 * Z.of_nat (length vs) /\
  forall v, v ∈ vs -> exists a, a ∈ demo_assurances /\ as_validator_index a = v /\ Z.of_nat c ∈ cores_engaged a.
Proof.
  destruct (state_transition_after_assurances gp_tiny demo_assurances
    (state_transition_after_disputes (fun x => x) wr_authorizer_hash (mkExtrinsicDisputes [] [] []) demo_state) demo_header
    (Some demo_validators) (Some demo_validators)) as [out|e] eqn:E; [|vm_compute in E; discriminate E].
  assert (demo_report 50 [] ∈ aa_reported out) as Hw by (vm_compute in E; injection E as <-; left).
  destruct (availability_supermajority (fun x => x) demo_verify wr_authorizer_hash (map (fun b : bool => if b then 1 else 0)) gp_tiny
    (mkExtrinsicDisputes [] [] []) demo_state demo_assurances demo_header demo_validators demo_validators out (demo_report 50 [])
    eq_refl demo_bitfields ltac:(vm_compute; reflexivity) E Hw) as (c & p & vs & Hc & Hp & _ & _ & Hnd & Hn & Hvs).
  exists c, p, vs. split_and!; try assumption.
  intros v Hv. destruct (Hvs v Hv) as (a & Ha & Hi & Hcore & _). by exists a.
Defined.
