(* ===== verification/DemoStorage.v ===== *)
(** * Concrete runs of the state storage, the state keys and the service accounts

    A finalized block with two forks above it, and the theorems of the storage applied to it;
    the keys and accounts with a hash that keeps its argument's first bytes. *)

From Stdlib Require Import ZArith Lia Bool List.
From stdpp Require Import base numbers option list sets gmap.
From S2P Require Import Prelude ByteOrder Graypaper StateBase Storage StateKeys Accounts.
Import ListNotations.

#[local] Open Scope Z_scope.

(** ** The storage *)

Definition block_id (n : Z) : bytes := n :: replicate 31 7.
Definition demo_key (n : Z) : bytes := [n].

(** A finalized block 1 with two keys. *)
Definition demo_genesis : StateStorage :=
  mkStorage (list_to_map [(demo_key 1, [11]); (demo_key 2, [12])]) (Some (block_id 1)) None ∅ ∅ ∅ ∅.

Lemma demo_genesis_inv : storage_inv demo_genesis (block_id 1).
Proof.
  split; [reflexivity| |intros x _; reflexivity|intros b [c H]; discriminate H].
  intros b. exists [b]. apply chain_block. apply chain_end.
Qed.

(** Block 2 deletes the first key and writes the second; block 3, its sibling, writes a third. *)
Definition demo_storage2 : StateStorage :=
  extended demo_genesis (block_id 2) (block_id 1) (list_to_map [(demo_key 1, None); (demo_key 2, Some [22])]) ∅.
Definition demo_storage : StateStorage :=
  extended demo_storage2 (block_id 3) (block_id 1) (list_to_map [(demo_key 3, Some [33])]) ∅.

Lemma demo_storage_inv : storage_inv demo_storage (block_id 1).
Proof.
  apply extended_inv; [apply extended_inv; [apply demo_genesis_inv|..]|..];
    repeat match goal with |- new_block _ _ _ => split; [|split] end; try reflexivity;
    try (apply (bool_decide_eq_true_1 _); vm_compute; reflexivity).
Qed.

(** Block 4 on block 2, with an open transaction. *)
Definition demo_import : StateStorage :=
  extended demo_storage (block_id 4) (block_id 2) ∅ (list_to_map [(demo_key 1, Some [44])]).

Lemma demo_new : new_block demo_storage (block_id 4) (block_id 2).
Proof. split; [|split]; [reflexivity|reflexivity|apply (bool_decide_eq_true_1 _); vm_compute; reflexivity]. Qed.

Lemma demo_import_inv : storage_inv demo_import (block_id 1).
Proof. apply extended_inv; [apply demo_storage_inv|apply demo_new]. Qed.

Lemma storage_get_view_witness :
  get (demo_key 2) false demo_import = Some (Ret (overlay (transaction demo_import) (state_of demo_import (block_id 4)) !! demo_key 2)) /\
  get (demo_key 2) false demo_import = Some (Ret (Some [22])).
Proof.
  split; [|vm_compute; reflexivity].
  apply (storage_get_view demo_import (block_id 1) (block_id 4)); [apply demo_import_inv|reflexivity|discriminate].
Defined.

Lemma storage_as_dict_view_witness : as_dict demo_storage = Some (Ret (state_of demo_storage (block_id 3))) /\
  as_dict_at (block_id 2) demo_storage = Some (Ret (state_of demo_storage (block_id 2))).
Proof.
  destruct (storage_as_dict_view demo_storage (block_id 1) (block_id 3) demo_storage_inv) as [H _].
  destruct (storage_as_dict_view demo_storage (block_id 1) (block_id 2) demo_storage_inv) as [_ H2].
  split; [apply H; reflexivity|apply H2; [reflexivity|discriminate|reflexivity]].
Defined.

Lemma commit_isolates_forks_witness : exists s1 s2, set_block_hash (block_id 4) (block_id 2) demo_storage = Ret s1 /\
  commit (with_transaction (transaction demo_import) s1) = Ret s2 /\
  state_of s2 (block_id 3) = state_of demo_storage (block_id 3) /\ state_of s2 (block_id 4) !! demo_key 1 = Some [44].
Proof.
  destruct (commit_isolates_forks demo_storage (block_id 1) (block_id 4) (block_id 2) (transaction demo_import)
    demo_storage_inv eq_refl demo_new ltac:(discriminate)) as (s1 & s2 & H1 & H2 & _ & _ & H3 & H4).
  exists s1, s2. split; [exact H1|]. split; [exact H2|]. split; [apply H4; reflexivity|].
  rewrite H3. vm_compute. reflexivity.
Defined.

Lemma discard_restores_witness : exists s1, set_block_hash (block_id 4) (block_id 2) demo_storage = Ret s1 /\
  discard_candidate (block_id 4) (Some (block_id 3)) (with_transaction (transaction demo_import) s1) =
  Ret (with_block_hash (Some (block_id 3)) demo_storage).
Proof.
  apply (discard_restores demo_storage (block_id 1) (block_id 4) (block_id 2)); try reflexivity;
    [apply demo_storage_inv|apply demo_new|discriminate|].
  intros r Hr. injection Hr as <-. reflexivity.
Defined.

Lemma finalize_preserves_states_witness : exists s', finalize (block_id 2) demo_storage = Some (Ret s') /\
  storage_engine s' = state_of demo_storage (block_id 2) /\ has_state_at (block_id 3) s' = false.
Proof.
  destruct (finalize_preserves_states demo_storage (block_id 1) (block_id 2) demo_storage_inv eq_refl eq_refl)
    as (s' & Hrun & _ & He & Hx).
  exists s'. split; [exact Hrun|]. split; [exact He|]. apply not_true_is_false. intros Hs.
  apply (proj1 (proj1 (Hx (block_id 3)))) in Hs as [_ Hin]. revert Hin.
  apply (bool_decide_eq_false_1 _). vm_compute. reflexivity.
Defined.

(** ** Keys *)

(** A "hash" of 32 bytes. *)
Definition demo_hash (x : bytes) : bytes := take 32 (x ++ replicate 32 0).

Lemma demo_hash_length x : length (demo_hash x) = 32%nat.
Proof. unfold demo_hash. rewrite length_take, length_app, length_replicate. lia. Qed.

Lemma state_keys_separate_witness : exists key,
  state_key_constructor_service_account_value demo_hash 5 [1; 2] = Ret key /\ length key = 31%nat.
Proof.
  destruct (state_key_constructor_service_account_value demo_hash 5 [1; 2]) as [key|] eqn:E; [|vm_compute in E; discriminate E].
  exists key. split; [reflexivity|].
  destruct (state_keys_separate demo_hash 5 5 [1; 2] [] key demo_hash_length) as (_ & H & _). exact (H E).
Defined.

Lemma unknown_component_raises_witness : state_key_constructor_component 99 = Raise KeyError.
Proof. apply (unknown_component_raises 99). lia. Defined.

(** ** Accounts *)

(** Little-endian integers, and a sequence with the byte of its length. *)
Fixpoint demo_le (n : nat) (x : Z) : bytes := match n with O => [] | S n => x mod 256 :: demo_le n (x / 256) end.
Fixpoint demo_unle (b : bytes) : Z := match b with [] => 0 | x :: b => x + 256 * demo_unle b end.

Definition demo_fixed (n : nat) (b : bytes) : option Z := if Nat.eqb (length b) n then Some (demo_unle b) else None.

Fixpoint demo_unvec (n : nat) (b : bytes) : list Z :=
  match n with O => [] | S n => demo_unle (take 4 b) :: demo_unvec n (drop 4 b) end.

#[local] Instance demo_codec : Codec := {
  U32_encode := demo_le 4;
  U32_decode := demo_fixed 4;
  U64_encode := demo_le 8;
  U64_decode := demo_fixed 8;
  VecU32_encode l := Z.of_nat (length l) :: concat (map (demo_le 4) l);
  VecU32_decode b := match b with [] => None | n :: b => if (length b =? 4 * Z.to_nat n)%nat then Some (demo_unvec (Z.to_nat n) b) else None end
}.

Lemma demo_le_length n x : length (demo_le n x) = n.
Proof. revert x. induction n as [|n IH]; intros x; simpl; [done|]. by rewrite IH. Qed.

Lemma demo_unle_le n x : 0 <= x < 256 ^ Z.of_nat n -> demo_unle (demo_le n x) = x.
Proof.
  revert x. induction n as [|n IH]; intros x Hx; simpl; [lia|].
  rewrite Nat2Z.inj_succ, Z.pow_succ_r in Hx by lia. rewrite IH; [pose proof (Z.div_mod x 256); lia|].
  split; [apply Z.div_pos; lia|]. apply Z.div_lt_upper_bound; lia.
Qed.

Lemma demo_fixed_le n x : 0 <= x < 256 ^ Z.of_nat n -> demo_fixed n (demo_le n x) = Some x.
Proof. intros Hx. unfold demo_fixed. by rewrite demo_le_length, Nat.eqb_refl, demo_unle_le. Qed.

Lemma demo_unvec_le l : Forall u32 l -> demo_unvec (length l) (concat (map (demo_le 4) l)) = l.
Proof.
  induction 1 as [|x l Hx Hl IH]; [done|]. cbn [length demo_unvec map concat].
  rewrite take_app_length', drop_app_length' by (symmetry; apply demo_le_length). rewrite IH, demo_unle_le; [done|exact Hx].
Qed.

Lemma demo_vec_length l : length (concat (map (demo_le 4) l)) = (4 * length l)%nat.
Proof. induction l as [|x l IH]; [done|]. cbn [map concat length]. rewrite length_app, IH, demo_le_length. lia. Qed.

Lemma demo_le_bytes n x : Forall is_byte (demo_le n x).
Proof. revert x. induction n as [|n IH]; intros x; simpl; constructor; [apply Z.mod_pos_bound; lia|apply IH]. Qed.

Lemma demo_unle_range b : Forall is_byte b -> 0 <= demo_unle b < 256 ^ Z.of_nat (length b).
Proof.
  induction 1 as [|x b Hx Hb IH]; [done|]. cbn [length demo_unle]. rewrite Nat2Z.inj_succ, Z.pow_succ_r by lia.
  unfold is_byte in Hx. lia.
Qed.

Lemma demo_fixed_total n b : Forall is_byte b -> length b = n ->
  exists x, demo_fixed n b = Some x /\ 0 <= x < 256 ^ Z.of_nat n.
Proof.
  intros Hb <-. exists (demo_unle b). unfold demo_fixed. rewrite Nat.eqb_refl. split; [done|]. by apply demo_unle_range.
Qed.

#[local] Instance demo_codec_laws : CodecLaws demo_codec.
Proof.
  split; cbn [U32_encode U32_decode U64_encode U64_decode VecU32_encode VecU32_decode demo_codec]; intros; try apply demo_le_length;
    try apply demo_le_bytes; try (by apply demo_fixed_le); try (by apply demo_fixed_total); try done.
  by rewrite Nat2Z.id, demo_vec_length, Nat.eqb_refl, demo_unvec_le.
Qed.

Definition demo_account : ServiceAccount := mkServiceAccount (replicate 32 9) 5000 10 20 300 0 4 7 8 1.

Lemma demo_account_ok : account_ok demo_account.
Proof. split; vm_compute; try reflexivity; split; (reflexivity || discriminate). Qed.

Lemma account_roundtrip_witness : exists b, to_serialized_bytes demo_account = Ret b /\ from_serialized_bytes b = Ret demo_account.
Proof. apply (account_roundtrip demo_account demo_account_ok). Defined.

Lemma storage_item_persists_witness : exists st,
  write_storage_item demo_hash 5 [1; 2] (Some [3; 4]) (mkServicesState no_changes (Some demo_import) ∅) = Ret st /\
  retrieve_storage_item demo_hash 5 [1; 2] (persisted st) = Ret [3; 4].
Proof.
  destruct (write_storage_item demo_hash 5 [1; 2] (Some [3; 4]) (mkServicesState no_changes (Some demo_import) ∅)) as [st|e] eqn:E;
    [|vm_compute in E; discriminate E].
  exists st. split; [reflexivity|].
  exact (proj1 (storage_item_persists demo_hash 5 [1; 2] (Some [3; 4]) _ st demo_hash_length E)).
Defined.
