(* ===== verification/DemoPipeline.v ===== *)
(** * A chain of blocks that guarantees, assures and accumulates a report

    Three blocks on the tiny suite: an empty one that gives the context of a report its anchor,
    one that guarantees the report, and one that assures and accumulates it; and the theorems
    of the guarantees and of the pipeline applied to them. *)

From Stdlib Require Import ZArith Lia Bool List.
From stdpp Require Import base numbers option list sets gmap.
From S2P Require Import Prelude ByteOrder Graypaper StateBase Reports Disputes Shuffle Safrole History Queue Assurances Storage Accounts Guarantees Pipeline DemoAccum DemoStorage.
Import ListNotations.

#[local] Open Scope Z_scope.
#[local] Existing Instance demo_codec.

Definition demo_encode (w : WorkReport) : bytes := wr_package_hash w.
Definition demo_encode_bits (l : list bool) : bytes := map (fun x : bool => if x then 1 else 0) l.
#[local] Abbreviation run_block := (pipeline_block demo_hash demo_hash demo_verify demo_encode demo_encode_bits gp_tiny).

(** Service 1 has its account among the pending changes. *)
Definition demo_services : ServicesState :=
  mkServicesState (mkPendingChanges {[ 1 := Some demo_account ]} ∅ ∅ ∅) None ∅.

(** Validators 0, 1 and 2 guarantee core 0, the others core 1. *)
Definition demo_guarantors : list GuarantorAssignment :=
  map (fun n => mkGuarantorAssignment (n / 3) [n; n]) [0; 1; 2; 3; 4; 5].

Definition demo_inputs (header : Header) (assurances : list Assurance) (guarantees : list Guarantee) (n : Z) : BlockInputs :=
  mkBlockInputs header (mkExtrinsicDisputes [] [] []) assurances guarantees demo_validators demo_validators demo_services
    [[[60]]; []] [] demo_guarantors demo_guarantors None None true n (CommitmentRoot [8]).

Definition demo_slot_header (slot : Z) : Header := mkHeader [77] slot [55; slot] [] None [100; slot].

Definition demo_block_1 : BlockInputs := demo_inputs (demo_slot_header 1) [] [] 0.
Definition demo_genesis_pipeline : PipelineState := genesis_pipeline gp_tiny 0.
Definition demo_pipeline_1 : PipelineState :=
  match run_block demo_block_1 demo_genesis_pipeline with Ret (_, s) => s | Raise _ => demo_genesis_pipeline end.

(** The report's context names block 1 with its roots. *)
Definition demo_anchor_root : bytes := match recent_blocks (pl_recent demo_pipeline_1) with b :: _ => rb_beefy_root b | [] => [] end.
Definition demo_context : RefinementContext := mkRefinementContext [100; 1] 1 [55; 2] demo_anchor_root [] 0 [] [].
Definition demo_work : WorkReport :=
  mkWorkReport (mkPackageSpec [50] 10 [] 6 [51] 0) demo_context 0 [60] 0 [] []
    [mkWorkDigest 1 (replicate 32 9) [] 10 (ok [1; 2]) (mkRefineLoad 5 0 0 0 0)].
Definition demo_guarantee : Guarantee := mkGuarantee demo_work 2 [mkCredential 0 [1]; mkCredential 2 [1]].

Definition demo_block_2 : BlockInputs := demo_inputs (demo_slot_header 2) [] [demo_guarantee] 0.
Definition demo_pipeline_2 : PipelineState :=
  match run_block demo_block_2 demo_pipeline_1 with Ret (_, s) => s | Raise _ => demo_genesis_pipeline end.
Definition demo_block_3 : BlockInputs := demo_inputs (demo_slot_header 3) demo_assurances [] 1.
Definition demo_pipeline_3 : PipelineState :=
  match run_block demo_block_3 demo_pipeline_2 with Ret (_, s) => s | Raise _ => demo_genesis_pipeline end.

Example demo_run_2 : exists s, run_block demo_block_2 demo_pipeline_1 = Ret ([], s).
Proof. eexists. vm_compute. reflexivity. Qed.
Example demo_run_3 : exists s, run_block demo_block_3 demo_pipeline_2 = Ret ([demo_work], s).
Proof. eexists. vm_compute. reflexivity. Qed.

(** ** The guarantees *)

(** The context in which block 2's guarantees are validated. *)
Definition demo_gc : GuaranteesContext :=
  guarantees_context demo_block_2 demo_pipeline_1 (state_transition_intermediate (demo_slot_header 2) (pl_recent demo_pipeline_1))
    [None; None].
#[local] Abbreviation demo_validate := (validate_guarantees demo_hash demo_verify demo_encode gp_tiny demo_gc).

Lemma demo_gas : gas_typed gp_tiny [demo_guarantee].
Proof.
  split; [discriminate|]. intros g r ->%list_elem_of_singleton ->%list_elem_of_singleton. discriminate.
Qed.

Lemma demo_validated : demo_validate [demo_guarantee] = Ret tt.
Proof. vm_compute. reflexivity. Qed.

Lemma validate_guarantees_spec_witness :
  guarantees_valid demo_hash demo_verify demo_encode gp_tiny demo_gc [demo_guarantee].
Proof. apply (validate_guarantees_spec demo_hash demo_verify demo_encode gp_tiny demo_gc _ demo_gas), demo_validated. Defined.

Lemma guarantees_installed_witness : exists out, state_transition_after_guarantees gp_tiny demo_gc [demo_guarantee] = Ret out /\
  ag_state out !! 0%nat = Some (Some (mkPending demo_guarantee 2)) /\ NoDup (ag_reporters out).
Proof.
  destruct (guarantees_installed demo_hash demo_verify demo_encode gp_tiny demo_gc _ demo_gas demo_validated)
    as (out & Hrun & _ & Hnew & _ & _ & Hnd).
  exists out. split; [exact Hrun|]. split; [|exact Hnd]. apply (Hnew demo_guarantee). left.
Defined.

Lemma pending_report_guaranteed_witness : exists out g (vs : list Z), state_transition_after_guarantees gp_tiny demo_gc [demo_guarantee] = Ret out /\
  g ∈ [demo_guarantee] /\ NoDup vs /\ (2 <= length vs <= 3)%nat.
Proof.
  destruct (state_transition_after_guarantees gp_tiny demo_gc [demo_guarantee]) as [out|e] eqn:E; [|vm_compute in E; discriminate E].
  assert (ag_state out !! 0%nat = Some (Some (mkPending demo_guarantee 2))) as Hp by (vm_compute in E; injection E as <-; reflexivity).
  destruct (pending_report_guaranteed demo_hash demo_verify demo_encode gp_tiny demo_gc _ out 0%nat _ demo_gas demo_validated E Hp)
    as [H|(_ & g & vs & Hg & _ & _ & Hnd & Hlen & _)]; [discriminate H|].
  exists out, g, vs. split; [reflexivity|]. split; [exact Hg|]. split; [exact Hnd|exact Hlen].
Defined.

(** With an empty storage, a report of an unknown service is refused. *)
Definition demo_empty_storage : StateStorage := mkStorage ∅ None None ∅ ∅ ∅ ∅.
Definition demo_gc_empty : GuaranteesContext :=
  mkGuaranteesContext (mkServicesState no_changes (Some demo_empty_storage) ∅) (gc_recent_history demo_gc) [[]; []] [None; None]
    demo_validators (demo_slot_header 2) [] [] 2 [] demo_guarantors demo_guarantors None None true.

Lemma demo_context_ok : context_ok demo_gc_empty [demo_guarantee].
Proof.
  split; [|intros g r ->%list_elem_of_singleton ->%list_elem_of_singleton; discriminate|reflexivity].
  intros id e Hid. unfold retrieve_service_account. destruct (Z.leb_spec (2 ^ 32) id) as [|Hlt]; [congruence|].
  change (pc_accounts _ !! id) with ((∅ : gmap Z (option ServiceAccount)) !! id). rewrite lookup_empty. cbn [gc_services demo_gc_empty state_storage].
  unfold StateKeys.state_key_constructor_service_account, StateKeys.to_bytes4.
  rewrite (proj2 (Z.leb_le 0 id) Hid), (proj2 (Z.ltb_lt id (2 ^ 32)) Hlt). unfold storage_get, get. cbn -[lookup].
  rewrite lookup_empty. congruence.
Qed.

Lemma validate_guarantees_errors_witness : exists e c,
  validate_guarantees demo_hash demo_verify demo_encode gp_tiny demo_gc_empty [demo_guarantee] = Raise e /\ e = GuaranteeE c.
Proof.
  destruct (validate_guarantees demo_hash demo_verify demo_encode gp_tiny demo_gc_empty [demo_guarantee]) as [u|e] eqn:E;
    [vm_compute in E; discriminate E|].
  destruct (validate_guarantees_errors demo_hash demo_verify demo_encode gp_tiny demo_gc_empty _ e demo_context_ok E) as [c Hc].
  exists e, c. split; [reflexivity|exact Hc].
Defined.

Lemma guarantor_assignments_spec_witness : exists l,
  guarantor_assignments demo_hash gp_tiny [[1]; [2]; [3]; [4]] 7 demo_validators = Ret l /\ length l = 6%nat /\
  length (filter (fun a => ga_core_index a = 1) l) = 3%nat.
Proof.
  destruct (guarantor_assignments_spec demo_hash gp_tiny [[1]; [2]; [3]; [4]] 7 demo_validators 2) as (l & Hrun & Hlen & Hcores & _);
    [repeat constructor|reflexivity|repeat constructor|].
  exists l. split; [exact Hrun|]. split; [exact Hlen|]. apply Hcores. split; [discriminate|reflexivity].
Defined.

(** ** The pipeline *)

Lemma demo_typed_1 : block_typed gp_tiny demo_block_1 demo_genesis_pipeline.
Proof. split; [reflexivity|intros a Ha; by apply not_elem_of_nil in Ha|]. split; [discriminate|]. intros g r Hg. by apply not_elem_of_nil in Hg. Qed.
Lemma demo_typed_2 : block_typed gp_tiny demo_block_2 demo_pipeline_1.
Proof. split; [vm_compute; reflexivity|intros a Ha; by apply not_elem_of_nil in Ha|apply demo_gas]. Qed.
Lemma demo_typed_3 : block_typed gp_tiny demo_block_3 demo_pipeline_2.
Proof. split; [vm_compute; reflexivity|apply demo_bitfields|]. split; [discriminate|]. intros g r Hg. by apply not_elem_of_nil in Hg. Qed.

#[local] Abbreviation demo_chain_run := (pipeline_run demo_hash demo_hash demo_verify demo_encode demo_encode_bits gp_tiny).

Lemma demo_chain_3 : demo_chain_run [(demo_block_1, demo_genesis_pipeline); (demo_block_2, demo_pipeline_1); (demo_block_3, demo_pipeline_2)]
  [demo_work] demo_pipeline_3.
Proof.
  assert (demo_chain_run [(demo_block_1, demo_genesis_pipeline)] [] demo_pipeline_1) as H1.
  { apply (pr_block _ _ _ _ _ gp_tiny [] [] demo_genesis_pipeline demo_block_1 [] demo_pipeline_1 (pr_genesis _ _ _ _ _ gp_tiny 0) demo_typed_1).
    vm_compute. reflexivity. }
  assert (demo_chain_run [(demo_block_1, demo_genesis_pipeline); (demo_block_2, demo_pipeline_1)] [] demo_pipeline_2) as H2.
  { apply (pr_block _ _ _ _ _ gp_tiny _ [] demo_pipeline_1 demo_block_2 [] demo_pipeline_2 H1 demo_typed_2). vm_compute. reflexivity. }
  apply (pr_block _ _ _ _ _ gp_tiny _ [] demo_pipeline_2 demo_block_3 [demo_work] demo_pipeline_3 H2 demo_typed_3). vm_compute. reflexivity.
Qed.

Lemma pipeline_end_to_end_witness :
  was_guaranteed demo_hash demo_verify demo_encode gp_tiny
    [(demo_block_1, demo_genesis_pipeline); (demo_block_2, demo_pipeline_1); (demo_block_3, demo_pipeline_2)] demo_work.
Proof.
  destruct (pipeline_end_to_end demo_hash demo_hash demo_verify demo_encode demo_encode_bits gp_tiny _ _ _
    (gp_const_ok suite_tiny) (gp_const_timeout suite_tiny) demo_chain_3) as [_ H].
  apply (H demo_work). left.
Defined.

Lemma pipeline_block_invariant_witness : exists chosen s', run_block demo_block_1 demo_genesis_pipeline = Ret (chosen, s') /\
  pipeline_ok gp_tiny [] s' /\ NoDup (work_report_mapping chosen).
Proof.
  destruct (run_block demo_block_1 demo_genesis_pipeline) as [[chosen s']|e] eqn:E; [|vm_compute in E; discriminate E].
  destruct (pipeline_block_invariant demo_hash demo_hash demo_verify demo_encode demo_encode_bits gp_tiny [] demo_block_1
    demo_genesis_pipeline chosen s' (gp_const_ok suite_tiny) (gp_const_timeout suite_tiny)
    (genesis_pipeline_ok gp_tiny 0 (gp_const_ok suite_tiny)) demo_typed_1 E) as (Hok & Hnd & _).
  exists chosen, s'. split; [reflexivity|]. split; [|exact Hnd]. vm_compute in E. injection E as <- _. exact Hok.
Defined.
