(* ===== verification/DemoAccumulate.v ===== *)
(** * A run of an accumulation

    Two services on an empty storage; the program of the first sends a transfer to the second
    and halts.  The theorems about accumulation, instantiated on it. *)

From Stdlib Require Import ZArith Lia Bool List.
From stdpp Require Import base numbers option list sets gmap relations.
From S2P Require Import Prelude Constants Defs MemorySection Memory BasicBlock Machine Interp Program Invocation Graypaper HostCalls Refine StateBase Sums Storage StateKeys Accounts Pending AccumContext AccumCalls AccumServe Accumulate DemoHost DemoStorage.
Import ListNotations.

#[local] Open Scope Z_scope.
#[local] Existing Instance demo_codec.
#[local] Existing Instance demo_codec_laws.

#[export] Instance input_codec {P : Type} : FetchCodec unit (AccumulationInput P) := {
  U16_encode := le_bytes 2;
  HostCalls.U32_encode := le_bytes 4;
  HostCalls.U64_encode := le_bytes 8;
  VarInt64_encode x := 255 :: le_bytes 8 x;
  WorkPackage_to_jam_bytes p := le_bytes 4 (Z.of_nat (length (wp_items p)));
  context_to_jam_bytes _ := [];
  AccumulationInput_to_jam_bytes _ := [1];
  AccumulationInputs_encode l := le_bytes 8 (Z.of_nat (length l))
}.

#[export] Instance input_codec_laws {P : Type} : FetchCodecLaws unit (AccumulationInput P).
Proof.
  assert (forall n x, blen (le_bytes n x) = Z.of_nat n) as Hlen by (intros n x; unfold blen; by rewrite length_le_bytes).
  assert (forall n x, (n <= 8)%nat -> blob_ok (le_bytes n x)) as Hle.
  { intros n x Hn. split; [apply le_bytes_bytes|]. rewrite Hlen. lia. }
  split; intros.
  1-3: split; [apply le_bytes_bytes|apply Hlen].
  - split; [constructor; [done|apply le_bytes_bytes]|]. unfold blen in *. cbn. lia.
  - apply (Hle 4%nat). lia.
  - split; [constructor|done].
  - split; [by repeat constructor|done].
  - apply (Hle 8%nat). lia.
Qed.

(** Five traps, the offset of accumulation; then [r10 = r7; r7 = 2; r8 = 100; r9 = 50;
    ecalli transfer; jump r0]. *)
Definition transfer_code : bytes := [0; 0; 0; 0; 0; 100; 122; 51; 7; 2; 51; 8; 100; 51; 9; 50; 10; 21; 50; 0].
Definition transfer_blob : bytes :=
  [0; 0; 0; 0; 0; 0; 1; 0; 0; 16; 0; 26; 0; 0; 0] ++ [0; 0; 20] ++ transfer_code ++ [191; 36; 5].

Definition demo_empty : ServicesState :=
  mkServicesState no_changes (Some (mkStorage ∅ (Some (block_id 1)) None ∅ ∅ ∅ ∅)) ∅.

(** Services 1 and 2; the preimage has a byte of metadata. *)
Definition demo_two : ServicesState :=
  put_preimage 1 (code_hash demo_account) (Some (0 :: transfer_blob))
    (put_account 2 (Some demo_account) (put_account 1 (Some demo_account) demo_empty)).

Definition demo_parts : AccumulationStateComponents :=
  mkComponents demo_two [] [[]; []] (mkPrivileged 5 [6; 7] 8 9 ∅).

Definition demo_incoming : AccumulationInput unit := mkInput unit None (Some (mkTransfer 2 1 30 (replicate 128 0) 10)).

Definition demo_accumulation : AccumulateMutator (AccumulationInput unit) :=
  mkAccumulateMutator _ (replicate 32 3) [demo_incoming] gp_tiny false 50.

#[local] Abbreviation run st g := (pvm_invoke_accumulate (jam := bytes_codec) demo_hash (fun b => mkValidatorData b [] [] []) (drop 1) (fetch := input_codec) demo_accumulation st 40 1 g).

(** The transfer is sent, and paid for. *)
Definition demo_out : PvmAccumulateOutput :=
  match run demo_parts 1000 with Some (Ret out) => out | _ => mkAccumulateOutput demo_parts [] None 0 [] end.

Lemma demo_run : run demo_parts 1000 = Some (Ret demo_out).
Proof. vm_compute. reflexivity. Qed.

Lemma demo_empty_get k : storage_get demo_empty k = Ret None.
Proof. reflexivity. Qed.

Lemma to_bytes4_run x : service_id x -> exists a b c d, to_bytes4 x = Ret [a; b; c; d].
Proof. intros [H0 H1]. unfold to_bytes4. rewrite (proj2 (Z.leb_le 0 x) H0), (proj2 (Z.ltb_lt x (2 ^ 32)) H1). by do 4 eexists. Qed.

Lemma demo_value_key id v : service_id id -> exists k, state_key_constructor_service_account_value demo_hash id v = Ret k.
Proof.
  intros Hid. unfold state_key_constructor_service_account_value. destruct (to_bytes4_run id Hid) as (a & b & c & d & ->).
  cbn [mbind outcome_bind]. pose proof (demo_hash_length v) as Hl. destruct (demo_hash v) as [|? [|? [|? ?]]]; try discriminate Hl. by eexists.
Qed.

Lemma demo_empty_readable {tolerance : Tolerance} : readable demo_hash demo_empty.
Proof.
  split.
  - intros id Hid. unfold retrieve_service_account. destruct (Z.leb_spec (2 ^ 32) id) as [|Hlt]; [done|].
    cbn [pending_changes demo_empty pc_accounts no_changes]. rewrite lookup_empty. cbn [state_storage].
    unfold state_key_constructor_service_account. destruct (to_bytes4_run id ltac:(by split)) as (a & b & c & d & ->). done.
  - intros id k Hid. unfold retrieve_storage_item. cbn [pending_changes demo_empty pc_storage_items no_changes]. rewrite lookup_empty.
    cbn [state_storage]. unfold state_key_constructor_storage_item. by destruct (demo_value_key id (le_bytes 4 (2 ^ 32 - 1) ++ k) Hid) as (key & ->).
  - intros id h Hid. unfold retrieve_preimage. cbn [pending_changes demo_empty pc_preimages no_changes]. rewrite lookup_empty.
    cbn [state_storage]. unfold state_key_constructor_preimage. by destruct (demo_value_key id (le_bytes 4 (2 ^ 32 - 2) ++ h) Hid) as (key & ->).
  - intros id h l Hid Hl. left. unfold retrieve_preimage_availability. destruct (Z.ltb_spec id (2 ^ 32)); [|done]. destruct (Z.ltb_spec l (2 ^ 32)); [|done].
    cbn [andb pending_changes demo_empty pc_availability no_changes]. rewrite lookup_empty. cbn [state_storage].
    unfold state_key_constructor_preimage_availability. destruct (to_bytes4_run l ltac:(by split)) as (a & b & c & d & ->). cbn [mbind outcome_bind].
    by destruct (demo_value_key id ([a; b; c; d] ++ h) ltac:(by split)) as (key & ->).
Qed.

Lemma demo_two_readable {tolerance : Tolerance} : readable demo_hash demo_two.
Proof.
  assert (hash_ok (code_hash demo_account)) as Hcode by (split; [by apply Forall_replicate|done]).
  unfold demo_two. apply readable_put_preimage.
  { intros b [= <-]. split; [|done]. apply (bool_decide_eq_true_1 (List.Forall (fun b => 0 <= b < 256) _)). vm_compute. reflexivity. }
  by repeat apply readable_put_account; try apply demo_empty_readable; try (intros b [= <-]).
Qed.

Lemma demo_accumulation_ok : accumulate_mutator_ok demo_hash (RC := unit) demo_accumulation.
Proof.
  split; [apply demo_hash_length|by split|done|]. split; cbn; try done. split; [by repeat constructor|done].
Qed.

Lemma demo_parts_wf {tolerance : Tolerance} : state_wf demo_hash demo_accumulation 40 demo_parts.
Proof. split; [apply demo_two_readable|done..]. Qed.

Lemma demo_metadata (b : bytes) : List.Forall is_byte b -> List.Forall is_byte (drop 1 b).
Proof. apply Forall_drop. Qed.

(** ** Witnesses *)

#[local] Instance demo_tolerance : Tolerance := False.

Lemma accumulate_total_witness :
  exists r, run demo_parts 1000 = Some r /\ (forall out, r = Ret out -> pa_gas_used out <= 1000).
Proof.
  destruct (accumulate_total demo_hash (fun b => mkValidatorData b [] [] []) (drop 1) demo_metadata demo_accumulation
    demo_accumulation_ok 40 1 demo_parts 1000 (demo_parts_wf (tolerance := True))) as (r & Hrun & Hr).
  - by split.
  - by split.
  - exists r. split; [exact Hrun|]. intros out ->. apply Hr.
Defined.

(** The amount sent and the one received, on the two services. *)
Lemma demo_sent : sum_of tr_amount (pa_deferred_transfers demo_out) = 100.
Proof. vm_compute. reflexivity. Qed.
Lemma demo_received : sum_of tr_amount (incoming (am_accumulation_inputs demo_accumulation)) = 30.
Proof. vm_compute. reflexivity. Qed.

Lemma accumulate_conserves_funds_witness :
  exists T, forall ids, NoDup ids -> T ⊆ ids ->
    sum_of (balance_of (services (pa_state_context demo_out))) ids + 100 = sum_of (balance_of (services demo_parts)) ids + 30.
Proof.
  assert (exists a, retrieve_service_account 1 true (services demo_parts) = Ret a) as Hex by (exists demo_account; reflexivity).
  pose proof (accumulate_conserves_funds demo_hash (fun b => mkValidatorData b [] [] []) (drop 1) demo_metadata demo_accumulation
    demo_accumulation_ok 40 1 demo_parts 1000 demo_out demo_parts_wf ltac:(by split) ltac:(by split) Hex demo_run) as H.
  rewrite demo_sent, demo_received in H. exact H.
Defined.

Lemma accumulate_isolated_witness :
  untouched demo_hash 2 (services demo_parts) (services (pa_state_context demo_out)).
Proof.
  apply (accumulate_isolated demo_hash (fun b => mkValidatorData b [] [] []) (drop 1) demo_metadata demo_accumulation
    demo_accumulation_ok 40 1 demo_parts 1000 demo_out 2 demo_account demo_parts_wf ltac:(by split) ltac:(by split) demo_run).
  - done.
  - done.
  - reflexivity.
  - vm_compute. discriminate.
Defined.

Lemma demo_solvent : solvent gp_tiny demo_two.
Proof.
  assert (affords gp_tiny demo_account) as Ha by (vm_compute; discriminate).
  intros id a Hid. destruct (decide (id = 1)) as [->|H1]; [intros [= <-]; exact Ha|].
  destruct (decide (id = 2)) as [->|H2]; [intros [= <-]; exact Ha|].
  unfold retrieve_service_account. destruct (_ <=? _); [done|]. cbn [pending_changes demo_two put_preimage put_account with_preimages with_accounts pc_accounts demo_empty no_changes].
  rewrite lookup_insert_ne, lookup_insert_ne, lookup_empty by congruence. cbn [state_storage with_accounts put_account].
  intros H. exfalso. revert H. unfold state_key_constructor_service_account. destruct (to_bytes4 id) as [b|]; [|done]. cbn [mbind outcome_bind].
  destruct b as [|? [|? [|? [|? [|]]]]]; done.
Qed.

Lemma accumulate_solvent_witness : solvent gp_tiny (services (pa_state_context demo_out)).
Proof.
  apply (accumulate_solvent demo_hash (fun b => mkValidatorData b [] [] []) (drop 1) demo_metadata demo_accumulation
    demo_accumulation_ok 40 1 demo_parts 1000 demo_out demo_parts_wf ltac:(by split) ltac:(by split)).
  - by split.
  - by repeat constructor.
  - exact demo_run.
  - exact demo_solvent.
Defined.

Lemma accumulate_unprivileged_witness :
  privileged_services (pa_state_context demo_out) = privileged_services demo_parts.
Proof.
  apply (accumulate_unprivileged demo_hash (fun b => mkValidatorData b [] [] []) (drop 1) demo_metadata demo_accumulation
    demo_accumulation_ok 40 1 demo_parts 1000 demo_out demo_parts_wf ltac:(by split) ltac:(by split) eq_refl).
  - done.
  - done.
  - cbn. rewrite !elem_of_cons, elem_of_nil. lia.
  - exact demo_run.
Defined.

(** ** Single calls *)

Definition demo_first : AccumulateContextItem := first_item 1 demo_parts 70000.
Definition demo_invocation : AccumulateInvocationContext := mkAccumulateContext demo_first demo_first 40.

Lemma demo_context_wf : context_wf demo_hash gp_tiny 40 demo_invocation.
Proof.
  assert (item_wf demo_hash gp_tiny 40 demo_first) as Hitem; [|by split].
  split; try done; [by exists demo_account|apply demo_two_readable].
Qed.

(** A transfer from the machine of [DemoHost]. *)
Lemma accumulate_execute_refines_witness :
  exists r x' vm', accumulate_execute (fetch := input_codec) demo_hash (fun b => mkValidatorData b [] [] []) demo_accumulation 21
      (gas demo_host_vm) (reg demo_host_vm) demo_invocation demo_host_vm = (r, (x', vm')) /\
    rtc (call_step demo_hash gp_tiny false 40) demo_invocation x' /\ context_wf demo_hash gp_tiny 40 x'.
Proof.
  destruct (accumulate_execute_refines demo_hash (fun b => mkValidatorData b [] [] []) (fetch := input_codec) demo_accumulation
    demo_accumulation_ok 40 21 demo_invocation demo_host_vm demo_context_wf demo_bounds demo_host_ready) as (r & x' & vm' & Hrun & Hc & Hwf & _).
  - vm_compute. split; congruence.
  - exists r, x', vm'. split; [exact Hrun|]. split; [exact Hc|exact Hwf].
Defined.

Lemma provide_empty_raises_witness :
  (accumulate_execute (fetch := input_codec) demo_hash (fun b => mkValidatorData b [] [] []) demo_accumulation 27 5000
    (<[8%nat := 2 ^ 32]> (replicate 13 0)) demo_invocation demo_host_vm).1 = Raise PVMMemoryError.
Proof.
  apply (provide_empty_raises demo_hash (fun b => mkValidatorData b [] [] []) demo_accumulation (2 ^ 32)).
  - reflexivity.
  - reflexivity.
  - reflexivity.
  - vm_compute. congruence.
  - lia.
Defined.

(** The transfer costs 575 and the 50 it forwards. *)
Lemma accumulate_pays_transfers_witness : sum_of transfer_cost (pa_deferred_transfers demo_out) = 625 /\ 625 <= pa_gas_used demo_out <= 1000.
Proof.
  assert (sum_of transfer_cost (pa_deferred_transfers demo_out) = 625) as H by (vm_compute; reflexivity).
  split; [exact H|]. rewrite <- H.
  apply (accumulate_pays_transfers demo_hash (fun b => mkValidatorData b [] [] []) (drop 1) demo_metadata demo_accumulation
    demo_accumulation_ok 40 1 demo_parts 1000 demo_out demo_parts_wf ltac:(by split) ltac:(by split) demo_run).
Defined.

(** ** An item in the place of a request *)

Definition demo_garbled : ServicesState :=
  match write_storage_item demo_hash 5 (replicate 32 1) (Some [3; 4]) (mkServicesState no_changes (Some demo_import) ∅) with
  | Ret st => st
  | Raise _ => demo_empty
  end.

Lemma request_reads_item_witness :
  retrieve_preimage_availability demo_hash 5 (replicate 32 1) (2 ^ 32 - 1) (persisted demo_garbled) = Raise ValueError /\
  ~ readable (tolerance := False) demo_hash (persisted demo_garbled).
Proof.
  destruct (request_reads_item demo_hash 5 (replicate 32 1) [3; 4] demo_garbled) as [Hrun Hno].
  - by split.
  - done.
  - vm_compute. reflexivity.
  - split; [rewrite Hrun; reflexivity|apply Hno; reflexivity].
Defined.
