(* ===== verification/DemoRounds.v ===== *)
(** * Rounds of accumulation, run

    Two reports that do not fit into one round, and what two services did side by side: the
    theorems about rounds, the merge and the privileges, instantiated on them. *)

From Stdlib Require Import ZArith Lia Bool List.
From stdpp Require Import base numbers option list sets gmap relations sorting.
From S2P Require Import Prelude Constants Defs MemorySection Memory BasicBlock Program Invocation Graypaper HostCalls Refine StateBase Sums Reports Storage StateKeys Accounts Pending AccumContext AccumCalls AccumServe Accumulate Services Preimages Merge Privileges Rounds Safrole Queue Statistics DemoHost DemoStorage DemoAccum DemoAccumulate.
Import ListNotations.

#[local] Open Scope Z_scope.
#[local] Existing Instance demo_codec.
#[local] Existing Instance demo_codec_laws.

#[local] Instance demo_tolerance : Tolerance := False.

Definition demo_items (K A : Type) (E : EqDecision K) (C : Countable K) (m : gmap K A) : list (K * A) := map_to_list m.

Definition demo_settings : AccumulationSettings := mkAccumulationSettings gp_tiny false None 50 40 (replicate 32 3).

(** The services 1 and 2 have no account, so their digests use no gas. *)
Definition demo_digest (s : Z) : WorkDigest := mkWorkDigest s [] [] 30 (ok [1]) (mkRefineLoad 0 0 0 0 0).
Definition demo_results (s : Z) : WorkReport :=
  let w := demo_report s [] in
  mkWorkReport (wr_package_spec w) (wr_context w) 0 [] 0 [] [] [demo_digest s].

Definition demo_start : AccumulationStateComponents := mkComponents demo_empty [] [[]; []] (mkPrivileged 5 [6; 7] 8 9 ∅).

#[local] Abbreviation demo_decode := (fun b => mkValidatorData b [] [] []).
#[local] Abbreviation demo_rounds d := (full_sequential_accumulation (jam := bytes_codec) demo_hash demo_decode (drop 1) (fetch := input_codec)
  demo_items d demo_settings 50 [] [demo_results 1; demo_results 2] demo_start ∅).

Definition demo_full : FullAccumulationOutput := match demo_rounds 10%nat with Some (Ret o) => o | _ => mkFull 0 demo_start ∅ ∅ [] end.

Lemma demo_full_run : demo_rounds 10%nat = Some (Ret demo_full).
Proof. vm_compute. reflexivity. Qed.

Example demo_full_reports : nr_work_results_accumulated demo_full = 2.
Proof. vm_compute. reflexivity. Qed.

Lemma demo_settings_ok : settings_ok demo_hash demo_settings.
Proof. split; [apply demo_hash_length|by split|done| |done]. split; [by repeat constructor|done]. Qed.

Lemma demo_start_readable : readable_state demo_hash demo_settings demo_start.
Proof. split; [apply demo_empty_readable|done..]. Qed.

(** A round with one of the reports changes nothing. *)
Lemma demo_round s : s = 1 \/ s = 2 ->
  parallel_accumulation (jam := bytes_codec) demo_hash demo_decode (drop 1) (fetch := input_codec) demo_items demo_settings demo_start [] [demo_results s] ∅ =
    Some (Ret (mkParallel demo_start [] ∅ {[ s := 0 ]})).
Proof. intros [-> | ->]; vm_compute; reflexivity. Qed.

#[local] Abbreviation demo_readable := (readable_rounds (jam := bytes_codec) (fetch := input_codec) demo_hash demo_decode (drop 1) demo_items demo_settings).

Lemma demo_rounds_readable d : demo_readable d 50 [] [demo_results 1; demo_results 2] demo_start ∅.
Proof.
  destruct d as [|d]; [done|]. cbn [readable_rounds].
  change (finished 50 [] [demo_results 1; demo_results 2] ∅) with false. cbv iota. split; [exact demo_start_readable|]. intros out Hout.
  change (taken 50 [] [demo_results 1; demo_results 2] ∅) with 1%nat in Hout |- *. cbn [take drop] in Hout |- *.
  rewrite (demo_round 1) in Hout by by left. injection Hout as <-. clear.
  destruct d as [|d]; [done|]. cbn [readable_rounds pl_deferred_transfers pl_accumulation_state].
  change (finished _ [] [demo_results 2] ∅) with false. cbv iota. split; [exact demo_start_readable|]. intros out Hout.
  change (taken _ [] [demo_results 2] ∅) with 1%nat in Hout |- *. cbn [take drop] in Hout |- *.
  rewrite (demo_round 2) in Hout by by right. injection Hout as <-. clear. by destruct d.
Qed.

Lemma demo_rounds_typed : rounds_typed 50 [] [demo_results 1; demo_results 2] ∅.
Proof. split; [|done|done]. split; [constructor|]. split; [|apply map_Forall_empty]. by repeat constructor. Qed.

(** ** Witnesses *)

Lemma rounds_end_witness : exists r, r <> Raise (InState RecursionDepth) /\ demo_rounds 4%nat = Some r /\ demo_rounds 10%nat = Some r.
Proof.
  destruct (rounds_end demo_hash demo_decode (drop 1) demo_metadata demo_items demo_settings demo_settings_ok 50 [] [demo_results 1; demo_results 2]
    demo_start ∅ demo_rounds_typed (demo_rounds_readable _)) as (r & _ & Hr & Hrun).
  exists r. split; [exact Hr|]. split; apply Hrun; reflexivity.
Defined.

Lemma rounds_gas_witness : 0 <= 50 - sum_values (accumulation_gas_utilized demo_full) /\ 0 <= nr_work_results_accumulated demo_full <= 2.
Proof.
  destruct (rounds_gas demo_hash demo_decode (drop 1) demo_metadata demo_items demo_settings demo_settings_ok 10 50 []
    [demo_results 1; demo_results 2] demo_start ∅ demo_full demo_rounds_typed (demo_rounds_readable 10) demo_full_run) as (Hleft & Hn & _).
  assert (sum_of tr_gas_limit (processed_transfers demo_full) = 0) as Hp by (vm_compute; reflexivity).
  rewrite Hp in Hleft. cbn [sum_of] in Hleft. split; [lia|exact Hn].
Defined.

(** ** The merge *)

(** An output with some changes, and some privileges. *)
Definition demo_output (p : PendingChanges) (roles : PrivilegedServicesState) : PvmAccumulateOutput :=
  mkAccumulateOutput (mkComponents (mkServicesState p (state_storage demo_empty) ∅) [] [[]; []] roles) [] None 0 [].

(** Service 1 writes an item, ejects service 2 and creates service 70000; 2 writes as well. *)
Definition demo_outputs : list (Z * PvmAccumulateOutput) :=
  [(1, demo_output (mkPendingChanges {[ 2 := None; 70000 := Some demo_account ]} {[ (1, [7]) := Some [8] ]} ∅ ∅) (privileged_services demo_start));
   (2, demo_output (mkPendingChanges {[ 2 := Some demo_account ]} {[ (2, [7]) := Some [9] ]} ∅ ∅) (privileged_services demo_start))].

Definition demo_merged : PendingChanges :=
  mkPendingChanges {[ 2 := None; 70000 := Some demo_account ]} {[ (1, [7]) := Some [8]; (2, [7]) := None ]} ∅ ∅.

Lemma demo_merge : merge_accumulation_service_changes demo_two demo_outputs = Ret demo_merged.
Proof. vm_compute. reflexivity. Qed.

Lemma merge_ownership_witness :
  item_survives demo_two demo_outputs fst pc_storage_items (2, [7]) None /\ ~ conflict demo_two demo_outputs.
Proof.
  assert (NoDup demo_outputs.*1) as Hnd by (apply (bool_decide_eq_true_1 (NoDup [1; 2])); reflexivity).
  pose proof (merge_ownership demo_two demo_outputs Hnd) as H. rewrite demo_merge in H. destruct H as (_ & H & _ & _ & Hc).
  split; [|exact Hc]. apply H. reflexivity.
Defined.

(** ** The privileges *)

(** Service 6 hands core 0 to 7, which assigns core 1. *)
Definition demo_roles (a : Z) : PrivilegedServicesState := mkPrivileged 5 [a; 7] 8 9 ∅.
Definition demo_giver := demo_output no_changes (demo_roles 7).
Definition demo_taker := demo_output no_changes (demo_roles 6).
#[local] Abbreviation demo_settle outputs := (settle demo_hash demo_items demo_settings demo_start outputs).
Definition demo_settled (outputs : list (Z * PvmAccumulateOutput)) : AccumulationStateComponents :=
  match demo_settle outputs with Ret e => e | Raise _ => demo_start end.

Lemma demo_settle_alone : demo_settle [(6, demo_giver)] = Ret (demo_settled [(6, demo_giver)]).
Proof. vm_compute. reflexivity. Qed.
Lemma demo_settle_both : demo_settle [(6, demo_giver); (7, demo_taker)] = Ret (demo_settled [(6, demo_giver); (7, demo_taker)]).
Proof. vm_compute. reflexivity. Qed.

Lemma privileges_after_round_witness : delegator (privileged_services (demo_settled [(6, demo_giver)])) = 8.
Proof.
  destruct (privileges_after_round demo_hash demo_items demo_settings demo_start [(6, demo_giver)] (demo_settled [(6, demo_giver)])) as (_ & _ & Hd & _).
  - by split.
  - apply Forall_cons. split; [by split|]. apply Forall_nil. done.
  - apply NoDup_singleton.
  - exact demo_settle_alone.
  - rewrite Hd. vm_compute. reflexivity.
Defined.

Lemma handover_reverted_witness :
  assigners (privileged_services (demo_settled [(6, demo_giver)])) !! 0%nat = Some 7 /\
  assigners (privileged_services (demo_settled [(6, demo_giver); (7, demo_taker)])) !! 0%nat = Some 6.
Proof.
  apply (handover_reverted demo_hash demo_items demo_settings demo_start 0 6 7 demo_giver demo_taker).
  - by split.
  - by split.
  - by split.
  - lia.
  - cbn. lia.
  - cbn. lia.
  - reflexivity.
  - reflexivity.
  - reflexivity.
  - exact demo_settle_alone.
  - exact demo_settle_both.
Defined.

(** ** The statistics *)

(** A block in a new epoch: a report of service 2 on core 0, a preimage for service 1, one assurer. *)
Definition demo_counted : StatisticsInput :=
  mkStatisticsInput [mkGuarantee (demo_results 2) 1 []] [mkPreimage 1 [1; 2; 3]] [mkAssurance [] [true; false] 1 []] [] [[7]] []
    {[ 2 := mkAccumulationStatistic 40 1 0 ]} [mkValidatorData [] [6] [] []; mkValidatorData [] [7] [] []] 1 13 1.
Definition demo_statistics : StatisticsState :=
  mkStatistics [no_activity; no_activity] [] (replicate 2 (mkCoreActivity 0 0 0 0 0 0 0 0)) ∅.

Lemma statistics_account_witness : exists post, state_transition gp_tiny demo_counted demo_statistics = Ret post /\
  sum_of ar_pre_images_size (vals_current post) = 3 /\ sum_of ar_assurances (vals_last post) = 1 /\ total sv_accumulate_gas_used post = 40.
Proof.
  destruct (statistics_account gp_tiny demo_counted demo_statistics) as (post & Hrun & _ & _ & _ & Hsize & _ & Has & _ & _ & _ & _ & Hgas).
  { split; [by repeat constructor|done|done|done|by repeat constructor]. }
  exists post. split; [exact Hrun|]. split; [exact Hsize|]. split; [exact Has|]. rewrite Hgas. vm_compute. reflexivity.
Defined.

(** ** The preimages *)

Definition demo_preimages : list Preimage := [mkPreimage 1 [1; 2; 3]; mkPreimage 2 [1; 2]].
Definition demo_requests : ServicesState :=
  put_availability 1 (demo_hash [1; 2; 3]) 3 (Some []) (put_availability 2 (demo_hash [1; 2]) 2 (Some []) demo_empty).

Lemma demo_needed : all_needed demo_hash demo_preimages demo_requests.
Proof. repeat (apply Forall_cons; split; [vm_compute; reflexivity|]). by apply Forall_nil. Qed.

Lemma preimages_accepted_witness : validate_extrinsic_preimages demo_hash demo_preimages demo_requests = Ret tt.
Proof.
  apply (preimages_accepted demo_hash demo_preimages demo_requests).
  - by repeat constructor.
  - split; [|exact demo_needed]. apply StronglySorted_cons. split; [|apply StronglySorted_cons; split; [by apply Forall_nil|constructor]].
    apply Forall_cons. split; [vm_compute; reflexivity|by apply Forall_nil].
Defined.

Lemma preimages_provided_witness : exists st, state_transition_after_preimages demo_hash demo_preimages demo_requests 40 = Ret st /\
  historical_preimage_lookup demo_hash 2 41 (demo_hash [1; 2]) st = Ret (Some [1; 2]).
Proof.
  destruct (preimages_provided demo_hash 40 demo_preimages demo_requests demo_hash_length) as (st & Hrun & Hall & _).
  - by split.
  - by repeat constructor.
  - constructor; [|constructor; [by apply Forall_nil|constructor]]. apply Forall_cons. split; [|by apply Forall_nil].
    assert (Forall (fun k => k ∉ state_keys demo_hash (mkPreimage 2 [1; 2])) (state_keys demo_hash (mkPreimage 1 [1; 2; 3]))) as Hk
      by (refine (bool_decide_eq_true_1 _ _); vm_compute; reflexivity).
    exact (proj1 (Forall_forall _ _) Hk).
  - by eexists.
  - exact demo_needed.
  - exists st. split; [exact Hrun|]. apply (Hall (mkPreimage 2 [1; 2]) 41); [by right; left|lia].
Defined.
