(* ===== verification/DemoSettle.v ===== *)
(** * A request that is marked, and nothing else

    A service in the state, whose program calls [forget] on a request for a preimage it has had
    since slot 10 and halts: the call answers [OK], and the round raises the [KeyError] of
    [Settle]. *)

From Stdlib Require Import ZArith Lia Bool List.
From stdpp Require Import base numbers option list sets gmap relations sorting.
From S2P Require Import Prelude Constants Defs MemorySection Memory BasicBlock Program Invocation Graypaper HostCalls Refine StateBase Sums Reports Storage StateKeys Accounts Pending AccumContext AccumCalls AccumServe Accumulate Services Merge Settle DemoHost DemoStorage DemoAccum DemoAccumulate DemoRounds.
Import ListNotations.

#[local] Open Scope Z_scope.
#[local] Existing Instance demo_codec.
#[local] Existing Instance demo_codec_laws.

(** Five traps, the offset of accumulation; then [r7 = 65536; r8 = 3; ecalli forget; jump r0].
    The read-only data is the hash of the preimage. *)
Definition forget_code : bytes := [0; 0; 0; 0; 0; 51; 7; 0; 0; 1; 51; 8; 3; 10; 25; 50; 0].
Definition forget_blob : bytes :=
  [32; 0; 0; 0; 0; 0; 1; 0; 0; 16; 0] ++ demo_hash [1; 2; 3] ++ [23; 0; 0; 0] ++ [0; 0; 17] ++ forget_code ++ [63; 164; 0].

Definition forgetful_account : ServiceAccount := mkServiceAccount (demo_hash (0 :: forget_blob)) 5000 10 20 300 0 4 7 8 1.

(** The account, its program and its request are stored, not pending. *)
Definition forgetful_stored : outcome state_exn ServicesState :=
  st ← store_service_account 1 forgetful_account true demo_empty;
  st ← store_preimage demo_hash 1 (0 :: forget_blob) true st;
  st ← store_preimage_availability demo_hash 1 (demo_hash [1; 2; 3]) 3 [10] true st;
  Ret (persisted st).
Definition forgetful : ServicesState := match forgetful_stored with Ret st => st | Raise _ => demo_empty end.

Definition forgetful_start : AccumulationStateComponents := mkComponents forgetful [] [[]; []] (mkPrivileged 5 [6; 7] 8 9 ∅).
Definition forgetful_report : WorkReport :=
  let w := demo_report 1 [] in
  mkWorkReport (wr_package_spec w) (wr_context w) 0 [] 0 [] [] [mkWorkDigest 1 [] [] 5000 (ok [1]) (mkRefineLoad 0 0 0 0 0)].

#[local] Abbreviation demo_decode := (fun b => mkValidatorData b [] [] []).
Definition forgetful_outputs : list (Z * PvmAccumulateOutput) :=
  match run_services (single_step_accumulation (jam := bytes_codec) demo_hash demo_decode (drop 1) (fetch := input_codec) demo_settings
          forgetful_start [] [forgetful_report] ∅) [1] with
  | Some (Ret outputs) => outputs
  | _ => []
  end.

(** The call has stored the slots of the request, not the account. *)
Example forgetful_marked : map (fun o => (o.1, pc_availability (pending_of o.2), pc_accounts (pending_of o.2))) forgetful_outputs =
  [(1, {[ (1, demo_hash [1; 2; 3], 3) := Some [10; 40] ]}, ∅)].
Proof. vm_compute. reflexivity. Qed.

(** The round raises. *)
Example forgetful_round : parallel_accumulation (jam := bytes_codec) demo_hash demo_decode (drop 1) (fetch := input_codec) demo_items demo_settings
  forgetful_start [] [forgetful_report] ∅ = Some (Raise (InState KeyError)).
Proof. vm_compute. reflexivity. Qed.
