(* ===== verification/DemoImport.v ===== *)
(** * Blocks imported

    The first block of an epoch on the tiny suite, with a verdict, a culprit and two tickets,
    imported through [_import_block]; the same with a mark that is not right, which is refused
    in the middle of the transition; and the header of the selected block with another body. *)

From Stdlib Require Import ZArith Lia Bool List.
From stdpp Require Import base numbers option list sets gmap.
From S2P Require Import AccumContext Accumulate Services Prelude Graypaper StateBase Reports Merkle Mmr Disputes Shuffle Safrole History Consensus Queue Assurances Storage StateKeys Accounts Guarantees Pipeline Statistics AppState Import ImportStorage DemoHost DemoStorage DemoAccumulate DemoRounds DemoState.
Import ListNotations.

#[local] Open Scope Z_scope.
#[local] Existing Instance demo_codec.

(** ** The state and its serialisation *)

Definition demo_jam : JamState :=
  jam_state 1 demo_entropy demo_pre_disputes demo_validators demo_validators demo_safrole (pl_assurances (genesis_pipeline gp_tiny 1))
    (mkStatistics (replicate 6 no_activity) (replicate 6 no_activity) (replicate 2 (mkCoreActivity 0 0 0 0 0 0 0 0)) ∅)
    (pl_recent (genesis_pipeline gp_tiny 1)) [[]; []] demo_queues (qs_queue (Queue.genesis gp_tiny)) (qs_history (Queue.genesis gp_tiny))
    demo_validators (mkPrivileged 5 [6; 7] 8 9 ∅) ∅.

(** A component is stored under its number, and read back as it was at first. *)
#[local] Instance demo_state_codec : StateCodec := {
  to_jam_bytes c _ := [component_id c];
  from_jam_bytes c _ := Some (demo_jam c)
}.

#[local] Instance demo_extrinsic_codec : ExtrinsicCodec := {
  tickets_encode _ := []; preimages_encode _ := []; guarantees_encode _ := []; assurances_encode _ := []; disputes_to_jam_bytes _ := []
}.

Definition demo_import_settings : ImportSettings :=
  mkImportSettings gp_tiny [] false true demo_completed false 100 false true false None 50 50 [].

Definition demo_root : bytes := replicate 32 8.

(** Block 1 is finalized; block 2 and, selected, block 3 are its children. *)
Definition demo_components : gmap bytes bytes :=
  list_to_map (omap (fun c => match state_key_constructor_component (component_id c) with Ret k => Some (k, [component_id c]) | Raise _ => None end) components).
Definition demo_base : StateStorage := mkStorage demo_components (Some (block_id 1)) None ∅ ∅ ∅ ∅.
Definition demo_fork : StateStorage := extended demo_base (block_id 2) (block_id 1) ∅ ∅.
Definition demo_head : StateStorage := extended demo_fork (block_id 3) (block_id 1) ∅ ∅.

Definition demo_parent : Ancestor := mkAncestor (block_id 3) (block_id 1) 1 (Some demo_root).
Definition demo_app : App :=
  mkApp (add_ancestor demo_parent demo_head) {[ block_id 3 := demo_parent ]} (Some (demo_jam, demo_root)).

(** Block 4, on block 3, with this mark of the offenders. *)
Definition demo_block (offenders : list bytes) : Block :=
  mkBlock (mkBlockHeader (mkHeader (block_id 3) 12 demo_root [] None (block_id 4)) 0 (Some demo_mark) None offenders [])
    (replicate 32 0) (mkExtrinsic demo_envelopes [] [] [] demo_disputes).

#[local] Abbreviation demo_import b a := (import_block (jam := bytes_codec) (fetch := input_codec) demo_hash demo_hash (fun k => mkValidatorData k [] [] []) (drop 1) demo_items
  demo_ring demo_commitment demo_ring_verify demo_vrf_verify demo_ed_verify demo_payload (fun _ => []) (fun _ => []) demo_import_settings ∅ b a).

Definition demo_good : Block := demo_block [replicate 32 103].
Definition demo_bad : Block := demo_block [].

(** ** The accepted block *)

Definition demo_imported : option (App * STFOutput) := match demo_import demo_good demo_app with Some (Ret x) => Some x | _ => None end.

Lemma demo_accepted : exists a out, demo_import demo_good demo_app = Some (Ret (a, out)).
Proof.
  assert (match demo_import demo_good demo_app with Some (Ret _) => true | _ => false end = true) as H by (vm_compute; reflexivity).
  destruct (demo_import demo_good demo_app) as [[[a out]|x]|]; [by exists a, out|discriminate H..].
Qed.

Lemma demo_state_ok : state_ok demo_import_settings [] demo_jam.
Proof. split; [exact demo_consensus_inv|]. exact (genesis_pipeline_ok gp_tiny 1 demo_gp_ok). Qed.

Lemma demo_block_ok : block_ok demo_import_settings demo_good demo_jam.
Proof.
  split; [discriminate|exact demo_extrinsic_ok|intros x Hx; by apply not_elem_of_nil in Hx|]. split; [discriminate|]. intros g r Hg. by apply not_elem_of_nil in Hg.
Qed.

Lemma demo_initialize : forall ws s, initialize demo_hash demo_good (working_state demo_app) (start_tx (app_storage demo_app)) = Ret (ws, s) -> ws = (demo_jam, demo_root).
Proof.
  intros ws s. unfold initialize. destruct (set_block_hash _ _ _) as [s1|x]; [|discriminate]. by intros [= <- _].
Qed.

Lemma demo_head_inv : storage_inv (app_storage demo_app) (block_id 1).
Proof.
  unfold demo_app. cbn [app_storage]. change (add_ancestor demo_parent demo_head) with
    (mkStorage (storage_engine demo_head) (finalized_block_hash demo_head) (block_hash demo_head) (change_sets demo_head) (transaction demo_head)
      (<[block_id 3 := Some (block_id 1)]> (<[block_id 3 := Some (block_id 1)]> (parents demo_fork))) {[ block_id 3 := demo_parent ]}).
  rewrite insert_insert_eq. apply (with_ancestors_inv _ demo_head). apply extended_inv; [apply extended_inv; [split|]|].
  - reflexivity.
  - intros b. exists [b]. apply chain_block. apply chain_end.
  - intros x _. reflexivity.
  - intros b [c H]. discriminate H.
  - split; [|split]; [reflexivity|reflexivity|apply (bool_decide_eq_true_1 _); vm_compute; reflexivity].
  - split; [|split]; [reflexivity|reflexivity|apply (bool_decide_eq_true_1 _); vm_compute; reflexivity].
Qed.

Lemma import_invariant_witness : exists a out st r accumulated, demo_import demo_good demo_app = Some (Ret (a, out)) /\
  working_state a = Some (st, r) /\ state_ok demo_import_settings accumulated st /\ 1 < st timeslot_c /\ st timeslot_c = 12.
Proof.
  destruct demo_accepted as (a & out & Hrun). exists a, out.
  edestruct (fun Hgp Htime Hskip Hpre => import_invariant _ _ _ _ _ _ _ _ _ _ _ _ _ _ _ _ _ _ _ [] Hgp Htime Hskip Hpre Hrun)
    as (ws & s & st & r & accumulated & Hi & _ & Hws & Hok & Hlt & Hslot).
  - exact demo_gp_ok.
  - exact (gp_const_timeout suite_tiny).
  - reflexivity.
  - intros ws s ->%demo_initialize. split; [exact demo_state_ok|exact demo_block_ok].
  - apply demo_initialize in Hi as ->. exists st, r, accumulated. split; [exact Hrun|]. split; [exact Hws|]. split; [exact Hok|]. split; [exact Hlt|exact Hslot].
Defined.

Lemma accepted_block_isolated_witness : exists a out, demo_import demo_good demo_app = Some (Ret (a, out)) /\
  storage_inv (app_storage a) (block_id 1) /\ has_state_at (block_id 4) (app_storage a) = true /\
  Storage.state_of (app_storage a) (block_id 2) = Storage.state_of (app_storage demo_app) (block_id 2).
Proof.
  destruct demo_accepted as (a & out & Hrun). exists a, out. split; [exact Hrun|].
  edestruct (fun Hinv Hnew Hne => accepted_block_isolated _ _ _ _ _ _ _ _ _ _ _ _ _ _ _ _ _ _ _ (block_id 1) Hinv Hnew Hne Hrun)
    as (Hinv & _ & _ & Hst & _ & _ & _ & Hother).
  - exact demo_head_inv.
  - split; [|split]; [reflexivity|reflexivity|apply (bool_decide_eq_true_1 _); vm_compute; reflexivity].
  - discriminate.
  - split; [exact Hinv|]. split; [exact Hst|]. apply (Hother (block_id 2)). reflexivity.
Defined.

(** ** The refused blocks *)

Lemma demo_refused : exists x a, demo_import demo_bad demo_app = Some (Raise (x, a)).
Proof.
  assert (match demo_import demo_bad demo_app with Some (Raise _) => true | _ => false end = true) as H by (vm_compute; reflexivity).
  destruct (demo_import demo_bad demo_app) as [[x|[x a]]|]; [discriminate H|by exists x, a|discriminate H].
Qed.

Lemma rejected_block_restores_witness : exists x a, demo_import demo_bad demo_app = Some (Raise (x, a)) /\ app_storage a = app_storage demo_app.
Proof.
  destruct demo_refused as (x & a & Hrun). exists x, a. split; [exact Hrun|].
  refine (proj1 (rejected_block_restores _ _ _ _ _ _ _ _ _ _ _ _ _ _ _ _ _ _ _ _ _ _ _ _ _ Hrun)).
  - reflexivity.
  - discriminate.
  - reflexivity.
  - reflexivity.
  - reflexivity.
  - intros r [= <-]. reflexivity.
Defined.

(** The header of block 3 with a body that its extrinsic hash is not of. *)
Definition demo_replay : Block :=
  mkBlock (mkBlockHeader (mkHeader (block_id 1) 1 demo_root [] None (block_id 3)) 0 None None [] []) [1] (mkExtrinsic [] [] [] [] demo_disputes).

Lemma head_discarded_witness : has_state_at (block_id 3) (app_storage demo_app) = true /\
  exists x a, demo_import demo_replay demo_app = Some (Raise (x, a)) /\ has_state_at (block_id 3) (app_storage a) = false.
Proof.
  split; [reflexivity|].
  edestruct (head_discarded (jam := bytes_codec) (fetch := input_codec) demo_hash demo_hash (fun k => mkValidatorData k [] [] []) (drop 1) demo_items
    demo_ring demo_commitment demo_ring_verify demo_vrf_verify demo_ed_verify demo_payload (fun _ => []) (fun _ => []) demo_import_settings ∅ demo_replay demo_app)
    as (x & a & Hrun & _ & Hst & _); [reflexivity|reflexivity|discriminate|reflexivity|discriminate|discriminate|].
  exists x, a. split; [exact Hrun|exact Hst].
Defined.
