(* ===== verification/DemoRefinement.v ===== *)
(** * A report, computed

    A package of two items on a node of two cores and six validators.  Both programs give their
    arguments back.  The first item imports a segment of another package and reads an
    extrinsic; the second announces an export that it does not make.  The theorems about
    bundles and reports, instantiated on it. *)

From Stdlib Require Import ZArith Lia Bool List.
From stdpp Require Import base numbers option list sets gmap.
From S2P Require Import Prelude Constants Graypaper Defs BasicBlock Program Merkle Invocation HostCalls StateBase Sums Reports Storage Accounts Guarantees Refine Availability Refinement DemoHost DemoStorage DemoPipeline.
Import ListNotations.

#[local] Open Scope Z_scope.
#[local] Existing Instance demo_codec.

(** A quick hash, of the length and the first 72 bytes: long enough for a node of two hashes. *)
Definition quick_hash (x : bytes) : bytes := le_bytes 32 (fold_left (fun acc b => Z.land (acc * 257 + b + 1) 18446744073709551615) (take 72 x) (blen x)).

#[export] Instance quick_hash_laws : HashLaws quick_hash.
Proof. split; intros x; [apply length_le_bytes|apply le_bytes_bytes]. Qed.

#[export] Instance package_codec : FetchCodec RefinementContext unit := {
  U16_encode := le_bytes 2;
  HostCalls.U32_encode := le_bytes 4;
  HostCalls.U64_encode := le_bytes 8;
  VarInt64_encode x := 255 :: le_bytes 8 x;
  WorkPackage_to_jam_bytes p := le_bytes 4 (Z.of_nat (length (wp_items p)));
  context_to_jam_bytes _ := [];
  AccumulationInput_to_jam_bytes _ := [1];
  AccumulationInputs_encode l := le_bytes 8 (Z.of_nat (length l))
}.

#[export] Instance package_codec_laws : FetchCodecLaws RefinementContext unit.
Proof.
  assert (forall n x, blen (le_bytes n x) = Z.of_nat n) as Hlen by (intros n x; unfold blen; by rewrite length_le_bytes).
  assert (forall n x, (n <= 8)%nat -> blob_ok (le_bytes n x)) as Hle.
  { intros n x Hn. split; [apply le_bytes_bytes|]. rewrite Hlen. lia. }
  split; intros.
  1-3: split; [apply le_bytes_bytes|apply Hlen].
  - split; [constructor; [done|apply le_bytes_bytes]|]. unfold blen in *. cbn. lia.
  - apply (Hle 4%nat). lia.
  - split; [constructor|done].
  - split; [by repeat constructor|done].
  - apply (Hle 8%nat). lia.
Qed.

(** A length in one byte, then the hashes. *)
Definition hash_vector (l : list bytes) : bytes := (Z.of_nat (length l) mod 256) :: concat l.

Lemma hash_vector_blen l : Forall (fun h => length h = 32%nat) l -> blen (hash_vector l) = 1 + 32 * Z.of_nat (length l).
Proof.
  unfold blen, hash_vector. cbn [length]. induction 1 as [|h l Hh _ IH]; [done|]. cbn [concat length]. rewrite length_app, Hh. lia.
Qed.

#[export] Instance bundle_codec_laws : BundleCodecLaws hash_vector.
Proof.
  split; [|intros l Hl _; by apply hash_vector_blen]. intros p _ _ _ _ _.
  assert (0 <= sum_of (fun w => (4 + 32 + 8 + 8 + 2 + 4 + 2 + 2) + blen (wi_payload w) + Z.of_nat (length (wi_import_segments w)) * (32 + 2)
                         + Z.of_nat (length (wi_extrinsic w)) * (32 + 4)) (wp_items p)) by (apply sum_of_nonneg, Forall_forall; intros w _; unfold blen; lia).
  assert (blen (WorkPackage_to_jam_bytes p) = 4) by done. unfold blen in *. lia.
Qed.

(** Shards of the right sizes. *)
Definition quick_shards (data : bytes) (originals recovery : Z) : list bytes :=
  map (fun i => slice (i mod originals * (blen data / originals)) ((i mod originals + 1) * (blen data / originals)) data) (py_range 0 (originals + recovery)).

#[export] Instance erasure_laws : ErasureLaws hash_vector quick_shards.
Proof.
  split; [intros l Hl; rewrite hash_vector_blen by done; lia|]. intros data originals recovery k Ho Hr Hk Hlen. unfold quick_shards. split.
  - rewrite length_map, py_range_length. lia.
  - assert (blen data / originals = 2 * k) as -> by (rewrite Hlen; apply Z.div_mul; lia).
    apply List.Forall_map, List.Forall_forall. intros i _. pose proof (Z.mod_pos_bound i originals Ho). rewrite blen_slice; [lia|nia|nia].
Qed.

(** [jump r0]: the output is the argument. *)
Definition echo_blob : bytes := [0; 0; 0; 0; 0; 0; 1; 0; 0; 16; 0; 6; 0; 0; 0] ++ [0; 0; 2] ++ [50; 0] ++ [1].

#[export] Instance echo_services : ServicesState bool := {
  ServiceAccount := unit;
  retrieve_service_account _ _ := Ret (Some tt);
  historical_preimage_lookup _ _ _ _ := Ret (Some (0 :: echo_blob))
}.

#[export] Instance echo_services_laws : ServicesLaws bool.
Proof.
  split; intros; [by eexists|]. eexists. split; [done|]. split; [|done]. apply (bool_decide_eq_true_1 (List.Forall (fun b => 0 <= b < 256) _)). vm_compute. reflexivity.
Qed.

(** Two segments exported by the package [3; 3; ..]. *)
Definition demo_exports : list bytes := [replicate 4104 7; replicate 4104 8].
Definition demo_root : bytes := constant_depth_root quick_hash demo_exports.
Definition demo_other : bytes := replicate 32 3.
Definition demo_mappings : list (bytes * bytes) := [(demo_other, demo_root)].

Definition demo_blob_read : bytes := [1; 2; 3].
Definition demo_importing : WorkItem := mkWorkItem 7 (replicate 32 1) 1000 2000 0 [4; 5] [(demo_other, 1 + 2 ^ 15)] [(quick_hash demo_blob_read, 3)].
Definition demo_exporting : WorkItem := mkWorkItem 8 (replicate 32 1) 1000 2000 1 [6] [] [].
Definition demo_work : Package := mkWorkPackage _ 7 (replicate 32 2) demo_context [9] [8; 8] [demo_importing; demo_exporting].

Definition demo_proof : list bytes := match trace quick_hash demo_exports 1 with Some p => p | None => [] end.

(** The data, from the parts sent with the package. *)
Definition demo_data : BundleData :=
  match from_parts quick_hash demo_work [demo_blob_read] [replicate 4104 8] [demo_proof] with Ret d => d | _ => mkBundleData ∅ ∅ end.

Definition demo_computation : option (outcome work_exn (WorkReport * bytes * list bytes)) :=
  compute_work_report quick_hash (drop 1) (fun b => b) hash_vector quick_shards gp_tiny true demo_data demo_work 1 demo_mappings 6.

Definition report_of (r : option (outcome work_exn (WorkReport * bytes * list bytes))) : WorkReport * bytes * list bytes :=
  match r with
  | Some (Ret r) => r
  | _ => (mkWorkReport (mkPackageSpec [] 0 [] 0 [] 0) demo_context 0 [] 0 [] [] [], [], [])
  end.

Definition demo_computed : WorkReport * bytes * list bytes := report_of demo_computation.

Lemma demo_computation_run : demo_computation = Some (Ret demo_computed).
Proof. vm_compute. reflexivity. Qed.

(** The bundle: four bytes of package, the extrinsic, the segment, the proof. *)
Definition demo_bundle : bytes := [2; 0; 0; 0] ++ demo_blob_read ++ replicate 4104 8 ++ hash_vector demo_proof.

Lemma demo_parts_run : from_parts quick_hash demo_work [demo_blob_read] [replicate 4104 8] [demo_proof] = Ret demo_data.
Proof. vm_compute. reflexivity. Qed.

Lemma demo_bundle_run : assemble_bundle quick_hash hash_vector gp_tiny demo_data demo_work demo_mappings = Ret demo_bundle.
Proof. vm_compute. reflexivity. Qed.

Definition is_Ret {A} (r : outcome work_exn A) : Prop := match r with Ret _ => True | Raise _ => False end.

(** ** Witnesses *)

Lemma bundle_authentic_witness :
  exists blobs imported, Forall2 (fun item => Forall2 (names_blob quick_hash) (wi_extrinsic item)) [demo_importing; demo_exporting] blobs /\
    Forall2 (fun item => Forall2 (names_import quick_hash demo_mappings) (wi_import_segments item)) [demo_importing; demo_exporting] imported.
Proof.
  destruct (bundle_authentic quick_hash hash_vector gp_tiny demo_data demo_work demo_mappings demo_bundle demo_bundle_run)
    as (blobs & imported & _ & _ & _ & Hx & Hs). exists blobs, imported. split; [exact Hx|exact Hs].
Defined.

Lemma bundle_of_parts_witness :
  demo_bundle = WorkPackage_to_jam_bytes demo_work ++ concat [demo_blob_read] ++ concat [replicate 4104 8] ++ concat (map hash_vector [demo_proof])
  \/ collision_among quick_hash [demo_blob_read].
Proof. exact (bundle_of_parts quick_hash hash_vector gp_tiny demo_work _ _ _ demo_mappings demo_data demo_bundle demo_parts_run demo_bundle_run). Defined.

Lemma honest_parts_bundle_witness :
  (exists data, from_parts quick_hash demo_work [demo_blob_read] [replicate 4104 8] [demo_proof] = Ret data /\
     is_Ret (assemble_bundle quick_hash hash_vector gp_tiny data demo_work demo_mappings)) \/ collision_among quick_hash [demo_blob_read].
Proof.
  destruct (honest_parts_bundle quick_hash hash_vector gp_tiny demo_work demo_mappings (fun _ => demo_exports)
    [demo_blob_read] [replicate 4104 8] [demo_proof]) as [(data & Hd & Hb)|Hc]; [|left; exists data; rewrite Hb; by split|by right].
  split.
  - repeat constructor.
  - intros e He. change (e ∈ [(demo_other, 1 + 2 ^ 15)]) in He. apply elem_of_cons in He as [->|He]; [|by apply elem_of_nil in He].
    split; [vm_compute; congruence|]. split; [repeat constructor; vm_compute; reflexivity|]. vm_compute. reflexivity.
  - constructor; [vm_compute; reflexivity|constructor].
  - constructor; [vm_compute; reflexivity|constructor].
Defined.

Lemma demo_small : gp_small gp_tiny.
Proof. by split. Qed.

Lemma demo_work_bytes : computation_ok (drop 1) (fun b => b) demo_data demo_work.
Proof.
  assert (List.Forall is_byte (replicate 32 1)) as H32 by by apply Forall_replicate.
  assert (blob_ok demo_blob_read) as Hblob by by split; [repeat constructor|].
  assert (blob_ok (replicate 4104 8)) as Hseg by by split; [by apply Forall_replicate|].
  pose proof demo_parts_run as (_ & _ & _ & _ & _ & _)%from_parts_spec.
  split.
  - intros b Hb. by apply Forall_drop.
  - done.
  - intros h b Hb. assert (extrinsics demo_data = {[ quick_hash demo_blob_read := demo_blob_read ]}) as Heq by (vm_compute; reflexivity).
    rewrite Heq in Hb. by apply lookup_singleton_Some in Hb as [_ <-].
  - intros e i Hi. assert (imports demo_data = {[ (demo_other, 1 + 2 ^ 15) := mkImported (replicate 4104 8) demo_proof ]}) as Heq by (vm_compute; reflexivity).
    rewrite Heq in Hi. by apply lookup_singleton_Some in Hi as [_ <-].
  - by repeat constructor.
  - by split; split; repeat constructor.
Qed.

(** Every check on the report alone passes; the services and the roots are asked of the chain. *)
Lemma computed_report_admissible_witness :
  exists w, demo_computed.1.1 = w /\ wr_results w <> [] /\
    check_report gp_tiny demo_gc_empty ∅ w =
      (_ ← check_gas_results gp_tiny (gc_services demo_gc_empty) 0 (wr_results w);
       raise_if (negb (forallb (fun kv => bool_decide ((∅ : gmap bytes bytes) !! kv.1 = Some kv.2)) demo_mappings)) (GuaranteeE GuaranteeErrorCode.segment_root_lookup_invalid)) /\
    check_export_count w = Ret tt.
Proof.
  exists demo_computed.1.1. split; [reflexivity|]. split; [vm_compute; congruence|].
  destruct (computed_report_admissible quick_hash (drop 1) (fun b => b) hash_vector quick_shards gp_tiny true demo_data demo_work 1 demo_mappings 6
    demo_computed.1.1 demo_computed.1.2 demo_computed.2 demo_gc_empty ∅) as (Hc & He & _).
  - exact demo_small.
  - by repeat constructor; apply not_elem_of_nil.
  - by repeat constructor.
  - rewrite <-!surjective_pairing. exact demo_computation_run.
  - split; [exact Hc|exact He].
Defined.

Lemma compute_work_report_ends_witness :
  exists r, demo_computation = Some (Ret r).
Proof.
  destruct (compute_work_report_ends quick_hash (drop 1) (fun b => b) hash_vector quick_shards gp_tiny true demo_data demo_work 1 demo_mappings 6)
    as [Hr|(e & He & _)].
  - exact demo_small.
  - exact demo_work_bytes.
  - exact Hr.
  - pose proof demo_computation_run as Hrun. unfold demo_computation in Hrun. rewrite He in Hrun. discriminate Hrun.
Defined.

(** The data shards of the full and the tiny network. *)
Lemma erasure_data_shards_greatest_witness : erasure_data_shards gp_full 1023 = Ret 342 /\ EC_SEGMENT_SIZE mod (2 * 342) = 0.
Proof.
  assert (erasure_data_shards gp_full 1023 = Ret 342) as H by (vm_compute; reflexivity).
  split; [exact H|]. apply (erasure_data_shards_greatest gp_full 1023 342 H).
Defined.
